(* ===== verification/_CoqProject ===== *)
-Q . S2P
Prelude.v
StdString.v
Endian.v
OrderedSet.v
OrderedMap.v
Util.v
ByteStream.v
ByteArray.v
ByteArrayCodec.v
ByteArrayTheorems.v
Stream.v
Timer.v
TimerTheorems.v
Fiber.v
Scheduler.v
SchedulerTheorems.v
FdManager.v
HttpParser.v
Http.v
HttpResponse.v
HttpTheorems.v
HttpUrl.v
HttpUrlTheorems.v
Uri.v
UriTheorems.v
Servlet.v
HttpParserExec.v
HttpParserSafety.v
HttpMessage.v
HttpMessageTheorems.v
HttpServer.v
IOManager.v
IOManagerTheorems.v
IdleLoop.v
Hook.v
HookTheorems.v
HookWaiting.v
Address.v
AddressTheorems.v
AddressText.v
AddressOrder.v
HttpClient.v
HttpClientTheorems.v
HttpPool.v
HttpPoolTheorems.v
Yaml.v
LexicalCast.v
LexicalCastTheorems.v
Config.v
ConfigTheorems.v
ConfigLoad.v
Log.v
LogPattern.v
Logger.v
LoggerTheorems.v
LogConfig.v
LogConfigTheorems.v
Env.v
Socket.v
SocketTheorems.v
SocketStream.v
TcpServer.v
TcpServerTheorems.v
FSUtil.v
FSUtilTheorems.v
LogYaml.v
Mutex.v
LockTheorems.v
Thread.v
ThreadTheorems.v
System.v
Daemon.v
Settings.v
