(* ===== verification/Prelude.v ===== *)
(** * sylar-from-scratch: a verification library

    sylar is a C++ server framework: fibers scheduled on a pool of threads,
    timers and epoll on top of the scheduler, system calls that park a fiber
    instead of a thread, a byte buffer with a serialisation format, sockets and
    TCP servers, an HTTP stack on a table-driven parser, logging and a
    configuration in YAML.  The sources are under
    src/sylar-from-scratch/sylar/; below, names of files are relative to it.  A
    comment [file:lines, symbol] before a definition says what it translates.

    ** How the parts fit together

    Shared state is kept under the locks of mutex.h, by guards that unlock at the
    end of a scope.  A [Thread] (thread.cc) wraps a pthread and a semaphore.
    A [Fiber] (fiber.cc) is a stack with a saved context.  A [Scheduler]
    (scheduler.cc) has worker threads that take fibers and callbacks from one
    queue and resume them.  A [TimerManager] (timer.cc) keeps timers ordered by
    expiry.  An [IOManager] (iomanager.cc) is a scheduler and a timer manager:
    its idle fiber waits in [epoll_wait] for the next timer, five seconds at
    most, and queues the tasks of expired timers and of reported events.  The hooked
    calls (hook.cc) look a descriptor up in the [FdManager] (fd_manager.cc),
    register the fiber with the IO manager, and yield.

    A [Socket] (socket.cc) owns a descriptor and calls the hooked functions; it
    is bound to an [Address] (address.cc).  A [SocketStream] moves the blocks of
    a [ByteArray] (bytearray.cc) through a socket under the loops of [Stream].
    A [TcpServer] (tcp_server.cc) accepts on sockets and hands each client to a
    fiber.  [http_parser_execute] (http/http-parser/http_parser.c) is a
    character-driven machine that reports the pieces of a message to callbacks;
    those of http/http_parser.cc fill an [HttpRequest] or [HttpResponse].  The
    server passes requests to servlets; the client takes connections from a
    pool and addresses them with [Uri].

    A [Logger] (log.cpp) filters events by level and writes them through
    appenders in the pattern of a formatter.  Configuration variables
    (config.h) have a type, a text and listeners; loading a document sets them,
    and the listener of the variable [logs] makes the loggers follow it.

    ** The files

    Shared:
    - [Prelude]: bytes, machine integers ([u64], [i32]: wrap-around written
      out; [checked_s] where a signed overflow is undefined), outcomes of a C++
      call ([Ret], [Throw], [Crash]), the state and exception monad [stE] with
      the lemmas that step through a handler, threads among others as sequences
      of atomic steps ([proc], [runs]), [splice] and [slice] on lists.
    - [StdString]: the standard string functions the sources call (find, substr,
      stoi, strcasecmp, to_string).  [OrderedSet], [OrderedMap]: [std::set] and
      [std::map] as sorted lists under a comparator.
    - [Endian]: endian.h; the byte order of the host is a parameter.
    - [Util]: the string functions of util.cpp.  [FSUtil], [FSUtilTheorems]: its
      functions on files, over a class of the system calls they make.
      [System]: its clocks, names of threads, times as text and backtraces.
    - [Daemon]: daemon.h and daemon.cc, a process and the parent that restarts it.

    Buffers and streams:
    - [ByteStream], [ByteArray], [ByteArrayCodec], [ByteArrayTheorems]:
      bytearray.h and bytearray.cc.  [ByteStream] is the interface (a class
      with laws) that the codec uses and [ByteArray] implements.
    - [Stream]: stream.cc; [SocketStream]: streams/socket_stream.cc.

    Concurrency:
    - [Mutex], [LockTheorems]: mutex.h and mutex.cc: the locks, the scoped
      guards and the semaphore over classes of what pthread documents.
    - [Thread], [ThreadTheorems]: thread.h and thread.cc over those semaphores.
    - [Timer], [TimerTheorems]: timer.h and timer.cc.
    - [Fiber]: fiber.h, fiber.cc and the assertion of macro.h.
    - [Scheduler], [SchedulerTheorems]: scheduler.h and scheduler.cc, the loop
      of every worker cut into the steps other threads can come between.
    - [IOManager], [IOManagerTheorems], [IdleLoop]: iomanager.h and
      iomanager.cc.
    - [FdManager]: fd_manager.h and fd_manager.cc.  [Hook]: hook.cc, with
      [HookTheorems] on the flags of descriptors and [HookWaiting] on the calls
      that wait, over [IOManager] and [Timer].

    Network:
    - [Address], [AddressTheorems], [AddressText], [AddressOrder]: address.h and
      address.cc; subnets, printing and parsing, comparison.
    - [Socket], [SocketTheorems]: socket.h and socket.cc over [FdManager],
      [Hook] and [Address].  The state [net] holds all sockets; a call that
      waits is an arbitrary change of it by the atomic steps of other fibers.
    - [TcpServer], [TcpServerTheorems]: tcp_server.h and tcp_server.cc.

    HTTP:
    - [HttpParser], [HttpParserExec], [HttpParserSafety]:
      http/http-parser/http_parser.h and http_parser.c: data and tables, the
      function, and why it never fails an assertion.  [HttpUrl],
      [HttpUrlTheorems]: its [http_parser_parse_url].
    - [Http], [HttpResponse], [HttpTheorems]: http/http.h and http/http.cc.
    - [HttpMessage], [HttpMessageTheorems]: http/http_parser.cc,
      http/http_session.cc and the reading half of http/http_connection.cc.
    - [Servlet], [HttpServer]: http/servlet.cc and http/http_server.cc.
    - [Uri], [UriTheorems]: uri.h and uri.cc.
    - [HttpClient], [HttpClientTheorems], [HttpPool], [HttpPoolTheorems]:
      http/http_connection.h and http/http_connection.cc.

    Configuration and logging:
    - [Yaml]: the class of what the code uses of yaml-cpp, its laws, and a
      concrete instance.
    - [LexicalCast], [LexicalCastTheorems], [Config], [ConfigTheorems],
      [ConfigLoad]: config.h and config.cc.
    - [Log], [LogPattern], [Logger], [LoggerTheorems]: log.h and log.cpp; the
      formatter, then appenders, loggers and the manager.
    - [LogConfig], [LogConfigTheorems], [LogYaml]: the definitions of loggers in
      log.cpp, the listener that applies them, and their text.
    - [Env]: env.h and env.cc.
    - [Settings]: the statics of hook.cc and http/http_parser.cc that follow
      configuration variables.

    ** What the theorems show

    - Buffer: a [ByteArray] of any block size refines one flat buffer with a
      position; typed messages without empty strings survive a round trip between hosts of either
      byte order and their wire format does not depend on the host; reading a
      truncated string throws; the scatter and gather segments are exact.
    - Timers: every history of calls keeps the set sorted and live; exactly
      the due timers fire, in order; a waiting thread is never late.
    - Fibers and scheduler: what a switch saves and restores; tasks are
      conserved, callbacks start in order, the active count is exact; the
      window of [yield] in which a fiber can be resumed without a context.
    - Event loop: every operation refines a table of waits; the kernel watches
      exactly the registered events, whichever calls it refuses; a turn of the
      loop, with steps of other threads between its own, loses no reported event
      and no due timer, and stops when it found nothing left; two races.
    - Hooks: the table of descriptor contexts is a map; a descriptor a fiber
      asked to be blocking stays non-blocking underneath; a parked call is
      registered or queued in every interleaving, and its time-out wakes it
      unless it fired before the call parked or the kernel refuses.
    - Addresses: the masks and counts of subnets; what is printed is parsed
      back; comparison is the order of the stored bytes.
    - Sockets and servers: in every history each open socket has a descriptor
      of its own; transfers of a fixed size move exactly these bytes; a server
      binds every address or none; after [stop] all loops end and all sockets
      are closed, unless [start] comes in between.
    - HTTP: no input and no way to cut it makes an assertion of the parser
      fail; URLs are parsed within bounds and survive printing; reading a
      message and serving a connection end; encoded parameters are read back;
      the pool of connections counts and deletes each exactly once.
    - Configuration: a variable keeps its type; a document sets exactly the
      variables it names; values survive their text, with one exception.
    - Logging: a pattern means its elements; an event is handed to the stream of
      every appender whose level allows it, once; the loggers follow the configuration as
      their view says; printed definitions are read back.
    - Locks and threads: regions under a lock are atomic (every interleaving of
      the steps of locks, guards and accesses ends as some sequence of whole
      regions) and always finish; a thread's constructor returns only after the
      new thread took its callback and name; two pitfalls of the handles.
    - Settings: the statics that cache a variable follow it through every
      history of changes; two threads that change it at once can leave the two
      apart.
    - Utilities: URL encoding against a reference; [Rm] removes of a tree what the
      system does not refuse and nothing else.

    ** Bounds and fuel

    Loops that are not structural take fuel: those over a buffer, its number of
    blocks; over the text of a URL, a pattern or a list of parameters, its length
    and one more; over HTTP input, the length of the input; the loops that
    receive, the number of pieces the peer sends; the transfers of a fixed
    size, the bytes to move; chains of [goto reexecute], six (none is longer
    than four); counting bits, 33; hexadecimal digits of a number, eight;
    directories, the depth of the tree or of the document.  Running out is the
    fault [no_fuel], and a theorem about such a loop shows it does not
    happen.

    ** Not modelled

    The class helpers (singleton.h, noncopyable.h: no state of their own), the
    test programs, and of util the formatted printing, [atof] and wide strings,
    which only call the C library.  The guards of [NullRWMutex] have no use and
    cannot be instantiated.  The system calls, pthread, [boost::lexical_cast],
    yaml-cpp, [fnmatch], [strftime] and the demangler are parameters with
    documented laws.  What is only written to the log or the console is left
    out of the operations that do so, and so is what the buffers of file
    streams do with text they accepted.  Files other than [LockTheorems] take
    what one lock protects as one atomic step; [regions_atomic] is the reason
    this is sound for code that keeps to the guards.  Code that gives a lock up
    in between is cut there where it matters: [addEvent] and the event loop,
    [FdManager::get], [ConfigVar::setValue], the loop of a worker; [Thread::join]
    is not, so that a deletion while it waits is not seen. *)
From Stdlib Require Export ZArith Lia Bool Ascii String.
From stdpp Require Export base tactics numbers option list gmap strings.


(* ------------------------------------------------------------------ *)
(** ** Characters and byte strings *)

(** [char] of the source is an 8-bit [ascii]; a [std::string], which may
    hold NUL bytes, is a [list ascii]. *)
Abbreviation bytes := (list ascii) (only parsing).

(** The byte string of a literal. *)
Definition lit (s : string) : bytes := list_ascii_of_string s.

(** The value of a byte, as [unsigned char]. *)
Definition uchar (c : ascii) : Z := Z.of_N (N_of_ascii c).

(** [(char) z] : conversion keeps the low eight bits. *)
Definition char_of (z : Z) : ascii := ascii_of_N (Z.to_N (z mod 256)).

(** [(int) c] where [char] is signed, as on the platforms the program
    is built for. *)
Definition schar (c : ascii) : Z :=
  if decide (uchar c < 128)%Z then uchar c else (uchar c - 256)%Z.

Declare Scope sylar_scope.
Delimit Scope sylar_scope with sylar.
Notation "'B' s" := (lit s%string) (at level 8, s at level 0, only parsing) : sylar_scope.
#[global] Open Scope sylar_scope.

(* ------------------------------------------------------------------ *)
(** ** Machine integers: values in [Z], wrap-around written out *)

(** Value of [z] converted to an unsigned / signed type of [w] bits. *)
Definition wrapu (w z : Z) : Z := (z mod 2 ^ w)%Z.
Definition wraps (w z : Z) : Z :=
  let u := (z mod 2 ^ w)%Z in
  if decide (u < 2 ^ (w - 1))%Z then u else (u - 2 ^ w)%Z.

Abbreviation u8 := (wrapu 8).
Abbreviation u16 := (wrapu 16).
Abbreviation u32 := (wrapu 32).
Abbreviation u64 := (wrapu 64).
Abbreviation i32 := (wraps 32).
Abbreviation i64 := (wraps 64).

Definition in_u (w z : Z) : Prop := (0 <= z < 2 ^ w)%Z.
Definition in_s (w z : Z) : Prop := (- 2 ^ (w - 1) <= z < 2 ^ (w - 1))%Z.

#[global] Instance in_u_dec w z : Decision (in_u w z).
Proof. unfold in_u. apply _. Defined.
#[global] Instance in_s_dec w z : Decision (in_s w z).
Proof. unfold in_s. apply _. Defined.

(* ------------------------------------------------------------------ *)
(** ** Outcomes of a C++ call *)

(** Exceptions the source throws (or lets the standard library throw). *)
Inductive exn :=
  | out_of_range
  | invalid_argument
  | logic_error
  | length_error
  | bad_lexical_cast.

(** Ways an execution leaves the defined behaviour of the language or is
    stopped: a dereferenced null pointer, the use of a deleted object, an
    access outside an object, a division by zero, a shift by the width or more,
    an arithmetic overflow of a signed integer where the source can reach one, a
    failed [SYLAR_ASSERT], a call to an empty [std::function], and a loop
    that the model's fuel does not cover (each use comes with a theorem that it
    does not happen). *)
Inductive fault :=
  | null_deref
  | dangling
  | out_of_bounds
  | div_by_zero
  | bad_shift
  | signed_overflow
  | assert_failed
  | bad_iterator
  | negative_length
  | bad_call
  | no_fuel.

Inductive outcome (A : Type) :=
  | Ret (a : A)
  | Throw (e : exn)
  | Crash (f : fault).
Arguments Ret {A} a.
Arguments Throw {A} e.
Arguments Crash {A} f.

(** The result of an arithmetic operation on [w]-bit signed integers:
    the language defines it only when it fits. *)
Definition checked_s (w x : Z) : outcome Z :=
  if decide (in_s w x) then Ret x else Crash signed_overflow.

#[global] Instance exn_eq_dec : EqDecision exn.
Proof. solve_decision. Defined.
#[global] Instance fault_eq_dec : EqDecision fault.
Proof. solve_decision. Defined.

(** State passing with exceptions.  An exception keeps the writes made
    before it was thrown, as in C++. *)
Definition stE (S A : Type) : Type := S → outcome A * S.

#[global] Instance stE_ret {S} : MRet (stE S) := λ A a s, (Ret a, s).
#[global] Instance stE_bind {S} : MBind (stE S) := λ A C f m s,
  match m s with
  | (Ret a, s') => f a s'
  | (Throw e, s') => (Throw e, s')
  | (Crash c, s') => (Crash c, s')
  end.

Definition get {S} : stE S S := λ s, (Ret s, s).
Definition put {S} (s : S) : stE S unit := λ _, (Ret tt, s).
Definition modify {S} (f : S → S) : stE S unit := λ s, (Ret tt, f s).
Definition query {S A} (f : S → outcome A) : stE S A := λ s, (f s, s).
Definition throw {S A} (e : exn) : stE S A := λ s, (Throw e, s).
Definition crash {S A} (c : fault) : stE S A := λ s, (Crash c, s).

(** Monad equations used to step through a handler. *)
Lemma stE_bind_ret {S A C} (f : A → stE S C) (m : stE S A) s a s' :
  m s = (Ret a, s') → (m ≫= f) s = f a s'.
Proof. intros H. unfold mbind, stE_bind. by rewrite H. Qed.

Lemma stE_bind_throw {S A C} (f : A → stE S C) (m : stE S A) s e s' :
  m s = (Throw e, s') → (m ≫= f) s = (Throw e, s').
Proof. intros H. unfold mbind, stE_bind. by rewrite H. Qed.

Lemma stE_bind_crash {S A C} (f : A → stE S C) (m : stE S A) s c s' :
  m s = (Crash c, s') → (m ≫= f) s = (Crash c, s').
Proof. intros H. unfold mbind, stE_bind. by rewrite H. Qed.

(** A run that returned went through each of its parts. *)
Lemma stE_bind_inv {S A C} (f : A → stE S C) (m : stE S A) s c s'' :
  (m ≫= f) s = (Ret c, s'') → ∃ a s', m s = (Ret a, s') ∧ f a s' = (Ret c, s'').
Proof.
  unfold mbind, stE_bind. destruct (m s) as [[a|e|x] s'] eqn:E; intros H; [by exists a, s'|done..].
Qed.

Lemma get_bind {S C} (f : S → stE S C) s : (get ≫= f) s = f s s.
Proof. done. Qed.
Lemma modify_bind {S C} (g : S → S) (f : unit → stE S C) s : (modify g ≫= f) s = f tt (g s).
Proof. done. Qed.
Lemma mret_bind {S A C} (a : A) (f : A → stE S C) s : (mret a ≫= f) s = f a s.
Proof. done. Qed.
Lemma mret_inv {S A} (a b : A) (s s' : S) : (mret a : stE S A) s = (Ret b, s') → a = b ∧ s = s'.
Proof. by intros [= -> ->]. Qed.

(** Take a hypothesis about a run apart: its pure steps are carried out,
    the first other call is named. *)
Ltac stE_simpl H := rewrite ?get_bind, ?modify_bind, ?mret_bind in H.
Tactic Notation "stE_call" hyp(H) ident(x) ident(s) ident(E) :=
  stE_simpl H; apply stE_bind_inv in H as (x & s & E & H); stE_simpl H.
Tactic Notation "stE_ret" hyp(H) := apply mret_inv in H as [<- <-].

(** A thread among others: its program as a sequence of steps, each of
    which is atomic, takes something from outside (the clock, a fresh
    address, an answer of the kernel) of which [ok] holds, and decides how
    the program goes on. *)
Inductive proc (S A : Type) : Type :=
  | Over (a : A)
  | Then {X Y : Type} (ok : S → X → Prop) (step : X → stE S Y) (k : Y → proc S A).
Arguments Over {S A} a.
Arguments Then {S A X Y} ok step k.

(** Nothing comes from outside. *)
Definition always {S} : S → unit → Prop := λ _ _, True.

(** The runs, with any number of steps of other threads ([other]) before
    each: the states before and after each step of the thread itself, the
    outcome and the state at the end. *)
Inductive runs {S A} (other : S → S → Prop) : S → proc S A → list (S * S) → outcome A → S → Prop :=
  | runs_over s a : runs other s (Over a) [] (Ret a) s
  | runs_other s s1 p tr o s' : other s s1 → runs other s1 p tr o s' → runs other s p tr o s'
  | runs_then s X Y (ok : S → X → Prop) (step : X → stE S Y) k x b s1 tr o s' :
      ok s x → step x s = (Ret b, s1) → runs other s1 (k b) tr o s' →
      runs other s (Then ok step k) ((s, s1) :: tr) o s'
  | runs_throw s X Y (ok : S → X → Prop) (step : X → stE S Y) k x e s1 :
      ok s x → step x s = (Throw e, s1) → runs other s (Then ok step k) [(s, s1)] (Throw e) s1
  | runs_crash s X Y (ok : S → X → Prop) (step : X → stE S Y) k x c s1 :
      ok s x → step x s = (Crash c, s1) → runs other s (Then ok step k) [(s, s1)] (Crash c) s1.

(** A run is over, or its first own step is made in a state that the
    others left. *)
Lemma runs_inv {S A} (other : S → S → Prop) s (p : proc S A) tr o s' : runs other s p tr o s' →
  match p with
  | Over a => tr = [] ∧ o = Ret a ∧ rtc other s s'
  | Then ok step k => ∃ s0 x s1, rtc other s s0 ∧ ok s0 x ∧
      match step x s0 with
      | (Ret y, s2) => s2 = s1 ∧ ∃ tr', tr = (s0, s1) :: tr' ∧ runs other s1 (k y) tr' o s'
      | (Throw e, s2) => s2 = s1 ∧ tr = [(s0, s1)] ∧ o = Throw e
      | (Crash c, s2) => s2 = s1 ∧ tr = [(s0, s1)] ∧ o = Crash c
      end
  end.
Proof.
  induction 1 as [s a|s s1 p tr o s' Ho _ IH|s X Y ok step k x y s1 tr o s' Hok E H _
                 |s X Y ok step k x e s1 Hok E|s X Y ok step k x c s1 Hok E].
  - done.
  - destruct p as [a|X Y ok step k].
    + destruct IH as (? & ? & ?). split_and!; try done. by eapply rtc_l.
    + destruct IH as (s0 & x & s2 & Hr & ?). exists s0, x, s2. split; [by eapply rtc_l|done].
  - exists s, x, s1. rewrite E. do 3 (split; [done|]). by exists tr.
  - exists s, x, s1. by rewrite E.
  - exists s, x, s1. by rewrite E.
Qed.

(** Outcomes alone: for code without state. *)
#[global] Instance outcome_ret : MRet outcome := λ A a, Ret a.
#[global] Instance outcome_bind : MBind outcome := λ A C f m,
  match m with Ret a => f a | Throw e => Throw e | Crash c => Crash c end.

(* ------------------------------------------------------------------ *)
(** ** Lemmas on bytes and words *)

Lemma uchar_range c : (0 <= uchar c < 256)%Z.
Proof.
  unfold uchar. pose proof (N_ascii_bounded c). lia.
Qed.

Lemma char_of_uchar c : char_of (uchar c) = c.
Proof.
  unfold char_of. rewrite Z.mod_small by apply uchar_range.
  unfold uchar. rewrite N2Z.id. apply ascii_N_embedding.
Qed.

Lemma uchar_char_of z : uchar (char_of z) = (z mod 256)%Z.
Proof.
  unfold uchar, char_of.
  pose proof (Z.mod_pos_bound z 256 ltac:(lia)).
  rewrite N_ascii_embedding by lia. lia.
Qed.

Lemma uchar_inj c d : uchar c = uchar d → c = d.
Proof. intros H. by rewrite <- (char_of_uchar c), <- (char_of_uchar d), H. Qed.

Lemma wrapu_range w z : (0 <= w)%Z → in_u w (wrapu w z).
Proof. intros. apply Z.mod_pos_bound, Z.pow_pos_nonneg; lia. Qed.

Lemma wrapu_small w z : in_u w z → wrapu w z = z.
Proof. apply Z.mod_small. Qed.

Lemma wraps_range w z : (0 < w)%Z → in_s w (wraps w z).
Proof.
  intros Hw. unfold wraps, in_s.
  pose proof (Z.mod_pos_bound z (2 ^ w) ltac:(apply Z.pow_pos_nonneg; lia)).
  assert (2 ^ w = 2 * 2 ^ (w - 1))%Z.
  { rewrite <- Z.pow_succ_r by lia. f_equal. lia. }
  case_decide; lia.
Qed.

Lemma wraps_small w z : (0 < w)%Z → in_s w z → wraps w z = z.
Proof.
  intros Hw Hz. unfold wraps, in_s in *.
  assert (2 ^ w = 2 * 2 ^ (w - 1))%Z.
  { rewrite <- Z.pow_succ_r by lia. f_equal. lia. }
  destruct (decide (0 <= z)%Z).
  - rewrite Z.mod_small by lia. case_decide; lia.
  - assert (z mod 2 ^ w = z + 2 ^ w)%Z as ->.
    { rewrite <- (Z.mod_small (z + 2 ^ w) (2 ^ w)) by lia.
      rewrite <- (Z.mul_1_l (2 ^ w)) at 2. by rewrite Z.mod_add by lia. }
    case_decide; lia.
Qed.

Lemma wraps_add_pow w z : (0 <= w)%Z → wraps w (z + 2 ^ w) = wraps w z.
Proof.
  intros. assert ((z + 2 ^ w) mod 2 ^ w = z mod 2 ^ w)%Z as E.
  { rewrite <- (Z.mul_1_l (2 ^ w)) at 1. by rewrite Z.mod_add by (apply Z.pow_nonzero; lia). }
  unfold wraps. by rewrite E.
Qed.

(** Signed and unsigned readings of the same [w] bits. *)
Lemma wraps_wrapu w z : wraps w (wrapu w z) = wraps w z.
Proof. unfold wraps, wrapu. by rewrite Z.mod_mod_divide by apply Z.divide_refl. Qed.

Lemma wrapu_wraps w z : (0 < w)%Z → wrapu w (wraps w z) = wrapu w z.
Proof.
  intros Hw. unfold wraps, wrapu.
  assert (0 < 2 ^ w)%Z by (apply Z.pow_pos_nonneg; lia).
  case_decide.
  - by rewrite Z.mod_mod by lia.
  - rewrite <- Zminus_mod_idemp_r, Z_mod_same_full, Z.sub_0_r.
    by rewrite Z.mod_mod by lia.
Qed.

(* ------------------------------------------------------------------ *)
(** ** Object representation: the bytes of an integer in memory *)

(** The [n] bytes of [z], least significant first, and back. *)
Fixpoint le_bytes (n : nat) (z : Z) : bytes :=
  match n with
  | O => []
  | S n' => char_of z :: le_bytes n' (z / 256)%Z
  end.

Fixpoint le_val (l : bytes) : Z :=
  match l with
  | [] => 0%Z
  | c :: l' => (uchar c + 256 * le_val l')%Z
  end.

Lemma length_le_bytes n z : length (le_bytes n z) = n.
Proof. revert z; induction n; intros; simpl; auto. Qed.

Lemma le_val_range l : (0 <= le_val l < 256 ^ Z.of_nat (length l))%Z.
Proof.
  induction l as [|c l IH]; [simpl; lia|].
  cbn [le_val length]. rewrite Nat2Z.inj_succ, Z.pow_succ_r by lia.
  pose proof (uchar_range c). nia.
Qed.

Lemma le_val_bytes n z : le_val (le_bytes n z) = (z mod 256 ^ Z.of_nat n)%Z.
Proof.
  revert z; induction n as [|n IH]; intros z.
  - cbn. by rewrite Z.mod_1_r.
  - cbn [le_val le_bytes].
    rewrite IH, uchar_char_of, Nat2Z.inj_succ, Z.pow_succ_r by lia.
    rewrite Z.rem_mul_r by (try apply Z.pow_nonzero; lia). lia.
Qed.

Lemma le_bytes_val l : le_bytes (length l) (le_val l) = l.
Proof.
  induction l as [|c l IH]; [done|]. cbn [le_val le_bytes length].
  pose proof (uchar_range c).
  replace ((uchar c + 256 * le_val l) / 256)%Z with (le_val l).
  2:{ rewrite (Z.mul_comm 256), Z.div_add by lia.
      rewrite Z.div_small by lia. lia. }
  rewrite IH. f_equal. unfold char_of.
  rewrite (Z.mul_comm 256), Z_mod_plus_full, Z.mod_small by lia.
  unfold uchar. rewrite N2Z.id. apply ascii_N_embedding.
Qed.

Lemma le_bytes_mod n z w :
  w = (8 * Z.of_nat n)%Z → le_bytes n (wrapu w z) = le_bytes n z.
Proof.
  intros ->. unfold wrapu.
  rewrite <- (le_bytes_val (le_bytes n z)), le_val_bytes, length_le_bytes.
  by rewrite Z.pow_mul_r by lia.
Qed.

Lemma le_bytes_app n m z :
  le_bytes (n + m) z = le_bytes n z ++ le_bytes m (z / 256 ^ Z.of_nat n)%Z.
Proof.
  revert z; induction n as [|n IH]; intros z; cbn [le_bytes Nat.add].
  - by rewrite Z.div_1_r.
  - rewrite IH, Nat2Z.inj_succ, Z.pow_succ_r by lia. cbn [app]. do 2 f_equal.
    by rewrite Z.div_div by (try apply Z.pow_pos_nonneg; lia).
Qed.

Lemma le_val_app k l :
  le_val (k ++ l) = (le_val k + 256 ^ Z.of_nat (length k) * le_val l)%Z.
Proof.
  induction k as [|c k IH]; [cbn [le_val app length]; lia|].
  cbn [le_val app length]. rewrite IH, Nat2Z.inj_succ, Z.pow_succ_r by lia. ring.
Qed.


(** Masks and shifts of the source as arithmetic. *)
Lemma lor_shiftl_add a b k :
  (0 <= k)%Z → (0 <= b < 2 ^ k)%Z → Z.lor (Z.shiftl a k) b = (a * 2 ^ k + b)%Z.
Proof.
  intros Hk Hb. rewrite Z.shiftl_mul_pow2 by lia.
  assert (Z.land (a * 2 ^ k) b = 0)%Z as Hland.
  { apply Z.bits_inj'. intros i Hi. rewrite Z.land_spec, Z.bits_0.
    destruct (decide (i < k)%Z).
    - by rewrite Z.mul_pow2_bits_low by lia.
    - rewrite <- (Z.mod_small b (2 ^ k)) by lia.
      rewrite Z.mod_pow2_bits_high by lia. apply andb_false_r. }
  by rewrite Z.add_nocarry_lxor, Z.lxor_lor by done.
Qed.

Lemma lor_add_shiftl a b k :
  (0 <= k)%Z → (0 <= b < 2 ^ k)%Z → Z.lor b (Z.shiftl a k) = (b + a * 2 ^ k)%Z.
Proof. intros. rewrite Z.lor_comm, lor_shiftl_add by done. lia. Qed.

(* ------------------------------------------------------------------ *)
(** ** [memcpy] into a block *)

(** [splice i d l] is [l] with the bytes [d] written at offset [i]. *)
Definition splice {A} (i : nat) (d l : list A) : list A :=
  take i l ++ d ++ drop (i + length d) l.

Section splice.
Context {A : Type}.
Implicit Types d l : list A.

Lemma length_splice i d l :
  i + length d ≤ length l → length (splice i d l) = length l.
Proof.
  intros. unfold splice. rewrite !length_app, length_take, length_drop. lia.
Qed.

Lemma splice_nil i l : splice i [] l = l.
Proof. unfold splice. simpl. rewrite Nat.add_0_r. apply take_drop. Qed.


Lemma drop_splice i d l :
  i ≤ length l → drop (i + length d) (splice i d l) = drop (i + length d) l.
Proof.
  intros. unfold splice. rewrite drop_app_ge by (rewrite length_take; lia).
  rewrite drop_app_ge by (rewrite length_take; lia).
  rewrite drop_drop. f_equal. rewrite length_take. lia.
Qed.

(** What was written is what is read back. *)
Lemma read_splice i d l : i ≤ length l → take (length d) (drop i (splice i d l)) = d.
Proof.
  intros. unfold splice.
  rewrite drop_app_ge by (rewrite length_take; lia).
  rewrite length_take, Nat.min_l, Nat.sub_diag, drop_0 by lia.
  rewrite take_app_le by lia. by rewrite take_ge by lia.
Qed.


(** Two adjacent writes are one write. *)
Lemma splice_splice_app i d1 d2 l :
  i ≤ length l → splice (i + length d1) d2 (splice i d1 l) = splice i (d1 ++ d2) l.
Proof.
  intros. unfold splice at 1.
  assert (take (i + length d1) (splice i d1 l) = take i l ++ d1) as ->.
  { unfold splice. rewrite (assoc_L (++)).
    rewrite take_app_le by (rewrite length_app, length_take; lia).
    apply take_ge. rewrite length_app, length_take; lia. }
  assert (drop (i + length d1 + length d2) (splice i d1 l)
          = drop (i + length d1 + length d2) l) as ->.
  { rewrite <- !(drop_drop _ (length d2)). by rewrite drop_splice by lia. }
  unfold splice. rewrite length_app, <- !(assoc_L (++)). do 3 f_equal.
  f_equal. lia.
Qed.

(** A write inside one of two adjacent blocks. *)
Lemma splice_app_l i d l k :
  i + length d ≤ length l → splice i d (l ++ k) = splice i d l ++ k.
Proof.
  intros. unfold splice. rewrite take_app_le, drop_app_le by lia.
  by rewrite <- !(assoc_L (++)).
Qed.

Lemma splice_app_r i d l k :
  splice (length l + i) d (l ++ k) = l ++ splice i d k.
Proof.
  unfold splice. rewrite take_app_ge, drop_app_ge by lia.
  rewrite <- !(assoc_L (++)). do 2 f_equal; [f_equal; lia|].
  do 2 f_equal. lia.
Qed.
End splice.

(** Reading [n] bytes at offset [i]. *)
Definition slice {A} (i n : nat) (l : list A) : list A := take n (drop i l).

Lemma length_slice {A} i n (l : list A) :
  i + n ≤ length l → length (slice i n l) = n.
Proof. intros. unfold slice. rewrite length_take, length_drop. lia. Qed.

Lemma slice_app_split {A} i n m (l : list A) :
  slice i (n + m) l = slice i n l ++ slice (i + n) m l.
Proof.
  unfold slice. rewrite <- drop_drop.
  rewrite <- (take_drop n (take (n + m) (drop i l))) at 1.
  rewrite take_take, skipn_firstn_comm. do 2 f_equal; lia.
Qed.

(** A claim about every number of a range, by evaluation. *)
Lemma forall_range (p : Z → bool) m n : forallb p (seqZ m n) = true → ∀ i, (m <= i < m + n)%Z → p i = true.
Proof. intros H i Hi. rewrite forallb_forall in H. by apply H, list_elem_of_In, elem_of_seqZ. Qed.

Create HintDb sylar.
Create Rewrite HintDb sylar.
#[export] Hint Resolve uchar_range wrapu_range wraps_range length_le_bytes : sylar.
#[export] Hint Rewrite @length_splice using lia : sylar.
#[export] Hint Rewrite length_le_bytes char_of_uchar @splice_nil : sylar.
#[global] Arguments splice : simpl never.
#[global] Arguments slice : simpl never.
#[global] Arguments wrapu : simpl never.
#[global] Arguments wraps : simpl never.
