(* ===== verification/StdString.v ===== *)
(** * The C and C++ string functions the sources call

    [std::string] searches, [substr], the [ctype.h] classes of the "C"
    locale, [strcasecmp], [strtoull] and its relatives, [std::to_string],
    with the lemmas their callers share.  A position that may be [npos] is
    an [option nat]. *)
From S2P Require Import Prelude.

Local Open Scope Z_scope.

(* ------------------------------------------------------------------ *)
(** ** [std::string] *)

(** [s.c_str()] read as a C string: up to the first NUL. *)
Fixpoint c_str (s : bytes) : bytes :=
  match s with
  | [] => []
  | c :: r => if Ascii.eqb c zero then [] else c :: c_str r
  end.

(** The first index at or after [i] whose character satisfies [p]. *)
Fixpoint find_from (p : ascii → bool) (s : bytes) (i : nat) : option nat :=
  match s, i with
  | [], _ => None
  | c :: r, O => if p c then Some O else S <$> find_from p r O
  | _ :: r, S i' => S <$> find_from p r i'
  end.

(** The last index whose character satisfies [p]. *)
Fixpoint find_last (p : ascii → bool) (s : bytes) : option nat :=
  match s with
  | [] => None
  | c :: r =>
      match find_last p r with
      | Some i => Some (S i)
      | None => if p c then Some O else None
      end
  end.

Definition mem_char (set : bytes) (c : ascii) : bool := existsb (Ascii.eqb c) set.

Definition find_char (s : bytes) (c : ascii) (i : nat) : option nat := find_from (Ascii.eqb c) s i.
Definition rfind_char (s : bytes) (c : ascii) : option nat := find_last (Ascii.eqb c) s.
Definition find_first_not_of (s set : bytes) : option nat := find_from (λ c, negb (mem_char set c)) s 0.
Definition find_last_not_of (s set : bytes) : option nat := find_last (λ c, negb (mem_char set c)) s.

(** [s.substr(pos, n)]; [None] is [npos]. *)
Definition substr (s : bytes) (i : nat) (n : option nat) : outcome bytes :=
  if (length s <? i)%nat then Throw out_of_range
  else Ret (match n with Some n => take n (drop i s) | None => drop i s end).

(** The index, if any, at which [t] starts in [s]. *)
Fixpoint find_sub (t s : bytes) : option nat :=
  if bool_decide (take (length t) s = t) then Some O
  else match s with [] => None | _ :: r => S <$> find_sub t r end.

(* ------------------------------------------------------------------ *)
(** ** [ctype.h], in the "C" locale *)

Definition char_in (lo hi : Z) (c : ascii) : bool := (lo <=? uchar c) && (uchar c <=? hi).

Definition isdigit (c : ascii) : bool := char_in 48 57 c.
Definition isupper (c : ascii) : bool := char_in 65 90 c.
Definition islower (c : ascii) : bool := char_in 97 122 c.
Definition isxdigit (c : ascii) : bool := isdigit c || char_in 65 70 c || char_in 97 102 c.
Definition isspace (c : ascii) : bool := char_in 9 13 c || (uchar c =? 32).

Definition tolower (c : ascii) : ascii := if isupper c then char_of (uchar c + 32) else c.
Definition toupper (c : ascii) : ascii := if islower c then char_of (uchar c - 32) else c.

(** The difference of the first characters that differ, ignoring case. *)
Fixpoint casecmp (s t : bytes) : Z :=
  match s, t with
  | [], [] => 0
  | c :: _, [] => uchar (tolower c)
  | [], d :: _ => - uchar (tolower d)
  | c :: s', d :: t' =>
      if Ascii.eqb (tolower c) (tolower d) then casecmp s' t'
      else uchar (tolower c) - uchar (tolower d)
  end.
Definition strcasecmp (s t : bytes) : Z := casecmp (c_str s) (c_str t).

(** [strcasestr(s, t) != nullptr]. *)
Definition strcasestr (s t : bytes) : bool :=
  bool_decide (is_Some (find_sub (tolower <$> c_str t) (tolower <$> c_str s))).

(* ------------------------------------------------------------------ *)
(** ** Decimal numbers *)

Definition digit_val (c : ascii) : Z := uchar c - 48.
Definition digit_char (d : Z) : ascii := char_of (48 + d).

(** The value of a string of digits, most significant first. *)
Definition dec_val (s : bytes) : Z := fold_left (λ a c, 10 * a + digit_val c) s 0.

Fixpoint take_while (p : ascii → bool) (s : bytes) : bytes :=
  match s with
  | [] => []
  | c :: r => if p c then c :: take_while p r else []
  end.
Fixpoint drop_while (p : ascii → bool) (s : bytes) : bytes :=
  match s with
  | [] => []
  | c :: r => if p c then drop_while p r else s
  end.

(** Blanks, an optional sign, digits: the sign and the digits. *)
Definition scan_int (s : bytes) : bool * bytes :=
  match drop_while isspace s with
  | c :: r =>
      if Ascii.eqb c "-" then (true, take_while isdigit r)
      else if Ascii.eqb c "+" then (false, take_while isdigit r)
      else (false, take_while isdigit (c :: r))
  | [] => (false, [])
  end.

(** [strtoull(s, nullptr, 10)]: a value too large is [ULLONG_MAX]; a sign
    negates modulo 2^64. *)
Definition strtoull (s : bytes) : Z :=
  let '(neg, ds) := scan_int (c_str s) in
  if 2 ^ 64 - 1 <? dec_val ds then 2 ^ 64 - 1
  else u64 (if neg then - dec_val ds else dec_val ds).

(** [strtol(s, nullptr, 10)] with a 64-bit [long]. *)
Definition strtol (s : bytes) : Z :=
  let '(neg, ds) := scan_int (c_str s) in
  Z.max (- 2 ^ 63) (Z.min (2 ^ 63 - 1) (if neg then - dec_val ds else dec_val ds)).

Definition atoi (s : bytes) : Z := i32 (strtol s).

(** [std::stoi]. *)
Definition stoi (s : bytes) : outcome Z :=
  let '(_, ds) := scan_int (c_str s) in
  match ds with
  | [] => Throw invalid_argument
  | _ => if decide (in_s 32 (strtol s)) then Ret (strtol s) else Throw out_of_range
  end.

(** The digits of a non-negative number, least significant first. *)
Fixpoint dec_rev (fuel : nat) (n : Z) : bytes :=
  match fuel with
  | O => []
  | S f => digit_char (n mod 10) :: (if n / 10 =? 0 then [] else dec_rev f (n / 10))
  end.

(** [std::to_string] and [os << n]. *)
Definition to_string (z : Z) : bytes :=
  let ds n := reverse (dec_rev (S (Z.to_nat (Z.log2 n))) n) in
  if z <? 0 then "-"%char :: ds (- z) else ds z.

(* ------------------------------------------------------------------ *)
(** ** Lemmas *)

Lemma ascii_eqb_refl c : Ascii.eqb c c = true.
Proof. by apply Ascii.eqb_eq. Qed.

Lemma ascii_eqb_neq c d : c ≠ d → Ascii.eqb c d = false.
Proof. apply Ascii.eqb_neq. Qed.

Lemma find_from_Some p s i j :
  find_from p s i = Some j → (i ≤ j < length s)%nat ∧ ∃ c, s !! j = Some c ∧ p c = true.
Proof.
  revert i j. induction s as [|c s IH]; [done|]. intros [|i] j; cbn [find_from].
  - destruct (p c) eqn:Hp.
    + intros [= <-]. split; [simpl; lia|]. by exists c.
    + intros (j' & (? & ?)%IH & ->)%fmap_Some; (split; [simpl; lia|done]).
  - intros (j' & (? & ?)%IH & ->)%fmap_Some; (split; [simpl; lia|done]).
Qed.

(** Skipping characters that do not match, up to one that does. *)
Lemma find_from_app p s t i :
  (i ≤ length s)%nat → (∀ c, c ∈ drop i s → p c = false) →
  find_from p (s ++ t) i = (λ j, (length s + j)%nat) <$> find_from p t 0.
Proof.
  revert i. induction s as [|c s IH]; intros i Hi Hs.
  - assert (i = 0)%nat as -> by (simpl in Hi; lia). cbn. by destruct (find_from p t 0).
  - destruct i as [|i].
    + cbn [find_from app]. rewrite (Hs c) by (left).
      rewrite (IH 0%nat) by (try lia; rewrite drop_0; intros; apply Hs; by right).
      by destruct (find_from p t 0).
    + cbn [find_from app]. rewrite IH by (simpl in Hi; (lia || done)).
      by destruct (find_from p t 0).
Qed.

Lemma find_from_None p s i :
  (∀ c, c ∈ drop i s → p c = false) → find_from p s i = None.
Proof.
  revert i. induction s as [|c s IH]; intros i Hs; [by destruct i|].
  destruct i as [|i]; cbn [find_from].
  - rewrite (Hs c) by left. rewrite IH; [done|]. intros d Hd. apply Hs. rewrite drop_0 in *. by right.
  - by rewrite IH.
Qed.

Lemma find_char_app s c t i :
  (i ≤ length s)%nat → c ∉ drop i s → find_char (s ++ c :: t) c i = Some (length s).
Proof.
  intros Hi Hc. unfold find_char. rewrite find_from_app.
  - cbn [find_from]. rewrite ascii_eqb_refl. cbn. by rewrite Nat.add_0_r.
  - done.
  - intros d Hd. apply ascii_eqb_neq. by intros ->.
Qed.

Lemma find_char_None s c i : c ∉ drop i s → find_char s c i = None.
Proof.
  intros Hc. apply find_from_None. intros d Hd. apply ascii_eqb_neq. by intros ->.
Qed.

Lemma find_last_app p s c t :
  p c = true → (∀ d, d ∈ t → p d = false) → find_last p (s ++ c :: t) = Some (length s).
Proof.
  intros Hc Ht. assert (find_last p t = None) as E.
  { induction t as [|d t IH]; [done|]. cbn. rewrite IH by (intros; apply Ht; by right).
    by rewrite (Ht d) by left. }
  induction s as [|d s IH]; cbn; [by rewrite E, Hc|by rewrite IH].
Qed.



Lemma substr_ret s i n :
  (i ≤ length s)%nat → substr s i (Some n) = Ret (take n (drop i s)).
Proof. intros. unfold substr. by destruct (Nat.ltb_spec (length s) i); [lia|]. Qed.

Lemma substr_all s i : (i ≤ length s)%nat → substr s i None = Ret (drop i s).
Proof. intros. unfold substr. by destruct (Nat.ltb_spec (length s) i); [lia|]. Qed.

Lemma c_str_no_nul s : zero ∉ s → c_str s = s.
Proof.
  induction s as [|c s IH]; [done|]. intros Hs. cbn.
  rewrite ascii_eqb_neq by (intros ->; apply Hs; left).
  rewrite IH; [done|]. intros ?. apply Hs. by right.
Qed.

Lemma char_in_spec lo hi c : char_in lo hi c = true ↔ lo <= uchar c <= hi.
Proof. unfold char_in. rewrite andb_true_iff, !Z.leb_le. lia. Qed.

(** *** Decimal *)

Lemma digit_char_val d : 0 <= d < 10 → digit_val (digit_char d) = d.
Proof. intros. unfold digit_val, digit_char. rewrite uchar_char_of, Z.mod_small; lia. Qed.

Lemma digit_char_digit d : 0 <= d < 10 → isdigit (digit_char d) = true.
Proof.
  intros. apply char_in_spec. unfold digit_char. rewrite uchar_char_of, Z.mod_small; lia.
Qed.

Lemma dec_val_snoc s c : dec_val (s ++ [c]) = 10 * dec_val s + digit_val c.
Proof. unfold dec_val. by rewrite fold_left_app. Qed.

Lemma dec_rev_val fuel n :
  0 <= n < 2 ^ Z.of_nat fuel → dec_val (reverse (dec_rev fuel n)) = n.
Proof.
  revert n. induction fuel as [|f IH]; intros n Hn; cbn [dec_rev].
  - simpl in Hn. cbn. lia.
  - rewrite reverse_cons, dec_val_snoc.
    rewrite digit_char_val by (apply Z.mod_pos_bound; lia).
    rewrite Nat2Z.inj_succ, Z.pow_succ_r in Hn by lia.
    pose proof (Z.div_mod n 10 ltac:(lia)) as Hd.
    destruct (Z.eqb_spec (n / 10) 0) as [E|E]; [cbn; lia|].
    rewrite IH; [lia|]. split; [apply Z.div_pos; lia|].
    apply Z.div_lt_upper_bound; lia.
Qed.

Lemma dec_rev_digits fuel n c : 0 <= n → c ∈ dec_rev fuel n → isdigit c = true.
Proof.
  revert n. induction fuel as [|f IH]; intros n Hn Hc; cbn [dec_rev] in Hc; [by apply not_elem_of_nil in Hc|].
  apply elem_of_cons in Hc as [->|Hc].
  - apply digit_char_digit, Z.mod_pos_bound. lia.
  - destruct (n / 10 =? 0); [by apply not_elem_of_nil in Hc|].
    apply (IH (n / 10)); [apply Z.div_pos; lia|done].
Qed.

Lemma log2_fuel n : 0 <= n → n < 2 ^ Z.of_nat (S (Z.to_nat (Z.log2 n))).
Proof.
  intros Hn. rewrite Nat2Z.inj_succ, Z2Nat.id by apply Z.log2_nonneg.
  destruct (decide (n = 0)) as [->|]; [done|]. apply Z.log2_spec. lia.
Qed.

(** The decimal of a number reads back as the number. *)
Lemma to_string_val n : 0 <= n → dec_val (to_string n) = n.
Proof.
  intros Hn. unfold to_string. destruct (Z.ltb_spec n 0); [lia|].
  apply dec_rev_val. split; [done|by apply log2_fuel].
Qed.

Lemma to_string_digits n c : 0 <= n → c ∈ to_string n → isdigit c = true.
Proof.
  intros Hn. unfold to_string. destruct (Z.ltb_spec n 0); [lia|].
  rewrite elem_of_reverse. by apply dec_rev_digits.
Qed.

Lemma to_string_nonempty n : to_string n ≠ [].
Proof.
  unfold to_string. destruct (n <? 0); [done|]. cbn [dec_rev]. rewrite reverse_cons.
  by intros [_ ?]%app_eq_nil.
Qed.

#[global] Arguments to_string : simpl never.
#[export] Hint Resolve ascii_eqb_refl digit_char_digit to_string_nonempty : sylar.

(* ------------------------------------------------------------------ *)
(** ** Facts about all 256 characters *)

Definition all_chars : bytes := char_of ∘ Z.of_nat <$> seq 0 256.

(** A decidable property of characters holds when it evaluates to true on
    each. *)
Lemma ascii_forall (p : ascii → bool) : forallb p all_chars = true → ∀ c, p c = true.
Proof.
  rewrite forallb_forall. intros H c. apply H. apply list_elem_of_In.
  unfold all_chars. apply list_elem_of_fmap. exists (Z.to_nat (uchar c)).
  pose proof (uchar_range c). split.
  - unfold compose. rewrite Z2Nat.id by lia. by rewrite char_of_uchar.
  - apply elem_of_seq. lia.
Qed.

Ltac by_chars c := revert c; apply ascii_forall; vm_compute; reflexivity.

(* ------------------------------------------------------------------ *)
(** ** Reading a string of digits *)

Lemma take_while_all p s : (∀ c, c ∈ s → p c = true) → take_while p s = s.
Proof.
  induction s as [|c s IH]; [done|]. intros H. cbn. rewrite (H c) by left.
  f_equal. apply IH. intros d Hd. apply H. by right.
Qed.

Lemma digit_plain c :
  isdigit c = true → isspace c = false ∧ Ascii.eqb c "-" = false ∧ Ascii.eqb c "+" = false ∧ c ≠ zero.
Proof.
  assert (implb (isdigit c) (negb (isspace c) && negb (Ascii.eqb c "-") && negb (Ascii.eqb c "+")
    && negb (Ascii.eqb c zero)) = true) as H by by_chars c.
  intros E. rewrite E in H. cbn in H. rewrite !andb_true_iff, !negb_true_iff in H.
  destruct H as [[[??]?]?%Ascii.eqb_neq]. done.
Qed.

Lemma scan_int_digits ds : (∀ c, c ∈ ds → isdigit c = true) → scan_int (c_str ds) = (false, ds).
Proof.
  intros H. rewrite c_str_no_nul.
  2: { intros Hz%H. by apply digit_plain in Hz as (_&_&_&?). }
  unfold scan_int. destruct ds as [|c ds]; [done|].
  destruct (digit_plain c) as (E1 & E2 & E3 & _); [apply H; left|].
  cbn [drop_while]. rewrite E1, E2, E3. by rewrite take_while_all.
Qed.

Lemma fold_digits_nonneg ds v :
  (∀ c, c ∈ ds → isdigit c = true) → 0 <= v → v <= fold_left (λ a c, 10 * a + digit_val c) ds v.
Proof.
  revert v. induction ds as [|c ds IH]; intros v Hd Hv; cbn [fold_left]; [lia|].
  assert (0 <= digit_val c).
  { assert (isdigit c = true) as Hc%char_in_spec by (apply Hd; left). unfold digit_val. lia. }
  transitivity (10 * v + digit_val c); [lia|].
  apply IH; [|lia]. intros d Hd'. apply Hd. by right.
Qed.

Lemma stoi_digits ds :
  ds ≠ [] → (∀ c, c ∈ ds → isdigit c = true) → dec_val ds < 2 ^ 31 → stoi ds = Ret (dec_val ds).
Proof.
  intros Hne Hd Hv. pose proof (fold_digits_nonneg ds 0 Hd ltac:(lia)) as H0. fold (dec_val ds) in H0.
  unfold stoi, strtol. rewrite scan_int_digits by done.
  destruct ds as [|c ds]; [done|]. set (v := dec_val (c :: ds)) in *.
  rewrite Z.min_r, Z.max_r by lia. rewrite decide_True; [done|]. unfold in_s. lia.
Qed.
