(* ===== verification/Endian.v ===== *)
(** * Byte order ([sylar/endian.h])

    The two byte-order tags, [byteswap] at its three widths and
    [byteswapOnLittleEndian] / [byteswapOnBigEndian].  The byte order of
    the machine, which the preprocessor tests, is the parameter [host]. *)
From S2P Require Import Prelude.
Local Open Scope Z_scope.

(* sylar/endian.h:12-13, SYLAR_LITTLE_ENDIAN SYLAR_BIG_ENDIAN *)
Inductive endian := SYLAR_LITTLE_ENDIAN | SYLAR_BIG_ENDIAN.

#[global] Instance endian_eq_dec : EqDecision endian.
Proof. solve_decision. Defined.

(** The [n] bytes an [8n]-bit integer occupies on a machine of the given
    byte order, and the integer such bytes hold. *)
Definition mem_of (host : endian) (n : nat) (v : Z) : bytes :=
  match host with
  | SYLAR_LITTLE_ENDIAN => le_bytes n v
  | SYLAR_BIG_ENDIAN => reverse (le_bytes n v)
  end.

Definition of_mem (host : endian) (l : bytes) : Z :=
  match host with
  | SYLAR_LITTLE_ENDIAN => le_val l
  | SYLAR_BIG_ENDIAN => le_val (reverse l)
  end.

(** [bswap_16], [bswap_32], [bswap_64] of <byteswap.h>, as shifts and
    masks. *)
Definition bswap_16 (v : Z) : Z :=
  Z.lor (Z.shiftl (Z.land v 0xff) 8) (Z.land (Z.shiftr v 8) 0xff).

Definition bswap_32 (v : Z) : Z :=
  Z.lor (Z.shiftl (bswap_16 (Z.land v 0xffff)) 16)
        (bswap_16 (Z.land (Z.shiftr v 16) 0xffff)).

Definition bswap_64 (v : Z) : Z :=
  Z.lor (Z.shiftl (bswap_32 (Z.land v 0xffffffff)) 32)
        (bswap_32 (Z.land (Z.shiftr v 32) 0xffffffff)).

(* sylar/endian.h:20-45, byteswap *)
Definition byteswap (n : nat) (v : Z) : Z :=
  match n with
  | 8%nat => bswap_64 (u64 v)
  | 4%nat => bswap_32 (u32 v)
  | 2%nat => bswap_16 (u16 v)
  | _ => v
  end.

(* sylar/endian.h:47-51, SYLAR_BYTE_ORDER *)
Definition SYLAR_BYTE_ORDER (host : endian) : endian := host.

(* sylar/endian.h:53-87, byteswapOnLittleEndian *)
Definition byteswapOnLittleEndian (host : endian) (n : nat) (t : Z) : Z :=
  match SYLAR_BYTE_ORDER host with
  | SYLAR_BIG_ENDIAN => t
  | SYLAR_LITTLE_ENDIAN => byteswap n t
  end.

(* sylar/endian.h:61-87, byteswapOnBigEndian *)
Definition byteswapOnBigEndian (host : endian) (n : nat) (t : Z) : Z :=
  match SYLAR_BYTE_ORDER host with
  | SYLAR_BIG_ENDIAN => byteswap n t
  | SYLAR_LITTLE_ENDIAN => t
  end.

(** The widths at which [byteswap] is instantiated. *)
Definition swap_width (n : nat) : Prop := n = 2%nat ∨ n = 4%nat ∨ n = 8%nat.

#[global] Instance swap_width_dec n : Decision (swap_width n).
Proof. unfold swap_width. apply _. Defined.

(* ------------------------------------------------------------------ *)
(** ** Reversal of the bytes *)

Definition rev_bytes (n : nat) (v : Z) : Z := le_val (reverse (le_bytes n v)).

Lemma rev_bytes_range n v : 0 <= rev_bytes n v < 256 ^ Z.of_nat n.
Proof.
  unfold rev_bytes. pose proof (le_val_range (reverse (le_bytes n v))) as H.
  by rewrite length_reverse, length_le_bytes in H.
Qed.

Lemma rev_bytes_add n m v :
  rev_bytes (n + m) v
  = rev_bytes n v * 256 ^ Z.of_nat m + rev_bytes m (v / 256 ^ Z.of_nat n).
Proof.
  unfold rev_bytes. rewrite le_bytes_app, reverse_app, le_val_app.
  rewrite length_reverse, length_le_bytes. lia.
Qed.

Lemma rev_bytes_mod n v : rev_bytes n (v mod 2 ^ (8 * Z.of_nat n)) = rev_bytes n v.
Proof.
  unfold rev_bytes. fold (wrapu (8 * Z.of_nat n) v).
  by rewrite (le_bytes_mod n v _ eq_refl).
Qed.

Lemma rev_bytes_1 v : rev_bytes 1 v = v mod 256.
Proof. cbn. rewrite uchar_char_of. lia. Qed.

(** One level of a [bswap_2k] built from two [bswap_k]. *)
Lemma bswap_step n f v :
  (∀ x, f (x mod 2 ^ (8 * Z.of_nat n)) = rev_bytes n x) →
  Z.lor (Z.shiftl (f (Z.land v (Z.ones (8 * Z.of_nat n)))) (8 * Z.of_nat n))
        (f (Z.land (Z.shiftr v (8 * Z.of_nat n)) (Z.ones (8 * Z.of_nat n))))
  = rev_bytes (n + n) v.
Proof.
  intros Hf. rewrite !Z.land_ones, !Hf by lia.
  assert (E : 2 ^ (8 * Z.of_nat n) = 256 ^ Z.of_nat n) by by rewrite Z.pow_mul_r by lia.
  rewrite lor_shiftl_add, Z.shiftr_div_pow2, E by first [lia | rewrite E; apply rev_bytes_range].
  by rewrite rev_bytes_add.
Qed.

Lemma bswap_16_spec v : bswap_16 v = rev_bytes 2 v.
Proof.
  unfold bswap_16.
  apply (bswap_step 1 (λ x, x) v). intros. by rewrite rev_bytes_1.
Qed.

Lemma bswap_32_spec v : bswap_32 v = rev_bytes 4 v.
Proof.
  apply (bswap_step 2 bswap_16 v). intros. by rewrite bswap_16_spec, rev_bytes_mod.
Qed.

Lemma bswap_64_spec v : bswap_64 v = rev_bytes 8 v.
Proof.
  apply (bswap_step 4 bswap_32 v). intros. by rewrite bswap_32_spec, rev_bytes_mod.
Qed.

Lemma byteswap_rev_bytes n v : swap_width n → byteswap n v = rev_bytes n v.
Proof.
  intros [->|[->| ->]]; unfold byteswap, wrapu;
    rewrite ?bswap_16_spec, ?bswap_32_spec, ?bswap_64_spec.
  - apply (rev_bytes_mod 2).
  - apply (rev_bytes_mod 4).
  - apply (rev_bytes_mod 8).
Qed.

(** Swapping the bytes of the value reverses them in memory. *)
Lemma le_bytes_byteswap n v :
  swap_width n → le_bytes n (byteswap n v) = reverse (le_bytes n v).
Proof.
  intros Hn. rewrite byteswap_rev_bytes by done. unfold rev_bytes.
  rewrite <- (length_le_bytes n v) at 1. rewrite <- (length_reverse (le_bytes n v)).
  apply le_bytes_val.
Qed.

Lemma byteswap_le_val n l :
  swap_width n → length l = n → byteswap n (le_val l) = le_val (reverse l).
Proof.
  intros Hn Hl. rewrite byteswap_rev_bytes by done. unfold rev_bytes.
  subst n. by rewrite le_bytes_val.
Qed.

(** [byteswap] is an involution on values of its width. *)
Lemma byteswap_involutive n v :
  swap_width n → byteswap n (byteswap n v) = wrapu (8 * Z.of_nat n) v.
Proof.
  intros Hn. rewrite (byteswap_rev_bytes n (byteswap n v)) by done. unfold rev_bytes.
  rewrite le_bytes_byteswap, reverse_involutive, le_val_bytes by done.
  unfold wrapu. by rewrite Z.pow_mul_r by lia.
Qed.

Lemma of_mem_of host n v : of_mem host (mem_of host n v) = v mod 2 ^ (8 * Z.of_nat n).
Proof.
  destruct host; unfold of_mem, mem_of; rewrite ?reverse_involutive, le_val_bytes;
    by rewrite Z.pow_mul_r by lia.
Qed.

Lemma length_mem_of host n v : length (mem_of host n v) = n.
Proof. destruct host; unfold mem_of; rewrite ?length_reverse; apply length_le_bytes. Qed.

#[export] Hint Rewrite length_mem_of : sylar.

(* ------------------------------------------------------------------ *)
(** ** Bitwise operations and byte order *)

Lemma rev_bytes_S n v : rev_bytes (S n) v = Z.lor (Z.shiftl (v mod 256) (8 * Z.of_nat n)) (rev_bytes n (v / 256)).
Proof.
  change (S n) with (1 + n)%nat. rewrite (rev_bytes_add 1 n v), rev_bytes_1.
  assert (256 ^ Z.of_nat n = 2 ^ (8 * Z.of_nat n)) as E by by rewrite Z.pow_mul_r by lia.
  rewrite lor_shiftl_add by (rewrite <- ?E; try apply rev_bytes_range; lia). by rewrite E, Z.pow_1_r.
Qed.

(** Bit [i] of the reversed word is bit [i mod 8] of the byte as far from the
    other end. *)
Lemma testbit_rev_bytes n v i : 0 <= i →
  Z.testbit (rev_bytes n v) i
  = (i <? 8 * Z.of_nat n) && Z.testbit v (8 * (Z.of_nat n - 1 - i / 8) + i mod 8).
Proof.
  intros Hi. revert v. induction n as [|n IH]; intros v.
  { destruct (Z.ltb_spec i (8 * Z.of_nat 0)); [lia|]. apply Z.bits_0. }
  pose proof (Z.mod_pos_bound i 8 eq_refl). pose proof (Z.div_mod i 8 ltac:(lia)).
  rewrite rev_bytes_S, Z.lor_spec, IH, Z.shiftl_spec by done. change 256 with (2 ^ 8).
  destruct (Z.ltb_spec i (8 * Z.of_nat n)), (Z.ltb_spec i (8 * Z.of_nat (S n))); try lia; cbn [andb].
  - rewrite Z.testbit_neg_r, Z.div_pow2_bits by lia. cbn. f_equal. lia.
  - rewrite orb_false_r, Z.mod_pow2_bits_low by lia. f_equal. lia.
  - by rewrite orb_false_r, Z.mod_pow2_bits_high by lia.
Qed.

Lemma rev_bytes_bitwise (f : Z → Z → Z) (g : bool → bool → bool) n a b :
  (∀ x y i, 0 <= i → Z.testbit (f x y) i = g (Z.testbit x i) (Z.testbit y i)) → g false false = false →
  rev_bytes n (f a b) = f (rev_bytes n a) (rev_bytes n b).
Proof.
  intros Hf Hg. apply Z.bits_inj'. intros i Hi. rewrite Hf, !testbit_rev_bytes by done.
  destruct (Z.ltb_spec i (8 * Z.of_nat n)); cbn [andb]; [|done]. rewrite Hf; [done|].
  pose proof (Z.mod_pos_bound i 8 eq_refl). pose proof (Z.div_mod i 8 ltac:(lia)). nia.
Qed.

Lemma swap_bitwise host (f : Z → Z → Z) (g : bool → bool → bool) n a b : swap_width n →
  (∀ x y i, 0 <= i → Z.testbit (f x y) i = g (Z.testbit x i) (Z.testbit y i)) → g false false = false →
  byteswapOnLittleEndian host n (f a b) = f (byteswapOnLittleEndian host n a) (byteswapOnLittleEndian host n b).
Proof.
  intros Hn Hf Hg. unfold byteswapOnLittleEndian. destruct (SYLAR_BYTE_ORDER host); [|done].
  rewrite !byteswap_rev_bytes by done. by eapply rev_bytes_bitwise.
Qed.

Lemma swap_lor host n a b : swap_width n →
  byteswapOnLittleEndian host n (Z.lor a b)
  = Z.lor (byteswapOnLittleEndian host n a) (byteswapOnLittleEndian host n b).
Proof. intros. apply (swap_bitwise host Z.lor orb); [done|intros; apply Z.lor_spec|done]. Qed.
Lemma swap_ldiff host n a b : swap_width n →
  byteswapOnLittleEndian host n (Z.ldiff a b)
  = Z.ldiff (byteswapOnLittleEndian host n a) (byteswapOnLittleEndian host n b).
Proof. intros. apply (swap_bitwise host Z.ldiff (λ x y, x && negb y)); [done|intros; apply Z.ldiff_spec|done]. Qed.

Lemma swap_range host n v : swap_width n → in_u (8 * Z.of_nat n) v →
  in_u (8 * Z.of_nat n) (byteswapOnLittleEndian host n v).
Proof.
  intros Hn Hv. unfold byteswapOnLittleEndian. destruct (SYLAR_BYTE_ORDER host); [|done].
  rewrite byteswap_rev_bytes by done. unfold in_u. rewrite Z.pow_mul_r by lia. apply rev_bytes_range.
Qed.

Lemma swap_swap host n v : swap_width n → in_u (8 * Z.of_nat n) v →
  byteswapOnLittleEndian host n (byteswapOnLittleEndian host n v) = v.
Proof.
  intros Hn Hv. unfold byteswapOnLittleEndian. destruct (SYLAR_BYTE_ORDER host); [|done].
  rewrite byteswap_involutive by done. by apply wrapu_small.
Qed.

(** The bytes of a number in network order, most significant first. *)
Lemma swap_of_mem host n l : swap_width n → length l = n →
  byteswapOnLittleEndian host n (of_mem host l) = le_val (reverse l).
Proof.
  intros Hn Hl. unfold byteswapOnLittleEndian, of_mem. destruct host; cbn; [|done].
  by apply byteswap_le_val.
Qed.
