(* ===== verification/OrderedSet.v ===== *)
(** * [std::set] with a comparator

    The tree of a [std::set<T, Compare>] is modelled by its in-order
    sequence: an iterator is an index, [end()] is the length.  The
    operations follow the standard's description of an ordered
    associative container, in terms of the comparator alone; the laws
    assume that the comparator is a strict total order on the elements
    involved. *)
From S2P Require Import Prelude.
From stdpp Require Import sorting.

Section ordered.
Context {A : Type} (lt : A → A → bool).

(** First position whose element is not less than [x]. *)
Fixpoint lower_bound (x : A) (l : list A) : nat :=
  match l with
  | [] => 0
  | y :: l' => if lt y x then S (lower_bound x l') else 0
  end.

(** [find]: the iterator, [None] for [end()]. *)
Definition set_find (x : A) (l : list A) : option nat :=
  let i := lower_bound x l in
  match l !! i with
  | Some y => if lt x y then None else Some i
  | None => None
  end.

(** [insert]: nothing is inserted when an equivalent element is there;
    the position is that of the element in the result. *)
Definition set_insert (x : A) (l : list A) : list A * nat :=
  match set_find x l with
  | Some i => (l, i)
  | None =>
      let i := lower_bound x l in (take i l ++ x :: drop i l, i)
  end.

(** [erase(it)]; [end()] must not be erased. *)
Definition set_erase (it : option nat) (l : list A) : outcome (list A) :=
  match it with
  | Some i => if decide (i < length l)%nat then Ret (delete i l) else Crash bad_iterator
  | None => Crash bad_iterator
  end.

(** The container's invariant. *)
Definition sorted (l : list A) : Prop := StronglySorted (λ a b, lt a b = true) l.

(** The comparator is a strict total order. *)
Class StrictTotal : Prop := {
  lt_irrefl x : lt x x = false;
  lt_trans x y z : lt x y = true → lt y z = true → lt x z = true;
  lt_total x y : lt x y = false → lt y x = false → x = y
}.

Context {ST : StrictTotal}.

Lemma lt_asym x y : lt x y = true → lt y x = false.
Proof.
  intros H. destruct (lt y x) eqn:E; [|done].
  pose proof (lt_trans x y x H E) as C. by rewrite lt_irrefl in C.
Qed.

Lemma sorted_NoDup l : sorted l → NoDup l.
Proof.
  induction l as [|x l IH]; intros Hs; [constructor|].
  apply StronglySorted_cons in Hs as [Hx Hs]. constructor; [|by apply IH].
  intros Hin. rewrite Forall_forall in Hx. specialize (Hx x Hin). by rewrite lt_irrefl in Hx.
Qed.

Lemma lower_bound_split x l : sorted l →
  ∃ l1 l2, l = l1 ++ l2 ∧ length l1 = lower_bound x l ∧
    Forall (λ y, lt y x = true) l1 ∧ Forall (λ y, lt y x = false) l2.
Proof.
  induction l as [|y l IH]; intros Hs; [by exists [], []|].
  apply StronglySorted_cons in Hs as [Hy Hs]. simpl. destruct (lt y x) eqn:E.
  - destruct (IH Hs) as (l1 & l2 & -> & <- & ? & ?). exists (y :: l1), l2.
    split_and!; try done. by constructor.
  - exists [], (y :: l). split_and!; try done.
    constructor; [done|]. eapply Forall_impl; [exact Hy|]. intros z Hz. simpl in *.
    destruct (lt z x) eqn:Ez; [|done].
    pose proof (lt_trans y z x Hz Ez). congruence.
Qed.

Lemma set_find_Some x l i : sorted l → set_find x l = Some i → l !! i = Some x.
Proof.
  intros Hs. unfold set_find. destruct (lower_bound_split x l Hs) as (l1 & l2 & -> & <- & _ & H2).
  destruct ((l1 ++ l2) !! length l1) as [y|] eqn:E; [|done].
  destruct (lt x y) eqn:Ey; [done|]. intros [= <-].
  rewrite lookup_app_r, Nat.sub_diag in E by done.
  pose proof (Forall_lookup_1 _ _ _ _ H2 E) as E'. simpl in E'.
  rewrite lookup_app_r, Nat.sub_diag, E by done. f_equal.
  by apply lt_total.
Qed.

Lemma set_find_elem x l : sorted l → x ∈ l → is_Some (set_find x l).
Proof.
  intros Hs Hin. unfold set_find.
  destruct (lower_bound_split x l Hs) as (l1 & l2 & -> & <- & H1 & H2).
  rewrite Forall_forall in H1. apply elem_of_app in Hin as [Hin|Hin].
  { specialize (H1 x Hin). simpl in H1. by rewrite lt_irrefl in H1. }
  destruct l2 as [|y l2]; [set_solver|].
  rewrite list_lookup_middle by done.
  destruct (lt x y) eqn:E; [|eauto]. exfalso.
  apply StronglySorted_app_1_r, StronglySorted_cons in Hs as [Hy _].
  apply elem_of_cons in Hin as [->|Hin]; [by rewrite lt_irrefl in E|].
  rewrite Forall_forall in Hy. specialize (Hy x Hin). simpl in Hy.
  by rewrite lt_asym in Hy.
Qed.

Lemma set_find_None x l : sorted l → x ∉ l → set_find x l = None.
Proof.
  intros Hs Hx. destruct (set_find x l) as [i|] eqn:E; [|done].
  apply set_find_Some in E; [|done]. by apply list_elem_of_lookup_2 in E.
Qed.

Lemma set_insert_spec x l : sorted l → x ∉ l →
  ∃ l' i, set_insert x l = (l', i) ∧ sorted l' ∧ l' ≡ₚ x :: l ∧
    (i = 0%nat ↔ Forall (λ y, lt x y = true) l).
Proof.
  intros Hs Hx. unfold set_insert. rewrite set_find_None by done.
  destruct (lower_bound_split x l Hs) as (l1 & l2 & -> & <- & H1 & H2).
  rewrite take_app_length, drop_app_length.
  eexists _, _. split; [done|].
  assert (Forall (λ y, lt x y = true) l2) as H2'.
  { rewrite Forall_forall in *. intros y Hy. specialize (H2 y Hy). simpl in *.
    destruct (lt x y) eqn:E; [done|]. exfalso. apply Hx.
    rewrite (lt_total x y E H2). set_solver. }
  apply StronglySorted_app in Hs as (H12 & Hs1 & Hs2). split_and!.
  - apply StronglySorted_app_2.
    + intros a b Ha Hb. rewrite Forall_forall in *.
      apply elem_of_cons in Hb as [->|Hb]; [by apply H1|by apply H12].
    + done.
    + by apply StronglySorted_cons.
  - by rewrite Permutation_middle.
  - split; intros H.
    + by destruct l1.
    + destruct l1 as [|y l1]; [done|]. exfalso.
      apply Forall_cons in H as [Hy _]. apply Forall_cons in H1 as [Hy' _].
      simpl in *. rewrite lt_asym in Hy'; done.
Qed.

Lemma sorted_delete i l : sorted l → sorted (delete i l).
Proof.
  intros Hs. rewrite delete_take_drop.
  rewrite <- (take_drop i l) in Hs. apply StronglySorted_app in Hs as (H12 & Hs1 & Hs2).
  assert (drop (S i) l = drop 1 (drop i l)) as -> by (rewrite drop_drop; f_equal; lia).
  destruct (drop i l) as [|y l2] eqn:E; simpl; [by rewrite app_nil_r|].
  apply StronglySorted_cons in Hs2 as [_ Hs2]. apply StronglySorted_app_2; [|done|done].
  intros a b Ha Hb. apply H12; [done|]. by right.
Qed.

(** Finding and erasing an element that is there. *)
Lemma set_erase_find x l : sorted l → x ∈ l →
  ∃ l', set_erase (set_find x l) l = Ret l' ∧ sorted l' ∧ l ≡ₚ x :: l' ∧ x ∉ l'.
Proof.
  intros Hs Hx. destruct (set_find_elem x l Hs Hx) as [i Hi]. rewrite Hi.
  apply set_find_Some in Hi; [|done]. unfold set_erase.
  rewrite decide_True by (by eapply lookup_lt_Some). eexists. split; [done|].
  pose proof (delete_Permutation l i x Hi) as HP. split_and!; try done.
  - by apply sorted_delete.
  - apply sorted_NoDup in Hs. rewrite HP in Hs. by apply NoDup_cons in Hs as [? _].
Qed.
End ordered.

Arguments StrictTotal {A} lt.

(** The invariant only looks at how the comparator ranks the elements. *)
Lemma sorted_ext {A} (lt1 lt2 : A → A → bool) l :
  (∀ x y, x ∈ l → y ∈ l → lt1 x y = lt2 x y) → sorted lt1 l → sorted lt2 l.
Proof.
  unfold sorted. induction l as [|x l IH]; intros Hext Hs; [constructor|].
  apply StronglySorted_cons in Hs as [Hx Hs]. apply StronglySorted_cons. split.
  - rewrite Forall_forall in *. intros y Hy. rewrite <- Hext by set_solver. by apply Hx.
  - apply IH; [|done]. intros. apply Hext; set_solver.
Qed.
