(* ===== verification/OrderedMap.v ===== *)
(** * [std::map] with a comparator, and strings without regard to case

    The tree is modelled by its in-order sequence of pairs.  The comparator
    orders keys through a projection [norm] under which equivalent keys are
    equal; the laws speak of the projection, the operations of the comparator
    alone. *)
From S2P Require Import Prelude OrderedSet StdString.
From stdpp Require Import sorting.

Local Open Scope Z_scope.

Section map.
Context {A V : Type} (lt : A → A → bool).
Implicit Types (m : list (A * V)) (x y : A) (v w : V).

(** [m.find(x)->second]. *)
Fixpoint map_find x m : option V :=
  match m with
  | [] => None
  | (y, w) :: m' => if lt y x then map_find x m' else if lt x y then None else Some w
  end.

(** [m.insert({x, v})]: an equivalent key keeps its value. *)
Fixpoint map_insert x v m : list (A * V) :=
  match m with
  | [] => [(x, v)]
  | (y, w) :: m' =>
      if lt y x then (y, w) :: map_insert x v m'
      else if lt x y then (x, v) :: m else m
  end.

(** [m[x] = v]: an equivalent key stays as it is written. *)
Fixpoint map_assign x v m : list (A * V) :=
  match m with
  | [] => [(x, v)]
  | (y, w) :: m' =>
      if lt y x then (y, w) :: map_assign x v m'
      else if lt x y then (x, v) :: m else (y, v) :: m'
  end.

(** [m.erase(x)]. *)
Fixpoint map_erase x m : list (A * V) :=
  match m with
  | [] => []
  | (y, w) :: m' =>
      if lt y x then (y, w) :: map_erase x m' else if lt x y then m else m'
  end.

Context {N : Type} (norm : A → N) (ltN : N → N → bool) {ST : StrictTotal ltN}.
Context `{!EqDecision N}.

(** The comparator is a strict weak order: the order of the projections. *)
Class OrderedBy : Prop := lt_norm x y : lt x y = ltN (norm x) (norm y).
Context {OB : OrderedBy}.

Definition map_sorted m : Prop := StronglySorted (λ a b, ltN (norm a.1) (norm b.1) = true) m.

(** Comparing two keys. *)
Lemma lt_cases x y :
  lt x y = true ∧ lt y x = false ∧ norm x ≠ norm y ∨
  lt x y = false ∧ lt y x = true ∧ norm x ≠ norm y ∨
  lt x y = false ∧ lt y x = false ∧ norm x = norm y.
Proof.
  rewrite !lt_norm. destruct (ltN (norm x) (norm y)) eqn:E1, (ltN (norm y) (norm x)) eqn:E2.
  - exfalso. pose proof (lt_trans _ _ _ _ E1 E2) as C. by rewrite lt_irrefl in C.
  - left. split_and!; try done. intros E. rewrite E in E1. by rewrite lt_irrefl in E1.
  - right; left. split_and!; try done. intros E. rewrite E in E1, E2. by rewrite E1 in E2.
  - right; right. split_and!; try done. by apply (lt_total ltN).
Qed.

(** The keys of a sorted tail come after the head. *)
Lemma find_after x y v m : map_sorted ((y, v) :: m) → ltN (norm x) (norm y) = true ∨ norm x = norm y →
  map_find x m = None.
Proof.
  intros Hs Hx. apply StronglySorted_cons in Hs as [Hall _]. destruct m as [|[z w] m]; [done|].
  apply Forall_cons in Hall as [Hz _]. cbn in *.
  assert (ltN (norm x) (norm z) = true) as Hxz
    by (destruct Hx as [Hx| ->]; [by eapply lt_trans|done]).
  destruct (lt_cases z x) as [(? & ? & ?)|[(-> & -> & _)|(? & ? & E)]].
  - rewrite lt_norm in *. congruence.
  - done.
  - rewrite E in Hxz. by rewrite lt_irrefl in Hxz.
Qed.

Lemma find_elem x v m : map_sorted m → map_find x m = Some v ↔ ∃ y, (y, v) ∈ m ∧ norm x = norm y.
Proof.
  intros Hs. induction m as [|[z w] m IH].
  { split; [done|]. by intros (y & H%elem_of_nil & _). }
  pose proof (find_after x z w m Hs) as Hx. apply StronglySorted_cons in Hs as [Hall Hs]. specialize (IH Hs). cbn.
  rewrite Forall_forall in Hall. setoid_rewrite elem_of_cons.
  assert (∀ y, (y, v) ∈ m → norm x = norm y → ltN (norm z) (norm x) = true) as Hin
    by (intros y Hy ->; apply (Hall _ Hy)).
  destruct (lt_cases z x) as [(E1 & E2 & Nz)|[(E1 & E2 & Nz)|(E1 & E2 & Nz)]]; rewrite ?E1, ?E2.
  - rewrite IH. split; [naive_solver|]. intros (y & [[= -> ->]|H] & E); [congruence|by exists y].
  - split; [done|]. intros (y & [[= -> ->]|H] & E); [congruence|]. specialize (Hin y H E). rewrite lt_norm in E1. congruence.
  - split; [intros [= ->]; exists z; split; [by left|done]|]. intros (y & [[= -> ->]|H] & E); [done|].
    specialize (Hin y H E). by rewrite Nz, (lt_irrefl ltN) in Hin.
Qed.

Ltac cases x y :=
  let E1 := fresh "E" in let E2 := fresh "E" in let E := fresh "E" in
  destruct (lt_cases x y) as [(E1 & E2 & E)|[(E1 & E2 & E)|(E1 & E2 & E)]]; rewrite ?E1, ?E2.

Lemma find_assign x y v m : map_sorted m →
  map_find x (map_assign y v m) = if decide (norm x = norm y) then Some v else map_find x m.
Proof.
  intros Hs. induction m as [|[z w] m IH]; cbn.
  { cases x y; case_decide; congruence. }
  pose proof (find_after y z w m Hs) as Hy. pose proof (find_after x z w m Hs) as Hx.
  pose proof Hs as Hs'. apply StronglySorted_cons in Hs' as [_ Hs']. specialize (IH Hs').
  destruct (lt_cases z y) as [(Ez & -> & Nz)|[(Ez & Ey & Nz)|(Ez & -> & Nz)]]; rewrite ?Ez; cbn.
  - rewrite IH. cases z x; [done| |]; case_decide; try done; [|congruence].
    exfalso. rewrite lt_norm in *. congruence.
  - rewrite Ey. cbn. destruct (lt_cases x y) as [(Exy & -> & Nx)|[(-> & -> & Nx)|(-> & -> & Nx)]]; rewrite ?Exy.
    + rewrite decide_False by done. cases z x; try done.
      * rewrite Hx; [done|]. left. rewrite lt_norm in *. by eapply lt_trans.
      * rewrite lt_norm in *. congruence.
    + by rewrite decide_False.
    + by rewrite decide_True.
  - cases x z; case_decide; congruence || done.
Qed.

Lemma find_insert x y v m : map_sorted m →
  map_find x (map_insert y v m)
  = if decide (norm x = norm y) then match map_find x m with Some w => Some w | None => Some v end
    else map_find x m.
Proof.
  intros Hs. induction m as [|[z w] m IH]; cbn.
  { cases x y; case_decide; congruence. }
  pose proof (find_after x z w m Hs) as Hx. apply StronglySorted_cons in Hs as [_ Hs']. specialize (IH Hs').
  destruct (lt_cases z y) as [(Ez & -> & Nz)|[(Ez & Ey & Nz)|(Ez & -> & Nz)]]; rewrite ?Ez; cbn.
  - rewrite IH. cases z x; try done; case_decide; try done. exfalso. rewrite lt_norm in *. congruence.
  - rewrite Ey. cbn. destruct (lt_cases x y) as [(Exy & -> & Nx)|[(-> & -> & Nx)|(-> & -> & Nx)]]; rewrite ?Exy.
    + rewrite decide_False by done. cases z x; try done.
      * rewrite Hx; [done|]. left. rewrite lt_norm in *. by eapply lt_trans.
      * rewrite lt_norm in *. congruence.
    + by rewrite decide_False.
    + rewrite decide_True by done. cases z x; try done; rewrite lt_norm, Nx in *; congruence.
  - cases z x; case_decide; congruence || done.
Qed.

Lemma find_erase x y m : map_sorted m →
  map_find x (map_erase y m) = if decide (norm x = norm y) then None else map_find x m.
Proof.
  intros Hs. induction m as [|[z w] m IH]; cbn; [by case_decide|].
  pose proof (find_after x z w m Hs) as Hx. apply StronglySorted_cons in Hs as [_ Hs']. specialize (IH Hs').
  destruct (lt_cases z y) as [(Ez & -> & Nz)|[(Ez & Ey & Nz)|(Ez & -> & Nz)]]; rewrite ?Ez; cbn.
  - rewrite IH. cases z x; try done; case_decide; try done. exfalso. rewrite lt_norm in *. congruence.
  - rewrite Ey. cbn. cases z x; case_decide as Hd; try done; rewrite ?lt_norm, ?Hd in *; congruence.
  - case_decide as Hd; [apply Hx; right; congruence|]. cases z x; try done; try congruence.
    apply Hx. left. rewrite lt_norm in *. done.
Qed.

(** The operations keep the container sorted. *)
Lemma Forall_put (P : A → Prop) x v m : P x → Forall (λ a, P a.1) m →
  Forall (λ a, P a.1) (map_insert x v m) ∧ Forall (λ a, P a.1) (map_assign x v m).
Proof.
  intros Hx Hm. induction Hm as [|[y w] m Hy Hm [IH1 IH2]]; cbn; [by repeat constructor|].
  destruct (lt y x), (lt x y); split; repeat constructor; done.
Qed.

Lemma Forall_erase (P : A * V → Prop) x m : Forall P m → Forall P (map_erase x m).
Proof. intros Hm. induction Hm as [|[y w] m Hy Hm IH]; cbn; [done|]. destruct (lt y x), (lt x y); auto. Qed.

Lemma put_sorted x v m : map_sorted m → map_sorted (map_insert x v m) ∧ map_sorted (map_assign x v m).
Proof.
  intros Hs. induction m as [|[y w] m IH]; cbn; [by repeat constructor|].
  pose proof Hs as Hc. apply StronglySorted_cons in Hs as [Hall Hs]. destruct (IH Hs) as [IH1 IH2].
  destruct (lt_cases y x) as [(E1 & E2 & _)|[(E1 & E2 & _)|(E1 & E2 & E)]]; rewrite E1, ?E2.
  - rewrite lt_norm in E1. split; constructor; try done;
      by apply (Forall_put (λ a, ltN (norm y) (norm a) = true)).
  - rewrite lt_norm in E2. split; (constructor; [done|]); constructor; try done;
      (eapply Forall_impl; [exact Hall|]); intros a Ha; by eapply lt_trans.
  - split; [done|]. by constructor.
Qed.

Lemma erase_sorted x m : map_sorted m → map_sorted (map_erase x m).
Proof.
  intros Hs. induction m as [|[y w] m IH]; cbn; [done|].
  pose proof Hs as Hc. apply StronglySorted_cons in Hs as [Hall Hs].
  destruct (lt y x); [|by destruct (lt x y)]. constructor; [by apply IH|]. by apply Forall_erase.
Qed.
End map.

(* ------------------------------------------------------------------ *)
(** ** Strings without regard to case *)

(** The order of characters, extended to strings. *)
Fixpoint bytes_lt (s t : bytes) : bool :=
  match s, t with
  | _, [] => false
  | [], _ => true
  | c :: s', d :: t' => (uchar c <? uchar d) || (uchar c =? uchar d) && bytes_lt s' t'
  end.

#[export] Instance bytes_lt_total : StrictTotal bytes_lt.
Proof.
  split.
  - intros s. induction s as [|c s IH]; [done|]. cbn. by rewrite IH, Z.ltb_irrefl, andb_false_r.
  - intros s t u. revert s u. induction t as [|d t IH]; intros [|c s] [|e u]; cbn; try done.
    rewrite !orb_true_iff, !andb_true_iff, !Z.ltb_lt, !Z.eqb_eq.
    intros [?|[-> ?]] [?|[? ?]]; [left; lia|left; lia|by left|right]. eauto.
  - intros s. induction s as [|c s IH]; intros [|d t]; cbn; try done.
    rewrite !orb_false_iff, !andb_false_iff, !Z.ltb_ge, !Z.eqb_neq. intros [? ?] [? ?].
    assert (uchar c = uchar d) as E by lia. f_equal; [by apply uchar_inj|]. apply IH; naive_solver lia.
Qed.

Definition ci_key (s : bytes) : bytes := tolower <$> c_str s.

Lemma c_str_nul s : zero ∉ c_str s.
Proof.
  induction s as [|c s IH]; cbn; [set_solver|]. destruct (Ascii.eqb c zero) eqn:E; [set_solver|].
  apply Ascii.eqb_neq in E. set_solver.
Qed.

Lemma tolower_positive c : c ≠ zero → 0 < uchar (tolower c).
Proof.
  assert (Ascii.eqb c zero || (0 <? uchar (tolower c)) = true) as H by by_chars c. intros Hc.
  apply orb_true_iff in H as [H|H]; [|by apply Z.ltb_lt]. by apply Ascii.eqb_eq in H.
Qed.

Lemma casecmp_lt s t : zero ∉ s → zero ∉ t → (casecmp s t <? 0) = bytes_lt (tolower <$> s) (tolower <$> t).
Proof.
  revert t. induction s as [|c s IH]; intros [|d t] Hs Ht; cbn.
  - done.
  - apply Z.ltb_lt. assert (0 < uchar (tolower d)) by (apply tolower_positive; set_solver). lia.
  - apply Z.ltb_ge. pose proof (uchar_range (tolower c)). lia.
  - destruct (Ascii.eqb (tolower c) (tolower d)) eqn:E.
    + apply Ascii.eqb_eq in E. rewrite E, Z.ltb_irrefl, Z.eqb_refl. cbn. apply IH; set_solver.
    + apply Ascii.eqb_neq in E. assert (uchar (tolower c) ≠ uchar (tolower d)) by (by intros ?%uchar_inj).
      rewrite (proj2 (Z.eqb_neq _ _)) by done. cbn. rewrite orb_false_r.
      destruct (Z.ltb_spec (uchar (tolower c)) (uchar (tolower d))), (Z.ltb_spec (uchar (tolower c) - uchar (tolower d)) 0);
        done || lia.
Qed.

Lemma strcasecmp_lt s t : (strcasecmp s t <? 0) = bytes_lt (ci_key s) (ci_key t).
Proof. apply casecmp_lt; apply c_str_nul. Qed.

Lemma casecmp_eq s t : zero ∉ s → zero ∉ t → casecmp s t = 0 ↔ tolower <$> s = tolower <$> t.
Proof.
  revert t. induction s as [|c s IH]; intros [|d t] Hs Ht; cbn; try done.
  - assert (0 < uchar (tolower d)) by (apply tolower_positive; set_solver). split; [lia|done].
  - assert (0 < uchar (tolower c)) by (apply tolower_positive; set_solver). split; [lia|done].
  - destruct (Ascii.eqb (tolower c) (tolower d)) eqn:E.
    + apply Ascii.eqb_eq in E. rewrite IH by set_solver. rewrite E. split; [by intros ->|by intros [= ->]].
    + apply Ascii.eqb_neq in E. assert (uchar (tolower c) ≠ uchar (tolower d)) by (by intros ?%uchar_inj).
      split; [lia|congruence].
Qed.

Lemma strcasecmp_eq s t : (strcasecmp s t =? 0) = bool_decide (ci_key s = ci_key t).
Proof.
  apply eq_true_iff_eq. rewrite Z.eqb_eq, bool_decide_eq_true. apply casecmp_eq; apply c_str_nul.
Qed.
