(* ===== verification/Util.v ===== *)
(** * [util.cpp]: URL coding, trimming, paths, numbers

    [StringUtil], [TypeUtil] and the parts of [FSUtil] that only compute. *)
From S2P Require Import Prelude StdString.

Local Open Scope Z_scope.

(* ------------------------------------------------------------------ *)
(** ** [StringUtil]: percent encoding *)

(* sylar/util.cpp:399-420, uri_chars *)
Definition uri_chars : list Z :=
  [ 0; 0; 0; 0; 0; 0; 0; 0; 0; 0; 0; 0; 0; 0; 0; 0;
    0; 0; 0; 0; 0; 0; 0; 0; 0; 0; 0; 0; 0; 0; 0; 0;
    0; 0; 0; 0; 0; 0; 0; 0; 0; 0; 0; 0; 0; 1; 1; 0;
    1; 1; 1; 1; 1; 1; 1; 1; 1; 1; 0; 0; 0; 1; 0; 0;
    0; 1; 1; 1; 1; 1; 1; 1; 1; 1; 1; 1; 1; 1; 1; 1;
    1; 1; 1; 1; 1; 1; 1; 1; 1; 1; 1; 0; 0; 0; 0; 1;
    0; 1; 1; 1; 1; 1; 1; 1; 1; 1; 1; 1; 1; 1; 1; 1;
    1; 1; 1; 1; 1; 1; 1; 1; 1; 1; 1; 0; 0; 0; 1; 0;
    0; 0; 0; 0; 0; 0; 0; 0; 0; 0; 0; 0; 0; 0; 0; 0;
    0; 0; 0; 0; 0; 0; 0; 0; 0; 0; 0; 0; 0; 0; 0; 0;
    0; 0; 0; 0; 0; 0; 0; 0; 0; 0; 0; 0; 0; 0; 0; 0;
    0; 0; 0; 0; 0; 0; 0; 0; 0; 0; 0; 0; 0; 0; 0; 0;
    0; 0; 0; 0; 0; 0; 0; 0; 0; 0; 0; 0; 0; 0; 0; 0;
    0; 0; 0; 0; 0; 0; 0; 0; 0; 0; 0; 0; 0; 0; 0; 0;
    0; 0; 0; 0; 0; 0; 0; 0; 0; 0; 0; 0; 0; 0; 0; 0;
    0; 0; 0; 0; 0; 0; 0; 0; 0; 0; 0; 0; 0; 0; 0; 0 ].

(* sylar/util.cpp:422-439, xdigit_chars *)
Definition xdigit_chars : list Z :=
  [ 0; 0; 0; 0; 0; 0; 0; 0; 0; 0; 0; 0; 0; 0; 0; 0;
    0; 0; 0; 0; 0; 0; 0; 0; 0; 0; 0; 0; 0; 0; 0; 0;
    0; 0; 0; 0; 0; 0; 0; 0; 0; 0; 0; 0; 0; 0; 0; 0;
    0; 1; 2; 3; 4; 5; 6; 7; 8; 9; 0; 0; 0; 0; 0; 0;
    0; 10; 11; 12; 13; 14; 15; 0; 0; 0; 0; 0; 0; 0; 0; 0;
    0; 0; 0; 0; 0; 0; 0; 0; 0; 0; 0; 0; 0; 0; 0; 0;
    0; 10; 11; 12; 13; 14; 15; 0; 0; 0; 0; 0; 0; 0; 0; 0;
    0; 0; 0; 0; 0; 0; 0; 0; 0; 0; 0; 0; 0; 0; 0; 0;
    0; 0; 0; 0; 0; 0; 0; 0; 0; 0; 0; 0; 0; 0; 0; 0;
    0; 0; 0; 0; 0; 0; 0; 0; 0; 0; 0; 0; 0; 0; 0; 0;
    0; 0; 0; 0; 0; 0; 0; 0; 0; 0; 0; 0; 0; 0; 0; 0;
    0; 0; 0; 0; 0; 0; 0; 0; 0; 0; 0; 0; 0; 0; 0; 0;
    0; 0; 0; 0; 0; 0; 0; 0; 0; 0; 0; 0; 0; 0; 0; 0;
    0; 0; 0; 0; 0; 0; 0; 0; 0; 0; 0; 0; 0; 0; 0; 0;
    0; 0; 0; 0; 0; 0; 0; 0; 0; 0; 0; 0; 0; 0; 0; 0;
    0; 0; 0; 0; 0; 0; 0; 0; 0; 0; 0; 0; 0; 0; 0; 0 ].

Definition char_at (l : list Z) (c : ascii) : Z := nth (Z.to_nat (uchar c)) l 0.

(* sylar/util.cpp:441-442, CHAR_IS_UNRESERVED *)
Definition CHAR_IS_UNRESERVED (c : ascii) : bool := negb (char_at uri_chars c =? 0).

Definition hexdigits : bytes := B "0123456789ABCDEF".
Definition hexdigit (d : Z) : ascii := nth (Z.to_nat d) hexdigits zero.

(** What is appended for a character that is not unreserved. *)
(* sylar/util.cpp:456-462, StringUtil::UrlEncode *)
Definition encode_reserved (space_as_plus : bool) (c : ascii) : bytes :=
  if (Ascii.eqb c " ") && space_as_plus then ["+"%char]
  else ["%"%char; hexdigit (Z.shiftr (uchar c) 4); hexdigit (Z.land (schar c) 15)].

(** The loop: [rest] is what is left from [c] on, [ss] the copy, made only
    once a character has to be replaced. *)
(* sylar/util.cpp:449-466, StringUtil::UrlEncode *)
Fixpoint UrlEncode_loop (str : bytes) (space_as_plus : bool) (rest : bytes) (i : nat)
    (ss : option bytes) : option bytes :=
  match rest with
  | [] => ss
  | c :: r =>
      let ss' :=
        if negb (CHAR_IS_UNRESERVED c) then
          let buf := match ss with None => take i str | Some buf => buf end in
          Some (buf ++ encode_reserved space_as_plus c)
        else match ss with Some buf => Some (buf ++ [c]) | None => None end in
      UrlEncode_loop str space_as_plus r (S i) ss'
  end.

(* sylar/util.cpp:445-474, StringUtil::UrlEncode *)
Definition UrlEncode (str : bytes) (space_as_plus : bool) : bytes :=
  match UrlEncode_loop str space_as_plus str 0 None with
  | None => str
  | Some rt => rt
  end.

(** The character two hexadecimal digits stand for. *)
(* sylar/util.cpp:491-491, StringUtil::UrlDecode *)
Definition decode_pair (c1 c2 : ascii) : ascii :=
  char_of (Z.lor (Z.shiftl (char_at xdigit_chars c1) 4) (char_at xdigit_chars c2)).

(* sylar/util.cpp:479-496, StringUtil::UrlDecode *)
Fixpoint UrlDecode_loop (str : bytes) (space_as_plus : bool) (rest : bytes) (i : nat)
    (ss : option bytes) : option bytes :=
  let buf := match ss with None => take i str | Some buf => buf end in
  let keep c := match ss with Some buf => Some (buf ++ [c]) | None => None end in
  match rest with
  | [] => ss
  | c :: r =>
      if (Ascii.eqb c "+") && space_as_plus then
        UrlDecode_loop str space_as_plus r (S i) (Some (buf ++ [" "%char]))
      else
        match r with
        | c1 :: c2 :: r' =>
            if (Ascii.eqb c "%") && isxdigit c1 && isxdigit c2 then
              UrlDecode_loop str space_as_plus r' (3 + i) (Some (buf ++ [decode_pair c1 c2]))
            else UrlDecode_loop str space_as_plus r (S i) (keep c)
        | _ => UrlDecode_loop str space_as_plus r (S i) (keep c)
        end
  end.

(* sylar/util.cpp:476-505, StringUtil::UrlDecode *)
Definition UrlDecode (str : bytes) (space_as_plus : bool) : bytes :=
  match UrlDecode_loop str space_as_plus str 0 None with
  | None => str
  | Some rt => rt
  end.

(* ------------------------------------------------------------------ *)
(** ** [StringUtil]: trimming *)

(* sylar/util.cpp:507-514, StringUtil::Trim *)
Definition Trim (str delimit : bytes) : outcome bytes :=
  match find_first_not_of str delimit with
  | None => Ret []
  | Some b =>
      match find_last_not_of str delimit with
      | Some e => substr str b (Some (e - b + 1)%nat)
      | None => substr str b None
      end
  end.

(* sylar/util.cpp:516-522, StringUtil::TrimLeft *)
Definition TrimLeft (str delimit : bytes) : outcome bytes :=
  match find_first_not_of str delimit with
  | None => Ret []
  | Some b => substr str b None
  end.

(* sylar/util.cpp:524-530, StringUtil::TrimRight *)
Definition TrimRight (str delimit : bytes) : outcome bytes :=
  match find_last_not_of str delimit with
  | None => Ret []
  | Some e => substr str 0 (Some e)
  end.

(* sylar/util.cpp:109-113, ToUpper *)
Definition ToUpper (name : bytes) : bytes := toupper <$> name.
(* sylar/util.cpp:115-119, ToLower *)
Definition ToLower (name : bytes) : bytes := tolower <$> name.

(* ------------------------------------------------------------------ *)
(** ** [TypeUtil] *)

(* sylar/util.cpp:338-343, TypeUtil::ToChar *)
Definition ToChar (str : bytes) : Z :=
  match str with [] => 0 | c :: _ => schar c end.

(* sylar/util.cpp:345-350, TypeUtil::Atoi *)
Definition Atoi (str : bytes) : Z :=
  match str with [] => 0 | _ => i64 (strtoull str) end.

(** The overloads on [const char *]; [None] is a null pointer. *)
(* sylar/util.cpp:359-364, TypeUtil::ToChar *)
Definition ToChar_ptr (str : option bytes) : Z :=
  match str with None => 0 | Some s => match s with [] => 0 | c :: _ => schar c end end.

(* sylar/util.cpp:366-371, TypeUtil::Atoi *)
Definition Atoi_ptr (str : option bytes) : Z :=
  match str with None => 0 | Some s => i64 (strtoull s) end.

(* ------------------------------------------------------------------ *)
(** ** [FSUtil]: paths *)

(* sylar/util.cpp:297-309, FSUtil::Dirname *)
Definition Dirname (filename : bytes) : outcome bytes :=
  if bool_decide (filename = []) then Ret (B ".")
  else
    match rfind_char filename "/" with
    | Some O => Ret (B "/")
    | None => Ret (B ".")
    | Some pos => substr filename 0 (Some pos)
    end.

(* sylar/util.cpp:311-321, FSUtil::Basename *)
Definition Basename (filename : bytes) : outcome bytes :=
  if bool_decide (filename = []) then Ret filename
  else
    match rfind_char filename "/" with
    | None => Ret filename
    | Some pos => substr filename (S pos) None
    end.

(* ------------------------------------------------------------------ *)
(** ** Percent encoding: reference definitions *)

Definition encode_char (plus : bool) (c : ascii) : bytes :=
  if CHAR_IS_UNRESERVED c then [c] else encode_reserved plus c.

(** Character by character, without the shared copy. *)
Definition encode (plus : bool) (s : bytes) : bytes := s ≫= encode_char plus.

Fixpoint decode (plus : bool) (s : bytes) : bytes :=
  match s with
  | [] => []
  | c :: r =>
      if (Ascii.eqb c "+") && plus then " "%char :: decode plus r
      else
        match r with
        | c1 :: c2 :: r' =>
            if (Ascii.eqb c "%") && isxdigit c1 && isxdigit c2
            then decode_pair c1 c2 :: decode plus r'
            else c :: decode plus r
        | _ => c :: decode plus r
        end
  end.

Lemma UrlEncode_loop_ref plus pre rest ss :
  default (pre ++ rest) (UrlEncode_loop (pre ++ rest) plus rest (length pre) ss)
  = default pre ss ++ encode plus rest.
Proof.
  revert pre ss. induction rest as [|c r IH]; intros pre ss; cbn [UrlEncode_loop].
  - unfold encode. cbn. rewrite !app_nil_r. by destruct ss.
  - replace (pre ++ c :: r) with ((pre ++ [c]) ++ r) by by rewrite <- (assoc_L (++)).
    replace (S (length pre)) with (length (pre ++ [c])) by (rewrite length_app; simpl; lia).
    rewrite IH. unfold encode. cbn [mbind list_bind]. unfold encode_char at 2.
    destruct (CHAR_IS_UNRESERVED c); cbn [negb].
    + destruct ss; cbn [from_option id]; by rewrite <- (assoc_L (++)).
    + cbn [from_option id]. rewrite <- !(assoc_L (++)). f_equal.
      destruct ss; [done|]. by rewrite take_app_length.
Qed.

(** UrlEncode is its reference: the lazily made copy changes nothing. *)
Lemma UrlEncode_ref s plus : UrlEncode s plus = encode plus s.
Proof. apply (UrlEncode_loop_ref plus [] s None). Qed.

Lemma UrlDecode_loop_ref plus pre rest ss :
  default (pre ++ rest) (UrlDecode_loop (pre ++ rest) plus rest (length pre) ss)
  = default pre ss ++ decode plus rest.
Proof.
  remember (length rest) as n eqn:Hn. revert pre rest ss Hn.
  induction (lt_wf n) as [n _ IH]. intros pre rest ss ->.
  assert (Hbuf : match ss with None => take (length pre) (pre ++ rest) | Some b => b end
                 = default pre ss) by (destruct ss; [done|apply take_app_length]).
  assert (Hstep : ∀ d r ss', rest = d ++ r → (0 < length d)%nat →
    default (pre ++ rest) (UrlDecode_loop (pre ++ rest) plus r (length d + length pre) ss')
    = default (pre ++ d) ss' ++ decode plus r).
  { intros d r ss' -> Hd. rewrite (assoc_L (++)), Nat.add_comm, <- length_app.
    apply (IH (length r)); [rewrite length_app; lia|done]. }
  destruct rest as [|c r]; [cbn; rewrite !app_nil_r; by destruct ss|].
  assert (Hkeep : default (pre ++ c :: r) (UrlDecode_loop (pre ++ c :: r) plus r (S (length pre))
      match ss with Some buf => Some (buf ++ [c]) | None => None end)
    = default pre ss ++ c :: decode plus r).
  { rewrite (Hstep [c] r); [|done|simpl; lia].
    destruct ss; cbn [from_option id]; by rewrite <- (assoc_L (++)). }
  cbn [UrlDecode_loop decode]. rewrite Hbuf.
  destruct (Ascii.eqb c "+" && plus).
  { rewrite (Hstep [c] r); [|done|simpl; lia]. cbn [from_option id]. by rewrite <- (assoc_L (++)). }
  destruct r as [|c1 [|c2 r']]; [apply Hkeep..|].
  destruct (Ascii.eqb c "%" && isxdigit c1 && isxdigit c2); [|apply Hkeep].
  rewrite (Hstep [c; c1; c2] r'); [|done|simpl; lia]. cbn [from_option id]. by rewrite <- (assoc_L (++)).
Qed.

Lemma UrlDecode_ref s plus : UrlDecode s plus = decode plus s.
Proof. apply (UrlDecode_loop_ref plus [] s None). Qed.

(** *** Round trip *)

Lemma unreserved_plain c :
  CHAR_IS_UNRESERVED c = true → Ascii.eqb c "+" = false ∧ Ascii.eqb c "%" = false.
Proof.
  assert (implb (CHAR_IS_UNRESERVED c) (negb (Ascii.eqb c "+") && negb (Ascii.eqb c "%")) = true)
    as H by by_chars c.
  intros E. rewrite E in H. by destruct (Ascii.eqb c "+"), (Ascii.eqb c "%").
Qed.

Definition high (c : ascii) : ascii := hexdigit (Z.shiftr (uchar c) 4).
Definition low (c : ascii) : ascii := hexdigit (Z.land (schar c) 15).

Lemma hex_digits_decode c :
  isxdigit (high c) = true ∧ isxdigit (low c) = true ∧ decode_pair (high c) (low c) = c.
Proof.
  assert (isxdigit (high c) && isxdigit (low c) && Ascii.eqb (decode_pair (high c) (low c)) c = true)
    as H by by_chars c.
  apply andb_prop in H as [[??]%andb_prop ?%Ascii.eqb_eq]. done.
Qed.

Lemma decode_encode_char plus c t :
  decode plus (encode_char plus c ++ t) = c :: decode plus t.
Proof.
  unfold encode_char. destruct (CHAR_IS_UNRESERVED c) eqn:Hc.
  - apply unreserved_plain in Hc as [E1 E2]. cbn [app decode]. rewrite E1, E2.
    by destruct t as [|? [|??]].
  - unfold encode_reserved. destruct (Ascii.eqb c " " && plus) eqn:E.
    + apply andb_prop in E as [->%Ascii.eqb_eq ->]. done.
    + destruct (hex_digits_decode c) as (H1 & H2 & H3). unfold high, low in *.
      cbn [app decode]. rewrite H1, H2, H3. done.
Qed.

(** The decoder that keeps '+' undoes the encoder without it; the one that
    replaces '+' undoes both. *)
Lemma decode_encode_false c t plus :
  decode plus (encode_char false c ++ t) = c :: decode plus t.
Proof.
  unfold encode_char. destruct (CHAR_IS_UNRESERVED c) eqn:Hc.
  - apply unreserved_plain in Hc as [E1 E2]. cbn [app decode]. rewrite E1, E2.
    by destruct t as [|? [|??]].
  - unfold encode_reserved. rewrite andb_false_r.
    destruct (hex_digits_decode c) as (H1 & H2 & H3). unfold high, low in *.
    cbn [app decode]. rewrite H1, H2, H3. done.
Qed.

Lemma decode_encode s plus plus' : decode (plus || plus') (encode plus s) = s.
Proof.
  induction s as [|c s IH]; [done|]. unfold encode in *. cbn [mbind list_bind].
  destruct plus; cbn [orb] in *; rewrite ?decode_encode_char, ?decode_encode_false, IH; done.
Qed.

(** What an encoded string consists of. *)
Definition url_safe (c : ascii) : bool := CHAR_IS_UNRESERVED c || Ascii.eqb c "%" || Ascii.eqb c "+".

Lemma encode_char_safe plus c d : d ∈ encode_char plus c → url_safe d = true.
Proof.
  assert (forallb url_safe (encode_char plus c) = true) as H by (destruct plus; by_chars c).
  rewrite forallb_forall in H. intros ?. by apply H, list_elem_of_In.
Qed.

(** UrlEncode and UrlDecode, with the copy they make only when a
    character has to change, are the character-by-character coding; decoding
    gives every byte string back, also one encoded without '+' for blanks
    when decoded with it, and encoded text holds unreserved characters, '%'
    and '+' only. *)
Theorem url_roundtrip (s : bytes) (plus plus' : bool) :
  UrlDecode (UrlEncode s plus) (plus || plus') = s
  ∧ UrlEncode s plus = encode plus s
  ∧ UrlDecode s plus = decode plus s
  ∧ Forall (λ c, url_safe c = true) (UrlEncode s plus).
Proof.
  rewrite !UrlEncode_ref, !UrlDecode_ref. repeat split.
  - apply decode_encode.
  - apply Forall_forall. intros d. unfold encode. rewrite list_elem_of_bind.
    intros (c & Hd & _). by apply encode_char_safe in Hd.
Qed.

(* ------------------------------------------------------------------ *)
(** ** Trimming *)

(** [s] starts (ends) with a character outside [set]. *)
Definition starts_clean (set m : bytes) : Prop := ∃ c r, m = c :: r ∧ c ∉ set.
Definition ends_clean (set m : bytes) : Prop := ∃ r c, m = r ++ [c] ∧ c ∉ set.

Lemma mem_char_spec set c : mem_char set c = true ↔ c ∈ set.
Proof.
  unfold mem_char. rewrite existsb_exists. split.
  - intros (d & ? & ->%Ascii.eqb_eq). by apply list_elem_of_In.
  - intros. exists c. split; [by apply list_elem_of_In|apply ascii_eqb_refl].
Qed.

Lemma mem_char_false set c : c ∉ set → mem_char set c = false.
Proof. rewrite <- mem_char_spec. apply not_true_is_false. Qed.

Lemma first_clean set l m r :
  (∀ c, c ∈ l → c ∈ set) → starts_clean set m → find_first_not_of (l ++ m ++ r) set = Some (length l).
Proof.
  intros Hl (c & m' & -> & Hc). unfold find_first_not_of. rewrite find_from_app; [|lia|].
  - cbn. rewrite mem_char_false by done. cbn. by rewrite Nat.add_0_r.
  - intros d. rewrite drop_0. intros ?%Hl%mem_char_spec. by apply negb_false_iff.
Qed.

Lemma last_clean set l m r :
  (∀ c, c ∈ r → c ∈ set) → ends_clean set m →
  find_last_not_of (l ++ m ++ r) set = Some (length l + length m - 1)%nat.
Proof.
  intros Hr (m' & c & -> & Hc). unfold find_last_not_of.
  rewrite <- (assoc_L (++)), (assoc_L (++)). cbn [app]. rewrite find_last_app.
  - f_equal. rewrite !length_app. simpl. lia.
  - by rewrite mem_char_false.
  - intros d ?%Hr%mem_char_spec. by apply negb_false_iff.
Qed.

(** Of blanks, text and blanks, Trim returns the text and TrimLeft drops
    the blanks before it; TrimRight drops the blanks after it and with them
    the last character of the text. *)
Theorem trim_exact (set l m r : bytes)
  (Hl : ∀ c, c ∈ l → c ∈ set) (Hr : ∀ c, c ∈ r → c ∈ set)
  (Hs : starts_clean set m) (He : ends_clean set m) :
  Trim (l ++ m ++ r) set = Ret m
  ∧ TrimLeft (l ++ m ++ r) set = Ret (m ++ r)
  ∧ TrimRight (l ++ m ++ r) set = Ret (l ++ take (length m - 1) m).
Proof.
  assert (0 < length m)%nat by (destruct Hs as (? & ? & -> & _); simpl; lia).
  unfold Trim, TrimLeft, TrimRight. rewrite first_clean, last_clean by done.
  rewrite substr_ret, substr_all, substr_ret by (rewrite length_app; lia).
  rewrite drop_app_length, drop_0. repeat split; f_equal.
  - rewrite take_app_le by lia. apply take_ge. lia.
  - rewrite take_app_ge by lia. rewrite take_app_le by lia. do 2 f_equal. lia.
Qed.

Lemma trim_exact_witness :
  Trim (B "  id ") (B " ") = Ret (B "id") ∧ TrimLeft (B "  id ") (B " ") = Ret (B "id ")
  ∧ TrimRight (B "  id ") (B " ") = Ret (B "  i").
Proof.
  apply (trim_exact (B " ") (B "  ") (B "id") (B " ")).
  - intros c Hc. change (B "  ") with [" "%char; " "%char] in Hc. set_solver.
  - done.
  - exists "i"%char, (B "d"). split; [done|]. by apply (bool_decide_eq_true _).
  - exists (B "i"), "d"%char. split; [done|]. by apply (bool_decide_eq_true _).
Defined.

(* ------------------------------------------------------------------ *)
(** ** Paths *)

Lemma rfind_char_app s c t : c ∉ t → rfind_char (s ++ c :: t) c = Some (length s).
Proof.
  intros Ht. apply find_last_app; [apply ascii_eqb_refl|].
  intros d Hd. apply ascii_eqb_neq. by intros ->.
Qed.

(** A directory, a slash and a name without a slash come apart again. *)
Lemma path_split d n :
  "/"%char ∉ n → d ≠ [] →
  Dirname (d ++ "/"%char :: n) = Ret d ∧ Basename (d ++ "/"%char :: n) = Ret n.
Proof.
  intros Hn Hd. unfold Dirname, Basename.
  rewrite bool_decide_false by (by destruct d). rewrite rfind_char_app by done.
  destruct (length d) eqn:E; [by apply nil_length_inv in E|]. rewrite <- E.
  rewrite substr_ret, substr_all by (rewrite length_app; simpl; lia).
  rewrite drop_0, take_app_length. split; [done|]. f_equal.
  replace (S (length d)) with (length (d ++ ["/"%char])) by (rewrite length_app; simpl; lia).
  replace (d ++ "/"%char :: n) with ((d ++ ["/"%char]) ++ n) by by rewrite <- (assoc_L (++)).
  apply drop_app_length.
Qed.
