(* ===== verification/ByteStream.v ===== *)
(** * What the typed encoders and decoders need of a buffer

    [ByteArray] writes and reads its integers and strings through two
    untyped operations and its byte-order flag.  [ByteStream] is that
    interface and [ByteStreamLaws] its contract, stated on the data and
    the position a client sees; [ByteArrayCodec] is proved against it. *)
From S2P Require Import Prelude Endian.
Local Open Scope nat_scope.

Class ByteStream (S : Type) := {
  bs_write : bytes → stE S unit;
  bs_read : Z → stE S bytes;
  bs_endian : S → endian
}.

Class ByteStreamLaws (S : Type) `{!ByteStream S} := {
  bs_data : S → bytes;
  bs_pos : S → nat;
  (** The stream is consistent and takes this many more bytes. *)
  bs_room : nat → S → Prop;
  bs_pos_le n s : bs_room n s → bs_pos s ≤ length (bs_data s);
  bs_write_law d n s : bs_room (n + length d) s →
    ∃ s', bs_write d s = (Ret tt, s') ∧ bs_room n s' ∧
      bs_data s' = splice (bs_pos s) d (bs_data s) ∧
      bs_pos s' = bs_pos s + length d ∧ bs_endian s' = bs_endian s;
  bs_read_law k n s : bs_room n s → 0 < k → bs_pos s + k ≤ length (bs_data s) →
    ∃ s', bs_read (Z.of_nat k) s = (Ret (slice (bs_pos s) k (bs_data s)), s') ∧
      bs_room n s' ∧ bs_data s' = bs_data s ∧
      bs_pos s' = bs_pos s + k ∧ bs_endian s' = bs_endian s;
  bs_read_short k n s : bs_room n s → length (bs_data s) < bs_pos s + k →
    bs_read (Z.of_nat k) s = (Throw out_of_range, s)
}.

Section specs.
Context {S : Type} `{HL : ByteStreamLaws S}.
Implicit Types s : S.

(** [m] emits exactly [d] when the flag is [e]. *)
Definition writes (e : endian) (m : stE S unit) (d : bytes) : Prop :=
  ∀ n s, bs_endian s = e → bs_room (n + length d) s →
  ∃ s', m s = (Ret tt, s') ∧ bs_room n s' ∧
    bs_data s' = splice (bs_pos s) d (bs_data s) ∧
    bs_pos s' = bs_pos s + length d ∧ bs_endian s' = e.

(** The data from the position on starts with [d]. *)
Definition at_head (s : S) (d : bytes) : Prop :=
  ∃ l, drop (bs_pos s) (bs_data s) = d ++ l.

(** [m] consumes [d] and returns [v]. *)
Definition reads {A} (e : endian) (m : stE S A) (d : bytes) (v : A) : Prop :=
  ∀ n s, bs_endian s = e → bs_room n s → at_head s d →
  ∃ s', m s = (Ret v, s') ∧ bs_room n s' ∧ bs_data s' = bs_data s ∧
    bs_pos s' = bs_pos s + length d ∧ bs_endian s' = e.

Lemma writes_ret e : writes e (mret tt) [].
Proof.
  intros n s He Hr. exists s. simpl in Hr. rewrite Nat.add_0_r in Hr.
  rewrite splice_nil. simpl. split_and!; done || lia.
Qed.

Lemma writes_bs_write e d : writes e (bs_write d) d.
Proof.
  intros n s He Hr. destruct (bs_write_law d n s Hr) as (s' & ? & ? & ? & ? & ?).
  exists s'. split_and!; congruence.
Qed.

Lemma writes_bind e m1 m2 d1 d2 :
  writes e m1 d1 → writes e m2 d2 → writes e (m1 ≫= λ _, m2) (d1 ++ d2).
Proof.
  intros H1 H2 n s He Hr. rewrite length_app in Hr.
  destruct (H1 (n + length d2) s He) as (s1 & E1 & Hr1 & Hd1 & Hp1 & He1);
    [by replace (n + length d2 + length d1) with (n + (length d1 + length d2)) by lia|].
  destruct (H2 n s1 He1 Hr1) as (s2 & E2 & Hr2 & Hd2 & Hp2 & He2).
  exists s2. rewrite (stE_bind_ret _ _ _ _ _ E1). split_and!; try done.
  - rewrite Hd2, Hd1, Hp1. apply splice_splice_app. by apply (bs_pos_le _ _ Hr).
  - rewrite Hp2, Hp1, length_app. lia.
Qed.

(** A choice made on the byte-order flag. *)
Lemma writes_endian e m d : writes e (m e) d → writes e (get ≫= λ s, m (bs_endian s)) d.
Proof. intros H n s He Hr. unfold mbind, stE_bind, get. rewrite He. by apply H. Qed.

Lemma at_head_app s d1 d2 : at_head s (d1 ++ d2) → at_head s d1.
Proof. intros [l Hl]. exists (d2 ++ l). by rewrite (assoc_L (++)). Qed.

Lemma at_head_next s s' d1 d2 :
  at_head s (d1 ++ d2) → bs_data s' = bs_data s → bs_pos s' = bs_pos s + length d1 →
  at_head s' d2.
Proof.
  intros [l Hl] Hd Hp. exists l. rewrite Hd, Hp, <- drop_drop, Hl.
  rewrite <- (assoc_L (++)). by rewrite drop_app_length.
Qed.


Lemma at_head_length s d : at_head s d →
  slice (bs_pos s) (length d) (bs_data s) = d ∧ bs_pos s + length d ≤ length (bs_data s) ∨ d = [].
Proof.
  intros [l Hl]. destruct (decide (d = [])) as [|Hne]; [by right|left].
  unfold slice. rewrite Hl, take_app_length. split; [done|].
  apply (f_equal length) in Hl. rewrite length_drop, length_app in Hl.
  destruct d; simpl in *; [done|lia].
Qed.

Lemma reads_ret {A} e (v : A) : reads e (mret v) [] v.
Proof. intros n s He Hr _. exists s. simpl. split_and!; done || lia. Qed.

Lemma reads_bs_read e k d : 0 < k → length d = k → reads e (bs_read (Z.of_nat k)) d d.
Proof.
  intros Hk <- n s He Hr Hh. destruct (at_head_length _ _ Hh) as [[Hs Hlen]| ->]; [|simpl in Hk; lia].
  destruct (bs_read_law (length d) n s Hr Hk Hlen) as (s' & E & ? & ? & ? & ?).
  rewrite Hs in E. exists s'. split_and!; congruence.
Qed.

Lemma reads_bind {A C} e (m1 : stE S A) (m2 : A → stE S C) d1 d2 v1 v2 :
  reads e m1 d1 v1 → reads e (m2 v1) d2 v2 → reads e (m1 ≫= m2) (d1 ++ d2) v2.
Proof.
  intros H1 H2 n s He Hr Hh.
  destruct (H1 n s He Hr) as (s1 & E1 & Hr1 & Hd1 & Hp1 & He1); [by eapply at_head_app|].
  destruct (H2 n s1 He1 Hr1) as (s2 & E2 & Hr2 & Hd2 & Hp2 & He2); [by eapply at_head_next|].
  exists s2. rewrite (stE_bind_ret _ _ _ _ _ E1). rewrite length_app.
  split_and!; try done; [congruence|lia].
Qed.

Lemma reads_bind_ret {A C} e (m1 : stE S A) (f : A → C) d v :
  reads e m1 d v → reads e (m1 ≫= λ x, mret (f x)) d (f v).
Proof.
  intros H. rewrite <- (app_nil_r d). eapply reads_bind; [done|]. apply reads_ret.
Qed.

Lemma reads_endian {A} e (m : endian → stE S A) d v :
  reads e (m e) d v → reads e (get ≫= λ s, m (bs_endian s)) d v.
Proof. intros H n s He Hr Hh. unfold mbind, stE_bind, get. rewrite He. by apply H. Qed.
End specs.

#[export] Hint Resolve writes_ret writes_bs_write writes_bind writes_endian : sylar.
#[export] Hint Resolve reads_ret reads_bs_read reads_bind reads_bind_ret reads_endian : sylar.
