(* ===== verification/ByteArray.v ===== *)
(** * The segmented byte buffer ([sylar/bytearray.h], [sylar/bytearray.cc])

    State, capacity management, raw reads and writes, positioning,
    scatter/gather views and file transfer.  The typed reads and writes
    are in [ByteArrayCodec].

    The chain of nodes that starts at [m_root] is the list [m_nodes], the
    root first; a [Node*] into the chain is an index, [nullptr] is [None],
    and [p->next] is the next index, or [None] at the end.  A node is the
    block [ptr] of [size] bytes.  What [new char[s]] leaves in a fresh
    block is the parameter [garbage]. *)
From S2P Require Import Prelude Endian ByteStream.
Local Open Scope Z_scope.

Abbreviation Node := bytes.

(* sylar/bytearray.h:467-482, ByteArray *)
Record ByteArray := mkByteArray {
  m_baseSize : Z;
  m_position : Z;
  m_capacity : Z;
  m_size : Z;
  m_endian : endian;
  m_nodes : list Node;
  m_cur : option nat
}.

Definition set_position (v : Z) (b : ByteArray) : ByteArray :=
  mkByteArray (m_baseSize b) v (m_capacity b) (m_size b) (m_endian b) (m_nodes b) (m_cur b).
Definition set_size (v : Z) (b : ByteArray) : ByteArray :=
  mkByteArray (m_baseSize b) (m_position b) (m_capacity b) v (m_endian b) (m_nodes b) (m_cur b).
Definition set_endian (v : endian) (b : ByteArray) : ByteArray :=
  mkByteArray (m_baseSize b) (m_position b) (m_capacity b) (m_size b) v (m_nodes b) (m_cur b).
Definition set_nodes (v : list Node) (b : ByteArray) : ByteArray :=
  mkByteArray (m_baseSize b) (m_position b) (m_capacity b) (m_size b) (m_endian b) v (m_cur b).
Definition set_cur (v : option nat) (b : ByteArray) : ByteArray :=
  mkByteArray (m_baseSize b) (m_position b) (m_capacity b) (m_size b) (m_endian b) (m_nodes b) v.

(** [p->size] and [p->next] of a node pointer of the chain. *)
Definition node_size (nodes : list Node) (p : option nat) : outcome Z :=
  match p with
  | None => Crash null_deref
  | Some i => match nodes !! i with
              | Some nd => Ret (Z.of_nat (length nd))
              | None => Crash out_of_bounds
              end
  end.

Definition node_next (nodes : list Node) (i : nat) : option nat :=
  if decide (S i < length nodes)%nat then Some (S i) else None.

(** [memcpy] to and from [p->ptr + off]; an access that leaves the block
    is a fault. *)
Definition store (nodes : list Node) (p : option nat) (off : Z) (d : bytes)
    : outcome (list Node) :=
  match p with
  | None => Crash null_deref
  | Some i => match nodes !! i with
    | Some nd =>
        if decide (0 <= off ∧ off + Z.of_nat (length d) <= Z.of_nat (length nd))
        then Ret (<[i := splice (Z.to_nat off) d nd]> nodes)
        else Crash out_of_bounds
    | None => Crash out_of_bounds
    end
  end.

Definition load (nodes : list Node) (p : option nat) (off n : Z) : outcome bytes :=
  match p with
  | None => Crash null_deref
  | Some i => match nodes !! i with
    | Some nd =>
        if decide (0 <= off ∧ 0 <= n ∧ off + n <= Z.of_nat (length nd))
        then Ret (slice (Z.to_nat off) (Z.to_nat n) nd)
        else Crash out_of_bounds
    | None => Crash out_of_bounds
    end
  end.

Arguments node_size : simpl never.
Arguments store : simpl never.
Arguments load : simpl never.

(** The offset of position [v] inside its node, [v % m_baseSize]. *)
Definition offset_in (b : ByteArray) (v : Z) : outcome Z :=
  if decide (m_baseSize b = 0) then Crash div_by_zero else Ret (v mod m_baseSize b).

(* sylar/bytearray.h:404-404, ByteArray::getReadSize *)
Definition getReadSize (b : ByteArray) : Z := u64 (m_size b - m_position b).

(* sylar/bytearray.h:466-466, ByteArray::getCapacity *)
Definition getCapacity (b : ByteArray) : Z := u64 (m_capacity b - m_position b).

(** Enough steps for a walk along the chain of nodes. *)
Definition chain_fuel (b : ByteArray) : nat := S (S (length (m_nodes b))).

Section operations.
(** The byte that [new] leaves at offset [j] of the [k]-th node. *)
Context (garbage : nat → nat → ascii).

(* sylar/bytearray.cc:15-19, ByteArray::Node::Node *)
Definition new_node (k : nat) (s : Z) : Node := garbage k <$> seq 0 (Z.to_nat s).

(* sylar/bytearray.cc:33-41, ByteArray::ByteArray *)
Definition new_ByteArray (base_size : Z) : ByteArray :=
  mkByteArray base_size 0 base_size 0 SYLAR_BIG_ENDIAN [new_node 0 base_size] (Some 0%nat).

(* sylar/bytearray.cc:52-54, ByteArray::isLittleEndian *)
Definition isLittleEndian (b : ByteArray) : bool :=
  bool_decide (m_endian b = SYLAR_LITTLE_ENDIAN).

(* sylar/bytearray.cc:56-62, ByteArray::setIsLittleEndian *)
Definition setIsLittleEndian (val : bool) (b : ByteArray) : ByteArray :=
  if val then set_endian SYLAR_LITTLE_ENDIAN b else set_endian SYLAR_BIG_ENDIAN b.

(** [ceil(1.0 * size / base)]: the double computation is exact for
    sizes below 2^53, which is above any address space. *)
Definition ceil_div (size base : Z) : Z := (size + base - 1) / base.

(** The loop of [addCapacity] that links [count] fresh nodes. *)
Fixpoint link_nodes (count : nat) (b : ByteArray) : ByteArray :=
  match count with
  | O => b
  | S c =>
      link_nodes c
        (mkByteArray (m_baseSize b) (m_position b)
           (u64 (m_capacity b + m_baseSize b)) (m_size b) (m_endian b)
           (m_nodes b ++ [new_node (length (m_nodes b)) (m_baseSize b)]) (m_cur b))
  end.

(* sylar/bytearray.cc:499-528, ByteArray::addCapacity *)
Definition addCapacity (size : Z) : stE ByteArray unit := λ b,
  if decide (size = 0) then (Ret tt, b)
  else
    let old_cap := getCapacity b in
    if decide (size <= old_cap) then (Ret tt, b)
    else if decide (m_baseSize b = 0) then (Crash div_by_zero, b)
    else
      let count := Z.to_nat (ceil_div (size - old_cap) (m_baseSize b)) in
      let first := if decide (count = 0%nat) then None else Some (length (m_nodes b)) in
      let b' := link_nodes count b in
      (Ret tt, if decide (old_cap = 0) then set_cur first b' else b').

(** The [while(size > 0)] loop of [write]; [buf] is what is left to
    copy, [size] its length. *)
Fixpoint write_loop (fuel : nat) (npos ncap : Z) (buf : bytes) : stE ByteArray unit := λ b,
  match fuel with
  | O => (Crash no_fuel, b)
  | S f =>
    let size := Z.of_nat (length buf) in
    if decide (size <= 0) then (Ret tt, b)
    else if decide (size <= ncap) then
      match store (m_nodes b) (m_cur b) npos buf, node_size (m_nodes b) (m_cur b), m_cur b with
      | Ret nodes', Ret nsize, Some i =>
          let cur' := if decide (nsize = npos + size) then node_next nodes' i else Some i in
          write_loop f npos ncap []
            (set_position (u64 (m_position b + size)) (set_cur cur' (set_nodes nodes' b)))
      | Crash c, _, _ => (Crash c, b)
      | _, _, _ => (Crash null_deref, b)
      end
    else
      match store (m_nodes b) (m_cur b) npos (take (Z.to_nat ncap) buf), m_cur b with
      | Ret nodes', Some i =>
          let b' := set_position (u64 (m_position b + ncap))
                      (set_cur (node_next nodes' i) (set_nodes nodes' b)) in
          match node_size (m_nodes b') (m_cur b') with
          | Ret nsize => write_loop f 0 nsize (drop (Z.to_nat ncap) buf) b'
          | Throw e => (Throw e, b')
          | Crash c => (Crash c, b')
          end
      | Crash c, _ => (Crash c, b)
      | _, _ => (Crash null_deref, b)
      end
  end.

(* sylar/bytearray.cc:345-378, ByteArray::write *)
Definition write (buf : bytes) : stE ByteArray unit :=
  if decide (length buf = 0%nat) then mret tt
  else
    _ ← addCapacity (Z.of_nat (length buf));
    b ← get;
    match offset_in b (m_position b), node_size (m_nodes b) (m_cur b) with
    | Ret npos, Ret nsize =>
        _ ← write_loop (chain_fuel b) npos (nsize - npos) buf;
        modify (λ b, if decide (m_size b < m_position b) then set_size (m_position b) b else b)
    | Crash c, _ | _, Crash c => crash c
    | _, _ => crash null_deref
    end.

(** The loop shared by the two [read] functions: the bytes copied and
    the node pointer at the end.  Where the code advances [m_position]
    and [m_cur] it does so by what this loop consumed. *)
Fixpoint read_loop (fuel : nat) (nodes : list Node) (cur : option nat) (npos ncap size : Z)
    : outcome (bytes * option nat) :=
  match fuel with
  | O => Crash no_fuel
  | S f =>
    if decide (size <= 0) then Ret ([], cur)
    else if decide (size <= ncap) then
      d ← load nodes cur npos size;
      nsize ← node_size nodes cur;
      match cur with
      | None => Crash null_deref
      | Some i =>
          Ret (d, if decide (nsize = npos + size) then node_next nodes i else Some i)
      end
    else
      d ← load nodes cur npos ncap;
      match cur with
      | None => Crash null_deref
      | Some i =>
          let cur' := node_next nodes i in
          nsize ← node_size nodes cur';
          '(rest, last) ← read_loop f nodes cur' 0 nsize (size - ncap);
          Ret (d ++ rest, last)
      end
  end.

(* sylar/bytearray.cc:380-407, ByteArray::read *)
Definition read (size : Z) : stE ByteArray bytes := λ b,
  if decide (getReadSize b < size) then (Throw out_of_range, b)
  else
    match offset_in b (m_position b), node_size (m_nodes b) (m_cur b) with
    | Ret npos, Ret nsize =>
        match read_loop (chain_fuel b) (m_nodes b) (m_cur b) npos (nsize - npos) size with
        | Ret (d, cur') => (Ret d, set_cur cur' (set_position (u64 (m_position b + size)) b))
        | Throw e => (Throw e, b)
        | Crash c => (Crash c, b)
        end
    | Crash c, _ | _, Crash c => (Crash c, b)
    | _, _ => (Crash null_deref, b)
    end.

(* sylar/bytearray.cc:409-437, ByteArray::read *)
Definition read_at (size position : Z) (b : ByteArray) : outcome bytes :=
  if decide (u64 (m_size b - position) < size) then Throw out_of_range
  else
    npos ← offset_in b position;
    nsize ← node_size (m_nodes b) (m_cur b);
    '(d, _) ← read_loop (chain_fuel b) (m_nodes b) (m_cur b) npos (nsize - npos) size;
    Ret d.

(* sylar/bytearray.cc:332-343, ByteArray::clear *)
Definition clear (b : ByteArray) : ByteArray :=
  mkByteArray (m_baseSize b) 0 (m_baseSize b) 0 (m_endian b) (take 1 (m_nodes b)) (Some 0%nat).

(** The walk of [setPosition] from the root: [v] counts down the sizes
    of the nodes passed. *)
Fixpoint seek_loop (fuel : nat) (nodes : list Node) (cur : option nat) (v : Z)
    : outcome (option nat * Z) :=
  match fuel with
  | O => Crash no_fuel
  | S f =>
    nsize ← node_size nodes cur;
    if decide (nsize < v) then
      match cur with
      | Some i => seek_loop f nodes (node_next nodes i) (v - nsize)
      | None => Crash null_deref
      end
    else Ret (cur, v)
  end.

(* sylar/bytearray.cc:439-455, ByteArray::setPosition *)
Definition setPosition (v : Z) : stE ByteArray unit := λ b,
  if decide (m_capacity b < v) then (Throw out_of_range, b)
  else
    let b1 := set_position v b in
    let b2 := if decide (m_size b1 < m_position b1) then set_size (m_position b1) b1 else b1 in
    match seek_loop (chain_fuel b) (m_nodes b) (Some 0%nat) v with
    | Ret (Some i, v') =>
        match node_size (m_nodes b) (Some i) with
        | Ret nsize =>
            (Ret tt, set_cur (if decide (v' = nsize) then node_next (m_nodes b) i else Some i) b2)
        | Throw e => (Throw e, b2)
        | Crash c => (Crash c, b2)
        end
    | Ret (None, _) => (Crash null_deref, b2)
    | Throw e => (Throw e, b2)
    | Crash c => (Crash c, b2)
    end.

(* sylar/bytearray.cc:530-538, ByteArray::toString *)
Definition toString (b : ByteArray) : outcome bytes :=
  if decide (getReadSize b = 0) then Ret []
  else read_at (getReadSize b) (m_position b) b.

(** Two hexadecimal digits, as [std::hex << std::setw(2) << setfill('0')]. *)
Definition hex_digit (d : Z) : ascii :=
  if decide (d < 10) then char_of (48 + d) else char_of (87 + d).
Definition hex_byte (c : ascii) : bytes :=
  [hex_digit (uchar c / 16); hex_digit (uchar c mod 16)].

Fixpoint hex_loop (i : nat) (str : bytes) : bytes :=
  match str with
  | [] => []
  | c :: str' =>
      (if decide (0 < i ∧ i mod 32 = 0)%nat then [char_of 10] else [])
      ++ hex_byte c ++ [char_of 32] ++ hex_loop (S i) str'
  end.

(* sylar/bytearray.cc:540-553, ByteArray::toHexString *)
Definition toHexString (b : ByteArray) : outcome bytes :=
  str ← toString b; Ret (hex_loop 0 str).

(** One [iovec]: the node, the offset of [iov_base] in its block, and
    [iov_len]. *)
Record iovec := mk_iovec { iov_node : nat; iov_off : Z; iov_len : Z }.

(** The loop of the three functions that push the segments of [len]
    bytes onto [buffers]. *)
Fixpoint iov_loop (fuel : nat) (nodes : list Node) (cur : option nat) (npos ncap len : Z)
    : outcome (list iovec) :=
  match fuel with
  | O => Crash no_fuel
  | S f =>
    if decide (len <= 0) then Ret []
    else match cur with
    | None => Crash null_deref
    | Some i =>
      if decide (len <= ncap) then Ret [mk_iovec i npos len]
      else
        let cur' := node_next nodes i in
        nsize ← node_size nodes cur';
        rest ← iov_loop f nodes cur' 0 nsize (len - ncap);
        Ret (mk_iovec i npos ncap :: rest)
    end
  end.

(* sylar/bytearray.cc:556-585, ByteArray::getReadBuffers *)
Definition getReadBuffers (len : Z) (b : ByteArray) : outcome (Z * list iovec) :=
  let len := if decide (getReadSize b < len) then getReadSize b else len in
  if decide (len = 0) then Ret (0, [])
  else
    npos ← offset_in b (m_position b);
    nsize ← node_size (m_nodes b) (m_cur b);
    iovs ← iov_loop (chain_fuel b) (m_nodes b) (m_cur b) npos (nsize - npos) len;
    Ret (len, iovs).

(** [cur = cur->next], [count] times from the root. *)
Fixpoint nth_node (count : nat) (nodes : list Node) (cur : option nat) : outcome (option nat) :=
  match count with
  | O => Ret cur
  | S c => match cur with
           | None => Crash null_deref
           | Some i => nth_node c nodes (node_next nodes i)
           end
  end.

(* sylar/bytearray.cc:587-622, ByteArray::getReadBuffers *)
Definition getReadBuffers_at (len position : Z) (b : ByteArray) : outcome (Z * list iovec) :=
  let len := if decide (getReadSize b < len) then getReadSize b else len in
  if decide (len = 0) then Ret (0, [])
  else
    npos ← offset_in b position;
    cur ← nth_node (Z.to_nat (position / m_baseSize b)) (m_nodes b) (Some 0%nat);
    nsize ← node_size (m_nodes b) cur;
    iovs ← iov_loop (chain_fuel b) (m_nodes b) cur npos (nsize - npos) len;
    Ret (len, iovs).

(* sylar/bytearray.cc:624-652, ByteArray::getWriteBuffers *)
Definition getWriteBuffers (len : Z) : stE ByteArray (Z * list iovec) :=
  if decide (len = 0) then mret (0, [])
  else
    _ ← addCapacity len;
    query (λ b,
      npos ← offset_in b (m_position b);
      nsize ← node_size (m_nodes b) (m_cur b);
      iovs ← iov_loop (chain_fuel b) (m_nodes b) (m_cur b) npos (nsize - npos) len;
      Ret (len, iovs)).

(** The loop of [writeToFile]; the result is what reaches the file.
    [len] is an unsigned expression assigned to an [int64_t]. *)
Fixpoint file_loop (fuel : nat) (b : ByteArray) (cur : option nat) (pos read_size : Z)
    : outcome bytes :=
  match fuel with
  | O => Crash no_fuel
  | S f =>
    if decide (read_size <= 0) then Ret []
    else
      diff ← offset_in b pos;
      let len := i64 ((if decide (m_baseSize b < read_size) then m_baseSize b else read_size)
                      - diff) in
      if decide (len < 0) then Crash negative_length
      else
        d ← load (m_nodes b) cur diff len;
        match cur with
        | None => Crash null_deref
        | Some i =>
            rest ← file_loop f b (node_next (m_nodes b) i) (pos + len) (read_size - len);
            Ret (d ++ rest)
        end
  end.

(* sylar/bytearray.cc:457-480, ByteArray::writeToFile *)
Definition writeToFile (opened : bool) (b : ByteArray) : outcome (bool * bytes) :=
  if opened then
    out ← file_loop (chain_fuel b) b (m_cur b) (m_position b) (getReadSize b);
    Ret (true, out)
  else Ret (false, []).

(** [while(!ifs.eof())]: each turn reads up to [m_baseSize] bytes and
    writes the bytes it got; a short read sets [eof]. *)
Fixpoint file_read_loop (fuel : nat) (contents : bytes) : stE ByteArray unit :=
  match fuel with
  | O => crash no_fuel
  | S f =>
    b ← get;
    let n := Z.to_nat (m_baseSize b) in
    _ ← write (take n contents);
    if decide (length contents < n)%nat then mret tt
    else file_read_loop f (drop n contents)
  end.

(* sylar/bytearray.cc:482-497, ByteArray::readFromFile *)
Definition readFromFile (file : option bytes) : stE ByteArray bool :=
  match file with
  | None => mret false
  | Some contents =>
      _ ← file_read_loop (S (length contents)) contents;
      mret true
  end.
End operations.

(* ------------------------------------------------------------------ *)
(** ** The chain of nodes as one block *)

(** Every node has [m_baseSize] bytes. *)
Definition uniform (bs : nat) (nodes : list Node) : Prop :=
  Forall (λ nd, length nd = bs) nodes.

(** The node pointer for position [p] of a chain of [n] nodes. *)
Definition cursor (bs n p : nat) : option nat :=
  if decide (p / bs < n)%nat then Some (p / bs)%nat else None.

Section chain.
Context (bs : nat) (Hbs : (0 < bs)%nat).
Implicit Types (nodes : list Node) (i off n p : nat).
Local Open Scope nat_scope.

Lemma uniform_lookup nodes i nd : uniform bs nodes → nodes !! i = Some nd → length nd = bs.
Proof. intros H Hi. exact (Forall_lookup_1 _ _ _ _ H Hi). Qed.

Lemma length_concat_uniform nodes : uniform bs nodes → length (concat nodes) = length nodes * bs.
Proof.
  induction 1 as [|nd nodes Hnd _ IH]; [done|].
  simpl. rewrite length_app, IH. lia.
Qed.

Lemma uniform_insert nodes i nd :
  uniform bs nodes → length nd = bs → uniform bs (<[i := nd]> nodes).
Proof. intros. by apply Forall_insert. Qed.

Lemma concat_insert_splice nodes i off d nd :
  uniform bs nodes → nodes !! i = Some nd → off + length d ≤ bs →
  concat (<[i := splice off d nd]> nodes) = splice (i * bs + off) d (concat nodes).
Proof.
  intros Hu. revert i. induction Hu as [|nd' nodes Hnd Hu IH]; intros i Hi Hoff; [done|].
  destruct i as [|i]; simpl in *.
  - injection Hi as ->. by rewrite splice_app_l by lia.
  - rewrite IH by done. rewrite <- Hnd at 2.
    replace (length nd' + i * bs + off) with (length nd' + (i * bs + off)) by lia.
    by rewrite splice_app_r.
Qed.

Lemma slice_concat nodes i off n nd :
  uniform bs nodes → nodes !! i = Some nd → off + n ≤ bs →
  slice (i * bs + off) n (concat nodes) = slice off n nd.
Proof.
  intros Hu. revert i. induction Hu as [|nd' nodes Hnd Hu IH]; intros i Hi Hoff; [done|].
  destruct i as [|i]; simpl in *.
  - injection Hi as ->. unfold slice.
    by rewrite drop_app_le, take_app_le by (rewrite ?length_drop; lia).
  - rewrite <- (IH i) by done. unfold slice.
    rewrite drop_app_ge by lia. do 2 f_equal. lia.
Qed.

Lemma node_size_uniform nodes i :
  uniform bs nodes → i < length nodes → node_size nodes (Some i) = Ret (Z.of_nat bs).
Proof.
  intros Hu Hi. unfold node_size.
  destruct (lookup_lt_is_Some_2 nodes i Hi) as [nd Hnd]. rewrite Hnd.
  by rewrite (uniform_lookup _ _ _ Hu Hnd).
Qed.

Lemma store_uniform nodes i off d :
  uniform bs nodes → i < length nodes → off + length d ≤ bs →
  ∃ nodes', store nodes (Some i) (Z.of_nat off) d = Ret nodes' ∧ uniform bs nodes' ∧
    length nodes' = length nodes ∧ concat nodes' = splice (i * bs + off) d (concat nodes).
Proof.
  intros Hu Hi Hoff. unfold store.
  destruct (lookup_lt_is_Some_2 nodes i Hi) as [nd Hnd]. rewrite Hnd.
  pose proof (uniform_lookup _ _ _ Hu Hnd) as Hlen.
  rewrite decide_True by lia. rewrite Nat2Z.id.
  eexists; split_and!; [done| |by rewrite length_insert|by apply concat_insert_splice].
  apply uniform_insert; [done|]. rewrite length_splice; lia.
Qed.

Lemma load_uniform nodes i off n :
  uniform bs nodes → i < length nodes → off + n ≤ bs →
  load nodes (Some i) (Z.of_nat off) (Z.of_nat n) = Ret (slice (i * bs + off) n (concat nodes)).
Proof.
  intros Hu Hi Hoff. unfold load.
  destruct (lookup_lt_is_Some_2 nodes i Hi) as [nd Hnd]. rewrite Hnd.
  pose proof (uniform_lookup _ _ _ Hu Hnd) as Hlen.
  rewrite decide_True by lia. rewrite !Nat2Z.id. f_equal. symmetry.
  by apply slice_concat.
Qed.

Lemma div_split i off : off < bs → (i * bs + off) / bs = i.
Proof. intros. symmetry. apply (Nat.div_unique _ _ _ off); lia. Qed.

Lemma cursor_split n i off : i < n → off < bs → cursor bs n (i * bs + off) = Some i.
Proof. intros. unfold cursor. by rewrite div_split, decide_True by done. Qed.

(** The pointer after a node was filled to its end. *)
Lemma cursor_next nodes i : i < length nodes →
  node_next nodes i = cursor bs (length nodes) (S i * bs).
Proof. intros. unfold node_next, cursor. by rewrite Nat.div_mul by lia. Qed.

Lemma node_next_lt nodes i : S i < length nodes → node_next nodes i = Some (S i).
Proof. intros. unfold node_next. by rewrite decide_True. Qed.

Lemma cursor_Some n p i : cursor bs n p = Some i →
  i < n ∧ ∃ off, off < bs ∧ p = i * bs + off.
Proof.
  unfold cursor. case_decide as H; intros [= <-]. split; [done|].
  exists (p mod bs). pose proof (Nat.mod_upper_bound p bs).
  pose proof (Nat.div_mod_eq p bs). lia.
Qed.

Lemma cursor_lt n p : p < n * bs → ∃ i off,
  i < n ∧ off < bs ∧ p = i * bs + off ∧ cursor bs n p = Some i.
Proof.
  intros H. assert (p / bs < n) as Hi by (apply Nat.Div0.div_lt_upper_bound; lia).
  assert (cursor bs n p = Some (p / bs)) as Hc by (unfold cursor; by rewrite decide_True).
  destruct (cursor_Some _ _ _ Hc) as (? & off & ? & ?). eauto 10.
Qed.

Lemma cursor_end n : cursor bs n (n * bs) = None.
Proof. unfold cursor. rewrite Nat.div_mul by lia. by rewrite decide_False by lia. Qed.
End chain.

(* ------------------------------------------------------------------ *)
(** ** The copy loops act on the chain as on one block *)

(** The buffer with its chain replaced and its position moved to [p]. *)
Definition at_pos (bs : nat) (nodes : list Node) (p : nat) (b : ByteArray) : ByteArray :=
  set_position (Z.of_nat p) (set_cur (cursor bs (length nodes) p) (set_nodes nodes b)).

Section loops.
Context (bs : nat) (Hbs : (0 < bs)%nat).
Local Open Scope nat_scope.

Lemma read_loop_spec fuel nodes i off n npos ncap size :
  uniform bs nodes → i < length nodes → off < bs →
  i * bs + off + n ≤ length nodes * bs → length nodes - i < fuel →
  npos = Z.of_nat off → ncap = (Z.of_nat bs - Z.of_nat off)%Z → size = Z.of_nat n →
  read_loop fuel nodes (Some i) npos ncap size
  = Ret (slice (i * bs + off) n (concat nodes), cursor bs (length nodes) (i * bs + off + n)).
Proof.
  revert i off n npos ncap size.
  induction fuel as [|f IH]; intros i off n ? ? ? Hu Hi Hoff Hn Hf -> -> ->; [lia|].
  cbn [read_loop]. case_decide as Hz.
  { assert (n = 0) as -> by lia. rewrite Nat.add_0_r, cursor_split by done.
    by unfold slice. }
  case_decide as Hfit.
  - rewrite (load_uniform bs) by (done || lia).
    cbn [mbind outcome_bind]. rewrite (node_size_uniform bs) by done.
    cbn [mbind outcome_bind]. do 2 f_equal.
    case_decide as Hend.
    + rewrite (cursor_next bs) by done. f_equal. lia.
    + by rewrite <- Nat.add_assoc, cursor_split by lia.
  - replace (Z.of_nat bs - Z.of_nat off)%Z with (Z.of_nat (bs - off)) by lia.
    rewrite (load_uniform bs) by (done || lia).
    assert (S i < length nodes) as HSi by nia.
    cbn [mbind outcome_bind]. rewrite node_next_lt by done.
    rewrite (node_size_uniform bs) by done. cbn [mbind outcome_bind].
    rewrite (IH (S i) 0 (n - (bs - off))) by (done || lia || nia).
    cbn [mbind outcome_bind]. do 2 f_equal.
    + replace n with ((bs - off) + (n - (bs - off))) at 2 by lia.
      rewrite slice_app_split. do 2 f_equal. nia.
    + f_equal. nia.
Qed.

Lemma write_loop_spec fuel b i off buf npos ncap :
  uniform bs (m_nodes b) → i < length (m_nodes b) → off < bs →
  i * bs + off + length buf ≤ length (m_nodes b) * bs →
  length (m_nodes b) - i < fuel →
  (Z.of_nat (length (m_nodes b) * bs) < 2 ^ 64)%Z →
  m_position b = Z.of_nat (i * bs + off) → m_cur b = Some i →
  npos = Z.of_nat off → ncap = (Z.of_nat bs - Z.of_nat off)%Z →
  ∃ nodes', write_loop fuel npos ncap buf b
            = (Ret tt, at_pos bs nodes' (i * bs + off + length buf) b) ∧
    uniform bs nodes' ∧ length nodes' = length (m_nodes b) ∧
    concat nodes' = splice (i * bs + off) buf (concat (m_nodes b)).
Proof.
  revert b i off buf npos ncap.
  induction fuel as [|f IH];
    intros b i off buf ? ? Hu Hi Hoff Hn Hf H64 Hp Hc -> ->; [lia|].
  cbn [write_loop]. case_decide as Hz.
  { assert (buf = []) as -> by (destruct buf; simpl in *; [done|lia]).
    exists (m_nodes b). rewrite splice_nil. split_and!; try done.
    unfold at_pos. simpl. rewrite Nat.add_0_r, cursor_split by done.
    rewrite <- Hp, <- Hc. by destruct b. }
  rewrite Hc.
  case_decide as Hfit.
  - destruct (store_uniform bs Hbs (m_nodes b) i off buf) as (nodes' & -> & Hu' & Hl & Hcat);
      [done..|lia|].
    rewrite (node_size_uniform bs) by done.
    exists nodes'. split_and!; try done. rewrite <- Hl in *.
    assert (∀ b', write_loop f (Z.of_nat off) (Z.of_nat bs - Z.of_nat off) [] b' = (Ret tt, b'))
      as -> by (destruct f; [lia|done]).
    f_equal. unfold at_pos, set_position. cbn. f_equal.
    + rewrite Hp. rewrite wrapu_small by (unfold in_u; nia). lia.
    + case_decide as Hend.
      * rewrite (cursor_next bs) by lia. f_equal. lia.
      * by rewrite <- Nat.add_assoc, cursor_split by lia.
  - replace (Z.of_nat bs - Z.of_nat off)%Z with (Z.of_nat (bs - off)) by lia.
    rewrite Nat2Z.id.
    destruct (store_uniform bs Hbs (m_nodes b) i off (take (bs - off) buf))
      as (nodes1 & -> & Hu1 & Hl1 & Hcat1); [done..|rewrite length_take; lia|].
    assert (S i < length (m_nodes b)) as HSi by nia.
    cbn [m_nodes m_cur set_position set_cur set_nodes].
    rewrite node_next_lt by lia.
    rewrite (node_size_uniform bs) by (done || lia).
    edestruct (IH (set_position (u64 (m_position b + Z.of_nat (bs - off)))
                    (set_cur (Some (S i)) (set_nodes nodes1 b))) (S i) 0 (drop (bs - off) buf))
      as (nodes' & Heq & Hu' & Hl' & Hcat'); cycle -1.
    { exists nodes'. rewrite Heq. cbn in *. split_and!; [|done|lia|].
      - f_equal. unfold at_pos, set_position. cbn. rewrite length_drop.
        f_equal; [|f_equal]; nia.
      - rewrite Hcat', Hcat1.
        replace (bs + i * bs + 0) with (i * bs + off + length (take (bs - off) buf))
          by (rewrite length_take; lia).
        rewrite splice_splice_app by
          (rewrite (length_concat_uniform bs) by done; lia).
        by rewrite take_drop. }
    all: cbn; rewrite ?length_drop, ?Hl1; try done; try lia; try nia.
    + rewrite Hp, wrapu_small by (unfold in_u; nia). nia.
Qed.
End loops.

(* ------------------------------------------------------------------ *)
(** ** Representation invariant and abstract contents *)

(** No allocation reaches this size; it also keeps [ceil_div] exact. *)
Definition max_bytes : Z := 2 ^ 53.

Record wf (b : ByteArray) : Prop := {
  wf_base : 0 < m_baseSize b;
  wf_root : (0 < length (m_nodes b))%nat;
  wf_nodes : uniform (Z.to_nat (m_baseSize b)) (m_nodes b);
  wf_cap : m_capacity b = Z.of_nat (length (m_nodes b)) * m_baseSize b;
  wf_pos : 0 <= m_position b <= m_size b;
  wf_size : m_size b <= m_capacity b;
  wf_max : m_capacity b <= max_bytes;
  wf_cur : m_cur b = cursor (Z.to_nat (m_baseSize b)) (length (m_nodes b))
                       (Z.to_nat (m_position b))
}.

(** What a client sees: the bytes written so far and the position. *)
Definition contents (b : ByteArray) : bytes :=
  take (Z.to_nat (m_size b)) (concat (m_nodes b)).
Definition pos (b : ByteArray) : nat := Z.to_nat (m_position b).

Section facts.
Context (garbage : nat → nat → ascii).
Implicit Types b : ByteArray.

Lemma wf_flat_length b : wf b → Z.of_nat (length (concat (m_nodes b))) = m_capacity b.
Proof.
  intros W. rewrite (length_concat_uniform (Z.to_nat (m_baseSize b))) by (destruct W; done || lia).
  rewrite (wf_cap _ W), Nat2Z.inj_mul, Z2Nat.id by (pose proof (wf_base _ W); lia). done.
Qed.

Lemma length_contents b : wf b → Z.of_nat (length (contents b)) = m_size b.
Proof.
  intros W. unfold contents. rewrite length_take.
  pose proof (wf_flat_length _ W). destruct W. lia.
Qed.

Lemma pos_le_contents b : wf b → (pos b ≤ length (contents b))%nat.
Proof. intros W. pose proof (length_contents _ W). unfold pos. destruct W. lia. Qed.

Lemma wf_getReadSize b : wf b → getReadSize b = m_size b - m_position b.
Proof. intros []. apply wrapu_small. unfold in_u, max_bytes in *. lia. Qed.

Lemma wf_getCapacity b : wf b → getCapacity b = m_capacity b - m_position b.
Proof. intros []. apply wrapu_small. unfold in_u, max_bytes in *. lia. Qed.

(** The node and the offset the position is at, when it is not at the
    end of the chain. *)
Lemma wf_cursor b : wf b → m_position b < m_capacity b →
  ∃ i off, (i < length (m_nodes b))%nat ∧ (off < Z.to_nat (m_baseSize b))%nat ∧
    pos b = (i * Z.to_nat (m_baseSize b) + off)%nat ∧ m_cur b = Some i ∧
    offset_in b (m_position b) = Ret (Z.of_nat off).
Proof.
  intros W Hlt. destruct (W) as [? ? ? Hcap ? ? ? Hcur].
  destruct (cursor_lt (Z.to_nat (m_baseSize b)) ltac:(lia) (length (m_nodes b)) (pos b))
    as (i & off & ? & ? & Hp & Hc); [unfold pos; nia|].
  exists i, off. rewrite Hcur. split_and!; try done.
  unfold offset_in. rewrite decide_False by lia. f_equal. symmetry.
  apply (Z.mod_unique_pos _ _ (Z.of_nat i)); unfold pos in Hp; nia.
Qed.

(** At the end of the chain [m_cur] is [nullptr]. *)
Lemma wf_cursor_end b : wf b → m_position b = m_capacity b → m_cur b = None.
Proof.
  intros W He. destruct (W) as [? ? ? Hcap ? ? ? ->].
  replace (Z.to_nat (m_position b))
    with (length (m_nodes b) * Z.to_nat (m_baseSize b))%nat by nia.
  apply cursor_end. lia.
Qed.

Lemma link_nodes_spec count b :
  (m_capacity b + Z.of_nat count * m_baseSize b <= max_bytes) →
  0 <= m_baseSize b → 0 <= m_capacity b →
  ∃ fresh, uniform (Z.to_nat (m_baseSize b)) fresh ∧ length fresh = count ∧
    link_nodes garbage count b
    = mkByteArray (m_baseSize b) (m_position b)
        (m_capacity b + Z.of_nat count * m_baseSize b) (m_size b) (m_endian b)
        (m_nodes b ++ fresh) (m_cur b).
Proof.
  revert b. induction count as [|c IH]; intros b Hmax Hbs Hcap; cbn [link_nodes].
  - exists []. split_and!; [constructor|done|]. rewrite app_nil_r, Z.mul_0_l, Z.add_0_r.
    by destruct b.
  - set (nd := new_node garbage (length (m_nodes b)) (m_baseSize b)).
    edestruct IH as (fresh & Hu & Hl & ->); cycle -1.
    { exists (nd :: fresh). cbn in *. split_and!; [|lia|].
      - constructor; [|done]. unfold nd, new_node. by rewrite length_fmap, length_seq.
      - rewrite wrapu_small by (unfold in_u, max_bytes in *; lia).
        f_equal; [lia|by rewrite <- (assoc_L (++))]. }
    all: cbn; rewrite ?wrapu_small by (unfold in_u, max_bytes in *; lia); lia.
Qed.

Lemma ceil_div_bounds size base : 0 < base → 0 < size →
  size <= ceil_div size base * base < size + base.
Proof. intros. unfold ceil_div. pose proof (Z.div_mod (size + base - 1) base ltac:(lia)).
  pose proof (Z.mod_pos_bound (size + base - 1) base ltac:(lia)). nia. Qed.

Lemma addCapacity_spec size b :
  wf b → 0 <= size → m_position b + size + m_baseSize b <= max_bytes →
  ∃ b' fresh, addCapacity garbage size b = (Ret tt, b') ∧ wf b' ∧
    m_nodes b' = m_nodes b ++ fresh ∧ m_position b' = m_position b ∧
    m_size b' = m_size b ∧ m_endian b' = m_endian b ∧ m_baseSize b' = m_baseSize b ∧
    m_position b + size <= m_capacity b' ∧
    m_capacity b' <= Z.max (m_capacity b) (m_position b + size + m_baseSize b).
Proof.
  intros W Hsize Hmax. unfold addCapacity. rewrite (wf_getCapacity _ W).
  destruct (W) as [Hbs Hroot Hu Hcap Hpos Hsz Hmx Hcur].
  case_decide; [exists b, []; rewrite app_nil_r; split_and!; done || lia|].
  case_decide; [exists b, []; rewrite app_nil_r; split_and!; done || lia|].
  rewrite (decide_False (P := m_baseSize b = 0)) by lia.
  set (size' := size - (m_capacity b - m_position b)).
  pose proof (ceil_div_bounds size' (m_baseSize b)) as Hc.
  assert (0 < ceil_div size' (m_baseSize b)) as Hpc by nia.
  destruct (link_nodes_spec (Z.to_nat (ceil_div size' (m_baseSize b))) b)
    as (fresh & Hfu & Hfl & ->); [nia..|].
  rewrite (decide_False (P := Z.to_nat _ = 0%nat)) by lia.
  eexists _, fresh. split; [done|].
  case_decide as He; cbn; split_and!; try done; try nia; split; cbn; try done; try nia.
  all: rewrite ?length_app; try nia.
  1,3: by apply Forall_app.
  - unfold cursor.
    replace (Z.to_nat (m_position b) / Z.to_nat (m_baseSize b))%nat
      with (length (m_nodes b)); [rewrite decide_True by lia; done|].
    symmetry. replace (Z.to_nat (m_position b))
      with (length (m_nodes b) * Z.to_nat (m_baseSize b))%nat by nia.
    apply Nat.div_mul. lia.
  - destruct (wf_cursor b W) as (i & off & Hi & Hoff & Hp & -> & _); [lia|].
    fold (pos b). rewrite Hp, cursor_split by lia. done.
Qed.

Lemma take_splice_all {A} i (d l : list A) n :
  (i + length d ≤ n)%nat → (n ≤ length l)%nat →
  take n (splice i d l) = splice i d (take n l).
Proof.
  intros Hi Hn. rewrite <- (take_drop n l) at 1. rewrite splice_app_l.
  - rewrite take_app_le; [|rewrite length_splice; rewrite length_take; lia].
    apply take_ge. rewrite length_splice; rewrite length_take; lia.
  - rewrite length_take. lia.
Qed.

(** Writing past the end of the data extends it. *)
Lemma splice_extend {A} i (d l k : list A) :
  (i ≤ length l)%nat → (length l ≤ i + length d)%nat →
  take (i + length d) (splice i d (l ++ k)) = splice i d l.
Proof.
  intros Hi Hd. unfold splice. rewrite (drop_ge l) by lia.
  rewrite app_nil_r, (assoc_L (++)), take_app_le.
  - rewrite (take_app_le l) by lia. apply take_ge.
    rewrite length_app, length_take. lia.
  - rewrite length_app, length_take, length_app. lia.
Qed.

Lemma write_spec d b :
  wf b → m_position b + Z.of_nat (length d) + m_baseSize b <= max_bytes →
  ∃ b', write garbage d b = (Ret tt, b') ∧ wf b' ∧
    contents b' = splice (pos b) d (contents b) ∧ pos b' = (pos b + length d)%nat ∧
    m_endian b' = m_endian b ∧ m_baseSize b' = m_baseSize b ∧
    m_capacity b' <= Z.max (m_capacity b) (m_position b + Z.of_nat (length d) + m_baseSize b).
Proof.
  intros W Hmax. unfold write. case_decide as Hd.
  { exists b. destruct d; [|done]. rewrite splice_nil. simpl. split_and!; done || lia. }
  destruct (addCapacity_spec (Z.of_nat (length d)) b)
    as (b1 & fresh & E & W1 & Hn1 & Hp1 & Hs1 & He1 & Hb1 & Hc1 & Hm1); [done|lia..|].
  rewrite (stE_bind_ret _ _ _ _ _ E). clear E.
  destruct (wf_cursor b1 W1) as (i & off & Hi & Hoff & Hpp & Hcur & Hoffs); [lia|].
  rewrite (stE_bind_ret _ _ _ b1 b1) by done.
  rewrite Hoffs, Hcur, (node_size_uniform (Z.to_nat (m_baseSize b1))) by (destruct W1; done || lia).
  pose proof (wf_flat_length _ W1) as Hfl. pose proof (wf_flat_length _ W) as Hfl0.
  destruct (W1) as [Hbs Hroot Hu Hcap Hpos Hsz Hmx Hcu].
  assert (Z.of_nat (length (m_nodes b1) * Z.to_nat (m_baseSize b1)) = m_capacity b1) as Hcn.
  { rewrite Nat2Z.inj_mul, Z2Nat.id by lia. by rewrite Hcap. }
  edestruct (write_loop_spec (Z.to_nat (m_baseSize b1)) ltac:(lia) (chain_fuel b1) b1 i off d)
    as (nodes' & E & Hu' & Hl' & Hcat); try done; cycle -1.
  2-5: rewrite <- ?Hpp; unfold chain_fuel, max_bytes, pos in *; lia.
  rewrite (stE_bind_ret _ _ _ _ _ E). clear E. rewrite <- Hpp in *.
  assert (pos b1 = pos b) as Hpb by (unfold pos; congruence). rewrite Hpb in *.
  unfold modify. eexists. split; [done|].
  set (b2 := at_pos _ _ _ _).
  assert (wf (if decide (m_size b2 < m_position b2) then set_size (m_position b2) b2 else b2)
          ∧ contents (if decide (m_size b2 < m_position b2)
                      then set_size (m_position b2) b2 else b2)
            = splice (pos b) d (contents b)) as [HW HC].
  { assert (contents b = take (Z.to_nat (m_size b)) (concat (m_nodes b1))) as Hcb.
    { unfold contents. rewrite Hn1, concat_app, take_app_le; [done|].
      destruct W. lia. }
    case_decide as Hgrow; cbn in Hgrow; (split; [split; cbn; rewrite ?Hl', ?Nat2Z.id;
      try done; unfold pos in *; try lia|]).
    - unfold contents at 1. cbn. rewrite Hcat, Nat2Z.id, Hcb.
      rewrite <- (take_drop (Z.to_nat (m_size b)) (concat (m_nodes b1))) at 1.
      apply splice_extend; rewrite length_take; unfold pos in *; lia.
    - unfold contents at 1. cbn. rewrite Hcat, Hcb, Hs1.
      apply take_splice_all; unfold pos in *; lia. }
  split; [exact HW|split; [exact HC|]]. clear HW HC.
  case_decide; cbn; split_and!; unfold pos; cbn; unfold pos; lia || done.
Qed.

(** Moving the position inside the data keeps the buffer well formed. *)
Lemma wf_move b p : wf b → 0 <= p <= m_size b →
  wf (set_cur (cursor (Z.to_nat (m_baseSize b)) (length (m_nodes b)) (Z.to_nat p))
        (set_position p b)).
Proof. intros []. by split; cbn. Qed.

Lemma slice_contents b i n :
  wf b → (i + n ≤ length (contents b))%nat →
  slice i n (concat (m_nodes b)) = slice i n (contents b).
Proof.
  intros W Hin. pose proof (length_contents _ W) as Hl. unfold contents, slice in *.
  rewrite skipn_firstn_comm, take_take. f_equal. lia.
Qed.

Lemma read_spec n b :
  wf b → (0 < n)%nat → (pos b + n ≤ length (contents b))%nat →
  ∃ b', read (Z.of_nat n) b = (Ret (slice (pos b) n (contents b)), b') ∧ wf b' ∧
    contents b' = contents b ∧ pos b' = (pos b + n)%nat ∧
    m_endian b' = m_endian b ∧ m_baseSize b' = m_baseSize b ∧ m_capacity b' = m_capacity b.
Proof.
  intros W Hn Hin. pose proof (length_contents _ W) as Hl.
  pose proof (wf_flat_length _ W) as Hfl.
  unfold read. rewrite (wf_getReadSize _ W).
  rewrite decide_False by (unfold pos in *; destruct W; lia).
  destruct (wf_cursor b W) as (i & off & Hi & Hoff & Hp & Hcur & ->);
    [unfold pos in *; destruct W; lia|].
  rewrite Hcur. destruct (W) as [Hbs Hroot Hu Hcap Hpos Hsz Hmx Hcu].
  rewrite (node_size_uniform (Z.to_nat (m_baseSize b))) by done.
  rewrite (length_concat_uniform (Z.to_nat (m_baseSize b))) in Hfl by (done || lia).
  rewrite (read_loop_spec (Z.to_nat (m_baseSize b)) ltac:(lia) _ _ i off n)
    by (done || (rewrite <- ?Hp; unfold chain_fuel, pos in *; lia)).
  rewrite <- Hp. rewrite slice_contents by done.
  rewrite wrapu_small by (unfold in_u, max_bytes, pos in *; lia).
  replace (pos b + n)%nat with (Z.to_nat (m_position b + Z.of_nat n)) by (unfold pos; lia).
  eexists. split; [done|]. split; [apply wf_move; [done|unfold pos in *; lia]|].
  split_and!; cbn; done || (unfold pos; cbn; lia).
Qed.

Lemma read_short n b :
  wf b → Z.of_nat (length (contents b)) - m_position b < n → read n b = (Throw out_of_range, b).
Proof.
  intros W Hn. unfold read. rewrite (wf_getReadSize _ W), <- (length_contents _ W).
  by rewrite decide_True by lia.
Qed.

(** Reading nothing succeeds unless the position is at the end of the
    chain, where [m_cur] is [nullptr] and is dereferenced all the same. *)
Lemma read_zero b : wf b →
  read 0 b = if decide (m_position b = m_capacity b) then (Crash null_deref, b) else (Ret [], b).
Proof.
  intros W. unfold read. rewrite (wf_getReadSize _ W).
  destruct (W) as [Hbs Hroot Hu Hcap Hpos Hsz Hmx Hcu].
  rewrite decide_False by lia. case_decide as He.
  - rewrite (wf_cursor_end _ W He). cbn. unfold offset_in. by rewrite decide_False by lia.
  - destruct (wf_cursor b W) as (i & off & Hi & Hoff & Hp & Hcur & ->); [lia|].
    rewrite Hcur, (node_size_uniform (Z.to_nat (m_baseSize b))) by done.
    unfold chain_fuel. cbn [read_loop]. rewrite (decide_True (P := 0 <= 0)) by lia.
    rewrite (Z.add_0_r (m_position b)), wrapu_small by (unfold in_u, max_bytes in *; lia).
    rewrite <- Hcur. by destruct b.
Qed.

(** The walk of [setPosition] stops in the node that holds [v], or at
    the end of the node before it. *)
Lemma seek_loop_spec bs fuel nodes i v :
  (0 < bs)%nat → uniform bs nodes → (i < length nodes)%nat → (i * bs + v ≤ length nodes * bs)%nat →
  (length nodes - i < fuel)%nat →
  ∃ j w, seek_loop fuel nodes (Some i) (Z.of_nat v) = Ret (Some j, Z.of_nat w) ∧
    (j < length nodes)%nat ∧ (w ≤ bs)%nat ∧ (j * bs + w = i * bs + v)%nat.
Proof.
  intros Hbs Hu. revert i v. induction fuel as [|f IH]; intros i v Hi Hv Hf; [lia|].
  cbn [seek_loop]. rewrite (node_size_uniform bs) by done. cbn [mbind outcome_bind].
  case_decide as Hlt.
  - rewrite node_next_lt by nia.
    replace (Z.of_nat v - Z.of_nat bs) with (Z.of_nat (v - bs)) by lia.
    destruct (IH (S i) (v - bs)%nat) as (j & w & -> & ? & ? & ?); [nia..|].
    exists j, w. split_and!; done || nia.
  - exists i, v. split_and!; done || lia.
Qed.

Lemma setPosition_spec v b :
  wf b → 0 <= v <= m_capacity b →
  ∃ b' junk, setPosition v b = (Ret tt, b') ∧ wf b' ∧
    contents b' = contents b ++ junk ∧ (v <= m_size b → junk = []) ∧
    length junk = (Z.to_nat v - length (contents b))%nat ∧ m_position b' = v ∧
    m_endian b' = m_endian b ∧ m_baseSize b' = m_baseSize b ∧ m_capacity b' = m_capacity b.
Proof.
  intros W Hv. pose proof (length_contents _ W) as Hl. pose proof (wf_flat_length _ W) as Hfl.
  unfold setPosition. rewrite decide_False by lia.
  destruct (W) as [Hbs Hroot Hu Hcap Hpos Hsz Hmx Hcu].
  destruct (seek_loop_spec (Z.to_nat (m_baseSize b)) (chain_fuel b) (m_nodes b) 0 (Z.to_nat v))
    as (j & w & E & Hj & Hw & Hjw); [lia|done|done|nia|unfold chain_fuel; lia|].
  rewrite Z2Nat.id in E by lia. rewrite E. clear E.
  rewrite (node_size_uniform (Z.to_nat (m_baseSize b))) by done.
  assert ((if decide (Z.of_nat w = Z.of_nat (Z.to_nat (m_baseSize b)))
           then node_next (m_nodes b) j else Some j)
          = cursor (Z.to_nat (m_baseSize b)) (length (m_nodes b)) (Z.to_nat v)) as ->.
  { replace (Z.to_nat v) with (j * Z.to_nat (m_baseSize b) + w)%nat by lia. case_decide.
    - rewrite (cursor_next (Z.to_nat (m_baseSize b))) by lia. f_equal. lia.
    - by rewrite cursor_split by lia. }
  eexists _, (drop (length (contents b)) (take (Z.to_nat v) (concat (m_nodes b)))).
  split; [done|].
  rewrite length_drop, length_take.
  case_decide as Hgrow; cbn in Hgrow; cbn; split_and!; try done; try lia.
  - split; cbn; done || lia.
  - unfold contents at 1 2. cbn.
    rewrite <- (take_drop (length (contents b)) (take (Z.to_nat v) (concat (m_nodes b)))) at 1.
    f_equal. rewrite take_take. f_equal. lia.
  - apply wf_move; [done|lia].
  - unfold contents at 1. cbn. rewrite drop_ge; [by rewrite app_nil_r|].
    rewrite length_take. lia.
  - intros _. apply drop_ge. rewrite length_take. lia.
Qed.

Lemma clear_spec b : wf b →
  wf (clear b) ∧ contents (clear b) = [] ∧ pos (clear b) = 0%nat ∧
  m_endian (clear b) = m_endian b.
Proof.
  intros W. destruct (W) as [Hbs Hroot Hu Hcap Hpos Hsz Hmx Hcu].
  split; [|split_and!; try done; unfold contents; cbn; by rewrite take_0].
  assert (length (take 1 (m_nodes b)) = 1%nat) as Hl by (rewrite length_take; lia).
  split; cbn; rewrite ?Hl; try lia; [by apply Forall_take|nia|].
  unfold cursor. rewrite Nat.Div0.div_0_l. done.
Qed.

Lemma new_wf base : 0 < base <= max_bytes → wf (new_ByteArray garbage base).
Proof.
  intros Hb. split; cbn; try lia.
  - repeat constructor. unfold new_node. by rewrite length_fmap, length_seq.
  - unfold cursor. rewrite Nat.Div0.div_0_l. done.
Qed.
End facts.

(* ------------------------------------------------------------------ *)
(** ** Scatter and gather *)

(** What [writev] takes from a list of segments, and what [readv] does
    with [d] : it fills the segments in order and stops when the bytes
    run out. *)
Definition gather (nodes : list Node) (iovs : list iovec) : outcome bytes :=
  foldr (λ v acc, d ← load nodes (Some (iov_node v)) (iov_off v) (iov_len v);
                  rest ← acc; Ret (d ++ rest)) (Ret []) iovs.

Fixpoint scatter (iovs : list iovec) (d : bytes) (nodes : list Node) : outcome (list Node) :=
  match iovs with
  | [] => Ret nodes
  | v :: iovs' =>
      nodes' ← store nodes (Some (iov_node v)) (iov_off v) (take (Z.to_nat (iov_len v)) d);
      scatter iovs' (drop (Z.to_nat (iov_len v)) d) nodes'
  end.

Section views.
Context (bs : nat) (Hbs : (0 < bs)%nat).
Local Open Scope nat_scope.

(** The segments of [n] bytes from block [i], offset [off]: they exist,
    lie inside their blocks, read as one slice and are filled as one
    slice. *)
Lemma iov_loop_spec fuel nodes i off n npos ncap len :
  uniform bs nodes → i < length nodes → off < bs →
  i * bs + off + n ≤ length nodes * bs → length nodes - i < fuel →
  npos = Z.of_nat off → ncap = (Z.of_nat bs - Z.of_nat off)%Z → len = Z.of_nat n →
  ∃ iovs, iov_loop fuel nodes (Some i) npos ncap len = Ret iovs ∧
    gather nodes iovs = Ret (slice (i * bs + off) n (concat nodes)) ∧
    ∀ nodes1 d, uniform bs nodes1 → length nodes1 = length nodes → length d ≤ n →
      ∃ nodes', scatter iovs d nodes1 = Ret nodes' ∧ uniform bs nodes' ∧
        length nodes' = length nodes ∧
        concat nodes' = splice (i * bs + off) d (concat nodes1).
Proof.
  revert i off n npos ncap len.
  induction fuel as [|f IH]; intros i off n ? ? ? Hu Hi Hoff Hn Hf -> -> ->; [lia|].
  cbn [iov_loop]. case_decide as Hz.
  { exists []. assert (n = 0) as -> by lia. split_and!; [done|done|].
    intros nodes1 [|? ?] Hu1 Hl1 Hd; [|simpl in Hd; lia].
    exists nodes1. by rewrite splice_nil. }
  case_decide as Hfit.
  - exists [mk_iovec i (Z.of_nat off) (Z.of_nat n)]. split; [done|]. cbn. split.
    + rewrite (load_uniform bs) by (done || lia). cbn. by rewrite app_nil_r.
    + intros nodes1 d Hu1 Hl1 Hd. rewrite Nat2Z.id, take_ge by lia.
      destruct (store_uniform bs Hbs nodes1 i off d) as (nodes' & -> & ? & ? & ?);
        [done|lia..|]. exists nodes'. cbn. split_and!; done || lia.
  - replace (Z.of_nat bs - Z.of_nat off)%Z with (Z.of_nat (bs - off)) by lia.
    assert (S i < length nodes) as HSi by nia.
    rewrite node_next_lt by done. rewrite (node_size_uniform bs) by done.
    destruct (IH (S i) 0 (n - (bs - off)) 0%Z (Z.of_nat bs) (Z.of_nat n - Z.of_nat (bs - off))%Z)
      as (iovs & E & Hg & Hsc); [done|done|lia|nia|lia|lia|lia|lia|].
    cbn [mbind outcome_bind]. rewrite E. eexists. split; [done|]. split.
    + cbn. fold (gather nodes iovs). rewrite (load_uniform bs) by (done || lia). rewrite Hg.
      cbn [mbind outcome_bind].
      replace n with ((bs - off) + (n - (bs - off))) at 2 by lia.
      rewrite slice_app_split. do 3 f_equal. nia.
    + intros nodes1 d Hu1 Hl1 Hd. cbn [scatter iov_node iov_off iov_len]. rewrite Nat2Z.id.
      destruct (store_uniform bs Hbs nodes1 i off (take (bs - off) d))
        as (nodes2 & -> & Hu2 & Hl2 & Hc2); [done|lia|rewrite length_take; lia|].
      cbn [mbind outcome_bind].
      destruct (Hsc nodes2 (drop (bs - off) d)) as (nodes' & -> & ? & ? & Hc');
        [done|lia|rewrite length_drop; lia|].
      exists nodes'. split_and!; try done. rewrite Hc', Hc2.
      destruct (decide (length d ≤ bs - off)).
      * rewrite drop_ge, splice_nil, take_ge by lia. done.
      * replace (S i * bs + 0) with (i * bs + off + length (take (bs - off) d))
          by (rewrite length_take; lia).
        rewrite splice_splice_app by (rewrite (length_concat_uniform bs) by done; nia).
        by rewrite take_drop.
Qed.
End views.

Section view_facts.
Context (garbage : nat → nat → ascii).
Implicit Types b : ByteArray.

Lemma iov_loop_wf b n : wf b → (0 < n)%nat → m_position b + Z.of_nat n <= m_capacity b →
  ∃ off nsize iovs, offset_in b (m_position b) = Ret off ∧
    node_size (m_nodes b) (m_cur b) = Ret nsize ∧
    iov_loop (chain_fuel b) (m_nodes b) (m_cur b) off (nsize - off) (Z.of_nat n) = Ret iovs ∧
    gather (m_nodes b) iovs = Ret (slice (pos b) n (concat (m_nodes b))) ∧
    ∀ d, (length d ≤ n)%nat →
      ∃ nodes', scatter iovs d (m_nodes b) = Ret nodes' ∧
        uniform (Z.to_nat (m_baseSize b)) nodes' ∧ length nodes' = length (m_nodes b) ∧
        concat nodes' = splice (pos b) d (concat (m_nodes b)).
Proof.
  intros W Hn Hc. destruct (wf_cursor b W) as (i & off & Hi & Hoff & Hp & Hcur & Hoffs); [lia|].
  destruct (W) as [Hbs Hroot Hu Hcap Hpos Hsz Hmx Hcu].
  assert (Z.of_nat (length (m_nodes b) * Z.to_nat (m_baseSize b)) = m_capacity b) as Hcn
    by (rewrite Nat2Z.inj_mul, Z2Nat.id by lia; by rewrite Hcap).
  destruct (iov_loop_spec (Z.to_nat (m_baseSize b)) ltac:(lia) (chain_fuel b) (m_nodes b)
              i off n (Z.of_nat off) (m_baseSize b - Z.of_nat off) (Z.of_nat n))
    as (iovs & E & Hg & Hs); try done;
    try (rewrite <- ?Hp; unfold chain_fuel, pos in *; lia).
  rewrite <- Hp in *. exists (Z.of_nat off), (m_baseSize b), iovs.
  rewrite Hcur, (node_size_uniform (Z.to_nat (m_baseSize b))) by done.
  split_and!; try done; [by rewrite Z2Nat.id by lia|].
  intros d Hd. by apply Hs.
Qed.

(** [getReadBuffers] names exactly the next [len] readable bytes. *)
Lemma getReadBuffers_spec len b : wf b → 0 <= len →
  let n := Z.min len (m_size b - m_position b) in
  ∃ iovs, getReadBuffers len b = Ret (n, iovs) ∧
    gather (m_nodes b) iovs = Ret (slice (pos b) (Z.to_nat n) (contents b)).
Proof.
  intros W Hlen n. unfold getReadBuffers. rewrite (wf_getReadSize _ W).
  pose proof (length_contents _ W). pose proof (wf_pos _ W). pose proof (wf_size _ W).
  replace (if decide (m_size b - m_position b < len) then m_size b - m_position b else len)
    with n by (unfold n; case_decide; lia).
  case_decide as Hz.
  - rewrite Hz. exists []. done.
  - destruct (iov_loop_wf b (Z.to_nat n)) as (off & nsize & iovs & -> & -> & E & Hg & _);
      [done|lia|lia|].
    rewrite Z2Nat.id in E by lia. cbn [mbind outcome_bind]. rewrite E.
    exists iovs. split; [done|]. rewrite Hg. f_equal.
    apply slice_contents; [done|]. unfold pos. lia.
Qed.

(** The segments add up to what was asked for. *)
Lemma iov_loop_sum fuel nodes cur npos ncap len iovs : 0 <= len →
  iov_loop fuel nodes cur npos ncap len = Ret iovs → foldr Z.add 0 (iov_len <$> iovs) = len.
Proof.
  revert cur npos ncap len iovs. induction fuel as [|f IH]; intros cur npos ncap len iovs Hlen; [done|].
  cbn [iov_loop]. case_decide; [intros [= <-]; cbn; lia|]. destruct cur as [i|]; [|done].
  case_decide; [intros [= <-]; cbn; lia|]. destruct (node_size _ _) as [nsize|e|c]; [|done..].
  cbn [mbind outcome_bind]. destruct (iov_loop f _ _ _ _ _) as [rest|e|c] eqn:E; [|done..].
  intros [= <-]. cbn. pose proof (λ H, IH _ _ _ _ _ H E) as HI. rewrite HI by lia. lia.
Qed.
Lemma getReadBuffers_sum len b n iovs : 0 <= len → 0 <= getReadSize b → getReadBuffers len b = Ret (n, iovs) →
  foldr Z.add 0 (iov_len <$> iovs) = n.
Proof.
  intros Hlen Hr. unfold getReadBuffers. cbv zeta. set (l := if decide (getReadSize b < len) then _ else len).
  assert (0 <= l) by (unfold l; case_decide; lia).
  case_decide; [by intros [= <- <-]|]. destruct (offset_in _ _); [|done..]. cbn [mbind outcome_bind].
  destruct (node_size _ _); [|done..]. cbn [mbind outcome_bind]. destruct (iov_loop _ _ _ _ _ _) eqn:E; [|done..].
  intros [= <- <-]. by eapply iov_loop_sum.
Qed.
Lemma getWriteBuffers_sum len b n iovs b1 : 0 <= len → getWriteBuffers garbage len b = (Ret (n, iovs), b1) →
  n = len ∧ foldr Z.add 0 (iov_len <$> iovs) = len.
Proof.
  intros Hlen. unfold getWriteBuffers. case_decide; [by intros [= <- <- <-]|].
  intros H0. apply stE_bind_inv in H0 as ([] & s1 & _ & H0). apply (f_equal fst) in H0. cbn [query fst] in H0.
  destruct (offset_in _ _); [|done..]. cbn [mbind outcome_bind] in H0.
  destruct (node_size _ _); [|done..]. cbn [mbind outcome_bind] in H0. destruct (iov_loop _ _ _ _ _ _) eqn:E; [|done..].
  injection H0 as <- <-. split; [done|]. by eapply iov_loop_sum.
Qed.

(** Filling the segments of [getWriteBuffers] and moving the position
    past the bytes received is a write of those bytes. *)
Lemma getWriteBuffers_fill len b :
  wf b → 0 < len → m_position b + len + m_baseSize b <= max_bytes →
  ∃ b1 iovs, getWriteBuffers garbage len b = (Ret (len, iovs), b1) ∧ wf b1 ∧
    m_position b1 = m_position b ∧ contents b1 = contents b ∧ m_baseSize b1 = m_baseSize b ∧
    ∀ d, Z.of_nat (length d) <= len →
      ∃ nodes', scatter iovs d (m_nodes b1) = Ret nodes' ∧
        wf (set_nodes nodes' b1) ∧
        concat nodes' = splice (pos b) d (concat (m_nodes b1)) ∧
        m_position b + Z.of_nat (length d) <= m_capacity b1.
Proof.
  intros W Hlen Hmax. unfold getWriteBuffers. rewrite decide_False by lia.
  destruct (addCapacity_spec garbage len b)
    as (b1 & fresh & E & W1 & Hn1 & Hp1 & Hs1 & He1 & Hb1 & Hc1 & Hm1); [done|lia|lia|].
  rewrite (stE_bind_ret _ _ _ _ _ E). unfold query.
  destruct (iov_loop_wf b1 (Z.to_nat len)) as (off & nsize & iovs & -> & -> & Ei & _ & Hsc);
    [done|lia|lia|].
  rewrite Z2Nat.id in Ei by lia. cbn [mbind outcome_bind]. rewrite Ei.
  exists b1, iovs. split_and!; try done.
  - pose proof (wf_flat_length _ W). unfold contents.
    rewrite Hn1, Hs1, concat_app, take_app_le; [done|]. destruct W. lia.
  - intros d Hd. destruct (Hsc d ltac:(lia)) as (nodes' & ? & Hu & Hl & Hc).
    exists nodes'. unfold pos in *. rewrite Hp1 in Hc. split_and!; try done; [|lia].
    destruct W1. split; cbn; rewrite ?Hl; done.
Qed.
End view_facts.

(* ------------------------------------------------------------------ *)
(** ** The buffer is a byte stream *)

#[global] Instance ByteArray_stream (garbage : nat → nat → ascii) : ByteStream ByteArray := {|
  bs_write := write garbage;
  bs_read := read;
  bs_endian := m_endian
|}.

(** The buffer takes [n] more bytes. *)
Definition room (n : nat) (b : ByteArray) : Prop :=
  wf b ∧ m_size b + Z.of_nat n + m_baseSize b <= max_bytes.

Lemma room_write (garbage : nat → nat → ascii) d n b : room (n + length d) b →
  ∃ b', write garbage d b = (Ret tt, b') ∧ room n b' ∧
    contents b' = splice (pos b) d (contents b) ∧
    pos b' = (pos b + length d)%nat ∧ m_endian b' = m_endian b.
Proof.
  intros [W Hr].
  destruct (write_spec garbage d b) as (b' & ? & W' & Hc & Hp & ? & ? & ?);
    [done|destruct W; lia|].
  exists b'. split_and!; try done. split; [done|].
  pose proof (length_contents _ W). pose proof (length_contents _ W') as Hl.
  rewrite Hc in Hl. unfold splice in Hl.
  rewrite !length_app, length_take, length_drop in Hl.
  unfold pos in *. destruct W, W'. lia.
Qed.

#[global] Program Instance ByteArray_laws (garbage : nat → nat → ascii) :
    @ByteStreamLaws ByteArray (ByteArray_stream garbage) := {|
  bs_data := contents;
  bs_pos := pos;
  bs_room := room
|}.
Next Obligation. intros g n b [W _]. by apply pos_le_contents. Qed.
Next Obligation. intros g d n b Hr. by apply room_write. Qed.
Next Obligation.
  intros g k n b [W Hr] Hk Hin.
  destruct (read_spec k b W Hk Hin) as (b' & ? & W' & Hc & ? & ? & ? & ?).
  exists b'. split_and!; try done. split; [done|].
  pose proof (length_contents _ W). pose proof (length_contents _ W') as Hl.
  rewrite Hc in Hl. lia.
Qed.
Next Obligation.
  intros g k n b [W Hr] Hk. apply read_short; [done|].
  unfold pos in Hk. destruct W. lia.
Qed.
