(* ===== verification/ByteArrayCodec.v ===== *)
(** * Typed reads and writes of the buffer ([sylar/bytearray.cc])

    Fixed-width integers in the buffer's byte order, variable-length
    integers (groups of seven bits, zigzag for the signed ones), floats
    and length-prefixed strings, over any [ByteStream].  [host] is the
    byte order of the machine.

    A [float] or [double] is the bit pattern [memcpy] moves. *)
From S2P Require Import Prelude Endian ByteStream.
Local Open Scope Z_scope.

(* sylar/bytearray.cc:113-119, EncodeZigzag32 *)
Definition EncodeZigzag32 (v : Z) : outcome Z :=
  if decide (v < 0) then n ← checked_s 32 (- v); Ret (u32 (u32 n * 2 - 1))
  else n ← checked_s 32 (v * 2); Ret (u32 n).

(* sylar/bytearray.cc:121-127, EncodeZigzag64 *)
Definition EncodeZigzag64 (v : Z) : outcome Z :=
  if decide (v < 0) then n ← checked_s 64 (- v); Ret (u64 (u64 n * 2 - 1))
  else n ← checked_s 64 (v * 2); Ret (u64 n).

(* sylar/bytearray.cc:129-131, DecodeZigzag32 *)
Definition DecodeZigzag32 (v : Z) : Z :=
  i32 (Z.lxor (Z.shiftr v 1) (u32 (- Z.land v 1))).

(* sylar/bytearray.cc:133-135, DecodeZigzag64 *)
Definition DecodeZigzag64 (v : Z) : Z :=
  i64 (Z.lxor (Z.shiftr v 1) (u64 (- Z.land v 1))).

(** The loop that fills [tmp]; [room] is what is left of the array. *)
Fixpoint varint_tmp (room : nat) (value : Z) : outcome bytes :=
  match room with
  | O => Crash out_of_bounds
  | S r =>
      if decide (0x80 <= value) then
        rest ← varint_tmp r (Z.shiftr value 7);
        Ret (char_of (Z.lor (Z.land value 0x7F) 0x80) :: rest)
      else Ret [char_of value]
  end.

Section codec.
Context {S : Type} `{BS : ByteStream S} (host : endian).

(** [m_endian != SYLAR_BYTE_ORDER ? byteswap(value) : value] *)
Definition swap_order (e : endian) (n : nat) (value : Z) : Z :=
  if decide (e = SYLAR_BYTE_ORDER host) then value else byteswap n value.

(** The body shared by the fixed-width writers: swap, then
    [write(&value, n)]. *)
Definition write_fixed (n : nat) (value : Z) : stE S unit :=
  s ← get; bs_write (mem_of host n (swap_order (bs_endian s) n value)).

(* sylar/bytearray.cc:64-66, ByteArray::writeFint8 *)
Definition writeFint8 (value : Z) : stE S unit := bs_write (mem_of host 1 value).
(* sylar/bytearray.cc:68-70, ByteArray::writeFuint8 *)
Definition writeFuint8 (value : Z) : stE S unit := bs_write (mem_of host 1 value).
(* sylar/bytearray.cc:71-76, ByteArray::writeFint16 *)
Definition writeFint16 (value : Z) : stE S unit := write_fixed 2 value.
(* sylar/bytearray.cc:78-83, ByteArray::writeFuint16 *)
Definition writeFuint16 (value : Z) : stE S unit := write_fixed 2 value.
(* sylar/bytearray.cc:85-90, ByteArray::writeFint32 *)
Definition writeFint32 (value : Z) : stE S unit := write_fixed 4 value.
(* sylar/bytearray.cc:92-97, ByteArray::writeFuint32 *)
Definition writeFuint32 (value : Z) : stE S unit := write_fixed 4 value.
(* sylar/bytearray.cc:99-104, ByteArray::writeFint64 *)
Definition writeFint64 (value : Z) : stE S unit := write_fixed 8 value.
(* sylar/bytearray.cc:106-111, ByteArray::writeFuint64 *)
Definition writeFuint64 (value : Z) : stE S unit := write_fixed 8 value.

Definition write_tmp (tmp : outcome bytes) : stE S unit :=
  match tmp with
  | Ret d => bs_write d
  | Throw e => throw e
  | Crash c => crash c
  end.

(* sylar/bytearray.cc:142-151, ByteArray::writeUint32 *)
Definition writeUint32 (value : Z) : stE S unit := write_tmp (varint_tmp 5 value).
(* sylar/bytearray.cc:157-166, ByteArray::writeUint64 *)
Definition writeUint64 (value : Z) : stE S unit := write_tmp (varint_tmp 10 value).
(* sylar/bytearray.cc:138-140, ByteArray::writeInt32 *)
Definition writeInt32 (value : Z) : stE S unit := 
  write_tmp (v ← EncodeZigzag32 value; varint_tmp 5 v).
(* sylar/bytearray.cc:153-155, ByteArray::writeInt64 *)
Definition writeInt64 (value : Z) : stE S unit := 
  write_tmp (v ← EncodeZigzag64 value; varint_tmp 10 v).

(* sylar/bytearray.cc:168-172, ByteArray::writeFloat *)
Definition writeFloat (v : Z) : stE S unit := writeFuint32 v.
(* sylar/bytearray.cc:174-178, ByteArray::writeDouble *)
Definition writeDouble (v : Z) : stE S unit := writeFuint64 v.

Definition len (value : bytes) : Z := Z.of_nat (length value).

(* sylar/bytearray.cc:180-183, ByteArray::writeStringF16 *)
Definition writeStringF16 (value : bytes) : stE S unit :=
  _ ← writeFuint16 (u16 (len value)); bs_write value.
(* sylar/bytearray.cc:185-188, ByteArray::writeStringF32 *)
Definition writeStringF32 (value : bytes) : stE S unit :=
  _ ← writeFuint32 (u32 (len value)); bs_write value.
(* sylar/bytearray.cc:190-193, ByteArray::writeStringF64 *)
Definition writeStringF64 (value : bytes) : stE S unit :=
  _ ← writeFuint64 (u64 (len value)); bs_write value.
(* sylar/bytearray.cc:195-198, ByteArray::writeStringVint *)
Definition writeStringVint (value : bytes) : stE S unit :=
  _ ← writeUint64 (u64 (len value)); bs_write value.
(* sylar/bytearray.cc:200-202, ByteArray::writeStringWithoutLength *)
Definition writeStringWithoutLength (value : bytes) : stE S unit := bs_write value.

(** [type v; read(&v, sizeof(v))], and the swap of macro [XX]; the
    integer is returned as the unsigned value of its bits. *)
Definition read_fixed (n : nat) : stE S Z :=
  s ← get;
  d ← bs_read (Z.of_nat n);
  mret (swap_order (bs_endian s) n (of_mem host d)).

(* sylar/bytearray.cc:204-208, ByteArray::readFint8 *)
Definition readFint8 : stE S Z := d ← bs_read 1; mret (wraps 8 (of_mem host d)).
(* sylar/bytearray.cc:210-214, ByteArray::readFuint8 *)
Definition readFuint8 : stE S Z := d ← bs_read 1; mret (of_mem host d).
(* sylar/bytearray.cc:216-227, ByteArray::readFint16 *)
Definition readFint16 : stE S Z := v ← read_fixed 2; mret (wraps 16 v).
(* sylar/bytearray.cc:228-230, ByteArray::readFuint16 *)
Definition readFuint16 : stE S Z := read_fixed 2.
(* sylar/bytearray.cc:232-234, ByteArray::readFint32 *)
Definition readFint32 : stE S Z := v ← read_fixed 4; mret (wraps 32 v).
(* sylar/bytearray.cc:236-238, ByteArray::readFuint32 *)
Definition readFuint32 : stE S Z := read_fixed 4.
(* sylar/bytearray.cc:240-242, ByteArray::readFint64 *)
Definition readFint64 : stE S Z := v ← read_fixed 8; mret (wraps 64 v).
(* sylar/bytearray.cc:244-246, ByteArray::readFuint64 *)
Definition readFuint64 : stE S Z := read_fixed 8.

(** [for(int i = 0; i < w; i += 7)] of [readUint32] and [readUint64],
    [w] the width of [result]. *)
Fixpoint varint_loop (fuel : nat) (w i result : Z) : stE S Z :=
  match fuel with
  | O => crash no_fuel
  | Datatypes.S f =>
      if decide (i < w) then
        b ← readFuint8;
        if decide (b < 0x80) then mret (Z.lor result (wrapu w (Z.shiftl b i)))
        else varint_loop f w (i + 7) (Z.lor result (wrapu w (Z.shiftl (Z.land b 0x7f) i)))
      else mret result
  end.

(* sylar/bytearray.cc:254-266, ByteArray::readUint32 *)
Definition readUint32 : stE S Z := varint_loop 32 32 0 0.
(* sylar/bytearray.cc:272-284, ByteArray::readUint64 *)
Definition readUint64 : stE S Z := varint_loop 64 64 0 0.
(* sylar/bytearray.cc:250-252, ByteArray::readInt32 *)
Definition readInt32 : stE S Z := v ← readUint32; mret (DecodeZigzag32 v).
(* sylar/bytearray.cc:268-270, ByteArray::readInt64 *)
Definition readInt64 : stE S Z := v ← readUint64; mret (DecodeZigzag64 v).

(* sylar/bytearray.cc:286-291, ByteArray::readFloat *)
Definition readFloat : stE S Z := readFuint32.
(* sylar/bytearray.cc:293-298, ByteArray::readDouble *)
Definition readDouble : stE S Z := readFuint64.

(** [buff.resize(n)] then [read(&buff[0], n)]; [resize] refuses a
    length above [std::string::max_size()]. *)
Definition read_chars (n : Z) : stE S bytes :=
  if decide (2 ^ 63 - 1 < n) then throw length_error else bs_read n.

(* sylar/bytearray.cc:300-306, ByteArray::readStringF16 *)
Definition readStringF16 : stE S bytes := n ← readFuint16; read_chars n.
(* sylar/bytearray.cc:308-314, ByteArray::readStringF32 *)
Definition readStringF32 : stE S bytes := n ← readFuint32; read_chars n.
(* sylar/bytearray.cc:316-322, ByteArray::readStringF64 *)
Definition readStringF64 : stE S bytes := n ← readFuint64; read_chars n.
(* sylar/bytearray.cc:324-330, ByteArray::readStringVint *)
Definition readStringVint : stE S bytes := n ← readUint64; read_chars n.
End codec.

(* ------------------------------------------------------------------ *)
(** ** Messages: sequences of typed values *)

Inductive field :=
  | Fint8 (v : Z) | Fuint8 (v : Z) | Fint16 (v : Z) | Fuint16 (v : Z)
  | Fint32 (v : Z) | Fuint32 (v : Z) | Fint64 (v : Z) | Fuint64 (v : Z)
  | Int32 (v : Z) | Uint32 (v : Z) | Int64 (v : Z) | Uint64 (v : Z)
  | Float (v : Z) | Double (v : Z)
  | StringF16 (v : bytes) | StringF32 (v : bytes) | StringF64 (v : bytes)
  | StringVint (v : bytes).

Inductive kind :=
  | kFint8 | kFuint8 | kFint16 | kFuint16 | kFint32 | kFuint32 | kFint64 | kFuint64
  | kInt32 | kUint32 | kInt64 | kUint64 | kFloat | kDouble
  | kStringF16 | kStringF32 | kStringF64 | kStringVint.

Definition kind_of (f : field) : kind :=
  match f with
  | Fint8 _ => kFint8 | Fuint8 _ => kFuint8 | Fint16 _ => kFint16 | Fuint16 _ => kFuint16
  | Fint32 _ => kFint32 | Fuint32 _ => kFuint32 | Fint64 _ => kFint64 | Fuint64 _ => kFuint64
  | Int32 _ => kInt32 | Uint32 _ => kUint32 | Int64 _ => kInt64 | Uint64 _ => kUint64
  | Float _ => kFloat | Double _ => kDouble
  | StringF16 _ => kStringF16 | StringF32 _ => kStringF32 | StringF64 _ => kStringF64
  | StringVint _ => kStringVint
  end.

(** The signed values of [w] bits whose zigzag code is computed without
    overflow: [-v] and [v * 2] are computed in the signed type. *)
Definition zigzag_ok (w v : Z) : Prop := - 2 ^ (w - 1) < v < 2 ^ (w - 2).

#[global] Instance zigzag_ok_dec w v : Decision (zigzag_ok w v).
Proof. unfold zigzag_ok. apply _. Defined.

(** The values that are written and read back: the range of the
    parameter type for the fixed-width ones and the unsigned varints,
    [zigzag_ok] for the signed varints (outside it the writer overflows:
    [zigzag_overflows]), and a string that is not empty (reading an empty
    one back may fault: [empty_string_faults]) and whose length the prefix holds. *)
Definition field_ok (f : field) : Prop :=
  match f with
  | Fint8 v => in_s 8 v | Fuint8 v => in_u 8 v
  | Fint16 v => in_s 16 v | Fuint16 v => in_u 16 v
  | Fint32 v => in_s 32 v | Fuint32 v => in_u 32 v
  | Fint64 v => in_s 64 v | Fuint64 v => in_u 64 v
  | Int32 v => zigzag_ok 32 v | Uint32 v => in_u 32 v
  | Int64 v => zigzag_ok 64 v | Uint64 v => in_u 64 v
  | Float v => in_u 32 v | Double v => in_u 64 v
  | StringF16 v => 0 < len v < 2 ^ 16
  | StringF32 v => 0 < len v < 2 ^ 32
  | StringF64 v | StringVint v => 0 < len v < 2 ^ 63
  end.

#[global] Instance field_ok_dec f : Decision (field_ok f).
Proof. destruct f; apply _. Defined.

Section message.
Context {S : Type} `{BS : ByteStream S} (host : endian).

Definition write_field (f : field) : stE S unit :=
  match f with
  | Fint8 v => writeFint8 host v | Fuint8 v => writeFuint8 host v
  | Fint16 v => writeFint16 host v | Fuint16 v => writeFuint16 host v
  | Fint32 v => writeFint32 host v | Fuint32 v => writeFuint32 host v
  | Fint64 v => writeFint64 host v | Fuint64 v => writeFuint64 host v
  | Int32 v => writeInt32 v | Uint32 v => writeUint32 v
  | Int64 v => writeInt64 v | Uint64 v => writeUint64 v
  | Float v => writeFloat host v | Double v => writeDouble host v
  | StringF16 v => writeStringF16 host v | StringF32 v => writeStringF32 host v
  | StringF64 v => writeStringF64 host v | StringVint v => writeStringVint v
  end.

Definition read_field (k : kind) : stE S field :=
  match k with
  | kFint8 => v ← readFint8 host; mret (Fint8 v)
  | kFuint8 => v ← readFuint8 host; mret (Fuint8 v)
  | kFint16 => v ← readFint16 host; mret (Fint16 v)
  | kFuint16 => v ← readFuint16 host; mret (Fuint16 v)
  | kFint32 => v ← readFint32 host; mret (Fint32 v)
  | kFuint32 => v ← readFuint32 host; mret (Fuint32 v)
  | kFint64 => v ← readFint64 host; mret (Fint64 v)
  | kFuint64 => v ← readFuint64 host; mret (Fuint64 v)
  | kInt32 => v ← readInt32 host; mret (Int32 v)
  | kUint32 => v ← readUint32 host; mret (Uint32 v)
  | kInt64 => v ← readInt64 host; mret (Int64 v)
  | kUint64 => v ← readUint64 host; mret (Uint64 v)
  | kFloat => v ← readFloat host; mret (Float v)
  | kDouble => v ← readDouble host; mret (Double v)
  | kStringF16 => v ← readStringF16 host; mret (StringF16 v)
  | kStringF32 => v ← readStringF32 host; mret (StringF32 v)
  | kStringF64 => v ← readStringF64 host; mret (StringF64 v)
  | kStringVint => v ← readStringVint host; mret (StringVint v)
  end.

Fixpoint write_message (fs : list field) : stE S unit :=
  match fs with
  | [] => mret tt
  | f :: fs' => _ ← write_field f; write_message fs'
  end.

Fixpoint read_message (ks : list kind) : stE S (list field) :=
  match ks with
  | [] => mret []
  | k :: ks' => f ← read_field k; fs ← read_message ks'; mret (f :: fs)
  end.
End message.

(** The wire format: fixed-width values in the byte order [e] of the
    stream, whatever the machine. *)
Definition varint_code (room : nat) (v : Z) : bytes :=
  match varint_tmp room v with Ret d => d | _ => [] end.

Definition zigzag_code (room : nat) (v : outcome Z) : bytes :=
  match v with Ret z => varint_code room z | _ => [] end.

Definition field_code (e : endian) (f : field) : bytes :=
  match f with
  | Fint8 v | Fuint8 v => [char_of v]
  | Fint16 v | Fuint16 v => mem_of e 2 v
  | Fint32 v | Fuint32 v | Float v => mem_of e 4 v
  | Fint64 v | Fuint64 v | Double v => mem_of e 8 v
  | Int32 v => zigzag_code 5 (EncodeZigzag32 v)
  | Uint32 v => varint_code 5 v
  | Int64 v => zigzag_code 10 (EncodeZigzag64 v)
  | Uint64 v => varint_code 10 v
  | StringF16 v => mem_of e 2 (len v) ++ v
  | StringF32 v => mem_of e 4 (len v) ++ v
  | StringF64 v => mem_of e 8 (len v) ++ v
  | StringVint v => varint_code 10 (len v) ++ v
  end.

Definition message_code (e : endian) (fs : list field) : bytes :=
  concat (field_code e <$> fs).

(* ------------------------------------------------------------------ *)
(** ** Zigzag *)

Lemma lxor_ones w x : 0 <= w → 0 <= x < 2 ^ w → Z.lxor x (Z.ones w) = Z.ones w - x.
Proof.
  intros Hw Hx.
  assert (Z.lxor x (Z.ones w) = Z.land (Z.lnot x) (Z.ones w)) as ->.
  { apply Z.bits_inj'. intros i Hi. rewrite Z.lxor_spec, Z.land_spec, Z.lnot_spec by lia.
    destruct (decide (i < w)).
    - rewrite Z.ones_spec_low by lia. by destruct (Z.testbit x i).
    - rewrite Z.ones_spec_high, <- (Z.mod_small x (2 ^ w)) by lia.
      by rewrite Z.mod_pow2_bits_high by lia. }
  rewrite Z.land_ones by lia. rewrite Z.ones_equiv. unfold Z.lnot, Z.pred, Z.succ.
  symmetry. apply (Z.mod_unique_pos _ _ (-1)); lia.
Qed.

Section zigzag.
Context (w : Z) (Hw : 2 <= w).

Definition enc (v : Z) : outcome Z :=
  if decide (v < 0) then n ← checked_s w (- v); Ret (wrapu w (wrapu w n * 2 - 1))
  else n ← checked_s w (v * 2); Ret (wrapu w n).
Definition dec (v : Z) : Z :=
  wraps w (Z.lxor (Z.shiftr v 1) (wrapu w (- Z.land v 1))).

Lemma pow_w : 2 ^ w = 2 * 2 ^ (w - 1) ∧ 2 <= 2 ^ (w - 1).
Proof.
  split; [rewrite <- Z.pow_succ_r by lia; f_equal; lia|].
  replace (w - 1) with (Z.succ (w - 2)) by lia. rewrite Z.pow_succ_r by lia.
  pose proof (Z.pow_pos_nonneg 2 (w - 2)). lia.
Qed.

Lemma pow_w2 : 2 ^ (w - 1) = 2 * 2 ^ (w - 2).
Proof. rewrite <- Z.pow_succ_r by lia. f_equal. lia. Qed.

(** Small magnitudes get small codes: 0, -1, 1, -2, 2, ... *)
Lemma enc_value v :
  zigzag_ok w v → enc v = Ret (if decide (v < 0) then - 2 * v - 1 else 2 * v).
Proof.
  intros Hv. pose proof pow_w as [E H2]. pose proof pow_w2 as E2. unfold enc, zigzag_ok in *.
  unfold checked_s, in_s, wrapu.
  case_decide; rewrite decide_True by lia; cbn [mbind outcome_bind]; f_equal.
  - rewrite <- Zminus_mod_idemp_l, Z.mul_mod_idemp_l, Zminus_mod_idemp_l by lia.
    rewrite Z.mod_small; lia.
  - rewrite Z.mod_small; lia.
Qed.

Lemma enc_overflow v : in_s w v → ¬ zigzag_ok w v → enc v = Crash signed_overflow.
Proof.
  intros Hv Hn. pose proof pow_w as [E H2]. pose proof pow_w2 as E2.
  unfold enc, zigzag_ok, checked_s, in_s in *.
  case_decide; by rewrite decide_False by lia.
Qed.

Lemma dec_enc v : zigzag_ok w v → ∃ z, enc v = Ret z ∧ in_u w z ∧ dec z = v.
Proof.
  intros Hv. rewrite enc_value by done. pose proof pow_w as [E H2]. pose proof pow_w2 as E2.
  unfold zigzag_ok in Hv. assert (in_s w v) as Hs by (unfold in_s; lia).
  eexists. split; [done|]. split; [unfold in_u; case_decide; lia|]. unfold dec.
  assert (∀ x, Z.land x 1 = x mod 2) as Hland by (intros x; apply (Z.land_ones x 1); lia).
  rewrite Hland, Z.shiftr_div_pow2 by lia. change (2 ^ 1) with 2.
  case_decide as Hneg.
  - replace ((-2 * v - 1) / 2) with (- v - 1) by (apply (Z.div_unique _ _ _ 1); lia).
    replace ((-2 * v - 1) mod 2) with 1 by (apply (Z.mod_unique _ _ (- v - 1)); lia).
    replace (wrapu w (- (1))) with (Z.ones w).
    2:{ rewrite Z.ones_equiv. unfold wrapu, Z.pred. apply (Z.mod_unique_pos _ _ (-1)); lia. }
    rewrite lxor_ones, Z.ones_equiv by lia.
    replace (Z.pred (2 ^ w) - (- v - 1)) with (v + 2 ^ w) by lia.
    rewrite wraps_add_pow by lia. apply wraps_small; done || lia.
  - replace (2 * v / 2) with v by (apply (Z.div_unique _ _ _ 0); lia).
    replace (2 * v mod 2) with 0 by (apply (Z.mod_unique _ _ v); lia).
    rewrite Z.lxor_0_r. apply wraps_small; done || lia.
Qed.
End zigzag.

Lemma zigzag32 v : zigzag_ok 32 v →
  ∃ z, EncodeZigzag32 v = Ret z ∧ in_u 32 z ∧ DecodeZigzag32 z = v.
Proof. intros. by apply (dec_enc 32). Qed.

Lemma zigzag64 v : zigzag_ok 64 v →
  ∃ z, EncodeZigzag64 v = Ret z ∧ in_u 64 z ∧ DecodeZigzag64 z = v.
Proof. intros. by apply (dec_enc 64). Qed.

(** The other values of the parameter types: the smallest one and the
    upper half of the positive ones overflow. *)
Lemma zigzag_overflows v :
  (in_s 32 v → ¬ zigzag_ok 32 v → EncodeZigzag32 v = Crash signed_overflow) ∧
  (in_s 64 v → ¬ zigzag_ok 64 v → EncodeZigzag64 v = Crash signed_overflow).
Proof. split; intros; [by apply (enc_overflow 32)|by apply (enc_overflow 64)]. Qed.

(* ------------------------------------------------------------------ *)
(** ** Each writer emits a code that its reader decodes *)

Section codec_specs.
Context {S : Type} `{HL : ByteStreamLaws S} (host : endian).
Implicit Types s : S.

Lemma mem_of_other e n v : swap_width n → e ≠ host → mem_of host n (byteswap n v) = mem_of e n v.
Proof.
  intros Hn He. destruct host, e; try done; unfold mem_of;
    rewrite le_bytes_byteswap by done; by rewrite ?reverse_involutive.
Qed.

Lemma of_mem_other e n v : swap_width n → e ≠ host →
  byteswap n (of_mem host (mem_of e n v)) = v mod 2 ^ (8 * Z.of_nat n).
Proof.
  intros Hn He. rewrite <- (of_mem_of e).
  destruct host, e; try done; unfold mem_of, of_mem;
    rewrite byteswap_le_val by (rewrite ?length_reverse; auto using length_le_bytes);
    by rewrite ?reverse_involutive.
Qed.

Lemma writes_fixed e n v : swap_width n → writes e (write_fixed host n v) (mem_of e n v).
Proof.
  intros Hn. apply (writes_endian e (λ e', bs_write (mem_of host n (swap_order host e' n v)))).
  unfold swap_order, SYLAR_BYTE_ORDER. case_decide as He.
  - subst. apply writes_bs_write.
  - rewrite (mem_of_other e) by done. apply writes_bs_write.
Qed.

Lemma reads_fixed e n v : swap_width n →
  reads e (read_fixed host n) (mem_of e n v) (v mod 2 ^ (8 * Z.of_nat n)).
Proof.
  intros Hn.
  apply (reads_endian e (λ e', d ← bs_read (Z.of_nat n);
           mret (swap_order host e' n (of_mem host d)))).
  replace (v mod 2 ^ (8 * Z.of_nat n)) with (swap_order host e n (of_mem host (mem_of e n v))).
  2:{ unfold swap_order, SYLAR_BYTE_ORDER.
      case_decide; [subst; apply of_mem_of|by apply of_mem_other]. }
  apply (reads_bind_ret e (bs_read (Z.of_nat n)) (λ d, swap_order host e n (of_mem host d))).
  apply reads_bs_read; [destruct Hn as [->|[->| ->]]; lia|apply length_mem_of].
Qed.

Lemma reads_byte e c : reads e (readFuint8 host) [c] (uchar c).
Proof.
  replace (uchar c) with (of_mem host [c]) by (destruct host; cbn; lia).
  apply (reads_bind_ret e (bs_read 1) (of_mem host)).
  apply (reads_bs_read e 1); [lia|done].
Qed.

Lemma land_127 v : Z.land v 0x7F = v mod 128.
Proof. apply (Z.land_ones v 7). lia. Qed.

(** A group of seven bits with the continuation bit set. *)
Lemma group_byte v : 0 <= v →
  uchar (char_of (Z.lor (Z.land v 0x7F) 0x80)) = v mod 128 + 128.
Proof.
  intros Hv. rewrite uchar_char_of, land_127.
  pose proof (Z.mod_pos_bound v 128 ltac:(lia)).
  replace (Z.lor (v mod 128) 0x80) with (v mod 128 + 1 * 2 ^ 7).
  - rewrite Z.mod_small; lia.
  - symmetry. apply (lor_add_shiftl 1 (v mod 128) 7); lia.
Qed.

Lemma lor_chunk w i r b : 0 <= i → 0 <= r < 2 ^ i → 0 <= b → b * 2 ^ i < 2 ^ w → 0 <= w →
  Z.lor r (wrapu w (Z.shiftl b i)) = r + b * 2 ^ i.
Proof.
  intros. rewrite wrapu_small.
  - by apply lor_add_shiftl.
  - rewrite Z.shiftl_mul_pow2 by lia. unfold in_u. nia.
Qed.

Lemma varint_spec w rm : 0 <= w → ∀ v i r fuel,
  (0 < rm)%nat → 0 <= v < 2 ^ (7 * Z.of_nat rm) → 0 <= i < w → 0 <= r < 2 ^ i →
  v * 2 ^ i + r < 2 ^ w → (rm ≤ fuel)%nat →
  ∃ d, varint_tmp rm v = Ret d ∧
    ∀ e, reads e (varint_loop host fuel w i r) d (r + v * 2 ^ i).
Proof.
  intros Hw. induction rm as [|rm IH]; intros v i r fuel Hrm Hv Hi Hr Hs Hf; [lia|].
  destruct fuel as [|fuel]; [lia|]. cbn [varint_tmp varint_loop].
  pose proof (Z.pow_pos_nonneg 2 i ltac:(lia) ltac:(lia)) as Hpi.
  rewrite (decide_True (P := i < w)) by lia. case_decide as Hbig.
  - pose proof (group_byte v ltac:(lia)) as Hg.
    pose proof (Z.mod_pos_bound v 128 ltac:(lia)).
    pose proof (Z.div_mod v 128 ltac:(lia)) as Hdm.
    set (c := char_of _) in *. rewrite Z.shiftr_div_pow2 by lia. change (2 ^ 7) with 128.
    assert (2 ^ (i + 7) = 2 ^ i * 128) as E7 by (rewrite Z.pow_add_r by lia; done).
    assert (i + 7 < w) by (apply (Z.pow_lt_mono_r_iff 2); nia).
    destruct (decide (rm = 0%nat)) as [->|Hrm0].
    { change (2 ^ (7 * Z.of_nat 1)) with 128 in Hv. lia. }
    assert (2 ^ (7 * Z.of_nat (Datatypes.S rm)) = 2 ^ (7 * Z.of_nat rm) * 128) as Erm.
    { rewrite Nat2Z.inj_succ, Z.mul_succ_r, Z.pow_add_r by lia. done. }
    destruct (IH (v / 128) (i + 7) (r + (v mod 128) * 2 ^ i) fuel) as (d & -> & Hd);
      [lia|nia|lia|nia|nia|lia|].
    exists (c :: d). split; [done|]. intros e.
    change (c :: d) with ([c] ++ d). eapply reads_bind; [apply reads_byte|].
    rewrite (decide_False (P := uchar c < 0x80)) by lia.
    rewrite land_127, Hg.
    replace ((v mod 128 + 128) mod 128) with (v mod 128).
    2:{ rewrite <- (Z.mul_1_l 128) at 3. rewrite Z.mod_add, Z.mod_mod by lia. done. }
    rewrite lor_chunk by nia.
    replace (r + v * 2 ^ i) with (r + v mod 128 * 2 ^ i + v / 128 * 2 ^ (i + 7)) by nia.
    apply Hd.
  - exists [char_of v]. split; [done|]. intros e.
    change [char_of v] with ([char_of v] ++ []). eapply reads_bind; [apply reads_byte|].
    rewrite uchar_char_of, Z.mod_small by lia.
    rewrite decide_True by lia. rewrite lor_chunk by nia. apply reads_ret.
Qed.

Lemma swap_width_2 : swap_width 2. Proof. by left. Qed.
Lemma swap_width_4 : swap_width 4. Proof. right. by left. Qed.
Lemma swap_width_8 : swap_width 8. Proof. right. by right. Qed.
#[local] Hint Resolve swap_width_2 swap_width_4 swap_width_8 writes_fixed : core.

Lemma varint_tmp_code rm v : (0 < rm)%nat → 0 <= v < 2 ^ (7 * Z.of_nat rm) →
  varint_tmp rm v = Ret (varint_code rm v).
Proof.
  intros Hrm Hv. unfold varint_code.
  destruct (varint_spec (7 * Z.of_nat rm) rm ltac:(lia) v 0 0 rm) as (d & -> & _);
    rewrite ?Z.mul_1_r; done || lia.
Qed.

Lemma writes_varint e rm v : (0 < rm)%nat → 0 <= v < 2 ^ (7 * Z.of_nat rm) →
  writes e (write_tmp (varint_tmp rm v)) (varint_code rm v).
Proof. intros. rewrite varint_tmp_code by done. apply writes_bs_write. Qed.

Lemma reads_varint e w rm fuel v :
  (0 < rm)%nat → 0 <= v < 2 ^ (7 * Z.of_nat rm) → 0 < w → v < 2 ^ w → (rm ≤ fuel)%nat →
  reads e (varint_loop host fuel w 0 0) (varint_code rm v) v.
Proof.
  intros Hrm Hv Hw Hvw Hf. unfold varint_code.
  destruct (varint_spec w rm ltac:(lia) v 0 0 fuel) as (d & -> & Hd);
    rewrite ?Z.mul_1_r, ?Z.add_0_r; try done || lia.
  specialize (Hd e). by rewrite Z.mul_1_r in Hd.
Qed.

Lemma writes_Uint32 e v : in_u 32 v → writes e (writeUint32 v) (varint_code 5 v).
Proof. intros Hv. apply writes_varint; [lia|]. unfold in_u in Hv. simpl. lia. Qed.
Lemma writes_Uint64 e v : in_u 64 v → writes e (writeUint64 v) (varint_code 10 v).
Proof. intros Hv. apply writes_varint; [lia|]. unfold in_u in Hv. simpl. lia. Qed.
Lemma reads_Uint32 e v : in_u 32 v → reads e (readUint32 host) (varint_code 5 v) v.
Proof. intros Hv. unfold in_u in Hv. apply reads_varint; simpl; lia. Qed.
Lemma reads_Uint64 e v : in_u 64 v → reads e (readUint64 host) (varint_code 10 v) v.
Proof. intros Hv. unfold in_u in Hv. apply reads_varint; simpl; lia. Qed.
#[local] Hint Resolve writes_Uint32 writes_Uint64 reads_Uint32 reads_Uint64 : core.

Lemma mem_of_1 e v : mem_of e 1 v = [char_of v].
Proof. by destruct e. Qed.

Lemma mem_of_wrapu e n v w : w = 8 * Z.of_nat n → mem_of e n (wrapu w v) = mem_of e n v.
Proof. intros Hw. by destruct e; unfold mem_of; rewrite le_bytes_mod. Qed.

Lemma writes_field e f : field_ok f → writes e (write_field host f) (field_code e f).
Proof.
  intros Hok. destruct f; cbn [write_field field_code field_ok] in *;
    try (by apply writes_fixed; auto); try (by auto);
    try (by rewrite <- (mem_of_1 host); apply writes_bs_write).
  - unfold writeInt32. destruct (zigzag32 v Hok) as (z & -> & Hz & _). by apply writes_Uint32.
  - unfold writeInt64. destruct (zigzag64 v Hok) as (z & -> & Hz & _). by apply writes_Uint64.
  - apply writes_bind; [|apply writes_bs_write].
    rewrite <- (mem_of_wrapu e 2 _ 16) by done. by apply writes_fixed.
  - apply writes_bind; [|apply writes_bs_write].
    rewrite <- (mem_of_wrapu e 4 _ 32) by done. by apply writes_fixed.
  - apply writes_bind; [|apply writes_bs_write].
    rewrite <- (mem_of_wrapu e 8 _ 64) by done. by apply writes_fixed.
  - apply writes_bind; [|apply writes_bs_write].
    rewrite wrapu_small by (unfold in_u; lia). apply writes_Uint64. unfold in_u. lia.
Qed.

(** A reader that returns the value the code stands for. *)
Lemma reads_unsigned e n v : swap_width n → in_u (8 * Z.of_nat n) v →
  reads e (read_fixed host n) (mem_of e n v) v.
Proof.
  intros Hn Hv. rewrite <- (Z.mod_small v (2 ^ (8 * Z.of_nat n))) at 2 by apply Hv.
  by apply reads_fixed.
Qed.

Lemma reads_signed e n w v : swap_width n → w = 8 * Z.of_nat n → 0 < w → in_s w v →
  reads e (v ← read_fixed host n; mret (wraps w v)) (mem_of e n v) v.
Proof.
  intros Hn -> Hw Hv. rewrite <- (wraps_small (8 * Z.of_nat n) v) at 2 by done.
  rewrite <- wraps_wrapu. apply (reads_bind_ret e _ (wraps _)). by apply reads_fixed.
Qed.

Lemma reads_chars e v : 0 < len v < 2 ^ 63 → reads e (read_chars (len v)) v v.
Proof.
  intros Hv. unfold read_chars. rewrite decide_False by lia.
  apply reads_bs_read; [unfold len in Hv; lia|done].
Qed.

Lemma reads_string e (m : stE S Z) d v :
  0 < len v < 2 ^ 63 → reads e m d (len v) → reads e (n ← m; read_chars n) (d ++ v) v.
Proof. intros. eapply reads_bind; [done|]. by apply reads_chars. Qed.

Lemma reads_uint8 e v : reads e (readFuint8 host) [char_of v] (v mod 256).
Proof. rewrite <- uchar_char_of. apply reads_byte. Qed.

Lemma reads_int8 e v : in_s 8 v → reads e (readFint8 host) [char_of v] v.
Proof.
  intros Hv. assert (v = wraps 8 (of_mem host [char_of v])) as Ev.
  { rewrite <- (mem_of_1 host), of_mem_of. symmetry.
    rewrite <- (wraps_small 8 v) at 2 by (done || lia). apply (wraps_wrapu 8). }
  rewrite Ev at 2.
  apply (reads_bind_ret e _ (λ d, wraps 8 (of_mem host d))).
  apply (reads_bs_read e 1); [lia|done].
Qed.

Lemma reads_field e f : field_ok f → reads e (read_field host (kind_of f)) (field_code e f) f.
Proof.
  intros Hok. destruct f; cbn [read_field kind_of field_code field_ok] in *;
    match goal with
    | |- reads _ _ _ (?C ?v) => apply (reads_bind_ret e _ C)
    end;
    try (apply reads_unsigned; auto; done); try (by apply reads_signed; auto); auto.
  - by apply reads_int8.
  - rewrite <- (Z.mod_small v 256 Hok) at 2. apply reads_uint8.
  - destruct (zigzag32 v Hok) as (z & -> & Hz & Hd). rewrite <- Hd.
    apply (reads_bind_ret e _ DecodeZigzag32). by apply reads_Uint32.
  - destruct (zigzag64 v Hok) as (z & -> & Hz & Hd). rewrite <- Hd.
    apply (reads_bind_ret e _ DecodeZigzag64). by apply reads_Uint64.
  - apply reads_string; [lia|]. apply reads_unsigned; [done|]. unfold in_u. simpl. lia.
  - apply reads_string; [lia|]. apply reads_unsigned; [done|]. unfold in_u. simpl. lia.
  - apply reads_string; [lia|]. apply reads_unsigned; [done|]. unfold in_u. simpl. lia.
  - apply reads_string; [lia|]. apply reads_Uint64. unfold in_u. lia.
Qed.

Lemma writes_message e fs : Forall field_ok fs →
  writes e (write_message host fs) (message_code e fs).
Proof.
  induction 1; cbn; [apply writes_ret|]. apply writes_bind; [by apply writes_field|done].
Qed.

Lemma reads_message e fs : Forall field_ok fs →
  reads e (read_message host (kind_of <$> fs)) (message_code e fs) fs.
Proof.
  induction 1 as [|f fs Hf _ IH]; cbn; [apply reads_ret|].
  eapply reads_bind; [by apply reads_field|]. by apply (reads_bind_ret e _ (cons f)).
Qed.
End codec_specs.
