(* ===== verification/ByteArrayTheorems.v ===== *)
(** * What the byte buffer guarantees

    The refinement of [ByteArray] to a flat buffer with a position, the
    round trip and the wire format of typed messages, and the exact
    behaviour of the scatter/gather views and of file output. *)
From S2P Require Import Prelude Endian ByteStream ByteArray ByteArrayCodec.
Local Open Scope Z_scope.

(* ------------------------------------------------------------------ *)
(** ** The abstract buffer *)

Record flat := mkFlat { f_data : bytes; f_pos : nat }.

Inductive buf_op :=
  | OpWrite (d : bytes)
  | OpRead (n : nat)
  | OpSeek (v : nat)
  | OpEndian (little : bool)
  | OpClear.

(** The untyped operations of the class, with the bytes they return. *)
Definition exec (garbage : nat → nat → ascii) (o : buf_op) : stE ByteArray bytes :=
  match o with
  | OpWrite d => _ ← write garbage d; mret []
  | OpRead n => read (Z.of_nat n)
  | OpSeek v => _ ← setPosition (Z.of_nat v); mret []
  | OpEndian l => _ ← modify (setIsLittleEndian l); mret []
  | OpClear => _ ← modify clear; mret []
  end.

Fixpoint run (garbage : nat → nat → ascii) (ops : list buf_op) (b : ByteArray)
    : list (outcome bytes) * ByteArray :=
  match ops with
  | [] => ([], b)
  | o :: ops' =>
      let '(r, b1) := exec garbage o b in
      let '(rs, b2) := run garbage ops' b1 in (r :: rs, b2)
  end.

(** What a buffer must do.  Two points are left open: a seek past the
    data either fails or exposes bytes nobody wrote, and an empty read
    with nothing left may fault. *)
Inductive flat_step : flat → buf_op → outcome bytes → flat → Prop :=
  | step_write l p d :
      flat_step (mkFlat l p) (OpWrite d) (Ret []) (mkFlat (splice p d l) (p + length d))
  | step_read l p n : (p + n ≤ length l)%nat →
      flat_step (mkFlat l p) (OpRead n) (Ret (slice p n l)) (mkFlat l (p + n))
  | step_read_short l p n : (length l < p + n)%nat →
      flat_step (mkFlat l p) (OpRead n) (Throw out_of_range) (mkFlat l p)
  | step_read_fault l p : p = length l →
      flat_step (mkFlat l p) (OpRead 0) (Crash null_deref) (mkFlat l p)
  | step_seek l p v : (v ≤ length l)%nat →
      flat_step (mkFlat l p) (OpSeek v) (Ret []) (mkFlat l v)
  | step_seek_grow l p v junk : (length l + length junk)%nat = v →
      flat_step (mkFlat l p) (OpSeek v) (Ret []) (mkFlat (l ++ junk) v)
  | step_seek_fail l p v : (length l < v)%nat →
      flat_step (mkFlat l p) (OpSeek v) (Throw out_of_range) (mkFlat l p)
  | step_endian l p e : flat_step (mkFlat l p) (OpEndian e) (Ret []) (mkFlat l p)
  | step_clear l p : flat_step (mkFlat l p) OpClear (Ret []) (mkFlat [] 0).

Inductive flat_run : flat → list buf_op → list (outcome bytes) → flat → Prop :=
  | run_nil s : flat_run s [] [] s
  | run_cons s o r s1 ops rs s2 :
      flat_step s o r s1 → flat_run s1 ops rs s2 → flat_run s (o :: ops) (r :: rs) s2.

Definition abs (b : ByteArray) : flat := mkFlat (contents b) (pos b).

(** Upper bound of what a sequence of operations allocates. *)
Definition op_cost (base : Z) (o : buf_op) : Z :=
  match o with OpWrite d => Z.of_nat (length d) + base | _ => 0 end.

Definition run_cost (base : Z) (ops : list buf_op) : Z :=
  foldr (λ o c, op_cost base o + c) 0 ops.

Section refinement.
Context (garbage : nat → nat → ascii).

Lemma exec_refines o b :
  wf b → m_capacity b + op_cost (m_baseSize b) o <= max_bytes →
  ∃ r b', exec garbage o b = (r, b') ∧ wf b' ∧ flat_step (abs b) o r (abs b') ∧
    m_baseSize b' = m_baseSize b ∧ m_capacity b' <= m_capacity b + op_cost (m_baseSize b) o.
Proof.
  intros W Hc. pose proof (length_contents _ W) as Hl. pose proof (wf_pos _ W) as Hp.
  pose proof (wf_size _ W) as Hs. pose proof (wf_base _ W) as Hb.
  destruct o as [d|n|v|l|]; cbn [exec op_cost] in *.
  - destruct (write_spec garbage d b W) as (b' & E & W' & Hd & Hp' & _ & Hb' & Hc'); [lia|].
    rewrite (stE_bind_ret _ _ _ _ _ E). eexists _, b'. split_and!; try done; [|lia].
    unfold abs. rewrite Hd, Hp'. constructor.
  - destruct (decide (pos b + n ≤ length (contents b))%nat) as [Hin|Hout].
    + destruct n as [|n].
      * assert (flat_step (abs b) (OpRead 0) (Ret []) (abs b)) as Hz.
        { replace (abs b) with (mkFlat (contents b) (pos b + 0)) at 2
            by (unfold abs; f_equal; lia). by apply (step_read (contents b) (pos b) 0). }
        rewrite read_zero by done.
        case_decide; eexists _, b; (split; [done|split; [done|split; [|lia]]]); [|done].
        constructor. unfold pos. lia.
      * destruct (read_spec (S n) b W) as (b' & E & W' & Hd & Hp' & _ & Hb' & Hc'); [lia|done|].
        eexists _, b'. split_and!; try done; [|lia].
        unfold abs. rewrite Hd, Hp'. by constructor.
    + rewrite read_short by (done || unfold pos in Hout; lia).
      eexists _, b. split_and!; try done; [constructor; lia|lia].
  - destruct (decide (Z.of_nat v <= m_capacity b)) as [Hin|Hout].
    + destruct (setPosition_spec (Z.of_nat v) b W) as
        (b' & junk & E & W' & Hd & Hj & Hjl & Hp' & _ & Hb' & Hc'); [lia|].
      rewrite (stE_bind_ret _ _ _ _ _ E). eexists _, b'. split_and!; try done; [|lia].
      unfold abs. rewrite Hd.
      replace (pos b') with v by (unfold pos; lia).
      destruct (decide (v ≤ length (contents b))%nat).
      * rewrite Hj, app_nil_r by lia. by constructor.
      * constructor. lia.
    + erewrite stE_bind_throw; [|unfold setPosition; rewrite decide_True by lia; done].
      eexists _, b. split_and!; try done; [constructor; lia|lia].
  - eexists _, _. split; [done|].
    split; [|split; [|by destruct l; cbn; rewrite Z.add_0_r]].
    + destruct W. by destruct l; split.
    + replace (abs (setIsLittleEndian l b)) with (abs b) by by destruct l. constructor.
  - destruct (clear_spec b W) as (W' & Hd & Hp' & _).
    eexists _, _. split; [done|]. split_and!; try done.
    + unfold abs. rewrite Hd, Hp'. constructor.
    + cbn. rewrite (wf_cap _ W). pose proof (wf_root _ W). nia.
Qed.

Lemma run_cost_nonneg base ops : 0 < base → 0 <= run_cost base ops.
Proof. intros Hb. unfold run_cost. induction ops as [|[] ops IH]; cbn; lia. Qed.

Lemma run_refines ops b :
  wf b → m_capacity b + run_cost (m_baseSize b) ops <= max_bytes →
  ∃ rs b', run garbage ops b = (rs, b') ∧ wf b' ∧ flat_run (abs b) ops rs (abs b').
Proof.
  revert b. induction ops as [|o ops IH]; intros b W Hc; cbn [run run_cost foldr] in *.
  - eexists _, b. split_and!; try done. constructor.
  - pose proof (run_cost_nonneg _ ops (wf_base _ W)) as Hpos.
    fold (run_cost (m_baseSize b) ops) in Hc.
    destruct (exec_refines o b W ltac:(lia)) as (r & b1 & -> & W1 & Hst & Hb & Hc1).
    destruct (IH b1 W1) as (rs & b2 & -> & W2 & Hrun); [rewrite Hb; lia|].
    eexists _, b2. split_and!; try done. by econstructor.
Qed.

(** C1: the buffer refines a flat byte buffer with a position.  From a
    fresh [ByteArray] of any block size, every sequence of writes,
    reads, seeks, byte-order changes and clears whose total stays below
    [max_bytes] yields results that the abstract buffer allows: a read
    returns exactly the bytes written at that position whatever node
    boundaries they cross, a read of more than is left throws
    [out_of_range] and changes nothing, no access leaves a block, and
    the representation invariant holds at the end. *)
Theorem buffer_refines_flat base ops :
  0 < base → base + run_cost base ops <= max_bytes →
  ∃ rs b', run garbage ops (new_ByteArray garbage base) = (rs, b') ∧ wf b' ∧
    flat_run (mkFlat [] 0) ops rs (abs b').
Proof.
  intros Hb Hc.
  pose proof (run_cost_nonneg _ ops Hb).
  destruct (run_refines ops (new_ByteArray garbage base)) as (rs & b' & ? & ? & ?);
    [apply new_wf; lia|done|].
  exists rs, b'. split_and!; try done.
Qed.
End refinement.

(** A concrete run across four-byte blocks, with a short read. *)
Lemma buffer_refines_flat_witness :
  ∃ rs b',
    run (λ _ _, zero) [OpWrite (B "hello world"); OpSeek 3; OpRead 6; OpRead 9]
      (new_ByteArray (λ _ _, zero) 4) = (rs, b') ∧ wf b' ∧
    flat_run (mkFlat [] 0)
      [OpWrite (B "hello world"); OpSeek 3; OpRead 6; OpRead 9] rs (abs b').
Proof. apply buffer_refines_flat; vm_compute; congruence. Defined.

Example run_example :
  (run (λ _ _, zero) [OpWrite (B "hello world"); OpSeek 3; OpRead 6; OpRead 9]
     (new_ByteArray (λ _ _, zero) 4)).1
  = [Ret []; Ret []; Ret (B "lo wor"); Throw out_of_range].
Proof. vm_compute. reflexivity. Qed.

(* ------------------------------------------------------------------ *)
(** ** Messages *)

Section messages.
Context (garbage : nat → nat → ascii) (host : endian).
#[local] Existing Instance ByteArray_stream.

(** The buffer seen through its stream interface. *)
Abbreviation write_msg := (@write_message ByteArray (ByteArray_stream garbage) host).
Abbreviation read_msg := (@read_message ByteArray (ByteArray_stream garbage) host).

Lemma write_msg_spec fs b :
  Forall field_ok fs → room (length (message_code (m_endian b) fs)) b →
  ∃ b1, write_msg fs b = (Ret tt, b1) ∧ room 0 b1 ∧
    contents b1 = splice (pos b) (message_code (m_endian b) fs) (contents b) ∧
    pos b1 = (pos b + length (message_code (m_endian b) fs))%nat ∧ m_endian b1 = m_endian b.
Proof.
  intros Hok Hr.
  by apply (writes_message (HL := ByteArray_laws garbage) host (m_endian b) fs Hok 0%nat b).
Qed.

Lemma read_msg_spec fs b :
  Forall field_ok fs → room 0 b →
  (∃ l, drop (pos b) (contents b) = message_code (m_endian b) fs ++ l) →
  ∃ b1, read_msg (kind_of <$> fs) b = (Ret fs, b1) ∧ room 0 b1 ∧ contents b1 = contents b ∧
    pos b1 = (pos b + length (message_code (m_endian b) fs))%nat ∧ m_endian b1 = m_endian b.
Proof.
  intros Hok Hr Hh.
  by apply (reads_message (HL := ByteArray_laws garbage) host (m_endian b) fs Hok 0%nat b).
Qed.

(** C2: typed values survive a round trip.  Write any sequence of
    [field_ok] values (integers of every width, unsigned varints, signed
    varints above the smallest value and below a quarter of the range,
    for which the zigzag code is computed without overflow, floats, and
    non-empty strings with any of the length prefixes) at any position of
    a well-formed buffer with room for them, move back, and read values of the same types: the same
    sequence comes back and the position is again where the writes left
    it, for either byte order of the buffer and of the machine, and for
    every block size. *)
Theorem message_roundtrip fs b :
  Forall field_ok fs → room (length (message_code (m_endian b) fs)) b →
  ∃ b1 b2 b3, write_msg fs b = (Ret tt, b1) ∧
    setPosition (m_position b) b1 = (Ret tt, b2) ∧
    read_msg (kind_of <$> fs) b2 = (Ret fs, b3) ∧ m_position b3 = m_position b1.
Proof.
  intros Hok Hr. pose proof Hr as [W _].
  destruct (write_msg_spec fs b Hok Hr) as (b1 & E1 & [W1 Hr1] & Hd1 & Hp1 & He1).
  pose proof (length_contents _ W) as Hl. pose proof (length_contents _ W1) as Hl1.
  pose proof (wf_pos _ W). pose proof (wf_pos _ W1). pose proof (wf_size _ W1).
  unfold pos in Hp1.
  destruct (setPosition_spec (m_position b) b1 W1) as
    (b2 & junk & E2 & W2 & Hd2 & Hj & _ & Hp2 & He2 & Hb2 & Hc2); [lia|].
  rewrite Hj, app_nil_r in Hd2 by lia.
  assert (pos b2 = pos b) as Hpos by (unfold pos; congruence).
  destruct (read_msg_spec fs b2) as (b3 & E3 & [W3 _] & _ & Hp3 & _); [done| | |].
  - split; [done|]. rewrite Hb2, <- (length_contents _ W2), Hd2, Hl1. lia.
  - rewrite Hd2, Hd1, Hpos, He2, He1. eexists.
    rewrite <- (take_drop (length (message_code (m_endian b) fs)) (drop (pos b) _)).
    rewrite read_splice by (by apply pos_le_contents). done.
  - exists b1, b2, b3. split_and!; try done.
    rewrite He2, He1 in Hp3. unfold pos in *. destruct W3. lia.
Qed.

(** What is on the wire.  Writing a message stores exactly its
    code at the position and nothing else changes: fixed-width values
    in the byte order of the buffer (most significant byte first by
    default) whatever the byte order of the machine. *)
Theorem message_wire_format fs b :
  Forall field_ok fs → room (length (message_code (m_endian b) fs)) b →
  ∃ b1, write_msg fs b = (Ret tt, b1) ∧ wf b1 ∧
    contents b1 = splice (pos b) (message_code (m_endian b) fs) (contents b) ∧
    pos b1 = (pos b + length (message_code (m_endian b) fs))%nat ∧ m_endian b1 = m_endian b.
Proof.
  intros Hok Hr.
  destruct (write_msg_spec fs b Hok Hr) as (b1 & ? & [W _] & ? & ? & ?).
  by exists b1.
Qed.
End messages.

Definition sample_message : list field :=
  [Fint32 (-2); StringF16 (B "sylar"); Int64 (-300); Uint32 4294967295; Double 1].

Lemma message_roundtrip_witness :
  ∃ b1 b2 b3,
    @write_message _ (ByteArray_stream (λ _ _, zero)) SYLAR_LITTLE_ENDIAN sample_message
      (new_ByteArray (λ _ _, zero) 4) = (Ret tt, b1) ∧
    setPosition 0 b1 = (Ret tt, b2) ∧
    @read_message _ (ByteArray_stream (λ _ _, zero)) SYLAR_LITTLE_ENDIAN
      (kind_of <$> sample_message) b2 = (Ret sample_message, b3) ∧
    m_position b3 = m_position b1.
Proof.
  apply (message_roundtrip (λ _ _, zero) SYLAR_LITTLE_ENDIAN sample_message
           (new_ByteArray (λ _ _, zero) 4)).
  - apply (bool_decide_unpack _). vm_compute. exact I.
  - split; [apply new_wf; vm_compute; split; congruence|vm_compute; congruence].
Defined.

Lemma message_wire_format_witness :
  ∃ b1,
    @write_message _ (ByteArray_stream (λ _ _, zero)) SYLAR_LITTLE_ENDIAN sample_message
      (new_ByteArray (λ _ _, zero) 4) = (Ret tt, b1) ∧ wf b1 ∧
    contents b1 = splice 0 (message_code SYLAR_BIG_ENDIAN sample_message) [] ∧
    pos b1 = (0 + length (message_code SYLAR_BIG_ENDIAN sample_message))%nat ∧
    m_endian b1 = SYLAR_BIG_ENDIAN.
Proof.
  apply (message_wire_format (λ _ _, zero) SYLAR_LITTLE_ENDIAN sample_message
           (new_ByteArray (λ _ _, zero) 4)).
  - apply (bool_decide_unpack _). vm_compute. exact I.
  - split; [apply new_wf; vm_compute; split; congruence|vm_compute; congruence].
Defined.

(* ------------------------------------------------------------------ *)
(** ** File output *)

Section file.
Implicit Types b : ByteArray.

Lemma offset_in_split b i off :
  0 < m_baseSize b → (off < Z.to_nat (m_baseSize b))%nat →
  offset_in b (Z.of_nat (i * Z.to_nat (m_baseSize b) + off)) = Ret (Z.of_nat off).
Proof.
  intros Hb Hoff. unfold offset_in. rewrite decide_False by lia. f_equal. symmetry.
  apply (Z.mod_unique_pos _ _ (Z.of_nat i)); nia.
Qed.

(** From a block boundary on, the loop writes block after block. *)
Lemma file_loop_aligned fuel b i n :
  wf b → (i * Z.to_nat (m_baseSize b) + n ≤ length (m_nodes b) * Z.to_nat (m_baseSize b))%nat →
  (length (m_nodes b) - i < fuel)%nat →
  file_loop fuel b (cursor (Z.to_nat (m_baseSize b)) (length (m_nodes b))
                      (i * Z.to_nat (m_baseSize b)))
    (Z.of_nat (i * Z.to_nat (m_baseSize b))) (Z.of_nat n)
  = Ret (slice (i * Z.to_nat (m_baseSize b)) n (concat (m_nodes b))).
Proof.
  intros W. pose proof (wf_base _ W) as Hb. pose proof (wf_nodes _ W) as Hu.
  assert (Z.of_nat (length (m_nodes b) * Z.to_nat (m_baseSize b)) <= max_bytes) as Hmx.
  { pose proof (wf_max _ W). pose proof (wf_cap _ W). nia. }
  set (bs := Z.to_nat (m_baseSize b)) in *.
  revert i n. induction fuel as [|f IH]; intros i n Hn Hf; [lia|].
  cbn [file_loop]. case_decide as Hz.
  { assert (n = 0%nat) as -> by lia. done. }
  assert (i < length (m_nodes b))%nat as Hi by nia.
  pose proof (offset_in_split b i 0 Hb ltac:(lia)) as Ho. fold bs in Ho.
  rewrite Nat.add_0_r in Ho. rewrite Ho. cbn [mbind outcome_bind].
  pose proof (cursor_split bs ltac:(lia) (length (m_nodes b)) i 0 Hi ltac:(lia)) as Hcur.
  rewrite Nat.add_0_r in Hcur. rewrite Hcur.
  set (k := Nat.min bs n).
  assert (i64 ((if decide (m_baseSize b < Z.of_nat n) then m_baseSize b else Z.of_nat n)
               - Z.of_nat 0) = Z.of_nat k) as ->.
  { rewrite wraps_small; [unfold k, bs in *; case_decide; lia|lia|].
    unfold in_s, max_bytes, bs in *. case_decide; nia. }
  rewrite decide_False by lia.
  rewrite (load_uniform bs ltac:(lia) (m_nodes b) i 0 k) by (done || (unfold k; lia)).
  cbn [mbind outcome_bind].
  rewrite (cursor_next bs) by (done || lia).
  replace (Z.of_nat n - Z.of_nat k) with (Z.of_nat (n - k)) by (unfold k; lia).
  rewrite Nat.add_0_r.
  destruct (decide (n ≤ bs)%nat).
  - assert (k = n) as -> by (unfold k; lia). rewrite Nat.sub_diag.
    destruct f; [lia|]. cbn [file_loop]. rewrite decide_True by lia. cbn [mbind outcome_bind]. by rewrite app_nil_r.
  - assert (k = bs) as -> by (unfold k; lia).
    replace (Z.of_nat (i * bs) + Z.of_nat bs) with (Z.of_nat (S i * bs)) by lia.
    rewrite IH by nia. cbn [mbind outcome_bind].
    replace n with (bs + (n - bs))%nat at 2 by lia. rewrite slice_app_split.
    do 3 f_equal. lia.
Qed.

(** The pointer walks off the chain before a zero-length step makes
    any progress. *)
Lemma file_loop_stuck fuel b cur p n :
  wf b → 0 < n → n <= m_baseSize b → offset_in b p = Ret n →
  ∃ c, file_loop fuel b cur p n = Crash c.
Proof.
  intros W Hn Hnb Ho. pose proof (wf_max _ W). pose proof (wf_cap _ W).
  pose proof (wf_root _ W). pose proof (wf_base _ W).
  revert cur. induction fuel as [|f IH]; intros cur; [by eexists|].
  cbn [file_loop]. rewrite decide_False, Ho by lia. cbn [mbind outcome_bind].
  rewrite (decide_False (P := m_baseSize b < n)), Z.sub_diag by lia.
  rewrite wraps_small by (unfold in_s; lia). rewrite (decide_False (P := 0 < 0)) by lia.
  unfold load. destruct cur as [i|]; [|by eexists].
  destruct (m_nodes b !! i); [|by eexists].
  case_decide; [|by eexists]. cbn [mbind outcome_bind].
  rewrite Z.add_0_r, Z.sub_0_r.
  destruct (IH (node_next (m_nodes b) i)) as [c ->]. by eexists.
Qed.

Lemma file_loop_negative fuel b cur p n off :
  wf b → 0 < n → n < off → off < m_baseSize b → offset_in b p = Ret off →
  ∃ c, file_loop fuel b cur p n = Crash c.
Proof.
  intros W Hn Hno Hob Ho. pose proof (wf_max _ W). pose proof (wf_cap _ W).
  pose proof (wf_root _ W). unfold max_bytes in *.
  destruct fuel as [|f]; [by eexists|].
  cbn [file_loop]. rewrite decide_False, Ho by lia. cbn [mbind outcome_bind].
  rewrite (decide_False (P := m_baseSize b < n)) by lia.
  rewrite wraps_small by (unfold in_s; nia). rewrite decide_True by lia. by eexists.
Qed.

(** The first step from inside a block. *)
Lemma file_loop_first f b i off n :
  wf b → (i < length (m_nodes b))%nat → (0 < off < Z.to_nat (m_baseSize b))%nat →
  m_cur b = Some i → pos b = (i * Z.to_nat (m_baseSize b) + off)%nat →
  (0 < n)%nat → (pos b + n ≤ length (m_nodes b) * Z.to_nat (m_baseSize b))%nat →
  let k := (Nat.min n (Z.to_nat (m_baseSize b)) - off)%nat in
  (off ≤ Nat.min n (Z.to_nat (m_baseSize b)))%nat →
  file_loop (S f) b (m_cur b) (m_position b) (Z.of_nat n)
  = (rest ← file_loop f b (node_next (m_nodes b) i) (m_position b + Z.of_nat k)
              (Z.of_nat n - Z.of_nat k);
     Ret (slice (pos b) k (concat (m_nodes b)) ++ rest)).
Proof.
  intros W Hi Hoff Hcur Hp Hn Hfit k Hk.
  pose proof (wf_base _ W) as Hb. pose proof (wf_pos _ W) as Hpos.
  assert (Z.of_nat (length (m_nodes b) * Z.to_nat (m_baseSize b)) <= max_bytes) as Hmx.
  { pose proof (wf_max _ W). pose proof (wf_cap _ W). nia. }
  cbn [file_loop]. rewrite decide_False by lia.
  replace (offset_in b (m_position b)) with (@Ret Z (Z.of_nat off)).
  2:{ replace (m_position b) with (Z.of_nat (pos b)) by (unfold pos; lia).
      by rewrite Hp, offset_in_split by lia. }
  cbn [mbind outcome_bind].
  assert (i64 ((if decide (m_baseSize b < Z.of_nat n) then m_baseSize b else Z.of_nat n)
               - Z.of_nat off) = Z.of_nat k) as ->.
  { rewrite wraps_small; [unfold k in *; case_decide; lia|lia|].
    unfold in_s, max_bytes in *. case_decide; nia. }
  rewrite decide_False by lia. rewrite Hcur.
  rewrite (load_uniform (Z.to_nat (m_baseSize b))) by (destruct W; done || (unfold k; lia)).
  cbn [mbind outcome_bind]. by rewrite Hp.
Qed.

(** When [writeToFile] writes the readable bytes.  If the position
    is at a block boundary, or at least a block is left to read, the
    file receives exactly the readable bytes; in every other case with
    something to write the call computes a negative length or runs off
    the chain of blocks. *)
Theorem writeToFile_exact b :
  wf b → m_position b < m_size b →
  (m_position b mod m_baseSize b = 0 ∨ m_baseSize b <= m_size b - m_position b →
   writeToFile true b = Ret (true, drop (pos b) (contents b))) ∧
  (¬ (m_position b mod m_baseSize b = 0 ∨ m_baseSize b <= m_size b - m_position b) →
   ∃ c, writeToFile true b = Crash c).
Proof.
  intros W Hlt. unfold writeToFile. rewrite (wf_getReadSize _ W).
  pose proof (length_contents _ W) as Hl. pose proof (wf_base _ W) as Hb.
  pose proof (wf_pos _ W) as Hpos. pose proof (wf_size _ W) as Hsz.
  pose proof (wf_flat_length _ W) as Hfl.
  rewrite (length_concat_uniform (Z.to_nat (m_baseSize b))) in Hfl by (destruct W; done || lia).
  destruct (wf_cursor b W) as (i & off & Hi & Hoff & Hp & Hcur & Hoffs); [lia|].
  assert (m_position b mod m_baseSize b = Z.of_nat off) as Hmod.
  { unfold offset_in in Hoffs. rewrite decide_False in Hoffs by lia. by injection Hoffs. }
  rewrite Hmod.
  set (n := Z.to_nat (m_size b - m_position b)).
  assert (drop (pos b) (contents b) = slice (pos b) n (concat (m_nodes b))) as Hout.
  { rewrite slice_contents by (done || (unfold pos, n; lia)).
    unfold slice. rewrite take_ge; [done|]. rewrite length_drop. unfold pos, n. lia. }
  replace (m_size b - m_position b) with (Z.of_nat n) in * by (unfold n; lia).
  assert (m_position b = Z.of_nat (pos b)) as Hmp by (unfold pos; lia).
  split.
  - intros Hor. rewrite Hout.
    destruct (decide (off = 0%nat)) as [->|Hne].
    { rewrite Hcur, Hmp, Hp, Nat.add_0_r.
      rewrite <- (cursor_split (Z.to_nat (m_baseSize b)) ltac:(lia) (length (m_nodes b)) i 0) by lia.
      rewrite Nat.add_0_r, file_loop_aligned by (done || unfold chain_fuel; lia). done. }
    unfold chain_fuel. rewrite (file_loop_first _ _ i off n) by (done || lia).
    set (bs := Z.to_nat (m_baseSize b)) in *.
    replace (Nat.min n bs - off)%nat with (bs - off)%nat by lia.
    rewrite (cursor_next bs) by lia.
    replace (m_position b + Z.of_nat (bs - off)) with (Z.of_nat (S i * bs)) by lia.
    replace (Z.of_nat n - Z.of_nat (bs - off)) with (Z.of_nat (n - (bs - off))) by lia.
    unfold bs at 1 2 3. rewrite file_loop_aligned by (done || lia).
    cbn [mbind outcome_bind]. do 2 f_equal. fold bs.
    replace n with ((bs - off) + (n - (bs - off)))%nat at 2 by lia.
    rewrite slice_app_split. do 2 f_equal. lia.
  - intros Hnor.
    destruct (decide (n < off)%nat) as [Hno|Hno].
    { destruct (file_loop_negative (chain_fuel b) b (m_cur b) (m_position b) (Z.of_nat n)
                  (Z.of_nat off)) as [c ->]; try done; try lia. by exists c. }
    destruct (decide (n = off)) as [->|Hne].
    { destruct (file_loop_stuck (chain_fuel b) b (m_cur b) (m_position b) (Z.of_nat off))
        as [c ->]; try done; try lia. by exists c. }
    unfold chain_fuel. rewrite (file_loop_first _ _ i off n) by (done || lia).
    replace (Nat.min n (Z.to_nat (m_baseSize b)) - off)%nat with (n - off)%nat by lia.
    destruct (file_loop_negative (S (length (m_nodes b))) b (node_next (m_nodes b) i)
                (m_position b + Z.of_nat (n - off)) (Z.of_nat n - Z.of_nat (n - off)) (Z.of_nat n))
      as [c ->]; [done|lia..| |by exists c].
    replace (m_position b + Z.of_nat (n - off))
      with (Z.of_nat (i * Z.to_nat (m_baseSize b) + n)) by lia.
    apply offset_in_split; lia.
Qed.
End file.

(** "abcdefghij" in four-byte blocks, the position moved to 5. *)
Definition sample_buffer : ByteArray :=
  (setPosition 5 (write (λ _ _, zero) (B "abcdefghij")
                    (new_ByteArray (λ _ _, zero) 4)).2).2.

Lemma sample_buffer_wf : wf sample_buffer.
Proof.
  split; try (vm_compute; done).
  - vm_compute. lia.
  - apply (bool_decide_unpack _). vm_compute. exact I.
Defined.

Lemma writeToFile_exact_witness :
  (m_position sample_buffer mod m_baseSize sample_buffer = 0 ∨
     m_baseSize sample_buffer <= m_size sample_buffer - m_position sample_buffer →
   writeToFile true sample_buffer = Ret (true, drop 5 (contents sample_buffer))) ∧
  (¬ (m_position sample_buffer mod m_baseSize sample_buffer = 0 ∨
     m_baseSize sample_buffer <= m_size sample_buffer - m_position sample_buffer) →
   ∃ c, writeToFile true sample_buffer = Crash c).
Proof. apply (writeToFile_exact sample_buffer sample_buffer_wf). vm_compute. done. Defined.

(* ------------------------------------------------------------------ *)
(** ** Reads that do not move the position, and segments *)

Section views.
Implicit Types b : ByteArray.

Lemma take_max_splice {A} i (d l : list A) s :
  (i ≤ s)%nat → (s ≤ length l)%nat → (i + length d ≤ length l)%nat →
  take (Nat.max s (i + length d)) (splice i d l) = splice i d (take s l).
Proof.
  intros Hi Hs Hd. destruct (decide (i + length d ≤ s)%nat).
  - rewrite Nat.max_l by lia. by apply take_splice_all.
  - rewrite Nat.max_r by lia. rewrite <- (take_drop s l) at 1.
    apply splice_extend; rewrite length_take; lia.
Qed.

(** [setPosition] leaves the blocks alone and only lets the size grow. *)
Lemma setPosition_data v b :
  m_nodes (setPosition v b).2 = m_nodes b ∧
  (v <= m_capacity b → m_size (setPosition v b).2 = Z.max (m_size b) v).
Proof.
  unfold setPosition. case_decide; [by split; [|intros; lia]|].
  destruct (seek_loop _ _ _ _) as [[[i|] w]|e|f]; [destruct (node_size _ _)|..];
    cbn; repeat case_decide; cbn in *; (split; [done|intros; lia]).
Qed.

(** [read(buf, size, position)] starts in the block of the buffer's
    own position, at the offset of [position] in a block: it returns
    the bytes at [position] when both lie in the same block, and the
    bytes of another place otherwise.  [toString], which passes the
    buffer's position, returns exactly the readable bytes. *)
Theorem read_at_current_block b :
  wf b →
  toString b = Ret (drop (pos b) (contents b)) ∧
  ∀ p n, (0 < n)%nat → Z.of_nat (p + n) <= m_size b → m_position b < m_capacity b →
    let q := (pos b / Z.to_nat (m_baseSize b) * Z.to_nat (m_baseSize b)
              + p mod Z.to_nat (m_baseSize b))%nat in
    Z.of_nat (q + n) <= m_capacity b →
    read_at (Z.of_nat n) (Z.of_nat p) b = Ret (slice q n (concat (m_nodes b))).
Proof.
  intros W.
  assert (∀ p n, (0 < n)%nat → Z.of_nat (p + n) <= m_size b → m_position b < m_capacity b →
    let q := (pos b / Z.to_nat (m_baseSize b) * Z.to_nat (m_baseSize b)
              + p mod Z.to_nat (m_baseSize b))%nat in
    Z.of_nat (q + n) <= m_capacity b →
    read_at (Z.of_nat n) (Z.of_nat p) b = Ret (slice q n (concat (m_nodes b)))) as Hat.
  { intros p n Hn Hin Hpc q Hq.
    destruct (wf_cursor b W) as (i & off & Hi & Hoff & Hp & Hcur & _); [done|].
    pose proof (wf_flat_length _ W) as Hfl.
    destruct (W) as [Hbs Hroot Hu Hcap Hpos Hsz Hmx Hcu].
    rewrite (length_concat_uniform (Z.to_nat (m_baseSize b))) in Hfl by (done || lia).
    pose proof (Nat.mod_upper_bound p (Z.to_nat (m_baseSize b)) ltac:(lia)).
    unfold read_at. rewrite wrapu_small by (unfold in_u, max_bytes in *; lia).
    rewrite decide_False by lia. unfold offset_in. rewrite decide_False by lia.
    rewrite Hcur, (node_size_uniform (Z.to_nat (m_baseSize b))) by done.
    cbn [mbind outcome_bind].
    assert (q = (i * Z.to_nat (m_baseSize b) + p mod Z.to_nat (m_baseSize b))%nat) as Hqe.
    { unfold q. by rewrite Hp, div_split by lia. }
    rewrite Hqe in *.
    rewrite (read_loop_spec (Z.to_nat (m_baseSize b)) ltac:(lia) _ _ i
               (p mod Z.to_nat (m_baseSize b)) n); try done; try lia.
    all: try (unfold chain_fuel; lia).
    all: rewrite Nat2Z.inj_mod, Z2Nat.id by lia; lia. }
  split; [|exact Hat].
  unfold toString. rewrite (wf_getReadSize _ W). pose proof (length_contents _ W) as Hl.
  destruct (W) as [Hbs Hroot Hu Hcap Hpos Hsz Hmx Hcu]. case_decide as Hz.
  - rewrite drop_ge; [done|]. unfold pos. lia.
  - set (n := Z.to_nat (m_size b - m_position b)).
    replace (m_size b - m_position b) with (Z.of_nat n) by (unfold n; lia).
    replace (m_position b) with (Z.of_nat (pos b)) at 1 by (unfold pos; lia).
    assert (pos b / Z.to_nat (m_baseSize b) * Z.to_nat (m_baseSize b)
            + pos b mod Z.to_nat (m_baseSize b) = pos b)%nat as Hq
      by (rewrite (Nat.div_mod_eq (pos b) (Z.to_nat (m_baseSize b))) at 3; lia).
    rewrite Hat by (rewrite ?Hq; unfold n, pos; lia). rewrite Hq.
    rewrite slice_contents by (done || (unfold pos, n; lia)).
    f_equal. unfold slice. rewrite take_ge; [done|]. rewrite length_drop. unfold pos, n. lia.
Qed.

(** The segments of a buffer were filled with [d]; the position is moved
    past it. *)
Lemma fill_advance b b1 nodes' d : wf b → wf b1 → m_position b1 = m_position b → contents b1 = contents b →
  wf (set_nodes nodes' b1) → concat nodes' = splice (pos b) d (concat (m_nodes b1)) →
  m_position b + Z.of_nat (length d) <= m_capacity b1 →
  ∃ b2, setPosition (m_position b + Z.of_nat (length d)) (set_nodes nodes' b1) = (Ret tt, b2) ∧
    wf b2 ∧ contents b2 = splice (pos b) d (contents b) ∧ pos b2 = (pos b + length d)%nat ∧ m_baseSize b2 = m_baseSize b1.
Proof.
  intros W W1 Hp1 Hc1 W' Hcat Hcap.
  pose proof (wf_pos _ W). pose proof (length_contents _ W) as HlW.
  pose proof (length_contents _ W1) as HlW1.
  destruct (setPosition_spec (m_position b + Z.of_nat (length d)) (set_nodes nodes' b1) W')
    as (b2 & junk & E2 & W2 & Hd2 & Hj & Hjl & Hp2 & _ & Hb2 & _); [cbn; lia|].
  exists b2. split_and!; try done; [|unfold pos in *; lia].
  destruct (setPosition_data (m_position b + Z.of_nat (length d)) (set_nodes nodes' b1))
    as [Hn2 Hs2]. rewrite E2 in Hn2, Hs2. cbn in Hn2, Hs2.
  assert (m_size b1 = m_size b) as Hsb by congruence.
  pose proof (wf_flat_length _ W1). pose proof (wf_size _ W1). rewrite <- Hc1.
  unfold contents. rewrite Hn2, Hs2, Hcat, Hsb by lia.
  rewrite <- (take_max_splice (pos b) d) by (unfold pos; lia).
  f_equal. unfold pos. lia.
Qed.

(** Segments for vectored input and output.  [getReadBuffers]
    names exactly the next readable bytes, in order, none of them
    outside a block; filling the segments of [getWriteBuffers] with
    the [k] bytes received and moving the position by [k] writes
    those bytes: what [SocketStream::read] relies on. *)
Theorem segments_exact garbage len b :
  wf b → 0 < len → m_position b + len + m_baseSize b <= max_bytes →
  (∃ iovs, getReadBuffers len b = Ret (Z.min len (m_size b - m_position b), iovs) ∧
     gather (m_nodes b) iovs
     = Ret (slice (pos b) (Z.to_nat (Z.min len (m_size b - m_position b))) (contents b))) ∧
  ∃ b1 iovs, getWriteBuffers garbage len b = (Ret (len, iovs), b1) ∧ wf b1 ∧
    contents b1 = contents b ∧ pos b1 = pos b ∧
    ∀ d, Z.of_nat (length d) <= len →
      ∃ nodes' b2, scatter iovs d (m_nodes b1) = Ret nodes' ∧
        setPosition (m_position b + Z.of_nat (length d)) (set_nodes nodes' b1) = (Ret tt, b2) ∧
        wf b2 ∧ contents b2 = splice (pos b) d (contents b) ∧
        pos b2 = (pos b + length d)%nat.
Proof.
  intros W Hlen Hmax. split; [apply (getReadBuffers_spec len b W); lia|].
  destruct (getWriteBuffers_fill garbage len b W Hlen Hmax)
    as (b1 & iovs & E & W1 & Hp1 & Hc1 & _ & Hfill).
  exists b1, iovs. split_and!; try done; [unfold pos; by rewrite Hp1|].
  intros d Hd. destruct (Hfill d Hd) as (nodes' & Hs & W' & Hcat & Hcap).
  destruct (fill_advance b b1 nodes' d) as (b2 & ? & ? & ? & ? & _); try done. by exists nodes', b2.
Qed.

(** A string cut short.  When the length prefix promises more
    bytes than are left, [readStringF32] throws [out_of_range]; the
    four bytes of the prefix are consumed, nothing else changes. *)
Theorem truncated_string_throws garbage host b v rest :
  room 0 b → in_u 32 v → Z.of_nat (length rest) < v →
  drop (pos b) (contents b) = mem_of (m_endian b) 4 v ++ rest →
  ∃ b', @readStringF32 _ (ByteArray_stream garbage) host b = (Throw out_of_range, b') ∧
    wf b' ∧ contents b' = contents b ∧ pos b' = (pos b + 4)%nat.
Proof.
  intros Hr Hv Hrest Hd. unfold readStringF32.
  destruct (reads_unsigned (HL := ByteArray_laws garbage) host (m_endian b) 4 v
              swap_width_4 Hv 0%nat b)
    as (b1 & E & [W1 _] & Hc1 & Hp1 & _); [done|done|by exists rest|].
  rewrite length_mem_of in Hp1. unfold bs_pos, bs_data, ByteArray_laws in Hc1, Hp1.
  exists b1. split; [|done].
  rewrite (stE_bind_ret _ _ _ _ _ E). unfold read_chars, in_u in *.
  rewrite decide_False by lia. apply read_short; [done|].
  rewrite Hc1. apply (f_equal length) in Hd.
  rewrite length_drop, length_app, length_mem_of in Hd. unfold pos in *.
  pose proof (wf_pos _ W1). lia.
Qed.
End views.

Lemma read_at_current_block_witness :
  toString sample_buffer = Ret (drop (pos sample_buffer) (contents sample_buffer)) ∧
  ∀ p n, (0 < n)%nat → Z.of_nat (p + n) <= m_size sample_buffer →
    m_position sample_buffer < m_capacity sample_buffer →
    let q := (pos sample_buffer / Z.to_nat (m_baseSize sample_buffer)
                * Z.to_nat (m_baseSize sample_buffer)
              + p mod Z.to_nat (m_baseSize sample_buffer))%nat in
    Z.of_nat (q + n) <= m_capacity sample_buffer →
    read_at (Z.of_nat n) (Z.of_nat p) sample_buffer
    = Ret (slice q n (concat (m_nodes sample_buffer))).
Proof. apply (read_at_current_block sample_buffer sample_buffer_wf). Defined.

(** Asked for the bytes at 1 while the position is 5, the reader answers
    with those at 5. *)
Example read_at_other_block :
  contents sample_buffer = B "abcdefghij" ∧ read_at 2 1 sample_buffer = Ret (B "fg").
Proof. vm_compute. done. Qed.

Lemma segments_exact_witness :
  (∃ iovs, getReadBuffers 3 sample_buffer = Ret (Z.min 3 5, iovs) ∧
     gather (m_nodes sample_buffer) iovs = Ret (slice 5 3 (contents sample_buffer))) ∧
  ∃ b1 iovs, getWriteBuffers (λ _ _, zero) 3 sample_buffer = (Ret (3, iovs), b1) ∧ wf b1 ∧
    contents b1 = contents sample_buffer ∧ pos b1 = pos sample_buffer ∧
    ∀ d, Z.of_nat (length d) <= 3 →
      ∃ nodes' b2, scatter iovs d (m_nodes b1) = Ret nodes' ∧
        setPosition (m_position sample_buffer + Z.of_nat (length d)) (set_nodes nodes' b1)
        = (Ret tt, b2) ∧
        wf b2 ∧ contents b2 = splice (pos sample_buffer) d (contents sample_buffer) ∧
        pos b2 = (pos sample_buffer + length d)%nat.
Proof.
  apply (segments_exact (λ _ _, zero) 3 sample_buffer sample_buffer_wf); vm_compute; congruence.
Defined.

(** The prefix says 300, four bytes follow. *)
Definition short_string : ByteArray :=
  (setPosition 0 (write (λ _ _, zero) (mem_of SYLAR_BIG_ENDIAN 4 300 ++ B "abcd")
                    (new_ByteArray (λ _ _, zero) 4)).2).2.

Lemma truncated_string_throws_witness :
  ∃ b', @readStringF32 _ (ByteArray_stream (λ _ _, zero)) SYLAR_LITTLE_ENDIAN short_string
        = (Throw out_of_range, b') ∧
    wf b' ∧ contents b' = contents short_string ∧ pos b' = (pos short_string + 4)%nat.
Proof.
  apply (truncated_string_throws (λ _ _, zero) SYLAR_LITTLE_ENDIAN short_string 300 (B "abcd")).
  - split; [|vm_compute; congruence]. split; try (vm_compute; done).
    + vm_compute. lia.
    + apply (bool_decide_unpack _). vm_compute. exact I.
  - vm_compute. split; congruence.
  - vm_compute. congruence.
  - vm_compute. done.
Defined.

(** An empty string at the end of the last block cannot be read back:
    the reader looks into a block that is not there. *)
Example empty_string_faults :
  (@readStringF32 _ (ByteArray_stream (λ _ _, zero)) SYLAR_LITTLE_ENDIAN
     (setPosition 0 (@writeStringF32 _ (ByteArray_stream (λ _ _, zero)) SYLAR_LITTLE_ENDIAN []
        (new_ByteArray (λ _ _, zero) 4)).2).2).1 = Crash null_deref.
Proof. vm_compute. done. Qed.
