(* ===== verification/Stream.v ===== *)
(** * Streams ([stream.h], [stream.cc])

    The loops that read or write exactly so many bytes over a [read] or
    [write] that may move fewer.  The stream is a state [S]; the virtual
    functions are parameters: with the offset in the buffer and the bytes left,
    or with the bytes left only where the data are in a [ByteArray]. *)
From S2P Require Import Prelude.

Local Open Scope Z_scope.

Section stream.
Context {S : Type}.

(** [while(left > 0)]: every round moves at least a byte or ends. *)
Fixpoint fix_loop (fuel : nat) (move : Z → Z → stE S Z) (offset left : Z) : stE S (option Z) :=
  match fuel with
  | O => crash no_fuel
  | Datatypes.S f =>
      if 0 <? left then
        len ← move offset left;
        if len <=? 0 then mret (Some (i32 len))
        else fix_loop f move (u64 (offset + len)) (left - len)
      else mret None
  end.

Definition fix_size (move : Z → Z → stE S Z) (length : Z) : stE S Z :=
  let left := i64 length in
  r ← fix_loop (Datatypes.S (Z.to_nat left)) move 0 left;
  mret (match r with Some len => len | None => i32 length end).

Context (read write : Z → Z → stE S Z) (read_ba write_ba : Z → stE S Z).

(* sylar/stream.cc:5-17, Stream::readFixSize *)
Definition readFixSize (length : Z) : stE S Z := fix_size read length.
(* sylar/stream.cc:19-29, Stream::readFixSize *)
Definition readFixSize_ba (length : Z) : stE S Z := fix_size (λ _, read_ba) length.
(* sylar/stream.cc:31-44, Stream::writeFixSize *)
Definition writeFixSize (length : Z) : stE S Z := fix_size write length.
(* sylar/stream.cc:46-56, Stream::writeFixSize *)
Definition writeFixSize_ba (length : Z) : stE S Z := fix_size (λ _, write_ba) length.

(** What [read] and [write] promise the loops: from a state that is ready to
    move [l] bytes they return, having moved what they say, at most what
    they were asked to, as an [int].  [moved k] relates the states before and after [k]
    bytes were moved. *)
Record moves_law (ready : Z → S → Prop) (moved : Z → S → S → Prop) (move : Z → Z → stE S Z) : Prop := {
  law_none l s : ready l s → moved 0 s s;
  law_more a b s1 s2 s3 : 0 <= a → 0 <= b → moved a s1 s2 → moved b s2 s3 → moved (a + b) s1 s3;
  law_move o l s : 0 < l → ready l s → ∃ len s', move o l s = (Ret len, s') ∧ - 2 ^ 31 <= len <= l ∧
    moved (Z.max 0 len) s s' ∧ (0 < len → ready (l - len) s')
}.

Lemma fix_loop_spec ready moved move fuel offset left s : moves_law ready moved move →
  (Z.to_nat left < fuel)%nat → 0 <= left → ready left s →
  ∃ r s', fix_loop fuel move offset left s = (Ret r, s') ∧
    match r with
    | None => moved left s s'
    | Some e => ∃ k, 0 <= k < left ∧ moved k s s' ∧ e <= 0
    end.
Proof.
  intros Hlaw. revert offset left s. induction fuel as [|f IH]; intros offset left s Hf Hl Hr; [lia|].
  cbn [fix_loop]. destruct (Z.ltb_spec 0 left) as [Hp|Hp].
  2:{ assert (left = 0) as -> by lia. exists None, s. split; [done|]. by apply (law_none _ _ _ Hlaw) in Hr. }
  destruct (law_move _ _ _ Hlaw offset left s Hp Hr) as (len & s1 & E & Hle & Hmv & Hrd).
  rewrite (stE_bind_ret _ _ _ _ _ E). destruct (Z.leb_spec len 0) as [Hlen|Hlen].
  - exists (Some (i32 len)), s1. split; [done|]. rewrite Z.max_l in Hmv by lia. exists 0.
    rewrite wraps_small by (done || (unfold in_s; change (32 - 1) with 31; lia)). split_and!; done || lia.
  - rewrite Z.max_r in Hmv by lia.
    destruct (IH (u64 (offset + len)) (left - len) s1) as (r & s2 & E2 & H2); [lia|lia|by apply Hrd|].
    exists r, s2. split; [done|]. destruct r as [e|].
    + destruct H2 as (k & Hk & Hm2 & ?). exists (len + k). split_and!; try lia; try done.
      apply (law_more _ _ _ Hlaw) with s1; [lia|lia|done|done].
    + replace left with (len + (left - len)) by lia. apply (law_more _ _ _ Hlaw) with s1; [lia|lia|done|done].
Qed.

(** For a length below 2^31 the loops end; they return the length after
    exactly that many bytes were moved, or the first result that was not
    positive with fewer moved.  From 2^31 on the length comes back from the
    conversion to [int] as something else, although everything was moved. *)
Theorem fix_size_exact ready moved move length s : moves_law ready moved move → 0 <= length < 2 ^ 63 → ready length s →
  ∃ r s', fix_size move length s = (Ret r, s') ∧
    ((∃ k, 0 <= k < length ∧ moved k s s' ∧ r <= 0) ∨
     moved length s s' ∧ r = i32 length ∧ (length < 2 ^ 31 → r = length) ∧
     (2 ^ 31 <= length < 2 ^ 32 → r < 0)).
Proof.
  intros Hlaw Hl Hr. assert (i64 length = length) as El
    by (apply wraps_small; [done|]; unfold in_s; change (64 - 1) with 63; lia).
  unfold fix_size. rewrite El.
  destruct (fix_loop_spec ready moved move (Datatypes.S (Z.to_nat length)) 0 length s Hlaw) as (r & s' & E & Hrs); [lia|lia|done|].
  cbv zeta. rewrite (stE_bind_ret _ _ _ _ _ E). eexists _, s'. split; [reflexivity|].
  destruct r as [e|]; [left|right].
  - done.
  - split_and!; [done|done|..].
    + intros Hs. apply wraps_small; [done|]. unfold in_s. change (32 - 1) with 31. lia.
    + intros Hs. unfold wraps. change (2 ^ (32 - 1)) with (2 ^ 31). cbv zeta.
      rewrite Z.mod_small by lia. rewrite decide_False by lia. lia.
Qed.
End stream.

(** A stream that takes three bytes at a time, until its hundred are full. *)
Definition slow_write (o l : Z) : stE Z Z := λ s,
  if s + Z.min 3 l <=? 100 then (Ret (Z.min 3 l), s + Z.max 0 (Z.min 3 l)) else (Ret (-1), s).
Definition counted (k s s' : Z) : Prop := s' = s + k.

Lemma slow_write_law : moves_law (λ _ _, True) counted slow_write.
Proof.
  split; unfold counted; [intros; lia..|]. intros o l s Hl _. unfold slow_write. assert (- 2 ^ 31 <= -1) by done.
  destruct (_ <=? 100); do 2 eexists; (split; [reflexivity|]); split_and!; done || lia.
Qed.

Lemma fix_size_exact_witness :
  (∃ r s', fix_size slow_write 40 70 = (Ret r, s') ∧
    ((∃ k, 0 <= k < 40 ∧ counted k 70 s' ∧ r <= 0) ∨
     counted 40 70 s' ∧ r = i32 40 ∧ (40 < 2 ^ 31 → r = 40) ∧ (2 ^ 31 <= 40 < 2 ^ 32 → r < 0))) ∧
  fix_size slow_write 40 70 = (Ret (-1), 100) ∧ fix_size slow_write 20 70 = (Ret 20, 90).
Proof.
  split; [|split; vm_compute; reflexivity].
  apply (fix_size_exact _ counted slow_write 40 70 slow_write_law); done.
Defined.
