(* ===== verification/Timer.v ===== *)
(** * Timers ([timer.h], [timer.cc])

    The timers live in a heap keyed by address; the manager keeps the
    [std::set] of pointers ordered by expiry time and address.  Every
    operation runs under the manager's write lock, except that the clock
    is read before the lock is taken: the reading is an argument, with no
    assumption that it grows, so that any interleaving of callers is some
    sequence of these operations. *)
From S2P Require Import Prelude OrderedSet.
From stdpp Require Import sorting.

Local Open Scope Z_scope.

(** A callback; the empty [std::function] is [None]. *)
Section timer.
Context {Cb : Type}.

(* sylar/timer.h:58-67, Timer *)
Record Timer := mkTimer {
  m_recurring : bool;
  m_ms : Z;
  m_next : Z;
  m_cb : option Cb
}.

(* sylar/timer.h:159-164, TimerManager *)
Record TimerManager := mkTimerManager {
  m_heap : gmap Z Timer;
  m_timers : list Z;
  m_tickled : bool;
  m_previouseTime : Z
}.

Implicit Types (h : gmap Z Timer) (s : TimerManager) (p : Z).

Definition set_timers l s := mkTimerManager (m_heap s) l (m_tickled s) (m_previouseTime s).
Definition set_heap h s := mkTimerManager h (m_timers s) (m_tickled s) (m_previouseTime s).
Definition set_tickled b s := mkTimerManager (m_heap s) (m_timers s) b (m_previouseTime s).
Definition set_previous t s := mkTimerManager (m_heap s) (m_timers s) (m_tickled s) t.

Definition next_of h p : Z := from_option m_next 0 (h !! p).

(* sylar/timer.cc:7-25, Timer::Comparator::operator() *)
Definition comparator h (lhs rhs : option Z) : bool :=
  match lhs, rhs with
  | None, None => false
  | None, Some _ => true
  | Some _, None => false
  | Some l, Some r =>
      if decide (next_of h l < next_of h r) then true
      else if decide (next_of h r < next_of h l) then false
      else bool_decide (l < r)
  end.

Definition less h p q : bool := comparator h (Some p) (Some q).

(* sylar/timer.cc:28-35, Timer::Timer *)
Definition new_timer (now ms : Z) (cb : option Cb) (recurring : bool) : Timer :=
  mkTimer recurring ms (u64 (now + ms)) cb.

(* sylar/timer.cc:37-39, Timer::Timer *)
Definition probe_timer (next : Z) : Timer := mkTimer false 0 next None.

(* sylar/timer.cc:93-95, TimerManager::TimerManager *)
Definition new_manager (now : Z) : TimerManager := mkTimerManager ∅ [] false now.

(** The timer a handle points to. *)
Definition deref p : stE TimerManager Timer := λ s,
  match m_heap s !! p with Some t => (Ret t, s) | None => (Crash null_deref, s) end.

Definition store p (t : Timer) : stE TimerManager unit := modify (λ s, set_heap (<[p := t]> (m_heap s)) s).

(** [m_timers.find(shared_from_this())] and [m_timers.erase(it)]. *)
Definition find_timer p : stE TimerManager (option nat) :=
  query (λ s, Ret (set_find (less (m_heap s)) p (m_timers s))).

Definition erase_timer (it : option nat) : stE TimerManager unit := λ s,
  match set_erase it (m_timers s) with
  | Ret l => (Ret tt, set_timers l s)
  | Throw e => (Throw e, s)
  | Crash c => (Crash c, s)
  end.

Definition insert_timer p : stE TimerManager nat := λ s,
  let '(l, i) := set_insert (less (m_heap s)) p (m_timers s) in (Ret i, set_timers l s).

(** The protected [addTimer]: the result says whether
    [onTimerInsertedAtFront] is called once the lock is released. *)
(* sylar/timer.cc:179-190, TimerManager::addTimer *)
Definition addTimer_locked p : stE TimerManager bool :=
  i ← insert_timer p;
  s ← get;
  let at_front := bool_decide (i = 0%nat) && negb (m_tickled s) in
  if at_front then _ ← modify (set_tickled true); mret true else mret false.

(** [p] is the address the allocator gives the new timer. *)
(* sylar/timer.cc:100-106, TimerManager::addTimer *)
Definition addTimer (p now ms : Z) (cb : option Cb) (recurring : bool) : stE TimerManager bool :=
  _ ← store p (new_timer now ms cb recurring);
  addTimer_locked p.

(* sylar/timer.cc:41-50, Timer::cancel *)
Definition cancel p : stE TimerManager bool :=
  t ← deref p;
  match m_cb t with
  | Some _ =>
      _ ← store p (mkTimer (m_recurring t) (m_ms t) (m_next t) None);
      it ← find_timer p;
      _ ← erase_timer it;
      mret true
  | None => mret false
  end.

(* sylar/timer.cc:52-65, Timer::refresh *)
Definition refresh (p now : Z) : stE TimerManager bool :=
  t ← deref p;
  match m_cb t with
  | None => mret false
  | Some cb =>
      it ← find_timer p;
      match it with
      | None => mret false
      | Some _ =>
          _ ← erase_timer it;
          _ ← store p (mkTimer (m_recurring t) (m_ms t) (u64 (now + m_ms t)) (m_cb t));
          _ ← insert_timer p;
          mret true
      end
  end.

(** The result and whether [onTimerInsertedAtFront] was called. *)
(* sylar/timer.cc:67-91, Timer::reset *)
Definition reset (p now ms : Z) (from_now : bool) : stE TimerManager (bool * bool) :=
  t ← deref p;
  if bool_decide (ms = m_ms t) && negb from_now then mret (true, false)
  else
    match m_cb t with
    | None => mret (false, false)
    | Some cb =>
        it ← find_timer p;
        match it with
        | None => mret (false, false)
        | Some _ =>
            _ ← erase_timer it;
            let start := if from_now then now else u64 (m_next t - m_ms t) in
            _ ← store p (mkTimer (m_recurring t) ms (u64 (start + ms)) (m_cb t));
            front ← addTimer_locked p;
            mret (true, front)
        end
    end.

(* sylar/timer.cc:121-135, TimerManager::getNextTimer *)
Definition getNextTimer (now : Z) : stE TimerManager Z :=
  _ ← modify (set_tickled false);
  s ← get;
  match m_timers s with
  | [] => mret (2 ^ 64 - 1)
  | p :: _ =>
      next ← deref p;
      if decide (m_next next <= now) then mret 0 else mret (u64 (m_next next - now))
  end.

(* sylar/timer.cc:192-200, TimerManager::detectClockRollover *)
Definition detectClockRollover (now : Z) : stE TimerManager bool :=
  s ← get;
  _ ← modify (set_previous now);
  mret (bool_decide (now < m_previouseTime s)
        && bool_decide (now < u64 (m_previouseTime s - 60 * 60 * 1000))).

(** [while(it != m_timers.end() && ( *it)->m_next == now_ms) ++it] *)
Fixpoint skip_equal h (now : Z) (l : list Z) : nat :=
  match l with
  | p :: l' => if decide (next_of h p = now) then S (skip_equal h now l') else 0
  | [] => 0
  end.

(** The loop over the expired timers. *)
Fixpoint fire_loop (now : Z) (expired : list Z) : stE TimerManager (list (option Cb)) :=
  match expired with
  | [] => mret []
  | p :: expired' =>
      t ← deref p;
      _ ← (if m_recurring t then
             _ ← store p (mkTimer true (m_ms t) (u64 (now + m_ms t)) (m_cb t));
             _ ← insert_timer p; mret tt
           else store p (mkTimer false (m_ms t) (m_next t) None));
      cbs ← fire_loop now expired';
      mret (m_cb t :: cbs)
  end.

(** [p] is the address of the probe the search is made with. *)
(* sylar/timer.cc:137-177, TimerManager::listExpiredCb *)
Definition listExpiredCb (p now : Z) : stE TimerManager (list (option Cb)) :=
  s ← get;
  match m_timers s with
  | [] => mret []
  | q :: _ =>
      rollover ← detectClockRollover now;
      first ← deref q;
      if negb rollover && bool_decide (now < m_next first) then mret []
      else
        let h := <[p := probe_timer now]> (m_heap s) in
        let i := if rollover then length (m_timers s)
                 else
                   let i := lower_bound (less h) p (m_timers s) in
                   (i + skip_equal h now (drop i (m_timers s)))%nat in
        let expired := take i (m_timers s) in
        _ ← modify (set_timers (drop i (m_timers s)));
        fire_loop now expired
  end.

(* sylar/timer.cc:202-205, TimerManager::hasTimer *)
Definition hasTimer s : bool := match m_timers s with [] => false | _ => true end.

(* ------------------------------------------------------------------ *)
(** ** Well-formed managers *)

(** The set is sorted, its pointers are live, and the timers that still
    have a callback are exactly among its elements. *)
Record wf s : Prop := {
  wf_sorted : sorted (less (m_heap s)) (m_timers s);
  wf_live p : p ∈ m_timers s → is_Some (m_heap s !! p);
  wf_armed p t : m_heap s !! p = Some t → is_Some (m_cb t) → p ∈ m_timers s;
  wf_words p t : m_heap s !! p = Some t → in_u 64 (m_next t)
}.

#[global] Instance less_total h : StrictTotal (less h).
Proof.
  split; unfold less, comparator.
  - intros p. repeat case_decide; try lia. case_bool_decide; [lia|done].
  - intros p q r. repeat case_decide; rewrite ?bool_decide_eq_true; try lia; done.
  - intros p q. repeat case_decide; rewrite ?bool_decide_eq_false; intros; lia || done.
Qed.

Lemma less_next h p q : less h p q = true → next_of h p <= next_of h q.
Proof. unfold less, comparator. repeat case_decide; done || lia. Qed.

Lemma not_less_next h p q : less h p q = false → next_of h q <= next_of h p.
Proof. unfold less, comparator. repeat case_decide; done || lia. Qed.

Lemma next_of_insert_ne h p q t : p ≠ q → next_of (<[p := t]> h) q = next_of h q.
Proof. intros. unfold next_of. by rewrite lookup_insert_ne. Qed.

Lemma next_of_insert h p t : next_of (<[p := t]> h) p = m_next t.
Proof. unfold next_of. by rewrite lookup_insert_eq. Qed.

(** Writing to a timer that is not in the set keeps the order. *)
Lemma sorted_insert_other h p t l : p ∉ l → sorted (less h) l → sorted (less (<[p := t]> h)) l.
Proof.
  intros Hp. apply sorted_ext. intros x y Hx Hy. unfold less, comparator.
  rewrite !next_of_insert_ne by (intros ->; done). done.
Qed.

Lemma new_manager_wf now : wf (new_manager now).
Proof. split; cbn; try set_solver. constructor. Qed.

Lemma insert_timer_spec p s :
  sorted (less (m_heap s)) (m_timers s) → p ∉ m_timers s →
  ∃ l i, insert_timer p s = (Ret i, set_timers l s) ∧ sorted (less (m_heap s)) l ∧
    l ≡ₚ p :: m_timers s ∧ (i = 0%nat ↔ Forall (λ q, less (m_heap s) p q = true) (m_timers s)).
Proof.
  intros Hs Hp. unfold insert_timer.
  destruct (set_insert_spec (less (m_heap s)) p (m_timers s) Hs Hp) as (l & i & -> & ?).
  by exists l, i.
Qed.

Lemma erase_find_spec p s :
  sorted (less (m_heap s)) (m_timers s) → p ∈ m_timers s →
  ∃ i l, set_find (less (m_heap s)) p (m_timers s) = Some i ∧
    erase_timer (Some i) s = (Ret tt, set_timers l s) ∧
    sorted (less (m_heap s)) l ∧ m_timers s ≡ₚ p :: l ∧ p ∉ l.
Proof.
  intros Hs Hp. destruct (set_find_elem (less (m_heap s)) p (m_timers s) Hs Hp) as [i Hi].
  destruct (set_erase_find (less (m_heap s)) p (m_timers s) Hs Hp) as (l & E & ?).
  exists i, l. rewrite Hi in E. unfold erase_timer. rewrite E. done.
Qed.

(** Putting a timer that is out of the set back in it. *)
Lemma wf_reinsert s p t l : wf s → in_u 64 (m_next t) → m_timers s ≡ₚ p :: l → p ∉ l →
  sorted (less (m_heap s)) l →
  ∃ l' i, insert_timer p (set_heap (<[p := t]> (m_heap s)) (set_timers l s))
      = (Ret i, set_heap (<[p := t]> (m_heap s)) (set_timers l' s)) ∧
    wf (set_heap (<[p := t]> (m_heap s)) (set_timers l' s)) ∧ l' ≡ₚ p :: l ∧
    (i = 0%nat ↔ Forall (λ q, less (<[p := t]> (m_heap s)) p q = true) l).
Proof.
  intros [Hso Hli Har Hwo] Ht HP Hp Hs.
  destruct (insert_timer_spec p (set_heap (<[p := t]> (m_heap s)) (set_timers l s)))
    as (l' & i & E & Hs' & HP' & Hi); [by apply sorted_insert_other|done|].
  cbn in *. exists l', i. split_and!; try done. split; cbn.
  - done.
  - intros q Hq. destruct (decide (q = p)) as [->|Hne]; [by rewrite lookup_insert_eq|].
    rewrite lookup_insert_ne by done. apply Hli. rewrite HP. by rewrite HP' in Hq.
  - intros q u Hq Hcb. rewrite HP', <- HP. destruct (decide (q = p)) as [->|Hne].
    + rewrite HP. by left.
    + rewrite lookup_insert_ne in Hq by done. by eapply Har.
  - intros q u Hq. destruct (decide (q = p)) as [->|Hne].
    + rewrite lookup_insert_eq in Hq. by injection Hq as <-.
    + rewrite lookup_insert_ne in Hq by done. by eapply Hwo.
Qed.

(* ------------------------------------------------------------------ *)
(** ** What each operation does *)

Lemma deref_live p t s : m_heap s !! p = Some t → deref p s = (Ret t, s).
Proof. intros H. unfold deref. by rewrite H. Qed.

(** The timer is in the set afterwards, at the front exactly when its
    expiry (then address) comes first; a front insertion is signalled
    once until [getNextTimer] looks. *)
Lemma addTimer_locked_spec p s1 l' i s :
  insert_timer p s1 = (Ret i, set_timers l' s) →
  addTimer_locked p s1
  = (Ret (bool_decide (i = 0%nat) && negb (m_tickled s)),
     set_tickled (bool_decide (i = 0%nat) || m_tickled s) (set_timers l' s)).
Proof.
  intros E. unfold addTimer_locked. rewrite (stE_bind_ret _ _ _ _ _ E).
  rewrite (stE_bind_ret _ get _ _ _ eq_refl). cbn [m_tickled set_timers].
  destruct (bool_decide (i = 0%nat)), (m_tickled s) eqn:Et; cbn; rewrite ?Et; try done.
  all: unfold mret, stE_ret; do 2 f_equal; destruct s; cbn in *; by subst.
Qed.

Lemma wf_tickled b s : wf s → wf (set_tickled b s).
Proof. by intros []; split. Qed.

Lemma addTimer_spec p now ms cb recurring s :
  wf s → m_heap s !! p = None →
  let t := new_timer now ms cb recurring in
  ∃ i l, addTimer p now ms cb recurring s
      = (Ret (bool_decide (i = 0%nat) && negb (m_tickled s)),
         set_tickled (bool_decide (i = 0%nat) || m_tickled s)
           (set_timers l (set_heap (<[p := t]> (m_heap s)) s))) ∧
    wf (set_timers l (set_heap (<[p := t]> (m_heap s)) s)) ∧ l ≡ₚ p :: m_timers s ∧
    (i = 0%nat ↔ Forall (λ q, less (<[p := t]> (m_heap s)) p q = true) (m_timers s)).
Proof.
  intros W Hp t. destruct (W) as [Hso Hli Har Hwo].
  assert (p ∉ m_timers s) as Hnin.
  { intros Hin. destruct (Hli p Hin). congruence. }
  destruct (insert_timer_spec p (set_heap (<[p := t]> (m_heap s)) s))
    as (l & i & E & Hs' & HP & Hi); [by apply sorted_insert_other|done|].
  exists i, l. split_and!; try done; [exact (addTimer_locked_spec p _ l i _ E)|].
  cbn in *. split; cbn; [done|..].
  - intros q Hq. destruct (decide (q = p)) as [->|Hne]; [by rewrite lookup_insert_eq|].
    rewrite lookup_insert_ne by done. apply Hli. rewrite HP in Hq. by apply elem_of_cons in Hq as [?|?].
  - intros q u Hq Hcb. rewrite HP. destruct (decide (q = p)) as [->|Hne]; [by left|].
    right. rewrite lookup_insert_ne in Hq by done. by eapply Har.
  - intros q u Hq. destruct (decide (q = p)) as [->|Hne].
    + rewrite lookup_insert_eq in Hq. injection Hq as <-. by apply wrapu_range.
    + rewrite lookup_insert_ne in Hq by done. by eapply Hwo.
Qed.

(** A second [cancel] finds no callback; the first always finds the timer
    in the set. *)
Lemma cancel_spec p t s : wf s → m_heap s !! p = Some t →
  match m_cb t with
  | None => cancel p s = (Ret false, s)
  | Some _ => ∃ l, cancel p s = (Ret true, set_timers l
        (set_heap (<[p := mkTimer (m_recurring t) (m_ms t) (m_next t) None]> (m_heap s)) s)) ∧
      (m_timers s ≡ₚ p :: l) ∧ (p ∉ l) ∧
      wf (set_timers l
        (set_heap (<[p := mkTimer (m_recurring t) (m_ms t) (m_next t) None]> (m_heap s)) s))
  end.
Proof.
  intros W Hp. destruct (W) as [Hso Hli Har Hwo].
  unfold cancel. rewrite (stE_bind_ret _ _ _ _ _ (deref_live p t s Hp)).
  destruct (m_cb t) as [cb|] eqn:Hcb; [|done].
  assert (p ∈ m_timers s) as Hin by (eapply Har; [done|by rewrite Hcb]).
  set (t' := mkTimer _ _ _ None).
  assert (∀ x y, less (<[p := t']> (m_heap s)) x y = less (m_heap s) x y) as Hext.
  { intros x y. unfold less, comparator.
    assert (∀ z, next_of (<[p := t']> (m_heap s)) z = next_of (m_heap s) z) as Hn.
    { intros z. destruct (decide (z = p)) as [->|?]; [|by apply next_of_insert_ne].
      rewrite next_of_insert. unfold next_of. by rewrite Hp. }
    by rewrite !Hn. }
  destruct (erase_find_spec p (set_heap (<[p := t']> (m_heap s)) s))
    as (i & l & Ef & Ee & Hs & HP & Hnin); [|done|].
  { eapply sorted_ext; [|exact Hso]. intros. by rewrite Hext. }
  exists l. rewrite (stE_bind_ret _ (store p t') _ tt _ eq_refl).
  rewrite (stE_bind_ret _ (find_timer p) _ (Some i) (set_heap (<[p := t']> (m_heap s)) s))
    by (unfold find_timer, query; by rewrite Ef).
  rewrite (stE_bind_ret _ _ _ _ _ Ee). cbn in *. split_and!; try done.
  split; cbn; [done|..].
  - intros q Hq. rewrite lookup_insert_ne by (intros ->; done).
    apply Hli. rewrite HP. by right.
  - intros q u Hq Hcbq. destruct (decide (q = p)) as [->|Hne].
    + rewrite lookup_insert_eq in Hq. injection Hq as <-. by destruct Hcbq.
    + rewrite lookup_insert_ne in Hq by done. specialize (Har q u Hq Hcbq). rewrite HP in Har.
      by apply elem_of_cons in Har as [?|?].
  - intros q u Hq. destruct (decide (q = p)) as [->|Hne].
    + rewrite lookup_insert_eq in Hq. injection Hq as <-. by eapply (Hwo p t).
    + rewrite lookup_insert_ne in Hq by done. by eapply Hwo.
Qed.

Lemma refresh_spec p t now s : wf s → m_heap s !! p = Some t →
  match m_cb t with
  | None => refresh p now s = (Ret false, s)
  | Some _ =>
      let t' := mkTimer (m_recurring t) (m_ms t) (u64 (now + m_ms t)) (m_cb t) in
      ∃ l, refresh p now s
           = (Ret true, set_heap (<[p := t']> (m_heap s)) (set_timers l s)) ∧
        wf (set_heap (<[p := t']> (m_heap s)) (set_timers l s)) ∧ (l ≡ₚ m_timers s)
  end.
Proof.
  intros W Hp. unfold refresh. rewrite (stE_bind_ret _ _ _ _ _ (deref_live p t s Hp)).
  destruct (m_cb t) as [cb|] eqn:Hcb; [|done].
  set (t' := mkTimer _ _ _ _). cbn zeta.
  assert (p ∈ m_timers s) as Hin by (eapply wf_armed; [done..|by rewrite Hcb]).
  destruct (erase_find_spec p s (wf_sorted _ W) Hin) as (i & l & Ef & Ee & Hs & HP & Hnin).
  destruct (wf_reinsert s p t' l W) as (l' & j & E & W' & HP' & _); try done;
    [by apply wrapu_range|].
  exists l'. rewrite (stE_bind_ret _ (find_timer p) _ (Some i) s)
    by (unfold find_timer, query; by rewrite Ef).
  rewrite (stE_bind_ret _ _ _ _ _ Ee), (stE_bind_ret _ (store p t') _ tt _ eq_refl).
  rewrite (stE_bind_ret _ _ _ _ _ E). split_and!; try done. by rewrite HP', HP.
Qed.

Lemma reset_spec p t now ms from_now s : wf s → m_heap s !! p = Some t →
  reset p now ms from_now s = (Ret (true, false), s) ∨
  reset p now ms from_now s = (Ret (false, false), s) ∨
  ∃ t' l l' i, reset p now ms from_now s
    = (Ret (true, bool_decide (i = 0%nat) && negb (m_tickled s)),
       set_tickled (bool_decide (i = 0%nat) || m_tickled s)
         (set_heap (<[p := t']> (m_heap s)) (set_timers l' s))) ∧
    wf (set_heap (<[p := t']> (m_heap s)) (set_timers l' s)) ∧
    (m_timers s ≡ₚ p :: l) ∧ (p ∉ l) ∧ (l' ≡ₚ p :: l) ∧
    t' = mkTimer (m_recurring t) ms
           (u64 ((if from_now then now else u64 (m_next t - m_ms t)) + ms)) (m_cb t) ∧
    (i = 0%nat ↔ Forall (λ q, less (<[p := t']> (m_heap s)) p q = true) l).
Proof.
  intros W Hp. unfold reset. rewrite (stE_bind_ret _ _ _ _ _ (deref_live p t s Hp)).
  destruct (bool_decide (ms = m_ms t) && negb from_now); [by left|].
  destruct (m_cb t) as [cb|] eqn:Hcb; [|by right; left].
  right; right. set (t' := mkTimer _ _ _ _).
  assert (p ∈ m_timers s) as Hin by (eapply wf_armed; [done..|by rewrite Hcb]).
  destruct (erase_find_spec p s (wf_sorted _ W) Hin) as (i & l & Ef & Ee & Hs & HP & Hnin).
  destruct (wf_reinsert s p t' l W) as (l' & j & E & W' & HP' & Hj); try done;
    [by apply wrapu_range|].
  exists t', l, l', j. rewrite (stE_bind_ret _ (find_timer p) _ (Some i) s)
    by (unfold find_timer, query; by rewrite Ef).
  rewrite (stE_bind_ret _ _ _ _ _ Ee), (stE_bind_ret _ (store p t') _ tt _ eq_refl).
  rewrite (stE_bind_ret _ _ _ _ _
             (addTimer_locked_spec p _ l' j (set_heap (<[p := t']> (m_heap s)) s) E)).
  split_and!; done.
Qed.

Lemma getNextTimer_spec now s : wf s → 0 <= now →
  ∃ w, getNextTimer now s = (Ret w, set_tickled false s) ∧
    match m_timers s with
    | [] => w = 2 ^ 64 - 1
    | p :: _ => w = Z.max 0 (next_of (m_heap s) p - now)
    end.
Proof.
  intros W Hnow. unfold getNextTimer.
  rewrite (stE_bind_ret _ (modify _) _ tt (set_tickled false s) eq_refl).
  rewrite (stE_bind_ret _ get _ _ _ eq_refl). cbn [m_timers set_tickled].
  destruct (m_timers s) as [|p l] eqn:El; [by eexists|].
  destruct (wf_live _ W p) as [t Ht]; [rewrite El; by left|].
  rewrite (stE_bind_ret _ (deref p) _ t (set_tickled false s)) by by apply deref_live.
  unfold next_of. rewrite Ht. cbn. pose proof (wf_words _ W p t Ht) as Hw. unfold in_u in Hw.
  case_decide; eexists; (split; [done|]); [lia|].
  rewrite wrapu_small by (unfold in_u; lia). lia.
Qed.

(** In a sorted set the head expires first. *)
Lemma sorted_head_next h p l : sorted (less h) (p :: l) →
  ∀ q, q ∈ p :: l → next_of h p <= next_of h q.
Proof.
  intros Hs q Hq. apply StronglySorted_cons in Hs as [Hp _].
  apply elem_of_cons in Hq as [->|Hq]; [lia|].
  rewrite Forall_forall in Hp. by apply less_next, Hp.
Qed.

(** The search of [listExpiredCb] splits the set at the expired timers. *)
Lemma skip_equal_split h now l :
  sorted (less h) l → Forall (λ q, now <= next_of h q) l →
  Forall (λ q, next_of h q <= now) (take (skip_equal h now l) l) ∧
  Forall (λ q, now < next_of h q) (drop (skip_equal h now l) l).
Proof.
  induction l as [|q l IH]; intros Hs Hn; [by split|].
  pose proof (sorted_head_next h q l Hs) as Hh.
  apply Forall_cons in Hn as [Hq Hn]. apply StronglySorted_cons in Hs as [_ Hs].
  cbn [skip_equal]. case_decide as He.
  - cbn. destruct (IH Hs Hn). split; [constructor; [lia|done]|done].
  - cbn. split; [done|]. apply Forall_forall. intros r Hr.
    specialize (Hh r Hr). simpl. lia.
Qed.

Lemma expired_split h p now l : h !! p = None → (∀ q, q ∈ l → is_Some (h !! q)) →
  sorted (less h) l →
  let h' := <[p := probe_timer now]> h in
  let i := lower_bound (less h') p l in
  let n := (i + skip_equal h' now (drop i l))%nat in
  Forall (λ q, next_of h q <= now) (take n l) ∧ Forall (λ q, now < next_of h q) (drop n l).
Proof.
  intros Hp Hl Hs h' i n.
  assert (p ∉ l) as Hpl by (intros Hin; destruct (Hl p Hin); congruence).
  assert (∀ q, q ∈ l → next_of h' q = next_of h q) as Hn.
  { intros q Hq. apply next_of_insert_ne. by intros ->. }
  assert (sorted (less h') l) as Hs' by by apply sorted_insert_other.
  destruct (lower_bound_split (less h') p l Hs') as (l1 & l2 & E & Hi & H1 & H2).
  fold i in Hi. assert (next_of h' p = now) as Hnp by by apply next_of_insert.
  assert (drop i l = l2) as Hd by by rewrite E, <- Hi, drop_app_length.
  destruct (skip_equal_split h' now l2) as [Ht2 Hd2].
  { rewrite E in Hs'. by eapply StronglySorted_app_1_r. }
  { eapply Forall_impl; [exact H2|]. intros q Hq. simpl in *. rewrite <- Hnp.
    by apply not_less_next. }
  unfold n. rewrite Hd. split.
  - rewrite E, <- Hi, take_app_add' by done. apply Forall_app. split.
    + apply Forall_forall. intros q Hq. rewrite Forall_forall in H1.
      specialize (H1 q Hq). apply less_next in H1. rewrite <- Hn; [lia|set_solver].
    + apply Forall_forall. intros q Hq. rewrite Forall_forall in Ht2.
      rewrite <- Hn; [by apply Ht2|]. rewrite E. apply elem_of_app. right.
      by eapply subseteq_take.
  - rewrite <- drop_drop, Hd. apply Forall_forall. intros q Hq. rewrite Forall_forall in Hd2.
    rewrite <- Hn; [by apply Hd2|]. rewrite E. apply elem_of_app. right.
    by eapply subseteq_drop.
Qed.

(** What firing does to a timer, and what the caller gets. *)
Definition after_fire (now : Z) (t : Timer) : Timer :=
  if m_recurring t then mkTimer true (m_ms t) (u64 (now + m_ms t)) (m_cb t)
  else mkTimer false (m_ms t) (m_next t) None.
Definition cb_of h p : option Cb := h !! p ≫= m_cb.
Definition recurring_in h p : Prop := from_option m_recurring false (h !! p) = true.

Lemma fire_loop_spec now expired s :
  NoDup expired → (∀ q, q ∈ expired → q ∉ m_timers s ∧ is_Some (m_heap s !! q)) →
  sorted (less (m_heap s)) (m_timers s) →
  ∃ s', fire_loop now expired s = (Ret (cb_of (m_heap s) <$> expired), s') ∧
    m_tickled s' = m_tickled s ∧ m_previouseTime s' = m_previouseTime s ∧
    sorted (less (m_heap s')) (m_timers s') ∧
    (∀ q, q ∈ m_timers s' ↔ q ∈ m_timers s ∨ q ∈ expired ∧ recurring_in (m_heap s) q) ∧
    ∀ q, m_heap s' !! q
         = if decide (q ∈ expired) then after_fire now <$> m_heap s !! q else m_heap s !! q.
Proof.
  revert s. induction expired as [|p exp IH]; intros s Hnd Hex Hso.
  { exists s. split_and!; try done. set_solver. }
  apply NoDup_cons in Hnd as [Hp Hnd].
  destruct (Hex p ltac:(by left)) as [Hpn [t Ht]]. cbn [fire_loop].
  rewrite (stE_bind_ret _ _ _ _ _ (deref_live p t s Ht)).
  assert (∃ l, (if m_recurring t then
             _ ← store p (mkTimer true (m_ms t) (u64 (now + m_ms t)) (m_cb t));
             _ ← insert_timer p; mret tt
           else store p (mkTimer false (m_ms t) (m_next t) None)) s
      = (Ret tt, set_timers l (set_heap (<[p := after_fire now t]> (m_heap s)) s)) ∧
      sorted (less (<[p := after_fire now t]> (m_heap s))) l ∧
      ∀ q, q ∈ l ↔ q ∈ m_timers s ∨ q = p ∧ m_recurring t = true) as (l & E & Hsl & Hl).
  { unfold after_fire. destruct (m_recurring t) eqn:Er.
    - set (t' := mkTimer _ _ _ _).
      destruct (insert_timer_spec p (set_heap (<[p := t']> (m_heap s)) s))
        as (l & i & E & Hs' & HP & _); [by apply sorted_insert_other|done|].
      exists l. rewrite (stE_bind_ret _ (store p t') _ tt _ eq_refl).
      rewrite (stE_bind_ret _ _ _ _ _ E). split_and!; [done|done|].
      intros q. rewrite HP. cbn. rewrite elem_of_cons. tauto.
    - exists (m_timers s). split_and!; [done|by apply sorted_insert_other|].
      intros q. naive_solver. }
  rewrite (stE_bind_ret _ _ _ _ _ E).
  set (s1 := set_timers l _) in *.
  assert (∀ q, q ∈ exp → m_heap s1 !! q = m_heap s !! q) as Hsame.
  { intros q Hq. cbn. apply lookup_insert_ne. by intros ->. }
  destruct (IH s1) as (s2 & E2 & Ht2 & Hp2 & Hs2 & Hin2 & Hh2); [done| |done|].
  { intros q Hq. rewrite Hsame by done. destruct (Hex q ltac:(by right)) as [? ?].
    split; [|done]. cbn. rewrite Hl. intros [?|[-> _]]; done. }
  exists s2. rewrite (stE_bind_ret _ _ _ _ _ E2). split_and!; try done.
  - unfold mret, stE_ret. do 2 f_equal. cbn [fmap list_fmap]. f_equal.
    + unfold cb_of. by rewrite Ht.
    + apply list_fmap_ext. intros i q Hq%list_elem_of_lookup_2. unfold cb_of. by rewrite Hsame.
  - intros q. rewrite Hin2. cbn. rewrite Hl, elem_of_cons. unfold recurring_in.
    destruct (decide (q = p)) as [->|Hne].
    + rewrite Ht, lookup_insert_eq. cbn. naive_solver.
    + rewrite lookup_insert_ne by done. naive_solver.
  - intros q. rewrite Hh2. cbn. destruct (decide (q = p)) as [->|Hne].
    + rewrite decide_False by done. rewrite decide_True by by left.
      by rewrite lookup_insert_eq, Ht.
    + rewrite lookup_insert_ne by done.
      destruct (decide (q ∈ exp)); [rewrite decide_True by by right|
        rewrite decide_False by set_solver]; done.
Qed.

(** The clock went back by more than an hour, as the code computes it. *)
Definition rolled_over (now prev : Z) : bool :=
  bool_decide (now < prev) && bool_decide (now < u64 (prev - 60 * 60 * 1000)).

Definition due (now : Z) s (p : Z) : Prop :=
  rolled_over now (m_previouseTime s) = true ∨ next_of (m_heap s) p <= now.

#[global] Instance due_dec now s p : Decision (due now s p).
Proof. unfold due. apply _. Defined.

Lemma filter_split {A} (P : A → Prop) `{!∀ x, Decision (P x)} l1 l2 :
  Forall P l1 → Forall (λ x, ¬ P x) l2 → filter P (l1 ++ l2) = l1.
Proof.
  intros H1 H2. rewrite filter_app.
  assert (filter P l1 = l1) as ->.
  { induction H1 as [|x l Hx _ IH]; [done|]. by rewrite filter_cons_True, IH. }
  assert (filter P l2 = []) as ->; [|by rewrite app_nil_r].
  induction H2 as [|x l Hx _ IH]; [done|]. by rewrite filter_cons_False.
Qed.

Lemma fire_wf now s s' (expired : list Z) :
  wf s → (∀ q, q ∈ expired → q ∈ m_timers s) →
  sorted (less (m_heap s')) (m_timers s') →
  (∀ q, q ∈ m_timers s' ↔ q ∈ m_timers s ∧ (q ∉ expired ∨ recurring_in (m_heap s) q)) →
  (∀ q, m_heap s' !! q
        = if decide (q ∈ expired) then after_fire now <$> m_heap s !! q else m_heap s !! q) →
  wf s'.
Proof.
  intros [Hso Hli Har Hwo] Hex Hs' Hin Hh. split; [done|..].
  - intros p Hp. rewrite Hh. apply Hin in Hp as [Hp _]. destruct (Hli p Hp) as [t ->].
    case_decide; eauto.
  - intros p t Ht Hcb. rewrite Hh in Ht. case_decide as Hd.
    + apply fmap_Some in Ht as (u & Hu & ->). apply Hin. split; [by apply Hex|].
      right. unfold recurring_in. rewrite Hu. cbn. unfold after_fire in Hcb.
      destruct (m_recurring u); [done|]. by destruct Hcb.
    + apply Hin. split; [by eapply Har|by left].
  - intros p t Ht. rewrite Hh in Ht. case_decide as Hd; [|by eapply Hwo].
    apply fmap_Some in Ht as (u & Hu & ->). unfold after_fire.
    destruct (m_recurring u); [by apply wrapu_range|by eapply (Hwo p u)].
Qed.
End timer.

(* ------------------------------------------------------------------ *)
(** ** Condition timers *)

(** A callback bound to a condition object runs only while the object is
    alive; [alive] says which objects are when it is called. *)
Section condition.
Context {Cb Obj : Type} (alive : Obj → bool).

Inductive callback :=
  | Function (f : Cb)
  | Bind_OnTimer (weak_cond : Obj) (cb : option Cb).

(* sylar/timer.cc:115-119, TimerManager::addConditionTimer *)
Definition addConditionTimer (p now ms : Z) (cb : option Cb) (weak_cond : Obj)
    (recurring : bool) : stE (@TimerManager callback) bool :=
  addTimer p now ms (Some (Bind_OnTimer weak_cond cb)) recurring.

(** What runs, if anything. *)
(* sylar/timer.cc:108-113, OnTimer *)
Definition OnTimer (weak_cond : Obj) (cb : option Cb) : outcome (option Cb) :=
  if alive weak_cond then
    match cb with Some f => Ret (Some f) | None => Crash bad_call end
  else Ret None.

(** A call through the [std::function]. *)
Definition call (cb : option callback) : outcome (option Cb) :=
  match cb with
  | None => Crash bad_call
  | Some (Function f) => Ret (Some f)
  | Some (Bind_OnTimer weak_cond f) => OnTimer weak_cond f
  end.
End condition.
