(* ===== verification/TimerTheorems.v ===== *)
(** * Timer manager: safety, firing and wake-ups

    Histories of operations on one manager, the invariant along them, what
    [listExpiredCb] fires, and why a waiting thread is never late. *)
From stdpp Require Import sorting.
From S2P Require Import Prelude OrderedSet Timer.

Local Open Scope Z_scope.

Section histories.
Context {Cb : Type}.
Implicit Types (s : @TimerManager Cb) (p : Z).

Inductive timer_op :=
  | OpAdd (p now ms : Z) (cb : option Cb) (recurring : bool)
  | OpCancel (p : Z)
  | OpRefresh (p now : Z)
  | OpReset (p now ms : Z) (from_now : bool)
  | OpNext (now : Z)
  | OpExpire (probe now : Z).

(** One call; the result says whether [onTimerInsertedAtFront] ran. *)
Definition exec (o : timer_op) : stE TimerManager bool :=
  match o with
  | OpAdd p now ms cb recurring => addTimer p now ms cb recurring
  | OpCancel p => _ ← cancel p; mret false
  | OpRefresh p now => _ ← refresh p now; mret false
  | OpReset p now ms from_now => r ← reset p now ms from_now; mret r.2
  | OpNext now => _ ← getNextTimer now; mret false
  | OpExpire p now => _ ← listExpiredCb p now; mret false
  end.

(** A new object has a fresh address, a handle points to a live one. *)
Definition op_ok s (o : timer_op) : Prop :=
  match o with
  | OpAdd p _ _ _ _ => m_heap s !! p = None
  | OpCancel p | OpRefresh p _ | OpReset p _ _ _ => is_Some (m_heap s !! p)
  | OpNext now => 0 <= now
  | OpExpire p _ => m_heap s !! p = None
  end.

Inductive reachable : @TimerManager Cb → Prop :=
  | reach_new now : reachable (new_manager now)
  | reach_op s o r s' : reachable s → op_ok s o → exec o s = (r, s') → reachable s'.

Lemma reach_exec s o : reachable s → op_ok s o → reachable (exec o s).2.
Proof. intros Hr Ho. eapply reach_op; [done..|apply surjective_pairing]. Qed.

(** Firing: exactly the due timers, in order of expiry. *)
Lemma listExpiredCb_spec p now s : wf s → m_heap s !! p = None →
  ∃ s', listExpiredCb p now s
      = (Ret (cb_of (m_heap s) <$> filter (due now s) (m_timers s)), s') ∧ wf s' ∧
    m_tickled s' = m_tickled s ∧
    (∀ q, q ∈ m_timers s' ↔ q ∈ m_timers s ∧ (¬ due now s q ∨ recurring_in (m_heap s) q)) ∧
    ∀ q, m_heap s' !! q = if decide (q ∈ m_timers s ∧ due now s q)
                          then after_fire now <$> m_heap s !! q else m_heap s !! q.
Proof.
  intros W Hp. unfold listExpiredCb. rewrite (stE_bind_ret _ get _ _ _ eq_refl).
  destruct (m_timers s) as [|q0 l0] eqn:El.
  { exists s. rewrite El. split_and!; try done.
    intros q. split; [|by intros [? _]]. intros Hq. by apply not_elem_of_nil in Hq. }
  rewrite (stE_bind_ret _ (detectClockRollover now) _ (rolled_over now (m_previouseTime s))
             (set_previous now s)) by done.
  destruct (wf_live _ W q0) as [t0 Ht0]; [rewrite El; by left|].
  rewrite (stE_bind_ret _ (deref q0) _ t0 (set_previous now s)) by by apply deref_live.
  destruct (negb (rolled_over now (m_previouseTime s)) && bool_decide (now < m_next t0)) eqn:Enone.
  { apply andb_true_iff in Enone as [Er Hlt]. apply negb_true_iff in Er.
    apply bool_decide_eq_true in Hlt.
    assert (∀ q, q ∈ m_timers s → ¬ due now s q) as Hnd.
    { intros q Hq [Hd|Hd]; [congruence|].
      pose proof (wf_sorted _ W) as Hs. rewrite El in Hs.
      pose proof (sorted_head_next _ _ _ Hs q) as Hh. rewrite <- El in Hh.
      specialize (Hh Hq). unfold next_of at 1 in Hh. rewrite Ht0 in Hh. simpl in Hh. lia. }
    exists (set_previous now s). split_and!.
    - rewrite <- El. pose proof (filter_split (due now s) [] (m_timers s)) as Hf.
      simpl in Hf. rewrite Hf; [done|constructor|]. apply Forall_forall. done.
    - destruct W. by split.
    - done.
    - intros q. cbn. rewrite <- El. naive_solver.
    - intros q. cbn. rewrite <- El. rewrite decide_False; naive_solver. }
  rewrite <- El. set (i := if rolled_over now (m_previouseTime s) then _ else _).
  assert (Forall (due now s) (take i (m_timers s)) ∧
          Forall (λ q, ¬ due now s q) (drop i (m_timers s))) as [Hdue Hnot].
  { unfold i, due. destruct (rolled_over now (m_previouseTime s)) eqn:Er.
    - rewrite take_ge, drop_ge by lia. split; [|constructor].
      apply Forall_forall. intros. by left.
    - destruct (expired_split (m_heap s) p now (m_timers s) Hp (wf_live _ W) (wf_sorted _ W))
        as [H1 H2]. split; (eapply Forall_impl; [eassumption|]); intros q Hq; simpl in *.
      + by right.
      + intros [?|?]; [done|lia]. }
  rewrite (stE_bind_ret _ (modify _) _ tt
    (set_timers (drop i (m_timers s)) (set_previous now s))) by done.
  pose proof (sorted_NoDup _ _ (wf_sorted _ W)) as Hnd.
  rewrite <- (take_drop i (m_timers s)) in Hnd. apply NoDup_app in Hnd as (Hnd1 & Hdisj & Hnd2).
  destruct (fire_loop_spec now (take i (m_timers s))
    (set_timers (drop i (m_timers s)) (set_previous now s)))
    as (s' & E & Htk & _ & Hs' & Hin & Hh); [done|..].
  { intros q Hq. split; [by apply Hdisj|]. apply (wf_live _ W). by eapply subseteq_take. }
  { cbn. pose proof (wf_sorted _ W) as Hs. rewrite <- (take_drop i (m_timers s)) in Hs.
    by eapply StronglySorted_app_1_r. }
  cbn in Hin, Hh, Htk.
  assert (∀ q, q ∈ take i (m_timers s) ↔ q ∈ m_timers s ∧ due now s q) as Htake.
  { intros q. rewrite Forall_forall in Hdue, Hnot. split.
    - intros Hq. split; [by eapply subseteq_take|by apply Hdue].
    - intros [Hq Hd]. rewrite <- (take_drop i (m_timers s)) in Hq.
      apply elem_of_app in Hq as [Hq|Hq]; [done|]. by destruct (Hnot q Hq). }
  assert (∀ q, q ∈ m_timers s' ↔ q ∈ m_timers s ∧ (¬ due now s q ∨ recurring_in (m_heap s) q))
    as Hin'.
  { intros q. rewrite Hin, Htake. rewrite Forall_forall in Hdue, Hnot.
    rewrite <- (take_drop i (m_timers s)) at 2 3. rewrite !elem_of_app, !Htake.
    destruct (decide (due now s q)); naive_solver. }
  assert (filter (due now s) (m_timers s) = take i (m_timers s)) as ->.
  { rewrite <- (take_drop i (m_timers s)) at 1. by apply filter_split. }
  exists s'. split_and!; try done.
  - eapply (fire_wf now s s' (take i (m_timers s))); try done.
    + intros q. by apply subseteq_take.
    + intros q. rewrite Hin', Htake. destruct (decide (due now s q)); naive_solver.
  - intros q. rewrite Hh.
    destruct (decide (q ∈ take i (m_timers s))) as [Hq|Hq]; rewrite Htake in Hq;
      [by rewrite (decide_True (P := q ∈ m_timers s ∧ _))
      |by rewrite (decide_False (P := q ∈ m_timers s ∧ _))].
Qed.

Lemma exec_wf o s : wf s → op_ok s o → ∃ r s', exec o s = (Ret r, s') ∧ wf s'.
Proof.
  intros W Ho. destruct o as [p now ms cb rc|p|p now|p now ms fn|now|p now]; cbn [exec op_ok] in *.
  - destruct (addTimer_spec p now ms cb rc s W Ho) as (i & l & -> & W' & _).
    eexists _, _. split; [done|]. by apply wf_tickled.
  - destruct Ho as [t Ht]. pose proof (cancel_spec p t s W Ht) as Hc. destruct (m_cb t).
    + destruct Hc as (l & E & _ & _ & W'). rewrite (stE_bind_ret _ _ _ _ _ E). eauto.
    + rewrite (stE_bind_ret _ _ _ _ _ Hc). eauto.
  - destruct Ho as [t Ht]. pose proof (refresh_spec p t now s W Ht) as Hc. destruct (m_cb t).
    + destruct Hc as (l & E & W' & _). rewrite (stE_bind_ret _ _ _ _ _ E). eauto.
    + rewrite (stE_bind_ret _ _ _ _ _ Hc). eauto.
  - destruct Ho as [t Ht].
    destruct (reset_spec p t now ms fn s W Ht) as [E|[E|(t' & l & l' & i & E & W' & _)]];
      rewrite (stE_bind_ret _ _ _ _ _ E); eauto. eexists _, _. split; [done|]. by apply wf_tickled.
  - destruct (getNextTimer_spec now s W Ho) as (w & E & _). rewrite (stE_bind_ret _ _ _ _ _ E).
    eexists _, _. split; [done|]. by apply wf_tickled.
  - destruct (listExpiredCb_spec p now s W Ho) as (s' & E & W' & _).
    rewrite (stE_bind_ret _ _ _ _ _ E). eauto.
Qed.

(** C3: whatever calls the threads make in whatever order, the manager
    stays well formed and no call faults: the set is sorted by expiry, a
    timer that can still be cancelled is in it (so [cancel] never erases
    [end()]), and no handle in it dangles. *)
Theorem timers_safe s : reachable s →
  wf s ∧ ∀ o, op_ok s o → ∃ r s', exec o s = (Ret r, s') ∧ wf s'.
Proof.
  intros Hr. assert (wf s) as W.
  { induction Hr as [now|s o r s' _ W Ho E]; [apply new_manager_wf|].
    destruct (exec_wf o s W Ho) as (r' & s1 & E1 & W1). congruence. }
  split; [done|]. intros. by apply exec_wf.
Qed.

(** C4: [listExpiredCb] returns the callbacks of exactly the timers that
    are due, in order of expiry (all of them when the clock is taken to
    have gone back).  A recurring timer is armed again for [now] plus its
    period, any other one leaves the set and loses its callback, and the
    timers that are not due are untouched. *)
Theorem expired_timers_fire p now s : reachable s → m_heap s !! p = None →
  ∃ s', listExpiredCb p now s
      = (Ret (cb_of (m_heap s) <$> filter (due now s) (m_timers s)), s') ∧
    (∀ q, q ∈ m_timers s' ↔ q ∈ m_timers s ∧ (¬ due now s q ∨ recurring_in (m_heap s) q)) ∧
    ∀ q, m_heap s' !! q = if decide (q ∈ m_timers s ∧ due now s q)
                          then after_fire now <$> m_heap s !! q else m_heap s !! q.
Proof.
  intros Hr Hp. destruct (timers_safe s Hr) as [W _].
  destruct (listExpiredCb_spec p now s W Hp) as (s' & ? & _ & _ & ? & ?). by exists s'.
Qed.

(* ------------------------------------------------------------------ *)
(** ** Waiting for the next timer *)

(** What other threads may do while one waits: anything but look at the
    timers themselves; a [refresh] with a clock that has not gone back. *)
Definition meanwhile s (o : timer_op) : Prop :=
  match o with
  | OpRefresh p now => ∀ t, m_heap s !! p = Some t → m_next t <= u64 (now + m_ms t)
  | OpNext _ | OpExpire _ _ => False
  | _ => True
  end.

(** A history in which [onTimerInsertedAtFront] is never called. *)
Inductive unsignalled : @TimerManager Cb → @TimerManager Cb → Prop :=
  | quiet_refl s : unsignalled s s
  | quiet_step s o s1 s2 :
      op_ok s o → meanwhile s o → exec o s = (Ret false, s1) → unsignalled s1 s2 →
      unsignalled s s2.

(** Nothing in the set expires before [d]; [None] for an empty set. *)
Definition not_before (d : option Z) s : Prop :=
  wf s ∧ m_tickled s = false ∧
  match d with
  | None => m_timers s = []
  | Some d => ∀ p, p ∈ m_timers s → d <= next_of (m_heap s) p
  end.

(** An insertion that is not at the front is behind some other timer. *)
Lemma behind_other d h p t l l' :
  (match d with
   | None => l = []
   | Some d => ∀ q, q ∈ l → d <= next_of h q
   end) → p ∉ l → l' ≡ₚ p :: l →
  ¬ Forall (λ q, less (<[p := t]> h) p q = true) l →
  match d with
  | None => l' = []
  | Some d => ∀ q, q ∈ l' → d <= next_of (<[p := t : @Timer Cb]> h) q
  end.
Proof.
  intros Hd Hp HP Hnot. apply not_Forall_Exists, Exists_exists in Hnot; [|apply _].
  destruct Hnot as (r & Hr & Hless). apply not_true_is_false in Hless.
  assert (r ≠ p) as Hrp by by intros ->.
  destruct d as [d|]; [|by rewrite Hd in Hr; apply not_elem_of_nil in Hr].
  intros q Hq. rewrite HP in Hq. apply elem_of_cons in Hq as [->|Hq].
  - apply not_less_next in Hless. specialize (Hd r Hr).
    rewrite (next_of_insert_ne h p r) in Hless by done. lia.
  - rewrite next_of_insert_ne by (intros ->; done). by apply Hd.
Qed.

Lemma exec_not_before d o s s' :
  not_before d s → op_ok s o → meanwhile s o → exec o s = (Ret false, s') → not_before d s'.
Proof.
  intros (W & Htk & Hd) Ho Hm E.
  destruct (exec_wf o s W Ho) as (r & s1 & E1 & W1).
  assert (r = false ∧ s1 = s') as [-> ->] by (split; congruence).
  split; [done|]. clear W1 E1.
  destruct o as [p now ms cb rc|p|p now|p now ms fn|now|p now]; cbn [exec op_ok meanwhile] in *;
    [| | | |done|done].
  - destruct (addTimer_spec p now ms cb rc s W Ho) as (i & l & E1 & W' & HP & Hi).
    rewrite E1, Htk, andb_true_r in E. injection E as Hf <-.
    apply bool_decide_eq_false in Hf. cbn [m_tickled set_tickled set_timers set_heap m_timers m_heap].
    rewrite bool_decide_eq_false_2 by done. split; [done|].
    eapply behind_other; [done| |done|by rewrite <- Hi].
    intros Hin. destruct (wf_live _ W p Hin). congruence.
  - destruct Ho as [t Ht]. pose proof (cancel_spec p t s W Ht) as Hc. destruct (m_cb t).
    + destruct Hc as (l & E1 & HP & Hp & _). rewrite (stE_bind_ret _ _ _ _ _ E1) in E.
      injection E as <-. cbn. split; [done|]. destruct d as [d|].
      * intros q Hq. rewrite next_of_insert_ne by (intros ->; done). apply Hd. rewrite HP.
        by right.
      * rewrite Hd in HP. by apply Permutation_nil_cons in HP.
    + rewrite (stE_bind_ret _ _ _ _ _ Hc) in E. by injection E as <-.
  - destruct Ho as [t Ht]. pose proof (refresh_spec p t now s W Ht) as Hc. destruct (m_cb t).
    + destruct Hc as (l & E1 & _ & HP). rewrite (stE_bind_ret _ _ _ _ _ E1) in E.
      injection E as <-. cbn. split; [done|]. destruct d as [d|].
      * intros q Hq. rewrite HP in Hq. specialize (Hd q Hq).
        destruct (decide (q = p)) as [->|Hne]; [|by rewrite next_of_insert_ne].
        rewrite next_of_insert. cbn. specialize (Hm t Ht). unfold next_of in Hd.
        rewrite Ht in Hd. simpl in Hd. lia.
      * rewrite Hd in HP. by apply Permutation_nil_r in HP.
    + rewrite (stE_bind_ret _ _ _ _ _ Hc) in E. by injection E as <-.
  - destruct Ho as [t Ht].
    destruct (reset_spec p t now ms fn s W Ht)
      as [E1|[E1|(t' & l & l' & i & E1 & _ & HP & Hp & HP' & _ & Hi)]];
      rewrite (stE_bind_ret _ _ _ _ _ E1) in E; [by injection E as <-..|].
    rewrite Htk, andb_true_r in E. injection E as Hf <-. cbn in Hf.
    apply bool_decide_eq_false in Hf. cbn. rewrite bool_decide_eq_false_2 by done.
    split; [done|]. eapply behind_other; [|done|done|by rewrite <- Hi].
    destruct d as [d|]; [|rewrite Hd in HP; by apply Permutation_nil_cons in HP].
    intros q Hq. apply Hd. rewrite HP. by right.
Qed.

(** C5: no wake-up is lost.  A thread asks [getNextTimer] how long it may
    sleep and gets [w].  As long as the others have not called
    [onTimerInsertedAtFront] since, whatever timers they added,
    cancelled, refreshed or reset, no timer in the set expires before the
    sleep of [w] is over; if [w] is the "no timer" value because the set
    was empty, it still is. *)
Theorem no_lost_wakeup now s0 w s1 s2 :
  reachable s0 → 0 <= now → getNextTimer now s0 = (Ret w, s1) → unsignalled s1 s2 →
  (∀ p, p ∈ m_timers s2 → now + w <= Z.max now (next_of (m_heap s2) p)) ∧
  (m_timers s0 = [] → w = 2 ^ 64 - 1 ∧ m_timers s2 = []).
Proof.
  intros Hr Hnow Hn Hq. destruct (timers_safe s0 Hr) as [W _].
  destruct (getNextTimer_spec now s0 W Hnow) as (w' & E & Hw).
  rewrite E in Hn. injection Hn as -> <-.
  set (d := head (m_timers s0) ≫= λ p, Some (next_of (m_heap s0) p)).
  assert (not_before d (set_tickled false s0)) as Hb.
  { split; [by apply wf_tickled|]. split; [done|]. cbn. unfold d. pose proof (wf_sorted _ W) as Hs.
    destruct (m_timers s0) as [|p l]; cbn; [done|]. by apply sorted_head_next. }
  assert (not_before d s2) as (_ & _ & Hd2).
  { clear E. revert Hb. induction Hq as [s|s o sa sb Ho Hm Eo _ IH]; intros Hb; [done|].
    apply IH. by eapply exec_not_before. }
  clear E Hb Hq. unfold d in Hd2. destruct (m_timers s0) as [|p0 l0]; cbn in Hd2.
  - rewrite Hd2. split; [|done]. intros p Hp. by apply not_elem_of_nil in Hp.
  - split; [|done]. intros p Hp. specialize (Hd2 p Hp). lia.
Qed.

(** When the clock counts as gone back.  The test means to ask
    whether [now] is more than an hour behind, but in the first hour of
    the clock the subtraction wraps and any step back, by a millisecond,
    counts: every timer then fires at once. *)
Theorem rollover_exact now s : in_u 64 now → in_u 64 (m_previouseTime s) →
  detectClockRollover now s
  = (Ret (bool_decide (now < m_previouseTime s ∧
            (m_previouseTime s < 3600000 ∨ now < m_previouseTime s - 3600000))),
     set_previous now s).
Proof.
  intros Hn Hp. unfold in_u in *.
  change (detectClockRollover now s)
    with (@Ret bool (rolled_over now (m_previouseTime s)), set_previous now s).
  do 2 f_equal. unfold rolled_over. rewrite <- bool_decide_and. apply bool_decide_ext.
  change (60 * 60 * 1000) with 3600000.
  destruct (decide (m_previouseTime s < 3600000)).
  - unfold wrapu. rewrite <- (Z.mod_add _ 1) by lia. rewrite Z.mod_small by lia. lia.
  - rewrite wrapu_small by (unfold in_u; lia). lia.
Qed.
End histories.

(* ------------------------------------------------------------------ *)
(** ** A concrete history *)

(** Two timers, the recurring one due first. *)
Definition sample_manager : @TimerManager nat :=
  (exec (OpAdd 16 1000 50 (Some 1%nat) true)
     (exec (OpAdd 32 1000 80 (Some 2%nat) false) (new_manager 1000)).2).2.

Lemma sample_reachable : reachable sample_manager.
Proof.
  apply reach_exec; [|vm_compute; done].
  apply reach_exec; [constructor|vm_compute; done].
Defined.

Lemma timers_safe_witness :
  wf sample_manager ∧
  ∀ o, op_ok sample_manager o → ∃ r s', exec o sample_manager = (Ret r, s') ∧ wf s'.
Proof. apply (timers_safe sample_manager sample_reachable). Defined.

Lemma expired_timers_fire_witness :
  ∃ s', listExpiredCb 48 1060 sample_manager
      = (Ret (cb_of (m_heap sample_manager)
                <$> filter (due 1060 sample_manager) (m_timers sample_manager)), s') ∧
    (∀ q, q ∈ m_timers s' ↔ q ∈ m_timers sample_manager ∧
            (¬ due 1060 sample_manager q ∨ recurring_in (m_heap sample_manager) q)) ∧
    ∀ q, m_heap s' !! q
         = if decide (q ∈ m_timers sample_manager ∧ due 1060 sample_manager q)
           then after_fire 1060 <$> m_heap sample_manager !! q else m_heap sample_manager !! q.
Proof.
  apply (expired_timers_fire 48 1060 sample_manager sample_reachable). vm_compute. done.
Defined.

Example sample_fires :
  (listExpiredCb 48 1060 sample_manager).1 = Ret [Some 1%nat] ∧
  m_timers (listExpiredCb 48 1060 sample_manager).2 = [32; 16].
Proof. vm_compute. done. Qed.

Lemma no_lost_wakeup_witness :
  (∀ p, p ∈ m_timers (exec (OpCancel 32) (set_tickled false sample_manager)).2 →
     1010 + 40 <= Z.max 1010
       (next_of (m_heap (exec (OpCancel 32) (set_tickled false sample_manager)).2) p)) ∧
  (m_timers sample_manager = [] → 40 = 2 ^ 64 - 1 ∧
     m_timers (exec (OpCancel 32) (set_tickled false sample_manager)).2 = []).
Proof.
  apply (no_lost_wakeup 1010 sample_manager 40 (set_tickled false sample_manager));
    [apply sample_reachable|done|vm_compute; done|].
  eapply (quiet_step _ (OpCancel 32)); [vm_compute; eauto|done|vm_compute; done|constructor].
Defined.

Lemma rollover_exact_witness :
  detectClockRollover 99 (@new_manager nat 100)
  = (Ret (bool_decide (99 < m_previouseTime (@new_manager nat 100) ∧
            (m_previouseTime (@new_manager nat 100) < 3600000 ∨
             99 < m_previouseTime (@new_manager nat 100) - 3600000))),
     set_previous 99 (new_manager 100)).
Proof. apply rollover_exact; vm_compute; split; congruence. Defined.
