(* ===== verification/Fiber.v ===== *)
(** * Fibers ([fiber.h], [fiber.cc])

    A fiber has its own stack and a saved context.  [ucontext] is the C
    library's: [getcontext]/[makecontext] prepare a context that starts
    the fiber's code, and [swapcontext(from, to)] saves the execution the
    processor is in under [from] and continues the one saved under [to].
    A context holds the fiber whose code it continues; it is [None] while
    that code runs or before anything was saved: continuing it then is
    undefined.  The part of the state the threads share is separate from
    the part each thread has for itself. *)
From S2P Require Import Prelude.

Local Open Scope Z_scope.

Section fiber.
Context {Cb : Type}.

(* sylar/fiber.h:32-39, Fiber::State *)
Inductive State := READY | RUNNING | TERM.

#[global] Instance State_eq_dec : EqDecision State.
Proof. solve_decision. Defined.

(* sylar/fiber.h:121-135, Fiber *)
Record Fiber := mkFiber {
  m_id : Z;
  m_stacksize : Z;
  m_state : State;
  m_ctx : option Z;
  m_stack : bool;
  m_cb : option Cb;
  m_runInScheduler : bool
}.

(** The static variables all threads share, with the fibers by address. *)
(* sylar/fiber.cc:19-22, s_fiber_id *)
Record shared := mkShared {
  fibers : gmap Z Fiber;
  s_fiber_id : Z;
  s_fiber_count : Z
}.

(** The thread-local variables, the scheduler's included, and the code the
    processor is in: the fiber whose stack it uses. *)
(* sylar/fiber.cc:24-27, t_fiber *)
Record locals := mkLocals {
  t_fiber : option Z;
  t_thread_fiber : option Z;
  t_scheduler_fiber : option Z;
  cpu : option Z
}.

Record fstate := mkFstate { sh : shared; tl : locals }.

Implicit Types (f : Z) (s : fstate).

Definition set_fibers m (x : shared) := mkShared m (s_fiber_id x) (s_fiber_count x).
Definition set_cpu c (l : locals) :=
  mkLocals (t_fiber l) (t_thread_fiber l) (t_scheduler_fiber l) c.

Definition set_state st (x : Fiber) :=
  mkFiber (m_id x) (m_stacksize x) st (m_ctx x) (m_stack x) (m_cb x) (m_runInScheduler x).
Definition set_ctx c (x : Fiber) :=
  mkFiber (m_id x) (m_stacksize x) (m_state x) c (m_stack x) (m_cb x) (m_runInScheduler x).
Definition set_cb c (x : Fiber) :=
  mkFiber (m_id x) (m_stacksize x) (m_state x) (m_ctx x) (m_stack x) c (m_runInScheduler x).

(** The object behind a pointer, and a write to it. *)
Definition obj f : stE fstate Fiber := λ s,
  match fibers (sh s) !! f with Some x => (Ret x, s) | None => (Crash null_deref, s) end.
Definition upd f (g : Fiber → Fiber) : stE fstate unit :=
  modify (λ s, mkFstate (set_fibers (alter g f (fibers (sh s))) (sh s)) (tl s)).

(** [SYLAR_ASSERT]: [assert] stops the program. *)
(* sylar/macro.h:28-34, SYLAR_ASSERT *)
Definition ASSERT (b : bool) : stE fstate unit := if b then mret tt else crash assert_failed.

Definition pointer (p : option Z) : stE fstate Z :=
  match p with Some f => mret f | None => crash null_deref end.

(* sylar/fiber.cc:65-67, Fiber::SetThis *)
Definition SetThis (f : option Z) : stE fstate unit :=
  modify (λ s, mkFstate (sh s) (mkLocals f (t_thread_fiber (tl s)) (t_scheduler_fiber (tl s))
                                  (cpu (tl s)))).

(** [swapcontext(&from->m_ctx, &to->m_ctx)]. *)
Definition swapcontext (from to : Z) : stE fstate unit :=
  s ← get;
  _ ← obj from;
  _ ← upd from (set_ctx (cpu (tl s)));
  x ← obj to;
  match m_ctx x with
  | None => crash bad_call
  | Some c =>
      _ ← upd to (set_ctx None);
      modify (λ s, mkFstate (sh s) (set_cpu (Some c) (tl s)))
  end.

(* sylar/fiber.cc:44-49, Fiber::GetFiberId *)
Definition GetFiberId : stE fstate Z :=
  s ← get;
  match t_fiber (tl s) with
  | Some f => x ← obj f; mret (m_id x)
  | None => mret 0
  end.

(** The thread's own stack becomes the main fiber at address [a].
    [m_runInScheduler] is left uninitialised: [junk]. *)
(* sylar/fiber.cc:51-63, Fiber::Fiber *)
Definition main_fiber (a : Z) (junk : bool) : stE fstate unit :=
  _ ← SetThis (Some a);
  modify (λ s, mkFstate
    (mkShared (<[a := mkFiber (s_fiber_id (sh s)) 0 RUNNING None false None junk]> (fibers (sh s)))
       (u64 (s_fiber_id (sh s) + 1)) (u64 (s_fiber_count (sh s) + 1)))
    (set_cpu (Some a) (tl s))).

(* sylar/fiber.cc:72-81, Fiber::GetThis *)
Definition GetThis (a : Z) (junk : bool) : stE fstate Z :=
  s ← get;
  match t_fiber (tl s) with
  | Some f => mret f
  | None =>
      _ ← main_fiber a junk;
      s ← get;
      _ ← ASSERT (bool_decide (t_fiber (tl s) = Some a));
      _ ← modify (λ s, mkFstate (sh s) (mkLocals (t_fiber (tl s)) (Some a)
                                           (t_scheduler_fiber (tl s)) (cpu (tl s))));
      mret a
  end.

(** [default] is the configured [fiber.stack_size]. *)
(* sylar/fiber.cc:86-105, Fiber::Fiber *)
Definition new_fiber (default a : Z) (cb : option Cb) (stacksize : Z) (run_in_scheduler : bool)
    : stE fstate unit :=
  modify (λ s, mkFstate
    (mkShared
       (<[a := mkFiber (s_fiber_id (sh s)) (u32 (if decide (stacksize = 0) then default else stacksize))
                 READY (Some a) true cb run_in_scheduler]> (fibers (sh s)))
       (u64 (s_fiber_id (sh s) + 1)) (u64 (s_fiber_count (sh s) + 1)))
    (tl s)).

(* sylar/fiber.cc:110-128, Fiber::~Fiber *)
Definition delete_fiber f : stE fstate unit :=
  x ← obj f;
  _ ← modify (λ s, mkFstate (mkShared (fibers (sh s)) (s_fiber_id (sh s))
                               (u64 (s_fiber_count (sh s) - 1))) (tl s));
  _ ← (if m_stack x then ASSERT (bool_decide (m_state x = TERM))
       else
         _ ← ASSERT (match m_cb x with None => true | Some _ => false end);
         _ ← ASSERT (bool_decide (m_state x = RUNNING));
         s ← get;
         if decide (t_fiber (tl s) = Some f) then SetThis None else mret tt);
  modify (λ s, mkFstate (set_fibers (delete f (fibers (sh s))) (sh s)) (tl s)).

(* sylar/fiber.cc:133-147, Fiber::reset *)
Definition reset f (cb : option Cb) : stE fstate unit :=
  x ← obj f;
  _ ← ASSERT (m_stack x);
  _ ← ASSERT (bool_decide (m_state x = TERM));
  _ ← upd f (set_cb cb);
  _ ← upd f (set_ctx (Some f));
  upd f (set_state READY).

(** The fiber a switch goes to or comes from. *)
Definition partner (x : Fiber) : stE fstate Z :=
  s ← get;
  pointer (if m_runInScheduler x then t_scheduler_fiber (tl s) else t_thread_fiber (tl s)).

(* sylar/fiber.cc:149-164, Fiber::resume *)
Definition resume f : stE fstate unit :=
  x ← obj f;
  _ ← ASSERT (bool_decide (m_state x ≠ TERM) && bool_decide (m_state x ≠ RUNNING));
  _ ← SetThis (Some f);
  _ ← upd f (set_state RUNNING);
  main ← partner x;
  swapcontext main f.

(** [yield] up to the switch: the state is already [READY] here, while
    the fiber's code still runs. *)
(* sylar/fiber.cc:166-172, Fiber::yield *)
Definition yield_mark f : stE fstate unit :=
  x ← obj f;
  _ ← ASSERT (bool_decide (m_state x = RUNNING) || bool_decide (m_state x = TERM));
  s ← get;
  _ ← SetThis (t_thread_fiber (tl s));
  if decide (m_state x = TERM) then mret tt else upd f (set_state READY).

(** [yield] from the switch on. *)
(* sylar/fiber.cc:174-184, Fiber::yield *)
Definition yield_swap f : stE fstate unit :=
  x ← obj f;
  main ← partner x;
  swapcontext f main.

Definition yield f : stE fstate unit := _ ← yield_mark f; yield_swap f.

(** [MainFunc] up to the call of [m_cb]: the code that runs. *)
(* sylar/fiber.cc:189-193, Fiber::MainFunc *)
Definition MainFunc_enter : stE fstate (Z * Cb) :=
  s ← get;
  f ← pointer (t_fiber (tl s));
  x ← obj f;
  match m_cb x with Some cb => mret (f, cb) | None => crash bad_call end.

(** [MainFunc] after [m_cb] returned, up to the last [yield]. *)
(* sylar/fiber.cc:194-198, Fiber::MainFunc *)
Definition MainFunc_exit f : stE fstate unit :=
  _ ← upd f (set_cb None); upd f (set_state TERM).

(* sylar/fiber.cc:189-200, Fiber::MainFunc *)
Definition MainFunc (run : Cb → stE fstate unit) : stE fstate unit :=
  '(f, cb) ← MainFunc_enter;
  _ ← run cb;
  _ ← MainFunc_exit f;
  yield f.

(* ------------------------------------------------------------------ *)
(** ** Switching back and forth *)

(** The thread runs the code of [m], from which [f] may be resumed: [f]
    is ready with its own code saved, and [m] is where it switches to. *)
Record resumable s (m f : Z) (y x : Fiber) : Prop := {
  res_cpu : cpu (tl s) = Some m;
  res_ne : f ≠ m;
  res_main : fibers (sh s) !! m = Some y;
  res_fiber : fibers (sh s) !! f = Some x;
  res_ready : m_state x = READY;
  res_ctx : m_ctx x = Some f;
  res_partner : (if m_runInScheduler x then t_scheduler_fiber (tl s) else t_thread_fiber (tl s))
                = Some m
}.

Lemma obj_live f x s : fibers (sh s) !! f = Some x → obj f s = (Ret x, s).
Proof. intros H. unfold obj. by rewrite H. Qed.

Lemma upd_live f x g s : fibers (sh s) !! f = Some x →
  upd f g s = (Ret tt, mkFstate (set_fibers (<[f := g x]> (fibers (sh s))) (sh s)) (tl s)).
Proof.
  intros H. unfold upd, modify. do 4 f_equal.
  apply map_eq. intros i. destruct (decide (i = f)) as [->|Hi].
  - by rewrite lookup_alter_eq, lookup_insert_eq, H.
  - by rewrite lookup_alter_ne, lookup_insert_ne.
Qed.

Lemma swapcontext_spec from to s y x c :
  fibers (sh s) !! from = Some y → from ≠ to → fibers (sh s) !! to = Some x →
  m_ctx x = Some c →
  swapcontext from to s
  = (Ret tt, mkFstate (set_fibers (<[to := set_ctx None x]>
                         (<[from := set_ctx (cpu (tl s)) y]> (fibers (sh s)))) (sh s))
               (set_cpu (Some c) (tl s))).
Proof.
  intros Hy Hne Hx Hc. unfold swapcontext.
  rewrite (stE_bind_ret _ get _ _ _ eq_refl), (stE_bind_ret _ _ _ _ _ (obj_live from y s Hy)).
  rewrite (stE_bind_ret _ _ _ _ _ (upd_live from y _ s Hy)).
  rewrite (stE_bind_ret _ (obj to) _ x _) by (apply obj_live; cbn; by rewrite lookup_insert_ne).
  rewrite Hc. erewrite stE_bind_ret by (apply upd_live; cbn; by rewrite lookup_insert_ne).
  done.
Qed.

Lemma resume_spec s m f y x : resumable s m f y x →
  resume f s = (Ret tt, mkFstate
    (set_fibers (<[f := set_ctx None (set_state RUNNING x)]> (<[m := set_ctx (Some m) y]>
       (fibers (sh s)))) (sh s))
    (mkLocals (Some f) (t_thread_fiber (tl s)) (t_scheduler_fiber (tl s)) (Some f))).
Proof.
  intros [Hcpu Hne Hm Hf Hst Hctx Hp]. unfold resume.
  rewrite (stE_bind_ret _ _ _ _ _ (obj_live f x s Hf)). rewrite Hst.
  rewrite (stE_bind_ret _ (ASSERT _) _ tt s) by done.
  rewrite (stE_bind_ret _ (SetThis _) _ tt _ eq_refl).
  erewrite stE_bind_ret by (by apply upd_live).
  erewrite (stE_bind_ret _ (partner x)).
  2:{ unfold partner. rewrite (stE_bind_ret _ get _ _ _ eq_refl). cbn. rewrite Hp. done. }
  rewrite (swapcontext_spec m f _ y (set_state RUNNING x) f); cbn;
    [|by rewrite lookup_insert_ne|done|by rewrite lookup_insert_eq|done].
  rewrite Hcpu, (insert_insert_ne _ m f), insert_insert_eq by done. done.
Qed.

(** The code of [f] runs and switches back to [m]. *)
Record on_fiber s (m f : Z) (y x : Fiber) : Prop := {
  on_cpu : cpu (tl s) = Some f;
  on_ne : f ≠ m;
  on_main : fibers (sh s) !! m = Some y;
  on_main_ctx : m_ctx y = Some m;
  on_fib : fibers (sh s) !! f = Some x;
  on_partner : (if m_runInScheduler x then t_scheduler_fiber (tl s) else t_thread_fiber (tl s))
               = Some m
}.

Lemma yield_spec s m f y x : on_fiber s m f y x → m_state x = RUNNING ∨ m_state x = TERM →
  let st := if decide (m_state x = TERM) then TERM else READY in
  yield f s = (Ret tt, mkFstate
    (set_fibers (<[m := set_ctx None y]> (<[f := set_ctx (Some f) (set_state st x)]>
       (fibers (sh s)))) (sh s))
    (mkLocals (t_thread_fiber (tl s)) (t_thread_fiber (tl s)) (t_scheduler_fiber (tl s)) (Some m))).
Proof.
  intros [Hcpu Hne Hm Hmc Hf Hp] Hst st.
  set (x' := set_state st x).
  set (s1 := mkFstate (set_fibers (<[f := x']> (fibers (sh s))) (sh s))
    (mkLocals (t_thread_fiber (tl s)) (t_thread_fiber (tl s)) (t_scheduler_fiber (tl s))
       (cpu (tl s)))).
  assert (yield_mark f s = (Ret tt, s1)) as E.
  { unfold yield_mark. rewrite (stE_bind_ret _ _ _ _ _ (obj_live f x s Hf)).
    rewrite (stE_bind_ret _ (ASSERT _) _ tt s) by (destruct Hst as [-> | ->]; done).
    rewrite (stE_bind_ret _ get _ _ _ eq_refl), (stE_bind_ret _ (SetThis _) _ tt _ eq_refl).
    unfold s1, x', st. case_decide as Hd.
    - unfold mret, stE_ret. rewrite insert_id; [by destruct s as [[] []]|].
      rewrite Hf. f_equal. destruct x; cbn in *. by subst.
    - exact (upd_live f x (set_state READY) (mkFstate (sh s) (mkLocals (t_thread_fiber (tl s))
        (t_thread_fiber (tl s)) (t_scheduler_fiber (tl s)) (cpu (tl s)))) Hf). }
  unfold yield. rewrite (stE_bind_ret _ _ _ _ _ E). unfold yield_swap.
  assert (fibers (sh s1) !! f = Some x') as Hf1 by by apply lookup_insert_eq.
  rewrite (stE_bind_ret _ _ _ _ _ (obj_live f x' s1 Hf1)).
  rewrite (stE_bind_ret _ (partner x') _ m s1).
  2:{ unfold partner. rewrite (stE_bind_ret _ get _ _ _ eq_refl). cbn. by rewrite Hp. }
  rewrite (swapcontext_spec f m s1 x' y m); try done.
  - cbn. by rewrite Hcpu, insert_insert_eq.
  - cbn. by rewrite lookup_insert_ne.
Qed.

(** The code of [f] left the thread's variables and the two fibers of the
    switch as they were. *)
Definition keeps (s1 s2 : fstate) (m f : Z) : Prop :=
  tl s2 = tl s1 ∧ fibers (sh s2) !! m = fibers (sh s1) !! m ∧
  fibers (sh s2) !! f = fibers (sh s1) !! f.

Lemma resume_on s m f y x : resumable s m f y x → ∃ s1, resume f s = (Ret tt, s1) ∧
  t_fiber (tl s1) = Some f ∧
  ∀ s2, keeps s1 s2 m f →
    on_fiber s2 m f (set_ctx (Some m) y) (set_ctx None (set_state RUNNING x)).
Proof.
  intros Hr. eexists. split; [by apply resume_spec|]. split; [done|].
  destruct Hr as [Hcpu Hne Hm Hf Hst Hctx Hp]. intros s2 (Htl & Hkm & Hkf). cbn in *.
  rewrite lookup_insert_ne, lookup_insert_eq in Hkm by done. rewrite lookup_insert_eq in Hkf.
  split; rewrite ?Htl; done.
Qed.

(** C6: a switch and back.  Resuming a ready fiber runs its code with
    the fiber current and [RUNNING]; when its code yields, whatever it
    did to other fibers, the thread continues the code that resumed it,
    the thread's main fiber is the current one, and the fiber is exactly
    as before: ready, its context saved, to be resumed again. *)
Theorem fiber_switch s m f y x : resumable s m f y x →
  ∃ s1, resume f s = (Ret tt, s1) ∧ cpu (tl s1) = Some f ∧ t_fiber (tl s1) = Some f ∧
    (m_state <$> fibers (sh s1) !! f) = Some RUNNING ∧
    ∀ s2, keeps s1 s2 m f →
      ∃ s3, yield f s2 = (Ret tt, s3) ∧ t_fiber (tl s3) = t_thread_fiber (tl s3) ∧
        resumable s3 m f (set_ctx None y) x ∧
        ∀ g, g ≠ m → g ≠ f → fibers (sh s3) !! g = fibers (sh s2) !! g.
Proof.
  intros Hr. destruct (resume_on s m f y x Hr) as (s1 & E & Ht & Hon).
  pose proof (Hon s1 ltac:(done)) as [Hc1 _ _ _ Hf1 _].
  exists s1. rewrite Hf1. split_and!; try done. intros s2 Hk.
  pose proof (Hon s2 Hk) as Ho. eexists. split; [apply yield_spec; [exact Ho|by left]|].
  destruct Hr as [Hcpu Hne Hm Hf Hst Hctx Hp], Ho. cbn in *. split; [done|]. split.
  - split; cbn; try done.
    + by rewrite lookup_insert_eq.
    + rewrite lookup_insert_ne, lookup_insert_eq by done. f_equal.
      destruct x; cbn in *. by subst.
  - intros g ??. by rewrite !lookup_insert_ne.
Qed.

(** A fiber's life.  When the callback returns, [MainFunc] leaves the
    fiber terminated, without callback, and the thread in the code that
    resumed it.  A terminated fiber cannot be resumed; [reset] gives it a
    new callback and makes it ready again on the same stack. *)
Theorem fiber_lifecycle s m f y x cb run s1 s2 :
  resumable s m f y x → m_stack x = true → m_cb x = Some cb →
  resume f s = (Ret tt, s1) → run cb s1 = (Ret tt, s2) → keeps s1 s2 m f →
  ∃ s3, MainFunc run s1 = (Ret tt, s3) ∧ cpu (tl s3) = Some m ∧
    (∃ x3, fibers (sh s3) !! f = Some x3 ∧ m_state x3 = TERM ∧ m_cb x3 = None) ∧
    (resume f s3).1 = Crash assert_failed ∧
    ∀ cb', ∃ s4 y4 x4, reset f cb' s3 = (Ret tt, s4) ∧ resumable s4 m f y4 x4 ∧
      m_cb x4 = cb' ∧ m_stack x4 = true.
Proof.
  intros Hr Hstk Hcb E Erun Hk.
  destruct (resume_on s m f y x Hr) as (s1' & E' & Ht & Hon).
  assert (s1' = s1) as -> by congruence. clear E'.
  pose proof (Hon s1 ltac:(done)) as Ho1. pose proof (Hon s2 Hk) as Ho2.
  destruct Ho1 as [_ _ _ _ Hf1 _]. destruct Ho2 as [Hc2 Hne Hm2 _ Hf2 Hp2].
  set (x2 := set_state TERM (set_cb None (set_ctx None (set_state RUNNING x)))).
  set (s2' := mkFstate (set_fibers (<[f := x2]> (fibers (sh s2))) (sh s2)) (tl s2)).
  assert (on_fiber s2' m f (set_ctx (Some m) y) x2) as Ho.
  { split; try done; cbn; [by rewrite lookup_insert_ne|by rewrite lookup_insert_eq]. }
  assert (MainFunc run s1 = yield f s2') as EM.
  { unfold MainFunc, MainFunc_enter.
    rewrite (stE_bind_ret _ _ _ (f, cb) s1).
    2:{ rewrite (stE_bind_ret _ get _ _ _ eq_refl), Ht. cbn.
        rewrite (stE_bind_ret _ (pointer (Some f)) _ f s1) by done.
        rewrite (stE_bind_ret _ _ _ _ _ (obj_live f _ s1 Hf1)). cbn. by rewrite Hcb. }
    rewrite (stE_bind_ret _ _ _ _ _ Erun). unfold MainFunc_exit.
    erewrite (stE_bind_ret _ (_ ≫= _) s2); [reflexivity|].
    rewrite (stE_bind_ret _ _ _ _ _ (upd_live f _ _ s2 Hf2)).
    erewrite upd_live by (cbn; by apply lookup_insert_eq).
    unfold s2'. cbn. by rewrite insert_insert_eq. }
  rewrite EM. eexists. split; [apply yield_spec; [exact Ho|by right]|].
  destruct Hr as [Hcpu _ Hm Hf Hst Hctx Hp]. cbn. rewrite insert_insert_eq.
  set (s3 := mkFstate _ _).
  assert (fibers (sh s3) !! f = Some (set_ctx (Some f) x2)) as Hf3.
  { cbn. by rewrite lookup_insert_ne, lookup_insert_eq by done. }
  split; [done|]. split; [by eexists|]. split.
  - unfold resume. rewrite (stE_bind_ret _ _ _ _ _ (obj_live f _ s3 Hf3)). cbn.
    by rewrite (stE_bind_crash _ (ASSERT _) s3 assert_failed s3).
  - intros cb'. unfold reset. rewrite (stE_bind_ret _ _ _ _ _ (obj_live f _ s3 Hf3)). cbn.
    rewrite Hstk, !(stE_bind_ret _ (ASSERT _) _ tt s3) by done.
    erewrite stE_bind_ret by (by apply upd_live).
    erewrite stE_bind_ret by (apply upd_live; cbn; by apply lookup_insert_eq).
    erewrite upd_live by (cbn; by apply lookup_insert_eq).
    eexists _, (set_ctx None (set_ctx (Some m) y)),
      (set_state READY (set_ctx (Some f) (set_cb cb' (set_ctx (Some f) x2)))).
    split; [done|]. cbn. rewrite !insert_insert_eq. split; [|done].
    split; cbn; try done; [|by rewrite lookup_insert_eq].
    by rewrite lookup_insert_ne, lookup_insert_eq by done.
Qed.
End fiber.

(* ------------------------------------------------------------------ *)
(** ** A thread with its main fiber at 1 and a fiber at 2 *)

Definition sample_thread : @fstate nat :=
  ((_ ← GetThis 1 false; new_fiber 131072 2 (Some 7%nat) 0 false)
     (mkFstate (mkShared ∅ 0 0) (mkLocals None None None None))).2.

Definition sample_main : @Fiber nat := mkFiber 0 0 RUNNING None false None false.
Definition sample_fiber : @Fiber nat := mkFiber 1 131072 READY (Some 2) true (Some 7%nat) false.

Lemma sample_resumable : resumable sample_thread 1 2 sample_main sample_fiber.
Proof. by split; vm_compute. Defined.

Lemma fiber_switch_witness :
  ∃ s1, resume 2 sample_thread = (Ret tt, s1) ∧ cpu (tl s1) = Some 2 ∧ t_fiber (tl s1) = Some 2 ∧
    (m_state <$> fibers (sh s1) !! 2) = Some RUNNING ∧
    ∀ s2, keeps s1 s2 1 2 →
      ∃ s3, yield 2 s2 = (Ret tt, s3) ∧ t_fiber (tl s3) = t_thread_fiber (tl s3) ∧
        resumable s3 1 2 (set_ctx None sample_main) sample_fiber ∧
        ∀ g, g ≠ 1 → g ≠ 2 → fibers (sh s3) !! g = fibers (sh s2) !! g.
Proof. apply (fiber_switch sample_thread 1 2 sample_main sample_fiber sample_resumable). Defined.

Lemma fiber_lifecycle_witness :
  ∃ s3, MainFunc (λ _, mret tt) (resume 2 sample_thread).2 = (Ret tt, s3) ∧ cpu (tl s3) = Some 1 ∧
    (∃ x3, fibers (sh s3) !! 2 = Some x3 ∧ m_state x3 = TERM ∧ m_cb x3 = None) ∧
    (resume 2 s3).1 = Crash assert_failed ∧
    ∀ cb', ∃ s4 y4 x4, reset 2 cb' s3 = (Ret tt, s4) ∧ resumable s4 1 2 y4 x4 ∧
      m_cb x4 = cb' ∧ m_stack x4 = true.
Proof.
  apply (fiber_lifecycle sample_thread 1 2 sample_main sample_fiber 7%nat (λ _, mret tt)
           (resume 2 sample_thread).2 (resume 2 sample_thread).2 sample_resumable);
    vm_compute; done.
Defined.
