(* ===== verification/Scheduler.v ===== *)
(** * The N-M fiber scheduler ([scheduler.h], [scheduler.cc])

    The worker threads of one scheduler share the task queue, its mutex
    and the counters; each runs the loop [run] on its scheduler fiber.
    The loop is cut into steps at the points where other threads can come
    in between: taking the lock, each turn of the search (which reads the
    state of fibers that other threads change without the lock), the
    dispatch of the task found, and the return of the fiber to the loop.
    What the code of a fiber does is open: at each step it may schedule
    tasks, yield or return.  [yield] is two steps, because it marks the
    fiber ready before it saves its context. *)
From S2P Require Import Prelude Fiber.

Local Open Scope Z_scope.

Section scheduler.
Context {Cb : Type}.

(** What a fiber runs: a user callback, or one of the scheduler's own. *)
Inductive code := Idle | Run | User (c : Cb).

(* sylar/scheduler.h:141-165, Scheduler::ScheduleTask *)
Record ScheduleTask := mkTask { fiber : option Z; cb : option Cb; thread : Z }.

Definition no_task : ScheduleTask := mkTask None None (-1).

(** Where a worker is in [run]. *)
Inductive pc :=
  | Top
  | Scan (it : nat) (tickle_me : bool)
  | Unlocked (task : ScheduleTask) (tickle_me : bool)
  | InFiber (task : ScheduleTask)
  | InCb (task : ScheduleTask)
  | InIdle
  | Exited.

(** A thread in [run], with the local variables of [run]; [yielding] when
    its fiber is between the two steps of [yield]. *)
Record worker := mkWorker {
  loc : locals;
  at_ : pc;
  idle_fiber : Z;
  cb_fiber : option Z;
  yielding : bool
}.

(* sylar/scheduler.h:168-193, Scheduler *)
Record Scheduler := mkScheduler {
  shs : @shared code;
  m_tasks : list ScheduleTask;
  m_activeThreadCount : Z;
  m_idleThreadCount : Z;
  m_stopping : bool;
  m_mutex : option nat;
  workers : list worker
}.

Implicit Types (s : Scheduler) (t : nat) (w : worker) (k : ScheduleTask).

(** [sylar::GetThreadId()] of a worker: the threads are numbered. *)
Definition GetThreadId t : Z := Z.of_nat t.

Definition set_workers ws s := mkScheduler (shs s) (m_tasks s) (m_activeThreadCount s)
  (m_idleThreadCount s) (m_stopping s) (m_mutex s) ws.
Definition set_tasks ts s := mkScheduler (shs s) ts (m_activeThreadCount s)
  (m_idleThreadCount s) (m_stopping s) (m_mutex s) (workers s).
Definition set_active n s := mkScheduler (shs s) (m_tasks s) n
  (m_idleThreadCount s) (m_stopping s) (m_mutex s) (workers s).
Definition set_idle n s := mkScheduler (shs s) (m_tasks s) (m_activeThreadCount s)
  n (m_stopping s) (m_mutex s) (workers s).
Definition set_mutex o s := mkScheduler (shs s) (m_tasks s) (m_activeThreadCount s)
  (m_idleThreadCount s) (m_stopping s) o (workers s).
Definition set_stopping b s := mkScheduler (shs s) (m_tasks s) (m_activeThreadCount s)
  (m_idleThreadCount s) b (m_mutex s) (workers s).
Definition set_shared x s := mkScheduler x (m_tasks s) (m_activeThreadCount s)
  (m_idleThreadCount s) (m_stopping s) (m_mutex s) (workers s).

Definition set_pc p w := mkWorker (loc w) p (idle_fiber w) (cb_fiber w) (yielding w).
Definition set_loc l w := mkWorker l (at_ w) (idle_fiber w) (cb_fiber w) (yielding w).
Definition set_cb_fiber c w := mkWorker (loc w) (at_ w) (idle_fiber w) c (yielding w).
Definition set_yielding b w := mkWorker (loc w) (at_ w) (idle_fiber w) (cb_fiber w) b.

Definition the_worker t : stE Scheduler worker := λ s,
  match workers s !! t with Some w => (Ret w, s) | None => (Crash bad_call, s) end.
Definition upd_worker t (g : worker → worker) : stE Scheduler unit :=
  modify (λ s, set_workers (alter g t (workers s)) s).
Definition goto t (p : pc) : stE Scheduler unit := upd_worker t (set_pc p).

(** A fiber operation, run by worker [t]. *)
Definition on_worker {A} t (m : stE (@fstate code) A) : stE Scheduler A := λ s,
  match workers s !! t with
  | Some w =>
      let '(r, fs) := m (mkFstate (shs s) (loc w)) in
      (r, set_workers (alter (set_loc (tl fs)) t (workers s)) (set_shared (sh fs) s))
  | None => (Crash bad_call, s)
  end.

(** What an observer of the scheduler sees of a step. *)
Inductive event := Scheduled (k : ScheduleTask) | Completed (k : ScheduleTask) | Tickle.

Definition tickle (b : bool) : list event := if b then [Tickle] else [].

(* sylar/scheduler.cc:84-87, Scheduler::stopping *)
Definition stopping s : bool :=
  m_stopping s && match m_tasks s with [] => true | _ => false end
  && bool_decide (m_activeThreadCount s = 0).

(* sylar/scheduler.h:118-118, Scheduler::hasIdleThreads *)
Definition hasIdleThreads s : bool := bool_decide (0 < m_idleThreadCount s).

Definition is_task k : bool :=
  match fiber k, cb k with None, None => false | _, _ => true end.

(* sylar/scheduler.h:127-135, Scheduler::scheduleNoLock *)
Definition scheduleNoLock k : stE Scheduler (bool * list event) :=
  s ← get;
  let need_tickle := match m_tasks s with [] => true | _ => false end in
  if is_task k then
    _ ← modify (set_tasks (m_tasks s ++ [k]));
    mret (need_tickle, [Scheduled k])
  else mret (need_tickle, []).

(** The critical section is one step: it needs the lock to be free. *)
(* sylar/scheduler.h:65-76, Scheduler::schedule *)
Definition schedule k : stE Scheduler (list event) :=
  '(need_tickle, ev) ← scheduleNoLock k;
  mret (ev ++ tickle need_tickle).

(** [stop] up to the wake-ups: the rest waits for the workers. *)
(* sylar/scheduler.cc:100-120, Scheduler::stop *)
Definition stop (root : bool) : stE Scheduler (list event) :=
  s ← get;
  if stopping s then mret []
  else
    _ ← modify (set_stopping true);
    mret (replicate (length (workers s)) Tickle ++ tickle root).

(** A worker thread enters [run]: its own stack becomes fiber [main], the
    scheduler fiber, and [idle] is allocated for the idle fiber. *)
(* sylar/scheduler.cc:138-149, Scheduler::run *)
Definition enter_run (main idle : Z) : stE Scheduler (list event) := λ s,
  let '(r, fs) :=
    (f ← GetThis main false;
     _ ← modify (λ fs, mkFstate (sh fs) (mkLocals (t_fiber (tl fs)) (t_thread_fiber (tl fs))
                                           (Some f) (cpu (tl fs))));
     new_fiber 131072 idle (Some Idle) 0 true)
      (mkFstate (shs s) (mkLocals None None None None)) in
  match r with
  | Ret _ => (Ret [], set_workers (workers s ++ [mkWorker (tl fs) Top idle None false])
                        (set_shared (sh fs) s))
  | Throw e => (Throw e, s)
  | Crash c => (Crash c, s)
  end.

(** The caller thread enters [run] inside its root fiber: what the
    constructor prepared and [stop] resumed. *)
(* sylar/scheduler.cc:26-41, Scheduler::Scheduler *)
Definition enter_caller (main root idle : Z) : stE Scheduler (list event) := λ s,
  let '(r, fs) :=
    (_ ← GetThis main false;
     _ ← new_fiber 131072 root (Some Run) 0 false;
     _ ← modify (λ fs, mkFstate (sh fs) (mkLocals (t_fiber (tl fs)) (t_thread_fiber (tl fs))
                                           (Some root) (cpu (tl fs))));
     _ ← resume root;
     new_fiber 131072 idle (Some Idle) 0 true)
      (mkFstate (shs s) (mkLocals None None None None)) in
  match r with
  | Ret _ => (Ret [], set_workers (workers s ++ [mkWorker (tl fs) Top idle None false])
                        (set_shared (sh fs) s))
  | Throw e => (Throw e, s)
  | Crash c => (Crash c, s)
  end.

(** Top of the loop: take the lock and start at [m_tasks.begin()]. *)
(* sylar/scheduler.cc:150-156, Scheduler::run *)
Definition lock_tasks t : stE Scheduler (list event) :=
  _ ← modify (set_mutex (Some t));
  _ ← goto t (Scan 0 false);
  mret [].

(** Leaving the block: the lock is released. *)
Definition leave t k (tickle_me : bool) : stE Scheduler (list event) :=
  _ ← modify (set_mutex None);
  _ ← goto t (Unlocked k tickle_me);
  mret [].

(** [it->fiber && it->fiber->getState() == Fiber::RUNNING] *)
Definition is_running t (f : option Z) : stE Scheduler bool :=
  match f with
  | Some f => x ← on_worker t (obj f); mret (bool_decide (m_state x = RUNNING))
  | None => mret false
  end.

(** The fiber a callback runs in. *)
Definition callback_fiber t (a : Z) (old : option Z) (c : Cb) : stE Scheduler Z :=
  match old with
  | Some f => _ ← on_worker t (reset f (Some (User c))); mret f
  | None => _ ← on_worker t (new_fiber 131072 a (Some (User c)) 0 true); mret a
  end.

(** One turn of the search at position [it]. *)
(* sylar/scheduler.cc:157-189, Scheduler::run *)
Definition scan t (it : nat) (tickle_me : bool) : stE Scheduler (list event) :=
  s ← get;
  match m_tasks s !! it with
  | None => leave t no_task tickle_me
  | Some k =>
      if negb (bool_decide (thread k = -1)) && negb (bool_decide (thread k = GetThreadId t))
      then _ ← goto t (Scan (S it) true); mret []
      else if negb (is_task k) then crash assert_failed
      else
        running ← is_running t (fiber k);
        if (running : bool) then _ ← goto t (Scan (S it) tickle_me); mret []
        else
          _ ← modify (set_tasks (delete it (m_tasks s)));
          _ ← modify (set_active (u64 (m_activeThreadCount s + 1)));
          leave t k (tickle_me || bool_decide (it < length (delete it (m_tasks s)))%nat)
  end.

(** The task found is run; [a] is the address of the fiber a callback may
    need. *)
(* sylar/scheduler.cc:191-219, Scheduler::run *)
Definition dispatch t (a : Z) (k : ScheduleTask) (tickle_me : bool) : stE Scheduler (list event) :=
  w ← the_worker t;
  match fiber k, cb k with
  | Some f, _ =>
      _ ← on_worker t (resume f);
      _ ← goto t (InFiber k);
      mret (tickle tickle_me)
  | None, Some c =>
      f ← callback_fiber t a (cb_fiber w) c;
      _ ← upd_worker t (set_cb_fiber (Some f));
      _ ← on_worker t (resume f);
      _ ← goto t (InCb k);
      mret (tickle tickle_me)
  | None, None =>
      x ← on_worker t (obj (idle_fiber w));
      if decide (m_state x = TERM) then _ ← goto t Exited; mret (tickle tickle_me)
      else
        _ ← modify (λ s, set_idle (u64 (m_idleThreadCount s + 1)) s);
        _ ← on_worker t (resume (idle_fiber w));
        _ ← goto t InIdle;
        mret (tickle tickle_me)
  end.

(** The resumed fiber switched back to the loop. *)
(* sylar/scheduler.cc:195-221, Scheduler::run *)
Definition back t : stE Scheduler (list event) :=
  w ← the_worker t;
  match at_ w with
  | InFiber k =>
      _ ← modify (λ s, set_active (u64 (m_activeThreadCount s - 1)) s);
      _ ← goto t Top; mret [Completed k]
  | InCb k =>
      _ ← modify (λ s, set_active (u64 (m_activeThreadCount s - 1)) s);
      _ ← upd_worker t (set_cb_fiber None);
      _ ← goto t Top; mret [Completed k]
  | InIdle =>
      _ ← modify (λ s, set_idle (u64 (m_idleThreadCount s - 1)) s);
      _ ← goto t Top; mret []
  | _ => crash bad_call
  end.

(** One turn of the base class's [idle]. *)
(* sylar/scheduler.cc:93-98, Scheduler::idle *)
Definition idle t (f : Z) : stE Scheduler (list event) :=
  s ← get;
  if stopping s then _ ← on_worker t (MainFunc_exit f); mret []
  else
    _ ← on_worker t (yield_mark f);
    _ ← upd_worker t (set_yielding true); mret [].

(* ------------------------------------------------------------------ *)
(** ** Steps of the whole system *)

Inductive action :=
  | AEnter (main idle : Z)
  | AEnterCaller (main root idle : Z)
  | AStop (root : bool)
  | ASchedule (k : ScheduleTask)
  | ALock (t : nat)
  | AScan (t : nat)
  | ADispatch (t : nat) (a : Z)
  | AYieldMark (t : nat)
  | AYieldSwap (t : nat)
  | AFinish (t : nat)
  | AIdle (t : nat)
  | ABack (t : nat).

(** The fiber whose code worker [t] is in. *)
Definition current s t : option Z := w ← workers s !! t; cpu (loc w).
Definition pc_of s t : option pc := at_ <$> workers s !! t.

(** Worker [t] is in the code of a resumed fiber, which has not started
    to yield. *)
Definition in_code s t : bool :=
  match workers s !! t with
  | Some w => match at_ w with
              | InFiber _ | InCb _ => negb (yielding w)
                  && negb (bool_decide (cpu (loc w) = t_scheduler_fiber (loc w)))
              | _ => false
              end
  | None => false
  end.

(** The same for the idle fiber. *)
Definition in_idle s t : bool :=
  match workers s !! t with
  | Some w => match at_ w with
              | InIdle => negb (yielding w)
                  && negb (bool_decide (cpu (loc w) = t_scheduler_fiber (loc w)))
              | _ => false
              end
  | None => false
  end.

Definition running_code s t : bool :=
  match current s t with
  | Some f => match fibers (shs s) !! f with
              | Some x => bool_decide (m_state x = RUNNING)
              | None => false
              end
  | None => false
  end.

Definition enabled (a : action) s : bool :=
  match a with
  | AEnter main idle =>
      negb (m_stopping s) && bool_decide (Z.of_nat (length (workers s)) < 2 ^ 31)
      && bool_decide (main ≠ idle)
      && bool_decide (fibers (shs s) !! main = None) && bool_decide (fibers (shs s) !! idle = None)
  | AEnterCaller main root idle =>
      bool_decide (NoDup [main; root; idle])
      && bool_decide (Z.of_nat (length (workers s)) < 2 ^ 31)
      && forallb (λ f, bool_decide (fibers (shs s) !! f = None)) [main; root; idle]
  | AStop _ | ASchedule _ => bool_decide (m_mutex s = None)
  | ALock t => bool_decide (m_mutex s = None) && match pc_of s t with Some Top => true | _ => false end
  | AScan t => match pc_of s t with Some (Scan _ _) => true | _ => false end
  | ADispatch t a =>
      bool_decide (fibers (shs s) !! a = None)
      && match pc_of s t with Some (Unlocked _ _) => true | _ => false end
  | AYieldMark t => in_code s t || (in_idle s t && negb (running_code s t))
  | AYieldSwap t =>
      match workers s !! t with Some w => yielding w | None => false end
  | AFinish t => in_code s t && running_code s t
  | AIdle t => in_idle s t && running_code s t && bool_decide (m_mutex s = None)
  | ABack t =>
      match workers s !! t with
      | Some w => match at_ w with InFiber _ | InCb _ | InIdle => true | _ => false end
                  && negb (yielding w)
                  && bool_decide (cpu (loc w) = t_scheduler_fiber (loc w))
      | None => false
      end
  end.

Definition with_current {A} t (k : Z → stE Scheduler A) : stE Scheduler A :=
  s ← get; match current s t with Some f => k f | None => crash bad_call end.

Definition exec (a : action) : stE Scheduler (list event) :=
  match a with
  | AEnter main idle => enter_run main idle
  | AEnterCaller main root idle => enter_caller main root idle
  | AStop root => stop root
  | ASchedule k => schedule k
  | ALock t => lock_tasks t
  | AScan t =>
      s ← get;
      match pc_of s t with Some (Scan it tickle_me) => scan t it tickle_me | _ => crash bad_call end
  | ADispatch t a =>
      s ← get;
      match pc_of s t with Some (Unlocked k tickle_me) => dispatch t a k tickle_me
                         | _ => crash bad_call end
  | AYieldMark t =>
      with_current t (λ f, _ ← on_worker t (yield_mark f);
                           _ ← upd_worker t (set_yielding true); mret [])
  | AYieldSwap t =>
      with_current t (λ f, _ ← on_worker t (yield_swap f);
                           _ ← upd_worker t (set_yielding false); mret [])
  | AFinish t => with_current t (λ f, _ ← on_worker t (MainFunc_exit f); mret [])
  | AIdle t => with_current t (λ f, idle t f)
  | ABack t => back t
  end.

(* sylar/scheduler.cc:20-46, Scheduler::Scheduler *)
Definition new_scheduler : Scheduler :=
  mkScheduler (mkShared ∅ 0 0) [] 0 0 false None [].

(** Histories: the events so far, oldest first. *)
Inductive reachable : list event → Scheduler → Prop :=
  | reach_init : reachable [] new_scheduler
  | reach_step ev s a ev' s' :
      reachable ev s → enabled a s = true → exec a s = (Ret ev', s') →
      reachable (ev ++ ev') s'.

(** A run of the model, for concrete histories. *)
Fixpoint run_actions (l : list action) s : option (outcome (list event) * Scheduler) :=
  match l with
  | [] => Some (Ret [], s)
  | a :: l' =>
      if enabled a s then
        match exec a s with
        | (Ret ev, s') =>
            '(r, s'') ← run_actions l' s';
            Some (match r with Ret ev' => Ret (ev ++ ev') | Throw e => Throw e | Crash c => Crash c end, s'')
        | (r, s') => match l' with [] => Some (r, s') | _ => None end
        end
      else None
  end.
End scheduler.
