(* ===== verification/SchedulerTheorems.v ===== *)
(** * The scheduler: its queue as an abstract machine, and what follows

    [core] keeps of a scheduler what the bookkeeping depends on: where
    each worker is in its loop, the queue, the counters, the lock.
    [core_step] is the specification of one step; the detailed scheduler
    refines it, and the properties of the queue are proved about it. *)
From S2P Require Import Prelude Fiber Scheduler.

Local Open Scope Z_scope.

Section core.
Context {Cb : Type}.
Implicit Types (s : @Scheduler Cb) (t : nat) (k : @ScheduleTask Cb).

Record core := mkCore {
  c_pcs : list (@pc Cb);
  c_tasks : list (@ScheduleTask Cb);
  c_active : Z;
  c_idle : Z;
  c_stopping : bool;
  c_mutex : option nat
}.

Definition core_of s : core :=
  mkCore (at_ <$> workers s) (m_tasks s) (m_activeThreadCount s) (m_idleThreadCount s)
    (m_stopping s) (m_mutex s).

Definition at_pc t p (c : core) :=
  mkCore (<[t := p]> (c_pcs c)) (c_tasks c) (c_active c) (c_idle c) (c_stopping c) (c_mutex c).
Definition with_mutex o (c : core) :=
  mkCore (c_pcs c) (c_tasks c) (c_active c) (c_idle c) (c_stopping c) o.
Definition with_tasks l (c : core) :=
  mkCore (c_pcs c) l (c_active c) (c_idle c) (c_stopping c) (c_mutex c).
Definition with_active n (c : core) :=
  mkCore (c_pcs c) (c_tasks c) n (c_idle c) (c_stopping c) (c_mutex c).
Definition with_idle n (c : core) :=
  mkCore (c_pcs c) (c_tasks c) (c_active c) n (c_stopping c) (c_mutex c).

(** Which tasks worker [t] may take. *)
Definition mine t k : Prop := thread k = -1 ∨ thread k = GetThreadId t.

Inductive core_step (c : core) : list (@event Cb) → core → Prop :=
  | core_enter :
      Z.of_nat (length (c_pcs c)) < 2 ^ 31 →
      core_step c [] (mkCore (c_pcs c ++ [Top]) (c_tasks c) (c_active c) (c_idle c)
                        (c_stopping c) (c_mutex c))
  | core_stop ev :
      Forall (λ e, e = Tickle) ev →
      core_step c ev (mkCore (c_pcs c) (c_tasks c) (c_active c) (c_idle c) true (c_mutex c))
  | core_code ev : Forall (λ e, e = Tickle) ev → core_step c ev c
  | core_schedule k b :
      c_mutex c = None → is_task k = true →
      core_step c (Scheduled k :: tickle b) (with_tasks (c_tasks c ++ [k]) c)
  | core_lock t :
      c_mutex c = None → c_pcs c !! t = Some Top →
      core_step c [] (at_pc t (Scan 0 false) (with_mutex (Some t) c))
  | core_scan_end t it b :
      c_pcs c !! t = Some (Scan it b) → c_tasks c !! it = None →
      core_step c [] (at_pc t (Unlocked no_task b) (with_mutex None c))
  | core_scan_foreign t it b k :
      c_pcs c !! t = Some (Scan it b) → c_tasks c !! it = Some k → ¬ mine t k →
      core_step c [] (at_pc t (Scan (S it) true) c)
  | core_scan_running t it b k :
      c_pcs c !! t = Some (Scan it b) → c_tasks c !! it = Some k → mine t k →
      is_Some (fiber k) →
      core_step c [] (at_pc t (Scan (S it) b) c)
  | core_take t it b k :
      c_pcs c !! t = Some (Scan it b) → c_tasks c !! it = Some k → mine t k → is_task k = true →
      core_step c []
        (at_pc t (Unlocked k (b || bool_decide (it < length (delete it (c_tasks c)))%nat))
           (with_mutex None (with_active (u64 (c_active c + 1))
              (with_tasks (delete it (c_tasks c)) c))))
  | core_dispatch t k b p :
      c_pcs c !! t = Some (Unlocked k b) → is_task k = true → p = InFiber k ∨ p = InCb k →
      core_step c (tickle b) (at_pc t p c)
  | core_dispatch_idle t k b :
      c_pcs c !! t = Some (Unlocked k b) → is_task k = false →
      core_step c (tickle b) (at_pc t InIdle (with_idle (u64 (c_idle c + 1)) c))
  | core_exit t k b :
      c_pcs c !! t = Some (Unlocked k b) → is_task k = false →
      core_step c (tickle b) (at_pc t Exited c)
  | core_back t k :
      c_pcs c !! t = Some (InFiber k) ∨ c_pcs c !! t = Some (InCb k) →
      core_step c [Completed k] (at_pc t Top (with_active (u64 (c_active c - 1)) c))
  | core_back_idle t :
      c_pcs c !! t = Some InIdle →
      core_step c [] (at_pc t Top (with_idle (u64 (c_idle c - 1)) c)).

(* ------------------------------------------------------------------ *)
(** ** The detailed steps, seen through [core_of] *)

Lemma pcs_alter (g : worker → worker) t (ws : list (@worker Cb)) :
  (∀ w, at_ (g w) = at_ w) → at_ <$> alter g t ws = at_ <$> ws.
Proof.
  intros Hg. revert t. induction ws as [|w ws IH]; intros [|t]; try done.
  - cbn. by rewrite Hg.
  - cbn. f_equal. apply IH.
Qed.

Lemma pcs_goto p t (ws : list (@worker Cb)) :
  at_ <$> alter (set_pc p) t ws = <[t := p]> (at_ <$> ws).
Proof.
  revert t. induction ws as [|w ws IH]; intros [|t]; try done. cbn. f_equal. apply IH.
Qed.

Lemma on_worker_core {A} t (m : stE _ A) s r s' :
  on_worker t m s = (r, s') → core_of s' = core_of s.
Proof.
  unfold on_worker. destruct (workers s !! t) as [w|]; [|by intros [= _ <-]].
  destruct (m _) as [x fs]. intros [= _ <-]. unfold core_of. cbn. f_equal. by apply pcs_alter.
Qed.

Lemma goto_core t p s r s' : goto t p s = (r, s') → core_of s' = at_pc t p (core_of s).
Proof. intros [= _ <-]. unfold core_of, at_pc. cbn. f_equal. apply pcs_goto. Qed.

Lemma upd_worker_core t g s r s' : upd_worker t g s = (r, s') →
  (∀ w, at_ (g w) = at_ w) → core_of s' = core_of s.
Proof. intros [= _ <-] Hg. unfold core_of. cbn. f_equal. by apply pcs_alter. Qed.

Lemma pcs_lookup t s : c_pcs (core_of s) !! t = pc_of s t.
Proof. unfold pc_of. cbn. apply list_lookup_fmap. Qed.

Lemma the_worker_inv t s w s' : the_worker t s = (Ret w, s') → s' = s ∧ workers s !! t = Some w.
Proof. unfold the_worker. destruct (workers s !! t); by intros [= -> <-]. Qed.

Lemma tickle_only b : Forall (λ e : @event Cb, e = Tickle) (tickle b).
Proof. destruct b; by repeat constructor. Qed.

Lemma enter_core (m : stE _ unit) s idle ev s' :
  (let '(r, fs) := m (mkFstate (shs s) (mkLocals None None None None)) in
   match r with
   | Ret _ => (Ret [], set_workers (workers s ++ [mkWorker (tl fs) Top idle None false])
                         (set_shared (sh fs) s))
   | Throw e => (Throw e, s)
   | Crash c => (Crash c, s)
   end) = (Ret ev, s') →
  Z.of_nat (length (workers s)) < 2 ^ 31 → core_step (core_of s) ev (core_of s').
Proof.
  destruct (m _) as [[u|e|f] fs]; intros [= <- <-] Hl.
  unfold core_of. cbn. rewrite fmap_app. apply core_enter. cbn. by rewrite length_fmap.
Qed.

Lemma is_running_core t f s b s' : is_running t f s = (Ret b, s') →
  core_of s' = core_of s ∧ (b = true → is_Some f).
Proof.
  unfold is_running. destruct f as [f|]; intros H; [|by stE_ret H].
  stE_call H x s1 E. stE_ret H. split; [by eapply on_worker_core|done].
Qed.

Lemma mine_spec t k :
  negb (bool_decide (thread k = -1)) && negb (bool_decide (thread k = GetThreadId t)) = true
  ↔ ¬ mine t k.
Proof.
  unfold mine. rewrite andb_true_iff, !negb_true_iff, !bool_decide_eq_false. tauto.
Qed.

Lemma scan_core t it b s ev s' : pc_of s t = Some (Scan it b) →
  scan t it b s = (Ret ev, s') → core_step (core_of s) ev (core_of s').
Proof.
  intros Hpc H. rewrite <- pcs_lookup in Hpc. unfold scan, leave in H. stE_simpl H.
  destruct (m_tasks s !! it) as [k|] eqn:Hk.
  - destruct (negb (bool_decide (thread k = -1)) && _) eqn:Hmine.
    { stE_call H u s1 E. stE_ret H. rewrite (goto_core _ _ _ _ _ E).
      eapply core_scan_foreign; [done|done|by apply mine_spec]. }
    destruct (negb (is_task k)) eqn:Htask; [done|]. apply negb_false_iff in Htask.
    assert (mine t k) as Hm.
    { destruct (decide (mine t k)) as [|Hn]; [done|]. apply mine_spec in Hn. congruence. }
    stE_call H r s1 E. destruct (is_running_core _ _ _ _ _ E) as [Hc Hf]. destruct r.
    + stE_call H u s2 E2. stE_ret H. rewrite (goto_core _ _ _ _ _ E2), Hc.
      eapply core_scan_running; [done|done|done|by apply Hf].
    + stE_call H u s2 E2. stE_ret H.
      rewrite (goto_core _ _ _ _ _ E2).
      replace (core_of (set_mutex None _)) with (with_mutex None (with_active
        (u64 (c_active (core_of s) + 1)) (with_tasks (delete it (c_tasks (core_of s))) (core_of s))));
        [by eapply core_take|]. rewrite <- Hc at 3. done.
  - stE_call H u s1 E. stE_ret H. rewrite (goto_core _ _ _ _ _ E).
    by eapply core_scan_end.
Qed.

Lemma callback_fiber_core t a old c s f s' :
  callback_fiber t a old c s = (Ret f, s') → core_of s' = core_of s.
Proof.
  unfold callback_fiber. destruct old as [f0|]; intros H; stE_call H u s1 E; stE_ret H;
    by eapply on_worker_core.
Qed.

Lemma dispatch_core t a k b s ev s' : pc_of s t = Some (Unlocked k b) →
  dispatch t a k b s = (Ret ev, s') → core_step (core_of s) ev (core_of s').
Proof.
  intros Hpc H. rewrite <- pcs_lookup in Hpc. unfold dispatch in H. stE_call H w s0 Ew.
  apply the_worker_inv in Ew as [-> _].
  assert (is_task k = match fiber k, cb k with None, None => false | _, _ => true end) as Ht by done.
  destruct (fiber k) as [f|]; [|destruct (cb k) as [c|]].
  - stE_call H u s1 E1. stE_call H v s2 E2. stE_ret H.
    rewrite (goto_core _ _ _ _ _ E2), (on_worker_core _ _ _ _ _ E1).
    eapply core_dispatch; [done|done|by left].
  - stE_call H f s1 E1. stE_call H u s2 E2. stE_call H v s3 E3. stE_call H x s4 E4. stE_ret H.
    rewrite (goto_core _ _ _ _ _ E4), (on_worker_core _ _ _ _ _ E3).
    rewrite (upd_worker_core _ _ _ _ _ E2 (λ _, eq_refl)), (callback_fiber_core _ _ _ _ _ _ _ E1).
    eapply core_dispatch; [done|done|by right].
  - stE_call H x s1 E1. apply on_worker_core in E1. case_decide.
    + stE_call H u s2 E2. stE_ret H. rewrite (goto_core _ _ _ _ _ E2), E1.
      by eapply core_exit.
    + stE_call H u s2 E2. stE_call H v s3 E3. stE_ret H.
      rewrite (goto_core _ _ _ _ _ E3), (on_worker_core _ _ _ _ _ E2).
      change (core_of (set_idle _ s1))
        with (with_idle (u64 (c_idle (core_of s1) + 1)) (core_of s1)). rewrite E1.
      by eapply core_dispatch_idle.
Qed.

Lemma back_core t s ev s' : back t s = (Ret ev, s') → core_step (core_of s) ev (core_of s').
Proof.
  intros H. unfold back in H. stE_call H w s0 Ew. apply the_worker_inv in Ew as [-> Hw].
  assert (c_pcs (core_of s) !! t = Some (at_ w)) as Hpc
    by (rewrite pcs_lookup; unfold pc_of; by rewrite Hw).
  destruct (at_ w) as [| | |k|k| |]; try done.
  - stE_call H u s1 E1. stE_ret H. rewrite (goto_core _ _ _ _ _ E1). apply core_back. by left.
  - stE_call H v s1 E1. stE_call H u s2 E2. stE_ret H.
    rewrite (goto_core _ _ _ _ _ E2), (upd_worker_core _ _ _ _ _ E1 (λ _, eq_refl)).
    apply core_back. by right.
  - stE_call H u s1 E1. stE_ret H. rewrite (goto_core _ _ _ _ _ E1). by apply core_back_idle.
Qed.

Lemma exec_core a s ev s' : enabled a s = true → exec a s = (Ret ev, s') →
  core_step (core_of s) ev (core_of s').
Proof.
  intros Hen H.
  destruct a as [m i|m r i|root|k|t|t|t a|t|t|t|t|t]; cbn [exec enabled] in *.
  - rewrite !andb_true_iff, !bool_decide_eq_true in Hen. eapply enter_core; [done|tauto].
  - rewrite !andb_true_iff, !bool_decide_eq_true in Hen. eapply enter_core; [done|tauto].
  - unfold stop in H. stE_simpl H. destruct (stopping s).
    + stE_ret H. by apply core_code.
    + stE_ret H. apply core_stop. apply Forall_app. split; [|apply tickle_only].
      by apply Forall_replicate.
  - unfold schedule in H. stE_call H r s1 E. destruct r as [b ev1]. stE_ret H.
    unfold scheduleNoLock in E. stE_simpl E. destruct (is_task k) eqn:Hk.
    + stE_simpl E. injection E as <- <- <-. apply bool_decide_eq_true in Hen.
      by apply core_schedule.
    + injection E as <- <- <-. apply core_code, tickle_only.
  - apply andb_true_iff in Hen as [Hm Ht]. apply bool_decide_eq_true in Hm.
    unfold lock_tasks in H. stE_simpl H. stE_call H u s1 E. stE_ret H.
    rewrite (goto_core _ _ _ _ _ E). apply core_lock; [done|]. rewrite pcs_lookup.
    by destruct (pc_of s t) as [[]|].
  - stE_simpl H. destruct (pc_of s t) as [[]|] eqn:Hpc; try done. by eapply scan_core.
  - stE_simpl H. destruct (pc_of s t) as [[]|] eqn:Hpc; try done. by eapply dispatch_core.
  - unfold with_current in H. stE_simpl H. destruct (current s t); [|done].
    stE_call H u s1 E1. stE_call H v s2 E2. stE_ret H.
    rewrite (upd_worker_core _ _ _ _ _ E2 (λ _, eq_refl)), (on_worker_core _ _ _ _ _ E1).
    by apply core_code.
  - unfold with_current in H. stE_simpl H. destruct (current s t); [|done].
    stE_call H u s1 E1. stE_call H v s2 E2. stE_ret H.
    rewrite (upd_worker_core _ _ _ _ _ E2 (λ _, eq_refl)), (on_worker_core _ _ _ _ _ E1).
    by apply core_code.
  - unfold with_current in H. stE_simpl H. destruct (current s t); [|done].
    stE_call H u s1 E1. stE_ret H. rewrite (on_worker_core _ _ _ _ _ E1). by apply core_code.
  - unfold with_current in H. stE_simpl H. destruct (current s t) as [f|]; [|done].
    unfold idle in H. stE_simpl H. destruct (stopping s).
    + stE_call H u s1 E1. stE_ret H. rewrite (on_worker_core _ _ _ _ _ E1). by apply core_code.
    + stE_call H u s1 E1. stE_call H v s2 E2. stE_ret H.
      rewrite (upd_worker_core _ _ _ _ _ E2 (λ _, eq_refl)), (on_worker_core _ _ _ _ _ E1).
      by apply core_code.
  - by eapply back_core.
Qed.

(* ------------------------------------------------------------------ *)
(** ** Invariants of the queue *)

Definition scheduled (ev : list (@event Cb)) : list ScheduleTask :=
  omap (λ e, match e with Scheduled k => Some k | _ => None end) ev.
Definition completed (ev : list (@event Cb)) : list ScheduleTask :=
  omap (λ e, match e with Completed k => Some k | _ => None end) ev.

(** The task a worker has taken and not finished. *)
Definition flight_of (p : @pc Cb) : list ScheduleTask :=
  match p with
  | Unlocked k _ => if is_task k then [k] else []
  | InFiber k | InCb k => [k]
  | _ => []
  end.
Definition flight (c : core) : list ScheduleTask := concat (flight_of <$> c_pcs c).

Record inv (ev : list (@event Cb)) (c : core) : Prop := {
  inv_tasks : scheduled ev ≡ₚ c_tasks c ++ flight c ++ completed ev;
  inv_workers : Z.of_nat (length (c_pcs c)) <= 2 ^ 31;
  inv_real k : k ∈ c_tasks c → is_task k = true;
  inv_active : c_active c = u64 (Z.of_nat (length (flight c)));
  inv_scan t it b : c_pcs c !! t = Some (Scan it b) →
    c_mutex c = Some t ∧
    ∀ j k, (j < it)%nat → c_tasks c !! j = Some k →
      (¬ mine t k ∧ b = true) ∨ (mine t k ∧ is_Some (fiber k))
}.

Lemma flight_at t p q c : c_pcs c !! t = Some q →
  flight (at_pc t p c) ++ flight_of q ≡ₚ flight c ++ flight_of p.
Proof.
  unfold flight. cbn. generalize (c_pcs c) as l. intros l. revert t.
  induction l as [|r l IH]; intros [|t] Ht; try done.
  - cbn in *. injection Ht as ->. solve_Permutation.
  - cbn in *. rewrite <- !(assoc_L (++)). by rewrite IH.
Qed.

(** The ways a step moves tasks in and out of flight. *)
Lemma flight_same t p q c : c_pcs c !! t = Some q → flight_of p = flight_of q →
  flight (at_pc t p c) ≡ₚ flight c.
Proof.
  intros Hq Hp. pose proof (flight_at t p q c Hq) as H. rewrite Hp in H.
  by apply Permutation_app_inv_r in H.
Qed.

Lemma flight_take t p q c k : c_pcs c !! t = Some q → flight_of q = [] → flight_of p = [k] →
  flight (at_pc t p c) ≡ₚ k :: flight c.
Proof.
  intros Hq H0 Hp. pose proof (flight_at t p q c Hq) as H. rewrite H0, Hp, app_nil_r in H.
  by rewrite H, Permutation_app_comm.
Qed.

Lemma flight_done t p q c k : c_pcs c !! t = Some q → flight_of q = [k] → flight_of p = [] →
  flight c ≡ₚ k :: flight (at_pc t p c).
Proof.
  intros Hq H0 Hp. pose proof (flight_at t p q c Hq) as H. rewrite H0, Hp, app_nil_r in H.
  by rewrite <- H, Permutation_app_comm.
Qed.

Lemma ticks_only ev : Forall (λ e : @event Cb, e = Tickle) ev → scheduled ev = [] ∧ completed ev = [].
Proof. induction 1 as [|e ev -> _ IH]; [done|]. destruct IH as [H1 H2]. by cbn. Qed.

Lemma scheduled_app ev1 ev2 : scheduled (ev1 ++ ev2) = scheduled ev1 ++ scheduled ev2.
Proof. apply omap_app. Qed.
Lemma completed_app ev1 ev2 : completed (ev1 ++ ev2) = completed ev1 ++ completed ev2.
Proof. apply omap_app. Qed.

Lemma wrap_pred n : (0 < n)%nat → u64 (u64 (Z.of_nat n) - 1) = u64 (Z.of_nat (n - 1)).
Proof.
  intros Hn. unfold wrapu. rewrite Zminus_mod_idemp_l. f_equal. lia.
Qed.
Lemma wrap_succ n : u64 (u64 (Z.of_nat n) + 1) = u64 (Z.of_nat (S n)).
Proof. unfold wrapu. rewrite Zplus_mod_idemp_l. f_equal. lia. Qed.

(** Who searches holds the lock, so two workers never search at once. *)
Lemma scan_alone ev c t it b t' it' b' : inv ev c →
  c_pcs c !! t = Some (Scan it b) → c_pcs c !! t' = Some (Scan it' b') → t = t'.
Proof. intros I H H'. destruct (inv_scan _ _ I _ _ _ H), (inv_scan _ _ I _ _ _ H'). congruence. Qed.

Lemma ev_nil : scheduled [] = [] ∧ completed [] = [].
Proof. done. Qed.
Lemma ev_schedule k b :
  scheduled (Scheduled k :: tickle b) = [k] ∧ completed (Scheduled k :: tickle b) = [].
Proof. by destruct b. Qed.
Lemma ev_done k : scheduled [Completed k] = [] ∧ completed [Completed k] = [k].
Proof. done. Qed.

Section step.
Context (ev : list (@event Cb)) (c : core) (I : inv ev c).

Lemma step_tasks ev' c' : core_step c ev' c' →
  scheduled (ev ++ ev') ≡ₚ c_tasks c' ++ flight c' ++ completed (ev ++ ev').
Proof using I.
  pose proof (inv_tasks _ _ I) as HT. rewrite scheduled_app, completed_app.
  destruct 1 as [|ev' Ht|ev' Ht|k b Hm Hk|t Hm Ht|t it b Ht Hk|t it b k Ht Hk Hm|t it b k Ht Hk Hm Hf
                |t it b k Ht Hk Hm Hr|t k b p Ht Hk Hp|t k b Ht Hk|t k b Ht Hk|t k Ht|t Ht];
    cbn [c_tasks at_pc with_mutex with_tasks with_active with_idle];
    rewrite ?(proj1 ev_nil), ?(proj2 ev_nil), ?app_nil_r.
  - unfold flight in *. cbn. rewrite fmap_app, concat_app, ?app_nil_r. cbn. by rewrite ?app_nil_r.
  - destruct (ticks_only _ Ht) as [-> ->]. by rewrite ?app_nil_r.
  - destruct (ticks_only _ Ht) as [-> ->]. by rewrite ?app_nil_r.
  - destruct (ev_schedule k b) as [-> ->]. rewrite app_nil_r, HT.
    change (flight (with_tasks _ c)) with (flight c). solve_Permutation.
  - rewrite (flight_same _ _ Top) by done. by rewrite ?app_nil_r.
  - rewrite (flight_same _ _ (Scan it b)) by done. by rewrite ?app_nil_r.
  - rewrite (flight_same _ _ (Scan it b)) by done. by rewrite ?app_nil_r.
  - rewrite (flight_same _ _ (Scan it b)) by done. by rewrite ?app_nil_r.
  - rewrite (flight_take _ _ (Scan it b) _ k); [|done|done|cbn; by rewrite Hr].
    rewrite ?app_nil_r, HT. rewrite (delete_Permutation _ _ _ Hk) at 1.
    change (flight (with_mutex _ _)) with (flight c). solve_Permutation.
  - destruct (ticks_only _ (tickle_only b)) as [-> ->]. rewrite ?app_nil_r.
    rewrite (flight_same _ _ (Unlocked k b)); [done|done|].
    cbn. rewrite Hk. by destruct Hp as [-> | ->].
  - destruct (ticks_only _ (tickle_only b)) as [-> ->]. rewrite ?app_nil_r.
    rewrite (flight_same _ _ (Unlocked k b)); [done|done|]. cbn. by rewrite Hk.
  - destruct (ticks_only _ (tickle_only b)) as [-> ->]. rewrite ?app_nil_r.
    rewrite (flight_same _ _ (Unlocked k b)); [done|done|]. cbn. by rewrite Hk.
  - change (flight (at_pc t Top (with_active _ c))) with (flight (at_pc t Top c)).
    rewrite ?(proj1 (ev_done k)), (proj2 (ev_done k)), ?app_nil_r, HT.
    assert (flight c ≡ₚ k :: flight (at_pc t Top c)) as ->
      by (destruct Ht as [Ht|Ht]; by eapply flight_done).
    solve_Permutation.
  - change (flight (at_pc t Top (with_idle _ c))) with (flight (at_pc t Top c)).
    rewrite (flight_same _ _ InIdle) by done. by rewrite ?app_nil_r.
Qed.

Lemma step_active ev' c' : core_step c ev' c' →
  c_active c' = u64 (Z.of_nat (length (flight c'))).
Proof using I.
  pose proof (inv_active _ _ I) as HA.
  destruct 1 as [|ev' Ht|ev' Ht|k b Hm Hk|t Hm Ht|t it b Ht Hk|t it b k Ht Hk Hm|t it b k Ht Hk Hm Hf
                |t it b k Ht Hk Hm Hr|t k b p Ht Hk Hp|t k b Ht Hk|t k b Ht Hk|t k Ht|t Ht];
    cbn [c_active at_pc with_mutex with_tasks with_active with_idle].
  - rewrite HA. unfold flight. cbn. rewrite fmap_app, concat_app. cbn. by rewrite app_nil_r.
  - done.
  - done.
  - done.
  - by rewrite (flight_same _ _ Top).
  - by rewrite (flight_same _ _ (Scan it b)).
  - by rewrite (flight_same _ _ (Scan it b)).
  - by rewrite (flight_same _ _ (Scan it b)).
  - rewrite (flight_take _ _ (Scan it b) _ k); [|done|done|cbn; by rewrite Hr].
    rewrite HA. apply wrap_succ.
  - rewrite (flight_same _ _ (Unlocked k b)); [done|done|].
    cbn. rewrite Hk. by destruct Hp as [-> | ->].
  - rewrite (flight_same _ _ (Unlocked k b)); [done|done|]. cbn. by rewrite Hk.
  - rewrite (flight_same _ _ (Unlocked k b)); [done|done|]. cbn. by rewrite Hk.
  - change (flight (at_pc t Top (with_active _ c))) with (flight (at_pc t Top c)).
    assert (flight c ≡ₚ k :: flight (at_pc t Top c)) as HP
      by (destruct Ht as [Ht|Ht]; by eapply flight_done).
    rewrite HA, HP. rewrite wrap_pred by (cbn; lia). do 2 f_equal. cbn. lia.
  - by rewrite (flight_same _ _ InIdle).
Qed.

Lemma step_workers ev' c' : core_step c ev' c' → Z.of_nat (length (c_pcs c')) <= 2 ^ 31.
Proof using I.
  pose proof (inv_workers _ _ I) as HW. destruct 1; cbn; rewrite ?length_insert, ?length_app; cbn; lia.
Qed.

Lemma step_real ev' c' : core_step c ev' c' → ∀ k, k ∈ c_tasks c' → is_task k = true.
Proof using I.
  pose proof (inv_real _ _ I) as HR. destruct 1; cbn; try done.
  - intros k' [?|[->|?%not_elem_of_nil]%elem_of_cons]%elem_of_app; auto; done.
  - intros k' Hk'. apply HR. rewrite delete_take_drop in Hk'.
    apply elem_of_app in Hk' as [?|?]; [by eapply subseteq_take|by eapply subseteq_drop].
Qed.

Lemma lookup_at t p t' q : c_pcs (at_pc t p c) !! t' = Some q →
  (t' = t ∧ q = p) ∨ (t' ≠ t ∧ c_pcs c !! t' = Some q).
Proof using Type.
  cbn. intros H. destruct (decide (t' = t)) as [->|Hne].
  - apply list_lookup_insert_Some in H. naive_solver.
  - right. by rewrite list_lookup_insert_ne in H.
Qed.

(** The search, one turn on. *)
Lemma scan_next t it b b' k : c_pcs c !! t = Some (Scan it b) → c_tasks c !! it = Some k →
  (b = true → b' = true) → (¬ mine t k ∧ b' = true) ∨ (mine t k ∧ is_Some (fiber k)) →
  ∀ t' it' b'', c_pcs (at_pc t (Scan (S it) b') c) !! t' = Some (Scan it' b'') →
  c_mutex c = Some t' ∧ ∀ j k', (j < it')%nat → c_tasks c !! j = Some k' →
    (¬ mine t' k' ∧ b'' = true) ∨ (mine t' k' ∧ is_Some (fiber k')).
Proof using I.
  intros Ht Hk Hb Hkk t' it' b'' H. pose proof (inv_scan _ _ I) as HS.
  destruct (HS _ _ _ Ht) as [Hmu Hpre].
  apply lookup_at in H as [[-> [= -> ->]]|[_ H]]; [|by apply HS].
  split; [done|]. intros j k' Hj Hk'. destruct (decide (j = it)) as [->|Hne].
  - assert (k' = k) as -> by congruence. done.
  - destruct (Hpre j k' ltac:(lia) Hk') as [[? ?]|?]; [left|by right]. auto.
Qed.

Lemma step_scan ev' c' : core_step c ev' c' → ∀ t it b, c_pcs c' !! t = Some (Scan it b) →
    c_mutex c' = Some t ∧
    ∀ j k, (j < it)%nat → c_tasks c' !! j = Some k →
      (¬ mine t k ∧ b = true) ∨ (mine t k ∧ is_Some (fiber k)).
Proof using I.
  pose proof (inv_scan _ _ I) as HS.
  assert (∀ t p m, (∀ it b, p ≠ Scan it b) → ∀ t' it b,
    c_pcs (at_pc t p c) !! t' = Some (Scan it b) → (m = c_mutex c ∨ ∃ i b, c_pcs c !! t = Some (Scan i b)) →
    m = Some t' ∧ ∀ j k, (j < it)%nat → c_tasks c !! j = Some k →
      (¬ mine t' k ∧ b = true) ∨ (mine t' k ∧ is_Some (fiber k))) as Hoff.
  { intros t p m Hp t' it b H Hm. apply lookup_at in H as [[-> Hq]|[Hne H]]; [by destruct (Hp it b)|].
    destruct (HS _ _ _ H). destruct Hm as [->|(i & b0 & Hi)]; [done|].
    by destruct Hne; eapply (scan_alone ev c); eauto. }
  destruct 1 as [Hw|ev' Ht|ev' Ht|k b Hm Hk|t Hm Ht|t it b Ht Hk|t it b k Ht Hk Hm|t it b k Ht Hk Hm Hf
                |t it b k Ht Hk Hm Hr|t k b p Ht Hk Hp|t k b Ht Hk|t k b Ht Hk|t k Ht|t Ht];
    intros t' it' b' H; cbn [c_mutex c_tasks at_pc with_mutex with_tasks with_active with_idle] in *.
  - cbn in H. apply lookup_app_Some in H as [H|[_ H]]; [by apply HS|].
    destruct (t' - length (c_pcs c))%nat as [|[]]; done.
  - by apply HS.
  - by apply HS.
  - destruct (HS _ _ _ H). congruence.
  - apply lookup_at in H as [[-> [= -> ->]]|[_ H]]; [split; [done|lia]|].
    destruct (HS _ _ _ H). congruence.
  - eapply Hoff; [|exact H|]; eauto.
  - eapply (scan_next t it b true k); eauto; done.
  - eapply (scan_next t it b b k); eauto.
  - apply lookup_at in H as [[-> ?]|[Hne H]]; [done|].
    destruct Hne. by eapply (scan_alone ev c).
  - eapply Hoff; [|exact H|by left]. by destruct Hp as [-> | ->].
  - eapply Hoff; [|exact H|by left]. done.
  - eapply Hoff; [|exact H|by left]. done.
  - eapply Hoff; [|exact H|by left]. done.
  - eapply Hoff; [|exact H|by left]. done.
Qed.
End step.

Lemma inv_step ev c ev' c' : inv ev c → core_step c ev' c' → inv (ev ++ ev') c'.
Proof.
  intros I Hs. split; [by eapply step_tasks|by eapply step_workers|by eapply step_real
    |by eapply step_active|by eapply step_scan].
Qed.

Lemma reachable_inv ev s : reachable ev s → inv ev (core_of s).
Proof.
  induction 1 as [|ev s a ev' s' _ IH Hen E].
  - split; cbn; try done. intros k Hk. by apply not_elem_of_nil in Hk.
  - eapply inv_step; [done|]. by eapply exec_core.
Qed.

(* ------------------------------------------------------------------ *)
(** ** Properties *)

Lemma flight_length c : (length (flight c) ≤ length (c_pcs c))%nat.
Proof.
  unfold flight. induction (c_pcs c) as [|p l IH]; [done|]. cbn. rewrite length_app.
  assert (length (flight_of p) ≤ 1)%nat by (destruct p; cbn; try case_match; cbn; lia). lia.
Qed.

Lemma active_in_flight ev s : reachable ev s →
  m_activeThreadCount s = Z.of_nat (length (flight (core_of s))).
Proof.
  intros Hr. pose proof (reachable_inv ev s Hr) as I.
  change (m_activeThreadCount s) with (c_active (core_of s)).
  rewrite (inv_active _ _ I). apply wrapu_small. pose proof (flight_length (core_of s)).
  pose proof (inv_workers _ _ I). unfold in_u. lia.
Qed.

(** C7: the scheduler refines its queue machine.  Every step of a
    reachable scheduler, seen through the queue, the counters, the lock
    and the places of the workers, is a step of [core_step]; in every
    reachable state the active count is exactly the number of tasks taken
    and not finished, and only the holder of the lock searches. *)
Theorem scheduler_refines ev s : reachable ev s →
  m_activeThreadCount s = Z.of_nat (length (flight (core_of s))) ∧
  (∀ t it b, pc_of s t = Some (Scan it b) → m_mutex s = Some t) ∧
  ∀ a ev' s', enabled a s = true → exec a s = (Ret ev', s') →
    core_step (core_of s) ev' (core_of s').
Proof.
  intros Hr. pose proof (reachable_inv ev s Hr) as I. split_and!.
  - by eapply active_in_flight.
  - intros t it b H. rewrite <- pcs_lookup in H. by destruct (inv_scan _ _ I _ _ _ H).
  - intros a ev' s'. apply exec_core.
Qed.

(** C8: no task is lost and none runs twice.  At every moment the tasks
    scheduled so far are those in the queue, those a worker has taken and
    not finished, and those completed, each as often as it was scheduled;
    when [stopping] holds, which is when the idle fibers end and the
    workers leave [run], every task scheduled has been completed. *)
Theorem tasks_conserved ev s : reachable ev s →
  scheduled ev ≡ₚ m_tasks s ++ flight (core_of s) ++ completed ev ∧
  (stopping s = true → scheduled ev ≡ₚ completed ev).
Proof.
  intros Hr. pose proof (reachable_inv ev s Hr) as I.
  split; [apply (inv_tasks _ _ I)|]. intros Hs. unfold stopping in Hs.
  rewrite !andb_true_iff, bool_decide_eq_true in Hs. destruct Hs as [[_ Ht] Ha].
  pose proof (inv_tasks _ _ I) as HT. change (c_tasks (core_of s)) with (m_tasks s) in HT.
  destruct (m_tasks s); [|done].
  pose proof (active_in_flight ev s Hr) as Hact. rewrite Ha in Hact.
  destruct (flight (core_of s)); [done|cbn in Hact; lia].
Qed.

(** The state of the fiber a task names, if it names one. *)
Definition task_state s k : option State := f ← fiber k; m_state <$> fibers (shs s) !! f.

(** Where one turn of the search at position [it] must lead. *)
Definition search_turn s t it (b : bool) : core :=
  match m_tasks s !! it with
  | None => at_pc t (Unlocked no_task b) (with_mutex None (core_of s))
  | Some k =>
      if decide (mine t k) then
        if decide (task_state s k = Some RUNNING) then at_pc t (Scan (S it) b) (core_of s)
        else
          at_pc t (Unlocked k (b || bool_decide (S it < length (m_tasks s))%nat))
            (with_mutex None (with_active (u64 (m_activeThreadCount s + 1))
               (with_tasks (delete it (m_tasks s)) (core_of s))))
      else at_pc t (Scan (S it) true) (core_of s)
  end.

(** The fiber a task of worker [t] names has not been deleted. *)
Definition target_alive s t k : Prop :=
  mine t k → ∀ f, fiber k = Some f → is_Some (fibers (shs s) !! f).

Lemma is_running_spec s t w f : workers s !! t = Some w →
  (∀ g, f = Some g → is_Some (fibers (shs s) !! g)) →
  ∃ s', is_running t f s
        = (Ret (bool_decide ((g ← f; m_state <$> fibers (shs s) !! g) = Some RUNNING)), s') ∧
    core_of s' = core_of s.
Proof.
  intros Hw Hf. destruct f as [g|]; [|by eexists]. destruct (Hf g eq_refl) as [x Hx].
  assert (bool_decide ((g ← Some g; m_state <$> fibers (shs s) !! g) = Some RUNNING)
          = bool_decide (m_state x = RUNNING)) as ->.
  { cbn. rewrite Hx. apply bool_decide_ext. cbn. split; congruence. }
  assert (on_worker t (obj g) s
          = (Ret x, set_workers (alter (set_loc (loc w)) t (workers s)) (set_shared (shs s) s))) as E.
  { unfold on_worker, obj. rewrite Hw. cbn. by rewrite Hx. }
  unfold is_running. rewrite (stE_bind_ret _ _ _ _ _ E). eexists. split; [done|].
  by eapply on_worker_core.
Qed.

Lemma scan_exact s t it b : pc_of s t = Some (Scan it b) →
  (∀ k, m_tasks s !! it = Some k → is_task k = true ∧ target_alive s t k) →
  ∃ s', scan t it b s = (Ret [], s') ∧ core_of s' = search_turn s t it b.
Proof.
  intros Hpc Hk. unfold pc_of in Hpc. destruct (workers s !! t) as [w|] eqn:Hw; [|done].
  unfold scan, search_turn. rewrite (stE_bind_ret _ _ _ _ _ (eq_refl : get s = (Ret s, s))).
  destruct (m_tasks s !! it) as [k|] eqn:Hit.
  2:{ eexists. split; [done|]. by rewrite (goto_core _ _ _ _ _ eq_refl). }
  destruct (Hk k eq_refl) as [Ht Ha].
  destruct (decide (mine t k)) as [Hm|Hm].
  2:{ apply mine_spec in Hm as ->. eexists. split; [done|].
      by rewrite (goto_core _ _ _ _ _ eq_refl). }
  destruct (negb _ && negb _) eqn:E; [by apply mine_spec in E|]. rewrite Ht. cbn [negb].
  destruct (is_running_spec s t w (fiber k) Hw (Ha Hm)) as (s1 & E1 & C1).
  rewrite (stE_bind_ret _ _ _ _ _ E1).
  change (g ← fiber k; m_state <$> fibers (shs s) !! g) with (task_state s k).
  destruct (decide (task_state s k = Some RUNNING)) as [Hrun|Hrun];
    [rewrite bool_decide_eq_true_2 by done|rewrite bool_decide_eq_false_2 by done].
  - eexists. split; [done|]. by rewrite (goto_core _ _ _ _ _ eq_refl), C1.
  - pose proof (f_equal c_pcs C1) as Ep. pose proof (f_equal c_stopping C1) as Es.
    pose proof (f_equal c_idle C1) as Ei. cbn in Ep, Es, Ei.
    pose proof (lookup_lt_Some _ _ _ Hit) as Hlt.
    eexists. split; [done|]. rewrite (goto_core _ _ _ _ _ eq_refl).
    rewrite (bool_decide_ext (S it < length (m_tasks s))%nat
               (it < length (delete it (m_tasks s)))%nat) by (rewrite length_delete by done; lia).
    unfold core_of, at_pc, with_mutex, with_active, with_tasks. cbn. by rewrite Ep, Es, Ei.
Qed.

(** C9: callbacks are taken in the order they were scheduled.  When the
    search of worker [t] has come to position [it] of the queue, every
    earlier task that [t] may take is a fiber, and if it passed over a
    task of another thread it will wake the others.  The next turn of the
    search is determined: a task of another thread is passed over; a task
    [t] may take is passed over exactly when it is a fiber that is
    [RUNNING] at that moment, and is removed from the queue and taken
    otherwise; at the end of the queue the lock is released with nothing
    taken.  So the callback [t] takes is the first it may take, and if it
    finds nothing there is no such callback in the queue.  The turn stops
    the program only when the fiber it must look at was deleted. *)
Theorem callbacks_in_order ev s t it b : reachable ev s → pc_of s t = Some (Scan it b) →
  (∀ j k, (j < it)%nat → m_tasks s !! j = Some k →
    (mine t k → is_Some (fiber k)) ∧ (¬ mine t k → b = true)) ∧
  ((∀ k, m_tasks s !! it = Some k → target_alive s t k) →
   ∃ s', exec (AScan t) s = (Ret [], s') ∧ core_of s' = search_turn s t it b).
Proof.
  intros Hr Hpc. pose proof (reachable_inv ev s Hr) as I. split.
  - intros j k Hj Hk. rewrite <- pcs_lookup in Hpc.
    destruct (inv_scan _ _ I _ _ _ Hpc) as [_ H]. specialize (H j k Hj Hk). naive_solver.
  - intros Ha. cbn [exec]. rewrite (stE_bind_ret _ _ _ _ _ (eq_refl : get s = (Ret s, s))), Hpc.
    apply scan_exact; [done|]. intros k Hk. split; [|by apply Ha].
    apply (inv_real _ _ I). by eapply list_elem_of_lookup_2.
Qed.
End core.

(* ------------------------------------------------------------------ *)
(** ** Concrete histories *)

(** Two workers; a callback runs on the first in fiber 10; while its code
    yields, another thread schedules the fiber again. *)
Definition race : list (@action nat) :=
  [AEnter 1 2; AEnter 3 4; ASchedule (mkTask None (Some 7%nat) (-1));
   ALock 0; AScan 0; ADispatch 0 10;
   ASchedule (mkTask (Some 10) None (-1));
   AYieldMark 0;
   ALock 1; AScan 1].

Definition race_state : Scheduler :=
  from_option snd new_scheduler (run_actions race new_scheduler).

Lemma run_reachable {Cb} l ev0 (s0 : @Scheduler Cb) ev s : reachable ev0 s0 →
  run_actions l s0 = Some (Ret ev, s) → reachable (ev0 ++ ev) s.
Proof.
  revert ev0 s0 ev. induction l as [|a l IH]; intros ev0 s0 ev Hr H.
  - injection H as <- <-. by rewrite app_nil_r.
  - cbn in H. destruct (enabled a s0) eqn:Hen; [|done].
    destruct (exec a s0) as [[ev1|e|f] s1] eqn:E; [|by destruct l..].
    destruct (run_actions l s1) as [[[ev2|e|f] s2]|] eqn:E2; try done.
    injection H as <- <-. rewrite (assoc_L (++)). eapply IH; [|done]. by eapply reach_step.
Qed.

(** A fiber can be resumed before its context is saved.  [yield]
    marks the fiber [READY] before [swapcontext] saves it; the search
    skips [RUNNING] fibers only, so a second worker that finds the fiber
    in the queue at that moment resumes a context that was never saved,
    while the first worker still runs the fiber's code. *)
Theorem yield_race_crashes :
  ∃ ev s, reachable ev s ∧
    current s 0 = Some 10 ∧ enabled (ADispatch 1 11) s = true ∧
    (exec (ADispatch (Cb := nat) 1 11) s).1 = Crash bad_call.
Proof.
  destruct (run_actions race new_scheduler) as [[[ev|e|f] s]|] eqn:E; [|by vm_compute in E..].
  exists ev, s. split; [apply (run_reachable race [] new_scheduler); [constructor|done]|].
  assert (s = race_state) as -> by (unfold race_state; by rewrite E).
  clear E. split_and!; vm_compute; reflexivity.
Qed.

(** With the context saved first the same fiber is resumed without harm,
    and in the end everything scheduled is completed. *)
Definition fair : list (@action nat) :=
  [AEnter 1 2; AEnter 3 4; ASchedule (mkTask None (Some 7%nat) (-1));
   ALock 0; AScan 0; ADispatch 0 10;
   ASchedule (mkTask (Some 10) None (-1));
   AYieldMark 0; AYieldSwap 0; ABack 0;
   ALock 1; AScan 1; ADispatch 1 11; AFinish 1; AYieldMark 1; AYieldSwap 1; ABack 1].

Definition fair_state : Scheduler :=
  from_option snd new_scheduler (run_actions fair new_scheduler).
Definition fair_events : list event :=
  match run_actions fair new_scheduler with Some (Ret ev, _) => ev | _ => [] end.

Lemma fair_reachable : reachable fair_events fair_state.
Proof.
  apply (run_reachable fair [] new_scheduler fair_events fair_state); [constructor|].
  vm_compute. done.
Defined.

Lemma scheduler_refines_witness :
  m_activeThreadCount fair_state = Z.of_nat (length (flight (core_of fair_state))) ∧
  (∀ t it b, pc_of fair_state t = Some (Scan it b) → m_mutex fair_state = Some t) ∧
  ∀ a ev' s', enabled a fair_state = true → exec a fair_state = (Ret ev', s') →
    core_step (core_of fair_state) ev' (core_of s').
Proof. apply (scheduler_refines fair_events fair_state fair_reachable). Defined.

Lemma tasks_conserved_witness :
  scheduled fair_events
    ≡ₚ m_tasks fair_state ++ flight (core_of fair_state) ++ completed fair_events ∧
  (stopping fair_state = true → scheduled fair_events ≡ₚ completed fair_events).
Proof. apply (tasks_conserved fair_events fair_state fair_reachable). Defined.

(** A worker past a task that is not for it. *)
Definition scanning : list (@action nat) :=
  [AEnter 1 2; AEnter 3 4; ASchedule (mkTask None (Some 7%nat) 0);
   ASchedule (mkTask None (Some 8%nat) (-1)); ALock 1; AScan 1].
Definition scanning_state : Scheduler :=
  from_option snd new_scheduler (run_actions scanning new_scheduler).
Definition scanning_events : list event :=
  match run_actions scanning new_scheduler with Some (Ret ev, _) => ev | _ => [] end.

(** The last task is for worker 1: it is taken next. *)
Lemma callbacks_in_order_witness :
  (∀ j k, (j < 1)%nat → m_tasks scanning_state !! j = Some k →
    (mine 1 k → is_Some (fiber k)) ∧ (¬ mine 1 k → true = true)) ∧
  ∃ s', exec (AScan 1) scanning_state = (Ret [], s') ∧
    core_of s' = search_turn scanning_state 1 1 true.
Proof.
  destruct (callbacks_in_order scanning_events scanning_state 1 1 true) as [H1 H2].
  - apply (run_reachable scanning [] new_scheduler scanning_events scanning_state);
      [constructor|]. vm_compute. done.
  - vm_compute. done.
  - split; [exact H1|]. apply H2. intros k Hk _ f Hf. vm_compute in Hk.
    injection Hk as <-. done.
Defined.
