(* ===== verification/FdManager.v ===== *)
(** * Descriptor contexts ([fd_manager.h], [fd_manager.cc])

    An [FdCtx] is shared: the manager's vector and the hooked calls hold
    pointers to it, which are indices of the objects made so far.  [get]
    takes the lock twice, so that it is two steps.  [fstat] and [fcntl] are
    the kernel's. *)
From S2P Require Import Prelude.

Local Open Scope Z_scope.

(** Constants of the system headers. *)
Definition F_GETFL : Z := 3.
Definition F_SETFL : Z := 4.
Definition O_NONBLOCK : Z := 2048.
Definition SO_RCVTIMEO : Z := 20.
Definition SO_SNDTIMEO : Z := 21.
Definition S_IFMT : Z := 61440.
Definition S_IFSOCK : Z := 49152.
Definition S_ISSOCK (mode : Z) : bool := Z.land mode S_IFMT =? S_IFSOCK.
Definition no_timeout : Z := 2 ^ 64 - 1.

Definition has_flag (a b : Z) : bool := negb (Z.land a b =? 0).

(* sylar/fd_manager.h:91-108, FdCtx *)
Record FdCtx := mkFdCtx {
  m_isInit : bool;
  m_isSocket : bool;
  m_sysNonblock : bool;
  m_userNonblock : bool;
  m_isClosed : bool;
  m_fd : Z;
  m_recvTimeout : Z;
  m_sendTimeout : Z
}.

(* sylar/fd_manager.h:55-55, FdCtx::setUserNonblock *)
Definition setUserNonblock (v : bool) (c : FdCtx) : FdCtx :=
  mkFdCtx (m_isInit c) (m_isSocket c) (m_sysNonblock c) v (m_isClosed c) (m_fd c) (m_recvTimeout c) (m_sendTimeout c).
(* sylar/fd_manager.h:66-66, FdCtx::setSysNonblock *)
Definition setSysNonblock (v : bool) (c : FdCtx) : FdCtx :=
  mkFdCtx (m_isInit c) (m_isSocket c) v (m_userNonblock c) (m_isClosed c) (m_fd c) (m_recvTimeout c) (m_sendTimeout c).

(* sylar/fd_manager.cc:63-69, FdCtx::setTimeout *)
Definition setTimeout (type v : Z) (c : FdCtx) : FdCtx :=
  if type =? SO_RCVTIMEO
  then mkFdCtx (m_isInit c) (m_isSocket c) (m_sysNonblock c) (m_userNonblock c) (m_isClosed c) (m_fd c) (u64 v) (m_sendTimeout c)
  else mkFdCtx (m_isInit c) (m_isSocket c) (m_sysNonblock c) (m_userNonblock c) (m_isClosed c) (m_fd c) (m_recvTimeout c) (u64 v).

(* sylar/fd_manager.cc:71-77, FdCtx::getTimeout *)
Definition getTimeout (type : Z) (c : FdCtx) : Z :=
  if type =? SO_RCVTIMEO then m_recvTimeout c else m_sendTimeout c.

Section manager.
Context {K : Type}.
(** [st_mode], unless the call fails; the result of [fcntl], whose last
    argument may be missing. *)
Context (fstat : Z → K → option Z) (fcntl_f : Z → Z → option Z → K → Z * K).

(** The constructor on an object whose memory holds whatever it holds:
    every field is written, so that [m_isInit] is false when [init] looks. *)
(* sylar/fd_manager.cc:32-61, FdCtx::init *)
Definition init (fd : Z) (k : K) : FdCtx * K :=
  let '(isInit, isSocket) :=
    match fstat fd k with None => (false, false) | Some mode => (true, S_ISSOCK mode) end in
  let k' :=
    if isSocket then
      let '(flags, k1) := fcntl_f fd F_GETFL (Some 0) k in
      if negb (has_flag flags O_NONBLOCK) then (fcntl_f fd F_SETFL (Some (Z.lor flags O_NONBLOCK)) k1).2 else k1
    else k in
  (mkFdCtx isInit isSocket isSocket false false fd no_timeout no_timeout, k').

(* sylar/fd_manager.cc:17-27, FdCtx::FdCtx *)
Definition new_FdCtx (fd : Z) (k : K) : FdCtx * K := init fd k.

(** The objects made so far, the vector of pointers, the kernel. *)
(* sylar/fd_manager.h:135-139, FdManager *)
Record FdManager := mkFdManager {
  objs : list FdCtx;
  m_datas : list (option nat);
  kern : K
}.

Definition set_objs l s := mkFdManager l (m_datas s) (kern s).
Definition set_datas l s := mkFdManager (objs s) l (kern s).
Definition set_kern k s := mkFdManager (objs s) (m_datas s) k.

(* sylar/fd_manager.cc:79-81, FdManager::FdManager *)
Definition new_FdManager (k : K) : FdManager := mkFdManager [] (replicate 64 None) k.

(** [(int)m_datas.size()]. *)
Definition int_size (s : FdManager) : Z := i32 (Z.of_nat (length (m_datas s))).

(** [m_datas[fd]]. *)
Definition at_fd (fd : Z) : stE FdManager (option nat) := query (λ s,
  if fd <? 0 then Crash out_of_bounds
  else match m_datas s !! Z.to_nat fd with Some p => Ret p | None => Crash out_of_bounds end).

Definition put_fd (fd : Z) (p : option nat) : stE FdManager unit := λ s,
  if (0 <=? fd) && bool_decide (Z.to_nat fd < length (m_datas s))%nat
  then (Ret tt, set_datas (<[Z.to_nat fd := p]> (m_datas s)) s)
  else (Crash out_of_bounds, s).

(** Under the read lock: the answer, or [None] to go on. *)
(* sylar/fd_manager.cc:83-96, FdManager::get *)
Definition get_check (fd : Z) (auto_create : bool) : stE FdManager (option (option nat)) :=
  if fd =? -1 then mret (Some None)
  else
    s ← get;
    if int_size s <=? fd then mret (if auto_create then None else Some None)
    else
      p ← at_fd fd;
      mret (if bool_decide (is_Some p) || negb auto_create then Some p else None).

(** [fd * 1.5], converted to [size_t]. *)
Definition grown (fd : Z) : nat := Z.to_nat (fd * 3 / 2).

Definition resize (n : nat) : stE FdManager unit := modify (λ s,
  set_datas (take n (m_datas s) ++ replicate (n - length (m_datas s)) None) s).

(** Under the write lock; the vector is not looked at again. *)
(* sylar/fd_manager.cc:99-105, FdManager::get *)
Definition get_create (fd : Z) : stE FdManager (option nat) :=
  s ← get;
  let '(c, k) := new_FdCtx fd (kern s) in
  let p := length (objs s) in
  _ ← modify (λ s, set_objs (objs s ++ [c]) (set_kern k s));
  _ ← (if int_size s <=? fd then resize (grown fd) else mret tt);
  _ ← put_fd fd (Some p);
  mret (Some p).

(* sylar/fd_manager.cc:83-106, FdManager::get *)
Definition get (fd : Z) (auto_create : bool) : stE FdManager (option nat) :=
  r ← get_check fd auto_create;
  match r with Some p => mret p | None => get_create fd end.

(* sylar/fd_manager.cc:108-114, FdManager::del *)
Definition del (fd : Z) : stE FdManager unit :=
  s ← Prelude.get;
  if int_size s <=? fd then mret tt
  else put_fd fd None.

(** The object behind a pointer, and a write to it. *)
Definition ctx_of (p : nat) : stE FdManager FdCtx := query (λ s,
  match objs s !! p with Some c => Ret c | None => Crash null_deref end).
Definition update (p : nat) (g : FdCtx → FdCtx) : stE FdManager unit := modify (λ s,
  set_objs (alter g p (objs s)) s).

(* ------------------------------------------------------------------ *)
(** ** Well-formed managers *)

(** The vector has room for 64 descriptors at least and its pointers are
    live; no object is ever marked closed, and the sockets are those the
    manager made non-blocking. *)
Record wf (s : FdManager) : Prop := {
  wf_size : (64 <= length (m_datas s))%nat ∧ Z.of_nat (length (m_datas s)) < 2 ^ 31;
  wf_live fd p : m_datas s !! fd = Some (Some p) → ∃ c, objs s !! p = Some c ∧ m_fd c = Z.of_nat fd;
  wf_objs p c : objs s !! p = Some c → m_isClosed c = false ∧ m_sysNonblock c = m_isSocket c
}.

(** The pointer for a descriptor. *)
Definition managed (s : FdManager) (fd : Z) : option nat :=
  if decide (0 <= fd) then mjoin (m_datas s !! Z.to_nat fd) else None.

Lemma new_FdManager_wf k : wf (new_FdManager k).
Proof.
  split; cbn -[replicate].
  - rewrite length_replicate. lia.
  - intros fd p [? _]%lookup_replicate. done.
  - done.
Qed.

Lemma int_size_wf s : wf s → int_size s = Z.of_nat (length (m_datas s)).
Proof. intros H. unfold int_size. apply wraps_small; [lia|]. pose proof (wf_size s H). unfold in_s. lia. Qed.

Lemma at_fd_wf s fd : wf s → 0 <= fd < Z.of_nat (length (m_datas s)) → at_fd fd s = (Ret (managed s fd), s).
Proof.
  intros _ Hfd. unfold at_fd, query, managed. rewrite decide_True by lia.
  destruct (Z.ltb_spec fd 0); [lia|].
  destruct (lookup_lt_is_Some_2 (m_datas s) (Z.to_nat fd)) as [p ->]; [lia|done].
Qed.

Lemma managed_beyond s fd : Z.of_nat (length (m_datas s)) <= fd → managed s fd = None.
Proof.
  intros. unfold managed. case_decide; [|done]. by rewrite lookup_ge_None_2 by lia.
Qed.

(** What the read-locked part answers. *)
Lemma get_check_wf s fd auto : wf s → 0 <= fd →
  get_check fd auto s = (Ret (if bool_decide (is_Some (managed s fd)) || negb auto
                              then Some (managed s fd) else None), s).
Proof.
  intros Hwf Hfd. unfold get_check. destruct (Z.eqb_spec fd (-1)); [lia|].
  rewrite get_bind, int_size_wf by done. destruct (Z.leb_spec (Z.of_nat (length (m_datas s))) fd).
  - rewrite managed_beyond by done. by destruct auto.
  - by rewrite (stE_bind_ret _ _ _ _ _ (at_fd_wf s fd Hwf ltac:(lia))).
Qed.

Lemma grown_room fd : 64 <= fd < 2 ^ 30 → fd < Z.of_nat (grown fd) < 2 ^ 31.
Proof.
  intros. unfold grown. rewrite Z2Nat.id by (apply Z.div_pos; lia). split.
  - apply Z.lt_le_trans with (fd + 1); [lia|]. apply Z.div_le_lower_bound; lia.
  - apply Z.div_lt_upper_bound; lia.
Qed.

Definition after_create (fd : Z) (s : FdManager) : FdManager :=
  let '(c, k) := new_FdCtx fd (kern s) in
  let l := m_datas s in
  let l' := if Z.of_nat (length l) <=? fd then l ++ replicate (grown fd - length l) None else l in
  mkFdManager (objs s ++ [c]) (<[Z.to_nat fd := Some (length (objs s))]> l') k.

Lemma put_fd_run fd p s : 0 <= fd < Z.of_nat (length (m_datas s)) →
  put_fd fd p s = (Ret tt, set_datas (<[Z.to_nat fd := p]> (m_datas s)) s).
Proof.
  intros H. unfold put_fd. rewrite bool_decide_true by lia. by destruct (Z.leb_spec 0 fd); [|lia].
Qed.

Lemma get_create_run s fd : wf s → 0 <= fd < 2 ^ 30 →
  get_create fd s = (Ret (Some (length (objs s))), after_create fd s).
Proof.
  intros Hwf Hfd. pose proof (wf_size s Hwf). unfold get_create, after_create. rewrite get_bind.
  destruct (new_FdCtx fd (kern s)) as [c k]. rewrite modify_bind, int_size_wf by done.
  destruct (Z.leb_spec (Z.of_nat (length (m_datas s))) fd).
  - pose proof (grown_room fd ltac:(lia)). unfold resize. rewrite modify_bind. cbn [m_datas set_objs set_kern].
    rewrite take_ge by lia. erewrite stE_bind_ret; [done|]. apply put_fd_run. cbn.
    rewrite length_app, length_replicate. lia.
  - rewrite mret_bind. erewrite stE_bind_ret; [done|]. apply put_fd_run. cbn. lia.
Qed.

Lemma after_create_length s fd : wf s → 0 <= fd < 2 ^ 30 →
  let n := length (m_datas (after_create fd s)) in
  (64 <= n)%nat ∧ Z.of_nat n < 2 ^ 31 ∧ fd < Z.of_nat n.
Proof.
  intros Hwf Hfd. pose proof (wf_size s Hwf). unfold after_create.
  destruct (new_FdCtx fd (kern s)) as [c k]. cbn. rewrite length_insert.
  destruct (Z.leb_spec (Z.of_nat (length (m_datas s))) fd); [|lia].
  pose proof (grown_room fd ltac:(lia)). rewrite length_app, length_replicate. lia.
Qed.

(** The new pointer is the descriptor's; the others keep theirs. *)
Lemma after_create_managed s fd f : wf s → 0 <= fd < 2 ^ 30 →
  managed (after_create fd s) f = if decide (f = fd) then Some (length (objs s)) else managed s f.
Proof.
  intros Hwf Hfd. pose proof (after_create_length s fd Hwf Hfd) as Hl. revert Hl.
  unfold managed, after_create. destruct (new_FdCtx fd (kern s)) as [c k]. cbn [m_datas].
  set (l' := if _ : bool then _ else _). rewrite length_insert. intros Hl.
  destruct (decide (f = fd)) as [->|Hne].
  - rewrite decide_True, list_lookup_insert_eq by lia. done.
  - case_decide; [|done]. rewrite list_lookup_insert_ne by lia. unfold l'.
    destruct (Z.leb_spec (Z.of_nat (length (m_datas s))) fd); [|done].
    destruct (decide (Z.to_nat f < length (m_datas s))%nat).
    + by rewrite lookup_app_l by done.
    + rewrite lookup_app_r, (lookup_ge_None_2 (m_datas s)) by lia.
      destruct (replicate _ _ !! _) as [x|] eqn:E; [|done].
      apply lookup_replicate in E as [-> _]. done.
Qed.

Lemma new_FdCtx_fields fd k c k' :
  new_FdCtx fd k = (c, k') → m_fd c = fd ∧ m_isClosed c = false ∧ m_userNonblock c = false
    ∧ m_sysNonblock c = m_isSocket c ∧ m_recvTimeout c = no_timeout ∧ m_sendTimeout c = no_timeout.
Proof.
  unfold new_FdCtx, init. destruct (fstat fd k) as [mode|]; cbn; [destruct (S_ISSOCK mode)|]; by intros [= <- _].
Qed.

(** The objects there were stay, and one is added. *)
Lemma after_create_objs s fd p :
  objs (after_create fd s) !! p
  = if decide (p = length (objs s)) then Some (new_FdCtx fd (kern s)).1 else objs s !! p.
Proof.
  unfold after_create. destruct (new_FdCtx fd (kern s)) as [c k]. cbn. case_decide as E.
  - subst. by rewrite list_lookup_middle.
  - destruct (decide (p < length (objs s))%nat); [by rewrite lookup_app_l|].
    rewrite lookup_app_r, (lookup_ge_None_2 (objs s)) by lia. destruct (p - length (objs s))%nat eqn:E'; [lia|done].
Qed.

Lemma after_create_wf s fd : wf s → 0 <= fd < 2 ^ 30 → wf (after_create fd s).
Proof.
  intros Hwf Hfd. destruct (after_create_length s fd Hwf Hfd) as (? & ? & ?).
  pose proof (new_FdCtx_fields fd (kern s) _ _ (surjective_pairing _)) as (Hc1 & Hc2 & _ & Hc3 & _).
  split; [done| |].
  - intros f p Hp. rewrite after_create_objs.
    assert (Hm : managed (after_create fd s) (Z.of_nat f) = Some p).
    { unfold managed. rewrite decide_True, Nat2Z.id, Hp by lia. done. }
    rewrite after_create_managed in Hm by done. case_decide as E.
    + injection Hm as <-. rewrite decide_True by done. eexists. split; [done|]. by rewrite Hc1.
    + unfold managed in Hm. rewrite decide_True, Nat2Z.id in Hm by lia.
      destruct (m_datas s !! f) as [q|] eqn:Eq; [|done]. cbn in Hm. subst q.
      destruct (wf_live s Hwf f p Eq) as (c & Hc & Hf). apply lookup_lt_Some in Hc as Hlt.
      rewrite decide_False by lia. by exists c.
  - intros p c. rewrite after_create_objs. case_decide; [intros [= <-]; done|by apply wf_objs].
Qed.

Lemma del_run s fd : wf s → 0 <= fd →
  ∃ s', del fd s = (Ret tt, s') ∧ wf s' ∧ objs s' = objs s ∧ kern s' = kern s
    ∧ ∀ f, managed s' f = if decide (f = fd) then None else managed s f.
Proof.
  intros Hwf Hfd. pose proof (wf_size s Hwf). unfold del. rewrite get_bind, int_size_wf by done.
  destruct (Z.leb_spec (Z.of_nat (length (m_datas s))) fd) as [Hl|Hl].
  - exists s. split_and!; try done. intros f. case_decide; [|done]. subst. by apply managed_beyond.
  - rewrite put_fd_run by lia. eexists. split; [done|]. split; [|split_and!; try done].
    + split; cbn.
      * by rewrite length_insert.
      * intros f p Hp. destruct (decide (f = Z.to_nat fd)) as [->|].
        { by rewrite list_lookup_insert_eq in Hp by lia. }
        rewrite list_lookup_insert_ne in Hp by done. by apply wf_live.
      * by apply wf_objs.
    + intros f. unfold managed; cbn. destruct (decide (f = fd)) as [->|].
      * rewrite decide_True, list_lookup_insert_eq by lia. done.
      * case_decide; [|done]. by rewrite list_lookup_insert_ne by lia.
Qed.

(** Writes through a pointer that leave the descriptor and the invariant
    alone. *)
Definition harmless (g : FdCtx → FdCtx) : Prop := ∀ c,
  m_fd (g c) = m_fd c ∧ m_isClosed (g c) = m_isClosed c ∧ m_sysNonblock (g c) = m_sysNonblock c
  ∧ m_isSocket (g c) = m_isSocket c.

Lemma harmless_user v : harmless (setUserNonblock v).
Proof. done. Qed.
Lemma harmless_timeout type v : harmless (setTimeout type v).
Proof. intros c. unfold setTimeout. by destruct (type =? SO_RCVTIMEO). Qed.

Lemma update_run p g s : wf s → harmless g →
  ∃ s', update p g s = (Ret tt, s') ∧ wf s' ∧ m_datas s' = m_datas s ∧ kern s' = kern s
    ∧ ∀ q, objs s' !! q = if decide (q = p) then g <$> objs s !! q else objs s !! q.
Proof.
  intros Hwf Hg. eexists. split; [done|]. cbn.
  assert (Ho : ∀ q, alter g p (objs s) !! q = if decide (q = p) then g <$> objs s !! q else objs s !! q).
  { intros q. case_decide; [subst; by rewrite list_lookup_alter_eq|by rewrite list_lookup_alter_ne]. }
  split; [|done]. split; cbn.
  - apply (wf_size s Hwf).
  - intros f q Hq. destruct (wf_live s Hwf f q Hq) as (c & Hc & Hf). rewrite Ho, Hc.
    destruct (Hg c) as (E & _). case_decide; [exists (g c)|exists c]; split; congruence || done.
  - intros q c. rewrite Ho. case_decide; [|by apply wf_objs].
    destruct (objs s !! q) as [c0|] eqn:E; [|done]. intros [= <-].
    destruct (Hg c0) as (_ & -> & -> & ->). by apply (wf_objs s Hwf q).
Qed.

(** What [get] answers on a well-formed manager. *)
Lemma get_run s fd auto : wf s → 0 <= fd < 2 ^ 30 →
  get fd auto s = match managed s fd with
                  | Some p => (Ret (Some p), s)
                  | None => if auto then (Ret (Some (length (objs s))), after_create fd s) else (Ret None, s)
                  end.
Proof.
  intros Hwf Hfd. unfold get. rewrite (stE_bind_ret _ _ _ _ _ (get_check_wf s fd auto Hwf ltac:(lia))).
  destruct (managed s fd); cbn; [done|]. destruct auto; [|done]. by apply get_create_run.
Qed.

(** C17: the vector of descriptor contexts is a map from descriptors to
    contexts.  From a well-formed manager [get] returns the descriptor's
    context, null for one that has none, or makes one, growing the vector so
    that the write lands inside it; [del] forgets the descriptor; the other
    descriptors keep their contexts and the contexts in use are not changed.
    Descriptor -1 has no context, and any other negative descriptor is read
    outside the vector. *)
Theorem fd_manager_map s fd : wf s → fd < 2 ^ 30 →
  (fd < -1 → get fd false s = (Crash out_of_bounds, s)) ∧ get (-1) true s = (Ret None, s) ∧
  (0 <= fd →
   (∀ p, managed s fd = Some p → ∀ auto, get fd auto s = (Ret (Some p), s)) ∧
   (managed s fd = None → get fd false s = (Ret None, s) ∧
     ∃ p s', get fd true s = (Ret (Some p), s') ∧ wf s' ∧
       (∀ f, managed s' f = if decide (f = fd) then Some p else managed s f) ∧
       objs s !! p = None ∧ (∀ q, q ≠ p → objs s' !! q = objs s !! q) ∧
       (∃ c, objs s' !! p = Some c ∧ m_fd c = fd ∧ m_recvTimeout c = no_timeout)) ∧
   ∃ s', del fd s = (Ret tt, s') ∧ wf s' ∧
     (∀ f, managed s' f = if decide (f = fd) then None else managed s f) ∧ objs s' = objs s).
Proof.
  intros Hwf Hlt. split_and!; [|done|].
  - intros Hneg. unfold get, get_check. destruct (Z.eqb_spec fd (-1)); [lia|].
    rewrite (stE_bind_crash _ _ _ out_of_bounds s); [done|].
    rewrite get_bind, int_size_wf by done. pose proof (wf_size s Hwf).
    destruct (Z.leb_spec (Z.of_nat (length (m_datas s))) fd); [lia|].
    rewrite (stE_bind_crash _ _ _ out_of_bounds s); [done|].
    unfold at_fd, query. by destruct (Z.ltb_spec fd 0); [|lia].
  - intros Hfd. split_and!.
    + intros p Hp auto. rewrite get_run by (done || lia). by rewrite Hp.
    + intros Hn. split; [rewrite get_run by (done || lia); by rewrite Hn|].
      exists (length (objs s)), (after_create fd s). rewrite get_run by (done || lia). rewrite Hn.
      split; [done|]. split; [by apply after_create_wf|].
      split; [intros; by apply after_create_managed|]. split; [by apply lookup_ge_None_2|]. split.
      * intros q Hq. rewrite after_create_objs. by rewrite decide_False.
      * rewrite after_create_objs, decide_True by done. eexists. split; [done|].
        pose proof (new_FdCtx_fields fd (kern s) _ _ (surjective_pairing _)) as (? & _ & _ & _ & ? & _). done.
    + destruct (del_run s fd Hwf Hfd) as (s' & ? & ? & ? & _ & ?). by exists s'.
Qed.

(** [get] looks again for nothing between its two locks.  When two
    threads ask for a context of the same descriptor and both see none, each
    makes one; the second replaces the first in the vector, and what is set
    through the first afterwards - a time-out, the user's non-blocking mode -
    is not seen by later calls. *)
Theorem get_race_loses_context s fd type v : wf s → 0 <= fd < 2 ^ 30 → managed s fd = None →
  ∃ p1 p2 s1 s2 s3,
    get_check fd true s = (Ret None, s) ∧
    get_create fd s = (Ret (Some p1), s1) ∧ get_create fd s1 = (Ret (Some p2), s2) ∧
    p1 ≠ p2 ∧ get fd true s2 = (Ret (Some p2), s2) ∧
    update p1 (setTimeout type v) s2 = (Ret tt, s3) ∧
    (∃ c, objs s3 !! p2 = Some c ∧ getTimeout type c = no_timeout).
Proof.
  intros Hwf Hfd Hn. pose proof (after_create_wf s fd Hwf Hfd) as Hwf1.
  pose proof (after_create_wf _ fd Hwf1 Hfd) as Hwf2.
  set (s1 := after_create fd s) in *. set (s2 := after_create fd s1) in *.
  assert (Hlen : length (objs s1) = S (length (objs s))).
  { unfold s1, after_create. destruct (new_FdCtx fd (kern s)). cbn. rewrite length_app. cbn. lia. }
  destruct (update_run (length (objs s)) (setTimeout type v) s2 Hwf2 (harmless_timeout type v))
    as (s3 & E3 & _ & _ & _ & Ho).
  exists (length (objs s)), (length (objs s1)), s1, s2, s3. split_and!.
  - rewrite get_check_wf by (done || lia). by rewrite Hn.
  - by apply get_create_run.
  - by apply get_create_run.
  - lia.
  - rewrite get_run by done. unfold s2. rewrite after_create_managed by done. by rewrite decide_True.
  - done.
  - rewrite Ho, decide_False by lia. unfold s2. rewrite after_create_objs, decide_True by done.
    eexists. split; [done|].
    pose proof (new_FdCtx_fields fd (kern s1) _ _ (surjective_pairing _)) as (_ & _ & _ & _ & H1 & H2).
    unfold getTimeout. destruct (type =? SO_RCVTIMEO); [exact H1|exact H2].
Qed.
End manager.

(* ------------------------------------------------------------------ *)
(** ** On a concrete kernel *)

(** The flags of the sockets that are open. *)
Definition Sockets : Type := gmap Z Z.
Definition sockets_fstat (fd : Z) (k : Sockets) : option Z :=
  match k !! fd with Some _ => Some S_IFSOCK | None => None end.
Definition sockets_fcntl (fd cmd : Z) (arg : option Z) (k : Sockets) : Z * Sockets :=
  match k !! fd with
  | None => (-1, k)
  | Some flags =>
      if cmd =? F_GETFL then (flags, k)
      else if cmd =? F_SETFL then (0, <[fd := default 0 arg]> k)
      else (0, k)
  end.

Definition two_sockets : Sockets := {[ 5 := 2; 70 := 2 ]}.
Definition managed_socket : @FdManager Sockets :=
  (get sockets_fstat sockets_fcntl 5 true (new_FdManager two_sockets)).2.
Lemma managed_socket_wf : wf managed_socket.
Proof. by apply (after_create_wf sockets_fstat sockets_fcntl _ 5 (new_FdManager_wf two_sockets)). Qed.

Lemma fd_manager_map_witness :
  (70 < -1 → get sockets_fstat sockets_fcntl 70 false managed_socket = (Crash out_of_bounds, managed_socket)) ∧
  get sockets_fstat sockets_fcntl (-1) true managed_socket = (Ret None, managed_socket) ∧
  (0 <= 70 →
   (∀ p, managed managed_socket 70 = Some p →
      ∀ auto, get sockets_fstat sockets_fcntl 70 auto managed_socket = (Ret (Some p), managed_socket)) ∧
   (managed managed_socket 70 = None →
     get sockets_fstat sockets_fcntl 70 false managed_socket = (Ret None, managed_socket) ∧
     ∃ p s', get sockets_fstat sockets_fcntl 70 true managed_socket = (Ret (Some p), s') ∧ wf s' ∧
       (∀ f, managed s' f = if decide (f = 70) then Some p else managed managed_socket f) ∧
       objs managed_socket !! p = None ∧ (∀ q, q ≠ p → objs s' !! q = objs managed_socket !! q) ∧
       (∃ c, objs s' !! p = Some c ∧ m_fd c = 70 ∧ m_recvTimeout c = no_timeout)) ∧
   ∃ s', del 70 managed_socket = (Ret tt, s') ∧ wf s' ∧
     (∀ f, managed s' f = if decide (f = 70) then None else managed managed_socket f) ∧
     objs s' = objs managed_socket).
Proof. apply (fd_manager_map sockets_fstat sockets_fcntl managed_socket 70 managed_socket_wf). done. Defined.

Lemma get_race_loses_context_witness :
  ∃ p1 p2 s1 s2 s3,
    get_check 70 true managed_socket = (Ret None, managed_socket) ∧
    get_create sockets_fstat sockets_fcntl 70 managed_socket = (Ret (Some p1), s1) ∧
    get_create sockets_fstat sockets_fcntl 70 s1 = (Ret (Some p2), s2) ∧
    p1 ≠ p2 ∧ get sockets_fstat sockets_fcntl 70 true s2 = (Ret (Some p2), s2) ∧
    update p1 (setTimeout SO_RCVTIMEO 1000) s2 = (Ret tt, s3) ∧
    (∃ c, objs s3 !! p2 = Some c ∧ getTimeout SO_RCVTIMEO c = no_timeout).
Proof.
  apply (get_race_loses_context sockets_fstat sockets_fcntl managed_socket 70 SO_RCVTIMEO 1000 managed_socket_wf);
    done.
Defined.
