(* ===== verification/HttpParser.v ===== *)
(** * The HTTP parser's data ([http-parser/http_parser.h], [http_parser.c])

    The enumerations, the character classes (compiled in strict mode, the
    header's default), the parser object and its accessors, and the URL
    character machine that [http_parser_execute] and
    [http_parser_parse_url] share. *)
From S2P Require Import Prelude.

Local Open Scope Z_scope.

(** Comparison with a character constant. *)
Notation "c '=c' d" := (Ascii.eqb c d%char) (at level 35, no associativity) : sylar_scope.

Definition CR : ascii := char_of 13.
Definition LF : ascii := char_of 10.
Definition TAB : ascii := char_of 9.
Definition FF : ascii := char_of 12.
Definition NUL : ascii := zero.

Definition ULLONG_MAX : Z := 2 ^ 64 - 1.

(* ------------------------------------------------------------------ *)
(** ** Enumerations *)

(* sylar/http/http-parser/http_parser.c:279-359, state *)
Inductive state :=
  | s_dead | s_start_req_or_res | s_res_or_resp_H | s_start_res | s_res_H | s_res_HT
  | s_res_HTT | s_res_HTTP | s_res_http_major | s_res_http_dot | s_res_http_minor
  | s_res_http_end | s_res_first_status_code | s_res_status_code | s_res_status_start
  | s_res_status | s_res_line_almost_done | s_start_req | s_req_method
  | s_req_spaces_before_url | s_req_schema | s_req_schema_slash | s_req_schema_slash_slash
  | s_req_server_start | s_req_server | s_req_server_with_at | s_req_path
  | s_req_query_string_start | s_req_query_string | s_req_fragment_start | s_req_fragment
  | s_req_http_start | s_req_http_H | s_req_http_HT | s_req_http_HTT | s_req_http_HTTP
  | s_req_http_I | s_req_http_IC | s_req_http_major | s_req_http_dot | s_req_http_minor
  | s_req_http_end | s_req_line_almost_done | s_header_field_start | s_header_field
  | s_header_value_discard_ws | s_header_value_discard_ws_almost_done
  | s_header_value_discard_lws | s_header_value_start | s_header_value | s_header_value_lws
  | s_header_almost_done | s_chunk_size_start | s_chunk_size | s_chunk_parameters
  | s_chunk_size_almost_done | s_headers_almost_done | s_headers_done | s_chunk_data
  | s_chunk_data_almost_done | s_chunk_data_done | s_body_identity | s_body_identity_eof
  | s_message_done.

#[global] Instance state_eq_dec : EqDecision state.
Proof. solve_decision. Defined.

(** [state <= s_headers_done]: all states but the last six. *)
(* sylar/http/http-parser/http_parser.c:362-362, PARSING_HEADER *)
Definition PARSING_HEADER (s : state) : bool :=
  match s with
  | s_chunk_data | s_chunk_data_almost_done | s_chunk_data_done
  | s_body_identity | s_body_identity_eof | s_message_done => false
  | _ => true
  end.

(* sylar/http/http-parser/http_parser.c:365-395, header_states *)
Inductive header_states :=
  | h_general | h_C | h_CO | h_CON | h_matching_connection | h_matching_proxy_connection
  | h_matching_content_length | h_matching_transfer_encoding | h_matching_upgrade
  | h_connection | h_content_length | h_content_length_num | h_content_length_ws
  | h_transfer_encoding | h_upgrade | h_matching_transfer_encoding_chunked
  | h_matching_connection_token_start | h_matching_connection_keep_alive
  | h_matching_connection_close | h_matching_connection_upgrade | h_matching_connection_token
  | h_transfer_encoding_chunked | h_connection_keep_alive | h_connection_close
  | h_connection_upgrade.

#[global] Instance header_states_eq_dec : EqDecision header_states.
Proof. solve_decision. Defined.

(* sylar/http/http-parser/http_parser.h:163-212, http_method *)
Inductive http_method :=
  | HTTP_DELETE | HTTP_GET | HTTP_HEAD | HTTP_POST | HTTP_PUT | HTTP_CONNECT | HTTP_OPTIONS
  | HTTP_TRACE | HTTP_COPY | HTTP_LOCK | HTTP_MKCOL | HTTP_MOVE | HTTP_PROPFIND
  | HTTP_PROPPATCH | HTTP_SEARCH | HTTP_UNLOCK | HTTP_BIND | HTTP_REBIND | HTTP_UNBIND
  | HTTP_ACL | HTTP_REPORT | HTTP_MKACTIVITY | HTTP_CHECKOUT | HTTP_MERGE | HTTP_MSEARCH
  | HTTP_NOTIFY | HTTP_SUBSCRIBE | HTTP_UNSUBSCRIBE | HTTP_PATCH | HTTP_PURGE | HTTP_MKCALENDAR
  | HTTP_LINK | HTTP_UNLINK | HTTP_SOURCE.

#[global] Instance http_method_eq_dec : EqDecision http_method.
Proof. solve_decision. Defined.

(* sylar/http/http-parser/http_parser.c:174-179, method_strings *)
Definition method_strings (m : http_method) : bytes :=
  match m with
  | HTTP_DELETE => B "DELETE"
  | HTTP_GET => B "GET"
  | HTTP_HEAD => B "HEAD"
  | HTTP_POST => B "POST"
  | HTTP_PUT => B "PUT"
  | HTTP_CONNECT => B "CONNECT"
  | HTTP_OPTIONS => B "OPTIONS"
  | HTTP_TRACE => B "TRACE"
  | HTTP_COPY => B "COPY"
  | HTTP_LOCK => B "LOCK"
  | HTTP_MKCOL => B "MKCOL"
  | HTTP_MOVE => B "MOVE"
  | HTTP_PROPFIND => B "PROPFIND"
  | HTTP_PROPPATCH => B "PROPPATCH"
  | HTTP_SEARCH => B "SEARCH"
  | HTTP_UNLOCK => B "UNLOCK"
  | HTTP_BIND => B "BIND"
  | HTTP_REBIND => B "REBIND"
  | HTTP_UNBIND => B "UNBIND"
  | HTTP_ACL => B "ACL"
  | HTTP_REPORT => B "REPORT"
  | HTTP_MKACTIVITY => B "MKACTIVITY"
  | HTTP_CHECKOUT => B "CHECKOUT"
  | HTTP_MERGE => B "MERGE"
  | HTTP_MSEARCH => B "M-SEARCH"
  | HTTP_NOTIFY => B "NOTIFY"
  | HTTP_SUBSCRIBE => B "SUBSCRIBE"
  | HTTP_UNSUBSCRIBE => B "UNSUBSCRIBE"
  | HTTP_PATCH => B "PATCH"
  | HTTP_PURGE => B "PURGE"
  | HTTP_MKCALENDAR => B "MKCALENDAR"
  | HTTP_LINK => B "LINK"
  | HTTP_UNLINK => B "UNLINK"
  | HTTP_SOURCE => B "SOURCE"
  end.

(* sylar/http/http-parser/http_parser.h:93-159, HTTP_STATUS_MAP *)
Definition status_map : list (Z * bytes) :=
  [ (100, B "Continue");
    (101, B "Switching Protocols");
    (102, B "Processing");
    (200, B "OK");
    (201, B "Created");
    (202, B "Accepted");
    (203, B "Non-Authoritative Information");
    (204, B "No Content");
    (205, B "Reset Content");
    (206, B "Partial Content");
    (207, B "Multi-Status");
    (208, B "Already Reported");
    (226, B "IM Used");
    (300, B "Multiple Choices");
    (301, B "Moved Permanently");
    (302, B "Found");
    (303, B "See Other");
    (304, B "Not Modified");
    (305, B "Use Proxy");
    (307, B "Temporary Redirect");
    (308, B "Permanent Redirect");
    (400, B "Bad Request");
    (401, B "Unauthorized");
    (402, B "Payment Required");
    (403, B "Forbidden");
    (404, B "Not Found");
    (405, B "Method Not Allowed");
    (406, B "Not Acceptable");
    (407, B "Proxy Authentication Required");
    (408, B "Request Timeout");
    (409, B "Conflict");
    (410, B "Gone");
    (411, B "Length Required");
    (412, B "Precondition Failed");
    (413, B "Payload Too Large");
    (414, B "URI Too Long");
    (415, B "Unsupported Media Type");
    (416, B "Range Not Satisfiable");
    (417, B "Expectation Failed");
    (421, B "Misdirected Request");
    (422, B "Unprocessable Entity");
    (423, B "Locked");
    (424, B "Failed Dependency");
    (426, B "Upgrade Required");
    (428, B "Precondition Required");
    (429, B "Too Many Requests");
    (431, B "Request Header Fields Too Large");
    (451, B "Unavailable For Legal Reasons");
    (500, B "Internal Server Error");
    (501, B "Not Implemented");
    (502, B "Bad Gateway");
    (503, B "Service Unavailable");
    (504, B "Gateway Timeout");
    (505, B "HTTP Version Not Supported");
    (506, B "Variant Also Negotiates");
    (507, B "Insufficient Storage");
    (508, B "Loop Detected");
    (510, B "Not Extended");
    (511, B "Network Authentication Required") ].

(* sylar/http/http-parser/http_parser.h:215-215, http_parser_type *)
Inductive http_parser_type := HTTP_REQUEST | HTTP_RESPONSE | HTTP_BOTH.

#[global] Instance http_parser_type_eq_dec : EqDecision http_parser_type.
Proof. solve_decision. Defined.

(* sylar/http/http-parser/http_parser.h:231-285, http_errno *)
Inductive http_errno :=
  | HPE_OK | HPE_CB_message_begin | HPE_CB_url | HPE_CB_header_field | HPE_CB_header_value
  | HPE_CB_headers_complete | HPE_CB_body | HPE_CB_message_complete | HPE_CB_status
  | HPE_CB_chunk_header | HPE_CB_chunk_complete | HPE_INVALID_EOF_STATE | HPE_HEADER_OVERFLOW
  | HPE_CLOSED_CONNECTION | HPE_INVALID_VERSION | HPE_INVALID_STATUS | HPE_INVALID_METHOD
  | HPE_INVALID_URL | HPE_INVALID_HOST | HPE_INVALID_PORT | HPE_INVALID_PATH
  | HPE_INVALID_QUERY_STRING | HPE_INVALID_FRAGMENT | HPE_LF_EXPECTED
  | HPE_INVALID_HEADER_TOKEN | HPE_INVALID_CONTENT_LENGTH | HPE_UNEXPECTED_CONTENT_LENGTH
  | HPE_INVALID_CHUNK_SIZE | HPE_INVALID_CONSTANT | HPE_INVALID_INTERNAL_STATE | HPE_STRICT
  | HPE_PAUSED | HPE_UNKNOWN.

#[global] Instance http_errno_eq_dec : EqDecision http_errno.
Proof. solve_decision. Defined.

(* sylar/http/http-parser/http_parser.c:468-475, http_strerror_tab *)
Definition http_strerror_tab (e : http_errno) : bytes * bytes :=
  match e with
  | HPE_OK => (B "HPE_OK",
      B "success")
  | HPE_CB_message_begin => (B "HPE_CB_message_begin",
      B "the on_message_begin callback failed")
  | HPE_CB_url => (B "HPE_CB_url",
      B "the on_url callback failed")
  | HPE_CB_header_field => (B "HPE_CB_header_field",
      B "the on_header_field callback failed")
  | HPE_CB_header_value => (B "HPE_CB_header_value",
      B "the on_header_value callback failed")
  | HPE_CB_headers_complete => (B "HPE_CB_headers_complete",
      B "the on_headers_complete callback failed")
  | HPE_CB_body => (B "HPE_CB_body",
      B "the on_body callback failed")
  | HPE_CB_message_complete => (B "HPE_CB_message_complete",
      B "the on_message_complete callback failed")
  | HPE_CB_status => (B "HPE_CB_status",
      B "the on_status callback failed")
  | HPE_CB_chunk_header => (B "HPE_CB_chunk_header",
      B "the on_chunk_header callback failed")
  | HPE_CB_chunk_complete => (B "HPE_CB_chunk_complete",
      B "the on_chunk_complete callback failed")
  | HPE_INVALID_EOF_STATE => (B "HPE_INVALID_EOF_STATE",
      B "stream ended at an unexpected time")
  | HPE_HEADER_OVERFLOW => (B "HPE_HEADER_OVERFLOW",
      B "too many header bytes seen; overflow detected")
  | HPE_CLOSED_CONNECTION => (B "HPE_CLOSED_CONNECTION",
      B "data received after completed connection: close message")
  | HPE_INVALID_VERSION => (B "HPE_INVALID_VERSION",
      B "invalid HTTP version")
  | HPE_INVALID_STATUS => (B "HPE_INVALID_STATUS",
      B "invalid HTTP status code")
  | HPE_INVALID_METHOD => (B "HPE_INVALID_METHOD",
      B "invalid HTTP method")
  | HPE_INVALID_URL => (B "HPE_INVALID_URL",
      B "invalid URL")
  | HPE_INVALID_HOST => (B "HPE_INVALID_HOST",
      B "invalid host")
  | HPE_INVALID_PORT => (B "HPE_INVALID_PORT",
      B "invalid port")
  | HPE_INVALID_PATH => (B "HPE_INVALID_PATH",
      B "invalid path")
  | HPE_INVALID_QUERY_STRING => (B "HPE_INVALID_QUERY_STRING",
      B "invalid query string")
  | HPE_INVALID_FRAGMENT => (B "HPE_INVALID_FRAGMENT",
      B "invalid fragment")
  | HPE_LF_EXPECTED => (B "HPE_LF_EXPECTED",
      B "LF character expected")
  | HPE_INVALID_HEADER_TOKEN => (B "HPE_INVALID_HEADER_TOKEN",
      B "invalid character in header")
  | HPE_INVALID_CONTENT_LENGTH => (B "HPE_INVALID_CONTENT_LENGTH",
      B "invalid character in content-length header")
  | HPE_UNEXPECTED_CONTENT_LENGTH => (B "HPE_UNEXPECTED_CONTENT_LENGTH",
      B "unexpected content-length header")
  | HPE_INVALID_CHUNK_SIZE => (B "HPE_INVALID_CHUNK_SIZE",
      B "invalid character in chunk size header")
  | HPE_INVALID_CONSTANT => (B "HPE_INVALID_CONSTANT",
      B "invalid constant string")
  | HPE_INVALID_INTERNAL_STATE => (B "HPE_INVALID_INTERNAL_STATE",
      B "encountered unexpected internal state")
  | HPE_STRICT => (B "HPE_STRICT",
      B "strict mode assertion failed")
  | HPE_PAUSED => (B "HPE_PAUSED",
      B "parser is paused")
  | HPE_UNKNOWN => (B "HPE_UNKNOWN",
      B "an unknown error occurred")
  end.

(* sylar/http/http-parser/http_parser.h:219-228, flags *)
Definition F_CHUNKED : Z := 1.
Definition F_CONNECTION_KEEP_ALIVE : Z := 2.
Definition F_CONNECTION_CLOSE : Z := 4.
Definition F_CONNECTION_UPGRADE : Z := 8.
Definition F_TRAILING : Z := 16.
Definition F_UPGRADE : Z := 32.
Definition F_SKIPBODY : Z := 64.
Definition F_CONTENTLENGTH : Z := 128.

(** [flags & f] as a condition. *)
Definition has (flags f : Z) : bool := negb (Z.land flags f =? 0).

(* ------------------------------------------------------------------ *)
(** ** Character classes *)

(* sylar/http/http-parser/http_parser.c:182-221, tokens *)
Definition tokens_table : list Z :=
  [ 0; 0; 0; 0; 0; 0; 0; 0; 0; 0; 0; 0; 0; 0; 0; 0;
    0; 0; 0; 0; 0; 0; 0; 0; 0; 0; 0; 0; 0; 0; 0; 0;
    32; 33; 0; 35; 36; 37; 38; 39; 0; 0; 42; 43; 0; 45; 46; 0;
    48; 49; 50; 51; 52; 53; 54; 55; 56; 57; 0; 0; 0; 0; 0; 0;
    0; 97; 98; 99; 100; 101; 102; 103; 104; 105; 106; 107; 108; 109; 110; 111;
    112; 113; 114; 115; 116; 117; 118; 119; 120; 121; 122; 0; 0; 0; 94; 95;
    96; 97; 98; 99; 100; 101; 102; 103; 104; 105; 106; 107; 108; 109; 110; 111;
    112; 113; 114; 115; 116; 117; 118; 119; 120; 121; 122; 0; 124; 0; 126; 0 ].

Definition tokens (c : ascii) : ascii := char_of (nth (Z.to_nat (uchar c)) tokens_table 0).

(** Only the first half of the table is written out; C fills the rest
    with zeros. *)
(* sylar/http/http-parser/http_parser.c:224-233, unhex *)
Definition unhex_table : list Z :=
  [ (-1); (-1); (-1); (-1); (-1); (-1); (-1); (-1); (-1); (-1); (-1); (-1); (-1); (-1); (-1); (-1);
    (-1); (-1); (-1); (-1); (-1); (-1); (-1); (-1); (-1); (-1); (-1); (-1); (-1); (-1); (-1); (-1);
    (-1); (-1); (-1); (-1); (-1); (-1); (-1); (-1); (-1); (-1); (-1); (-1); (-1); (-1); (-1); (-1);
    0; 1; 2; 3; 4; 5; 6; 7; 8; 9; (-1); (-1); (-1); (-1); (-1); (-1);
    (-1); 10; 11; 12; 13; 14; 15; (-1); (-1); (-1); (-1); (-1); (-1); (-1); (-1); (-1);
    (-1); (-1); (-1); (-1); (-1); (-1); (-1); (-1); (-1); (-1); (-1); (-1); (-1); (-1); (-1); (-1);
    (-1); 10; 11; 12; 13; 14; 15; (-1); (-1); (-1); (-1); (-1); (-1); (-1); (-1); (-1);
    (-1); (-1); (-1); (-1); (-1); (-1); (-1); (-1); (-1); (-1); (-1); (-1); (-1); (-1); (-1); (-1) ].

Definition unhex (c : ascii) : Z := nth (Z.to_nat (uchar c)) unhex_table 0.

(* sylar/http/http-parser/http_parser.c:243-275, normal_url_char *)
Definition normal_url_char : list Z :=
  [ 0; 0; 0; 0; 246; 255; 255; 127; 255; 255; 255; 255; 255; 255; 255; 127 ].

(* sylar/http/http-parser/http_parser.c:42-46, BIT_AT *)
Definition BIT_AT (a : list Z) (i : Z) : bool :=
  Z.testbit (nth (Z.to_nat (Z.shiftr i 3)) a 0) (Z.land i 7).

(* sylar/http/http-parser/http_parser.c:414-420, LOWER *)
Definition LOWER (c : ascii) : ascii := char_of (Z.lor (uchar c) 0x20).
Definition between (lo hi : ascii) (c : ascii) : bool :=
  (uchar lo <=? uchar c) && (uchar c <=? uchar hi).
Definition IS_ALPHA (c : ascii) : bool := between "a" "z" (LOWER c).
Definition IS_NUM (c : ascii) : bool := between "0" "9" c.
Definition IS_ALPHANUM (c : ascii) : bool := IS_ALPHA c || IS_NUM c.
Definition IS_HEX (c : ascii) : bool := IS_NUM c || between "a" "f" (LOWER c).

Definition one_of (s : bytes) (c : ascii) : bool := existsb (Ascii.eqb c) s.

(* sylar/http/http-parser/http_parser.c:421-426, IS_USERINFO_CHAR *)
Definition IS_USERINFO_CHAR (c : ascii) : bool :=
  IS_ALPHANUM c || one_of (B "-_.!~*'()") c || one_of (B "%;:&=+$,") c.

(* sylar/http/http-parser/http_parser.c:428-433, STRICT_TOKEN *)
Definition STRICT_TOKEN (c : ascii) : ascii := if c =c " " then NUL else tokens c.
Definition TOKEN : ascii → ascii := STRICT_TOKEN.
Definition IS_URL_CHAR (c : ascii) : bool := BIT_AT normal_url_char (uchar c).
Definition IS_HOST_CHAR (c : ascii) : bool := IS_ALPHANUM c || c =c "." || c =c "-".

(* sylar/http/http-parser/http_parser.c:442-447, IS_HEADER_CHAR *)
Definition IS_HEADER_CHAR (c : ascii) : bool :=
  c =c CR || c =c LF || c =c TAB || ((31 <? uchar c) && negb (uchar c =? 127)).

(* ------------------------------------------------------------------ *)
(** ** The parser object *)

(** [data], which belongs to the application, is left out. *)
(* sylar/http/http-parser/http_parser.h:293-321, http_parser *)
Record http_parser := mkParser {
  type : http_parser_type;
  flags : Z;
  p_state : state;
  header_state : header_states;
  index : Z;
  lenient_http_headers : bool;
  nread : Z;
  content_length : Z;
  http_major : Z;
  http_minor : Z;
  status_code : Z;
  method : http_method;
  errno : http_errno;
  upgrade : bool
}.

(** Assignments; a bit field keeps its low bits. *)
Definition set_type (v : http_parser_type) (x : http_parser) : http_parser :=
  mkParser v (flags x) (p_state x) (header_state x) (index x) (lenient_http_headers x) (nread x) (content_length x) (http_major x) (http_minor x) (status_code x) (method x) (errno x) (upgrade x).
Definition set_flags (v : Z) (x : http_parser) : http_parser :=
  mkParser (type x) (u8 v) (p_state x) (header_state x) (index x) (lenient_http_headers x) (nread x) (content_length x) (http_major x) (http_minor x) (status_code x) (method x) (errno x) (upgrade x).
Definition set_p_state (v : state) (x : http_parser) : http_parser :=
  mkParser (type x) (flags x) v (header_state x) (index x) (lenient_http_headers x) (nread x) (content_length x) (http_major x) (http_minor x) (status_code x) (method x) (errno x) (upgrade x).
Definition set_header_state (v : header_states) (x : http_parser) : http_parser :=
  mkParser (type x) (flags x) (p_state x) v (index x) (lenient_http_headers x) (nread x) (content_length x) (http_major x) (http_minor x) (status_code x) (method x) (errno x) (upgrade x).
Definition set_index (v : Z) (x : http_parser) : http_parser :=
  mkParser (type x) (flags x) (p_state x) (header_state x) (wrapu 7 v) (lenient_http_headers x) (nread x) (content_length x) (http_major x) (http_minor x) (status_code x) (method x) (errno x) (upgrade x).
Definition set_nread (v : Z) (x : http_parser) : http_parser :=
  mkParser (type x) (flags x) (p_state x) (header_state x) (index x) (lenient_http_headers x) (u32 v) (content_length x) (http_major x) (http_minor x) (status_code x) (method x) (errno x) (upgrade x).
Definition set_content_length (v : Z) (x : http_parser) : http_parser :=
  mkParser (type x) (flags x) (p_state x) (header_state x) (index x) (lenient_http_headers x) (nread x) (u64 v) (http_major x) (http_minor x) (status_code x) (method x) (errno x) (upgrade x).
Definition set_http_major (v : Z) (x : http_parser) : http_parser :=
  mkParser (type x) (flags x) (p_state x) (header_state x) (index x) (lenient_http_headers x) (nread x) (content_length x) (u16 v) (http_minor x) (status_code x) (method x) (errno x) (upgrade x).
Definition set_http_minor (v : Z) (x : http_parser) : http_parser :=
  mkParser (type x) (flags x) (p_state x) (header_state x) (index x) (lenient_http_headers x) (nread x) (content_length x) (http_major x) (u16 v) (status_code x) (method x) (errno x) (upgrade x).
Definition set_status_code (v : Z) (x : http_parser) : http_parser :=
  mkParser (type x) (flags x) (p_state x) (header_state x) (index x) (lenient_http_headers x) (nread x) (content_length x) (http_major x) (http_minor x) (u16 v) (method x) (errno x) (upgrade x).
Definition set_method (v : http_method) (x : http_parser) : http_parser :=
  mkParser (type x) (flags x) (p_state x) (header_state x) (index x) (lenient_http_headers x) (nread x) (content_length x) (http_major x) (http_minor x) (status_code x) v (errno x) (upgrade x).
Definition set_errno (v : http_errno) (x : http_parser) : http_parser :=
  mkParser (type x) (flags x) (p_state x) (header_state x) (index x) (lenient_http_headers x) (nread x) (content_length x) (http_major x) (http_minor x) (status_code x) (method x) v (upgrade x).
Definition set_upgrade (v : bool) (x : http_parser) : http_parser :=
  mkParser (type x) (flags x) (p_state x) (header_state x) (index x) (lenient_http_headers x) (nread x) (content_length x) (http_major x) (http_minor x) (status_code x) (method x) (errno x) v.

(* sylar/http/http-parser/http_parser.c:449-449, start_state *)
Definition start_state (x : http_parser) : state :=
  if decide (type x = HTTP_REQUEST) then s_start_req else s_start_res.

(* sylar/http/http-parser/http_parser.c:2147-2156, http_parser_init *)
Definition http_parser_init (t : http_parser_type) : http_parser :=
  mkParser t 0
    (match t with HTTP_REQUEST => s_start_req | HTTP_RESPONSE => s_start_res
                | HTTP_BOTH => s_start_req_or_res end)
    h_general 0 false 0 0 0 0 0 HTTP_DELETE HPE_OK false.

(* sylar/http/http-parser/http_parser.c:2087-2108, http_message_needs_eof *)
Definition http_message_needs_eof (x : http_parser) : bool :=
  if decide (type x = HTTP_REQUEST) then false
  else if (status_code x / 100 =? 1) || (status_code x =? 204) || (status_code x =? 304)
          || has (flags x) F_SKIPBODY then false
  else if has (flags x) F_CHUNKED || negb (content_length x =? ULLONG_MAX) then false
  else true.

(* sylar/http/http-parser/http_parser.c:2111-2127, http_should_keep_alive *)
Definition http_should_keep_alive (x : http_parser) : bool :=
  if (0 <? http_major x) && (0 <? http_minor x) then
    if has (flags x) F_CONNECTION_CLOSE then false else negb (http_message_needs_eof x)
  else
    if negb (has (flags x) F_CONNECTION_KEEP_ALIVE) then false
    else negb (http_message_needs_eof x).

(* sylar/http/http-parser/http_parser.c:460-460, NEW_MESSAGE *)
Definition NEW_MESSAGE (x : http_parser) : state :=
  if http_should_keep_alive x then start_state x else s_dead.

(* sylar/http/http-parser/http_parser.c:2130-2134, http_method_str *)
Definition http_method_str (m : http_method) : bytes := method_strings m.

(* sylar/http/http-parser/http_parser.c:2136-2145, http_status_str *)
Definition http_status_str (s : Z) : bytes :=
  match find (λ e, e.1 =? s) status_map with Some e => e.2 | None => B "<unknown>" end.

(* sylar/http/http-parser/http_parser.c:2164-2168, http_errno_name *)
Definition http_errno_name (e : http_errno) : bytes := (http_strerror_tab e).1.

(* sylar/http/http-parser/http_parser.c:2170-2174, http_errno_description *)
Definition http_errno_description (e : http_errno) : bytes := (http_strerror_tab e).2.

(** The assertion stops the program on a parser in error. *)
(* sylar/http/http-parser/http_parser.c:2468-2481, http_parser_pause *)
Definition http_parser_pause (paused : bool) (x : http_parser) : outcome http_parser :=
  match errno x with
  | HPE_OK | HPE_PAUSED => Ret (set_errno (if paused then HPE_PAUSED else HPE_OK) x)
  | _ => Crash assert_failed
  end.

(* sylar/http/http-parser/http_parser.c:2483-2486, http_body_is_final *)
Definition http_body_is_final (x : http_parser) : bool := bool_decide (p_state x = s_message_done).

(* ------------------------------------------------------------------ *)
(** ** The URL machine *)

(* sylar/http/http-parser/http_parser.c:490-636, parse_url_char *)
Definition parse_url_char (s : state) (ch : ascii) : state :=
  if ch =c " " || ch =c CR || ch =c LF then s_dead
  else if ch =c TAB || ch =c FF then s_dead
  else
    match s with
    | s_req_spaces_before_url =>
        if ch =c "/" || ch =c "*" then s_req_path
        else if IS_ALPHA ch then s_req_schema
        else s_dead
    | s_req_schema =>
        if IS_ALPHA ch then s
        else if ch =c ":" then s_req_schema_slash
        else s_dead
    | s_req_schema_slash => if ch =c "/" then s_req_schema_slash_slash else s_dead
    | s_req_schema_slash_slash => if ch =c "/" then s_req_server_start else s_dead
    | s_req_server_with_at | s_req_server_start | s_req_server =>
        if bool_decide (s = s_req_server_with_at) && (ch =c "@") then s_dead
        else if ch =c "/" then s_req_path
        else if ch =c "?" then s_req_query_string_start
        else if ch =c "@" then s_req_server_with_at
        else if IS_USERINFO_CHAR ch || ch =c "[" || ch =c "]" then s_req_server
        else s_dead
    | s_req_path =>
        if IS_URL_CHAR ch then s
        else if ch =c "?" then s_req_query_string_start
        else if ch =c "#" then s_req_fragment_start
        else s_dead
    | s_req_query_string_start | s_req_query_string =>
        if IS_URL_CHAR ch then s_req_query_string
        else if ch =c "?" then s_req_query_string
        else if ch =c "#" then s_req_fragment_start
        else s_dead
    | s_req_fragment_start =>
        if IS_URL_CHAR ch then s_req_fragment
        else if ch =c "?" then s_req_fragment
        else if ch =c "#" then s
        else s_dead
    | s_req_fragment =>
        if IS_URL_CHAR ch then s
        else if ch =c "?" || ch =c "#" then s
        else s_dead
    | _ => s_dead
    end.
