(* ===== verification/Http.v ===== *)
(** * HTTP requests and responses ([http/http.h], [http/http.cc])

    Methods and status codes with their names, the maps whose keys ignore
    case, the two messages with their accessors, the parameters and cookies
    parsed on first use, and how a message is printed.  [lexical_cast] and
    [strftime] are parameters. *)
From S2P Require Import Prelude StdString OrderedSet OrderedMap Util HttpParser.

Local Open Scope Z_scope.

(** The enumerations are their values: the code casts to them. *)
Definition methods : list http_method :=
  [HTTP_DELETE; HTTP_GET; HTTP_HEAD; HTTP_POST; HTTP_PUT; HTTP_CONNECT; HTTP_OPTIONS;
   HTTP_TRACE; HTTP_COPY; HTTP_LOCK; HTTP_MKCOL; HTTP_MOVE; HTTP_PROPFIND;
   HTTP_PROPPATCH; HTTP_SEARCH; HTTP_UNLOCK; HTTP_BIND; HTTP_REBIND; HTTP_UNBIND;
   HTTP_ACL; HTTP_REPORT; HTTP_MKACTIVITY; HTTP_CHECKOUT; HTTP_MERGE; HTTP_MSEARCH;
   HTTP_NOTIFY; HTTP_SUBSCRIBE; HTTP_UNSUBSCRIBE; HTTP_PATCH; HTTP_PURGE; HTTP_MKCALENDAR;
   HTTP_LINK; HTTP_UNLINK; HTTP_SOURCE].

(** The names, by number. *)
(* sylar/http/http.cc:34-38, s_method_string *)
Definition s_method_string : list bytes := map method_strings methods.

(* sylar/http/http.h:26-31, HttpMethod *)
Definition INVALID_METHOD : Z := 34.

(** The number of the first name that satisfies the test. *)
Fixpoint method_such (p : bytes → bool) (n : Z) (l : list bytes) : Z :=
  match l with
  | [] => INVALID_METHOD
  | s :: l' => if p s then n else method_such p (n + 1) l'
  end.

(* sylar/http/http.cc:13-21, StringToHttpMethod *)
Definition StringToHttpMethod (m : bytes) : Z :=
  method_such (λ s, bool_decide (s = c_str m)) 0 s_method_string.

(* sylar/http/http.cc:23-31, CharsToHttpMethod *)
Definition CharsToHttpMethod (m : bytes) : Z :=
  method_such (λ s, bool_decide (s = take (length s) (c_str m))) 0 s_method_string.

(* sylar/http/http.cc:39-45, HttpMethodToString *)
Definition HttpMethodToString (m : Z) : bytes :=
  let idx := u32 m in
  if Z.of_nat (length s_method_string) <=? idx then B "<unknown>"
  else nth (Z.to_nat idx) s_method_string [].

(* sylar/http/http.cc:47-57, HttpStatusToString *)
Definition HttpStatusToString (s : Z) : bytes :=
  match find (λ e, e.1 =? s) status_map with Some e => e.2 | None => B "<unknown>" end.

(* sylar/http/http.cc:59-61, CaseInsensitiveLess *)
Definition CaseInsensitiveLess (lhs rhs : bytes) : bool := strcasecmp lhs rhs <? 0.

#[global] Instance ci_ordered : OrderedBy CaseInsensitiveLess ci_key bytes_lt.
Proof. intros s t. apply strcasecmp_lt. Qed.

(** [std::map<std::string, std::string, CaseInsensitiveLess>]. *)
Abbreviation MapType := (list (bytes * bytes)).

Definition lookup_ci (k : bytes) (m : MapType) : option bytes := map_find CaseInsensitiveLess k m.
Definition assign_ci (k v : bytes) (m : MapType) : MapType := map_assign CaseInsensitiveLess k v m.
Definition insert_ci (k v : bytes) (m : MapType) : MapType := map_insert CaseInsensitiveLess k v m.
Definition erase_ci (k : bytes) (m : MapType) : MapType := map_erase CaseInsensitiveLess k m.

Definition get_or (m : MapType) (key def : bytes) : bytes := default def (lookup_ci key m).

(** A value converted; [None] when [lexical_cast] throws.  The result is
    whether it succeeded and the value. *)
Section casts.
Context {T : Type} (lexical_cast : bytes → option T).

(* sylar/http/http.h:89-103, checkGetAs *)
Definition checkGetAs (m : MapType) (key : bytes) (def : T) : bool * T :=
  match lookup_ci key m with
  | None => (false, def)
  | Some s => match lexical_cast s with Some v => (true, v) | None => (false, def) end
  end.

(* sylar/http/http.h:112-124, getAs *)
Definition getAs (m : MapType) (key : bytes) (def : T) : T :=
  match lookup_ci key m with
  | None => def
  | Some s => match lexical_cast s with Some v => v | None => def end
  end.
End casts.

(* ------------------------------------------------------------------ *)
(** ** Parameters *)

(** [str] from [pos] on: a key up to '=', a value up to [flag], both
    decoded, the key trimmed first.  The first of equal keys is kept. *)
(* sylar/http/http.cc:204-229, PARSE_PARAM *)
Fixpoint PARSE_PARAM (fuel : nat) (str : bytes) (m : MapType) (flag : ascii)
    (trim : bytes → outcome bytes) (pos : nat) : outcome MapType :=
  match fuel with
  | O => Crash no_fuel
  | S f =>
      match find_char str "=" pos with
      | None => Ret m
      | Some key =>
          let stop := find_char str flag key in
          k ← substr str pos (Some (key - pos)%nat);
          k ← trim k;
          v ← substr str (S key) (match stop with Some p => Some (p - key - 1)%nat | None => None end);
          let m := insert_ci (UrlDecode k true) (UrlDecode v true) m in
          match stop with
          | None => Ret m
          | Some p => PARSE_PARAM f str m flag trim (S p)
          end
      end
  end.

Definition parse_params (str : bytes) (m : MapType) (flag : ascii) (trim : bytes → outcome bytes) : outcome MapType :=
  PARSE_PARAM (S (length str)) str m flag trim 0.

(* ------------------------------------------------------------------ *)
(** ** Requests *)

(** [m_url], which nothing sets or reads, is left out. *)
(* sylar/http/http.h:471-498, HttpRequest *)
Record HttpRequest := mkRequest {
  m_method : Z;
  m_version : Z;
  m_close : bool;
  m_websocket : bool;
  m_parserParamFlag : Z;
  m_path : bytes;
  m_query : bytes;
  m_fragment : bytes;
  m_body : bytes;
  m_headers : MapType;
  m_params : MapType;
  m_cookies : MapType
}.

Implicit Types (r : HttpRequest).

(* sylar/http/http.h:194-194, HttpRequest::setMethod *)
Definition setMethod v r := mkRequest v (m_version r) (m_close r) (m_websocket r) (m_parserParamFlag r) (m_path r) (m_query r) (m_fragment r) (m_body r) (m_headers r) (m_params r) (m_cookies r).
(* sylar/http/http.h:200-200, HttpRequest::setVersion *)
Definition setVersion v r := mkRequest (m_method r) (u8 v) (m_close r) (m_websocket r) (m_parserParamFlag r) (m_path r) (m_query r) (m_fragment r) (m_body r) (m_headers r) (m_params r) (m_cookies r).
(* sylar/http/http.h:206-206, HttpRequest::setPath *)
Definition setPath v r := mkRequest (m_method r) (m_version r) (m_close r) (m_websocket r) (m_parserParamFlag r) v (m_query r) (m_fragment r) (m_body r) (m_headers r) (m_params r) (m_cookies r).
(* sylar/http/http.h:212-212, HttpRequest::setQuery *)
Definition setQuery v r := mkRequest (m_method r) (m_version r) (m_close r) (m_websocket r) (m_parserParamFlag r) (m_path r) v (m_fragment r) (m_body r) (m_headers r) (m_params r) (m_cookies r).
(* sylar/http/http.h:218-218, HttpRequest::setFragment *)
Definition setFragment v r := mkRequest (m_method r) (m_version r) (m_close r) (m_websocket r) (m_parserParamFlag r) (m_path r) (m_query r) v (m_body r) (m_headers r) (m_params r) (m_cookies r).
(* sylar/http/http.h:224-224, HttpRequest::setBody *)
Definition setBody v r := mkRequest (m_method r) (m_version r) (m_close r) (m_websocket r) (m_parserParamFlag r) (m_path r) (m_query r) (m_fragment r) v (m_headers r) (m_params r) (m_cookies r).
(* sylar/http/http.h:240-240, HttpRequest::setClose *)
Definition setClose v r := mkRequest (m_method r) (m_version r) v (m_websocket r) (m_parserParamFlag r) (m_path r) (m_query r) (m_fragment r) (m_body r) (m_headers r) (m_params r) (m_cookies r).
(* sylar/http/http.h:250-250, HttpRequest::setWebsocket *)
Definition setWebsocket v r := mkRequest (m_method r) (m_version r) (m_close r) v (m_parserParamFlag r) (m_path r) (m_query r) (m_fragment r) (m_body r) (m_headers r) (m_params r) (m_cookies r).
(* sylar/http/http.h:256-256, HttpRequest::setHeaders *)
Definition setHeaders v r := mkRequest (m_method r) (m_version r) (m_close r) (m_websocket r) (m_parserParamFlag r) (m_path r) (m_query r) (m_fragment r) (m_body r) v (m_params r) (m_cookies r).
(* sylar/http/http.h:262-262, HttpRequest::setParams *)
Definition setParams v r := mkRequest (m_method r) (m_version r) (m_close r) (m_websocket r) (m_parserParamFlag r) (m_path r) (m_query r) (m_fragment r) (m_body r) (m_headers r) v (m_cookies r).
(* sylar/http/http.h:268-268, HttpRequest::setCookies *)
Definition setCookies v r := mkRequest (m_method r) (m_version r) (m_close r) (m_websocket r) (m_parserParamFlag r) (m_path r) (m_query r) (m_fragment r) (m_body r) (m_headers r) (m_params r) v.
Definition set_flag v r := mkRequest (m_method r) (m_version r) (m_close r) (m_websocket r) v (m_path r) (m_query r) (m_fragment r) (m_body r) (m_headers r) (m_params r) (m_cookies r).

(* sylar/http/http.h:230-230, HttpRequest::appendBody *)
Definition appendBody v r : HttpRequest := setBody (m_body r ++ v) r.

(* sylar/http/http.cc:63-70, HttpRequest::HttpRequest *)
Definition new_HttpRequest (version : Z) (close : bool) : HttpRequest :=
  mkRequest 1 (u8 version) close false 0 (B "/") [] [] [] [] [] [].

(* sylar/http/http.cc:72-75, HttpRequest::getHeader *)
Definition getHeader (key def : bytes) r : bytes := get_or (m_headers r) key def.

(* sylar/http/http.cc:95-97, HttpRequest::setHeader *)
Definition setHeader (key val : bytes) r : HttpRequest := setHeaders (assign_ci key val (m_headers r)) r.
(* sylar/http/http.cc:99-101, HttpRequest::setParam *)
Definition setParam (key val : bytes) r : HttpRequest := setParams (assign_ci key val (m_params r)) r.
(* sylar/http/http.cc:103-105, HttpRequest::setCookie *)
Definition setCookie (key val : bytes) r : HttpRequest := setCookies (assign_ci key val (m_cookies r)) r.
(* sylar/http/http.cc:107-109, HttpRequest::delHeader *)
Definition delHeader (key : bytes) r : HttpRequest := setHeaders (erase_ci key (m_headers r)) r.
(* sylar/http/http.cc:111-113, HttpRequest::delParam *)
Definition delParam (key : bytes) r : HttpRequest := setParams (erase_ci key (m_params r)) r.
(* sylar/http/http.cc:115-117, HttpRequest::delCookie *)
Definition delCookie (key : bytes) r : HttpRequest := setCookies (erase_ci key (m_cookies r)) r.
(* sylar/http/http.cc:119-128, HttpRequest::hasHeader *)
Definition hasHeader (key : bytes) r : option bytes := lookup_ci key (m_headers r).

(** [m_parserParamFlag & bit], and setting it. *)
Definition parsed (bit : Z) r : bool := negb (Z.land (m_parserParamFlag r) bit =? 0).
Definition set_parsed (bit : Z) r : HttpRequest := set_flag (u8 (Z.lor (m_parserParamFlag r) bit)) r.

Definition no_trim (s : bytes) : outcome bytes := Ret s.
Definition blanks : bytes := B " " ++ [char_of 9; char_of 13; char_of 10].

(* sylar/http/http.cc:199-233, HttpRequest::initQueryParam *)
Definition initQueryParam : stE HttpRequest unit := λ r,
  if parsed 1 r then (Ret tt, r)
  else match parse_params (m_query r) (m_params r) "&" no_trim with
       | Ret m => (Ret tt, set_parsed 1 (setParams m r))
       | Throw e => (Throw e, r)
       | Crash f => (Crash f, r)
       end.

(* sylar/http/http.cc:235-246, HttpRequest::initBodyParam *)
Definition initBodyParam : stE HttpRequest unit := λ r,
  if parsed 2 r then (Ret tt, r)
  else
    let content_type := getHeader (B "content-type") [] r in
    if negb (strcasestr content_type (B "application/x-www-form-urlencoded"))
    then (Ret tt, set_parsed 2 r)
    else match parse_params (m_body r) (m_params r) "&" no_trim with
         | Ret m => (Ret tt, set_parsed 2 (setParams m r))
         | Throw e => (Throw e, r)
         | Crash f => (Crash f, r)
         end.

(* sylar/http/http.cc:248-259, HttpRequest::initCookies *)
Definition initCookies : stE HttpRequest unit := λ r,
  if parsed 4 r then (Ret tt, r)
  else
    let cookie := getHeader (B "cookie") [] r in
    if bool_decide (cookie = []) then (Ret tt, set_parsed 4 r)
    else match parse_params cookie (m_cookies r) ";" (λ s, Trim s blanks) with
         | Ret m => (Ret tt, set_parsed 4 (setCookies m r))
         | Throw e => (Throw e, r)
         | Crash f => (Crash f, r)
         end.

(* sylar/http/http.cc:82-87, HttpRequest::getParam *)
Definition getParam (key def : bytes) : stE HttpRequest bytes :=
  _ ← initQueryParam; _ ← initBodyParam;
  r ← get; mret (get_or (m_params r) key def).

(* sylar/http/http.cc:89-93, HttpRequest::getCookie *)
Definition getCookie (key def : bytes) : stE HttpRequest bytes :=
  _ ← initCookies; r ← get; mret (get_or (m_cookies r) key def).

(* sylar/http/http.cc:130-141, HttpRequest::hasParam *)
Definition hasParam (key : bytes) : stE HttpRequest (option bytes) :=
  _ ← initQueryParam; _ ← initBodyParam;
  r ← get; mret (lookup_ci key (m_params r)).

(* sylar/http/http.cc:143-153, HttpRequest::hasCookie *)
Definition hasCookie (key : bytes) : stE HttpRequest (option bytes) :=
  _ ← initCookies; r ← get; mret (lookup_ci key (m_cookies r)).

(** The members that convert what they find. *)
Section getters.
Context {T : Type} (lexical_cast : bytes → option T).

(* sylar/http/http.h:367-369, HttpRequest::checkGetHeaderAs *)
Definition checkGetHeaderAs (key : bytes) (def : T) r : bool * T := checkGetAs lexical_cast (m_headers r) key def.
(* sylar/http/http.h:379-381, HttpRequest::getHeaderAs *)
Definition getHeaderAs (key : bytes) (def : T) r : T := getAs lexical_cast (m_headers r) key def.
(* sylar/http/http.h:392-396, HttpRequest::checkGetParamAs *)
Definition checkGetParamAs (key : bytes) (def : T) : stE HttpRequest (bool * T) :=
  _ ← initQueryParam; _ ← initBodyParam; r ← get; mret (checkGetAs lexical_cast (m_params r) key def).
(* sylar/http/http.h:406-410, HttpRequest::getParamAs *)
Definition getParamAs (key : bytes) (def : T) : stE HttpRequest T :=
  _ ← initQueryParam; _ ← initBodyParam; r ← get; mret (getAs lexical_cast (m_params r) key def).
(* sylar/http/http.h:421-424, HttpRequest::checkGetCookieAs *)
Definition checkGetCookieAs (key : bytes) (def : T) : stE HttpRequest (bool * T) :=
  _ ← initCookies; r ← get; mret (checkGetAs lexical_cast (m_cookies r) key def).
(* sylar/http/http.h:434-437, HttpRequest::getCookieAs *)
Definition getCookieAs (key : bytes) (def : T) : stE HttpRequest T :=
  _ ← initCookies; r ← get; mret (getAs lexical_cast (m_cookies r) key def).
End getters.

(* sylar/http/http.cc:261-270, HttpRequest::init *)
Definition init r : HttpRequest :=
  let conn := getHeader (B "connection") [] r in
  if bool_decide (conn = []) then r
  else setClose (negb (strcasecmp conn (B "keep-alive") =? 0)) r.

(* ------------------------------------------------------------------ *)
(** ** Printing *)

Definition crlf : bytes := [char_of 13; char_of 10].
Definition header_line (k v : bytes) : bytes := k ++ B ": " ++ v ++ crlf.
Definition version_text (v : Z) : bytes :=
  B "HTTP/" ++ to_string (u32 (Z.shiftr v 4)) ++ B "." ++ to_string (u32 (Z.land v 15)).
Definition connection_value (close : bool) : bytes := if close then B "close" else B "keep-alive".
Definition is_name (k name : bytes) : bool := strcasecmp k name =? 0.

(** [content-length], the blank line and the body. *)
(* sylar/http/http.cc:190-195, HttpRequest::dump *)
Definition body_part (body : bytes) : bytes :=
  match body with
  | [] => crlf
  | _ => B "content-length: " ++ to_string (Z.of_nat (length body)) ++ crlf ++ crlf ++ body
  end.

(* sylar/http/http.cc:180-188, HttpRequest::dump *)
Definition dump_header (websocket : bool) (body : bytes) (i : bytes * bytes) : bytes :=
  if negb websocket && is_name i.1 (B "connection") then []
  else if negb (bool_decide (body = [])) && is_name i.1 (B "content-length") then []
  else header_line i.1 i.2.

(* sylar/http/http.cc:161-197, HttpRequest::dump *)
Definition dump r : bytes :=
  HttpMethodToString (m_method r) ++ B " " ++ m_path r
  ++ (if bool_decide (m_query r = []) then [] else B "?") ++ m_query r
  ++ (if bool_decide (m_fragment r = []) then [] else B "#") ++ m_fragment r
  ++ B " " ++ version_text (m_version r) ++ crlf
  ++ (if m_websocket r then [] else header_line (B "connection") (connection_value (m_close r)))
  ++ (m_headers r ≫= dump_header (m_websocket r) (m_body r))
  ++ body_part (m_body r).
