(* ===== verification/HttpResponse.v ===== *)
(** * HTTP responses ([http/http.h], [http/http.cc])

    The response message, its accessors and how it is printed; [strftime],
    which writes the expiry of a cookie, is a parameter. *)
From S2P Require Import Prelude StdString OrderedMap.
From S2P Require Import Http.

Local Open Scope Z_scope.

(* sylar/http/http.h:678-696, HttpResponse *)
Record HttpResponse := mkResponse {
  m_status : Z;
  m_version : Z;
  m_close : bool;
  m_websocket : bool;
  m_body : bytes;
  m_reason : bytes;
  m_headers : MapType;
  m_cookies : list bytes
}.

Implicit Types (r : HttpResponse).

(* sylar/http/http.h:551-551, HttpResponse::setStatus *)
Definition setStatus v r := mkResponse v (m_version r) (m_close r) (m_websocket r) (m_body r) (m_reason r) (m_headers r) (m_cookies r).
(* sylar/http/http.h:557-557, HttpResponse::setVersion *)
Definition setVersion v r := mkResponse (m_status r) (u8 v) (m_close r) (m_websocket r) (m_body r) (m_reason r) (m_headers r) (m_cookies r).
(* sylar/http/http.h:563-563, HttpResponse::setBody *)
Definition setBody v r := mkResponse (m_status r) (m_version r) (m_close r) (m_websocket r) v (m_reason r) (m_headers r) (m_cookies r).
(* sylar/http/http.h:569-569, HttpResponse::appendBody *)
Definition appendBody v r : HttpResponse := setBody (m_body r ++ v) r.
(* sylar/http/http.h:575-575, HttpResponse::setReason *)
Definition setReason v r := mkResponse (m_status r) (m_version r) (m_close r) (m_websocket r) (m_body r) v (m_headers r) (m_cookies r).
(* sylar/http/http.h:581-581, HttpResponse::setHeaders *)
Definition setHeaders v r := mkResponse (m_status r) (m_version r) (m_close r) (m_websocket r) (m_body r) (m_reason r) v (m_cookies r).
(* sylar/http/http.h:591-591, HttpResponse::setClose *)
Definition setClose v r := mkResponse (m_status r) (m_version r) v (m_websocket r) (m_body r) (m_reason r) (m_headers r) (m_cookies r).
(* sylar/http/http.h:601-601, HttpResponse::setWebsocket *)
Definition setWebsocket v r := mkResponse (m_status r) (m_version r) (m_close r) v (m_body r) (m_reason r) (m_headers r) (m_cookies r).
Definition add_cookie v r := mkResponse (m_status r) (m_version r) (m_close r) (m_websocket r) (m_body r) (m_reason r) (m_headers r) (m_cookies r ++ [v]).

(* sylar/http/http.cc:272-277, HttpResponse::HttpResponse *)
Definition new_HttpResponse (version : Z) (close : bool) : HttpResponse :=
  mkResponse 200 (u8 version) close false [] [] [] [].

(* sylar/http/http.cc:77-80, HttpRequest::createResponse *)
Definition createResponse (q : HttpRequest) : HttpResponse :=
  new_HttpResponse (Http.m_version q) (Http.m_close q).

(* sylar/http/http.cc:279-282, HttpResponse::getHeader *)
Definition getHeader (key def : bytes) r : bytes := get_or (m_headers r) key def.
(* sylar/http/http.cc:284-286, HttpResponse::setHeader *)
Definition setHeader (key val : bytes) r : HttpResponse := setHeaders (assign_ci key val (m_headers r)) r.
(* sylar/http/http.cc:288-290, HttpResponse::delHeader *)
Definition delHeader (key : bytes) r : HttpResponse := setHeaders (erase_ci key (m_headers r)) r.

Section getters.
Context {T : Type} (lexical_cast : bytes → option T).
(* sylar/http/http.h:633-635, HttpResponse::checkGetHeaderAs *)
Definition checkGetHeaderAs (key : bytes) (def : T) r : bool * T := checkGetAs lexical_cast (m_headers r) key def.
(* sylar/http/http.h:645-647, HttpResponse::getHeaderAs *)
Definition getHeaderAs (key : bytes) (def : T) r : T := getAs lexical_cast (m_headers r) key def.
End getters.

(* sylar/http/http.cc:292-295, HttpResponse::setRedirect *)
Definition setRedirect (uri : bytes) r : HttpResponse := setHeader (B "Location") uri (setStatus 302 r).

Section cookies.
(** [Time2Str(ts, format)]. *)
Context (Time2Str : Z → bytes → bytes).

(* sylar/http/http.cc:297-315, HttpResponse::setCookie *)
Definition setCookie (key val : bytes) (expired : Z) (path domain : bytes) (secure : bool) r : HttpResponse :=
  add_cookie
    (key ++ B "=" ++ val
     ++ (if 0 <? expired then B ";expires=" ++ Time2Str expired (B "%a, %d %b %Y %H:%M:%S") ++ B " GMT" else [])
     ++ (if bool_decide (domain = []) then [] else B ";domain=" ++ domain)
     ++ (if bool_decide (path = []) then [] else B ";path=" ++ path)
     ++ (if secure then B ";secure" else [])) r.
End cookies.

(* sylar/http/http.cc:334-339, HttpResponse::dump *)
Definition dump_header (websocket : bool) (i : bytes * bytes) : bytes :=
  if negb websocket && is_name i.1 (B "connection") then [] else header_line i.1 i.2.

(* sylar/http/http.cc:323-353, HttpResponse::dump *)
Definition dump r : bytes :=
  version_text (m_version r) ++ B " " ++ to_string (u32 (m_status r)) ++ B " "
  ++ (if bool_decide (m_reason r = []) then HttpStatusToString (m_status r) else m_reason r) ++ crlf
  ++ (m_headers r ≫= dump_header (m_websocket r))
  ++ (m_cookies r ≫= header_line (B "Set-Cookie"))
  ++ (if m_websocket r then [] else header_line (B "connection") (connection_value (m_close r)))
  ++ body_part (m_body r).
