(* ===== verification/HttpTheorems.v ===== *)
(** * HTTP messages: what they promise

    The names of methods and statuses, headers as a map that ignores case,
    parameters against the text they were encoded in, and the lines of a
    printed message. *)
From stdpp Require Import sorting.
From S2P Require Import Prelude StdString OrderedSet OrderedMap Util HttpParser Http.
From S2P Require HttpResponse.

Local Open Scope Z_scope.

(* ------------------------------------------------------------------ *)
(** ** Parameters *)

(** A form: keys and values encoded, joined by '&'. *)
Definition pair_text (p : bytes * bytes) : bytes := UrlEncode p.1 true ++ "="%char :: UrlEncode p.2 true.
Fixpoint form_text (l : list (bytes * bytes)) : bytes :=
  match l with
  | [] => []
  | [p] => pair_text p
  | p :: l' => pair_text p ++ "&"%char :: form_text l'
  end.

Definition insert_all (l : list (bytes * bytes)) (m : MapType) : MapType :=
  fold_left (λ m p, insert_ci p.1 p.2 m) l m.

Lemma encode_clean c d plus : d ∈ encode_char plus c → d ≠ "&"%char ∧ (c ≠ "="%char → d ≠ "="%char).
Proof.
  assert (forallb (λ d, negb (Ascii.eqb d "&") && (Ascii.eqb c "=" || negb (Ascii.eqb d "=")))
            (encode_char plus c) = true) as H by (destruct plus; by_chars c).
  rewrite forallb_forall in H. intros Hd%list_elem_of_In%H. apply andb_prop in Hd as [H1 H2].
  apply negb_true_iff, Ascii.eqb_neq in H1. split; [done|]. intros Hc ->.
  apply orb_true_iff in H2 as [H2|H2]; [by apply Ascii.eqb_eq in H2|by rewrite ascii_eqb_refl in H2].
Qed.

Lemma UrlEncode_no_amp s plus : "&"%char ∉ UrlEncode s plus.
Proof.
  rewrite UrlEncode_ref. unfold encode. rewrite list_elem_of_bind. intros (c & Hd & _).
  by apply encode_clean in Hd as [? _].
Qed.
Lemma UrlEncode_no_eq s plus : "="%char ∉ s → "="%char ∉ UrlEncode s plus.
Proof.
  intros Hs. rewrite UrlEncode_ref. unfold encode. rewrite list_elem_of_bind. intros (c & Hd & Hc).
  apply encode_clean in Hd as [_ Hd]. apply Hd; [|done]. by intros ->.
Qed.
Lemma UrlDecode_Encode s : UrlDecode (UrlEncode s true) true = s.
Proof. rewrite UrlEncode_ref, UrlDecode_ref. apply (decode_encode s true true). Qed.

(** One round of the loop, by where the separators are. *)
Lemma parse_round f pre k v rest m : "="%char ∉ k → "&"%char ∉ v →
  match rest with [] => True | c :: _ => c = "&"%char end →
  PARSE_PARAM (S f) (pre ++ k ++ "="%char :: v ++ rest) m "&" no_trim (length pre) =
  let m' := insert_ci (UrlDecode k true) (UrlDecode v true) m in
  match rest with
  | [] => Ret m'
  | _ :: _ => PARSE_PARAM f (pre ++ k ++ "="%char :: v ++ rest) m' "&" no_trim (S (length (pre ++ k ++ "="%char :: v)))
  end.
Proof.
  intros Hk Hv Hr. set (str := pre ++ k ++ "="%char :: v ++ rest). cbn [PARSE_PARAM].
  assert (find_char str "=" (length pre) = Some (length (pre ++ k))) as ->.
  { unfold str. rewrite app_assoc. apply find_char_app; [rewrite length_app; lia|]. by rewrite drop_app_length. }
  assert (str = (pre ++ k ++ ["="%char]) ++ v ++ rest) as Estr by (unfold str; rewrite <- !app_assoc; done).
  assert (length (pre ++ k ++ ["="%char]) = S (length (pre ++ k))) as El by (rewrite !length_app; cbn; lia).
  assert (find_char str "&" (length (pre ++ k)) =
    match rest with [] => None | _ => Some (length (pre ++ k ++ "="%char :: v)) end) as ->.
  { destruct rest as [|c rest]; [|subst c].
    - unfold str. apply find_char_None. rewrite app_nil_r, app_assoc, drop_app_length. set_solver.
    - unfold str. rewrite app_comm_cons, app_assoc, app_assoc.
      rewrite <- (app_assoc pre). apply find_char_app; [rewrite !length_app; lia|].
      rewrite app_assoc, drop_app_length. set_solver. }
  assert (length str = length pre + length k + S (length v + length rest))%nat as Elen
    by (unfold str; rewrite !length_app; cbn; rewrite length_app; lia).
  assert (drop (length pre) str = k ++ "="%char :: v ++ rest) as Ed by apply drop_app_length.
  rewrite substr_ret, Ed by lia.
  replace (length (pre ++ k) - length pre)%nat with (length k) by (rewrite length_app; lia).
  rewrite take_app_length. cbn [mbind outcome_bind no_trim]. rewrite <- El. cbv zeta.
  assert (drop (length (pre ++ k ++ ["="%char])) str = v ++ rest) as Ev by (rewrite Estr; apply drop_app_length).
  destruct rest as [|c rest].
  - rewrite substr_all, Ev, app_nil_r by (rewrite El, length_app; lia). done.
  - rewrite substr_ret, Ev by (rewrite El, length_app; lia).
    replace (length (pre ++ k ++ "="%char :: v) - length (pre ++ k) - 1)%nat with (length v)
      by (rewrite !length_app; cbn; lia).
    by rewrite take_app_length.
Qed.

Lemma parse_form l pre m f : l ≠ [] → Forall (λ p, "="%char ∉ p.1) l → (length l <= f)%nat →
  PARSE_PARAM f (pre ++ form_text l) m "&" no_trim (length pre) = Ret (insert_all l m).
Proof.
  revert pre m f. induction l as [|[k v] l IH]; intros pre m f Hne Hl Hf; [done|].
  apply Forall_cons in Hl as [Hk Hl]. destruct f as [|f]; cbn in Hf; [lia|].
  assert (form_text ((k, v) :: l) = UrlEncode k true ++ "="%char :: UrlEncode v true ++
    match l with [] => [] | _ => "&"%char :: form_text l end) as ->.
  { destruct l; cbn [form_text]; unfold pair_text; cbn [fst snd]; [by rewrite app_nil_r|].
    by rewrite <- app_assoc. }
  rewrite parse_round; [|by apply UrlEncode_no_eq|apply UrlEncode_no_amp|by destruct l].
  rewrite !UrlDecode_Encode. cbn [insert_all fold_left fst snd]. destruct l as [|p l]; [done|].
  set (pre' := pre ++ UrlEncode k true ++ "="%char :: UrlEncode v true ++ ["&"%char]).
  assert (pre ++ UrlEncode k true ++ "="%char :: UrlEncode v true ++ "&"%char :: form_text (p :: l)
          = pre' ++ form_text (p :: l)) as ->.
  { unfold pre'. rewrite <- !app_assoc. cbn [app]. by rewrite <- app_assoc. }
  replace (S (length (pre ++ UrlEncode k true ++ "="%char :: UrlEncode v true))) with (length pre').
  - apply IH; [done|done|cbn in *; lia].
  - unfold pre'. rewrite !length_app. cbn. rewrite !length_app. cbn. lia.
Qed.

Lemma form_text_length l : (length l <= length (form_text l))%nat.
Proof.
  induction l as [|p l IH]; [done|]. cbn [form_text]. unfold pair_text.
  destruct l; cbn in *; rewrite !length_app; cbn in *; lia.
Qed.

Lemma parse_params_form l m : Forall (λ p, "="%char ∉ p.1) l →
  parse_params (form_text l) m "&" no_trim = Ret (insert_all l m).
Proof.
  intros Hl. destruct l as [|p l]; [done|]. unfold parse_params.
  apply (parse_form (p :: l) [] m); [done|done|]. pose proof (form_text_length (p :: l)). lia.
Qed.

(** The first pair with a key, whatever its case. *)
Definition first_match (key : bytes) (l : list (bytes * bytes)) : option bytes :=
  snd <$> find (λ p, bool_decide (ci_key key = ci_key p.1)) l.

Definition headers_ok (m : MapType) : Prop := map_sorted ci_key bytes_lt m.

Lemma lookup_assign k key v m : headers_ok m →
  lookup_ci k (assign_ci key v m) = if decide (ci_key k = ci_key key) then Some v else lookup_ci k m.
Proof. apply (find_assign _ ci_key bytes_lt). Qed.
Lemma lookup_insert k key v m : headers_ok m →
  lookup_ci k (insert_ci key v m) = if decide (ci_key k = ci_key key)
    then match lookup_ci k m with Some w => Some w | None => Some v end else lookup_ci k m.
Proof. apply (find_insert _ ci_key bytes_lt). Qed.
Lemma lookup_erase k key m : headers_ok m →
  lookup_ci k (erase_ci key m) = if decide (ci_key k = ci_key key) then None else lookup_ci k m.
Proof. apply (find_erase _ ci_key bytes_lt). Qed.
Lemma insert_ok key v m : headers_ok m → headers_ok (insert_ci key v m).
Proof. intros H. exact (proj1 (put_sorted CaseInsensitiveLess ci_key bytes_lt key v m H)). Qed.
Lemma assign_ok key v m : headers_ok m → headers_ok (assign_ci key v m).
Proof. intros H. exact (proj2 (put_sorted CaseInsensitiveLess ci_key bytes_lt key v m H)). Qed.
Lemma erase_ok key m : headers_ok m → headers_ok (erase_ci key m).
Proof. apply erase_sorted. Qed.

Lemma lookup_insert_all key l m : headers_ok m →
  headers_ok (insert_all l m) ∧
  lookup_ci key (insert_all l m) = match lookup_ci key m with Some v => Some v | None => first_match key l end.
Proof.
  revert m. induction l as [|[k v] l IH]; intros m Hm.
  { split; [done|]. change (insert_all [] m) with m. change (first_match key []) with (@None bytes).
    by destruct (lookup_ci key m). }
  destruct (IH (insert_ci k v m)) as [H1 H2]; [by apply insert_ok|]. split; [done|].
  cbn [insert_all fold_left fst snd]. unfold insert_all in H2. rewrite H2, lookup_insert by done.
  unfold first_match. cbn [find fst]. case_decide as Hd.
  - rewrite bool_decide_eq_true_2 by done. by destruct (lookup_ci key m).
  - rewrite bool_decide_eq_false_2 by done. done.
Qed.

Lemma insert_all_app l1 l2 m : insert_all (l1 ++ l2) m = insert_all l2 (insert_all l1 m).
Proof. apply fold_left_app. Qed.

(** Whether the body is a form. *)
Definition is_form (r : HttpRequest) : bool :=
  strcasestr (getHeader (B "content-type") [] r) (B "application/x-www-form-urlencoded").

(** The parameters of a request are those of the form its query was
    encoded from, then those of its body if the content type says it is a
    form; keys compare without regard to case and the first of equal keys
    counts.  Reading a parameter parses the text once: a second read gives the
    same and changes nothing. *)
Theorem params_roundtrip (r : HttpRequest) l1 l2 key def :
  m_parserParamFlag r = 0 → m_params r = [] → m_query r = form_text l1 →
  (is_form r = true → m_body r = form_text l2) →
  Forall (λ p, "="%char ∉ p.1) l1 → Forall (λ p, "="%char ∉ p.1) l2 →
  let l := if is_form r then l1 ++ l2 else l1 in
  ∃ r', getParam key def r = (Ret (default def (first_match key l)), r') ∧
    getParam key def r' = (Ret (default def (first_match key l)), r').
Proof.
  intros Hf Hp Hq Hb H1 H2 l.
  set (r1 := set_parsed 1 (setParams (insert_all l1 []) r)).
  set (r2 := set_parsed 2 (setParams (insert_all l []) r1)).
  assert (initQueryParam r = (Ret tt, r1)) as E1.
  { unfold initQueryParam, parsed. rewrite Hf, Hp, Hq. cbn [Z.land Z.eqb negb]. by rewrite parse_params_form. }
  assert (initBodyParam r1 = (Ret tt, r2)) as E2.
  { unfold initBodyParam, parsed. cbn [m_parserParamFlag r1 set_parsed set_flag setParams]. rewrite Hf.
    change (Z.land (u8 (Z.lor 0 1)) 2) with 0. cbn [Z.eqb negb].
    change (getHeader (B "content-type") [] r1) with (getHeader (B "content-type") [] r).
    fold (is_form r). unfold r2, l. destruct (is_form r); cbn [negb]; [|done].
    change (m_body r1) with (m_body r). rewrite Hb by done.
    change (m_params r1) with (insert_all l1 []). rewrite parse_params_form by done.
    by rewrite insert_all_app. }
  assert (get_or (m_params r2) key def = default def (first_match key l)) as Ev.
  { unfold get_or. cbn [m_params r2 set_parsed set_flag setParams].
    destruct (lookup_insert_all key l []) as [_ ->]; [by constructor|done]. }
  assert (m_parserParamFlag r2 = 3) as Ef by (cbn; by rewrite Hf).
  assert (initQueryParam r2 = (Ret tt, r2) ∧ initBodyParam r2 = (Ret tt, r2)) as [E3 E4].
  { unfold initQueryParam, initBodyParam, parsed. rewrite Ef. done. }
  exists r2. unfold getParam. rewrite (stE_bind_ret _ _ _ _ _ E1), (stE_bind_ret _ _ _ _ _ E2).
  rewrite (stE_bind_ret _ _ _ _ _ E3), (stE_bind_ret _ _ _ _ _ E4).
  rewrite (stE_bind_ret _ get r2 r2 r2 eq_refl), Ev. done.
Qed.

(** A query and a form body with a common key, in different case. *)
Definition sample_request : HttpRequest :=
  setHeader (B "Content-Type") (B "application/x-www-form-urlencoded; charset=utf-8")
    (setBody (form_text [(B "user", B "x&y"); (B "C", B "d")])
       (setQuery (form_text [(B "a b", B "1=2"); (B "User", B "me")]) (new_HttpRequest 17 true))).

Lemma params_roundtrip_witness :
  (let l := if is_form sample_request
            then [(B "a b", B "1=2"); (B "User", B "me")] ++ [(B "user", B "x&y"); (B "C", B "d")]
            else [(B "a b", B "1=2"); (B "User", B "me")] in
   ∃ r', getParam (B "USER") [] sample_request = (Ret (default [] (first_match (B "USER") l)), r') ∧
     getParam (B "USER") [] r' = (Ret (default [] (first_match (B "USER") l)), r')) ∧
  (getParam (B "c") [] sample_request).1 = Ret (B "d") ∧ m_query sample_request = B "a+b=1=2&User=me".
Proof.
  split; [|split; vm_compute; reflexivity].
  apply (params_roundtrip sample_request [(B "a b", B "1=2"); (B "User", B "me")]
           [(B "user", B "x&y"); (B "C", B "d")] (B "USER") []);
    [done|done|done|intros _; reflexivity|..]; repeat constructor; vm_compute; set_solver.
Defined.

(* ------------------------------------------------------------------ *)
(** ** Names *)

Lemma names_check (P : Z → Prop) : Forall P (Z.of_nat <$> seq 0 34) → ∀ m, 0 <= m < 34 → P m.
Proof.
  rewrite Forall_forall. intros H m Hm. apply H. apply list_elem_of_fmap.
  exists (Z.to_nat m). split; [lia|]. apply elem_of_seq. lia.
Qed.

(** The name printed for a method is read back as the method, by the
    exact comparison and, whatever follows the name, by the one that compares
    prefixes: no name is a prefix of another; a number that is no method is
    printed as unknown, which is read as the invalid method. *)
Theorem method_names m :
  (0 <= m < 34 → StringToHttpMethod (HttpMethodToString m) = m ∧
     ∀ rest, CharsToHttpMethod (HttpMethodToString m ++ rest) = m) ∧
  (34 <= m < 2 ^ 32 → HttpMethodToString m = B "<unknown>" ∧
     StringToHttpMethod (HttpMethodToString m) = INVALID_METHOD).
Proof.
  split.
  - revert m. apply names_check. cbn [seq fmap list_fmap].
    repeat constructor; vm_compute; reflexivity.
  - intros Hm. assert (HttpMethodToString m = B "<unknown>") as ->; [|by vm_compute].
    unfold HttpMethodToString, wrapu. rewrite Z.mod_small by lia.
    change (Z.of_nat (length s_method_string)) with 34. by destruct (Z.leb_spec 34 m); [|lia].
Qed.

Lemma method_names_witness :
  (0 <= 24 < 34 → StringToHttpMethod (HttpMethodToString 24) = 24 ∧
     ∀ rest, CharsToHttpMethod (HttpMethodToString 24 ++ rest) = 24) ∧
  (34 <= 24 < 2 ^ 32 → HttpMethodToString 24 = B "<unknown>" ∧
     StringToHttpMethod (HttpMethodToString 24) = INVALID_METHOD).
Proof. apply (method_names 24). Defined.

(* ------------------------------------------------------------------ *)
(** ** Headers *)

(** The headers are a map that ignores case: after setting one, it reads
    as set under any spelling of its name and the others as before; after
    deleting it, it is gone; the order of the container is kept. *)
Theorem headers_ignore_case (r : HttpRequest) key key' v def : headers_ok (m_headers r) →
  headers_ok (m_headers (setHeader key v r)) ∧ headers_ok (m_headers (delHeader key r)) ∧
  getHeader key' def (setHeader key v r) =
    (if decide (ci_key key' = ci_key key) then v else getHeader key' def r) ∧
  getHeader key' def (delHeader key r) =
    (if decide (ci_key key' = ci_key key) then def else getHeader key' def r).
Proof.
  intros H. unfold getHeader, setHeader, delHeader, get_or. cbn [m_headers setHeaders].
  rewrite lookup_assign, lookup_erase by done.
  split_and!; [by apply assign_ok|by apply erase_ok|by case_decide|by case_decide].
Qed.

Lemma headers_ignore_case_witness :
  headers_ok (m_headers (setHeader (B "Host") (B "a") sample_request)) ∧
  headers_ok (m_headers (delHeader (B "Host") sample_request)) ∧
  getHeader (B "content-TYPE") [] (setHeader (B "Host") (B "a") sample_request) =
    (if decide (ci_key (B "content-TYPE") = ci_key (B "Host")) then B "a"
     else getHeader (B "content-TYPE") [] sample_request) ∧
  getHeader (B "content-TYPE") [] (delHeader (B "Host") sample_request) =
    (if decide (ci_key (B "content-TYPE") = ci_key (B "Host")) then []
     else getHeader (B "content-TYPE") [] sample_request).
Proof. apply (headers_ignore_case sample_request (B "Host") (B "content-TYPE") (B "a") []). repeat constructor. Defined.

(* ------------------------------------------------------------------ *)
(** ** Printed messages *)

Definition line_of (h : bytes * bytes) : bytes := header_line h.1 h.2.
Definition named (name : bytes) (h : bytes * bytes) : Prop := is_name h.1 name = true.
#[export] Instance named_dec name h : Decision (named name h).
Proof. unfold named. apply _. Defined.

Definition length_header (body : bytes) : list (bytes * bytes) :=
  match body with [] => [] | _ => [(B "content-length", to_string (Z.of_nat (length body)))] end.
Definition connection_header (websocket close : bool) : list (bytes * bytes) :=
  if websocket then [] else [(B "connection", connection_value close)].

Lemma body_part_lines body : body_part body = (length_header body ≫= line_of) ++ crlf ++ body.
Proof.
  destruct body as [|c body]; [done|]. unfold length_header. cbn [mbind list_bind].
  unfold body_part, line_of, header_line. cbn [fst snd]. by rewrite <- !app_assoc.
Qed.

Lemma connection_lines (websocket close : bool) :
  (if websocket then [] else header_line (B "connection") (connection_value close))
  = connection_header websocket close ≫= line_of.
Proof. destruct websocket; [done|]. symmetry. apply app_nil_r. Qed.

(** Printing the headers that are kept is printing the list of those. *)
Lemma filtered_lines (keep : bytes * bytes → bool) (print : bytes * bytes → bytes) l :
  (∀ h, print h = if keep h then line_of h else []) →
  l ≫= print = filter (λ h, keep h = true) l ≫= line_of.
Proof.
  intros H. induction l as [|h l IH]; [done|]. cbn [mbind list_bind]. unfold mbind in *. rewrite H, IH.
  destruct (keep h) eqn:E; [by rewrite filter_cons_True by done|]. rewrite filter_cons_False by (by rewrite E). done.
Qed.

(** What a request keeps of its own headers. *)
Definition request_keeps (r : HttpRequest) (h : bytes * bytes) : bool :=
  negb (negb (m_websocket r) && is_name h.1 (B "connection")) &&
  negb (negb (bool_decide (m_body r = [])) && is_name h.1 (B "content-length")).
Definition request_lines (r : HttpRequest) : list (bytes * bytes) :=
  connection_header (m_websocket r) (m_close r)
  ++ filter (λ h, request_keeps r h = true) (m_headers r) ++ length_header (m_body r).
Definition request_line (r : HttpRequest) : bytes :=
  HttpMethodToString (m_method r) ++ B " " ++ m_path r
  ++ (if bool_decide (m_query r = []) then [] else B "?") ++ m_query r
  ++ (if bool_decide (m_fragment r = []) then [] else B "#") ++ m_fragment r
  ++ B " " ++ version_text (m_version r).

Lemma filter_none (P : bytes * bytes → Prop) `{!∀ h, Decision (P h)} l :
  (∀ h, h ∈ l → ¬ P h) → filter P l = [].
Proof.
  intros Hl. induction l as [|h l IH]; [done|]. rewrite filter_cons_False by (apply Hl; by left).
  apply IH. intros x Hx. apply Hl. by right.
Qed.

(** A printed request is its request line, header lines, an empty line
    and the body.  Unless it is for a websocket there is exactly one
    [connection] line, with what [m_close] says; with a body there is exactly
    one [content-length] line, with its size in decimal, whatever headers were
    set; the other headers are printed as they were set, in the order of the
    container. *)
Theorem request_framing (r : HttpRequest) :
  dump r = request_line r ++ crlf ++ (request_lines r ≫= line_of) ++ crlf ++ m_body r ∧
  (m_websocket r = false →
     filter (named (B "connection")) (request_lines r) = [(B "connection", connection_value (m_close r))]) ∧
  (m_body r ≠ [] → filter (named (B "content-length")) (request_lines r)
     = [(B "content-length", to_string (Z.of_nat (length (m_body r))))]) ∧
  (∀ h, ¬ named (B "connection") h → ¬ named (B "content-length") h →
     h ∈ request_lines r ↔ h ∈ m_headers r).
Proof.
  split_and!.
  - unfold dump, request_line, request_lines. rewrite !bind_app, body_part_lines, connection_lines.
    rewrite (filtered_lines (request_keeps r) (dump_header (m_websocket r) (m_body r))).
    + by rewrite <- !app_assoc.
    + intros h. unfold dump_header, request_keeps. by destruct (_ && is_name h.1 (B "connection")), (_ && is_name h.1 _).
  - intros Hw. unfold request_lines. rewrite Hw, !filter_app.
    rewrite (filter_none _ (filter _ _)), (filter_none _ (length_header _)).
    + done.
    + intros h Hh. unfold length_header in Hh. destruct (m_body r); [by apply not_elem_of_nil in Hh|].
      apply list_elem_of_singleton in Hh as ->. by vm_compute.
    + intros h [Hk _]%list_elem_of_filter Hn. unfold request_keeps in Hk. rewrite Hw in Hk.
      unfold named in Hn. by rewrite Hn in Hk.
  - intros Hb. unfold request_lines. rewrite !filter_app.
    rewrite (filter_none _ (connection_header _ _)), (filter_none _ (filter _ _)).
    + unfold length_header. by destruct (m_body r).
    + intros h [Hk _]%list_elem_of_filter Hn. unfold request_keeps in Hk. rewrite bool_decide_eq_false_2 in Hk by done.
      unfold named in Hn. by rewrite Hn, andb_false_r in Hk.
    + intros h Hh. unfold connection_header in Hh. destruct (m_websocket r); [by apply not_elem_of_nil in Hh|].
      apply list_elem_of_singleton in Hh as ->. by vm_compute.
  - intros h H1 H2. unfold request_lines. rewrite !elem_of_app, list_elem_of_filter.
    assert (h ∉ connection_header (m_websocket r) (m_close r)) as N1.
    { unfold connection_header. destruct (m_websocket r); [apply not_elem_of_nil|].
      intros ->%list_elem_of_singleton. by apply H1. }
    assert (h ∉ length_header (m_body r)) as N2.
    { unfold length_header. destruct (m_body r); [apply not_elem_of_nil|].
      intros ->%list_elem_of_singleton. by apply H2. }
    unfold named in H1, H2. apply not_true_iff_false in H1, H2.
    assert (request_keeps r h = true) by (unfold request_keeps; by rewrite H1, H2, !andb_false_r).
    tauto.
Qed.

Lemma request_framing_witness :
  let r := setHeader (B "Content-Length") (B "1") sample_request in
  dump r = request_line r ++ crlf ++ (request_lines r ≫= line_of) ++ crlf ++ m_body r ∧
  (m_websocket r = false →
     filter (named (B "connection")) (request_lines r) = [(B "connection", connection_value (m_close r))]) ∧
  (m_body r ≠ [] → filter (named (B "content-length")) (request_lines r)
     = [(B "content-length", to_string (Z.of_nat (length (m_body r))))]) ∧
  (∀ h, ¬ named (B "connection") h → ¬ named (B "content-length") h →
     h ∈ request_lines r ↔ h ∈ m_headers r).
Proof. apply (request_framing (setHeader (B "Content-Length") (B "1") sample_request)). Defined.

(** The same for responses, which do not filter [content-length]. *)
Section response.
Import HttpResponse.
Implicit Types (q : HttpResponse).

Definition response_keeps q (h : bytes * bytes) : bool := negb (negb (m_websocket q) && is_name h.1 (B "connection")).
Definition response_lines q : list (bytes * bytes) :=
  filter (λ h, response_keeps q h = true) (m_headers q) ++ ((λ c, (B "Set-Cookie", c)) <$> m_cookies q)
  ++ connection_header (m_websocket q) (m_close q) ++ length_header (m_body q).
Definition status_line q : bytes :=
  version_text (m_version q) ++ B " " ++ to_string (u32 (m_status q)) ++ B " "
  ++ (if bool_decide (m_reason q = []) then HttpStatusToString (m_status q) else m_reason q).

Lemma cookie_lines (l : list bytes) :
  l ≫= header_line (B "Set-Cookie") = ((λ c, (B "Set-Cookie", c)) <$> l) ≫= line_of.
Proof. induction l as [|c l IH]; [done|]. cbn [fmap list_fmap mbind list_bind]. by rewrite IH. Qed.

(** A printed response is its status line, header lines, an empty line and
    the body, with exactly one [connection] line unless it is for a websocket.
    A [content-length] the application set is printed as well as the one for
    the body, so that a response with a body has two. *)
Theorem response_framing q :
  dump q = status_line q ++ crlf ++ (response_lines q ≫= line_of) ++ crlf ++ m_body q ∧
  (m_websocket q = false →
     filter (named (B "connection")) (response_lines q) = [(B "connection", connection_value (m_close q))]) ∧
  (m_body q ≠ [] → filter (named (B "content-length")) (response_lines q)
     = filter (named (B "content-length")) (m_headers q)
       ++ [(B "content-length", to_string (Z.of_nat (length (m_body q))))]).
Proof.
  assert (∀ (P : bytes * bytes → Prop) `{!∀ h, Decision (P h)} l, (∀ c, ¬ P (B "Set-Cookie", c)) →
    filter P ((λ c, (B "Set-Cookie", c)) <$> l) = []) as Hcookies.
  { intros P HP l HC. apply filter_none. intros h (c & -> & _)%list_elem_of_fmap. apply HC. }
  split_and!.
  - unfold dump, status_line, response_lines. rewrite !bind_app, body_part_lines, connection_lines, <- cookie_lines.
    rewrite (filtered_lines (response_keeps q) (HttpResponse.dump_header (m_websocket q))) by (intros h; unfold dump_header, response_keeps; by destruct (_ && _)).
    by rewrite <- !app_assoc.
  - intros Hw. unfold response_lines. rewrite Hw, !filter_app, Hcookies by (intros c; by vm_compute).
    rewrite (filter_none _ (filter _ _)), (filter_none _ (length_header _)).
    + done.
    + intros h Hh. unfold length_header in Hh. destruct (m_body q); [by apply not_elem_of_nil in Hh|].
      apply list_elem_of_singleton in Hh as ->. by vm_compute.
    + intros h [Hk _]%list_elem_of_filter Hn. unfold response_keeps in Hk. rewrite Hw in Hk.
      unfold named in Hn. by rewrite Hn in Hk.
  - intros Hb. unfold response_lines. rewrite !filter_app, Hcookies by (intros c; by vm_compute).
    rewrite (filter_none _ (connection_header _ _)).
    + cbn [app]. f_equal; [|unfold length_header; by destruct (m_body q)].
      rewrite list_filter_filter. apply list_filter_iff. intros h. split; [by intros [? _]|]. intros Hn.
      split; [done|]. unfold response_keeps. destruct (is_name h.1 (B "connection")) eqn:E2; [|by rewrite andb_false_r].
      exfalso. unfold named, is_name in *. rewrite strcasecmp_eq in Hn, E2.
      apply bool_decide_eq_true in Hn, E2. rewrite Hn in E2. by vm_compute in E2.
    + intros h Hh. unfold connection_header in Hh. destruct (m_websocket q); [by apply not_elem_of_nil in Hh|].
      apply list_elem_of_singleton in Hh as ->. by vm_compute.
Qed.
End response.

(** A response whose application set [content-length] itself. *)
Definition sample_response : HttpResponse.HttpResponse :=
  HttpResponse.setBody (B "hi") (HttpResponse.setHeader (B "Content-Length") (B "7")
    (HttpResponse.new_HttpResponse 17 false)).

Lemma response_framing_witness :
  (HttpResponse.dump sample_response = status_line sample_response ++ crlf
     ++ (response_lines sample_response ≫= line_of) ++ crlf ++ HttpResponse.m_body sample_response ∧
   (HttpResponse.m_websocket sample_response = false →
     filter (named (B "connection")) (response_lines sample_response)
     = [(B "connection", connection_value (HttpResponse.m_close sample_response))]) ∧
   (HttpResponse.m_body sample_response ≠ [] →
     filter (named (B "content-length")) (response_lines sample_response)
     = filter (named (B "content-length")) (HttpResponse.m_headers sample_response)
       ++ [(B "content-length", to_string (Z.of_nat (length (HttpResponse.m_body sample_response))))])) ∧
  filter (named (B "content-length")) (response_lines sample_response)
  = [(B "Content-Length", B "7"); (B "content-length", B "2")].
Proof. split; [apply (response_framing sample_response)|vm_compute; reflexivity]. Defined.
