(* ===== verification/HttpUrl.v ===== *)
(** * The URL parser ([http_parser_parse_url] of [http_parser.c])

    The host machine, [http_parse_host] and [http_parser_parse_url] over the
    bytes of a buffer; a read outside the buffer and a failed assertion are
    faults of the model. *)
From S2P Require Import Prelude StdString HttpParser.

Local Open Scope Z_scope.

(* ------------------------------------------------------------------ *)
(** ** Data *)

(* sylar/http/http-parser/http_parser.c:397-411, http_host_state *)
Inductive http_host_state :=
  | s_http_host_dead | s_http_userinfo_start | s_http_userinfo | s_http_host_start
  | s_http_host_v6_start | s_http_host | s_http_host_v6 | s_http_host_v6_end
  | s_http_host_v6_zone_start | s_http_host_v6_zone | s_http_host_port_start
  | s_http_host_port.

#[global] Instance http_host_state_eq_dec : EqDecision http_host_state.
Proof. solve_decision. Defined.

(* sylar/http/http-parser/http_parser.h:341-350, http_parser_url_fields *)
Inductive http_parser_url_fields :=
  | UF_SCHEMA | UF_HOST | UF_PORT | UF_PATH | UF_QUERY | UF_FRAGMENT | UF_USERINFO | UF_MAX.

#[global] Instance http_parser_url_fields_eq_dec : EqDecision http_parser_url_fields.
Proof. solve_decision. Defined.

Definition uf_num (f : http_parser_url_fields) : Z :=
  match f with
  | UF_SCHEMA => 0 | UF_HOST => 1 | UF_PORT => 2 | UF_PATH => 3
  | UF_QUERY => 4 | UF_FRAGMENT => 5 | UF_USERINFO => 6 | UF_MAX => 7
  end.

(** A field's offset and length. *)
Record field := mkField { off : Z; len : Z }.

(** [field_data] is an array indexed by the enumeration. *)
(* sylar/http/http-parser/http_parser.h:360-368, http_parser_url *)
Record http_parser_url := mkUrl {
  field_set : Z;
  port : Z;
  field_data : http_parser_url_fields → field
}.

(* sylar/http/http-parser/http_parser.c:2340-2343, http_parser_url_init *)
Definition http_parser_url_init : http_parser_url := mkUrl 0 0 (λ _, mkField 0 0).

(** [field_set & (1 << f)]. *)
Definition is_set (u : http_parser_url) (f : http_parser_url_fields) : bool :=
  negb (Z.land (field_set u) (Z.shiftl 1 (uf_num f)) =? 0).

Definition set_data (f : http_parser_url_fields) (d : field) (u : http_parser_url) :=
  mkUrl (field_set u) (port u) (λ g, if decide (g = f) then d else field_data u g).
Definition set_off (f : http_parser_url_fields) (v : Z) (u : http_parser_url) :=
  set_data f (mkField (u16 v) (len (field_data u f))) u.
Definition set_len (f : http_parser_url_fields) (v : Z) (u : http_parser_url) :=
  set_data f (mkField (off (field_data u f)) (u16 v)) u.
Definition incr_len (f : http_parser_url_fields) (u : http_parser_url) :=
  set_len f (len (field_data u f) + 1) u.
(** [field_set |= (1 << f)]. *)
Definition mark_set (f : http_parser_url_fields) (u : http_parser_url) :=
  mkUrl (u16 (Z.lor (field_set u) (Z.shiftl 1 (uf_num f)))) (port u) (field_data u).
Definition set_port (v : Z) (u : http_parser_url) := mkUrl (field_set u) (u16 v) (field_data u).

(* ------------------------------------------------------------------ *)
(** ** The host *)

(* sylar/http/http-parser/http_parser.c:2176-2256, http_parse_host_char *)
Definition http_parse_host_char (s : http_host_state) (ch : ascii) : http_host_state :=
  let v6 := IS_HEX ch || ch =c ":" || ch =c "." in
  let zone := IS_ALPHANUM ch || ch =c "%" || ch =c "." || ch =c "-" || ch =c "_" || ch =c "~" in
  match s with
  | s_http_userinfo | s_http_userinfo_start =>
      if ch =c "@" then s_http_host_start
      else if IS_USERINFO_CHAR ch then s_http_userinfo
      else s_http_host_dead
  | s_http_host_start =>
      if ch =c "[" then s_http_host_v6_start
      else if IS_HOST_CHAR ch then s_http_host
      else s_http_host_dead
  | s_http_host =>
      if IS_HOST_CHAR ch then s_http_host
      else if ch =c ":" then s_http_host_port_start
      else s_http_host_dead
  | s_http_host_v6_end =>
      if ch =c ":" then s_http_host_port_start else s_http_host_dead
  | s_http_host_v6 =>
      if ch =c "]" then s_http_host_v6_end
      else if v6 then s_http_host_v6
      else if ch =c "%" then s_http_host_v6_zone_start
      else s_http_host_dead
  | s_http_host_v6_start => if v6 then s_http_host_v6 else s_http_host_dead
  | s_http_host_v6_zone =>
      if ch =c "]" then s_http_host_v6_end
      else if zone then s_http_host_v6_zone
      else s_http_host_dead
  | s_http_host_v6_zone_start => if zone then s_http_host_v6_zone else s_http_host_dead
  | s_http_host_port | s_http_host_port_start =>
      if IS_NUM ch then s_http_host_port else s_http_host_dead
  | s_http_host_dead => s_http_host_dead
  end.

(** The switch on the new state, for the character at [p]. *)
(* sylar/http/http-parser/http_parser.c:2278-2318, http_parse_host *)
Definition host_fields (s new_s : http_host_state) (p : Z) (u : http_parser_url) : http_parser_url :=
  match new_s with
  | s_http_host =>
      incr_len UF_HOST (if decide (s = s_http_host) then u else set_off UF_HOST p u)
  | s_http_host_v6 =>
      incr_len UF_HOST (if decide (s = s_http_host_v6) then u else set_off UF_HOST p u)
  | s_http_host_v6_zone_start | s_http_host_v6_zone => incr_len UF_HOST u
  | s_http_host_port =>
      incr_len UF_PORT (if decide (s = s_http_host_port) then u
                        else mark_set UF_PORT (set_len UF_PORT 0 (set_off UF_PORT p u)))
  | s_http_userinfo =>
      incr_len UF_USERINFO (if decide (s = s_http_userinfo) then u
                        else mark_set UF_USERINFO (set_len UF_USERINFO 0 (set_off UF_USERINFO p u)))
  | _ => u
  end.

(** States the host may not end in. *)
(* sylar/http/http-parser/http_parser.c:2323-2335, http_parse_host *)
Definition host_unfinished (s : http_host_state) : bool :=
  match s with
  | s_http_host_start | s_http_host_v6_start | s_http_host_v6 | s_http_host_v6_zone_start
  | s_http_host_v6_zone | s_http_host_port_start | s_http_userinfo | s_http_userinfo_start => true
  | _ => false
  end.

(** [n] more characters from [p] on; [None] is a character no host has. *)
(* sylar/http/http-parser/http_parser.c:2271-2320, http_parse_host *)
Fixpoint host_loop (buf : bytes) (n p : nat) (s : http_host_state) (u : http_parser_url)
    : outcome (option http_host_state * http_parser_url) :=
  match n with
  | O => Ret (Some s, u)
  | S n' =>
      match buf !! p with
      | None => Crash out_of_bounds
      | Some ch =>
          let new_s := http_parse_host_char s ch in
          if decide (new_s = s_http_host_dead) then Ret (None, u)
          else host_loop buf n' (S p) new_s (host_fields s new_s (Z.of_nat p) u)
      end
  end.

(* sylar/http/http-parser/http_parser.c:2258-2338, http_parse_host *)
Definition http_parse_host (buf : bytes) (u : http_parser_url) (found_at : bool)
    : outcome (Z * http_parser_url) :=
  let h := field_data u UF_HOST in
  if negb (is_set u UF_HOST) then Crash assert_failed
  else
    '(r, u) ← host_loop buf (Z.to_nat (len h)) (Z.to_nat (off h))
      (if found_at then s_http_userinfo_start else s_http_host_start) (set_len UF_HOST 0 u);
    match r with
    | None => Ret (1, u)
    | Some s => Ret (if host_unfinished s then 1 else 0, u)
    end.

(* ------------------------------------------------------------------ *)
(** ** The URL *)

(** What the switch on the state says about a character: part of a field,
    a delimiter, or the end. *)
Inductive url_action := InField (f : http_parser_url_fields) | Delimiter | Dead | Unexpected.

(* sylar/http/http-parser/http_parser.c:2366-2405, http_parser_parse_url *)
Definition url_field (s : state) : url_action :=
  match s with
  | s_dead => Dead
  | s_req_schema_slash | s_req_schema_slash_slash | s_req_server_start
  | s_req_query_string_start | s_req_fragment_start => Delimiter
  | s_req_schema => InField UF_SCHEMA
  | s_req_server_with_at | s_req_server => InField UF_HOST
  | s_req_path => InField UF_PATH
  | s_req_query_string => InField UF_QUERY
  | s_req_fragment => InField UF_FRAGMENT
  | _ => Unexpected
  end.

(** Extend the field, or start it at [i]. *)
(* sylar/http/http-parser/http_parser.c:2408-2417, http_parser_parse_url *)
Definition url_extend (uf old_uf : http_parser_url_fields) (i : nat) (u : http_parser_url) :=
  if decide (uf = old_uf) then incr_len uf u
  else mark_set uf (set_len uf 1 (set_off uf (Z.of_nat i) u)).

(** The characters from [i] on; [None] is an early [return 1]. *)
(* sylar/http/http-parser/http_parser.c:2362-2418, http_parser_parse_url *)
Fixpoint url_loop (rest : bytes) (i : nat) (s : state) (old_uf : http_parser_url_fields)
    (found_at : bool) (u : http_parser_url) : outcome (option bool * http_parser_url) :=
  match rest with
  | [] => Ret (Some found_at, u)
  | ch :: rest' =>
      let s' := parse_url_char s ch in
      match url_field s' with
      | Dead => Ret (None, u)
      | Unexpected => Crash assert_failed
      | Delimiter => url_loop rest' (S i) s' old_uf found_at u
      | InField uf =>
          url_loop rest' (S i) s' uf (found_at || bool_decide (s' = s_req_server_with_at))
            (url_extend uf old_uf i u)
      end
  end.

(** The port's digits; [None] when the value leaves 16 bits. *)
(* sylar/http/http-parser/http_parser.c:2451-2460, http_parser_parse_url *)
Fixpoint port_loop (buf : bytes) (n p : nat) (v : Z) : outcome (option Z) :=
  match n with
  | O => Ret (Some v)
  | S n' =>
      match buf !! p with
      | None => Crash out_of_bounds
      | Some ch =>
          let v' := u64 (u64 (v * 10) + (schar ch - 48)) in
          if 0xffff <? v' then Ret None else port_loop buf n' (S p) v'
      end
  end.

(* sylar/http/http-parser/http_parser.c:2438-2463, http_parser_parse_url *)
Definition parse_port (buf : bytes) (u : http_parser_url) : outcome (Z * http_parser_url) :=
  let d := field_data u UF_PORT in
  if negb (is_set u UF_PORT) then Ret (0, u)
  else if negb (off d + len d <=? Z.of_nat (length buf)) then Crash assert_failed
  else
    v ← port_loop buf (Z.to_nat (len d)) (Z.to_nat (off d)) 0;
    match v with
    | None => Ret (1, u)
    | Some v => Ret (0, set_port v u)
    end.

(* sylar/http/http-parser/http_parser.c:2345-2466, http_parser_parse_url *)
Definition http_parser_parse_url (buf : bytes) (is_connect : bool) (u : http_parser_url)
    : outcome (Z * http_parser_url) :=
  if (length buf =? 0)%nat then Ret (1, u)
  else
    let u := mkUrl 0 0 (field_data u) in
    '(r, u) ← url_loop buf 0 (if is_connect then s_req_server_start else s_req_spaces_before_url)
      UF_MAX false u;
    match r with
    | None => Ret (1, u)
    | Some found_at =>
        if is_set u UF_SCHEMA && negb (is_set u UF_HOST) then Ret (1, u)
        else
          '(r, u) ← (if is_set u UF_HOST then http_parse_host buf u found_at else Ret (0, u));
          if negb (r =? 0) then Ret (1, u)
          else if is_connect && negb (field_set u =? Z.lor (Z.shiftl 1 1) (Z.shiftl 1 2)) then Ret (1, u)
          else parse_port buf u
    end.
