(* ===== verification/HttpUrlTheorems.v ===== *)
(** * What [http_parser_parse_url] returns

    For every buffer the parser stays inside it and fails no assertion; the
    fields of an accepted URL are non-empty, inside the buffer, and follow
    one another without overlap; the port is the value of its digits. *)
From S2P Require Import Prelude StdString HttpParser HttpUrl.

Local Open Scope Z_scope.

Implicit Types (u : http_parser_url) (f g : http_parser_url_fields).

(* ------------------------------------------------------------------ *)
(** ** The field set *)

Lemma land_shiftl_1 x n : 0 <= n → (Z.land x (Z.shiftl 1 n) =? 0) = negb (Z.testbit x n).
Proof.
  intros Hn. rewrite Z.shiftl_1_l. destruct (Z.testbit x n) eqn:E; cbn [negb].
  - apply Z.eqb_neq. intros H. assert (Z.testbit (Z.land x (2 ^ n)) n = true) as E'.
    { by rewrite Z.land_spec, E, Z.pow2_bits_true by lia. }
    by rewrite H, Z.bits_0 in E'.
  - apply Z.eqb_eq, Z.bits_inj'. intros i Hi.
    rewrite Z.land_spec, Z.bits_0, Z.pow2_bits_eqb by lia.
    destruct (Z.eqb_spec n i) as [<-|]; [by rewrite E|apply andb_false_r].
Qed.

Lemma uf_num_range f : 0 <= uf_num f < 8.
Proof. destruct f; simpl; lia. Qed.

Lemma uf_num_inj f g : uf_num f = uf_num g → f = g.
Proof. by destruct f, g. Qed.

Lemma is_set_testbit u f : is_set u f = Z.testbit (field_set u) (uf_num f).
Proof. unfold is_set. rewrite land_shiftl_1 by apply uf_num_range. apply negb_involutive. Qed.

Lemma is_set_mark u f g : is_set (mark_set f u) g = bool_decide (g = f) || is_set u g.
Proof.
  rewrite !is_set_testbit. unfold mark_set; cbn [field_set]. unfold wrapu.
  pose proof (uf_num_range f); pose proof (uf_num_range g).
  rewrite Z.mod_pow2_bits_low, Z.lor_spec, Z.shiftl_1_l, Z.pow2_bits_eqb by lia.
  rewrite orb_comm. f_equal. destruct (Z.eqb_spec (uf_num f) (uf_num g)) as [E|E].
  - symmetry. by apply bool_decide_eq_true, eq_sym, uf_num_inj.
  - symmetry. apply bool_decide_eq_false. by intros ->.
Qed.

Lemma is_set_data u f d g : is_set (set_data f d u) g = is_set u g.
Proof. done. Qed.

Lemma is_set_none u f : field_set u = 0 → is_set u f = false.
Proof. intros E. by rewrite is_set_testbit, E, Z.bits_0. Qed.

Lemma data_set u f d g : field_data (set_data f d u) g = if decide (g = f) then d else field_data u g.
Proof. done. Qed.

Lemma data_mark u f g : field_data (mark_set f u) g = field_data u g.
Proof. done. Qed.

(** The shapes the two loops build. *)
Lemma data_incr u f g :
  field_data (incr_len f u) g
  = if decide (g = f) then mkField (off (field_data u f)) (u16 (len (field_data u f) + 1))
    else field_data u g.
Proof. done. Qed.

Lemma is_set_incr u f g : is_set (incr_len f u) g = is_set u g.
Proof. done. Qed.

(** A field started at [p] with [n] characters. *)
Lemma data_start f p n u g :
  field_data (mark_set f (set_len f n (set_off f p u))) g
  = if decide (g = f) then mkField (u16 p) (u16 n) else field_data u g.
Proof.
  unfold set_len, set_off. rewrite data_mark, !data_set. case_decide; [|done].
  by rewrite decide_True by done.
Qed.

Lemma is_set_start f p n u g :
  is_set (mark_set f (set_len f n (set_off f p u))) g = bool_decide (g = f) || is_set u g.
Proof. by rewrite is_set_mark. Qed.

Lemma is_set_start_ne f p n u g :
  g ≠ f → is_set (mark_set f (set_len f n (set_off f p u))) g = is_set u g.
Proof. intros. by rewrite is_set_start, bool_decide_false. Qed.

Lemma is_set_start_eq f p n u : is_set (mark_set f (set_len f n (set_off f p u))) f = true.
Proof. by rewrite is_set_start, bool_decide_true. Qed.

(* ------------------------------------------------------------------ *)
(** ** Inside the buffer, whatever its length *)

Definition within (n : Z) (d : field) : Prop := 0 <= off d ∧ 0 <= len d ∧ off d + len d <= n.

(** The fields [P] names lie in the first [n] bytes. *)
Definition bounded (P : http_parser_url_fields → bool) (n : Z) u : Prop :=
  ∀ f, P f = true → within n (field_data u f).
Definition every f := true.

Lemma u16_le z : 0 <= z → 0 <= u16 z <= z.
Proof. intros. unfold wrapu. split; [apply Z.mod_pos_bound; lia|]. apply Z.mod_le; lia. Qed.

Lemma bounded_mono P n m u : bounded P n u → n <= m → bounded P m u.
Proof. intros H ? f Hf. destruct (H f Hf) as (?&?&?). repeat split; lia. Qed.

Lemma bounded_set P n u f d : bounded P n u → within n d → bounded P n (set_data f d u).
Proof. intros H ? g Hg. rewrite data_set. case_decide; [done|by apply H]. Qed.

Lemma bounded_incr P n u f : P f = true → bounded P n u → bounded P (n + 1) (incr_len f u).
Proof.
  intros Hf H. pose proof (H f Hf) as (?&?&?). apply bounded_set; [by apply (bounded_mono _ n); [|lia]|].
  pose proof (u16_le (len (field_data u f) + 1) ltac:(lia)). repeat split; cbn; lia.
Qed.

Lemma bounded_start P n u f p m :
  bounded P n u → 0 <= p → 0 <= m → p + m <= n → bounded P n (mark_set f (set_len f m (set_off f p u))).
Proof.
  intros H ??? g Hg. rewrite data_start. pose proof (u16_le p); pose proof (u16_le m).
  case_decide; [repeat split; cbn; lia|by apply H].
Qed.

Lemma bounded_extend uf old (i : nat) u :
  bounded every (Z.of_nat i) u → bounded every (Z.of_nat (S i)) (url_extend uf old i u).
Proof.
  intros H. rewrite Nat2Z.inj_succ. unfold Z.succ, url_extend. case_decide; [by apply bounded_incr|].
  apply bounded_start; try lia. by apply (bounded_mono _ (Z.of_nat i)); [|lia].
Qed.

(** States the URL machine is in, before and after a character. *)
Definition url_state (s : state) : bool :=
  match s with
  | s_req_spaces_before_url | s_req_schema | s_req_schema_slash | s_req_schema_slash_slash
  | s_req_server_start | s_req_server | s_req_server_with_at | s_req_path
  | s_req_query_string_start | s_req_query_string | s_req_fragment_start | s_req_fragment => true
  | _ => false
  end.

(** Progress through a URL: a delimiter's rank is no field's. *)
Definition srank (s : state) : Z :=
  match s with
  | s_req_schema => 1
  | s_req_schema_slash | s_req_schema_slash_slash | s_req_server_start => 2
  | s_req_server | s_req_server_with_at => 3
  | s_req_path => 4
  | s_req_query_string_start => 5
  | s_req_query_string => 6
  | s_req_fragment_start => 7
  | s_req_fragment => 8
  | _ => 0
  end.

Definition frank f : Z :=
  match f with UF_SCHEMA => 1 | UF_HOST => 3 | UF_PATH => 4 | UF_QUERY => 6 | UF_FRAGMENT => 8 | _ => 0 end.

Lemma parse_url_char_rank s c :
  url_state s = true → parse_url_char s c ≠ s_dead →
  url_state (parse_url_char s c) = true ∧ srank s <= srank (parse_url_char s c).
Proof.
  intros Hs. destruct s; try discriminate Hs; unfold parse_url_char;
    repeat case_match; intros; try done; (split; [done|cbn; lia]).
Qed.

Lemma url_field_rank s :
  url_state s = true →
  match url_field s with
  | InField f => frank f = srank s ∧ 0 < frank f
  | Delimiter => ∀ f, frank f ≠ srank s
  | Dead => False
  | Unexpected => s = s_req_spaces_before_url
  end.
Proof. destruct s; try done; intros _ f; by destruct f. Qed.

Lemma parse_url_char_not_start s c : parse_url_char s c ≠ s_req_spaces_before_url.
Proof.
  destruct s; unfold parse_url_char; repeat case_match; try done.
Qed.

(** One character of [url_loop], by cases. *)
Lemma url_loop_step (P : Prop) c rest i s old fa u :
  url_state s = true →
  let s' := parse_url_char s c in
  (url_loop (c :: rest) i s old fa u = Ret (None, u) → P) →
  (url_state s' = true → srank s <= srank s' → (∀ f, frank f ≠ srank s') →
   url_loop (c :: rest) i s old fa u = url_loop rest (S i) s' old fa u → P) →
  (∀ uf, url_state s' = true → srank s <= srank s' → frank uf = srank s' → 0 < frank uf →
   url_loop (c :: rest) i s old fa u
   = url_loop rest (S i) s' uf (fa || bool_decide (s' = s_req_server_with_at)) (url_extend uf old i u) → P) →
  P.
Proof.
  intros Hs s' Hd Hdel Hin. cbn [url_loop] in *. fold s' in Hd, Hdel, Hin.
  destruct (decide (s' = s_dead)) as [E|E]; [apply Hd; by rewrite E|].
  destruct (parse_url_char_rank s c Hs E) as [Hs' Hr]. fold s' in Hs', Hr.
  pose proof (url_field_rank s' Hs') as Hf. destruct (url_field s') as [uf| | |] eqn:Ef.
  - destruct Hf. eapply Hin; eauto.
  - by apply Hdel.
  - done.
  - by apply parse_url_char_not_start in Hf.
Qed.

Lemma url_loop_bounded rest i s old fa u :
  url_state s = true → bounded every (Z.of_nat i) u →
  ∃ r u', url_loop rest i s old fa u = Ret (r, u') ∧ bounded every (Z.of_nat (i + length rest)) u'
    ∧ ∀ f, frank f = 0 → is_set u' f = is_set u f ∧ field_data u' f = field_data u f.
Proof.
  revert i s old fa u. induction rest as [|c rest IH]; intros i s old fa u Hs Hb.
  - exists (Some fa), u. by rewrite Nat.add_0_r.
  - assert (Z.of_nat i <= Z.of_nat (i + length (c :: rest))) as Hi by lia.
    rewrite Nat.add_comm. cbn [length Nat.add]. rewrite Nat.add_comm, <- Nat.add_succ_l.
    apply (url_loop_step _ c rest i s old fa u Hs).
    + intros ->. exists None, u. do 2 (split; [done || apply (bounded_mono _ _ _ _ Hb); lia|]). done.
    + intros Hs' _ _ ->. apply IH; [done|]. apply (bounded_mono _ _ _ _ Hb). lia.
    + intros uf Hs' _ _ Hp ->.
      destruct (IH (S i) _ uf (fa || bool_decide (parse_url_char s c = s_req_server_with_at))
        (url_extend uf old i u) Hs') as (r & u' & E & Hb' & Hu); [by apply bounded_extend|].
      exists r, u'. do 2 (split; [done|]). intros f Hf. destruct (Hu f Hf) as [-> ->].
      assert (f ≠ uf) by (intros ->; lia). unfold url_extend. destruct (decide (uf = old)).
      * rewrite is_set_incr, data_incr. by rewrite decide_False.
      * rewrite is_set_start_ne, data_start by done. by rewrite decide_False.
Qed.

(* ------------------------------------------------------------------ *)
(** ** The fields of the URL, in order *)

Abbreviation fend u f := (off (field_data u f) + len (field_data u f)).

(** The fields found by the time the machine is in state [s] before the
    character at [i]. *)
Record url_inv (i : Z) (s : state) (old : http_parser_url_fields) u : Prop := {
  ui_ranked : ∀ f, is_set u f = true → 0 < frank f <= frank old;
  ui_old : 0 < frank old → is_set u old = true ∧ frank old <= srank s;
  ui_open : frank old = srank s → 0 < frank old → fend u old = i;
  ui_in : ∀ f, is_set u f = true → 0 < len (field_data u f) ∧ 0 <= off (field_data u f) ∧ fend u f <= i;
  ui_order : ∀ f g, is_set u f = true → is_set u g = true → frank f < frank g →
             fend u f <= off (field_data u g)
}.

Lemma frank_inj f g : frank f = frank g → 0 < frank f → f = g.
Proof. by destruct f, g. Qed.

Lemma u16_small z : 0 <= z < 65536 → u16 z = z.
Proof. apply Z.mod_small. Qed.

Lemma url_inv_delimiter i s s' old u :
  url_inv i s old u → srank s <= srank s' → (∀ f, frank f ≠ srank s') → url_inv (i + 1) s' old u.
Proof.
  intros [H1 H2 H3 H4 H5] Hr Hf. split; try done.
  - intros ?. destruct (H2 H). split; [done|lia].
  - intros E. by apply Hf in E.
  - intros f Hs. destruct (H4 f Hs) as (?&?&?). repeat split; lia.
Qed.

Lemma url_inv_extend (i : nat) s s' uf old u :
  url_inv (Z.of_nat i) s old u → srank s <= srank s' → frank uf = srank s' → 0 < frank uf →
  Z.of_nat i < 65535 → url_inv (Z.of_nat (S i)) s' uf (url_extend uf old i u).
Proof.
  intros [H1 H2 H3 H4 H5] Hr Hf Hp Hi. rewrite Nat2Z.inj_succ. unfold url_extend.
  destruct (decide (uf = old)) as [->|Hne].
  - destruct (H2 Hp) as [Hset Hle]. destruct (H4 _ Hset) as (L1 & L2 & L3).
    specialize (H3 ltac:(lia) Hp).
    assert (E : u16 (len (field_data u old) + 1) = len (field_data u old) + 1)
      by (apply u16_small; lia).
    split; unfold incr_len, set_len.
    + intros f. apply H1.
    + intros _. split; [done|lia].
    + intros _ _. rewrite data_set, decide_True, E by done. cbn. lia.
    + intros f Hs. rewrite data_set. case_decide; subst; cbn; rewrite ?E; [lia|].
      destruct (H4 f Hs) as (?&?&?). lia.
    + intros f g Hs Hg Hlt. rewrite !data_set. pose proof (H5 f g Hs Hg Hlt).
      pose proof (H1 g Hg). repeat case_decide; subst; cbn; rewrite ?E; lia.
  - assert (∀ f, is_set u f = true → frank f < frank uf) as Hlt.
    { intros f Hs. pose proof (H1 f Hs). destruct (H2 ltac:(lia)).
      assert (frank old ≠ frank uf); [|lia].
      intros E. apply Hne. symmetry. apply frank_inj; lia. }
    split.
    + intros f. rewrite is_set_start, orb_true_iff. intros [->%bool_decide_eq_true|Hs]; [lia|].
      pose proof (Hlt f Hs). pose proof (H1 f Hs). lia.
    + intros _. rewrite is_set_start, bool_decide_true by done. split; [done|lia].
    + intros _ _. rewrite data_start, decide_True by done. cbn.
      rewrite (u16_small (Z.of_nat i)), (u16_small 1) by lia. lia.
    + intros f. rewrite data_start. case_decide as Ef; [subst|rewrite is_set_start_ne by done].
      * cbn. rewrite (u16_small (Z.of_nat i)), (u16_small 1) by lia. lia.
      * intros Hs. destruct (H4 f Hs) as (?&?&?). lia.
    + intros f g. rewrite !data_start.
      case_decide as Ef; case_decide as Eg; subst; try lia.
      * rewrite (is_set_start_ne _ _ _ _ g) by done. intros _ Hg. pose proof (Hlt g Hg). lia.
      * rewrite (is_set_start_ne _ _ _ _ f) by done. intros Hs _ _. cbn. rewrite (u16_small (Z.of_nat i)) by lia. apply (H4 f Hs).
      * rewrite !is_set_start_ne by done. apply H5.
Qed.

Lemma url_loop_inv rest i s old fa u :
  url_state s = true → url_inv (Z.of_nat i) s old u → Z.of_nat (i + length rest) < 65536 →
  ∀ b u', url_loop rest i s old fa u = Ret (Some b, u') →
  ∃ s' old', url_inv (Z.of_nat (i + length rest)) s' old' u'.
Proof.
  revert i s old fa u. induction rest as [|c rest IH]; intros i s old fa u Hs Hi Hl b u' Hrun.
  - injection Hrun as <- <-. exists s, old. by rewrite Nat.add_0_r.
  - cbn [length] in *. rewrite <- Nat.add_succ_comm in *. revert Hrun.
    apply (url_loop_step _ c rest i s old fa u Hs).
    + by intros ->.
    + intros Hs' Hr Hf -> Hrun. apply (IH _ _ _ _ _ Hs') in Hrun; [done| |lia].
      rewrite Nat2Z.inj_succ. by apply (url_inv_delimiter _ s).
    + intros uf Hs' Hr Hf Hp -> Hrun. apply (IH _ _ _ _ _ Hs') in Hrun; [done| |lia].
      apply (url_inv_extend i s); try done. lia.
Qed.

(* ------------------------------------------------------------------ *)
(** ** The host *)

Lemma http_parse_host_char_cases s c :
  http_parse_host_char s c = s_http_host_dead
  ∨ match http_parse_host_char s c with
    | s_http_userinfo => (s = s_http_userinfo ∨ s = s_http_userinfo_start)
    | s_http_host_start => (s = s_http_userinfo ∨ s = s_http_userinfo_start)
    | s_http_host_v6_start => s = s_http_host_start
    | s_http_host => s = s_http_host_start ∨ s = s_http_host
    | s_http_host_v6 => s = s_http_host_v6_start ∨ s = s_http_host_v6
    | s_http_host_v6_zone_start => s = s_http_host_v6
    | s_http_host_v6_zone => s = s_http_host_v6_zone_start ∨ s = s_http_host_v6_zone
    | s_http_host_v6_end => s = s_http_host_v6 ∨ s = s_http_host_v6_zone
    | s_http_host_port_start => s = s_http_host ∨ s = s_http_host_v6_end
    | s_http_host_port => (s = s_http_host_port_start ∨ s = s_http_host_port) ∧ IS_NUM c = true
    | _ => False
    end.
Proof.
  destruct s; cbn [http_parse_host_char]; repeat case_match; auto 10.
Qed.

(** Progress through a host. *)
Definition hrank (s : http_host_state) : Z :=
  match s with
  | s_http_userinfo => 1
  | s_http_host_start | s_http_host_v6_start => 2
  | s_http_host | s_http_host_v6 | s_http_host_v6_zone_start | s_http_host_v6_zone => 3
  | s_http_host_v6_end | s_http_host_port_start => 4
  | s_http_host_port => 5
  | _ => 0
  end.

(** The host's length is counted from nothing. *)
Definition host_empty (s : http_host_state) u : Prop := hrank s < 3 → len (field_data u UF_HOST) = 0.

(** Leaves the goals in which the state before is known. *)
Ltac host_cases s c Hd :=
  let H := fresh in
  pose proof (http_parse_host_char_cases s c) as [H|H]; [by destruct (Hd H)|revert H];
  destruct (http_parse_host_char s c); intros H; try (exfalso; exact H); 
  lazymatch type of H with _ ∧ _ => destruct H as [H ?] | _ => idtac end;
  lazymatch type of H with _ ∨ _ => destruct H as [H|H] | _ => idtac end; subst s.

Definition host_part f : bool := bool_decide (f = UF_USERINFO ∨ f = UF_HOST ∨ f = UF_PORT).

Lemma host_fields_bounded (p : nat) s c u :
  http_parse_host_char s c ≠ s_http_host_dead →
  bounded host_part (Z.of_nat p) u → host_empty s u →
  let s' := http_parse_host_char s c in
  bounded host_part (Z.of_nat (S p)) (host_fields s s' (Z.of_nat p) u)
  ∧ host_empty s' (host_fields s s' (Z.of_nat p) u).
Proof.
  intros Hd H He. cbn zeta. rewrite Nat2Z.inj_succ. unfold Z.succ.
  assert (bounded host_part (Z.of_nat p + 1) u) by (apply (bounded_mono _ _ _ _ H); lia).
  assert (∀ f, bounded host_part (Z.of_nat p) (mark_set f (set_len f 0 (set_off f (Z.of_nat p) u))))
    by (intros; apply bounded_start; done || lia).
  assert (Hh : len (field_data u UF_HOST) = 0 → bounded host_part (Z.of_nat p) (set_off UF_HOST (Z.of_nat p) u)).
  { intros E. apply bounded_set; [done|]. pose proof (u16_le (Z.of_nat p)). split; cbn; lia. }
  unfold host_empty in *.
  host_cases s c Hd; cbn [host_fields hrank decide] in *; split; try done; try lia;
    repeat case_decide; try done; try apply bounded_incr; auto; try (by apply Hh, He).
Qed.

Lemma host_loop_bounded buf n p s u :
  (p + n ≤ length buf)%nat → bounded host_part (Z.of_nat p) u → host_empty s u →
  ∃ r u', host_loop buf n p s u = Ret (r, u') ∧ bounded host_part (Z.of_nat (p + n)) u'.
Proof.
  revert p s u. induction n as [|n IH]; intros p s u Hn Hb He; cbn [host_loop].
  - exists (Some s), u. by rewrite Nat.add_0_r.
  - destruct (lookup_lt_is_Some_2 buf p) as [c ->]; [lia|].
    case_decide as Hd.
    + exists None, u. split; [done|]. apply (bounded_mono _ _ _ _ Hb). lia.
    + destruct (host_fields_bounded p s c u Hd Hb He) as [Hb' He'].
      rewrite <- Nat.add_succ_comm. apply IH; [lia|done..].
Qed.

(** The characters a field names. *)
Definition field_text (buf : bytes) (d : field) : bytes :=
  slice (Z.to_nat (off d)) (Z.to_nat (len d)) buf.

(** The user name, host and port found in the host area, which starts at
    [a], by the time the machine is in state [s] before the character at
    [p]; [u0] is the URL the area comes from. *)
Record host_inv (buf : bytes) (a p : Z) (s : http_host_state) (u0 u : http_parser_url) : Prop := {
  hi_other : ∀ f, host_part f = false → is_set u f = is_set u0 f ∧ field_data u f = field_data u0 f;
  hi_set : is_set u UF_HOST = true;
  hi_user : is_set u UF_USERINFO = true →
    0 < len (field_data u UF_USERINFO) ∧ a <= off (field_data u UF_USERINFO)
    ∧ fend u UF_USERINFO <= p ∧ (hrank s = 1 → fend u UF_USERINFO = p);
  hi_user0 : hrank s = 0 → is_set u UF_USERINFO = false;
  hi_user1 : hrank s = 1 → is_set u UF_USERINFO = true;
  hi_empty : host_empty s u;
  hi_host : 3 <= hrank s →
    0 < len (field_data u UF_HOST) ∧ a <= off (field_data u UF_HOST) ∧ fend u UF_HOST <= p
    ∧ (hrank s = 3 → fend u UF_HOST = p)
    ∧ (is_set u UF_USERINFO = true → fend u UF_USERINFO <= off (field_data u UF_HOST));
  hi_port0 : is_set u UF_PORT = true → hrank s = 5;
  hi_port : hrank s = 5 → is_set u UF_PORT = true ∧ fend u UF_HOST <= off (field_data u UF_PORT)
    ∧ 0 < len (field_data u UF_PORT) ∧ fend u UF_PORT = p
    ∧ Forall (λ c, IS_NUM c = true) (field_text buf (field_data u UF_PORT))
}.

Lemma field_text_snoc buf (d : field) (p : nat) c :
  0 <= off d → 0 <= len d → off d + len d = Z.of_nat p → buf !! p = Some c →
  field_text buf (mkField (off d) (len d + 1)) = field_text buf d ++ [c].
Proof.
  intros Ho Hl Hp Hc. unfold field_text; cbn [off len].
  replace (Z.to_nat (len d + 1)) with (Z.to_nat (len d) + 1)%nat by lia.
  rewrite slice_app_split. f_equal. unfold slice.
  replace (Z.to_nat (off d) + Z.to_nat (len d))%nat with p by lia.
  by rewrite (drop_S _ _ _ Hc).
Qed.


Section host_step.
Context (buf : bytes) (a : Z) (p : nat) (u0 u : http_parser_url) (c : ascii).
Context (Ha : 0 <= a <= Z.of_nat p) (Hp : Z.of_nat p < 65535) (Hc : buf !! p = Some c).

Let inv s s' := host_inv buf a (Z.of_nat p) s u0 u →
  host_inv buf a (Z.of_nat p + 1) s' u0 (host_fields s s' (Z.of_nat p) u).

(** A character that belongs to no field. *)
Lemma host_step_skip s s' :
  host_fields s s' (Z.of_nat p) u = u →
  hrank s <= hrank s' → hrank s' = 2 ∨ hrank s' = 4 → (hrank s' = 4 → 3 <= hrank s < 5) → hrank s < 5 →
  inv s s'.
Proof.
  intros E Hr Hs' Hf Hs Hi. rewrite E. destruct Hi as [? ? Hu ? ? He Hh Hp0 Hpt]. split; try done.
  - intros Hset. destruct (Hu Hset) as (?&?&?&?). repeat split; lia.
  - lia.
  - lia.
  - intros ?. apply He. lia.
  - intros ?. destruct (Hh ltac:(lia)) as (?&?&?&?&?). repeat split; try lia. done.
  - intros ?%Hp0. lia.
  - lia.
Qed.

(** A field whose end is [p] is extended by the character there. *)
Lemma extend_len f : 0 <= len (field_data u f) <= Z.of_nat p → u16 (len (field_data u f) + 1) = len (field_data u f) + 1.
Proof. intros. apply u16_small. lia. Qed.

Lemma u16_p : u16 (Z.of_nat p) = Z.of_nat p.
Proof. apply u16_small. lia. Qed.

Lemma host_step_user s : hrank s < 2 → inv s s_http_userinfo.
Proof.
  intros Hs [Ho Hset Hu Hu0 Hu1 He Hh Hp0 Hpt]. cbn [host_fields].
  assert (hrank s = 0 ∨ hrank s = 1) as Hr by (destruct s; cbn in *; lia).
  destruct (decide (s = s_http_userinfo)) as [->|Hne].
  - destruct (Hu (Hu1 eq_refl)) as (L1 & L2 & L3 & L4). specialize (L4 eq_refl).
    split; cbn [hrank]; try done; rewrite ?data_incr, ?decide_True by done; cbn [off len].
    + intros f Hf. rewrite data_incr, decide_False by (intros ->; done). by apply Ho.
    + intros _. rewrite extend_len by lia. repeat split; lia.
  - assert (hrank s = 0) by (destruct s; cbn in *; (done || lia)).
    assert (Hd : ∀ f, f ≠ UF_USERINFO → is_set (host_fields s s_http_userinfo (Z.of_nat p) u) f = is_set u f
      ∧ field_data (host_fields s s_http_userinfo (Z.of_nat p) u) f = field_data u f).
    { intros f Hf. cbn [host_fields]. rewrite decide_False by done. rewrite is_set_incr.
      rewrite is_set_start_ne, data_incr, !data_start by done. by repeat case_decide. }
    cbn [host_fields] in Hd. rewrite decide_False in Hd by done.
    split; cbn [hrank]; try done.
    + intros f Hf. destruct (Hd f) as [-> ->]; [by intros ->|]. by apply Ho.
    + destruct (Hd UF_HOST) as [-> _]; done.
    + intros _. rewrite data_incr, decide_True, data_start, decide_True by done.
      cbn [off len]. rewrite u16_p. change (u16 (u16 0 + 1)) with 1. repeat split; lia.
    + intros _. by rewrite is_set_incr, is_set_start_eq.
    + intros _. destruct (Hd UF_HOST) as [_ ->]; [done|]. apply He. lia.
    + intros HP. destruct (Hd UF_PORT) as [E _]; [done|]. rewrite E in HP. apply Hp0 in HP. lia.
Qed.

Lemma host_step_first s s' :
  hrank s = 2 → s' = s_http_host ∨ s' = s_http_host_v6 → inv s s'.
Proof.
  intros Hs Hs' [Ho Hset Hu Hu0 Hu1 He Hh Hp0 Hpt].
  assert (host_fields s s' (Z.of_nat p) u = incr_len UF_HOST (set_off UF_HOST (Z.of_nat p) u)) as ->.
  { destruct Hs' as [-> | ->]; cbn [host_fields]; by rewrite decide_False by (intros ->; done). }
  assert (hrank s' = 3) as Hr' by (by destruct Hs' as [-> | ->]).
  assert (Hd : ∀ f, f ≠ UF_HOST →
    field_data (incr_len UF_HOST (set_off UF_HOST (Z.of_nat p) u)) f = field_data u f).
  { intros f Hf. rewrite data_incr. unfold set_off. rewrite !data_set. by repeat case_decide. }
  split; rewrite ?Hr'; try lia; try done.
  - intros f Hf. rewrite Hd by (by intros ->). by apply Ho.
  - rewrite Hd by done. intros HU. destruct (Hu HU) as (?&?&?&?). repeat split; lia.
  - unfold host_empty. lia.
  - intros _. rewrite data_incr, decide_True by done. unfold set_off. rewrite data_set, decide_True by done.
    cbn [off len]. rewrite (He ltac:(lia)), u16_p. change (u16 (0 + 1)) with 1.
    repeat split; try lia. rewrite data_incr, decide_False, data_set, decide_False by done.
    intros HU. destruct (Hu HU) as (?&?&?&?). lia.
  - intros HP%Hp0. lia.
Qed.

Lemma host_step_more s s' :
  hrank s = 3 → hrank s' = 3 → host_fields s s' (Z.of_nat p) u = incr_len UF_HOST u → inv s s'.
Proof.
  intros Hs Hr' E [Ho Hset Hu Hu0 Hu1 He Hh Hp0 Hpt]. rewrite E.
  destruct (Hh ltac:(lia)) as (L1 & L2 & L3 & L4 & L5). specialize (L4 Hs).
  assert (Hd : ∀ f, f ≠ UF_HOST → field_data (incr_len UF_HOST u) f = field_data u f).
  { intros f Hf. rewrite data_incr. rewrite decide_False by done; done. }
  split; rewrite ?Hr'; try lia; try done.
  - intros f Hf. rewrite Hd by (by intros ->). by apply Ho.
  - rewrite Hd by done. intros HU. destruct (Hu HU) as (?&?&?&?). repeat split; lia.
  - unfold host_empty. lia.
  - intros _. rewrite data_incr, decide_True by done. cbn [off len]. rewrite extend_len by lia.
    repeat split; try lia. rewrite Hd by done. by intros HU%L5.
  - intros HP%Hp0. lia.
Qed.

Lemma host_step_port s : 
  s = s_http_host_port_start ∨ s = s_http_host_port → IS_NUM c = true → inv s s_http_host_port.
Proof.
  intros Hs Hn [Ho Hset Hu Hu0 Hu1 He Hh Hp0 Hpt].
  assert (4 <= hrank s) as Hr by (destruct Hs as [-> | ->]; cbn; lia).
  destruct (Hh ltac:(lia)) as (L1 & L2 & L3 & L4 & L5).
  set (u' := host_fields s s_http_host_port (Z.of_nat p) u).
  assert (Hd : ∀ f, f ≠ UF_PORT → is_set u' f = is_set u f ∧ field_data u' f = field_data u f).
  { intros f Hf. unfold u'. destruct Hs as [-> | ->]; cbn [host_fields];
      [rewrite decide_False by done; rewrite is_set_incr, is_set_start_ne, data_incr, !data_start by done; by repeat case_decide
      |rewrite decide_True by done; rewrite is_set_incr, data_incr; rewrite decide_False by done; done]. }
  destruct (Hd UF_HOST) as [EH1 EH2]; [done|]. destruct (Hd UF_USERINFO) as [EU1 EU2]; [done|].
  split; cbn [hrank]; rewrite ?EH1, ?EH2, ?EU1, ?EU2; try done; try lia.
  - intros f Hf. destruct (Hd f) as [-> ->]; [by intros ->|]. by apply Ho.
  - intros HU. destruct (Hu HU) as (?&?&?&?). repeat split; lia.
  - intros _. repeat split; try lia. done.
  - intros _. unfold u'. destruct Hs as [-> | ->]; cbn [host_fields].
    + rewrite decide_False by done. rewrite is_set_incr, is_set_start_eq, data_incr, decide_True by done.
      rewrite data_start, decide_True by done. cbn [off len]. rewrite u16_p. change (u16 (u16 0 + 1)) with 1.
      repeat split; try lia. unfold field_text; cbn [off len]. rewrite Nat2Z.id. unfold slice.
      rewrite (drop_S _ _ _ Hc). cbn. by repeat constructor.
    + destruct (Hpt eq_refl) as (P1 & P2 & P3 & P4 & P5).
      rewrite decide_True by done. rewrite is_set_incr, data_incr, decide_True by done. cbn [off len].
      rewrite extend_len by lia. repeat split; try lia; [done|].
      rewrite (field_text_snoc _ _ p c) by (lia || done). apply Forall_app. by split; [|constructor].
Qed.

(** Every step of the host machine that does not die keeps the
    invariant. *)
Lemma host_step s :
  http_parse_host_char s c ≠ s_http_host_dead → inv s (http_parse_host_char s c).
Proof.
  intros Hd. host_cases s c Hd.
  all: lazymatch goal with
    | |- inv _ s_http_userinfo => apply host_step_user; cbn; lia
    | |- inv ?s s_http_host => first [apply (host_step_first s); by auto | by apply (host_step_more s)]
    | |- inv ?s s_http_host_v6 => first [apply (host_step_first s); by auto | by apply (host_step_more s)]
    | |- inv ?s s_http_host_v6_zone_start => by apply (host_step_more s)
    | |- inv ?s s_http_host_v6_zone => by apply (host_step_more s)
    | |- inv _ s_http_host_port => apply host_step_port; by auto
    | |- _ => apply host_step_skip; [done|cbn; lia..]
    end.
Qed.
End host_step.

Lemma host_loop_inv buf a n p s u0 u :
  0 <= a <= Z.of_nat p → Z.of_nat (p + n) < 65536 →
  host_inv buf a (Z.of_nat p) s u0 u →
  ∀ s' u', host_loop buf n p s u = Ret (Some s', u') → host_inv buf a (Z.of_nat (p + n)) s' u0 u'.
Proof.
  revert p s u. induction n as [|n IH]; intros p s u Ha Hn Hi s' u'; cbn [host_loop].
  - intros [= <- <-]. by rewrite Nat.add_0_r.
  - destruct (buf !! p) as [c|] eqn:Hc; [|done]. case_decide as Hd; [done|].
    rewrite <- Nat.add_succ_comm in *. apply IH; [lia..|].
    rewrite Nat2Z.inj_succ. apply (host_step buf a p u0 u c ltac:(lia) ltac:(lia) Hc s Hd Hi).
Qed.

(** What an accepted host leaves in the URL [u0] it was found in, with its
    area from [a] to [b]. *)
Record host_result (buf : bytes) (a e : Z) (u0 u : http_parser_url) : Prop := {
  hr_other : ∀ f, host_part f = false → is_set u f = is_set u0 f ∧ field_data u f = field_data u0 f;
  hr_set : is_set u UF_HOST = true;
  hr_in : ∀ f, host_part f = true → is_set u f = true →
    0 < len (field_data u f) ∧ a <= off (field_data u f) ∧ fend u f <= e;
  hr_user : is_set u UF_USERINFO = true → fend u UF_USERINFO <= off (field_data u UF_HOST);
  hr_port : is_set u UF_PORT = true → fend u UF_HOST <= off (field_data u UF_PORT)
    ∧ Forall (λ c, IS_NUM c = true) (field_text buf (field_data u UF_PORT))
}.

Lemma host_part_inv f : host_part f = true → f = UF_USERINFO ∨ f = UF_HOST ∨ f = UF_PORT.
Proof. apply bool_decide_eq_true. Qed.

Lemma host_inv_result buf a e s u0 u :
  host_inv buf a e s u0 u → host_unfinished s = false → s ≠ s_http_host_dead → host_result buf a e u0 u.
Proof.
  intros [Ho Hset Hu Hu0 Hu1 He Hh Hp0 Hpt] Hun Hd.
  assert (3 <= hrank s) as Hr by (by destruct s).
  destruct (Hh Hr) as (H1 & H2 & H3 & H4 & H5). split; try done.
  - intros f [-> | [-> | ->]]%host_part_inv Hs.
    + destruct (Hu Hs) as (?&?&?&?). done.
    + done.
    + destruct (Hpt (Hp0 Hs)) as (?&?&?&?&?). lia.
  - intros HP. by destruct (Hpt (Hp0 HP)) as (?&?&?&?&?).
Qed.

Lemma host_loop_alive buf n p s u s' u' :
  s ≠ s_http_host_dead → host_loop buf n p s u = Ret (Some s', u') → s' ≠ s_http_host_dead.
Proof.
  revert p s u. induction n as [|n IH]; intros p s u Hs; cbn [host_loop].
  - by intros [= <- <-].
  - destruct (buf !! p); [|done]. case_decide; [done|]. by apply IH.
Qed.

Lemma host_loop_other buf n p s u r u' f :
  host_part f = false → host_loop buf n p s u = Ret (r, u') →
  is_set u' f = is_set u f ∧ field_data u' f = field_data u f.
Proof.
  intros Hf. revert p s u. induction n as [|n IH]; intros p s u; cbn [host_loop].
  - by intros [= _ <-].
  - destruct (buf !! p) as [c|]; [|done]. case_decide; [by intros [= _ <-]|].
    intros [-> ->]%IH. assert (f ≠ UF_HOST ∧ f ≠ UF_PORT ∧ f ≠ UF_USERINFO) as (?&?&?)
      by (repeat split; intros ->; done).
    destruct (http_parse_host_char s c); cbn [host_fields]; try done; try case_decide;
      rewrite ?is_set_incr, ?data_incr, ?is_set_start_ne, ?data_start by done;
      unfold set_off; rewrite ?is_set_data, ?data_set; repeat case_decide; done.
Qed.

Definition host_start_state (fa : bool) : http_host_state :=
  if fa then s_http_userinfo_start else s_http_host_start.

Section parse_host.
Context (buf : bytes) (u : http_parser_url) (fa : bool).
Context (Hs : is_set u UF_HOST = true) (Hb : bounded every (Z.of_nat (length buf)) u).
Context (Hn : ∀ f, frank f = 0 → is_set u f = false ∧ field_data u f = mkField 0 0).

Let n := Z.to_nat (len (field_data u UF_HOST)).
Let p := Z.to_nat (off (field_data u UF_HOST)).

Lemma host_area : (p + n <= length buf)%nat.
Proof. destruct (Hb UF_HOST eq_refl) as (?&?&?). unfold p, n. lia. Qed.

(** The host of a buffer of any length. *)
Lemma http_parse_host_total :
  ∃ r u', http_parse_host buf u fa = Ret (r, u') ∧ (r = 0 ∨ r = 1)
    ∧ bounded every (Z.of_nat (length buf)) u'.
Proof.
  unfold http_parse_host. rewrite Hs. cbn [negb]. fold n p. fold (host_start_state fa).
  pose proof host_area. destruct (Hb UF_HOST eq_refl) as (?&?&?).
  destruct (host_loop_bounded buf n p (host_start_state fa) (set_len UF_HOST 0 u)) as (r & u' & E & Hu').
  - done.
  - intros f Hf%host_part_inv. unfold set_len. rewrite data_set. case_decide.
    + split; cbn; change (u16 0) with 0; unfold p; lia.
    + destruct (Hn f) as [_ ->]; [by destruct Hf as [-> | [-> | ->]]|]. split; cbn; lia.
  - unfold host_empty, set_len. by rewrite data_set, decide_True.
  - assert (bounded every (Z.of_nat (length buf)) u') as Hall.
    { intros f _. destruct (host_part f) eqn:Hf.
      - destruct (Hu' f Hf) as (?&?&?). repeat split; lia.
      - destruct (host_loop_other _ _ _ _ _ _ _ f Hf E) as [_ ->]. unfold set_len.
        rewrite data_set, decide_False by (by intros ->). by apply Hb. }
    rewrite E. cbn [mbind outcome_bind]. destruct r as [s|]; [|exists 1, u'; by auto].
    exists (if host_unfinished s then 1 else 0), u'. destruct (host_unfinished s); by auto.
Qed.

(** What it leaves of a short one. *)
Lemma http_parse_host_result u' :
  0 < len (field_data u UF_HOST) → Z.of_nat (length buf) < 65536 →
  http_parse_host buf u fa = Ret (0, u') →
  host_result buf (off (field_data u UF_HOST)) (fend u UF_HOST) u u'.
Proof.
  intros Hl Hshort. unfold http_parse_host. rewrite Hs. cbn [negb]. fold n p. fold (host_start_state fa).
  pose proof host_area. destruct (Hb UF_HOST eq_refl) as (?&?&?).
  destruct (host_loop buf n p (host_start_state fa) (set_len UF_HOST 0 u)) as [[r v]| |] eqn:E; [|done..].
  cbn [mbind outcome_bind]. destruct r as [s|]; [|done]. destruct (host_unfinished s) eqn:Hun; [done|]. intros [= <-].
  replace (fend u UF_HOST) with (Z.of_nat (p + n)) by (unfold p, n; lia).
  apply (host_inv_result _ _ _ s); [|done|].
  - assert (host_inv buf (off (field_data u UF_HOST)) (Z.of_nat (p + n)) s (set_len UF_HOST 0 u) v) as Hi.
    { eapply host_loop_inv; [..|exact E]; [unfold p; lia|lia|].
      assert (∀ f, f ≠ UF_HOST → field_data (set_len UF_HOST 0 u) f = field_data u f) as Hd.
      { intros f Hf. unfold set_len. rewrite data_set. by rewrite decide_False. }
      destruct (Hn UF_USERINFO eq_refl) as [HU _]. destruct (Hn UF_PORT eq_refl) as [HP _].
      split; try done.
      - intros Hx. change (is_set u UF_USERINFO = true) in Hx. congruence.
      - intros ?. exfalso. destruct fa; cbn in *; lia.
      - intros ?. exfalso. destruct fa; cbn in *; lia.
      - intros Hx. change (is_set u UF_PORT = true) in Hx. congruence.
      - intros ?. exfalso. destruct fa; cbn in *; lia. }
    destruct Hi as [Ho]. split; try done.
    intros f Hf. destruct (Ho f Hf) as [-> ->]. split; [done|]. unfold set_len.
    rewrite data_set, decide_False; [done|by intros ->].
  - eapply host_loop_alive, E. by destruct fa.
Qed.
End parse_host.

(* ------------------------------------------------------------------ *)
(** ** The port *)

Lemma port_loop_total buf n p v :
  (p + n <= length buf)%nat → ∃ r, port_loop buf n p v = Ret r.
Proof.
  revert p v. induction n as [|n IH]; intros p v Hn; cbn [port_loop]; [by eexists|].
  destruct (lookup_lt_is_Some_2 buf p) as [c ->]; [lia|].
  destruct (65535 <? _); [by eexists|]. apply IH. lia.
Qed.

Lemma IS_NUM_digit c : IS_NUM c = true → 0 <= digit_val c < 10 ∧ schar c - 48 = digit_val c.
Proof.
  assert (implb (IS_NUM c) ((0 <=? digit_val c) && (digit_val c <? 10)
    && (schar c - 48 =? digit_val c)) = true) as E by by_chars c.
  intros H. rewrite H in E. cbn in E. lia.
Qed.

Lemma port_loop_val buf n p v w :
  Forall (λ c, IS_NUM c = true) (slice p n buf) → 0 <= v <= 65535 →
  port_loop buf n p v = Ret (Some w) →
  w = fold_left (λ a c, 10 * a + digit_val c) (slice p n buf) v ∧ 0 <= w <= 65535.
Proof.
  revert p v. induction n as [|n IH]; intros p v Hd Hv; cbn [port_loop].
  - intros [= <-]. unfold slice. by rewrite take_0.
  - destruct (buf !! p) as [c|] eqn:Hc; [|done].
    assert (slice p (S n) buf = c :: slice (S p) n buf) as E.
    { unfold slice. by rewrite (drop_S _ _ _ Hc). }
    rewrite E in *. apply Forall_cons in Hd as [Hnum Hd]. cbn [fold_left].
    destruct (IS_NUM_digit c Hnum) as [Hr ->].
    rewrite (wrapu_small 64 (v * 10)) by (unfold in_u; lia).
    rewrite wrapu_small by (unfold in_u; lia). rewrite (Z.mul_comm v).
    destruct (Z.ltb_spec 65535 (10 * v + digit_val c)); [done|].
    apply IH; [done|lia].
Qed.

(* ------------------------------------------------------------------ *)
(** ** The whole URL *)

(** The order of the fields in a URL. *)
Definition forder f : Z :=
  match f with
  | UF_SCHEMA => 0 | UF_USERINFO => 1 | UF_HOST => 2 | UF_PORT => 3
  | UF_PATH => 4 | UF_QUERY => 5 | UF_FRAGMENT => 6 | UF_MAX => 7
  end.

(** The fields of an accepted URL. *)
Record url_layout (buf : bytes) u : Prop := {
  ul_in : ∀ f, is_set u f = true →
    0 < len (field_data u f) ∧ 0 <= off (field_data u f) ∧ fend u f <= Z.of_nat (length buf);
  ul_order : ∀ f g, is_set u f = true → is_set u g = true → forder f < forder g →
    fend u f <= off (field_data u g);
  ul_host : is_set u UF_SCHEMA = true ∨ is_set u UF_USERINFO = true ∨ is_set u UF_PORT = true →
    is_set u UF_HOST = true;
  ul_digits : is_set u UF_PORT = true →
    Forall (λ c, IS_NUM c = true) (field_text buf (field_data u UF_PORT))
}.

Lemma url_inv_start s d : url_inv 0 s UF_MAX (mkUrl 0 0 d).
Proof.
  assert (∀ f, is_set (mkUrl 0 0 d) f = false) as H by (intros; by apply is_set_none).
  split; intros; rewrite ?H in *; cbn in *; (done || lia).
Qed.

(** Without a host there is neither user name nor port. *)
Lemma url_layout_plain buf i s old u :
  url_inv i s old u → i <= Z.of_nat (length buf) →
  is_set u UF_SCHEMA = false → is_set u UF_HOST = false → url_layout buf u.
Proof.
  intros [H1 _ _ H4 H5] Hi HS HH.
  assert (∀ f, frank f = 0 → is_set u f = true → False) as Hz.
  { intros f Hf Hs%H1. lia. }
  split.
  - intros f Hs. destruct (H4 f Hs) as (?&?&?). lia.
  - intros f g Hf Hg Hlt. apply H5; try done.
    pose proof (H1 f Hf). pose proof (H1 g Hg). destruct f, g; cbn in *; lia.
  - intros [?|[?|?]]; [congruence|by destruct (Hz UF_USERINFO)|by destruct (Hz UF_PORT)].
  - intros ?. by destruct (Hz UF_PORT).
Qed.

(** With one, its parts replace the area the first loop found. *)
Lemma url_layout_host buf i s old u0 u :
  url_inv i s old u0 → i <= Z.of_nat (length buf) → is_set u0 UF_HOST = true →
  host_result buf (off (field_data u0 UF_HOST)) (fend u0 UF_HOST) u0 u → url_layout buf u.
Proof.
  intros [H1 _ _ H4 H5] Hi HH [Ho Hset Hin Hu Hp].
  destruct (H4 UF_HOST HH) as (?&?&?).
  assert (∀ f, host_part f = false → is_set u f = true →
    is_set u0 f = true ∧ field_data u f = field_data u0 f ∧ 0 < frank f) as Hother.
  { intros f Hf Hs. destruct (Ho f Hf) as [E ->]. rewrite E in Hs. pose proof (H1 f Hs). repeat split; (done || lia). }
  split.
  - intros f Hs. destruct (host_part f) eqn:Hf.
    + destruct (Hin f Hf Hs) as (?&?&?). lia.
    + destruct (Hother f Hf Hs) as (Hs' & -> & _). destruct (H4 f Hs') as (?&?&?). lia.
  - intros f g Hf Hg Hlt. destruct (host_part f) eqn:Ef, (host_part g) eqn:Eg.
    + destruct (Hin f Ef Hf) as (?&?&?), (Hin g Eg Hg) as (?&?&?), (Hin UF_HOST eq_refl Hset) as (?&?&?).
      destruct f, g; try discriminate Ef; try discriminate Eg; cbn in Hlt; try lia.
      * by apply Hp.
      * by apply Hu.
      * pose proof (Hu Hf). destruct (Hp Hg). lia.
    + destruct (Hin f Ef Hf) as (?&?&?). destruct (Hother g Eg Hg) as (Hg' & -> & ?).
      assert (fend u0 UF_HOST <= off (field_data u0 g)); [|lia].
      apply H5; try done. destruct f, g; try discriminate Ef; try discriminate Eg; cbn in *; lia.
    + destruct (Hin g Eg Hg) as (?&?&?). destruct (Hother f Ef Hf) as (Hf' & -> & ?).
      assert (fend u0 f <= off (field_data u0 UF_HOST)); [|lia].
      apply H5; try done. destruct f, g; try discriminate Ef; try discriminate Eg; cbn in *; lia.
    + destruct (Hother f Ef Hf) as (Hf' & -> & ?). destruct (Hother g Eg Hg) as (Hg' & -> & ?).
      apply H5; try done. destruct f, g; try discriminate Ef; try discriminate Eg; cbn in *; lia.
  - done.
  - intros HP. by destruct (Hp HP).
Qed.

Lemma url_layout_port buf u v : url_layout buf u → url_layout buf (set_port v u).
Proof. by intros [? ? ? ?]. Qed.

(** The port as a number: the value of its digits, 0 without them. *)
Definition port_of (buf : bytes) u : Z :=
  if is_set u UF_PORT then dec_val (field_text buf (field_data u UF_PORT)) else 0.

(** What is known of a return value [r] and the URL it leaves. *)
Record url_result (buf : bytes) (r : Z) u : Prop := {
  ur_ret : r = 0 ∨ r = 1;
  ur_bounded : bounded every (Z.of_nat (length buf)) u;
  ur_layout : r = 0 → Z.of_nat (length buf) < 65536 →
    url_layout buf u ∧ port u = port_of buf u ∧ 0 <= port u <= 65535
}.

Lemma url_result_1 buf u : bounded every (Z.of_nat (length buf)) u → url_result buf 1 u.
Proof. intros H. split; [by right|done|done]. Qed.

Lemma parse_port_result buf u :
  bounded every (Z.of_nat (length buf)) u → port u = 0 →
  (Z.of_nat (length buf) < 65536 → url_layout buf u) →
  ∃ r u', parse_port buf u = Ret (r, u') ∧ url_result buf r u'.
Proof.
  intros Hb H0 Hl. unfold parse_port. destruct (is_set u UF_PORT) eqn:HP; cbn [negb].
  2: { exists 0, u. split; [done|]. split; [by left|done|]. intros _ ?. unfold port_of.
       rewrite HP, H0. split; [by apply Hl|done]. }
  destruct (Hb UF_PORT eq_refl) as (?&?&?).
  destruct (Z.leb_spec (fend u UF_PORT) (Z.of_nat (length buf))); [cbn [negb]|lia].
  set (n := Z.to_nat (len (field_data u UF_PORT))). set (p := Z.to_nat (off (field_data u UF_PORT))).
  destruct (port_loop_total buf n p 0) as [[w|] E]; [unfold n, p; lia|..];
    rewrite E; cbn [mbind outcome_bind].
  - exists 0, (set_port w u). split; [done|]. split; [by left|done|]. intros _ Hs.
    specialize (Hl Hs). destruct (port_loop_val buf n p 0 w) as [-> Hw]; [|lia|done|].
    { exact (ul_digits buf u Hl HP). }
    split; [by apply url_layout_port|]. unfold port_of.
    change (is_set (set_port _ u) UF_PORT) with (is_set u UF_PORT). rewrite HP.
    unfold set_port; cbn [port field_data]. by rewrite u16_small by lia.
  - exists 1, u. split; [done|by apply url_result_1].
Qed.


Lemma url_loop_port rest i s old fa u r u' :
  url_loop rest i s old fa u = Ret (r, u') → port u' = port u.
Proof.
  revert i s old fa u. induction rest as [|c rest IH]; intros i s old fa u; cbn [url_loop].
  - by intros [= _ <-].
  - destruct (url_field _); [|apply IH|by intros [= _ <-]|done].
    intros ->%IH. unfold url_extend. by case_decide.
Qed.

Lemma host_loop_port buf n p s u r u' :
  host_loop buf n p s u = Ret (r, u') → port u' = port u.
Proof.
  revert p s u. induction n as [|n IH]; intros p s u; cbn [host_loop].
  - by intros [= _ <-].
  - destruct (buf !! p) as [c|]; [|done]. case_decide; [by intros [= _ <-]|].
    intros ->%IH. destruct (http_parse_host_char s c); cbn [host_fields]; try case_decide; done.
Qed.

Lemma http_parse_host_port buf u fa r u' :
  http_parse_host buf u fa = Ret (r, u') → port u' = port u.
Proof.
  unfold http_parse_host. destruct (is_set u UF_HOST); [cbn [negb]|done].
  destruct (host_loop _ _ _ _ _) as [[s v]| |] eqn:E; [|done..]. cbn [mbind outcome_bind].
  apply host_loop_port in E. destruct s; intros [= _ <-]; by rewrite E.
Qed.

(** C18: on any buffer http_parser_parse_url reads inside it and fails no
    assertion, returning 0 or 1, every field inside the buffer; when it
    accepts fewer than 65536 bytes, the fields it marks are non-empty, in the
    order scheme, user name, host, port, path, query, fragment without
    overlap, there is a host whenever there is a scheme, user name or port,
    and the port is the value of its digits, at most 65535. *)
Theorem parse_url_result (buf : bytes) (is_connect : bool) :
  ∃ r u, http_parser_parse_url buf is_connect http_parser_url_init = Ret (r, u) ∧ url_result buf r u.
Proof.
  unfold http_parser_parse_url. destruct (length buf =? 0)%nat eqn:Hlen.
  { exists 1, http_parser_url_init. split; [done|]. apply url_result_1. intros f _. split; cbn; lia. }
  set (u0 := mkUrl 0 0 (field_data http_parser_url_init)).
  set (s0 := if is_connect then s_req_server_start else s_req_spaces_before_url).
  assert (url_state s0 = true) as Hs0 by (by unfold s0; destruct is_connect).
  destruct (url_loop_bounded buf 0 s0 UF_MAX false u0 Hs0) as (r & u & E & Hb & Hz).
  { intros f _. split; cbn; lia. }
  rewrite E. cbn [mbind outcome_bind Nat.add] in *. destruct r as [fa|]; [|exists 1, u; by auto using url_result_1].
  destruct (is_set u UF_SCHEMA && negb (is_set u UF_HOST)) eqn:Hsch; [exists 1, u; by auto using url_result_1|].
  pose proof (url_loop_port _ _ _ _ _ _ _ _ E) as Hport.
  assert (Hinv : Z.of_nat (length buf) < 65536 → ∃ s old, url_inv (Z.of_nat (length buf)) s old u).
  { intros Hs. eapply (url_loop_inv buf 0 s0 UF_MAX false u0); [done|apply url_inv_start|done|done]. }
  assert (Hnone : ∀ f, frank f = 0 → is_set u f = false ∧ field_data u f = mkField 0 0).
  { intros f Hf. destruct (Hz f Hf) as [-> ->]. split; [by apply is_set_none|done]. }
  assert (Hend : ∀ u1, bounded every (Z.of_nat (length buf)) u1 → port u1 = 0 →
    (Z.of_nat (length buf) < 65536 → url_layout buf u1) →
    ∃ r v, (if is_connect && negb (field_set u1 =? Z.lor (Z.shiftl 1 1) (Z.shiftl 1 2)) then Ret (1, u1)
            else parse_port buf u1) = Ret (r, v) ∧ url_result buf r v).
  { intros u1 ???. destruct (is_connect && _); [exists 1, u1; by auto using url_result_1|].
    by apply parse_port_result. }
  destruct (is_set u UF_HOST) eqn:HH.
  - destruct (http_parse_host_total buf u fa HH Hb Hnone) as (r & u1 & E1 & Hr & Hb1).
    rewrite E1. cbn [mbind outcome_bind]. destruct Hr as [-> | ->]; cbn [Z.eqb negb].
    2: { exists 1, u1; by auto using url_result_1. }
    apply Hend; [done|by rewrite (http_parse_host_port _ _ _ _ _ E1)|].
    intros Hs. destruct (Hinv Hs) as (s & old & Hi). eapply url_layout_host; [done|lia|done|].
    eapply http_parse_host_result; try done. by apply (ui_in _ _ _ _ Hi).
  - cbn [mbind outcome_bind Z.eqb negb]. apply Hend; [done|done|].
    intros Hs. destruct (Hinv Hs) as (s & old & Hi). eapply url_layout_plain; [done|lia| |done].
    by rewrite andb_true_r in Hsch.
Qed.

Example parse_url_example :
  ∃ u, http_parser_parse_url (B "http://me@h.io:8080/a?b#c") false http_parser_url_init = Ret (0, u)
  ∧ port u = 8080 ∧ field_text (B "http://me@h.io:8080/a?b#c") (field_data u UF_HOST) = B "h.io".
Proof. eexists. by vm_compute. Qed.
