(* ===== verification/Uri.v ===== *)
(** * [Uri] ([uri.h], [uri.cc]): the parts of a URL and its text *)
From S2P Require Import Prelude StdString HttpParser HttpUrl.

Local Open Scope Z_scope.

(* sylar/uri.h:145-160, Uri *)
Record Uri := mkUri {
  m_scheme : bytes;
  m_userinfo : bytes;
  m_host : bytes;
  m_path : bytes;
  m_query : bytes;
  m_fragment : bytes;
  m_port : Z
}.

(** [std::string(urlstr.c_str() + off, len)] for a field that is marked. *)
Definition part (urlstr : bytes) (u : http_parser_url) (f : http_parser_url_fields) : bytes :=
  if is_set u f then
    slice (Z.to_nat (off (field_data u f))) (Z.to_nat (len (field_data u f))) urlstr
  else [].

(* sylar/uri.cc:43-54, Uri::Create *)
Definition create_port (urlstr : bytes) (u : http_parser_url) (scheme : bytes) : outcome Z :=
  if is_set u UF_PORT then stoi (part urlstr u UF_PORT)
  else Ret (if bool_decide (scheme = B "http" ∨ scheme = B "ws") then 80
            else if bool_decide (scheme = B "https") then 443
            else 0).

(** [None] is the null pointer. *)
(* sylar/uri.cc:14-74, Uri::Create *)
Definition Create (urlstr : bytes) : outcome (option Uri) :=
  '(r, u) ← http_parser_parse_url urlstr false http_parser_url_init;
  if negb (r =? 0) then Ret None
  else
    let scheme := part urlstr u UF_SCHEMA in
    port ← create_port urlstr u scheme;
    Ret (Some (mkUri scheme (part urlstr u UF_USERINFO) (part urlstr u UF_HOST)
                 (part urlstr u UF_PATH) (part urlstr u UF_QUERY) (part urlstr u UF_FRAGMENT) port)).

(* sylar/uri.cc:79-89, Uri::getPort *)
Definition getPort (u : Uri) : Z :=
  if negb (m_port u =? 0) then m_port u
  else if bool_decide (m_scheme u = B "http" ∨ m_scheme u = B "ws") then 80
  else if bool_decide (m_scheme u = B "https" ∨ m_scheme u = B "wss") then 443
  else m_port u.

(* sylar/uri.cc:91-94, Uri::getPath *)
Definition getPath (u : Uri) : bytes := if bool_decide (m_path u = []) then B "/" else m_path u.

(* sylar/uri.cc:96-104, Uri::isDefaultPort *)
Definition isDefaultPort (u : Uri) : bool :=
  if bool_decide (m_scheme u = B "http" ∨ m_scheme u = B "ws") then m_port u =? 80
  else if bool_decide (m_scheme u = B "https") then m_port u =? 443
  else false.

(* sylar/uri.cc:106-121, Uri::toString *)
Definition toString (u : Uri) : bytes :=
  m_scheme u ++ B "://" ++ m_userinfo u ++ (if bool_decide (m_userinfo u = []) then [] else B "@")
  ++ m_host u ++ (if isDefaultPort u then [] else B ":" ++ to_string (m_port u))
  ++ getPath u ++ (if bool_decide (m_query u = []) then [] else B "?") ++ m_query u
  ++ (if bool_decide (m_fragment u = []) then [] else B "#") ++ m_fragment u.

(* sylar/uri.cc:76-77, Uri::Uri *)
Definition new_Uri : Uri := mkUri [] [] [] [] [] [] 0.
(* sylar/uri.h:85-85, Uri::setScheme *)
Definition setScheme (v : bytes) (u : Uri) := mkUri v (m_userinfo u) (m_host u) (m_path u) (m_query u) (m_fragment u) (m_port u).
(* sylar/uri.h:91-91, Uri::setUserinfo *)
Definition setUserinfo (v : bytes) (u : Uri) := mkUri (m_scheme u) v (m_host u) (m_path u) (m_query u) (m_fragment u) (m_port u).
(* sylar/uri.h:97-97, Uri::setHost *)
Definition setHost (v : bytes) (u : Uri) := mkUri (m_scheme u) (m_userinfo u) v (m_path u) (m_query u) (m_fragment u) (m_port u).
(* sylar/uri.h:103-103, Uri::setPath *)
Definition setPath (v : bytes) (u : Uri) := mkUri (m_scheme u) (m_userinfo u) (m_host u) v (m_query u) (m_fragment u) (m_port u).
(* sylar/uri.h:109-109, Uri::setQuery *)
Definition setQuery (v : bytes) (u : Uri) := mkUri (m_scheme u) (m_userinfo u) (m_host u) (m_path u) v (m_fragment u) (m_port u).
(* sylar/uri.h:115-115, Uri::setFragment *)
Definition setFragment (v : bytes) (u : Uri) := mkUri (m_scheme u) (m_userinfo u) (m_host u) (m_path u) (m_query u) v (m_port u).
(* sylar/uri.h:121-121, Uri::setPort *)
Definition setPort (v : Z) (u : Uri) := mkUri (m_scheme u) (m_userinfo u) (m_host u) (m_path u) (m_query u) (m_fragment u) v.

Example create_example :
  Create (B "http://me@h.io:8080/a?b#c")
  = Ret (Some (mkUri (B "http") (B "me") (B "h.io") (B "/a") (B "b") (B "c") 8080)).
Proof. by vm_compute. Qed.
