(* ===== verification/UriTheorems.v ===== *)
(** * Printing a URI and parsing it again

    The runs of the URL and host machines over the parts of a printed URI,
    and the round trip of [Uri::toString] and [Uri::Create]. *)
From S2P Require Import Prelude StdString HttpParser HttpUrl HttpUrlTheorems Uri.

Local Open Scope Z_scope.

Implicit Types (u : http_parser_url) (f g : http_parser_url_fields).

(* ------------------------------------------------------------------ *)
(** ** Fields by the text before them and their text *)

Abbreviation parts := (http_parser_url_fields → option (bytes * bytes)).

Definition with_part f (x : bytes * bytes) (F : parts) : parts :=
  λ g, if decide (g = f) then Some x else F g.

(** The URL marks exactly the fields [F] has. *)
Definition has_parts u (F : parts) : Prop :=
  ∀ f, match F f with
       | Some (pre, d) => is_set u f = true
           ∧ field_data u f = mkField (Z.of_nat (length pre)) (Z.of_nat (length d))
       | None => is_set u f = false
       end.

Lemma has_part u F f pre d :
  has_parts u F → F f = Some (pre, d) →
  is_set u f = true ∧ field_data u f = mkField (Z.of_nat (length pre)) (Z.of_nat (length d)).
Proof. intros H E. specialize (H f). by rewrite E in H. Qed.

Lemma part_text u F f pre d post :
  has_parts u F → F f = Some (pre, d) → part (pre ++ d ++ post) u f = d.
Proof.
  intros H E. destruct (has_part _ _ _ _ _ H E) as [E1 E2]. unfold part. rewrite E1, E2; cbn [off len].
  rewrite !Nat2Z.id. unfold slice. by rewrite drop_app_length, take_app_length.
Qed.

Lemma part_none u F f s : has_parts u F → F f = None → part s u f = [].
Proof. intros H E. specialize (H f). rewrite E in H. unfold part. by rewrite H. Qed.

(** A new field, of one character. *)
Lemma has_parts_start u F f pre c :
  has_parts u F → Z.of_nat (length pre) < 65536 →
  has_parts (mark_set f (set_len f 1 (set_off f (Z.of_nat (length pre)) u))) (with_part f (pre, [c]) F).
Proof.
  intros H Hl g. unfold with_part. case_decide as E; [subst g|].
  - rewrite is_set_start_eq, data_start, decide_True by done. split; [done|].
    rewrite u16_small by lia. done.
  - rewrite is_set_start_ne, data_start, decide_False by done. apply H.
Qed.

(** A field extended by one character. *)
Lemma has_parts_incr u F f pre d c :
  has_parts u F → F f = Some (pre, d) → Z.of_nat (length d) < 65535 →
  has_parts (incr_len f u) (with_part f (pre, d ++ [c]) F).
Proof.
  intros H E Hl g. destruct (has_part _ _ _ _ _ H E) as [E1 E2]. unfold with_part.
  case_decide as Eg; [subst g|].
  - rewrite is_set_incr, data_incr, decide_True, E2 by done. cbn [off len].
    rewrite u16_small by lia. split; [done|]. f_equal. rewrite length_app; cbn. lia.
  - rewrite is_set_incr, data_incr, decide_False by done. apply H.
Qed.

Lemma has_parts_ext u F G : has_parts u F → (∀ f, F f = G f) → has_parts u G.
Proof. intros H E f. rewrite <- E. apply H. Qed.

(* ------------------------------------------------------------------ *)
(** ** Runs of the URL machine *)

(** The machine at the character after [pre], with the fields [F]. *)
Definition url_at (pre : bytes) (rest : bytes) s old fa (F : parts) (P : outcome (option bool * http_parser_url) → Prop) : Prop :=
  ∀ u, has_parts u F → port u = 0 → P (url_loop rest (length pre) s old fa u).

Lemma url_at_ext pre rest s old fa F G P :
  (∀ f, F f = G f) → url_at pre rest s old fa G P → url_at pre rest s old fa F P.
Proof. intros E H u Hu. apply H. by eapply has_parts_ext. Qed.

Lemma length_snoc (pre : bytes) c : length (pre ++ [c]) = S (length pre).
Proof. rewrite length_app. cbn. lia. Qed.

Lemma url_at_delimiter pre c rest s old fa F P :
  url_field (parse_url_char s c) = Delimiter →
  url_at (pre ++ [c]) rest (parse_url_char s c) old fa F P →
  url_at pre (c :: rest) s old fa F P.
Proof.
  intros E H u Hu Hp. cbn [url_loop]. rewrite E, <- length_snoc with (c := c). by apply H.
Qed.

Lemma url_at_start pre c rest s s' f old fa F P :
  parse_url_char s c = s' → url_field s' = InField f → f ≠ old → Z.of_nat (length pre) < 65536 →
  url_at (pre ++ [c]) rest s' f (fa || bool_decide (s' = s_req_server_with_at)) (with_part f (pre, [c]) F) P →
  url_at pre (c :: rest) s old fa F P.
Proof.
  intros Es E Hne Hl H u Hu Hp. cbn [url_loop]. rewrite Es, E, <- length_snoc with (c := c).
  unfold url_extend. rewrite decide_False by done. apply H; [|done]. by apply has_parts_start.
Qed.

Lemma url_at_more pre c rest s s' f fa F q d P :
  parse_url_char s c = s' → url_field s' = InField f → F f = Some (q, d) → Z.of_nat (length d) < 65535 →
  url_at (pre ++ [c]) rest s' f (fa || bool_decide (s' = s_req_server_with_at)) (with_part f (q, d ++ [c]) F) P →
  url_at pre (c :: rest) s f fa F P.
Proof.
  intros Es E Ef Hl H u Hu Hp. cbn [url_loop]. rewrite Es, E, <- length_snoc with (c := c).
  unfold url_extend. rewrite decide_True by done. apply H; [|done]. by apply has_parts_incr.
Qed.

(** Characters that keep the state extend the field. *)
Lemma url_at_run pre e rest s f fa F q d P :
  (∀ c, c ∈ e → parse_url_char s c = s) → url_field s = InField f → s ≠ s_req_server_with_at →
  F f = Some (q, d) → Z.of_nat (length (d ++ e)) < 65536 →
  url_at (pre ++ e) rest s f fa (with_part f (q, d ++ e) F) P →
  url_at pre (e ++ rest) s f fa F P.
Proof.
  intros Hc E Hs. revert pre d F. induction e as [|c e IH]; intros pre d F Ef Hl H.
  - cbn [app]. rewrite !app_nil_r in H. eapply url_at_ext; [|exact H].
    intros g. unfold with_part. by case_decide; subst.
  - cbn [app]. rewrite length_app in Hl; cbn in Hl.
    eapply url_at_more; [apply Hc; left|done|done|lia|].
    rewrite bool_decide_false, orb_false_r by done.
    apply (IH (λ c Hin, Hc c (list_elem_of_further _ _ _ Hin))) with (d := d ++ [c]).
    + unfold with_part. by rewrite decide_True.
    + rewrite !length_app; cbn. lia.
    + rewrite <- !(assoc_L (++)). cbn [app]. eapply url_at_ext; [|exact H].
      intros g. unfold with_part. by case_decide.
Qed.

(** A whole field: its first character starts it. *)
Lemma url_at_field pre c e rest s s' f old fa F P :
  parse_url_char s c = s' → (∀ c, c ∈ e → parse_url_char s' c = s') →
  url_field s' = InField f → s' ≠ s_req_server_with_at → f ≠ old →
  Z.of_nat (length (pre ++ c :: e)) < 65536 →
  url_at (pre ++ c :: e) rest s' f fa (with_part f (pre, c :: e) F) P →
  url_at pre ((c :: e) ++ rest) s old fa F P.
Proof.
  intros Es Hc E Hs Hne Hl H. rewrite length_app in Hl; cbn in Hl. cbn [app].
  eapply url_at_start; [done|done|done|lia|]. rewrite bool_decide_false, orb_false_r by done.
  apply url_at_run with (q := pre) (d := [c]); try done.
  - unfold with_part. by rewrite decide_True.
  - cbn. lia.
  - rewrite <- (assoc_L (++)). cbn [app]. eapply url_at_ext; [|exact H].
    intros g. unfold with_part. by case_decide.
Qed.

(* ------------------------------------------------------------------ *)
(** ** Runs of the host machine *)

Fixpoint host_run (l : bytes) (p : nat) (s : http_host_state) u : option http_host_state * http_parser_url :=
  match l with
  | [] => (Some s, u)
  | ch :: l' =>
      let new_s := http_parse_host_char s ch in
      if decide (new_s = s_http_host_dead) then (None, u)
      else host_run l' (S p) new_s (host_fields s new_s (Z.of_nat p) u)
  end.

Lemma host_loop_run pre l post s u :
  host_loop (pre ++ l ++ post) (length l) (length pre) s u = Ret (host_run l (length pre) s u).
Proof.
  revert pre s u. induction l as [|c l IH]; intros pre s u; [done|]. cbn [host_loop length host_run].
  cbn [app]. rewrite list_lookup_middle by done. case_decide; [done|].
  rewrite <- length_snoc with (c := c). rewrite <- IH. by rewrite <- (assoc_L (++)).
Qed.

Definition host_at (pre l : bytes) s (F : parts) (P : option http_host_state * http_parser_url → Prop) : Prop :=
  ∀ u, has_parts u F → port u = 0 → P (host_run l (length pre) s u).

Lemma host_at_ext pre l s F G P : (∀ f, F f = G f) → host_at pre l s G P → host_at pre l s F P.
Proof. intros E H u Hu. apply H. by eapply has_parts_ext. Qed.

Lemma host_at_skip pre c l s s' F P :
  http_parse_host_char s c = s' → s' ≠ s_http_host_dead → (∀ p u, host_fields s s' p u = u) →
  host_at (pre ++ [c]) l s' F P → host_at pre (c :: l) s F P.
Proof.
  intros Es Hd E H u Hu Hp. cbn [host_run]. rewrite Es, decide_False, E by done.
  rewrite <- length_snoc with (c := c). by apply H.
Qed.

(** A user name or a port starts. *)
Lemma host_at_start pre c l s s' f F P :
  http_parse_host_char s c = s' → s' ≠ s_http_host_dead → Z.of_nat (length pre) < 65536 →
  (∀ p u, host_fields s s' p u = incr_len f (mark_set f (set_len f 0 (set_off f p u)))) →
  host_at (pre ++ [c]) l s' (with_part f (pre, [c]) F) P → host_at pre (c :: l) s F P.
Proof.
  intros Es Hd Hl E H u Hu Hp. cbn [host_run]. rewrite Es, decide_False, E by done.
  rewrite <- length_snoc with (c := c). apply H; [|done].
  intros g. unfold with_part. case_decide as Eg; [subst g|].
  - rewrite is_set_incr, is_set_start_eq, data_incr, decide_True, data_start, decide_True by done.
    split; [done|]. cbn [off len]. by rewrite (u16_small (Z.of_nat _)) by lia.
  - rewrite is_set_incr, is_set_start_ne, data_incr, decide_False, data_start, decide_False by done. apply Hu.
Qed.

(** The host starts; it is marked already, with nothing counted. *)
Lemma host_at_host pre c l s F q P :
  s = s_http_host_start → IS_HOST_CHAR c = true → (c =c "[") = false → Z.of_nat (length pre) < 65536 →
  F UF_HOST = Some (q, []) →
  host_at (pre ++ [c]) l s_http_host (with_part UF_HOST (pre, [c]) F) P → host_at pre (c :: l) s F P.
Proof.
  intros -> Hc Hb Hl E H u Hu Hp. cbn [host_run http_parse_host_char]. rewrite Hb, Hc.
  rewrite decide_False by done. cbn [host_fields]. rewrite decide_False by done.
  rewrite <- length_snoc with (c := c). apply H; [|done].
  destruct (has_part _ _ _ _ _ Hu E) as [E1 E2].
  intros g. unfold with_part, set_off. case_decide as Eg; [subst g|].
  - rewrite is_set_incr, is_set_data, data_incr, decide_True, data_set, decide_True, E2 by done.
    split; [done|]. cbn [off len]. by rewrite (u16_small (Z.of_nat (length pre))) by lia.
  - rewrite is_set_incr, is_set_data, data_incr, decide_False, data_set, decide_False by done. apply Hu.
Qed.

Lemma host_at_run pre e l s f F q d P :
  (∀ c, c ∈ e → http_parse_host_char s c = s) → s ≠ s_http_host_dead →
  (∀ p u, host_fields s s p u = incr_len f u) →
  F f = Some (q, d) → Z.of_nat (length (d ++ e)) < 65536 →
  host_at (pre ++ e) l s (with_part f (q, d ++ e) F) P → host_at pre (e ++ l) s F P.
Proof.
  intros Hc Hs E. revert pre d F. induction e as [|c e IH]; intros pre d F Ef Hl H.
  - cbn [app]. rewrite !app_nil_r in H. eapply host_at_ext; [|exact H].
    intros g. unfold with_part. by case_decide; subst.
  - cbn [app]. rewrite length_app in Hl; cbn in Hl. intros u Hu Hp. cbn [host_run].
    rewrite (Hc c) by left. rewrite decide_False, E by done. rewrite <- length_snoc with (c := c).
    revert u Hu Hp. enough (host_at (pre ++ [c]) (e ++ l) s (with_part f (q, d ++ [c]) F) P) as G.
    { intros u Hu Hp. apply G; [|done]. apply has_parts_incr; try done. lia. }
    apply (IH (λ c Hin, Hc c (list_elem_of_further _ _ _ Hin))) with (d := d ++ [c]).
    + unfold with_part. by rewrite decide_True.
    + rewrite !length_app; cbn. lia.
    + rewrite <- !(assoc_L (++)). cbn [app]. eapply host_at_ext; [|exact H].
      intros g. unfold with_part. by case_decide.
Qed.

(* ------------------------------------------------------------------ *)
(** ** Character classes *)

Definition stays (s s' : state) (p : ascii → bool) : Prop := ∀ c, p c = true → parse_url_char s c = s'.
Definition host_stays (s s' : http_host_state) (p : ascii → bool) : Prop :=
  ∀ c, p c = true → http_parse_host_char s c = s'.

Lemma stays_check s s' p :
  forallb (λ c, implb (p c) (bool_decide (parse_url_char s c = s'))) all_chars = true → stays s s' p.
Proof. intros H c Hp. apply (ascii_forall _ ) with (c := c) in H. rewrite Hp in H. by apply bool_decide_eq_true in H. Qed.
Lemma host_stays_check s s' p :
  forallb (λ c, implb (p c) (bool_decide (http_parse_host_char s c = s'))) all_chars = true → host_stays s s' p.
Proof. intros H c Hp. apply (ascii_forall _ ) with (c := c) in H. rewrite Hp in H. by apply bool_decide_eq_true in H. Qed.

Definition server_char (c : ascii) : bool := IS_USERINFO_CHAR c || IS_HOST_CHAR c || c =c ":" || IS_NUM c.
Definition query_char (c : ascii) : bool := IS_URL_CHAR c || c =c "?".
Definition fragment_char (c : ascii) : bool := IS_URL_CHAR c || c =c "?" || c =c "#".
Definition fragment_first (c : ascii) : bool := IS_URL_CHAR c || c =c "?".

Ltac check_chars := first [apply stays_check | apply host_stays_check]; vm_compute; reflexivity.

Lemma stays_schema0 : stays s_req_spaces_before_url s_req_schema IS_ALPHA.
Proof. check_chars. Qed.
Lemma stays_schema : stays s_req_schema s_req_schema IS_ALPHA.
Proof. check_chars. Qed.
Lemma stays_server0 : stays s_req_server_start s_req_server server_char.
Proof. check_chars. Qed.
Lemma stays_server : stays s_req_server s_req_server server_char.
Proof. check_chars. Qed.
Lemma stays_server_at : stays s_req_server_with_at s_req_server server_char.
Proof. check_chars. Qed.
Lemma stays_path : stays s_req_path s_req_path IS_URL_CHAR.
Proof. check_chars. Qed.
Lemma stays_query0 : stays s_req_query_string_start s_req_query_string query_char.
Proof. check_chars. Qed.
Lemma stays_query : stays s_req_query_string s_req_query_string query_char.
Proof. check_chars. Qed.
Lemma stays_fragment0 : stays s_req_fragment_start s_req_fragment fragment_first.
Proof. check_chars. Qed.
Lemma stays_fragment : stays s_req_fragment s_req_fragment fragment_char.
Proof. check_chars. Qed.
Lemma host_stays_user0 : host_stays s_http_userinfo_start s_http_userinfo IS_USERINFO_CHAR.
Proof. check_chars. Qed.
Lemma host_stays_user : host_stays s_http_userinfo s_http_userinfo IS_USERINFO_CHAR.
Proof. check_chars. Qed.
Lemma host_stays_host : host_stays s_http_host s_http_host IS_HOST_CHAR.
Proof. check_chars. Qed.
Lemma host_stays_port0 : host_stays s_http_host_port_start s_http_host_port isdigit.
Proof. check_chars. Qed.
Lemma host_stays_port : host_stays s_http_host_port s_http_host_port isdigit.
Proof. check_chars. Qed.

(* ------------------------------------------------------------------ *)
(** ** The pieces of a printed URI *)

Definition nonempty (l : bytes) : bool := negb (bool_decide (l = [])).
Definition opt_part f pre (d : bytes) (F : parts) : parts := if nonempty d then with_part f (pre, d) F else F.

Ltac len_lia :=
  unfold lit in *; cbn [list_ascii_of_string] in *;
  repeat (rewrite ?length_app in *; cbn [length] in *); lia.

Lemma url_at_nil pre s old fa F P :
  (∀ u, has_parts u F → port u = 0 → P (Ret (Some fa, u))) → url_at pre [] s old fa F P.
Proof. intros H u ??. by apply H. Qed.

Lemma nonempty_cons l : nonempty l = true → ∃ c e, l = c :: e.
Proof. destruct l; [done|by eauto]. Qed.

Lemma Forall_in_cons (p : ascii → bool) c e :
  Forall (λ c, p c = true) (c :: e) → p c = true ∧ ∀ d, d ∈ e → p d = true.
Proof. rewrite Forall_cons, Forall_forall. done. Qed.

(** '?' and a query. *)
Lemma url_at_query pre q rest fa F P :
  Forall (λ c, query_char c = true) q →
  (nonempty q = true → Z.of_nat (length (pre ++ "?"%char :: q)) < 65536) →
  (if nonempty q
   then url_at (pre ++ "?"%char :: q) rest s_req_query_string UF_QUERY fa
          (with_part UF_QUERY (pre ++ ["?"%char], q) F) P
   else url_at pre rest s_req_path UF_PATH fa F P) →
  url_at pre ((if nonempty q then B "?" else []) ++ q ++ rest) s_req_path UF_PATH fa F P.
Proof.
  intros Hq Hl. destruct (nonempty q) eqn:E; [|by destruct q]. specialize (Hl eq_refl).
  apply nonempty_cons in E as (c & e & ->). apply Forall_in_cons in Hq as [Hc He]. intros H.
  change (B "?" ++ (c :: e) ++ rest) with ("?"%char :: (c :: e) ++ rest).
  apply url_at_delimiter; [done|].
  eapply url_at_field; [by apply stays_query0|intros d Hd; by apply stays_query, He|done..| |].
  - len_lia.
  - rewrite <- (assoc_L (++)). exact H.
Qed.

(** '#' and a fragment. *)
Lemma url_at_fragment pre q s old fa F P :
  Forall (λ c, fragment_char c = true) q → (∀ c e, q = c :: e → fragment_first c = true) →
  (nonempty q = true → Z.of_nat (length (pre ++ "#"%char :: q)) < 65536) →
  s = s_req_path ∨ s = s_req_query_string → old ≠ UF_FRAGMENT →
  (∀ u, has_parts u (opt_part UF_FRAGMENT (pre ++ ["#"%char]) q F) → port u = 0 → P (Ret (Some fa, u))) →
  url_at pre ((if nonempty q then B "#" else []) ++ q) s old fa F P.
Proof.
  intros Hq Hf Hl Hs Ho H. unfold opt_part in H. destruct (nonempty q) eqn:E.
  2: { destruct q; [|done]. by apply url_at_nil. }
  specialize (Hl eq_refl). apply nonempty_cons in E as (c & e & ->). apply Forall_in_cons in Hq as [_ He].
  change (B "#" ++ c :: e) with ("#"%char :: c :: e).
  assert (parse_url_char s "#" = s_req_fragment_start) as E by (by destruct Hs as [-> | ->]).
  apply url_at_delimiter; [by rewrite E|]. rewrite E, <- (app_nil_r (c :: e)).
  eapply url_at_field;
    [by eapply stays_fragment0, Hf|intros d Hd; by apply stays_fragment, He|done..|done| |].
  - len_lia.
  - apply url_at_nil. exact H.
Qed.

Section printed.
Context (user host digits : bytes) (explicit : bool).
Context (Huser : Forall (λ c, IS_USERINFO_CHAR c = true) user).
Context (Hhost : Forall (λ c, IS_HOST_CHAR c = true) host) (Hne : nonempty host = true).
Context (Hdigits : Forall (λ c, isdigit c = true) digits) (Hned : nonempty digits = true).

Definition user_part : bytes := user ++ (if nonempty user then B "@" else []).
Definition port_part : bytes := if explicit then B ":" ++ digits else [].
Definition area : bytes := user_part ++ host ++ port_part.

Lemma server_user c : IS_USERINFO_CHAR c = true → server_char c = true.
Proof. unfold server_char. by intros ->. Qed.
Lemma server_host c : IS_HOST_CHAR c = true → server_char c = true.
Proof. unfold server_char. intros ->. by rewrite orb_true_r. Qed.
Lemma server_digit c : isdigit c = true → server_char c = true.
Proof. assert (implb (isdigit c) (server_char c) = true) as H by by_chars c. intros E. by rewrite E in H. Qed.

Lemma host_port_server : Forall (λ c, server_char c = true) (host ++ port_part).
Proof.
  apply Forall_app. split; [by eapply Forall_impl; [|apply server_host]|].
  unfold port_part. destruct explicit; [|done]. constructor; [done|].
  by eapply Forall_impl; [|apply server_digit].
Qed.

(** The URL machine sees one run of server characters, with an '@'. *)
Lemma url_at_area pre rest old F P :
  old ≠ UF_HOST → Z.of_nat (length (pre ++ area)) < 65536 →
  url_at (pre ++ area) rest s_req_server UF_HOST (nonempty user) (with_part UF_HOST (pre, area) F) P →
  url_at pre (area ++ rest) s_req_server_start old false F P.
Proof.
  intros Ho Hl H. unfold area in *. pose proof host_port_server as Hhp.
  destruct (nonempty_cons _ Hne) as (h & hs & Eh). pose proof (f_equal length Eh) as Lh.
  rewrite Eh in Hhp. cbn [app] in Hhp.
  apply Forall_in_cons in Hhp as [Hh Hhs]. unfold user_part in *.
  destruct (nonempty user) eqn:Eu.
  - apply nonempty_cons in Eu as (c & e & ->). apply Forall_in_cons in Huser as [Hc He].
    rewrite <- !(assoc_L (++)) in *.
    eapply url_at_field; [by apply stays_server0, server_user|intros d Hd; by apply stays_server, server_user, He|done..| |].
    { len_lia. }
    change (B "@") with ["@"%char]. cbn [app]. eapply url_at_more with (s' := s_req_server_with_at) (q := pre) (d := c :: e); try done.
    { len_lia. }
    rewrite bool_decide_true, orb_true_r, Eh by done. cbn [app].
    eapply url_at_more with (q := pre) (d := (c :: e) ++ ["@"%char]);
      [by apply stays_server_at|done| |len_lia|].
    { unfold with_part. by rewrite decide_True. }
    cbn [orb]. rewrite (assoc_L (++) hs). apply url_at_run with (q := pre) (d := ((c :: e) ++ ["@"%char]) ++ [h]); try done.
    { intros d Hd. by apply stays_server, Hhs. }
    { len_lia. }
    rewrite Eh in H. rewrite <- !(assoc_L (++)) in *. cbn [app] in *.
    eapply url_at_ext; [|exact H]. intros g. unfold with_part. by case_decide.
  - assert (user = []) as Eu' by (by destruct user). rewrite Eu' in *. cbn [app] in *.
    rewrite Eh in *. cbn [app] in *. apply (url_at_field pre h (hs ++ port_part) rest _ s_req_server UF_HOST); try done.
    + by apply stays_server0.
    + intros d Hd. by apply stays_server, Hhs.
Qed.

(** The host machine takes the area apart. *)
Lemma host_at_area pre F P :
  F UF_HOST = Some (pre, []) → Z.of_nat (length (pre ++ area)) < 65536 →
  (∀ u s, host_unfinished s = false →
     has_parts u (opt_part UF_PORT (pre ++ user_part ++ host ++ B ":") (if explicit then digits else [])
                   (with_part UF_HOST (pre ++ user_part, host) (opt_part UF_USERINFO pre user F))) →
     P (Some s, u)) →
  host_at pre area (host_start_state (nonempty user)) F P.
Proof.
  intros EF Hl H. unfold area in *.
  enough (host_at (pre ++ user_part) (host ++ port_part) s_http_host_start (opt_part UF_USERINFO pre user F) P) as G.
  { unfold user_part in *. destruct (nonempty user) eqn:Eu; [|by destruct user; rewrite ?app_nil_r in G].
    apply nonempty_cons in Eu as (c & e & ->). apply Forall_in_cons in Huser as [Hc He].
    cbn [host_start_state]. rewrite <- !(assoc_L (++)) in *. cbn [app].
    eapply host_at_start with (f := UF_USERINFO); [by apply host_stays_user0|done|len_lia|done|].
    apply host_at_run with (f := UF_USERINFO) (q := pre) (d := [c]); try done.
    { intros d Hd. by apply host_stays_user, He. }
    { len_lia. }
    apply host_at_skip with (s' := s_http_host_start); [done..|].
    rewrite <- !(assoc_L (++)). cbn [app]. unfold opt_part in G. cbn in G.
    rewrite <- ?(assoc_L (++)) in G. cbn [app] in G.
    eapply host_at_ext; [|exact G]. intros g. unfold with_part. by case_decide. }
  clear -H Hl EF Hhost Hne Hdigits Hned.
  destruct (nonempty_cons _ Hne) as (h & hs & Eh). pose proof Hhost as Hhost'. rewrite Eh in Hhost'.
  apply Forall_in_cons in Hhost' as [Hh Hhs]. rewrite Eh in Hl |- *. cbn [app].
  assert (∃ q, opt_part UF_USERINFO pre user F UF_HOST = Some (q, [])) as [q Eq].
  { exists pre. unfold opt_part, with_part. destruct (nonempty user); [|done]. by rewrite decide_False. }
  apply (host_at_host _ h _ _ _ q); [done|done| |len_lia|done|].
  { assert (implb (IS_HOST_CHAR h) (negb (h =c "[")) = true) as E by (clear; by_chars h).
    rewrite Hh in E. by apply negb_true_iff in E. }
  apply host_at_run with (f := UF_HOST) (q := pre ++ user_part) (d := [h]); try done.
  { intros d Hd. by apply host_stays_host, Hhs. }
  { len_lia. }
  set (G := with_part UF_HOST (pre ++ user_part, host) (opt_part UF_USERINFO pre user F)) in *.
  enough (host_at (((pre ++ user_part) ++ [h]) ++ hs) port_part s_http_host G P) as HG.
  { eapply host_at_ext; [|exact HG]. intros g. unfold G, with_part. rewrite Eh. by case_decide. }
  replace (((pre ++ user_part) ++ [h]) ++ hs) with (pre ++ user_part ++ host)
    by by rewrite Eh, <- !(assoc_L (++)).
  unfold port_part in *. destruct explicit.
  2: { intros u Hu _. apply H; [done|]. exact Hu. }
  destruct (nonempty_cons _ Hned) as (d0 & ds & Ed). pose proof Hdigits as Hd'. rewrite Ed in Hd', Hl |- *.
  apply Forall_in_cons in Hd' as [Hd0 Hds]. change (B ":" ++ d0 :: ds) with (":"%char :: d0 :: ds).
  apply host_at_skip with (s' := s_http_host_port_start); [done..|].
  apply host_at_start with (s' := s_http_host_port) (f := UF_PORT);
    [by apply host_stays_port0|done|rewrite Eh; len_lia|done|].
  rewrite <- (app_nil_r ds).
  apply host_at_run with (f := UF_PORT) (q := (pre ++ user_part ++ host) ++ [":"%char]) (d := [d0]); try done.
  { intros d Hd. by apply host_stays_port, Hds. }
  { len_lia. }
  intros u Hu _. apply H; [done|]. eapply has_parts_ext; [exact Hu|].
  rewrite Ed. intros g. unfold opt_part, with_part.
  change (nonempty (d0 :: ds)) with true. cbn iota beta. rewrite <- !(assoc_L (++)). by case_decide.
Qed.
End printed.

(* ------------------------------------------------------------------ *)
(** ** The whole text *)

Lemma port_loop_digits pre ds post v :
  Forall (λ c, isdigit c = true) ds → 0 <= v →
  fold_left (λ a c, 10 * a + digit_val c) ds v <= 65535 →
  port_loop (pre ++ ds ++ post) (length ds) (length pre) v
  = Ret (Some (fold_left (λ a c, 10 * a + digit_val c) ds v)).
Proof.
  revert pre v. induction ds as [|c ds IH]; intros pre v Hd Hv Hf; [done|].
  apply Forall_in_cons in Hd as [Hc Hd]. cbn [port_loop length fold_left app] in *.
  rewrite list_lookup_middle by done.
  destruct (IS_NUM_digit c Hc) as [Hr ->].
  pose proof (fold_digits_nonneg ds (10 * v + digit_val c) Hd ltac:(lia)).
  rewrite (wrapu_small 64 (v * 10)) by (unfold in_u; lia).
  rewrite wrapu_small by (unfold in_u; lia). rewrite (Z.mul_comm v).
  destruct (Z.ltb_spec 65535 (10 * v + digit_val c)); [lia|].
  rewrite <- length_snoc with (c := c).
  replace (pre ++ c :: ds ++ post) with ((pre ++ [c]) ++ ds ++ post) by by rewrite <- (assoc_L (++)).
  apply IH; [by apply Forall_forall|lia|done].
Qed.

Lemma parse_port_digits u F pre ds post :
  has_parts u F → F UF_PORT = Some (pre, ds) → Forall (λ c, isdigit c = true) ds → dec_val ds <= 65535 →
  parse_port (pre ++ ds ++ post) u = Ret (0, set_port (dec_val ds) u).
Proof.
  intros Hu E Hd Hv. destruct (has_part _ _ _ _ _ Hu E) as [E1 E2].
  unfold parse_port. rewrite E1, E2. cbn [negb off len].
  rewrite !length_app. destruct (Z.leb_spec (Z.of_nat (length pre) + Z.of_nat (length ds))
    (Z.of_nat (length pre + (length ds + length post)))); [|lia].
  rewrite !Nat2Z.id. by rewrite port_loop_digits by (lia || done).
Qed.

Lemma has_parts_port u F v : has_parts u F → has_parts (set_port v u) F.
Proof. intros H f. apply H. Qed.

Section whole.
Context (scheme user host path query fragment digits : bytes) (explicit : bool).
Context (Hscheme : Forall (λ c, IS_ALPHA c = true) scheme) (Hnes : nonempty scheme = true).
Context (Huser : Forall (λ c, IS_USERINFO_CHAR c = true) user).
Context (Hhost : Forall (λ c, IS_HOST_CHAR c = true) host) (Hneh : nonempty host = true).
Context (Hdigits : Forall (λ c, isdigit c = true) digits) (Hned : nonempty digits = true).
Context (Hdval : dec_val digits <= 65535).
Context (Hpath : ∃ e, path = "/"%char :: e ∧ Forall (λ c, IS_URL_CHAR c = true) e).
Context (Hquery : Forall (λ c, query_char c = true) query).
Context (Hfrag : Forall (λ c, fragment_char c = true) fragment).
Context (Hfrag1 : ∀ c e, fragment = c :: e → fragment_first c = true).

Let server := area user host digits explicit.

Definition qmark : bytes := if nonempty query then B "?" else [].
Definition hash : bytes := if nonempty fragment then B "#" else [].

(** The text before each part, and the text. *)
Definition before_server : bytes := scheme ++ B "://".
Definition before_path : bytes := before_server ++ server.
Definition before_query : bytes := before_path ++ path ++ ["?"%char].
Definition before_fragment : bytes := before_path ++ path ++ qmark ++ query ++ ["#"%char].
Definition text : bytes := before_path ++ path ++ qmark ++ query ++ hash ++ fragment.

Context (Hlen : Z.of_nat (length text) < 65536).

Definition url_parts : parts :=
  opt_part UF_FRAGMENT before_fragment fragment
    (opt_part UF_QUERY before_query query
      (with_part UF_PATH (before_path, path)
        (with_part UF_HOST (before_server, server)
          (with_part UF_SCHEMA ([], scheme) (λ _, None))))).

Definition url_done (r : outcome (option bool * http_parser_url)) : Prop :=
  ∃ w, r = Ret (Some (nonempty user), w) ∧ has_parts w url_parts ∧ port w = 0.

Lemma url_loop_text v :
  has_parts v (λ _, None) → port v = 0 →
  url_done (url_loop text 0 s_req_spaces_before_url UF_MAX false v).
Proof.
  revert v. unfold text, before_path, before_server. rewrite <- !(assoc_L (++)).
  change (url_at [] (scheme ++ B "://" ++ server ++ path ++ qmark ++ query ++ hash ++ fragment)
    s_req_spaces_before_url UF_MAX false (λ _, None) url_done).
  destruct (nonempty_cons _ Hnes) as (c0 & e0 & E0). pose proof Hscheme as Hs. rewrite E0 in Hs.
  apply Forall_in_cons in Hs as [Hc0 He0]. rewrite E0 at 1.
  apply (url_at_field [] c0 e0 _ _ s_req_schema UF_SCHEMA);
    [by apply stays_schema0|intros d Hd; by apply stays_schema, He0|done..| |].
  { rewrite <- E0. clear -Hlen. unfold text, before_path, before_server in Hlen. len_lia. }
  rewrite <- E0. change (B "://") with [":"%char; "/"%char; "/"%char]. cbn [app].
  do 3 (apply url_at_delimiter; [done|]). rewrite <- !(assoc_L (++)).
  change (scheme ++ [":"%char] ++ ["/"%char] ++ ["/"%char]) with before_server.
  apply url_at_area; [done..| |].
  { clear -Hlen. unfold text, before_path, before_server, server in *. len_lia. }
  fold server before_path. destruct Hpath as (e & Ep & He). rewrite Forall_forall in He. rewrite Ep at 1.
  apply (url_at_field _ "/"%char e _ _ s_req_path UF_PATH);
    [done|intros d Hd; by apply stays_path, He|done..| |]; rewrite <- Ep.
  { clear -Hlen. unfold text in Hlen. len_lia. }
  apply url_at_query; [done| |].
  { intros E. clear -Hlen E. unfold text, qmark in Hlen. rewrite E in Hlen. len_lia. }
  assert (Hhash : nonempty fragment = true → Z.of_nat (length (before_fragment ++ fragment)) < 65536).
  { intros E. clear -Hlen E. unfold text, before_fragment, hash in *. rewrite E in Hlen. len_lia. }
  unfold url_done, url_parts, before_fragment, opt_part, before_query, qmark in *.
  destruct (nonempty query) eqn:Eq.
  - apply (url_at_fragment _ fragment); [done|done| |by auto|done|].
    { intros E. specialize (Hhash E). clear -Hhash. len_lia. }
    intros w Hw Hp. exists w. split; [done|]. split; [|done].
    unfold opt_part in Hw. eapply has_parts_ext; [exact Hw|]. intros g.
    unfold with_part. destruct (nonempty fragment); rewrite <- ?(assoc_L (++)); done.
  - assert (query = []) as E' by (by destruct query). rewrite E' in *.
    apply (url_at_fragment _ fragment); [done|done| |by auto|done|].
    { intros E. specialize (Hhash E). clear -Hhash. len_lia. }
    intros w Hw Hp. exists w. split; [done|]. split; [|done].
    unfold opt_part in Hw. eapply has_parts_ext; [exact Hw|]. intros g.
    unfold with_part. destruct (nonempty fragment); rewrite <- ?(assoc_L (++)); done.
Qed.

Let upart := user_part user.
Let after_server : bytes := path ++ qmark ++ query ++ hash ++ fragment.

Lemma text_server : text = before_server ++ server ++ after_server.
Proof. unfold text, before_path, after_server. by rewrite <- (assoc_L (++)). Qed.

Definition final_parts : parts :=
  opt_part UF_PORT (before_server ++ upart ++ host ++ B ":") (if explicit then digits else [])
    (with_part UF_HOST (before_server ++ upart, host)
      (opt_part UF_USERINFO before_server user (with_part UF_HOST (before_server, []) url_parts))).

Lemma url_parts_host : url_parts UF_HOST = Some (before_server, server).
Proof. unfold url_parts, opt_part, with_part. by destruct (nonempty query), (nonempty fragment). Qed.


Lemma http_parse_host_text w :
  has_parts w url_parts → port w = 0 →
  ∃ v, http_parse_host text w (nonempty user) = Ret (0, v) ∧ has_parts v final_parts.
Proof.
  intros Hw Hp. destruct (has_part _ _ _ _ _ Hw url_parts_host) as [E1 E2].
  unfold http_parse_host. rewrite E1, E2. cbn [negb off len]. rewrite !Nat2Z.id, text_server.
  rewrite host_loop_run. cbn [mbind outcome_bind]. fold (host_start_state (nonempty user)).
  enough (host_at before_server server (host_start_state (nonempty user))
    (with_part UF_HOST (before_server, []) url_parts)
    (λ r, ∃ s v, r = (Some s, v) ∧ host_unfinished s = false ∧ has_parts v final_parts)) as G.
  { destruct (G (set_len UF_HOST 0 w)) as (s & v & -> & Es & Hv); [|done|].
    - intros f. unfold with_part, set_len. rewrite is_set_data, data_set. case_decide as Ef; [|apply Hw].
      subst f. by rewrite E2.
    - exists v. by rewrite Es. }
  apply host_at_area; [done..| |].
  { assert (Z.of_nat (length (before_server ++ server ++ after_server)) < 65536) as L
      by by rewrite <- text_server.
    clear -L. unfold server in *. len_lia. }
  intros v s Hs Hv. by exists s, v.
Qed.

Lemma text_digits : explicit = true → ∃ post, text = (before_server ++ upart ++ host ++ B ":") ++ digits ++ post.
Proof.
  intros E. exists after_server. rewrite text_server. unfold server, area, port_part. rewrite E.
  by rewrite <- !(assoc_L (++)).
Qed.

Lemma parse_text :
  ∃ v, http_parser_parse_url text false http_parser_url_init = Ret (0, v) ∧ has_parts v final_parts.
Proof.
  unfold http_parser_parse_url. destruct (Nat.eqb_spec (length text) 0) as [E|_].
  { destruct (nonempty_cons _ Hnes) as (c & e & ->). unfold text, before_path, before_server in E.
    rewrite !length_app in E. cbn in E. lia. }
  destruct (url_loop_text (mkUrl 0 0 (field_data http_parser_url_init))) as (w & -> & Hw & Hp); [|done|].
  { intros f. by apply is_set_none. }
  cbn [mbind outcome_bind].
  destruct (has_part _ _ _ _ _ Hw url_parts_host) as [-> _]. rewrite andb_false_r.
  destruct (http_parse_host_text w Hw Hp) as (v & E & Hv). rewrite E. cbn [mbind outcome_bind Z.eqb negb andb].
  assert (explicit = true ∨ explicit = false) as [Ex|Ex] by (case explicit; auto).
  - destruct (text_digits Ex) as [post Ht]. exists (set_port (dec_val digits) v).
    rewrite Ht. split; [|by apply has_parts_port].
    eapply parse_port_digits; [done| |done|done].
    unfold final_parts, opt_part. rewrite Ex, Hned. unfold with_part. by rewrite decide_True.
  - exists v. split; [|done]. unfold parse_port.
    assert (is_set v UF_PORT = false) as ->; [|done].
    specialize (Hv UF_PORT). unfold final_parts, url_parts, opt_part, with_part in Hv.
    rewrite Ex in Hv. by destruct (nonempty user), (nonempty query), (nonempty fragment).
Qed.
End whole.

(* ------------------------------------------------------------------ *)
(** ** The round trip *)

(** The texts of a URI that a URL can carry. *)
Record uri_ok (u : Uri) : Prop := {
  ok_scheme : nonempty (m_scheme u) = true ∧ Forall (λ c, IS_ALPHA c = true) (m_scheme u);
  ok_user : Forall (λ c, IS_USERINFO_CHAR c = true) (m_userinfo u);
  ok_host : nonempty (m_host u) = true ∧ Forall (λ c, IS_HOST_CHAR c = true) (m_host u);
  ok_port : 0 <= m_port u <= 65535;
  ok_path : ∃ e, getPath u = "/"%char :: e ∧ Forall (λ c, IS_URL_CHAR c = true) e;
  ok_query : Forall (λ c, query_char c = true) (m_query u);
  ok_fragment : Forall (λ c, fragment_char c = true) (m_fragment u)
    ∧ ∀ c e, m_fragment u = c :: e → fragment_first c = true;
  ok_length : Z.of_nat (length (toString u)) < 65536
}.

Abbreviation printed_text u :=
  (text (m_scheme u) (m_userinfo u) (m_host u) (getPath u) (m_query u) (m_fragment u)
     (to_string (m_port u)) (negb (isDefaultPort u))).

Lemma if_empty (x l : bytes) : (if bool_decide (x = []) then [] else l) = if nonempty x then l else [].
Proof. unfold nonempty. by case_bool_decide. Qed.

Lemma toString_text (u : Uri) : toString u = printed_text u.
Proof.
  unfold toString, text, before_path, before_server, area, user_part, port_part, qmark, hash.
  rewrite !if_empty, <- !(assoc_L (++)). by destruct (isDefaultPort u).
Qed.

(** The text of a part that may be missing. *)
Lemma part_opt w F f pre d post s :
  has_parts w F → F f = (if nonempty d then Some (pre, d) else None) →
  (nonempty d = true → s = pre ++ d ++ post) → part s w f = d.
Proof.
  intros Hw E Hs. destruct (nonempty d) eqn:Ed.
  - rewrite Hs by done. by eapply part_text.
  - erewrite part_none by done. by destruct d.
Qed.

Lemma isDefaultPort_port (u : Uri) :
  isDefaultPort u = true →
  m_port u = (if bool_decide (m_scheme u = B "http" ∨ m_scheme u = B "ws") then 80
              else if bool_decide (m_scheme u = B "https") then 443 else 0).
Proof. unfold isDefaultPort. repeat case_bool_decide; try done; lia. Qed.

(** Where each part is in the printed text. *)
Section printed_parts.
Context (scheme user host path query fragment digits : bytes) (explicit : bool).
Context (Hs : nonempty scheme = true) (Hh : nonempty host = true) (Hp : nonempty path = true).
Context (Hd : nonempty digits = true).
Context (w : http_parser_url)
  (Hw : has_parts w (final_parts scheme user host path query fragment digits explicit)).

Abbreviation txt := (text scheme user host path query fragment digits explicit).
Abbreviation tail_text := (path ++ qmark query ++ query ++ hash fragment ++ fragment).

Ltac find_part :=
  unfold final_parts, url_parts, opt_part, with_part;
  rewrite ?Hs, ?Hh, ?Hp; repeat case_match; done.
Ltac split_text :=
  intros; unfold text, before_fragment, before_query, before_path, before_server, area, user_part, qmark, hash;
  repeat match goal with H : nonempty _ = true |- _ => rewrite H end;
  rewrite <- ?(assoc_L (++)), ?app_nil_r; done.

Lemma printed_scheme : part txt w UF_SCHEMA = scheme.
Proof.
  apply (part_opt _ _ _ [] _ (B "://" ++ area user host digits explicit ++ tail_text) _ Hw); [find_part|split_text].
Qed.
Lemma printed_user : part txt w UF_USERINFO = user.
Proof.
  apply (part_opt _ _ _ (before_server scheme) _
    ((if nonempty user then B "@" else []) ++ host ++ port_part digits explicit ++ tail_text) _ Hw);
    [find_part|split_text].
Qed.
Lemma printed_host : part txt w UF_HOST = host.
Proof.
  apply (part_opt _ _ _ (before_server scheme ++ user_part user) _ (port_part digits explicit ++ tail_text) _ Hw);
    [find_part|split_text].
Qed.
Lemma printed_path : part txt w UF_PATH = path.
Proof.
  apply (part_opt _ _ _ (before_path scheme user host digits explicit) _
    (qmark query ++ query ++ hash fragment ++ fragment) _ Hw); [find_part|split_text].
Qed.
Lemma printed_query : part txt w UF_QUERY = query.
Proof.
  apply (part_opt _ _ _ (before_query scheme user host path digits explicit) _
    (hash fragment ++ fragment) _ Hw); [find_part|split_text].
Qed.
Lemma printed_fragment : part txt w UF_FRAGMENT = fragment.
Proof.
  apply (part_opt _ _ _ (before_fragment scheme user host path query digits explicit) _ [] _ Hw);
    [find_part|split_text].
Qed.
Lemma printed_port : explicit = true → part txt w UF_PORT = digits.
Proof.
  intros E. apply (part_opt _ _ _ (before_server scheme ++ user_part user ++ host ++ B ":") _ tail_text _ Hw).
  - unfold final_parts, opt_part. rewrite E, Hd. done.
  - unfold text, before_path, area, port_part. rewrite E. split_text.
Qed.
Lemma printed_no_port : explicit = false → is_set w UF_PORT = false.
Proof.
  intros E. specialize (Hw UF_PORT). revert Hw. unfold final_parts, url_parts, opt_part, with_part.
  rewrite E. by destruct (nonempty user), (nonempty query), (nonempty fragment).
Qed.
Lemma printed_port_set : explicit = true → is_set w UF_PORT = true.
Proof.
  intros E. specialize (Hw UF_PORT). revert Hw. unfold final_parts, opt_part. rewrite E, Hd.
  unfold with_part. rewrite decide_True by done. by intros [].
Qed.
End printed_parts.

(** C19: printing a URI whose parts consist of the characters a URL allows
    there, with a port that fits in 16 bits, and parsing the text gives the
    URI back, an empty path as the "/" that is printed for it; a default
    port is left out of the text and put back by the scheme. *)
Theorem uri_roundtrip (u : Uri) (Hok : uri_ok u) :
  Create (toString u) = Ret (Some (setPath (getPath u) u)).
Proof.
  destruct Hok as [[Hs1 Hs2] Hu [Hh1 Hh2] [Hp0 Hp1] Hpath Hq [Hf1 Hf2] Hl].
  rewrite toString_text in Hl |- *.
  assert (Hdig : Forall (λ c, isdigit c = true) (to_string (m_port u)))
    by (apply Forall_forall; intros c; by apply to_string_digits).
  assert (Hdv : dec_val (to_string (m_port u)) = m_port u) by by apply to_string_val.
  assert (Hdn : nonempty (to_string (m_port u)) = true).
  { unfold nonempty. rewrite bool_decide_false; [done|apply to_string_nonempty]. }
  destruct (parse_text (m_scheme u) (m_userinfo u) (m_host u) (getPath u) (m_query u) (m_fragment u)
    (to_string (m_port u)) (negb (isDefaultPort u))) as (w & E & Hw); try done; [by rewrite Hdv|].
  assert (Hnp : nonempty (getPath u) = true) by (destruct Hpath as (e & -> & _); done).
  unfold Create. rewrite E. cbn [mbind outcome_bind Z.eqb negb].
  assert (part (printed_text u) w UF_SCHEMA = m_scheme u) as -> by (by eapply printed_scheme).
  assert (part (printed_text u) w UF_USERINFO = m_userinfo u) as -> by (by eapply printed_user).
  assert (part (printed_text u) w UF_HOST = m_host u) as -> by (by eapply printed_host).
  assert (part (printed_text u) w UF_PATH = getPath u) as -> by (by eapply printed_path).
  assert (part (printed_text u) w UF_QUERY = m_query u) as -> by (by eapply printed_query).
  assert (part (printed_text u) w UF_FRAGMENT = m_fragment u) as -> by (by eapply printed_fragment).
  assert (create_port (printed_text u) w (m_scheme u) = Ret (m_port u)) as ->; [|done].
  unfold create_port. destruct (isDefaultPort u) eqn:Ed.
  - assert (is_set w UF_PORT = false) as -> by (by eapply printed_no_port).
    f_equal. symmetry. by apply isDefaultPort_port.
  - assert (is_set w UF_PORT = true) as ->
      by (eapply printed_port_set; [exact Hdn|exact Hw|done]).
    assert (part (printed_text u) w UF_PORT = to_string (m_port u)) as E'.
    { rewrite Ed. eapply printed_port; [..|exact Hw|done]; done. }
    rewrite Ed in E'. rewrite E'.
    rewrite stoi_digits; [by rewrite Hdv| | |rewrite Hdv; lia].
    + apply to_string_nonempty.
    + intros c. by apply to_string_digits.
Qed.

Lemma uri_roundtrip_witness :
  let u := mkUri (B "http") (B "me") (B "h.io") [] (B "k=v") (B "top") 8080 in
  toString u = B "http://me@h.io:8080/?k=v#top"
  ∧ Create (toString u) = Ret (Some (setPath (getPath u) u)).
Proof.
  intros u. split; [by vm_compute|]. apply uri_roundtrip.
  split; try (by vm_compute).
  - split; [done|]. repeat constructor.
  - repeat constructor.
  - split; [done|]. repeat constructor.
  - by exists [].
  - repeat constructor.
  - split; [repeat constructor|]. intros c e [= <- <-]. done.
Defined.

(** The brackets of an IPv6 host are not part of [m_host] and are not
    printed back: the text of such a URI is not a URL. *)
Example ipv6_host_not_printed_back :
  Create (B "http://[::1]/") = Ret (Some (mkUri (B "http") [] (B "::1") (B "/") [] [] 80))
  ∧ toString (mkUri (B "http") [] (B "::1") (B "/") [] [] 80) = B "http://::1/"
  ∧ Create (B "http://::1/") = Ret None.
Proof. by vm_compute. Qed.

(** A scheme without a default port in [Create] prints port 0, although
    [getPort] knows 443 for it. *)
Example wss_prints_port_0 :
  ∃ u : Uri, Create (B "wss://h/x") = Ret (Some u) ∧ getPort u = 443 ∧ toString u = B "wss://h:0/x".
Proof. eexists. by vm_compute. Qed.
