(* ===== verification/Servlet.v ===== *)
(** * Servlets ([http/servlet.h], [http/servlet.cc])

    The table of exact paths, the list of patterns and the default; every
    operation holds the dispatcher's lock, so that it is one step.  [fnmatch]
    is a parameter.  A servlet of the application is a function of the request
    and the response, which it may both change. *)
From S2P Require Import Prelude StdString Http.
From S2P Require Import HttpResponse.
From stdpp Require Import gmap strings.

Local Open Scope Z_scope.

(** What [handle] does: its result, and the two messages afterwards. *)
Definition handler : Type := HttpRequest → HttpResponse → Z * (HttpRequest * HttpResponse).

(* sylar/http/servlet.h:256-271, NotFoundServlet *)
Inductive Servlet :=
  | FunctionServlet (m_cb : handler)
  | NotFoundServlet (m_name : bytes).

(* sylar/http/servlet.cc:145-152, NotFoundServlet::NotFoundServlet *)
Definition not_found_content (name : bytes) : bytes :=
  B "<html><head><title>404 Not Found</title></head><body><center><h1>404 Not Found</h1></center><hr><center>"
  ++ name ++ B "</center></body></html>".

(* sylar/http/servlet.cc:154-162, NotFoundServlet::handle *)
Definition not_found_handle (name : bytes) : handler := λ request response,
  (0, (request,
       setBody (not_found_content name)
         (setHeader (B "Content-Type") (B "text/html")
            (setHeader (B "Server") (B "sylar/1.0.0") (setStatus 404 response))))).

(* sylar/http/servlet.cc:12-16, FunctionServlet::handle *)
Definition servlet_handle (s : Servlet) : handler :=
  match s with FunctionServlet cb => cb | NotFoundServlet name => not_found_handle name end.

(** One servlet for all requests, or a new one of a class for each. *)
(* sylar/http/servlet.h:91-132, IServletCreator *)
Inductive IServletCreator :=
  | HoldServletCreator (m_servlet : Servlet)
  | ServletCreator (make : unit → Servlet).

(* sylar/http/servlet.h:106-108, HoldServletCreator::get *)
Definition creator_get (c : IServletCreator) : Servlet :=
  match c with HoldServletCreator s => s | ServletCreator make => make tt end.

Section dispatch.
(** [!fnmatch(pattern, path, 0)]. *)
Context (fnmatch : bytes → bytes → bool).

(* sylar/http/servlet.h:240-251, ServletDispatch *)
Record ServletDispatch := mkDispatch {
  m_datas : gmap bytes IServletCreator;
  m_globs : list (bytes * IServletCreator);
  m_default : Servlet
}.
Implicit Types (d : ServletDispatch) (uri : bytes).

Definition set_datas v d := mkDispatch v (m_globs d) (m_default d).
Definition set_globs v d := mkDispatch (m_datas d) v (m_default d).
(* sylar/http/servlet.h:214-214, ServletDispatch::setDefault *)
Definition setDefault (v : Servlet) d := mkDispatch (m_datas d) (m_globs d) v.

(* sylar/http/servlet.cc:20-23, ServletDispatch::ServletDispatch *)
Definition new_ServletDispatch : ServletDispatch := mkDispatch ∅ [] (NotFoundServlet (B "sylar/1.0")).

(* sylar/http/servlet.cc:40-43, ServletDispatch::addServletCreator *)
Definition addServletCreator uri (creator : IServletCreator) d : ServletDispatch :=
  set_datas (<[uri := creator]> (m_datas d)) d.
(* sylar/http/servlet.cc:35-38, ServletDispatch::addServlet *)
Definition addServlet uri (slt : Servlet) d : ServletDispatch :=
  set_datas (<[uri := HoldServletCreator slt]> (m_datas d)) d.
(* sylar/http/servlet.cc:57-62, ServletDispatch::addServlet *)
Definition addServlet_cb uri (cb : handler) d : ServletDispatch :=
  set_datas (<[uri := HoldServletCreator (FunctionServlet cb)]> (m_datas d)) d.

(** The loop that erases the first entry of a pattern. *)
(* sylar/http/servlet.cc:90-96, ServletDispatch::delGlobServlet *)
Fixpoint erase_glob uri (l : list (bytes * IServletCreator)) : list (bytes * IServletCreator) :=
  match l with
  | [] => []
  | (u, c) :: l' => if bool_decide (u = uri) then l' else (u, c) :: erase_glob uri l'
  end.
(* sylar/http/servlet.cc:88-97, ServletDispatch::delGlobServlet *)
Definition delGlobServlet uri d : ServletDispatch := set_globs (erase_glob uri (m_globs d)) d.

(* sylar/http/servlet.cc:45-55, ServletDispatch::addGlobServletCreator *)
Definition addGlobServletCreator uri (creator : IServletCreator) d : ServletDispatch :=
  set_globs (erase_glob uri (m_globs d) ++ [(uri, creator)]) d.
(* sylar/http/servlet.cc:64-76, ServletDispatch::addGlobServlet *)
Definition addGlobServlet uri (slt : Servlet) d : ServletDispatch :=
  set_globs (erase_glob uri (m_globs d) ++ [(uri, HoldServletCreator slt)]) d.
(* sylar/http/servlet.cc:78-81, ServletDispatch::addGlobServlet *)
Definition addGlobServlet_cb uri (cb : handler) d : ServletDispatch := addGlobServlet uri (FunctionServlet cb) d.

(* sylar/http/servlet.cc:83-86, ServletDispatch::delServlet *)
Definition delServlet uri d : ServletDispatch := set_datas (delete uri (m_datas d)) d.

(* sylar/http/servlet.cc:99-103, ServletDispatch::getServlet *)
Definition getServlet uri d : option Servlet := creator_get <$> m_datas d !! uri.

Fixpoint first_glob (p : bytes → bool) (l : list (bytes * IServletCreator)) : option Servlet :=
  match l with
  | [] => None
  | (u, c) :: l' => if p u then Some (creator_get c) else first_glob p l'
  end.

(* sylar/http/servlet.cc:105-114, ServletDispatch::getGlobServlet *)
Definition getGlobServlet uri d : option Servlet := first_glob (λ u, bool_decide (u = uri)) (m_globs d).

(** Patterns and path are C strings. *)
(* sylar/http/servlet.cc:116-129, ServletDispatch::getMatchedServlet *)
Definition getMatchedServlet uri d : Servlet :=
  match m_datas d !! uri with
  | Some c => creator_get c
  | None => default (m_default d) (first_glob (λ u, fnmatch (c_str u) (c_str uri)) (m_globs d))
  end.

(** The servlet's result is dropped. *)
(* sylar/http/servlet.cc:25-33, ServletDispatch::handle *)
Definition handle d : handler := λ request response,
  (0, (servlet_handle (getMatchedServlet (Http.m_path request) d) request response).2).

(* sylar/http/servlet.cc:131-136, ServletDispatch::listAllServletCreator *)
Definition listAllServletCreator d (infos : gmap bytes IServletCreator) : gmap bytes IServletCreator :=
  m_datas d ∪ infos.
(* sylar/http/servlet.cc:138-143, ServletDispatch::listAllGlobServletCreator *)
Definition listAllGlobServletCreator d (infos : gmap bytes IServletCreator) : gmap bytes IServletCreator :=
  fold_left (λ m i, <[i.1 := i.2]> m) (m_globs d) infos.

(* ------------------------------------------------------------------ *)
(** ** What it promises *)

(** Patterns are listed once. *)
Definition globs_ok d : Prop := NoDup (m_globs d).*1.


Lemma erase_glob_keys uri l : NoDup l.*1 → NoDup (erase_glob uri l).*1 ∧ uri ∉ (erase_glob uri l).*1.
Proof.
  induction l as [|[u c] l IH]; cbn; [intros _; split; [constructor|set_solver]|].
  intros [Hu Hn]%NoDup_cons. destruct (IH Hn) as [H1 H2]. case_bool_decide as Hd.
  - by subst.
  - cbn. split; [|set_solver]. constructor; [|done]. intros Hin. apply Hu. clear -Hin.
    induction l as [|[v c'] l IH]; cbn in *; [done|]. case_bool_decide; set_solver.
Qed.

(** The entries other than the pattern's keep their order. *)
Lemma erase_glob_filter uri l : NoDup l.*1 → erase_glob uri l = filter (λ i, i.1 ≠ uri) l.
Proof.
  induction l as [|[u c] l IH]; [done|]. cbn [fmap list_fmap fst]. intros [Hu Hn]%NoDup_cons.
  cbn [erase_glob]. case_bool_decide as Hd.
  - subst. rewrite filter_cons_False by (intros H; by apply H). clear -Hu.
    induction l as [|[v c'] l IH]; [done|]. cbn in Hu. apply not_elem_of_cons in Hu as [H1 H2].
    rewrite filter_cons_True by (cbn; congruence). f_equal. by apply IH.
  - rewrite filter_cons_True by done. f_equal. by apply IH.
Qed.

(** The dispatcher finds the servlet of the exact path if there is one,
    otherwise the earliest added pattern that matches, otherwise the default;
    adding a path or a pattern again replaces it, a pattern moving to the end;
    deleting forgets it and nothing else. *)
Theorem dispatch_spec d uri uri' slt : globs_ok d →
  let d1 := addServlet uri slt d in let d2 := addGlobServlet uri slt d in
  let d3 := delServlet uri d in let d4 := delGlobServlet uri d in
  (globs_ok d1 ∧ globs_ok d2 ∧ globs_ok d3 ∧ globs_ok d4) ∧
  getMatchedServlet uri d1 = slt ∧
  (uri' ≠ uri → getMatchedServlet uri' d1 = getMatchedServlet uri' d) ∧
  (m_datas d !! uri' = None → getMatchedServlet uri' d2 =
     match first_glob (λ u, fnmatch (c_str u) (c_str uri')) (filter (λ i, i.1 ≠ uri) (m_globs d)) with
     | Some s => s
     | None => if fnmatch (c_str uri) (c_str uri') then slt else m_default d
     end) ∧
  getGlobServlet uri d2 = Some slt ∧ getGlobServlet uri d4 = None ∧
  getServlet uri d3 = None ∧ (uri' ≠ uri → getServlet uri' d3 = getServlet uri' d).
Proof.
  intros Hok. cbv zeta. destruct (erase_glob_keys uri (m_globs d) Hok) as [Hn Hu].
  assert (∀ p l c, first_glob p (l ++ [(uri, c)]) =
    match first_glob p l with Some s => Some s | None => if p uri then Some (creator_get c) else None end) as Happ.
  { intros p l c. induction l as [|[u c'] l IH]; [done|]. cbn. by destruct (p u). }
  assert (first_glob (λ u, bool_decide (u = uri)) (erase_glob uri (m_globs d)) = None) as Hnone.
  { revert Hu. clear. induction (erase_glob uri (m_globs d)) as [|[u c] l IH]; [done|]. cbn.
    rewrite not_elem_of_cons. intros [? ?]. rewrite bool_decide_eq_false_2 by congruence. auto. }
  split_and!; try done.
  - unfold globs_ok. cbn. rewrite fmap_app. apply NoDup_app. cbn.
    split_and!; [done|set_solver|constructor; [set_solver|constructor]].
  - unfold getMatchedServlet. cbn. by rewrite lookup_insert_eq.
  - intros Hne. unfold getMatchedServlet. cbn. by rewrite lookup_insert_ne.
  - intros Hd. unfold getMatchedServlet. cbn. rewrite Hd, Happ, erase_glob_filter by done.
    destruct (first_glob _ (filter _ _)); [done|]. by destruct (fnmatch _ _).
  - unfold getGlobServlet. cbn. rewrite Happ, Hnone. by rewrite bool_decide_eq_true_2.
  - unfold getServlet. cbn. by rewrite lookup_delete_eq.
  - intros Hne. unfold getServlet. cbn. by rewrite lookup_delete_ne.
Qed.
End dispatch.

(** Patterns that are a prefix and a star, or exact. *)
Definition star_match (p s : bytes) : bool :=
  match reverse p with
  | "*"%char :: q => bool_decide (take (length q) s = reverse q)
  | _ => bool_decide (p = s)
  end.

Definition sample_dispatch : ServletDispatch :=
  addGlobServlet (B "/a*") (NotFoundServlet (B "one"))
    (addGlobServlet (B "/b*") (NotFoundServlet (B "two")) new_ServletDispatch).

Lemma dispatch_spec_witness :
  let d := sample_dispatch in let slt := NotFoundServlet (B "new") in
  let uri := B "/a*" in let uri' := B "/ab" in
  let d1 := addServlet uri slt d in let d2 := addGlobServlet uri slt d in
  let d3 := delServlet uri d in let d4 := delGlobServlet uri d in
  (globs_ok d1 ∧ globs_ok d2 ∧ globs_ok d3 ∧ globs_ok d4) ∧
  getMatchedServlet star_match uri d1 = slt ∧
  (uri' ≠ uri → getMatchedServlet star_match uri' d1 = getMatchedServlet star_match uri' d) ∧
  (m_datas d !! uri' = None → getMatchedServlet star_match uri' d2 =
     match first_glob (λ u, star_match (c_str u) (c_str uri')) (filter (λ i, i.1 ≠ uri) (m_globs d)) with
     | Some s => s
     | None => if star_match (c_str uri) (c_str uri') then slt else m_default d
     end) ∧
  getGlobServlet uri d2 = Some slt ∧ getGlobServlet uri d4 = None ∧
  getServlet uri d3 = None ∧ (uri' ≠ uri → getServlet uri' d3 = getServlet uri' d).
Proof.
  apply (dispatch_spec star_match sample_dispatch (B "/a*") (B "/ab") (NotFoundServlet (B "new"))).
  unfold globs_ok. repeat constructor; vm_compute; set_solver.
Defined.
