(* ===== verification/HttpParserExec.v ===== *)
(** * The HTTP message parser ([http_parser_execute])

    One definition per group of [case]s of the parser's switch, over a
    record of the function's local variables.  [goto error], the early
    returns and [goto reexecute] are results of the cases.  The callbacks
    are arbitrary functions of the parser and of the application's state;
    pointers into the input are offsets. *)
From S2P Require Import Prelude HttpParser.

Local Open Scope Z_scope.

(** The data and the notification callbacks. *)
Inductive data_cb := header_field | header_value | url | body | status.
Inductive notify_cb :=
  | message_begin | headers_complete | message_complete | chunk_header | chunk_complete.

#[global] Instance data_cb_eq_dec : EqDecision data_cb.
Proof. solve_decision. Defined.

Definition HPE_CB_data (f : data_cb) : http_errno :=
  match f with
  | header_field => HPE_CB_header_field | header_value => HPE_CB_header_value
  | url => HPE_CB_url | body => HPE_CB_body | status => HPE_CB_status
  end.
Definition HPE_CB_notify (f : notify_cb) : http_errno :=
  match f with
  | message_begin => HPE_CB_message_begin | headers_complete => HPE_CB_headers_complete
  | message_complete => HPE_CB_message_complete | chunk_header => HPE_CB_chunk_header
  | chunk_complete => HPE_CB_chunk_complete
  end.

Section exec.
Context {U : Type}.

(* sylar/http/http-parser/http_parser.h:324-338, http_parser_settings *)
Record settings := mkSettings {
  on_data : data_cb → option (http_parser → bytes → U → Z * (http_parser * U));
  on_notify : notify_cb → option (http_parser → U → Z * (http_parser * U))
}.

(* sylar/http/http-parser/http_parser.c:2158-2162, http_parser_settings_init *)
Definition http_parser_settings_init : settings := mkSettings (λ _, None) (λ _, None).

(** The local variables, the parser and the application's state. *)
(* sylar/http/http-parser/http_parser.c:643-653, http_parser_execute *)
Record run := mkRun {
  prs : http_parser;
  st : state;
  cnt : Z;
  pos : nat;
  marks : list (data_cb * nat);
  user : U
}.

(** How a piece of the function ends. *)
Inductive ctl (A : Type) :=
  | Go (a : A)
  | Return (n : Z)
  | Error
  | Fault (f : fault).
Arguments Go {A} a.
Arguments Return {A} n.
Arguments Error {A}.
Arguments Fault {A} f.

Definition M (A : Type) : Type := run → ctl A * run.

#[global] Instance M_ret : MRet M := λ A a x, (Go a, x).
#[global] Instance M_bind : MBind M := λ A C f m x,
  match m x with
  | (Go a, x') => f a x'
  | (Return n, x') => (Return n, x')
  | (Error, x') => (Error, x')
  | (Fault e, x') => (Fault e, x')
  end.

Definition ask : M run := λ x, (Go x, x).
Definition upd (g : run → run) : M unit := λ x, (Go tt, g x).
Definition ret (n : Z) : M unit := λ x, (Return n, x).
Definition error : M unit := λ x, (Error, x).
Definition ASSERT (b : bool) : M unit := λ x, (if b then Go tt else Fault assert_failed, x).

Definition set_prs v x := mkRun v (st x) (cnt x) (pos x) (marks x) (user x).
Definition set_st v x := mkRun (prs x) v (cnt x) (pos x) (marks x) (user x).
Definition set_cnt v x := mkRun (prs x) (st x) v (pos x) (marks x) (user x).
Definition set_pos v x := mkRun (prs x) (st x) (cnt x) v (marks x) (user x).
Definition set_marks v x := mkRun (prs x) (st x) (cnt x) (pos x) v (user x).
Definition set_user v x := mkRun (prs x) (st x) (cnt x) (pos x) (marks x) v.

Definition upd_prs (g : http_parser → http_parser) : M unit := upd (λ x, set_prs (g (prs x)) x).

(** [FOR##_mark]; unset is [NULL]. *)
Definition get_mark (f : data_cb) (x : run) : option nat :=
  snd <$> find (λ m, bool_decide (m.1 = f)) (marks x).
Definition clear_mark (f : data_cb) (x : run) : run :=
  set_marks (filter (λ m, m.1 ≠ f) (marks x)) x.

Context (stg : settings) (max_header_size : Z) (data : bytes).

Definition len : nat := length data.
Definition at_p (p : nat) : ascii := nth p data NUL.

(* sylar/http/http-parser/http_parser.c:51-55, SET_ERRNO *)
Definition SET_ERRNO (e : http_errno) : M unit :=
  x ← ask; upd_prs (λ q, set_errno e (set_nread (cnt x) q)).

(* sylar/http/http-parser/http_parser.c:58-58, UPDATE_STATE *)
Definition UPDATE_STATE (s : state) : M unit := upd (set_st s).

(* sylar/http/http-parser/http_parser.c:59-64, RETURN *)
Definition RETURN (v : Z) : M unit :=
  x ← ask;
  _ ← upd_prs (λ q, set_p_state (st x) (set_nread (cnt x) q));
  ret v.

Definition fail (e : http_errno) : M unit := _ ← SET_ERRNO e; error.

(* sylar/http/http-parser/http_parser.c:453-459, STRICT_CHECK *)
Definition STRICT_CHECK (cond : bool) : M unit := if cond then fail HPE_STRICT else mret tt.

(** The result of a callback: a non-zero one is an error, and so is one
    the callback set, or a pause. *)
Definition after_callback (e : http_errno) (er : Z) (r : Z * (http_parser * U)) : M unit :=
  _ ← upd (λ x, set_user r.2.2 (set_prs r.2.1 x));
  _ ← (if r.1 =? 0 then mret tt else SET_ERRNO e);
  x ← ask;
  _ ← UPDATE_STATE (p_state (prs x));
  if bool_decide (errno (prs x) = HPE_OK) then mret tt else ret er.

(* sylar/http/http-parser/http_parser.c:78-98, CALLBACK_NOTIFY_ *)
Definition CALLBACK_NOTIFY_ (f : notify_cb) (er : Z) : M unit :=
  x ← ask;
  _ ← ASSERT (bool_decide (errno (prs x) = HPE_OK));
  match on_notify stg f with
  | None => mret tt
  | Some cb =>
      _ ← upd_prs (set_p_state (st x));
      x ← ask;
      after_callback (HPE_CB_notify f) er (cb (prs x) (user x))
  end.

(* sylar/http/http-parser/http_parser.c:100-101, CALLBACK_NOTIFY *)
Definition CALLBACK_NOTIFY (f : notify_cb) : M unit :=
  x ← ask; CALLBACK_NOTIFY_ f (Z.of_nat (pos x) + 1).
(* sylar/http/http-parser/http_parser.c:103-104, CALLBACK_NOTIFY_NOADVANCE *)
Definition CALLBACK_NOTIFY_NOADVANCE (f : notify_cb) : M unit :=
  x ← ask; CALLBACK_NOTIFY_ f (Z.of_nat (pos x)).

(** [to] is the end of the data, from the mark on. *)
(* sylar/http/http-parser/http_parser.c:106-129, CALLBACK_DATA_ *)
Definition CALLBACK_DATA_ (f : data_cb) (to : nat) (er : Z) : M unit :=
  x ← ask;
  _ ← ASSERT (bool_decide (errno (prs x) = HPE_OK));
  match get_mark f x with
  | None => mret tt
  | Some m =>
      _ ← match on_data stg f with
          | None => mret tt
          | Some cb =>
              _ ← upd_prs (set_p_state (st x));
              x ← ask;
              after_callback (HPE_CB_data f) er (cb (prs x) (slice m (to - m) data) (user x))
          end;
      upd (clear_mark f)
  end.

(* sylar/http/http-parser/http_parser.c:131-133, CALLBACK_DATA *)
Definition CALLBACK_DATA (f : data_cb) : M unit :=
  x ← ask; CALLBACK_DATA_ f (pos x) (Z.of_nat (pos x) + 1).
(* sylar/http/http-parser/http_parser.c:135-137, CALLBACK_DATA_NOADVANCE *)
Definition CALLBACK_DATA_NOADVANCE (f : data_cb) : M unit :=
  x ← ask; CALLBACK_DATA_ f (pos x) (Z.of_nat (pos x)).

(* sylar/http/http-parser/http_parser.c:139-145, MARK *)
Definition MARK (f : data_cb) : M unit :=
  x ← ask;
  match get_mark f x with
  | None => upd (λ x, set_marks ((f, pos x) :: marks x) x)
  | Some _ => mret tt
  end.

(* sylar/http/http-parser/http_parser.c:159-166, COUNT_HEADER_SIZE *)
Definition COUNT_HEADER_SIZE (v : Z) : M unit :=
  _ ← upd (λ x, set_cnt (u32 (cnt x + u32 v)) x);
  x ← ask;
  if max_header_size <? cnt x then fail HPE_HEADER_OVERFLOW else mret tt.

(** How a case ends: [break], or [goto reexecute] with [ch] as it is. *)
Inductive next := Break | Reexecute (ch : ascii).

Definition brk : M next := mret Break.
Definition re (ch : ascii) : M next := mret (Reexecute ch).
Definition go (s : state) : M next := _ ← UPDATE_STATE s; brk.
Definition stop (e : http_errno) : M next := _ ← fail e; brk.

Definition is_nl (ch : ascii) : bool := ch =c CR || ch =c LF.

(* ------------------------------------------------------------------ *)
(** ** Start of a message *)

(* sylar/http/http-parser/http_parser.c:716-724, http_parser_execute *)
Definition case_dead (ch : ascii) : M next :=
  if is_nl ch then brk else stop HPE_CLOSED_CONNECTION.

Definition new_message : M unit :=
  upd_prs (λ q, set_content_length ULLONG_MAX (set_flags 0 q)).

(* sylar/http/http-parser/http_parser.c:726-744, http_parser_execute *)
Definition case_start_req_or_res (ch : ascii) : M next :=
  if is_nl ch then brk
  else
    _ ← new_message;
    if ch =c "H" then
      _ ← UPDATE_STATE s_res_or_resp_H;
      _ ← CALLBACK_NOTIFY message_begin;
      brk
    else
      _ ← upd_prs (set_type HTTP_REQUEST);
      _ ← UPDATE_STATE s_start_req;
      re ch.

(* sylar/http/http-parser/http_parser.c:746-761, http_parser_execute *)
Definition case_res_or_resp_H (ch : ascii) : M next :=
  if ch =c "T" then
    _ ← upd_prs (set_type HTTP_RESPONSE);
    go s_res_HT
  else if negb (ch =c "E") then stop HPE_INVALID_CONSTANT
  else
    _ ← upd_prs (λ q, set_index 2 (set_method HTTP_HEAD (set_type HTTP_REQUEST q)));
    go s_req_method.

(* sylar/http/http-parser/http_parser.c:763-779, http_parser_execute *)
Definition case_start_res (ch : ascii) : M next :=
  if is_nl ch then brk
  else
    _ ← new_message;
    if ch =c "H" then
      _ ← UPDATE_STATE s_res_H;
      _ ← CALLBACK_NOTIFY message_begin;
      brk
    else stop HPE_INVALID_CONSTANT.

Definition expect (want : ascii) (s : state) (ch : ascii) : M next :=
  _ ← STRICT_CHECK (negb (ch =c want)); go s.

Definition digit (ch : ascii) : Z := uchar ch - 48.

(* sylar/http/http-parser/http_parser.c:781-841, http_parser_execute *)
Definition case_res_version (s : state) (ch : ascii) : M next :=
  match s with
  | s_res_H => expect "T" s_res_HT ch
  | s_res_HT => expect "T" s_res_HTT ch
  | s_res_HTT => expect "P" s_res_HTTP ch
  | s_res_HTTP => expect "/" s_res_http_major ch
  | s_res_http_major =>
      if negb (IS_NUM ch) then stop HPE_INVALID_VERSION
      else _ ← upd_prs (set_http_major (digit ch)); go s_res_http_dot
  | s_res_http_dot =>
      if negb (ch =c ".") then stop HPE_INVALID_VERSION else go s_res_http_minor
  | s_res_http_minor =>
      if negb (IS_NUM ch) then stop HPE_INVALID_VERSION
      else _ ← upd_prs (set_http_minor (digit ch)); go s_res_http_end
  | _ => (* s_res_http_end *)
      if negb (ch =c " ") then stop HPE_INVALID_VERSION else go s_res_first_status_code
  end.

(* sylar/http/http-parser/http_parser.c:843-918, http_parser_execute *)
Definition case_res_status (s : state) (ch : ascii) : M next :=
  match s with
  | s_res_first_status_code =>
      if negb (IS_NUM ch) then
        if ch =c " " then brk else stop HPE_INVALID_STATUS
      else _ ← upd_prs (set_status_code (digit ch)); go s_res_status_code
  | s_res_status_code =>
      if negb (IS_NUM ch) then
        if ch =c " " then go s_res_status_start
        else if is_nl ch then _ ← UPDATE_STATE s_res_status_start; re ch
        else stop HPE_INVALID_STATUS
      else
        _ ← upd_prs (λ q, set_status_code (status_code q * 10) q);
        _ ← upd_prs (λ q, set_status_code (status_code q + digit ch) q);
        x ← ask;
        if 999 <? status_code (prs x) then stop HPE_INVALID_STATUS else brk
  | s_res_status_start =>
      _ ← MARK status;
      _ ← UPDATE_STATE s_res_status;
      _ ← upd_prs (set_index 0);
      if is_nl ch then re ch else brk
  | s_res_status =>
      if ch =c CR then
        _ ← UPDATE_STATE s_res_line_almost_done; _ ← CALLBACK_DATA status; brk
      else if ch =c LF then
        _ ← UPDATE_STATE s_header_field_start; _ ← CALLBACK_DATA status; brk
      else brk
  | _ => (* s_res_line_almost_done *) expect LF s_header_field_start ch
  end.

(* ------------------------------------------------------------------ *)
(** ** The request line *)

(* sylar/http/http-parser/http_parser.c:934-955, http_parser_execute *)
Definition first_letter (ch : ascii) : option http_method :=
  if ch =c "A" then Some HTTP_ACL
  else if ch =c "B" then Some HTTP_BIND
  else if ch =c "C" then Some HTTP_CONNECT
  else if ch =c "D" then Some HTTP_DELETE
  else if ch =c "G" then Some HTTP_GET
  else if ch =c "H" then Some HTTP_HEAD
  else if ch =c "L" then Some HTTP_LOCK
  else if ch =c "M" then Some HTTP_MKCOL
  else if ch =c "N" then Some HTTP_NOTIFY
  else if ch =c "O" then Some HTTP_OPTIONS
  else if ch =c "P" then Some HTTP_POST
  else if ch =c "R" then Some HTTP_REPORT
  else if ch =c "S" then Some HTTP_SUBSCRIBE
  else if ch =c "T" then Some HTTP_TRACE
  else if ch =c "U" then Some HTTP_UNLOCK
  else None.

(* sylar/http/http-parser/http_parser.c:920-961, http_parser_execute *)
Definition case_start_req (ch : ascii) : M next :=
  if is_nl ch then brk
  else
    _ ← new_message;
    if negb (IS_ALPHA ch) then stop HPE_INVALID_METHOD
    else
      _ ← upd_prs (λ q, set_index 1 (set_method HTTP_DELETE q));
      match first_letter ch with
      | None => stop HPE_INVALID_METHOD
      | Some m =>
          _ ← upd_prs (set_method m);
          _ ← UPDATE_STATE s_req_method;
          _ ← CALLBACK_NOTIFY message_begin;
          brk
      end.

(* sylar/http/http-parser/http_parser.c:978-1002, http_parser_execute *)
Definition other_method (m : http_method) (i : Z) (ch : ascii) : option http_method :=
  match m with
  | HTTP_POST =>
      if (i =? 1) && ch =c "U" then Some HTTP_PUT
      else if (i =? 1) && ch =c "A" then Some HTTP_PATCH
      else if (i =? 1) && ch =c "R" then Some HTTP_PROPFIND else None
  | HTTP_PUT => if (i =? 2) && ch =c "R" then Some HTTP_PURGE else None
  | HTTP_CONNECT =>
      if (i =? 1) && ch =c "H" then Some HTTP_CHECKOUT
      else if (i =? 2) && ch =c "P" then Some HTTP_COPY else None
  | HTTP_MKCOL =>
      if (i =? 1) && ch =c "O" then Some HTTP_MOVE
      else if (i =? 1) && ch =c "E" then Some HTTP_MERGE
      else if (i =? 1) && ch =c "-" then Some HTTP_MSEARCH
      else if (i =? 2) && ch =c "A" then Some HTTP_MKACTIVITY
      else if (i =? 3) && ch =c "A" then Some HTTP_MKCALENDAR else None
  | HTTP_SUBSCRIBE =>
      if (i =? 1) && ch =c "E" then Some HTTP_SEARCH
      else if (i =? 1) && ch =c "O" then Some HTTP_SOURCE else None
  | HTTP_REPORT => if (i =? 2) && ch =c "B" then Some HTTP_REBIND else None
  | HTTP_PROPFIND => if (i =? 4) && ch =c "P" then Some HTTP_PROPPATCH else None
  | HTTP_LOCK => if (i =? 1) && ch =c "I" then Some HTTP_LINK else None
  | HTTP_UNLOCK =>
      if (i =? 2) && ch =c "S" then Some HTTP_UNSUBSCRIBE
      else if (i =? 2) && ch =c "B" then Some HTTP_UNBIND
      else if (i =? 3) && ch =c "I" then Some HTTP_UNLINK else None
  | _ => None
  end.

(** [matcher[parser->index]], with the terminating NUL. *)
Definition matcher_at (s : bytes) (i : Z) : option ascii := (s ++ [NUL]) !! Z.to_nat i.

Definition next_index : M unit := upd_prs (λ q, set_index (index q + 1) q).

(* sylar/http/http-parser/http_parser.c:963-1014, http_parser_execute *)
Definition case_req_method (ch : ascii) : M next :=
  if ch =c NUL then stop HPE_INVALID_METHOD
  else
    x ← ask;
    match matcher_at (method_strings (method (prs x))) (index (prs x)) with
    | None => λ x, (Fault out_of_bounds, x)
    | Some want =>
        _ ← (if ch =c " " && want =c NUL then UPDATE_STATE s_req_spaces_before_url
             else if ch =c want then mret tt
             else if between "A" "Z" ch || ch =c "-" then
               match other_method (method (prs x)) (index (prs x)) ch with
               | Some m => upd_prs (set_method m)
               | None => fail HPE_INVALID_METHOD
               end
             else fail HPE_INVALID_METHOD);
        _ ← next_index;
        brk
    end.

(** [UPDATE_STATE(parse_url_char(CURRENT_STATE(), ch))] and its check. *)
Definition url_char (ch : ascii) : M next :=
  x ← ask;
  _ ← UPDATE_STATE (parse_url_char (st x) ch);
  if bool_decide (parse_url_char (st x) ch = s_dead) then stop HPE_INVALID_URL else brk.

(* sylar/http/http-parser/http_parser.c:1016-1032, http_parser_execute *)
Definition case_req_spaces_before_url (ch : ascii) : M next :=
  if ch =c " " then brk
  else
    _ ← MARK url;
    x ← ask;
    _ ← (if bool_decide (method (prs x) = HTTP_CONNECT) then UPDATE_STATE s_req_server_start
         else mret tt);
    url_char ch.

(* sylar/http/http-parser/http_parser.c:1034-1055, http_parser_execute *)
Definition case_req_schema (ch : ascii) : M next :=
  if ch =c " " || is_nl ch then stop HPE_INVALID_URL else url_char ch.

(* sylar/http/http-parser/http_parser.c:1057-1087, http_parser_execute *)
Definition case_req_url (ch : ascii) : M next :=
  if ch =c " " then
    _ ← UPDATE_STATE s_req_http_start; _ ← CALLBACK_DATA url; brk
  else if is_nl ch then
    _ ← upd_prs (λ q, set_http_minor 9 (set_http_major 0 q));
    _ ← UPDATE_STATE (if ch =c CR then s_req_line_almost_done else s_header_field_start);
    _ ← CALLBACK_DATA url;
    brk
  else url_char ch.

(* sylar/http/http-parser/http_parser.c:1089-1196, http_parser_execute *)
Definition case_req_http (s : state) (ch : ascii) : M next :=
  match s with
  | s_req_http_start =>
      x ← ask;
      if ch =c " " then brk
      else if ch =c "H" then go s_req_http_H
      else if ch =c "I" && bool_decide (method (prs x) = HTTP_SOURCE) then go s_req_http_I
      else stop HPE_INVALID_CONSTANT
  | s_req_http_H => expect "T" s_req_http_HT ch
  | s_req_http_HT => expect "T" s_req_http_HTT ch
  | s_req_http_HTT => expect "P" s_req_http_HTTP ch
  | s_req_http_I => expect "C" s_req_http_IC ch
  | s_req_http_IC => expect "E" s_req_http_HTTP ch
  | s_req_http_HTTP => expect "/" s_req_http_major ch
  | s_req_http_major =>
      if negb (IS_NUM ch) then stop HPE_INVALID_VERSION
      else _ ← upd_prs (set_http_major (digit ch)); go s_req_http_dot
  | s_req_http_dot =>
      if negb (ch =c ".") then stop HPE_INVALID_VERSION else go s_req_http_minor
  | s_req_http_minor =>
      if negb (IS_NUM ch) then stop HPE_INVALID_VERSION
      else _ ← upd_prs (set_http_minor (digit ch)); go s_req_http_end
  | s_req_http_end =>
      if ch =c CR then go s_req_line_almost_done
      else if ch =c LF then go s_header_field_start
      else stop HPE_INVALID_VERSION
  | _ => (* s_req_line_almost_done *)
      if negb (ch =c LF) then stop HPE_LF_EXPECTED else go s_header_field_start
  end.

(* ------------------------------------------------------------------ *)
(** ** Headers *)

(* sylar/http/http-parser/http_parser.c:1198-1246, http_parser_execute *)
Definition case_header_field_start (ch : ascii) : M next :=
  if ch =c CR then go s_headers_almost_done
  else if ch =c LF then _ ← UPDATE_STATE s_headers_almost_done; re ch
  else
    let c := TOKEN ch in
    if c =c NUL then stop HPE_INVALID_HEADER_TOKEN
    else
      _ ← MARK header_field;
      _ ← upd_prs (set_index 0);
      _ ← UPDATE_STATE s_header_field;
      _ ← upd_prs (set_header_state
            (if c =c "c" then h_C
             else if c =c "p" then h_matching_proxy_connection
             else if c =c "t" then h_matching_transfer_encoding
             else if c =c "u" then h_matching_upgrade
             else h_general));
      brk.

(* sylar/http/http-parser/http_parser.c:149-156, CONNECTION *)
Definition PROXY_CONNECTION : bytes := B "proxy-connection".
Definition CONNECTION : bytes := B "connection".
Definition CONTENT_LENGTH : bytes := B "content-length".
Definition TRANSFER_ENCODING : bytes := B "transfer-encoding".
Definition UPGRADE : bytes := B "upgrade".
Definition CHUNKED : bytes := B "chunked".
Definition KEEP_ALIVE : bytes := B "keep-alive".
Definition CLOSE : bytes := B "close".

(** [parser->index++] and the comparison of [c] with the word [w]:
    [sizeof(W)] counts the NUL. *)
Definition match_word (w : bytes) (i : Z) (c : ascii) (matching no yes : header_states)
    : header_states :=
  let n := Z.of_nat (length w) in
  if (n <? i) || negb (c =c (nth (Z.to_nat i) w NUL)) then no
  else if i =? n - 1 then yes
  else matching.

(** [while (p+1 < pe && TOKEN(p[1])) p++] *)
Fixpoint skip_token (fuel p pe : nat) : nat :=
  match fuel with
  | O => p
  | S f => if (S p <? pe)%nat && negb (TOKEN (at_p (S p)) =c NUL) then skip_token f (S p) pe
           else p
  end.

(** [p + MIN(left, max_header_size)] *)
Definition end_of_run (p : nat) : nat :=
  (p + Z.to_nat (Z.min (Z.of_nat (len - p)) max_header_size))%nat.

(** The inner switch, for the token character [ch] at [p]. *)
(* sylar/http/http-parser/http_parser.c:1258-1363, http_parser_execute *)
Definition header_field_char (c ch : ascii) : M unit :=
  x ← ask;
  let h := header_state (prs x) in
  let matching w yes :=
    _ ← next_index;
    x ← ask;
    upd_prs (set_header_state (match_word w (index (prs x)) c h h_general yes)) in
  match h with
  | h_general => upd (λ x, set_pos (skip_token len (pos x) (end_of_run (pos x))) x)
  | h_C => _ ← next_index; upd_prs (set_header_state (if c =c "o" then h_CO else h_general))
  | h_CO => _ ← next_index; upd_prs (set_header_state (if c =c "n" then h_CON else h_general))
  | h_CON =>
      _ ← next_index;
      upd_prs (set_header_state (if c =c "n" then h_matching_connection
                                 else if c =c "t" then h_matching_content_length
                                 else h_general))
  | h_matching_connection => matching CONNECTION h_connection
  | h_matching_proxy_connection => matching PROXY_CONNECTION h_connection
  | h_matching_content_length => matching CONTENT_LENGTH h_content_length
  | h_matching_transfer_encoding => matching TRANSFER_ENCODING h_transfer_encoding
  | h_matching_upgrade => matching UPGRADE h_upgrade
  | h_connection | h_content_length | h_transfer_encoding | h_upgrade =>
      if ch =c " " then mret tt else upd_prs (set_header_state h_general)
  | _ => ASSERT false
  end.

(** The loop over the name; the character that ends it, if the input goes
    that far. *)
Fixpoint header_field_loop (fuel : nat) : M (option ascii) :=
  match fuel with
  | O => λ x, (Fault no_fuel, x)
  | S f =>
      x ← ask;
      if (pos x =? len)%nat then mret None
      else
        let ch := at_p (pos x) in
        let c := TOKEN ch in
        if c =c NUL then mret (Some ch)
        else
          _ ← header_field_char c ch;
          _ ← upd (λ x, set_pos (S (pos x)) x);
          header_field_loop f
  end.

(* sylar/http/http-parser/http_parser.c:1248-1382, http_parser_execute *)
Definition case_header_field : M next :=
  x ← ask;
  let start := pos x in
  found ← header_field_loop (S len);
  match found with
  | None =>
      _ ← upd (λ x, set_pos (pos x - 1) x);
      x ← ask;
      _ ← COUNT_HEADER_SIZE (Z.of_nat (pos x - start));
      brk
  | Some ch =>
      x ← ask;
      _ ← COUNT_HEADER_SIZE (Z.of_nat (pos x - start));
      if ch =c ":" then
        _ ← UPDATE_STATE s_header_value_discard_ws; _ ← CALLBACK_DATA header_field; brk
      else stop HPE_INVALID_HEADER_TOKEN
  end.

(* sylar/http/http-parser/http_parser.c:1399-1467, http_parser_execute *)
Definition case_header_value_start (ch : ascii) : M next :=
  _ ← MARK header_value;
  _ ← UPDATE_STATE s_header_value;
  _ ← upd_prs (set_index 0);
  let c := LOWER ch in
  x ← ask;
  match header_state (prs x) with
  | h_upgrade =>
      _ ← upd_prs (λ q, set_header_state h_general (set_flags (Z.lor (flags q) F_UPGRADE) q));
      brk
  | h_transfer_encoding =>
      _ ← upd_prs (set_header_state
            (if c =c "c" then h_matching_transfer_encoding_chunked else h_general));
      brk
  | h_content_length =>
      if negb (IS_NUM ch) then stop HPE_INVALID_CONTENT_LENGTH
      else if has (flags (prs x)) F_CONTENTLENGTH then stop HPE_UNEXPECTED_CONTENT_LENGTH
      else
        _ ← upd_prs (λ q, set_flags (Z.lor (flags q) F_CONTENTLENGTH) q);
        _ ← upd_prs (set_content_length (digit ch));
        _ ← upd_prs (set_header_state h_content_length_num);
        brk
  | h_content_length_ws => brk
  | h_connection =>
      _ ← upd_prs (set_header_state
            (if c =c "k" then h_matching_connection_keep_alive
             else if c =c "c" then h_matching_connection_close
             else if c =c "u" then h_matching_connection_upgrade
             else h_matching_connection_token));
      brk
  | h_matching_connection_token_start => brk
  | _ => _ ← upd_prs (set_header_state h_general); brk
  end.

(* sylar/http/http-parser/http_parser.c:1384-1397, http_parser_execute *)
Definition case_header_value_discard_ws (ch : ascii) : M next :=
  if ch =c " " || ch =c TAB then brk
  else if ch =c CR then go s_header_value_discard_ws_almost_done
  else if ch =c LF then go s_header_value_discard_lws
  else case_header_value_start ch.

Definition lenient (x : run) : bool := lenient_http_headers (prs x).

(** [for (; p != pe; p++)] over an ordinary value: where it stops, or the
    place of a character that is not allowed. *)
Fixpoint skip_value (fuel : nat) (len_ok : bool) (p pe : nat) : nat + nat :=
  match fuel with
  | O => inl p
  | S f =>
      if (p =? pe)%nat then inl p
      else
        let ch := at_p p in
        if is_nl ch then inl (p - 1)%nat
        else if negb len_ok && negb (IS_HEADER_CHAR ch) then inr p
        else skip_value f len_ok (S p) pe
  end.

Definition set_flag (f : Z) : M unit := upd_prs (λ q, set_flags (Z.lor (flags q) f) q).

(** [content_length_num] on a character that is not a space. *)
Definition content_length_digit (h : header_states) (ch : ascii) : M header_states :=
  let bad := _ ← SET_ERRNO HPE_INVALID_CONTENT_LENGTH;
             _ ← upd_prs (set_header_state h); _ ← error; mret h in
  if negb (IS_NUM ch) then bad
  else
    x ← ask;
    let t := u64 (u64 (content_length (prs x) * 10) + digit ch) in
    if (ULLONG_MAX - 10) / 10 <? content_length (prs x) then bad
    else _ ← upd_prs (set_content_length t); mret h.

(** The inner switch of the value, for the character [ch] at [p]: the new
    [h_state]. *)
(* sylar/http/http-parser/http_parser.c:1497-1659, http_parser_execute *)
Definition header_value_char (h : header_states) (c ch : ascii) : M header_states :=
  let matching w no yes :=
    _ ← next_index;
    x ← ask;
    mret (match_word w (index (prs x)) c h no yes) in
  match h with
  | h_general =>
      x ← ask;
      match skip_value (S len) (lenient x) (pos x) (end_of_run (pos x)) with
      | inr p => _ ← upd (set_pos p); _ ← fail HPE_INVALID_HEADER_TOKEN; mret h
      | inl p => _ ← upd (set_pos (if (p =? len)%nat then (p - 1)%nat else p)); mret h
      end
  | h_connection | h_transfer_encoding => _ ← ASSERT false; mret h
  | h_content_length =>
      if ch =c " " then mret h else content_length_digit h_content_length_num ch
  | h_content_length_num =>
      if ch =c " " then mret h_content_length_ws else content_length_digit h_content_length_num ch
  | h_content_length_ws =>
      if ch =c " " then mret h
      else
        _ ← SET_ERRNO HPE_INVALID_CONTENT_LENGTH;
        _ ← upd_prs (set_header_state h); _ ← error; mret h
  | h_matching_transfer_encoding_chunked => matching CHUNKED h_general h_transfer_encoding_chunked
  | h_matching_connection_token_start =>
      mret (if c =c "k" then h_matching_connection_keep_alive
            else if c =c "c" then h_matching_connection_close
            else if c =c "u" then h_matching_connection_upgrade
            else if negb (STRICT_TOKEN c =c NUL) then h_matching_connection_token
            else if c =c " " || c =c TAB then h
            else h_general)
  | h_matching_connection_keep_alive =>
      matching KEEP_ALIVE h_matching_connection_token h_connection_keep_alive
  | h_matching_connection_close =>
      matching CLOSE h_matching_connection_token h_connection_close
  | h_matching_connection_upgrade =>
      matching UPGRADE h_matching_connection_token h_connection_upgrade
  | h_matching_connection_token =>
      if ch =c "," then _ ← upd_prs (set_index 0); mret h_matching_connection_token_start
      else mret h
  | h_transfer_encoding_chunked => mret (if ch =c " " then h else h_general)
  | h_connection_keep_alive | h_connection_close | h_connection_upgrade =>
      if ch =c "," then
        _ ← set_flag (match h with
                      | h_connection_keep_alive => F_CONNECTION_KEEP_ALIVE
                      | h_connection_close => F_CONNECTION_CLOSE
                      | _ => F_CONNECTION_UPGRADE
                      end);
        _ ← upd_prs (set_index 0);
        mret h_matching_connection_token_start
      else mret (if ch =c " " then h else h_matching_connection_token)
  | _ => _ ← UPDATE_STATE s_header_value; mret h_general
  end.

(** How the loop over the value ends: at the end of the input or at the
    [CR], or at the [LF]. *)
Inductive value_end := Ended (h : header_states) | AtLF.

(* sylar/http/http-parser/http_parser.c:1473-1495, http_parser_execute *)
Fixpoint header_value_loop (fuel start : nat) (h : header_states) : M value_end :=
  match fuel with
  | O => λ x, (Fault no_fuel, x)
  | S f =>
      x ← ask;
      if (pos x =? len)%nat then mret (Ended h)
      else
        let ch := at_p (pos x) in
        if ch =c CR then
          _ ← UPDATE_STATE s_header_almost_done;
          _ ← upd_prs (set_header_state h);
          _ ← CALLBACK_DATA header_value;
          mret (Ended h)
        else if ch =c LF then
          _ ← UPDATE_STATE s_header_almost_done;
          _ ← COUNT_HEADER_SIZE (Z.of_nat (pos x - start));
          _ ← upd_prs (set_header_state h);
          _ ← CALLBACK_DATA_NOADVANCE header_value;
          mret AtLF
        else if negb (lenient x) && negb (IS_HEADER_CHAR ch) then
          _ ← fail HPE_INVALID_HEADER_TOKEN; mret AtLF
        else
          h' ← header_value_char h (LOWER ch) ch;
          _ ← upd (λ x, set_pos (S (pos x)) x);
          header_value_loop f start h'
  end.

(* sylar/http/http-parser/http_parser.c:1469-1668, http_parser_execute *)
Definition case_header_value : M next :=
  x ← ask;
  let start := pos x in
  r ← header_value_loop (S len) start (header_state (prs x));
  match r with
  | AtLF => re LF
  | Ended h =>
      _ ← upd_prs (set_header_state h);
      _ ← upd (λ x, if (pos x =? len)%nat then set_pos (pos x - 1) x else x);
      x ← ask;
      _ ← COUNT_HEADER_SIZE (Z.of_nat (pos x - start));
      brk
  end.

(** What a finished header means for the message. *)
Definition header_flags (h : header_states) : M unit :=
  match h with
  | h_connection_keep_alive => set_flag F_CONNECTION_KEEP_ALIVE
  | h_connection_close => set_flag F_CONNECTION_CLOSE
  | h_transfer_encoding_chunked => set_flag F_CHUNKED
  | h_connection_upgrade => set_flag F_CONNECTION_UPGRADE
  | _ => mret tt
  end.

(* sylar/http/http-parser/http_parser.c:1670-1755, http_parser_execute *)
Definition case_header_lws (s : state) (ch : ascii) : M next :=
  match s with
  | s_header_almost_done =>
      if negb (ch =c LF) then stop HPE_LF_EXPECTED else go s_header_value_lws
  | s_header_value_lws =>
      x ← ask;
      if ch =c " " || ch =c TAB then
        _ ← (if bool_decide (header_state (prs x) = h_content_length_num)
             then upd_prs (set_header_state h_content_length_ws) else mret tt);
        _ ← UPDATE_STATE s_header_value_start;
        re ch
      else
        _ ← header_flags (header_state (prs x));
        _ ← UPDATE_STATE s_header_field_start;
        re ch
  | s_header_value_discard_ws_almost_done => expect LF s_header_value_discard_lws ch
  | _ => (* s_header_value_discard_lws *)
      if ch =c " " || ch =c TAB then go s_header_value_discard_ws
      else
        x ← ask;
        _ ← (if bool_decide (header_state (prs x) = h_content_length)
             then fail HPE_INVALID_CONTENT_LENGTH else header_flags (header_state (prs x)));
        _ ← MARK header_value;
        _ ← UPDATE_STATE s_header_field_start;
        _ ← CALLBACK_DATA_NOADVANCE header_value;
        re ch
  end.

(* ------------------------------------------------------------------ *)
(** ** End of the headers *)

(** The call of [on_headers_complete]. *)
(* sylar/http/http-parser/http_parser.c:1800-1821, http_parser_execute *)
Definition call_headers_complete : M unit :=
  x ← ask;
  _ ← match on_notify stg headers_complete with
      | None => mret tt
      | Some cb =>
          let r := cb (prs x) (user x) in
          _ ← upd (λ x, set_user r.2.2 (set_prs r.2.1 x));
          if r.1 =? 0 then mret tt
          else if r.1 =? 2 then _ ← upd_prs (set_upgrade true); set_flag F_SKIPBODY
          else if r.1 =? 1 then set_flag F_SKIPBODY
          else _ ← SET_ERRNO HPE_CB_headers_complete; RETURN (Z.of_nat (pos x))
      end;
  x ← ask;
  if bool_decide (errno (prs x) = HPE_OK) then mret tt else RETURN (Z.of_nat (pos x)).

(* sylar/http/http-parser/http_parser.c:1757-1824, http_parser_execute *)
Definition case_headers_almost_done (ch : ascii) : M next :=
  _ ← STRICT_CHECK (negb (ch =c LF));
  x ← ask;
  if has (flags (prs x)) F_TRAILING then
    _ ← UPDATE_STATE s_message_done;
    _ ← CALLBACK_NOTIFY_NOADVANCE chunk_complete;
    re ch
  else if has (flags (prs x)) F_CHUNKED && has (flags (prs x)) F_CONTENTLENGTH then
    stop HPE_UNEXPECTED_CONTENT_LENGTH
  else
    _ ← UPDATE_STATE s_headers_done;
    _ ← upd_prs (λ q, set_upgrade
          (if has (flags q) F_UPGRADE && has (flags q) F_CONNECTION_UPGRADE
           then bool_decide (type q = HTTP_REQUEST) || (status_code q =? 101)
           else bool_decide (method q = HTTP_CONNECT)) q);
    _ ← call_headers_complete;
    re ch.

(** The message is complete: on to the next one. *)
Definition finish_message : M unit :=
  x ← ask;
  _ ← UPDATE_STATE (NEW_MESSAGE (prs x));
  CALLBACK_NOTIFY message_complete.

Definition reset_nread : M unit := upd (λ x, set_cnt 0 (set_prs (set_nread 0 (prs x)) x)).

(* sylar/http/http-parser/http_parser.c:1826-1871, http_parser_execute *)
Definition case_headers_done (ch : ascii) : M next :=
  _ ← STRICT_CHECK (negb (ch =c LF));
  _ ← reset_nread;
  x ← ask;
  let q := prs x in
  let hasBody := has (flags q) F_CHUNKED
                 || ((0 <? content_length q) && negb (content_length q =? ULLONG_MAX)) in
  if upgrade q && (bool_decide (method q = HTTP_CONNECT) || has (flags q) F_SKIPBODY || negb hasBody)
  then _ ← finish_message; _ ← RETURN (Z.of_nat (pos x) + 1); brk
  else if has (flags q) F_SKIPBODY then _ ← finish_message; brk
  else if has (flags q) F_CHUNKED then go s_chunk_size_start
  else if content_length q =? 0 then _ ← finish_message; brk
  else if negb (content_length q =? ULLONG_MAX) then go s_body_identity
  else if negb (http_message_needs_eof q) then _ ← finish_message; brk
  else go s_body_identity_eof.

(* ------------------------------------------------------------------ *)
(** ** The body *)

(** [MIN(content_length, data + len - p)] bytes of body from [p] on; [p]
    is left on the last of them. *)
Definition take_body : M unit :=
  x ← ask;
  _ ← ASSERT (negb (content_length (prs x) =? 0) && negb (content_length (prs x) =? ULLONG_MAX));
  _ ← MARK body;
  let to_read := Z.min (content_length (prs x)) (Z.of_nat (len - pos x)) in
  _ ← upd_prs (λ q, set_content_length (content_length q - to_read) q);
  upd (λ x, set_pos (pos x + Z.to_nat (to_read - 1)) x).

(* sylar/http/http-parser/http_parser.c:1873-1907, http_parser_execute *)
Definition case_body_identity (ch : ascii) : M next :=
  _ ← take_body;
  x ← ask;
  if content_length (prs x) =? 0 then
    _ ← UPDATE_STATE s_message_done;
    _ ← CALLBACK_DATA_ body (S (pos x)) (Z.of_nat (pos x));
    re ch
  else brk.

(* sylar/http/http-parser/http_parser.c:1909-1914, http_parser_execute *)
Definition case_body_identity_eof : M next :=
  _ ← MARK body; _ ← upd (set_pos (len - 1)); brk.

(* sylar/http/http-parser/http_parser.c:1916-1923, http_parser_execute *)
Definition case_message_done : M next :=
  _ ← finish_message;
  x ← ask;
  if upgrade (prs x) then _ ← RETURN (Z.of_nat (pos x) + 1); brk else brk.

Definition assert_chunked : M unit := x ← ask; ASSERT (has (flags (prs x)) F_CHUNKED).

(* sylar/http/http-parser/http_parser.c:1925-1939, http_parser_execute *)
Definition case_chunk_size_start (ch : ascii) : M next :=
  x ← ask;
  _ ← ASSERT (cnt x =? 1);
  _ ← assert_chunked;
  if unhex ch =? -1 then stop HPE_INVALID_CHUNK_SIZE
  else
    _ ← upd_prs (set_content_length (unhex ch));
    go s_chunk_size.

(* sylar/http/http-parser/http_parser.c:1941-1976, http_parser_execute *)
Definition case_chunk_size (ch : ascii) : M next :=
  _ ← assert_chunked;
  if ch =c CR then go s_chunk_size_almost_done
  else if unhex ch =? -1 then
    if ch =c ";" || ch =c " " then go s_chunk_parameters else stop HPE_INVALID_CHUNK_SIZE
  else
    x ← ask;
    let t := u64 (u64 (content_length (prs x) * 16) + unhex ch) in
    if (ULLONG_MAX - 16) / 16 <? content_length (prs x) then stop HPE_INVALID_CONTENT_LENGTH
    else _ ← upd_prs (set_content_length t); brk.

(* sylar/http/http-parser/http_parser.c:1978-2005, http_parser_execute *)
Definition case_chunk_header (s : state) (ch : ascii) : M next :=
  _ ← assert_chunked;
  match s with
  | s_chunk_parameters => if ch =c CR then go s_chunk_size_almost_done else brk
  | _ => (* s_chunk_size_almost_done *)
      _ ← STRICT_CHECK (negb (ch =c LF));
      _ ← reset_nread;
      x ← ask;
      _ ← (if content_length (prs x) =? 0 then
             _ ← set_flag F_TRAILING; UPDATE_STATE s_header_field_start
           else UPDATE_STATE s_chunk_data);
      _ ← CALLBACK_NOTIFY chunk_header;
      brk
  end.

(* sylar/http/http-parser/http_parser.c:2007-2045, http_parser_execute *)
Definition case_chunk_data (s : state) (ch : ascii) : M next :=
  _ ← assert_chunked;
  match s with
  | s_chunk_data =>
      _ ← take_body;
      x ← ask;
      if content_length (prs x) =? 0 then go s_chunk_data_almost_done else brk
  | s_chunk_data_almost_done =>
      x ← ask;
      _ ← ASSERT (content_length (prs x) =? 0);
      _ ← STRICT_CHECK (negb (ch =c CR));
      _ ← UPDATE_STATE s_chunk_data_done;
      _ ← CALLBACK_DATA body;
      brk
  | _ => (* s_chunk_data_done *)
      _ ← STRICT_CHECK (negb (ch =c LF));
      _ ← reset_nread;
      _ ← UPDATE_STATE s_chunk_size_start;
      _ ← CALLBACK_NOTIFY chunk_complete;
      brk
  end.

(* ------------------------------------------------------------------ *)
(** ** The switch, the loop, the function *)

(* sylar/http/http-parser/http_parser.c:713-715, http_parser_execute *)
Definition switch (s : state) (ch : ascii) : M next :=
  match s with
  | s_dead => case_dead ch
  | s_start_req_or_res => case_start_req_or_res ch
  | s_res_or_resp_H => case_res_or_resp_H ch
  | s_start_res => case_start_res ch
  | s_res_H | s_res_HT | s_res_HTT | s_res_HTTP | s_res_http_major | s_res_http_dot
  | s_res_http_minor | s_res_http_end => case_res_version s ch
  | s_res_first_status_code | s_res_status_code | s_res_status_start | s_res_status
  | s_res_line_almost_done => case_res_status s ch
  | s_start_req => case_start_req ch
  | s_req_method => case_req_method ch
  | s_req_spaces_before_url => case_req_spaces_before_url ch
  | s_req_schema | s_req_schema_slash | s_req_schema_slash_slash | s_req_server_start =>
      case_req_schema ch
  | s_req_server | s_req_server_with_at | s_req_path | s_req_query_string_start
  | s_req_query_string | s_req_fragment_start | s_req_fragment => case_req_url ch
  | s_req_http_start | s_req_http_H | s_req_http_HT | s_req_http_HTT | s_req_http_HTTP
  | s_req_http_I | s_req_http_IC | s_req_http_major | s_req_http_dot | s_req_http_minor
  | s_req_http_end | s_req_line_almost_done => case_req_http s ch
  | s_header_field_start => case_header_field_start ch
  | s_header_field => case_header_field
  | s_header_value_discard_ws => case_header_value_discard_ws ch
  | s_header_value_start => case_header_value_start ch
  | s_header_value => case_header_value
  | s_header_almost_done | s_header_value_lws | s_header_value_discard_ws_almost_done
  | s_header_value_discard_lws => case_header_lws s ch
  | s_headers_almost_done => case_headers_almost_done ch
  | s_headers_done => case_headers_done ch
  | s_body_identity => case_body_identity ch
  | s_body_identity_eof => case_body_identity_eof
  | s_message_done => case_message_done
  | s_chunk_size_start => case_chunk_size_start ch
  | s_chunk_size => case_chunk_size ch
  | s_chunk_parameters | s_chunk_size_almost_done => case_chunk_header s ch
  | s_chunk_data | s_chunk_data_almost_done | s_chunk_data_done => case_chunk_data s ch
  end.

(** [reexecute:] up to the end of the loop body.  No chain of re-executed
    states is longer than five. *)
Fixpoint reexecute (fuel : nat) (ch : ascii) : M unit :=
  match fuel with
  | O => λ x, (Fault no_fuel, x)
  | S f =>
      x ← ask;
      r ← switch (st x) ch;
      match r with
      | Break => mret tt
      | Reexecute ch' => reexecute f ch'
      end
  end.

(* sylar/http/http-parser/http_parser.c:707-712, http_parser_execute *)
Fixpoint main_loop (fuel : nat) : M unit :=
  match fuel with
  | O => λ x, (Fault no_fuel, x)
  | S f =>
      x ← ask;
      if (pos x =? len)%nat then mret tt
      else
        let ch := at_p (pos x) in
        _ ← (if PARSING_HEADER (st x) then COUNT_HEADER_SIZE 1 else mret tt);
        _ ← reexecute 6 ch;
        _ ← upd (λ x, set_pos (S (pos x)) x);
        main_loop f
  end.

(** The marks a call starts with: the previous one may have stopped in
    the middle. *)
(* sylar/http/http-parser/http_parser.c:682-705, http_parser_execute *)
Definition initial_marks (s : state) : list (data_cb * nat) :=
  match s with
  | s_header_field => [(header_field, 0%nat)]
  | s_header_value => [(header_value, 0%nat)]
  | s_req_path | s_req_schema | s_req_schema_slash | s_req_schema_slash_slash
  | s_req_server_start | s_req_server | s_req_server_with_at | s_req_query_string_start
  | s_req_query_string | s_req_fragment_start | s_req_fragment => [(url, 0%nat)]
  | s_res_status => [(status, 0%nat)]
  | _ => []
  end.

(** After the loop. *)
(* sylar/http/http-parser/http_parser.c:2054-2076, http_parser_execute *)
Definition leftover : M unit :=
  x ← ask;
  _ ← ASSERT (length (marks x) <=? 1)%nat;
  _ ← CALLBACK_DATA_NOADVANCE header_field;
  _ ← CALLBACK_DATA_NOADVANCE header_value;
  _ ← CALLBACK_DATA_NOADVANCE url;
  _ ← CALLBACK_DATA_NOADVANCE body;
  _ ← CALLBACK_DATA_NOADVANCE status;
  RETURN (Z.of_nat len).

(** Without input: the end of the stream. *)
(* sylar/http/http-parser/http_parser.c:660-679, http_parser_execute *)
Definition at_eof : M unit :=
  x ← ask;
  match st x with
  | s_body_identity_eof => _ ← CALLBACK_NOTIFY_NOADVANCE message_complete; ret 0
  | s_dead | s_start_req_or_res | s_start_res | s_start_req => ret 0
  | _ => _ ← SET_ERRNO HPE_INVALID_EOF_STATE; ret 1
  end.

(* sylar/http/http-parser/http_parser.c:655-660, http_parser_execute *)
Definition execute_body : M unit :=
  x ← ask;
  if negb (bool_decide (errno (prs x) = HPE_OK)) then ret 0
  else if (len =? 0)%nat then at_eof
  else
    _ ← upd (λ x, set_marks (initial_marks (st x)) x);
    _ ← main_loop (S len);
    leftover.

(** The label [error]. *)
(* sylar/http/http-parser/http_parser.c:2078-2084, http_parser_execute *)
Definition at_error : M unit :=
  x ← ask;
  _ ← (if bool_decide (errno (prs x) = HPE_OK) then SET_ERRNO HPE_UNKNOWN else mret tt);
  x ← ask;
  RETURN (Z.of_nat (pos x)).

(* sylar/http/http-parser/http_parser.c:638-653, http_parser_execute *)
Definition http_parser_execute (q : http_parser) (u : U) : outcome (Z * (http_parser * U)) :=
  let x := mkRun q (p_state q) (nread q) 0 [] u in
  let '(r, x) := match execute_body x with (Error, x) => at_error x | rx => rx end in
  match r with
  | Return n => Ret (n, (prs x, user x))
  | Fault f => Crash f
  | _ => Crash no_fuel
  end.
End exec.

(** The static [max_header_size] is the argument of [http_parser_execute]. *)
(* sylar/http/http-parser/http_parser.c:2495-2498, http_parser_set_max_header_size *)
Definition http_parser_set_max_header_size (size : Z) : stE Z unit := modify (λ _, u32 size).

(* sylar/http/http-parser/http_parser.c:2488-2493, http_parser_version *)
Definition http_parser_version : Z := Z.lor (Z.lor (2 * 0x10000) (9 * 0x00100)) (2 * 0x00001).
