(* ===== verification/HttpParserSafety.v ===== *)
(** * The parser never fails an assertion

    A weakest precondition for the pieces of [http_parser_execute], the
    invariant of its loop, and the theorem that every call on a parser in
    a good state returns, consumes no more than its input and leaves the
    parser in a good state. *)
From S2P Require Import Prelude HttpParser HttpParserExec.

Local Open Scope Z_scope.

(* ------------------------------------------------------------------ *)
(** ** Good states *)

(** What the matching of a header name may be in. *)
Definition name_state (h : header_states) : bool :=
  match h with
  | h_general | h_C | h_CO | h_CON | h_matching_connection | h_matching_proxy_connection
  | h_matching_content_length | h_matching_transfer_encoding | h_matching_upgrade
  | h_connection | h_content_length | h_transfer_encoding | h_upgrade => true
  | _ => false
  end.

(** What the matching of a header value may not be in. *)
Definition value_state (h : header_states) : bool :=
  match h with h_connection | h_transfer_encoding => false | _ => true end.

(** What each state relies on; [c] is the count of header bytes. *)
Definition state_ok (s : state) (k : Z) (q : http_parser) (c : Z) : Prop :=
  match s with
  | s_req_method => 0 <= index q <= Z.of_nat (length (method_strings (method q)))
  | s_header_field => name_state (header_state q) = true
  | s_header_value => value_state (header_state q) = true
  | s_body_identity => content_length q ≠ 0 ∧ content_length q ≠ ULLONG_MAX
  | s_chunk_size_start => has (flags q) F_CHUNKED = true ∧ c = k
  | s_chunk_size | s_chunk_parameters | s_chunk_size_almost_done =>
      has (flags q) F_CHUNKED = true ∧ content_length q < ULLONG_MAX
  | s_chunk_data =>
      has (flags q) F_CHUNKED = true ∧ content_length q ≠ 0 ∧ content_length q ≠ ULLONG_MAX
  | s_chunk_data_almost_done => has (flags q) F_CHUNKED = true ∧ content_length q = 0
  | s_chunk_data_done => has (flags q) F_CHUNKED = true
  | _ => True
  end.

Definition good (q : http_parser) : Prop :=
  in_u 64 (content_length q) ∧ state_ok (p_state q) 0 q (nread q).

(** The mark a state may have set. *)
Definition mark_of (s : state) : option data_cb :=
  match s with
  | s_header_field => Some header_field
  | s_header_value => Some header_value
  | s_req_path | s_req_schema | s_req_schema_slash | s_req_schema_slash_slash
  | s_req_server_start | s_req_server | s_req_server_with_at | s_req_query_string_start
  | s_req_query_string | s_req_fragment_start | s_req_fragment => Some url
  | s_res_status => Some status
  | s_body_identity | s_body_identity_eof | s_chunk_data | s_chunk_data_almost_done => Some body
  | _ => None
  end.

Definition marks_ok (s : state) (l : list (data_cb * nat)) : Prop :=
  match l with
  | [] => True
  | [m] => mark_of s = Some m.1
  | _ => False
  end.

Section safety.
Context {U : Type} (stg : @settings U) (max : Z) (data : bytes).
Implicit Types (x : @run U) (q : http_parser).

(** Callbacks may do what they like with their own state and may pause
    the parser, but leave the rest of it alone. *)
Definition tame_result q (r : Z * (http_parser * U)) : Prop :=
  r.2.1 = q ∨ r.2.1 = set_errno HPE_PAUSED q.
Record tame : Prop := {
  tame_data f cb q d u : on_data stg f = Some cb → tame_result q (cb q d u);
  tame_notify f cb q u : on_notify stg f = Some cb → tame_result q (cb q u)
}.
Context (Ht : tame).

Definition inv (k : Z) x : Prop :=
  errno (prs x) = HPE_OK ∧ in_u 64 (content_length (prs x)) ∧
  state_ok (st x) k (prs x) (cnt x) ∧ marks_ok (st x) (marks x).

(** An early return, and [goto error]. *)
Definition returned (n : Z) x : Prop :=
  0 <= n <= Z.of_nat (len data) ∧
  (errno (prs x) = HPE_OK ∨ errno (prs x) = HPE_PAUSED → good (prs x)).
Definition failed x : Prop :=
  (pos x ≤ len data)%nat ∧ errno (prs x) ≠ HPE_OK ∧ errno (prs x) ≠ HPE_PAUSED.

Definition wp {A} (m : @M U A) (Q : A → run → Prop) x : Prop :=
  match m x with
  | (Go _ a, x') => Q a x'
  | (Return _ n, x') => returned n x'
  | (Error _, x') => failed x'
  | (Fault _ _, _) => False
  end.

Lemma wp_bind {A C} (m : M A) (f : A → M C) (Q : C → run → Prop) x :
  wp m (λ a, wp (f a) Q) x → wp (m ≫= f) Q x.
Proof. unfold wp, mbind, M_bind. by destruct (m x) as [[] ?]. Qed.

Lemma wp_return n (Q : unit → run → Prop) x : returned n x → wp (ret n) Q x.
Proof. done. Qed.

Lemma wp_mono {A} (m : M A) (Q R : A → run → Prop) x :
  wp m Q x → (∀ a x', Q a x' → R a x') → wp m R x.
Proof. unfold wp. destruct (m x) as [[] ?]; auto. Qed.

Lemma wp_ret {A} (a : A) (Q : A → run → Prop) x : Q a x → wp (mret a) Q x.
Proof. done. Qed.
Lemma wp_ask (Q : run → run → Prop) x : Q x x → wp ask Q x.
Proof. done. Qed.
Lemma wp_upd g (Q : unit → run → Prop) x : Q tt (g x) → wp (upd g) Q x.
Proof. done. Qed.
Lemma wp_prs g (Q : unit → run → Prop) x : Q tt (set_prs (g (prs x)) x) → wp (upd_prs g) Q x.
Proof. done. Qed.
Lemma wp_state s (Q : unit → run → Prop) x : Q tt (set_st s x) → wp (UPDATE_STATE s) Q x.
Proof. done. Qed.
Lemma wp_assert b (Q : unit → run → Prop) x : b = true → Q tt x → wp (ASSERT b) Q x.
Proof. by intros ->. Qed.

(** Setting the error and leaving. *)
Lemma wp_fail e (Q : unit → run → Prop) x :
  e ≠ HPE_OK → e ≠ HPE_PAUSED → (pos x ≤ len data)%nat → wp (fail e) Q x.
Proof. intros. split_and!; done. Qed.

Lemma wp_stop e (Q : next → run → Prop) x :
  e ≠ HPE_OK → e ≠ HPE_PAUSED → (pos x ≤ len data)%nat → wp (stop e) Q x.
Proof. intros. split_and!; done. Qed.

Lemma wp_go s (Q : next → run → Prop) x : Q Break (set_st s x) → wp (go s) Q x.
Proof. done. Qed.

Lemma wp_RETURN n (Q : unit → run → Prop) x :
  0 <= n <= Z.of_nat (len data) → in_u 64 (content_length (prs x)) →
  state_ok (st x) 0 (prs x) (u32 (cnt x)) → wp (RETURN n) Q x.
Proof.
  intros Hn Hc Hs. apply wp_bind, wp_ask, wp_bind, wp_prs, wp_return. split; [done|]. intros _. split; [done|]. cbn. by destruct (st x).
Qed.

(** [COUNT_HEADER_SIZE] either fails or adds to the count. *)
Lemma wp_count v (Q : unit → run → Prop) x :
  (pos x ≤ len data)%nat → Q tt (set_cnt (u32 (cnt x + u32 v)) x) → wp (COUNT_HEADER_SIZE max v) Q x.
Proof.
  intros Hp HQ. unfold COUNT_HEADER_SIZE. apply wp_bind, wp_upd, wp_bind, wp_ask.
  case_match; [|done]. by apply wp_fail.
Qed.

(** After a callback the run goes on as before, up to the user's state and
    the saved state, or the function returns. *)
Lemma wp_after_callback e er r (Q : unit → run → Prop) x :
  tame_result (prs x) r → e ≠ HPE_OK → e ≠ HPE_PAUSED →
  errno (prs x) = HPE_OK → 0 <= er <= Z.of_nat (len data) →
  p_state (prs x) = st x → good (prs x) →
  (Q tt (set_user r.2.2 x)) →
  wp (after_callback e er r) Q x.
Proof.
  intros Hr He Hep Hok Her Hst Hg HQ. unfold after_callback.
  apply wp_bind, wp_upd, wp_bind.
  destruct (r.1 =? 0) eqn:Er.
  - apply wp_ret, wp_bind, wp_ask, wp_bind, wp_state. cbn.
    destruct Hr as [-> | ->]; cbn.
    + rewrite Hok. rewrite bool_decide_eq_true_2 by done. cbn.
      unfold wp, mret, M_ret. rewrite Hst. by destruct x.
    + rewrite bool_decide_eq_false_2 by done. apply wp_return. split; [done|]. intros _. cbn.
      destruct Hg as [Hg1 Hg2]. split; [done|]. cbn. by destruct (p_state (prs x)).
  - unfold SET_ERRNO. apply wp_bind, wp_ask, wp_prs, wp_bind, wp_ask, wp_bind, wp_state. cbn.
    rewrite bool_decide_eq_false_2 by done. apply wp_return. split; [done|]. cbn. by intros [?|?].
Qed.

(** What a run looks like after a callback. *)
Definition same_but_user x x' : Prop :=
  st x' = st x ∧ cnt x' = cnt x ∧ pos x' = pos x ∧ marks x' = marks x ∧
  (prs x' = prs x ∨ prs x' = set_p_state (st x) (prs x)).

Definition can_call x : Prop :=
  errno (prs x) = HPE_OK ∧ in_u 64 (content_length (prs x)) ∧
  state_ok (st x) 0 (prs x) (nread (prs x)).

Lemma wp_notify_ f er (Q : unit → run → Prop) x :
  can_call x → 0 <= er <= Z.of_nat (len data) → (∀ x', same_but_user x x' → Q tt x') →
  wp (CALLBACK_NOTIFY_ stg f er) Q x.
Proof using Ht.
  intros (Hok & Hc & Hs) Her HQ. unfold CALLBACK_NOTIFY_. apply wp_bind, wp_ask, wp_bind.
  apply wp_assert; [by apply bool_decide_eq_true_2|].
  destruct (on_notify stg f) as [cb|] eqn:Ecb; [|apply wp_ret, HQ; by split_and!; try left].
  apply wp_bind, wp_prs, wp_bind, wp_ask.
  apply wp_after_callback; try done; try (by destruct f).
  - by eapply tame_notify.
  - apply HQ. split_and!; try done. by right.
Qed.

Lemma wp_notify f (Q : unit → run → Prop) x :
  can_call x → (pos x < len data)%nat → (∀ x', same_but_user x x' → Q tt x') →
  wp (CALLBACK_NOTIFY stg f) Q x.
Proof using Ht. intros. apply wp_bind, wp_ask, wp_notify_; done || lia. Qed.

Lemma wp_notify_noadvance f (Q : unit → run → Prop) x :
  can_call x → (pos x ≤ len data)%nat → (∀ x', same_but_user x x' → Q tt x') →
  wp (CALLBACK_NOTIFY_NOADVANCE stg f) Q x.
Proof using Ht. intros. apply wp_bind, wp_ask, wp_notify_; done || lia. Qed.

(** A data callback clears its mark, which may be the only one. *)
Definition same_but_mark f x x' : Prop :=
  st x' = st x ∧ cnt x' = cnt x ∧ pos x' = pos x ∧
  (prs x' = prs x ∨ prs x' = set_p_state (st x) (prs x)) ∧
  marks x' = filter (λ m, m.1 ≠ f) (marks x).

Lemma no_mark f x : get_mark f x = None → filter (λ m, m.1 ≠ f) (marks x) = marks x.
Proof.
  unfold get_mark. intros H. apply fmap_None in H.
  induction (marks x) as [|m l IH]; [done|]. cbn in H. case_bool_decide as Hd; [done|].
  rewrite filter_cons_True by done. f_equal. by apply IH.
Qed.

Lemma wp_data_ f to er (Q : unit → run → Prop) x :
  can_call x → 0 <= er <= Z.of_nat (len data) → (∀ x', same_but_mark f x x' → Q tt x') →
  wp (CALLBACK_DATA_ stg data f to er) Q x.
Proof using Ht.
  intros (Hok & Hc & Hs) Her HQ. unfold CALLBACK_DATA_. apply wp_bind, wp_ask, wp_bind.
  apply wp_assert; [by apply bool_decide_eq_true_2|].
  destruct (get_mark f x) as [m|] eqn:Em.
  2:{ apply wp_ret, HQ. split_and!; try done; [by left|]. by rewrite no_mark. }
  apply wp_bind. destruct (on_data stg f) as [cb|] eqn:Ecb.
  - apply wp_bind, wp_prs, wp_bind, wp_ask.
    apply wp_after_callback; try done; try (by destruct f).
    + by eapply tame_data.
    + apply wp_upd, HQ. split_and!; try done. by right.
  - apply wp_ret, wp_upd, HQ. split_and!; try done. by left.
Qed.

Lemma wp_data f (Q : unit → run → Prop) x :
  can_call x → (pos x < len data)%nat → (∀ x', same_but_mark f x x' → Q tt x') →
  wp (CALLBACK_DATA stg data f) Q x.
Proof using Ht. intros. apply wp_bind, wp_ask, wp_data_; done || lia. Qed.

Lemma wp_data_noadvance f (Q : unit → run → Prop) x :
  can_call x → (pos x ≤ len data)%nat → (∀ x', same_but_mark f x x' → Q tt x') →
  wp (CALLBACK_DATA_NOADVANCE stg data f) Q x.
Proof using Ht. intros. apply wp_bind, wp_ask, wp_data_; done || lia. Qed.

Lemma wp_mark f (Q : unit → run → Prop) x :
  (∀ l, (l = marks x ∨ l = (f, pos x) :: marks x ∧ get_mark f x = None) → Q tt (set_marks l x)) →
  wp (MARK f) Q x.
Proof.
  intros HQ. apply wp_bind, wp_ask. destruct (get_mark f x) eqn:E.
  - apply wp_ret. specialize (HQ (marks x) (or_introl eq_refl)). by destruct x.
  - apply wp_upd, HQ. by right.
Qed.

(* ------------------------------------------------------------------ *)
(** ** The cases of the switch *)

(** How far a state is from one that does not re-execute. *)
Definition rank (s : state) : nat :=
  match s with
  | s_start_req_or_res | s_res_status_start | s_header_value | s_headers_almost_done
  | s_body_identity => 1
  | s_res_status_code | s_header_field_start => 2
  | s_header_value_lws | s_header_value_discard_lws => 3
  | _ => 0
  end.

Ltac wp_step :=
  match goal with
  | |- wp (_ ≫= _) _ _ => apply wp_bind
  | |- wp (mret _) _ _ => apply wp_ret
  | |- wp brk _ _ => apply wp_ret
  | |- wp (re _) _ _ => apply wp_ret
  | |- wp ask _ _ => apply wp_ask
  | |- wp (upd _) _ _ => apply wp_upd
  | |- wp (upd_prs _) _ _ => apply wp_prs
  | |- wp new_message _ _ => apply wp_prs
  | |- wp next_index _ _ => apply wp_prs
  | |- wp (set_flag _) _ _ => apply wp_prs
  | |- wp (UPDATE_STATE _) _ _ => apply wp_state
  | |- wp (go _) _ _ => apply wp_go
  | |- wp (stop _) _ _ => apply wp_stop; [done|done|cbn; lia]
  | |- wp (fail _) _ _ => apply wp_fail; [done|done|cbn; lia]
  | |- wp (if ?b then _ else _) _ _ => let E := fresh "E" in destruct b eqn:E
  end; cbn beta zeta.

Section cases.
(** The case starts at [p0] or after it. *)
Context (p0 : nat).

Definition post (s0 : state) (r : next) x : Prop :=
  (p0 <= pos x < len data)%nat ∧
  match r with
  | Break => inv 0 x
  | Reexecute _ => inv 1 x ∧ (rank (st x) < rank s0)%nat
  end.

Record pre (s : state) x : Prop := {
  pre_st : st x = s;
  pre_ok : errno (prs x) = HPE_OK;
  pre_len : in_u 64 (content_length (prs x));
  pre_state : state_ok s 1 (prs x) (cnt x);
  pre_marks : marks_ok s (marks x);
  pre_pos : (p0 <= pos x < len data)%nat
}.

Lemma marks_none s l : mark_of s = None → marks_ok s l → l = [].
Proof. intros H. destruct l as [|m [|]]; [done|..]; cbn; [congruence|done]. Qed.

Lemma marks_cleared s f l : mark_of s = Some f ∨ mark_of s = None → marks_ok s l →
  filter (λ m, m.1 ≠ f) l = [].
Proof.
  intros Hs. destruct l as [|m [|]]; [done|..]; cbn; [|done]. intros Hm.
  destruct Hs as [Hs|Hs]; [|congruence]. rewrite Hs in Hm. injection Hm as ->.
  rewrite decide_False; [done|]. intros H. by apply H.
Qed.


Lemma state_ok_any s k q c k' c' :
  s ≠ s_chunk_size_start → state_ok s k q c → state_ok s k' q c'.
Proof. by destruct s. Qed.


Lemma inv_can_call k x : inv k x → st x ≠ s_chunk_size_start → can_call x.
Proof. intros (?&?&?&?) ?. split_and!; try done. by eapply state_ok_any. Qed.

Lemma inv_user k x x' : same_but_user x x' → inv k x → inv k x'.
Proof.
  intros (E1 & E2 & _ & E4 & E5) (H1 & H2 & H3 & H4). unfold inv. rewrite E1, E2, E4.
  destruct E5 as [-> | ->]; split_and!; done.
Qed.

(** A notification at the end of a case, or before it re-executes. *)
Lemma wp_notify_brk f s0 x :
  inv 0 x → st x ≠ s_chunk_size_start → (p0 <= pos x < len data)%nat →
  wp (_ ← CALLBACK_NOTIFY stg f; brk) (post s0) x.
Proof using Ht.
  intros Hi Hs Hp. apply wp_bind, wp_notify; [by eapply inv_can_call|lia|].
  intros x' Hx. apply wp_ret. split; [destruct Hx as (_ & _ & -> & _); done|]. by eapply inv_user.
Qed.

Lemma wp_notify_re f s0 ch x :
  inv 1 x → st x ≠ s_chunk_size_start → (p0 <= pos x < len data)%nat → (rank (st x) < rank s0)%nat →
  wp (_ ← CALLBACK_NOTIFY_NOADVANCE stg f; re ch) (post s0) x.
Proof using Ht.
  intros Hi Hs Hp Hr. apply wp_bind, wp_notify_noadvance; [by eapply inv_can_call|lia|].
  intros x' Hx. apply wp_ret. split; [destruct Hx as (_ & _ & -> & _); done|].
  split; [by eapply inv_user|]. by destruct Hx as (-> & _).
Qed.

(** The same for data; the mark was the only one. *)
Definition data_ready (f : data_cb) k x : Prop :=
  errno (prs x) = HPE_OK ∧ in_u 64 (content_length (prs x)) ∧
  state_ok (st x) k (prs x) (cnt x) ∧ filter (λ m, m.1 ≠ f) (marks x) = [] ∧
  st x ≠ s_chunk_size_start.

Lemma data_can_call f k x : data_ready f k x → can_call x.
Proof. intros (?&?&?&?&?). split_and!; try done. by eapply state_ok_any. Qed.

Lemma inv_data f k x x' : same_but_mark f x x' → data_ready f k x → inv k x' ∧ marks x' = [].
Proof.
  intros (E1 & E2 & _ & E4 & E5) (H1 & H2 & H3 & H4 & _). unfold inv. rewrite E1, E2, E5, H4.
  destruct E4 as [-> | ->]; split_and!; done.
Qed.

Lemma wp_data_brk f s0 x : data_ready f 0 x → (p0 <= pos x < len data)%nat →
  wp (_ ← CALLBACK_DATA stg data f; brk) (post s0) x.
Proof using Ht.
  intros Hd Hp. apply wp_bind, wp_data; [by eapply data_can_call|lia|].
  intros x' Hx. apply wp_ret. split; [destruct Hx as (_ & _ & -> & _); done|]. by eapply inv_data.
Qed.

Lemma wp_data_re f to er s0 ch x : data_ready f 1 x → (p0 <= pos x < len data)%nat →
  0 <= er <= Z.of_nat (len data) → (rank (st x) < rank s0)%nat →
  wp (CALLBACK_DATA_ stg data f to er) (λ _, wp (re ch) (post s0)) x.
Proof using Ht.
  intros Hd Hp He Hr. apply wp_data_; [by eapply data_can_call|done|].
  intros x' Hx. apply wp_ret. split; [destruct Hx as (_ & _ & -> & _); done|].
  split; [by eapply inv_data|]. by destruct Hx as (-> & _).
Qed.

Lemma wp_data_noadvance_re f s0 ch x : data_ready f 1 x → (p0 <= pos x < len data)%nat →
  (rank (st x) < rank s0)%nat →
  wp (_ ← CALLBACK_DATA_NOADVANCE stg data f; re ch) (post s0) x.
Proof using Ht. intros Hd Hp Hr. apply wp_bind, wp_bind, wp_ask, wp_data_re; done || lia. Qed.

Ltac inv_tac := unfold post, inv, data_ready; cbn; split_and?; try done; try lia.

Lemma case_dead_ok ch x : pre s_dead x → wp (case_dead ch) (post s_dead) x.
Proof.
  intros [Hst Hok Hlen Hs Hm Hp]. unfold case_dead. repeat wp_step. inv_tac; by rewrite ?Hst.
Qed.

Lemma case_start_req_or_res_ok ch x : pre s_start_req_or_res x →
  wp (case_start_req_or_res stg ch) (post s_start_req_or_res) x.
Proof using Ht.
  intros [Hst Hok Hlen Hs Hm Hp]. apply marks_none in Hm; [|done].
  unfold case_start_req_or_res. wp_step; [repeat wp_step; inv_tac; by rewrite ?Hst, ?Hm|].
  do 2 wp_step. wp_step.
  - do 2 wp_step. apply wp_notify_brk; inv_tac. by rewrite Hm.
  - repeat wp_step. inv_tac. by rewrite Hm.
Qed.

Lemma case_res_or_resp_H_ok ch x : pre s_res_or_resp_H x →
  wp (case_res_or_resp_H ch) (post s_res_or_resp_H) x.
Proof.
  intros [Hst Hok Hlen Hs Hm Hp]. apply marks_none in Hm; [|done].
  unfold case_res_or_resp_H. repeat wp_step; inv_tac; rewrite ?Hm; done.
Qed.

Lemma case_start_res_ok ch x : pre s_start_res x → wp (case_start_res stg ch) (post s_start_res) x.
Proof using Ht.
  intros [Hst Hok Hlen Hs Hm Hp]. apply marks_none in Hm; [|done].
  unfold case_start_res. wp_step; [repeat wp_step; inv_tac; by rewrite ?Hst, ?Hm|].
  do 2 wp_step. wp_step; [|by wp_step].
  do 2 wp_step. apply wp_notify_brk; inv_tac. by rewrite Hm.
Qed.

Lemma wp_strict b (Q : unit → run → Prop) x :
  (pos x ≤ len data)%nat → (b = false → Q tt x) → wp (STRICT_CHECK b) Q x.
Proof. intros Hp HQ. unfold STRICT_CHECK. destruct b; [by wp_step|]. wp_step. auto. Qed.

Lemma expect_ok want s s0 ch x :
  errno (prs x) = HPE_OK → in_u 64 (content_length (prs x)) → marks x = [] →
  (p0 <= pos x < len data)%nat → state_ok s 0 (prs x) (cnt x) →
  wp (expect want s ch) (post s0) x.
Proof.
  intros Hok Hlen Hm Hp Hs. unfold expect. wp_step. apply wp_strict; [lia|]. intros _.
  wp_step. inv_tac. by rewrite Hm.
Qed.

(** The states of a group, one by one; none of them may have a mark set. *)
Ltac in_cases Hin :=
  cbn in Hin; repeat match type of Hin with _ ∨ _ => destruct Hin as [Hin|Hin] end; [..|done];
  subst.

Lemma case_res_version_ok s ch x :
  In s [s_res_H; s_res_HT; s_res_HTT; s_res_HTTP; s_res_http_major; s_res_http_dot;
        s_res_http_minor; s_res_http_end] →
  pre s x → wp (case_res_version s ch) (post s) x.
Proof.
  intros Hin [Hst Hok Hlen Hs Hm Hp].
  in_cases Hin; (apply marks_none in Hm; [|done]); cbn [case_res_version];
    try (apply expect_ok; done); repeat wp_step; inv_tac; by rewrite Hm.
Qed.

Lemma case_res_status_ok s ch x :
  In s [s_res_first_status_code; s_res_status_code; s_res_status_start; s_res_status;
        s_res_line_almost_done] →
  pre s x → wp (case_res_status stg data s ch) (post s) x.
Proof using Ht.
  intros Hin [Hst Hok Hlen Hs Hm Hp].
  in_cases Hin; cbn [case_res_status].
  - apply marks_none in Hm; [|done]. repeat wp_step; inv_tac; rewrite ?Hst, ?Hm; done.
  - apply marks_none in Hm; [|done]. repeat wp_step; inv_tac; rewrite ?Hst, ?Hm; done.
  - apply marks_none in Hm; [|done]. wp_step. apply wp_mark. intros l Hl. rewrite Hm in Hl.
    repeat wp_step; inv_tac; destruct Hl as [-> | [-> _]]; done.
  - assert (filter (λ m, m.1 ≠ status) (marks x) = []) by (eapply marks_cleared; [|done]; by left).
    wp_step; [wp_step; wp_step; apply wp_data_brk; inv_tac|].
    wp_step; [wp_step; wp_step; apply wp_data_brk; inv_tac|].
    repeat wp_step; inv_tac; rewrite Hst; done.
  - apply marks_none in Hm; [|done]. by apply expect_ok.
Qed.

Lemma case_start_req_ok ch x : pre s_start_req x → wp (case_start_req stg ch) (post s_start_req) x.
Proof using Ht.
  intros [Hst Hok Hlen Hs Hm Hp]. apply marks_none in Hm; [|done].
  unfold case_start_req. wp_step; [repeat wp_step; inv_tac; by rewrite ?Hst, ?Hm|].
  do 2 wp_step. wp_step; [by wp_step|]. do 2 wp_step.
  destruct (first_letter ch) as [m|] eqn:Em; [|by wp_step].
  do 4 wp_step. apply wp_notify_brk; inv_tac; [|by rewrite Hm].
  by destruct m.
Qed.
(** A method that another one replaces is longer than the match so far. *)
Lemma other_method_long m i ch m' :
  other_method m i ch = Some m' → 0 <= i ∧ i + 1 <= Z.of_nat (length (method_strings m')).
Proof.
  intros H. unfold other_method in H.
  destruct m; try discriminate;
    repeat (case_match; [match goal with E : (_ && _) = true |- _ =>
      apply andb_true_iff in E as [E _]; apply Z.eqb_eq in E end;
      injection H as <-; vm_compute length; lia|]); discriminate.
Qed.

Lemma matcher_at_inside s i ch : 0 <= i → matcher_at s i = Some ch → ch ≠ NUL →
  i < Z.of_nat (length s).
Proof.
  unfold matcher_at. intros Hi H Hn. destruct (decide (Z.to_nat i < length s)%nat); [lia|].
  rewrite lookup_app_r in H by lia. destruct (Z.to_nat i - length s)%nat eqn:E; [|done].
  by injection H as <-.
Qed.

(** The index is a bit field of 7 bits. *)
Lemma index_step m i : 0 <= i → i + 1 <= Z.of_nat (length (method_strings m)) →
  0 <= wrapu 7 (i + 1) <= Z.of_nat (length (method_strings m)).
Proof.
  intros Hi Hm. assert (Z.of_nat (length (method_strings m)) < 128) by (by destruct m).
  rewrite wrapu_small; unfold in_u; lia.
Qed.

Lemma matcher_at_some s i : 0 <= i <= Z.of_nat (length s) → ∃ ch, matcher_at s i = Some ch.
Proof. intros Hi. apply lookup_lt_is_Some. rewrite length_app. cbn. lia. Qed.

Lemma case_req_method_ok ch x : pre s_req_method x → wp (case_req_method ch) (post s_req_method) x.
Proof.
  intros [Hst Hok Hlen Hs Hm Hp]. apply marks_none in Hm; [|done]. cbn in Hs.
  unfold case_req_method. wp_step; [by wp_step|]. do 2 wp_step.
  destruct (matcher_at_some (method_strings (method (prs x))) (index (prs x))) as [w Hw]; [done|].
  rewrite Hw. wp_step. wp_step; [repeat wp_step; inv_tac; by rewrite Hm|].
  wp_step.
  - repeat wp_step. apply Ascii.eqb_eq in E1 as <-. apply Ascii.eqb_neq in E.
    apply matcher_at_inside in Hw; [|lia|done]. inv_tac; rewrite ?Hst, ?Hm; cbn; [|done].
    apply index_step; lia.
  - wp_step; [|by wp_step].
    destruct (other_method _ _ ch) as [m|] eqn:Em; [|by wp_step].
    apply other_method_long in Em. repeat wp_step. inv_tac; rewrite ?Hst, ?Hm; cbn; [|done].
    apply index_step; lia.
Qed.

(** The states of the URL: they share the mark. *)
Definition url_state (s : state) : bool := bool_decide (mark_of s = Some url).

Lemma parse_url_char_ok s ch :
  url_state s = true ∨ s = s_req_spaces_before_url →
  parse_url_char s ch = s_dead ∨ url_state (parse_url_char s ch) = true.
Proof.
  intros [H | ->]; [apply bool_decide_eq_true_1 in H|];
    (try destruct s; try done); unfold parse_url_char, url_state; cbn;
    repeat case_match; auto.
Qed.

Lemma url_state_ok s k q c : url_state s = true → state_ok s k q c.
Proof. by destruct s. Qed.

Lemma url_char_ok ch s0 x :
  url_state (st x) = true ∨ st x = s_req_spaces_before_url →
  errno (prs x) = HPE_OK → in_u 64 (content_length (prs x)) → (p0 <= pos x < len data)%nat →
  marks_ok s_req_path (marks x) → wp (url_char ch) (post s0) x.
Proof.
  intros Hu Hok Hlen Hp Hm. unfold url_char. do 4 wp_step. wp_step; [by wp_step|]. wp_step.
  apply bool_decide_eq_false_1 in E. destruct (parse_url_char_ok (st x) ch Hu) as [|H]; [done|].
  inv_tac; [by apply url_state_ok|]. apply bool_decide_eq_true_1 in H.
  unfold marks_ok in *. rewrite H. done.
Qed.

Lemma case_req_spaces_before_url_ok ch x : pre s_req_spaces_before_url x →
  wp (case_req_spaces_before_url ch) (post s_req_spaces_before_url) x.
Proof.
  intros [Hst Hok Hlen Hs Hm Hp]. apply marks_none in Hm; [|done].
  unfold case_req_spaces_before_url. wp_step; [wp_step; inv_tac; by rewrite ?Hst, ?Hm|].
  wp_step. apply wp_mark. intros l Hl. rewrite Hm in Hl. do 3 wp_step.
  wp_step; wp_step; (apply url_char_ok; cbn; [|done..|destruct Hl as [-> | [-> _]]; done]).
  - by left.
  - rewrite Hst. by right.
Qed.

Lemma case_req_schema_ok s ch x :
  In s [s_req_schema; s_req_schema_slash; s_req_schema_slash_slash; s_req_server_start] →
  pre s x → wp (case_req_schema ch) (post s) x.
Proof.
  intros Hin [Hst Hok Hlen Hs Hm Hp]. unfold case_req_schema. wp_step; [by wp_step|].
  in_cases Hin; (apply url_char_ok; [rewrite Hst; by left|done..]).
Qed.

Lemma case_req_url_ok s ch x :
  In s [s_req_server; s_req_server_with_at; s_req_path; s_req_query_string_start;
        s_req_query_string; s_req_fragment_start; s_req_fragment] →
  pre s x → wp (case_req_url stg data ch) (post s) x.
Proof using Ht.
  intros Hin [Hst Hok Hlen Hs Hm Hp].
  assert (mark_of s = Some url) as Hu by (in_cases Hin; done).
  assert (filter (λ m, m.1 ≠ url) (marks x) = []) as Hf by (eapply marks_cleared; [by left|done]).
  unfold case_req_url. wp_step; [|wp_step].
  - do 2 wp_step. apply wp_data_brk; inv_tac.
  - do 4 wp_step. destruct (ch =c CR); apply wp_data_brk; inv_tac.
  - apply url_char_ok; try done; [left; rewrite Hst; by apply bool_decide_eq_true_2|].
    unfold marks_ok in *. by rewrite Hu in Hm.
Qed.

Lemma case_req_http_ok s ch x :
  In s [s_req_http_start; s_req_http_H; s_req_http_HT; s_req_http_HTT; s_req_http_HTTP;
        s_req_http_I; s_req_http_IC; s_req_http_major; s_req_http_dot; s_req_http_minor;
        s_req_http_end; s_req_line_almost_done] →
  pre s x → wp (case_req_http s ch) (post s) x.
Proof.
  intros Hin [Hst Hok Hlen Hs Hm Hp].
  in_cases Hin; (apply marks_none in Hm; [|done]); cbn [case_req_http];
    try (apply expect_ok; done); repeat wp_step; inv_tac; by rewrite ?Hst, ?Hm.
Qed.
(* ------------------------------------------------------------------ *)
(** ** The headers *)

Lemma match_word_state (P : header_states → bool) w i c h no yes :
  P h = true → P no = true → P yes = true → P (match_word w i c h no yes) = true.
Proof. intros. unfold match_word. by repeat case_match. Qed.

Lemma case_header_field_start_ok ch x : pre s_header_field_start x →
  wp (case_header_field_start ch) (post s_header_field_start) x.
Proof.
  intros [Hst Hok Hlen Hs Hm Hp]. apply marks_none in Hm; [|done].
  unfold case_header_field_start. wp_step; [wp_step; inv_tac; by rewrite Hm|].
  wp_step; [repeat wp_step; inv_tac; by rewrite Hm|]. wp_step; [by wp_step|].
  wp_step. apply wp_mark. intros l Hl. rewrite Hm in Hl.
  do 7 wp_step. inv_tac; [by repeat case_match|]. by destruct Hl as [-> | [-> _]].
Qed.

(** The run inside the loop over a name: in place, and past [p]. *)
Definition in_name (p : nat) x : Prop :=
  st x = s_header_field ∧ errno (prs x) = HPE_OK ∧ in_u 64 (content_length (prs x)) ∧
  name_state (header_state (prs x)) = true ∧ marks_ok s_header_field (marks x) ∧ (p <= pos x)%nat.

Lemma skip_token_range f p pe :
  (p <= skip_token data f p pe)%nat ∧
  (skip_token data f p pe = p ∨ skip_token data f p pe < pe)%nat.
Proof.
  revert p. induction f as [|f IH]; intros p; cbn [skip_token]; [auto|]. case_match eqn:E; [|auto].
  apply andb_true_iff in E as [E _]. apply Nat.ltb_lt in E. specialize (IH (S p)).
  cbn [skip_token] in *. lia.
Qed.

Lemma end_of_run_range p : (p <= len data)%nat → (p <= end_of_run max data p <= len data)%nat.
Proof. intros Hp. unfold end_of_run. lia. Qed.

Lemma header_field_char_ok c ch p x :
  in_name p x → (pos x < len data)%nat →
  wp (header_field_char max data c ch) (λ _ x', in_name p x' ∧ (pos x <= pos x' < len data)%nat) x.
Proof.
  intros (Hst & Hok & Hlen & Hn & Hm & Hle) Hp. unfold header_field_char, in_name. do 2 wp_step.
  destruct (header_state (prs x)) eqn:Eh; try done; repeat wp_step; cbn;
    (split; [split_and!|]); try done; try lia; try (by repeat case_match);
    try (by apply match_word_state); try congruence;
    destruct (skip_token_range (len data) (pos x) (end_of_run max data (pos x))) as [? [H|H]];
    pose proof (end_of_run_range (pos x)); lia.
Qed.

Lemma header_field_loop_ok fuel p x :
  in_name p x → (pos x <= len data)%nat → (len data - pos x < fuel)%nat →
  wp (header_field_loop max data fuel)
     (λ r x', in_name p x' ∧ match r with None => pos x' = len data | Some _ => pos x' < len data end)%nat x.
Proof.
  revert x. induction fuel as [|f IH]; intros x Hx Hp Hf; [lia|]. cbn [header_field_loop].
  do 2 wp_step. wp_step; [apply wp_ret; split; [done|]; by apply Nat.eqb_eq|].
  apply Nat.eqb_neq in E. wp_step; [apply wp_ret; split; [done|lia]|].
  wp_step. eapply wp_mono; [apply header_field_char_ok; [done|lia]|].
  cbn. intros _ x' [(?&?&?&?&?&?) Hp']. do 2 wp_step. apply IH; cbn; [|lia..]. split_and!; cbn; done || lia.
Qed.

Lemma case_header_field_ok x : pre s_header_field x →
  wp (case_header_field stg max data) (post s_header_field) x.
Proof using Ht.
  intros [Hst Hok Hlen Hs Hm Hp]. unfold case_header_field. do 3 wp_step.
  eapply wp_mono; [apply (header_field_loop_ok _ (pos x)); [split_and!; done|lia..]|].
  cbn. intros [ch|] x' [(H1 & H2 & H3 & H4 & H5 & H6) Hp'].
  - do 3 wp_step. apply wp_count; [cbn; lia|]. wp_step; [|by wp_step]. do 2 wp_step. apply wp_data_brk; [|cbn; lia].
    inv_tac.
    eapply marks_cleared; [|done]. by left.
  - do 5 wp_step. apply wp_count; [cbn; lia|]. apply wp_ret.
    inv_tac; rewrite H1; [|done]. done.
Qed.


Lemma u64_range z : in_u 64 (u64 z).
Proof. by apply wrapu_range. Qed.

Lemma case_header_value_start_ok s0 ch x :
  errno (prs x) = HPE_OK → in_u 64 (content_length (prs x)) → marks x = [] →
  (p0 <= pos x < len data)%nat → wp (case_header_value_start ch) (post s0) x.
Proof.
  intros Hok Hlen Hm Hp. unfold case_header_value_start.
  wp_step. apply wp_mark. intros l Hl. rewrite Hm in Hl.
  assert (marks_ok s_header_value l) by (by destruct Hl as [-> | [-> _]]).
  do 6 wp_step. cbn. destruct (header_state (prs x)) eqn:Eh; repeat wp_step; inv_tac;
    try (by repeat case_match); try apply u64_range; by rewrite Eh.
Qed.

Lemma case_header_value_discard_ws_ok ch x : pre s_header_value_discard_ws x →
  wp (case_header_value_discard_ws ch) (post s_header_value_discard_ws) x.
Proof.
  intros [Hst Hok Hlen Hs Hm Hp]. apply marks_none in Hm; [|done].
  unfold case_header_value_discard_ws. wp_step; [wp_step; inv_tac; by rewrite ?Hst, ?Hm|].
  wp_step; [wp_step; inv_tac; by rewrite Hm|]. wp_step; [wp_step; inv_tac; by rewrite Hm|].
  by apply case_header_value_start_ok.
Qed.
(** The run inside the loop over a value. *)
Definition in_value (p : nat) x : Prop :=
  st x = s_header_value ∧ errno (prs x) = HPE_OK ∧ in_u 64 (content_length (prs x)) ∧
  marks_ok s_header_value (marks x) ∧ (p <= pos x)%nat.

Lemma skip_value_range f b p pe :
  (p <= pe <= len data)%nat → is_nl (at_p data p) = false →
  match skip_value data f b p pe with inl p' => p <= p' <= pe | inr p' => p <= p' <= pe end%nat.
Proof.
  intros Hp Hn.
  enough (∀ i, (p <= i <= pe)%nat →
    match skip_value data f b i pe with
    | inl p' => p <= p' <= pe | inr p' => p <= p' <= pe end%nat) as H by (apply H; lia).
  induction f as [|f IH]; intros i Hi; cbn [skip_value]; [lia|].
  destruct (i =? pe)%nat eqn:Eq; [lia|]. apply Nat.eqb_neq in Eq.
  destruct (is_nl (at_p data i)) eqn:En.
  - destruct (decide (i = p)) as [->|]; [congruence|lia].
  - destruct (negb b && _); [lia|]. apply IH. lia.
Qed.

Lemma content_length_digit_ok h ch p x :
  in_value p x → (pos x < len data)%nat → value_state h = true →
  wp (content_length_digit h ch)
     (λ h' x', value_state h' = true ∧ in_value p x' ∧ pos x' = pos x) x.
Proof.
  intros (Hst & Hok & Hlen & Hm & Hle) Hp Hh. unfold content_length_digit.
  wp_step; [split_and!; cbn; done || lia|]. do 2 wp_step.
  wp_step; [split_and!; cbn; done || lia|]. do 3 wp_step.
  split; [done|]. split; [|done]. unfold in_value. cbn. split_and!; try done. apply u64_range.
Qed.

Lemma header_value_char_ok h c ch p x :
  in_value p x → (pos x < len data)%nat → value_state h = true → is_nl (at_p data (pos x)) = false →
  wp (header_value_char max data h c ch)
     (λ h' x', value_state h' = true ∧ in_value p x' ∧ (pos x <= pos x' < len data)%nat) x.
Proof.
  intros Hx Hp Hh Hn. pose proof Hx as (Hst & Hok & Hlen & Hm & Hle).
  pose proof (end_of_run_range (pos x)) as He.
  assert (∀ ch', wp (content_length_digit h_content_length_num ch')
     (λ h' x', value_state h' = true ∧ in_value p x' ∧ (pos x <= pos x' < len data)%nat) x) as Hd.
  { intros ch'. eapply wp_mono; [by apply content_length_digit_ok|]. cbn. intros ?? (?&?&->). auto. }
  unfold header_value_char.
  destruct h; try discriminate.
  1:{ pose proof (skip_value_range (S (len data)) (lenient x) (pos x)
                    (end_of_run max data (pos x)) ltac:(lia) Hn) as Hsk.
      do 2 wp_step. destruct (skip_value _ _ _ _ _) as [p'|p']; repeat wp_step.
      destruct (p' =? len data)%nat eqn:E; [apply Nat.eqb_eq in E|apply Nat.eqb_neq in E];
        unfold in_value; cbn; split_and!; try done; lia. }
  all: repeat wp_step; try (by apply Hd); try (split_and!; cbn; done || lia);
    unfold in_value; cbn; split_and!; try done; try lia; try (by apply match_word_state);
    try (by repeat case_match).
Qed.
(** How the loop over a value ends. *)
Definition value_done (p : nat) (r : value_end) x : Prop :=
  errno (prs x) = HPE_OK ∧ in_u 64 (content_length (prs x)) ∧ (p <= pos x)%nat ∧
  ((pos x < len data)%nat ∧ st x = s_header_almost_done ∧ marks x = [] ∨
   ∃ h, r = Ended h ∧ pos x = len data ∧ st x = s_header_value ∧
        marks_ok s_header_value (marks x) ∧ value_state h = true).

Lemma value_done_data p r x x' :
  same_but_mark header_value x x' → errno (prs x) = HPE_OK → in_u 64 (content_length (prs x)) →
  (p <= pos x < len data)%nat → st x = s_header_almost_done → marks_ok s_header_value (marks x) →
  value_done p r x'.
Proof.
  intros (E1 & E2 & E3 & E4 & E5) Hok Hlen Hp Hs Hm. unfold value_done. rewrite E1, E3, E5.
  rewrite (marks_cleared s_header_value) by (by left || done).
  destruct E4 as [-> | ->]; split_and!; try done; try lia; left; split_and!; done || lia.
Qed.

Lemma header_value_loop_ok fuel p h x :
  in_value p x → (pos x <= len data)%nat → value_state h = true → (len data - pos x < fuel)%nat →
  wp (header_value_loop stg max data fuel p h) (value_done p) x.
Proof using Ht.
  revert x h. induction fuel as [|f IH]; intros x h Hx Hp Hh Hf; [lia|]. cbn [header_value_loop].
  pose proof Hx as (Hst & Hok & Hlen & Hm & Hle).
  do 2 wp_step. wp_step.
  { apply Nat.eqb_eq in E. apply wp_ret. split_and!; try done. right. by exists h. }
  apply Nat.eqb_neq in E. wp_step; [|wp_step; [|wp_step]].
  - do 4 wp_step. wp_step. apply wp_data; [split_and!; done|cbn; lia|].
    intros x' Hx'. wp_step. eapply value_done_data; [done|..]; done || (cbn; lia).
  - do 3 wp_step. apply wp_count; [cbn; lia|]. do 2 wp_step. wp_step.
    apply wp_data_noadvance; [split_and!; done|cbn; lia|].
    intros x' Hx'. wp_step. eapply value_done_data; [done|..]; done || (cbn; lia).
  - wp_step. by wp_step.
  - wp_step. eapply wp_mono; [apply header_value_char_ok; try done; [lia|]|].
    + unfold is_nl. by rewrite E0, E1.
    + cbn. intros h' x' (Hh' & (?&?&?&?&?) & Hp'). do 2 wp_step.
      apply IH; cbn; [|lia|done|lia]. unfold in_value; cbn; split_and!; done || lia.
Qed.

Lemma case_header_value_ok x : pre s_header_value x →
  wp (case_header_value stg max data) (post s_header_value) x.
Proof using Ht.
  intros [Hst Hok Hlen Hs Hm Hp]. unfold case_header_value. do 3 wp_step.
  eapply wp_mono; [apply (header_value_loop_ok _ (pos x)); [|lia|done|lia];
    split_and!; done|].
  cbn. intros r x' (H1 & H2 & H3 & H4). destruct r as [h|].
  - do 7 wp_step. cbn. destruct (pos x' =? len data)%nat eqn:E.
    + apply Nat.eqb_eq in E. apply wp_count; [cbn; lia|]. apply wp_ret.
      destruct H4 as [|(h' & [= <-] & _ & H4 & H5 & H6)]; [lia|]. inv_tac; by rewrite H4.
    + apply Nat.eqb_neq in E. apply wp_count; [cbn|apply wp_ret];
        (destruct H4 as [(H4 & H5 & H6)|(h' & [= <-] & ? & H4)]; [|done]); [lia|].
      inv_tac; by rewrite ?H5, ?H6.
  - destruct H4 as [(H4 & H5 & H6)|(h & ? & _)]; [|done]. wp_step. inv_tac; rewrite ?H5, ?H6; done || (cbn; lia).
Qed.

(** [header_flags] only touches the flags. *)
Lemma wp_header_flags h (Q : unit → run → Prop) x :
  (∀ v, Q tt (set_prs (set_flags v (prs x)) x)) → Q tt x → wp (header_flags h) Q x.
Proof. intros H1 H2. unfold header_flags. destruct h; repeat wp_step; auto. Qed.

Lemma case_header_lws_ok s ch x :
  In s [s_header_almost_done; s_header_value_lws; s_header_value_discard_ws_almost_done;
        s_header_value_discard_lws] →
  pre s x → wp (case_header_lws stg data s ch) (post s) x.
Proof using Ht.
  intros Hin [Hst Hok Hlen Hs Hm Hp].
  in_cases Hin; (apply marks_none in Hm; [|done]); cbn [case_header_lws].
  - repeat wp_step; inv_tac; by rewrite ?Hm.
  - do 2 wp_step. wp_step.
    + repeat wp_step; inv_tac; rewrite ?Hm; done.
    + wp_step. apply wp_header_flags; [intros v|]; repeat wp_step; inv_tac; rewrite ?Hm; done || lia.
  - by apply expect_ok.
  - wp_step; [wp_step; inv_tac; by rewrite Hm|]. do 3 wp_step. wp_step; [by wp_step|].
    apply wp_header_flags; [intros v|]; wp_step; apply wp_mark; intros l Hl; cbn in Hl;
      rewrite Hm in Hl; do 2 wp_step; apply wp_data_noadvance_re; inv_tac;
      destruct Hl as [-> | [-> _]]; done.
Qed.
(* ------------------------------------------------------------------ *)
(** ** The end of the headers and the body *)

Lemma call_headers_complete_ok (Q : unit → run → Prop) x :
  errno (prs x) = HPE_OK → in_u 64 (content_length (prs x)) → st x = s_headers_done →
  (pos x <= len data)%nat → marks x = [] →
  (∀ x', inv 1 x' → st x' = s_headers_done → pos x' = pos x → Q tt x') →
  wp (call_headers_complete stg) Q x.
Proof using Ht.
  intros Hok Hlen Hst Hp Hm HQ. unfold call_headers_complete. do 3 wp_step.
  assert (∀ q u, errno q = HPE_OK → in_u 64 (content_length q) →
                 Q tt (set_user u (set_prs q x))) as HQ'.
  { intros q u H1 H2. apply HQ; [|done..]. unfold inv. cbn. rewrite Hst, Hm. done. }
  assert (∀ q u, in_u 64 (content_length q) →
    wp (RETURN (Z.of_nat (pos x))) Q (set_user u (set_prs q x))) as HR.
  { intros q u H. apply wp_RETURN; cbn; [lia|done|by rewrite Hst]. }
  destruct (on_notify stg headers_complete) as [cb|] eqn:Ecb.
  2:{ do 3 wp_step. wp_step; [|apply bool_decide_eq_false_1 in E; done].
      apply wp_ret, HQ; [|done..]. split_and!; try done; rewrite Hst, ?Hm; done. }
  do 2 wp_step. pose proof (tame_notify Ht _ _ (prs x) (user x) Ecb) as Hr.
  destruct (cb (prs x) (user x)) as [r [q u]]. cbn. unfold tame_result in Hr. cbn in Hr.
  assert (in_u 64 (content_length q)) as Hq by (by destruct Hr as [-> | ->]).
  assert (errno q = HPE_OK ∨ errno q ≠ HPE_OK) as He by (destruct (decide (errno q = HPE_OK)); auto).
  wp_step; [|wp_step; [|wp_step]].
  1-3: repeat wp_step; cbn in *;
    (match goal with H : bool_decide _ = true |- _ => apply bool_decide_eq_true_1 in H end;
     by apply HQ') || (by apply HR).
  unfold SET_ERRNO. repeat wp_step. apply wp_RETURN; cbn; [lia|done|by rewrite Hst].
Qed.

Lemma case_headers_almost_done_ok ch x : pre s_headers_almost_done x →
  wp (case_headers_almost_done stg ch) (post s_headers_almost_done) x.
Proof using Ht.
  intros [Hst Hok Hlen Hs Hm Hp]. apply marks_none in Hm; [|done].
  unfold case_headers_almost_done. wp_step. apply wp_strict; [lia|]. intros _. do 2 wp_step.
  wp_step; [|wp_step; [by wp_step|]].
  - do 2 wp_step. apply wp_notify_re; inv_tac; try (rewrite Hm); done || lia.
  - do 5 wp_step. apply call_headers_complete_ok; cbn; try done; [lia|].
    intros x' Hi Hs' Hp'. apply wp_ret. split; [lia|]. split; [done|]. rewrite Hs'. cbn. lia.
Qed.

Lemma new_message_state q : NEW_MESSAGE q ∈ [s_dead; s_start_req; s_start_res; s_start_req_or_res].
Proof.
  unfold NEW_MESSAGE, start_state. set_unfold.
  repeat case_match; auto.
Qed.

(** The end of a message: the next one starts with no demand. *)
Lemma finish_message_ok (Q : unit → run → Prop) x :
  errno (prs x) = HPE_OK → in_u 64 (content_length (prs x)) → (pos x < len data)%nat → marks x = [] →
  (∀ x', inv 0 x' → pos x' = pos x → state_ok (st x') 0 (prs x') (u32 (cnt x')) → Q tt x') →
  wp (finish_message stg) Q x.
Proof using Ht.
  intros Hok Hlen Hp Hm HQ. unfold finish_message. do 4 wp_step.
  assert (∀ k q c, state_ok (NEW_MESSAGE (prs x)) k q c) as Hn.
  { intros k q c. pose proof (new_message_state (prs x)) as Hn. set_unfold.
    destruct Hn as [-> |[-> |[-> |[-> |]]]]; done. }
  assert (inv 0 (set_st (NEW_MESSAGE (prs x)) x)) as Hi.
  { unfold inv. cbn. rewrite Hm. by split_and!. }
  apply wp_notify; [|done|].
  - by split_and!.
  - intros x' Hx'. apply HQ; [by eapply inv_user|by destruct Hx' as (_ & _ & -> & _)|].
    destruct Hx' as (-> & _). apply Hn.
Qed.

Lemma case_headers_done_ok ch x : pre s_headers_done x →
  wp (case_headers_done stg ch) (post s_headers_done) x.
Proof using Ht.
  intros [Hst Hok Hlen Hs Hm Hp]. apply marks_none in Hm; [|done].
  unfold case_headers_done. wp_step. apply wp_strict; [lia|]. intros _.
  wp_step. apply wp_upd. do 2 wp_step. cbn.
  set (x1 := set_cnt 0 (set_prs (set_nread 0 (prs x)) x)).
  assert (wp (_ ← finish_message stg; brk) (post s_headers_done) x1) as Hfin.
  { wp_step. apply finish_message_ok; try done; try (cbn; lia). intros x' Hi Hp' _. apply wp_ret. split; [cbn in Hp'; lia|done]. }
  wp_step; [|wp_step; [done|wp_step; [|wp_step; [done|wp_step; [|wp_step; [done|]]]]]].
  - wp_step. apply finish_message_ok; try done; try (cbn; lia). intros x' (Hi1 & Hi2 & _) Hp' Hs'.
    wp_step. apply wp_RETURN; [cbn in *; lia|done|done].
  - wp_step. inv_tac. by rewrite Hm.
  - wp_step. apply negb_true_iff, Z.eqb_neq in E3. apply Z.eqb_neq in E2. inv_tac. by rewrite Hm.
  - wp_step. inv_tac. by rewrite Hm.
Qed.

(** Taking part of the body: [p] stays inside, less is left. *)
Lemma take_body_ok (Q : unit → run → Prop) x :
  mark_of (st x) = Some body → marks_ok (st x) (marks x) → in_u 64 (content_length (prs x)) →
  content_length (prs x) ≠ 0 → content_length (prs x) ≠ ULLONG_MAX → (pos x < len data)%nat →
  (∀ l c p, marks_ok (st x) l → 0 <= c < content_length (prs x) → (pos x <= p < len data)%nat →
     Q tt (set_pos p (set_prs (set_content_length c (prs x)) (set_marks l x)))) →
  wp (take_body data) Q x.
Proof.
  intros Hb Hm Hlen H0 H1 Hp HQ. unfold take_body. do 3 wp_step. apply wp_assert.
  { apply Z.eqb_neq in H0, H1. by rewrite H0, H1. }
  wp_step. apply wp_mark. intros l Hl. wp_step.
  set (n := Z.min (content_length (prs x)) (Z.of_nat (len data - pos x))).
  unfold in_u in Hlen. wp_step. wp_step. cbn.
  apply (HQ l (content_length (prs x) - n) (pos x + Z.to_nat (n - 1))%nat); [|lia|lia].
  destruct Hl as [-> | [-> Hl]]; [done|]. unfold get_mark in Hl.
  destruct (marks x) as [|m [|]]; [done| |done]. cbn in *.
  rewrite Hb in Hm. injection Hm as Hm. rewrite bool_decide_eq_true_2 in Hl by done. done.
Qed.
Lemma u64_below c m : 0 <= c < m → in_u 64 m → u64 c = c.
Proof. unfold in_u. intros. apply wrapu_small. unfold in_u. lia. Qed.

Lemma body_cleared s l : mark_of s = Some body → marks_ok s l → filter (λ m, m.1 ≠ body) l = [].
Proof. intros H Hl. eapply marks_cleared; [|done]. by left. Qed.

Lemma case_body_identity_ok ch x : pre s_body_identity x →
  wp (case_body_identity stg data ch) (post s_body_identity) x.
Proof using Ht.
  intros [Hst Hok Hlen [H0 H1] Hm Hp]. unfold case_body_identity. wp_step.
  apply take_body_ok; rewrite ?Hst; try done; try lia. intros l c p Hl Hc Hp'. do 2 wp_step.
  cbn. rewrite (u64_below _ _ Hc Hlen). wp_step.
  - do 2 wp_step. apply wp_bind, wp_data_re; inv_tac; [apply u64_range|].
    by eapply (body_cleared s_body_identity).
  - apply Z.eqb_neq in E. wp_step. unfold in_u in Hlen.
    inv_tac; [apply u64_range|..]; rewrite ?Hst, ?(u64_below _ _ Hc Hlen); [|done].
    cbn. rewrite (u64_below _ _ Hc Hlen). change ULLONG_MAX with (2 ^ 64 - 1). lia.
Qed.

Lemma case_body_identity_eof_ok x : pre s_body_identity_eof x →
  wp (case_body_identity_eof data) (post s_body_identity_eof) x.
Proof.
  intros [Hst Hok Hlen Hs Hm Hp]. unfold case_body_identity_eof. wp_step.
  apply wp_mark. intros l Hl. repeat wp_step. inv_tac; rewrite ?Hst; [done|].
  destruct Hl as [-> | [-> Hl]]; [done|]. unfold get_mark in Hl.
  destruct (marks x) as [|m [|]]; [done| |done]. cbn in *.
  injection Hm as Hm. rewrite bool_decide_eq_true_2 in Hl by done. done.
Qed.

Lemma case_message_done_ok x : pre s_message_done x →
  wp (case_message_done stg) (post s_message_done) x.
Proof using Ht.
  intros [Hst Hok Hlen Hs Hm Hp]. apply marks_none in Hm; [|done].
  unfold case_message_done. wp_step. apply finish_message_ok; try done; try (cbn; lia).
  intros x' Hi Hp' Hs'. do 2 wp_step. pose proof Hi as (Hi1 & Hi2 & _). wp_step.
  - wp_step. apply wp_RETURN; [lia|done|done].
  - apply wp_ret. split; [lia|done].
Qed.

Lemma wp_assert_chunked (Q : unit → run → Prop) x :
  has (flags (prs x)) F_CHUNKED = true → Q tt x → wp assert_chunked Q x.
Proof. intros H HQ. unfold assert_chunked. do 2 wp_step. by apply wp_assert. Qed.

#[local] Arguments unhex : simpl never.

Lemma unhex_range c : -1 <= unhex c <= 15.
Proof.
  destruct c as [[] [] [] [] [] [] [] []]; vm_compute; by split.
Qed.

Lemma case_chunk_size_start_ok ch x : pre s_chunk_size_start x →
  wp (case_chunk_size_start ch) (post s_chunk_size_start) x.
Proof.
  intros [Hst Hok Hlen [Hs Hc] Hm Hp]. apply marks_none in Hm; [|done].
  unfold case_chunk_size_start. do 3 wp_step. apply wp_assert; [by apply Z.eqb_eq|].
  wp_step. apply wp_assert_chunked; [done|]. wp_step; [by wp_step|]. apply Z.eqb_neq in E.
  pose proof (unhex_range ch). repeat wp_step.
  inv_tac; rewrite ?Hm; try done; [apply u64_range|].
  rewrite wrapu_small; change ULLONG_MAX with (2 ^ 64 - 1); unfold in_u; lia.
Qed.

Lemma case_chunk_size_ok ch x : pre s_chunk_size x → wp (case_chunk_size ch) (post s_chunk_size) x.
Proof.
  intros [Hst Hok Hlen [Hs Hc] Hm Hp]. apply marks_none in Hm; [|done].
  unfold case_chunk_size. wp_step. apply wp_assert_chunked; [done|].
  wp_step; [wp_step; inv_tac; by rewrite Hm|].
  wp_step; [repeat wp_step; inv_tac; by rewrite Hm|]. do 2 wp_step. wp_step; [by wp_step|].
  apply Z.ltb_ge in E1. apply Z.eqb_neq in E0. pose proof (unhex_range ch).
  change ((ULLONG_MAX - 16) / 16) with 1152921504606846974 in E1. unfold in_u in Hlen.
  assert (u64 (u64 (content_length (prs x) * 16) + unhex ch)
          = content_length (prs x) * 16 + unhex ch) as Et.
  { rewrite !wrapu_small; [done|..]; unfold in_u; rewrite ?wrapu_small; unfold in_u; lia. }
  repeat wp_step. rewrite Et. inv_tac; rewrite ?Hst, ?Hm; try done; [apply u64_range|].
  cbn. split; [done|]. rewrite wrapu_small; change ULLONG_MAX with (2 ^ 64 - 1); unfold in_u; lia.
Qed.

(** A notification while the count starts again. *)
Lemma wp_notify_chunk f s0 x :
  inv 0 x → nread (prs x) = 0 → cnt x = 0 → (p0 <= pos x < len data)%nat →
  wp (_ ← CALLBACK_NOTIFY stg f; brk) (post s0) x.
Proof using Ht.
  intros Hi Hn Hc Hp. apply wp_bind, wp_notify; [|lia|].
  - destruct Hi as (?&?&Hs&_). split_and!; try done. rewrite Hn. by rewrite Hc in Hs.
  - intros x' Hx. apply wp_ret. split; [destruct Hx as (_ & _ & -> & _); done|]. by eapply inv_user.
Qed.

Lemma case_chunk_header_ok s ch x :
  In s [s_chunk_parameters; s_chunk_size_almost_done] → pre s x →
  wp (case_chunk_header stg s ch) (post s) x.
Proof using Ht.
  intros Hin [Hst Hok Hlen Hs Hm Hp].
  in_cases Hin; (apply marks_none in Hm; [|done]); destruct Hs as [Hs Hc];
    unfold case_chunk_header; wp_step; (apply wp_assert_chunked; [done|]).
  - repeat wp_step; inv_tac; rewrite ?Hst, ?Hm; done.
  - wp_step. apply wp_strict; [lia|]. intros _. wp_step. apply wp_upd. do 3 wp_step.
    cbn. destruct (content_length (prs x) =? 0) eqn:E.
    + do 3 wp_step. apply wp_notify_chunk; inv_tac. by rewrite Hm.
    + apply Z.eqb_neq in E. wp_step. apply wp_notify_chunk; inv_tac; by rewrite Hm.
Qed.

Lemma case_chunk_data_ok s ch x :
  In s [s_chunk_data; s_chunk_data_almost_done; s_chunk_data_done] → pre s x →
  wp (case_chunk_data stg data s ch) (post s) x.
Proof using Ht.
  intros Hin [Hst Hok Hlen Hs Hm Hp]. unfold case_chunk_data. wp_step.
  apply wp_assert_chunked; [in_cases Hin; apply Hs|].
  in_cases Hin; cbn [state_ok] in Hs.
  - destruct Hs as (Hf & H0 & H1). wp_step. apply take_body_ok; rewrite ?Hst; try done; try lia.
    intros l c p Hl Hc Hp'. do 2 wp_step. cbn. rewrite (u64_below _ _ Hc Hlen). wp_step.
    + apply Z.eqb_eq in E. repeat wp_step. inv_tac; [apply u64_range|].
      by rewrite (u64_below _ _ Hc Hlen).
    + apply Z.eqb_neq in E. wp_step. unfold in_u in Hlen.
      inv_tac; [apply u64_range|..]; rewrite ?Hst, ?(u64_below _ _ Hc Hlen); [|done].
      cbn. rewrite (u64_below _ _ Hc Hlen). change ULLONG_MAX with (2 ^ 64 - 1). split_and!; done || lia.
  - destruct Hs as [Hf Hc]. do 3 wp_step. apply wp_assert; [by apply Z.eqb_eq|].
    wp_step. apply wp_strict; [lia|]. intros _. do 2 wp_step. apply wp_data_brk; inv_tac.
    by eapply (body_cleared s_chunk_data_almost_done).
  - apply marks_none in Hm; [|done]. wp_step. apply wp_strict; [lia|]. intros _.
    wp_step. apply wp_upd. do 2 wp_step. apply wp_notify_chunk; inv_tac. by rewrite Hm.
Qed.

End cases.

(* ------------------------------------------------------------------ *)
(** ** The loop and the function *)

Lemma switch_ok p0 s ch x : pre p0 s x → wp (switch stg max data s ch) (post p0 s) x.
Proof using Ht.
  intros H. destruct s; cbn [switch];
    first [ by apply case_dead_ok | by apply case_start_req_or_res_ok
          | by apply case_res_or_resp_H_ok | by apply case_start_res_ok | by apply case_start_req_ok
          | by apply case_req_method_ok | by apply case_req_spaces_before_url_ok
          | by apply case_header_field_start_ok | by apply case_header_field_ok
          | by apply case_header_value_discard_ws_ok | by apply case_header_value_ok
          | by apply case_headers_almost_done_ok | by apply case_headers_done_ok
          | by apply case_body_identity_ok | by apply case_body_identity_eof_ok
          | by apply case_message_done_ok | by apply case_chunk_size_start_ok
          | by apply case_chunk_size_ok
          | apply case_res_version_ok; [cbn; tauto|done] | apply case_res_status_ok; [cbn; tauto|done]
          | apply case_req_schema_ok; [cbn; tauto|done] | apply case_req_url_ok; [cbn; tauto|done]
          | apply case_req_http_ok; [cbn; tauto|done] | apply case_header_lws_ok; [cbn; tauto|done]
          | apply case_chunk_header_ok; [cbn; tauto|done]
          | apply case_chunk_data_ok; [cbn; tauto|done]
          | destruct H as [_ ? ? _ Hm ?]; apply marks_none in Hm; [|done];
            by apply case_header_value_start_ok ].
Qed.

Lemma inv_pre p0 x : inv 1 x → (p0 <= pos x < len data)%nat → pre p0 (st x) x.
Proof. intros (?&?&?&?) ?. by split. Qed.

Lemma reexecute_ok fuel p0 ch x :
  pre p0 (st x) x → (rank (st x) < fuel)%nat →
  wp (reexecute stg max data fuel ch) (λ _ x', inv 0 x' ∧ (p0 <= pos x' < len data)%nat) x.
Proof using Ht.
  revert ch x. induction fuel as [|f IH]; intros ch x Hx Hf; [lia|]. cbn [reexecute].
  do 3 wp_step. eapply wp_mono; [by apply switch_ok|]. cbn. intros [|ch'] x' [Hp H].
  - by apply wp_ret.
  - destruct H as [Hi Hr]. apply IH; [by apply inv_pre|lia].
Qed.

Lemma rank_bound s : (rank s < 6)%nat.
Proof. destruct s; cbn; lia. Qed.

Lemma main_loop_ok fuel x :
  inv 0 x → (pos x <= len data)%nat → (len data - pos x < fuel)%nat →
  wp (main_loop stg max data fuel) (λ _ x', inv 0 x' ∧ pos x' = len data) x.
Proof using Ht.
  revert x. induction fuel as [|f IH]; intros x Hi Hp Hf; [lia|]. cbn [main_loop].
  do 2 wp_step. wp_step; [apply wp_ret; split; [done|by apply Nat.eqb_eq]|].
  apply Nat.eqb_neq in E. wp_step.
  assert (∀ x', inv 1 x' → pos x' = pos x → wp
    (_ ← reexecute stg max data 6 (at_p data (pos x));
     _ ← upd (λ x, set_pos (S (pos x)) x); main_loop stg max data f)
    (λ _ x', inv 0 x' ∧ pos x' = len data) x') as Hrest.
  { intros x' Hi' Hp'. wp_step. eapply wp_mono;
      [apply (reexecute_ok _ (pos x)); [apply inv_pre; [done|lia]|apply rank_bound]|].
    cbn. intros _ x'' [Hi'' Hp'']. do 2 wp_step. apply IH; [done|cbn; lia..]. }
  destruct Hi as (H1 & H2 & H3 & H4). wp_step.
  - apply wp_count; [lia|]. apply Hrest; [|done]. split_and!; try done. cbn.
    destruct (decide (st x = s_chunk_size_start)) as [Es|]; [|by eapply state_ok_any].
    rewrite Es in *. destruct H3 as [H3 ->]. done.
  - apply wp_ret, Hrest; [|done]. split_and!; try done.
    eapply state_ok_any; [|done]. intros Es. by rewrite Es in E0.
Qed.

Lemma leftover_data_ok f (Q : unit → run → Prop) x :
  inv 0 x → pos x = len data → (∀ x', inv 0 x' → pos x' = len data → Q tt x') →
  wp (CALLBACK_DATA_NOADVANCE stg data f) Q x.
Proof using Ht.
  intros Hi Hp HQ. destruct (decide (st x = s_chunk_size_start)) as [Es|Hs].
  - pose proof Hi as (Hok & _ & _ & Hm). rewrite Es in Hm. apply marks_none in Hm; [|done].
    unfold CALLBACK_DATA_NOADVANCE, CALLBACK_DATA_. do 5 wp_step.
    apply wp_assert; [by apply bool_decide_eq_true_2|]. unfold get_mark. rewrite Hm. by apply wp_ret, HQ.
  - apply wp_data_noadvance; [by eapply inv_can_call|lia|].
    intros x' Hx. apply HQ; [|destruct Hx as (_ & _ & -> & _); done].
    destruct Hi as (H1 & H2 & H3 & H4). destruct Hx as (E1 & E2 & _ & E4 & E5).
    unfold inv. rewrite E1, E2, E5.
    assert (marks_ok (st x) (filter (λ m, m.1 ≠ f) (marks x))) as Hm'.
    { destruct (marks x) as [|m [|]]; [done| |done]. rewrite filter_cons. by case_decide. }
    destruct E4 as [-> | ->]; by split_and!.
Qed.

Lemma leftover_ok (Q : unit → run → Prop) x :
  inv 0 x → pos x = len data → wp (leftover stg data) Q x.
Proof using Ht.
  intros Hi Hp. unfold leftover. do 3 wp_step. apply wp_assert.
  { destruct Hi as (_&_&_&Hm). by destruct (marks x) as [|? [|]]. }
  do 5 (wp_step; apply leftover_data_ok; [done..|]; clear dependent x; intros x Hi Hp).
  destruct Hi as (H1 & H2 & H3 & _). apply wp_RETURN; [lia|done|].
  destruct (decide (st x = s_chunk_size_start)) as [Es|]; [|by eapply state_ok_any].
  rewrite Es in *. by destruct H3 as [H3 ->].
Qed.
(** A parser that can go on, or one that has failed for good. *)
Definition valid q : Prop := errno q = HPE_OK ∨ errno q = HPE_PAUSED → good q.

Lemma initial_marks_ok s : marks_ok s (initial_marks s).
Proof. by destruct s. Qed.

(** Without input the function returns 0, or 1 with the error for an end
    in the middle of a message. *)
Lemma at_eof_ok x :
  errno (prs x) = HPE_OK → good (prs x) → st x = p_state (prs x) → pos x = 0%nat →
  wp (at_eof stg) (λ _ _, False) x ∨
  ∃ x', at_eof stg x = (Return _ 1, x') ∧ errno (prs x') = HPE_INVALID_EOF_STATE.
Proof using Ht.
  intros Hok Hg Hst Hp. assert (returned 0 x) as Hr by (split; [lia|by intros _]).
  assert (at_eof stg x = match st x with
     | s_body_identity_eof => _ ← CALLBACK_NOTIFY_NOADVANCE stg message_complete; ret 0
     | s_dead | s_start_req_or_res | s_start_res | s_start_req => ret 0
     | _ => _ ← SET_ERRNO HPE_INVALID_EOF_STATE; ret 1
     end x) as Heq by done.
  unfold wp. rewrite Heq. destruct (st x) eqn:Es;
    try (left; by apply wp_return);
    try (right; eexists; split; [reflexivity|done]).
  left. apply (wp_bind (CALLBACK_NOTIFY_NOADVANCE stg message_complete)).
  apply wp_notify_noadvance; [|lia|].
  - destruct Hg as [Hg _]. split_and!; try done. by rewrite Es.
  - intros x' (H1 & _ & _ & _ & H5). apply wp_return. split; [lia|]. intros _.
    destruct Hg as [Hg Hg']. destruct H5 as [-> | ->]; [done|]. split; [done|]. cbn. by rewrite Es.
Qed.

Lemma main_ok x :
  errno (prs x) = HPE_OK → good (prs x) → st x = p_state (prs x) → cnt x = nread (prs x) →
  pos x = 0%nat → (0 < len data)%nat →
  wp (_ ← upd (λ x, set_marks (initial_marks (st x)) x);
      _ ← main_loop stg max data (S (len data)); leftover stg data) (λ _ _, False) x.
Proof using Ht.
  intros Hok [Hl Hg] Hst Hc Hp Hn. do 3 wp_step.
  eapply wp_mono; [apply main_loop_ok; [|cbn; lia..]|].
  - unfold inv. cbn. rewrite Hst, Hc. split_and!; try done. apply initial_marks_ok.
  - cbn. intros _ x' [Hi Hp']. by apply leftover_ok.
Qed.

Lemma at_error_ok x : failed x → ∃ n x', at_error x = (Return _ n, x') ∧
  0 <= n <= Z.of_nat (len data) ∧ valid (prs x').
Proof.
  intros (Hp & H1 & H2). unfold at_error, mbind, M_bind, ask. cbn. rewrite bool_decide_eq_false_2 by done. cbn.
  eexists _, _. split; [reflexivity|]. split; [lia|]. by intros [|].
Qed.
End safety.

Lemma init_valid t : valid (http_parser_init t).
Proof. intros _. split; [done|]. by destruct t. Qed.


Lemma execute_valid {U} (stg : @settings U) max data q u :
  tame stg → valid q →
  ∃ n q' u', http_parser_execute stg max data q u = Ret (n, (q', u')) ∧ valid q' ∧
    (0 <= n <= Z.of_nat (length data) ∨
     data = [] ∧ n = 1 ∧ errno q' = HPE_INVALID_EOF_STATE).
Proof.
  intros Ht Hv. unfold http_parser_execute.
  set (x := mkRun q (p_state q) (nread q) 0 [] u).
  destruct (execute_body stg max data x) as [r x'] eqn:E.
  destruct (decide (errno q = HPE_OK)) as [Eq|Eq]; unfold execute_body, mbind, M_bind, ask in E; cbn in E.
  2:{ rewrite bool_decide_eq_false_2 in E by done. injection E as <- <-.
      eexists _, _, _. split; [reflexivity|]. split; [done|]. left. lia. }
  rewrite bool_decide_eq_true_2 in E by done. cbn in E.
  assert (match r with Go _ _ => False | Return _ n => returned data n x' | Error _ => failed data x'
          | Fault _ _ => False end ∨
          r = Return _ 1 ∧ errno (prs x') = HPE_INVALID_EOF_STATE ∧ data = []) as Hend.
  { destruct (len data =? 0)%nat eqn:El; cbn in E.
    - change (at_eof stg x = (r, x')) in E. unfold len in El.
      destruct (at_eof_ok stg data Ht x) as [H|(x1 & Hx & He)]; try done; [by apply Hv; left|..].
      + left. unfold wp in H. by rewrite E in H.
      + rewrite Hx in E. injection E as <- <-. right. split_and!; try done.
        apply Nat.eqb_eq in El. by destruct data.
    - pose proof (main_ok stg max data Ht x) as H. unfold wp in H. apply Nat.eqb_neq in El.
      change ((_ ← upd (λ x, set_marks (initial_marks (st x)) x);
               _ ← main_loop stg max data (S (len data)); leftover stg data) x = (r, x')) in E.
      rewrite E in H. left. apply H; try done; [by apply Hv; left|lia]. }
  destruct Hend as [H|(-> & He & Hd)].
  - destruct r as [a|n| |f]; try done.
    + destruct H as [Hn Hg]. eexists _, _, _. split; [reflexivity|]. split; [done|]. by left.
    + destruct (at_error_ok data x' H) as (n & x2 & -> & Hn & Hv').
      eexists _, _, _. split; [reflexivity|]. split; [done|]. by left.
  - eexists _, _, _. split; [reflexivity|]. split; [|by right]. unfold valid. rewrite He. by intros [|].
Qed.

(** C10: on a valid parser (a new one is, and pausing keeps it so), with
    callbacks that at most pause, every call of [http_parser_execute] returns:
    no assertion fails, no byte outside the method's name is compared, the
    loops end within the model's fuel.  It reports at most the whole input as
    consumed (without input 1 stands for an end of stream in the middle of a
    message), and leaves a valid parser. *)
Theorem execute_safe {U} (stg : @settings U) max data q u :
  tame stg → valid q →
  ∃ n q' u', http_parser_execute stg max data q u = Ret (n, (q', u')) ∧ valid q' ∧
    (0 <= n <= Z.of_nat (length data) ∨
     data = [] ∧ n = 1 ∧ errno q' = HPE_INVALID_EOF_STATE).
Proof. apply execute_valid. Qed.

(** A chunked request with callbacks that count, the end of the message
    pausing the parser. *)
Definition counting : @settings Z :=
  mkSettings (λ _, Some (λ q d n, (0, (q, n + Z.of_nat (length d)))))
    (λ f, match f with
          | message_complete => Some (λ q n, (0, (set_errno HPE_PAUSED q, n)))
          | _ => Some (λ q n, (0, (q, n)))
          end).

Definition chunked_request : bytes :=
  B "POST /a HTTP/1.1" ++ [CR; LF] ++ B "Transfer-Encoding: chunked" ++ [CR; LF; CR; LF]
  ++ B "5" ++ [CR; LF] ++ B "hello" ++ [CR; LF] ++ B "0" ++ [CR; LF; CR; LF].

Lemma execute_safe_witness :
  (∃ n q' u', http_parser_execute counting 8192 chunked_request (http_parser_init HTTP_REQUEST) 0
              = Ret (n, (q', u')) ∧ valid q' ∧
    (0 <= n <= Z.of_nat (length chunked_request) ∨
     chunked_request = [] ∧ n = 1 ∧ errno q' = HPE_INVALID_EOF_STATE)) ∧
  (n ← http_parser_execute counting 8192 chunked_request (http_parser_init HTTP_REQUEST) 0;
   mret (n.1, p_state n.2.1, errno n.2.1, n.2.2)) = Ret (63, s_start_req, HPE_PAUSED, 31).
Proof.
  split.
  - apply (execute_safe counting 8192 chunked_request (http_parser_init HTTP_REQUEST) 0).
    + split; [intros f cb q d u [= <-]; by left|].
      intros f cb q u Hf. destruct f; injection Hf as <-; (by left) || by right.
    + apply init_valid.
  - vm_compute. reflexivity.
Defined.
