(* ===== verification/HttpMessage.v ===== *)
(** * Parsing into messages ([http/http_parser.h], [http/http_parser.cc],
      [http/http_session.cc])

    The callbacks that fill an [HttpRequest] or an [HttpResponse] from what
    [http_parser_execute] reports, the two parser objects, and the loops that
    read a message from a connection.  What the socket delivers is a list of
    pieces. *)
From S2P Require Import Prelude StdString HttpParser HttpParserExec HttpUrl.
From S2P Require Import Http.
From S2P Require HttpResponse.

Local Open Scope Z_scope.

(** The part of a parser object its callbacks change. *)
Record filling (D : Type) := mkFilling { m_data : D; m_finished : bool; m_field : bytes }.
Arguments mkFilling {D} m_data m_finished m_field.
Arguments m_data {D} _.
Arguments m_finished {D} _.
Arguments m_field {D} _.

Section callbacks.
Context {D : Type}.
Implicit Types (u : filling D).
Definition on_data_of (f : D → D) u : filling D := mkFilling (f (m_data u)) (m_finished u) (m_field u).
(* sylar/http/http_parser.h:45-45, HttpRequestParser::setFinished *)
Definition setFinished (v : bool) u : filling D := mkFilling (m_data u) v (m_field u).
(* sylar/http/http_parser.h:77-77, HttpRequestParser::setField *)
Definition setField (v : bytes) u : filling D := mkFilling (m_data u) (m_finished u) v.
End callbacks.

(** [p->http_major << 4 | p->http_minor]. *)
Definition parsed_version (p : http_parser) : Z := Z.lor (Z.shiftl (http_major p) 4) (http_minor p).

(** [(HttpMethod)p->method]. *)
Definition method_number (m : http_method) : Z := StringToHttpMethod (method_strings m).

(* ------------------------------------------------------------------ *)
(** ** Requests *)

Abbreviation request_fill := (filling HttpRequest).

(** A piece of the URL. *)
Definition url_piece (buf : bytes) (v : http_parser_url) (f : http_parser_url_fields) : bytes :=
  take (Z.to_nat (HttpUrl.len (field_data v f))) (drop (Z.to_nat (HttpUrl.off (field_data v f))) buf).
Definition set_piece (buf : bytes) (v : http_parser_url) (f : http_parser_url_fields)
    (set : bytes → HttpRequest → HttpRequest) (u : request_fill) : request_fill :=
  if is_set v f then on_data_of (set (url_piece buf v f)) u else u.

(** [http_parser_parse_url] neither throws nor faults: the last branch is
    for its results other than 0. *)
(* sylar/http/http_parser.cc:130-156, on_request_url_cb *)
Definition on_request_url_cb (p : http_parser) (buf : bytes) (u : request_fill) : Z * (http_parser * request_fill) :=
  match http_parser_parse_url buf false http_parser_url_init with
  | Ret (0, v) =>
      (0, (p, set_piece buf v UF_FRAGMENT setFragment (set_piece buf v UF_QUERY setQuery
                (set_piece buf v UF_PATH setPath u))))
  | _ => (1, (p, u))
  end.

(* sylar/http/http_parser.cc:161-167, on_request_header_field_cb *)
Definition on_request_header_field_cb (p : http_parser) (buf : bytes) (u : request_fill) : Z * (http_parser * request_fill) :=
  (0, (p, setField buf u)).

(* sylar/http/http_parser.cc:172-178, on_request_header_value_cb *)
Definition on_request_header_value_cb (p : http_parser) (buf : bytes) (u : request_fill) : Z * (http_parser * request_fill) :=
  (0, (p, on_data_of (setHeader (m_field u) buf) u)).

(* sylar/http/http_parser.cc:192-198, on_request_body_cb *)
Definition on_request_body_cb (p : http_parser) (buf : bytes) (u : request_fill) : Z * (http_parser * request_fill) :=
  (0, (p, on_data_of (appendBody buf) u)).

(* sylar/http/http_parser.cc:93-99, on_request_headers_complete_cb *)
Definition on_request_headers_complete_cb (p : http_parser) (u : request_fill) : Z * (http_parser * request_fill) :=
  (0, (p, on_data_of (λ r, setMethod (method_number (method p)) (setVersion (parsed_version p) r)) u)).

(* sylar/http/http_parser.cc:104-109, on_request_message_complete_cb *)
Definition on_request_message_complete_cb (p : http_parser) (u : request_fill) : Z * (http_parser * request_fill) :=
  (0, (p, setFinished true u)).

(** The others log only. *)
(* sylar/http/http_parser.cc:200-211, s_request_settings *)
Definition s_request_settings : @settings request_fill :=
  mkSettings
    (λ f, Some (match f with
                | url => on_request_url_cb
                | header_field => on_request_header_field_cb
                | header_value => on_request_header_value_cb
                | body => on_request_body_cb
                | status => λ p _ u, (0, (p, u))
                end))
    (λ f, Some (match f with
                | headers_complete => on_request_headers_complete_cb
                | message_complete => on_request_message_complete_cb
                | _ => λ p u, (0, (p, u))
                end)).

(* sylar/http/http_parser.h:90-101, HttpRequestParser *)
Record HttpRequestParser := mkRequestParser {
  m_parser : http_parser;
  fill : request_fill;
  m_error : Z
}.

(* sylar/http/http_parser.cc:213-218, HttpRequestParser::HttpRequestParser *)
Definition new_HttpRequestParser : HttpRequestParser :=
  mkRequestParser (http_parser_init HTTP_REQUEST) (mkFilling (new_HttpRequest 17 true) false []) 0.

(* sylar/http/http_parser.h:51-51, HttpRequestParser::hasError *)
Definition hasError (x : HttpRequestParser) : bool := negb (m_error x =? 0).

(** [memmove(data, data + n, len - n)]. *)
Definition moved (data : bytes) (n : Z) : bytes := drop (Z.to_nat n) data ++ drop (length data - Z.to_nat n) data.

(** The value of an error code. *)
Definition errnos : list http_errno :=
  [HPE_OK; HPE_CB_message_begin; HPE_CB_url; HPE_CB_header_field; HPE_CB_header_value;
   HPE_CB_headers_complete; HPE_CB_body; HPE_CB_message_complete; HPE_CB_status;
   HPE_CB_chunk_header; HPE_CB_chunk_complete; HPE_INVALID_EOF_STATE; HPE_HEADER_OVERFLOW;
   HPE_CLOSED_CONNECTION; HPE_INVALID_VERSION; HPE_INVALID_STATUS; HPE_INVALID_METHOD;
   HPE_INVALID_URL; HPE_INVALID_HOST; HPE_INVALID_PORT; HPE_INVALID_PATH;
   HPE_INVALID_QUERY_STRING; HPE_INVALID_FRAGMENT; HPE_LF_EXPECTED;
   HPE_INVALID_HEADER_TOKEN; HPE_INVALID_CONTENT_LENGTH; HPE_UNEXPECTED_CONTENT_LENGTH;
   HPE_INVALID_CHUNK_SIZE; HPE_INVALID_CONSTANT; HPE_INVALID_INTERNAL_STATE; HPE_STRICT;
   HPE_PAUSED; HPE_UNKNOWN].
Definition errno_number (e : http_errno) : Z :=
  match list_find (λ x, x = e) errnos with Some (i, _) => Z.of_nat i | None => 0 end.

(** The number of bytes taken, the buffer and the parser afterwards. *)
(* sylar/http/http_parser.cc:220-235, HttpRequestParser::execute *)
Definition execute (max : Z) (data : bytes) (x : HttpRequestParser) : outcome (Z * bytes * HttpRequestParser) :=
  '(n, (p, u)) ← http_parser_execute s_request_settings max data (m_parser x) (fill x);
  if upgrade p then Ret (n, data, mkRequestParser p u (errno_number HPE_UNKNOWN))
  else if negb (bool_decide (errno p = HPE_OK)) then Ret (n, data, mkRequestParser p u (errno_number (errno p)))
  else Ret (n, if n <? Z.of_nat (length data) then moved data n else data, mkRequestParser p u (m_error x)).

(* ------------------------------------------------------------------ *)
(** ** Responses *)

Abbreviation response_fill := (filling HttpResponse.HttpResponse).

(* sylar/http/http_parser.cc:294-300, on_response_header_field_cb *)
Definition on_response_header_field_cb (p : http_parser) (buf : bytes) (u : response_fill) : Z * (http_parser * response_fill) :=
  (0, (p, setField buf u)).

(* sylar/http/http_parser.cc:305-311, on_response_header_value_cb *)
Definition on_response_header_value_cb (p : http_parser) (buf : bytes) (u : response_fill) : Z * (http_parser * response_fill) :=
  (0, (p, on_data_of (HttpResponse.setHeader (m_field u) buf) u)).

(* sylar/http/http_parser.cc:316-321, on_response_status_cb *)
Definition on_response_status_cb (p : http_parser) (buf : bytes) (u : response_fill) : Z * (http_parser * response_fill) :=
  (0, (p, on_data_of (HttpResponse.setStatus (status_code p)) u)).

(* sylar/http/http_parser.cc:326-332, on_response_body_cb *)
Definition on_response_body_cb (p : http_parser) (buf : bytes) (u : response_fill) : Z * (http_parser * response_fill) :=
  (0, (p, on_data_of (HttpResponse.appendBody buf) u)).

(* sylar/http/http_parser.cc:249-255, on_response_headers_complete_cb *)
Definition on_response_headers_complete_cb (p : http_parser) (u : response_fill) : Z * (http_parser * response_fill) :=
  (0, (p, on_data_of (λ r, HttpResponse.setStatus (status_code p) (HttpResponse.setVersion (parsed_version p) r)) u)).

(* sylar/http/http_parser.cc:260-265, on_response_message_complete_cb *)
Definition on_response_message_complete_cb (p : http_parser) (u : response_fill) : Z * (http_parser * response_fill) :=
  (0, (p, setFinished true u)).

(* sylar/http/http_parser.cc:334-344, s_response_settings *)
Definition s_response_settings : @settings response_fill :=
  mkSettings
    (λ f, Some (match f with
                | url => λ p _ u, (0, (p, u))
                | header_field => on_response_header_field_cb
                | header_value => on_response_header_value_cb
                | body => on_response_body_cb
                | status => on_response_status_cb
                end))
    (λ f, Some (match f with
                | headers_complete => on_response_headers_complete_cb
                | message_complete => on_response_message_complete_cb
                | _ => λ p u, (0, (p, u))
                end)).

(* sylar/http/http_parser.h:177-188, HttpResponseParser *)
Record HttpResponseParser := mkResponseParser {
  m_rparser : http_parser;
  rfill : response_fill;
  m_rerror : Z
}.

(* sylar/http/http_parser.cc:346-352, HttpResponseParser::HttpResponseParser *)
Definition new_HttpResponseParser : HttpResponseParser :=
  mkResponseParser (http_parser_init HTTP_RESPONSE) (mkFilling (HttpResponse.new_HttpResponse 17 true) false []) 0.

(* sylar/http/http_parser.cc:354-365, HttpResponseParser::execute *)
Definition execute_response (max : Z) (data : bytes) (x : HttpResponseParser) : outcome (Z * bytes * HttpResponseParser) :=
  '(n, (p, u)) ← http_parser_execute s_response_settings max data (m_rparser x) (rfill x);
  if negb (bool_decide (errno p = HPE_OK)) then Ret (n, data, mkResponseParser p u (errno_number (errno p)))
  else Ret (n, if n <? Z.of_nat (length data) then moved data n else data, mkResponseParser p u (m_rerror x)).

(* ------------------------------------------------------------------ *)
(** ** Reading from a connection *)

(** [read(buf, n)] on what is still to come, in the pieces it comes in; no
    piece is the end of the stream or an error. *)
Definition read_piece (n : Z) (pieces : list bytes) : bytes * list bytes :=
  match pieces with
  | [] => ([], [])
  | p :: rest =>
      if Z.of_nat (length p) <=? n then (p, rest)
      else (take (Z.to_nat n) p, drop (Z.to_nat n) p :: rest)
  end.

(** The loop: [buf] is what is in the buffer below [offset].  [None] when
    the connection was closed; the pieces not yet read are left. *)
(* sylar/http/http_session.cc:19-40, HttpSession::recvRequest *)
Fixpoint recv_request_loop (fuel : nat) (max buff_size : Z) (buf : bytes) (x : HttpRequestParser) (pieces : list bytes)
  : outcome (option HttpRequestParser * list bytes) :=
  match fuel with
  | O => Crash no_fuel
  | S f =>
      let offset := Z.of_nat (length buf) in
      let '(p, rest) := read_piece (buff_size - offset) pieces in
      if bool_decide (p = []) then Ret (None, rest)
      else
        let len := offset + Z.of_nat (length p) in
        '(n, data, x) ← execute max (buf ++ p) x;
        if hasError x then Ret (None, rest)
        else
          let offset := len - n in
          if offset =? i32 buff_size then Ret (None, rest)
          else if m_finished (fill x) then Ret (Some x, rest)
          else recv_request_loop f max buff_size (take (Z.to_nat offset) data) x rest
  end.

(** No round reads less than a byte. *)
Fixpoint total (pieces : list bytes) : nat :=
  match pieces with [] => 0 | p :: rest => S (length p + total rest) end.

(* sylar/http/http_session.cc:11-69, HttpSession::recvRequest *)
Definition recvRequest (max buff_size : Z) (pieces : list bytes) : outcome (option HttpRequest * list bytes) :=
  '(x, rest) ← recv_request_loop (S (total pieces)) max buff_size [] new_HttpRequestParser pieces;
  Ret (option_map (λ x, init (m_data (fill x))) x, rest).

(* sylar/http/http_connection.cc:42-64, HttpConnection::recvResponse *)
Fixpoint recv_response_loop (fuel : nat) (max buff_size : Z) (buf : bytes) (x : HttpResponseParser) (pieces : list bytes)
  : outcome (option HttpResponseParser * list bytes) :=
  match fuel with
  | O => Crash no_fuel
  | S f =>
      let offset := Z.of_nat (length buf) in
      let '(p, rest) := read_piece (buff_size - offset) pieces in
      if bool_decide (p = []) then Ret (None, rest)
      else
        let len := offset + Z.of_nat (length p) in
        '(n, data, x) ← execute_response max (buf ++ p) x;
        if negb (m_rerror x =? 0) then Ret (None, rest)
        else
          let offset := len - n in
          if offset =? i32 buff_size then Ret (None, rest)
          else if m_finished (rfill x) then Ret (Some x, rest)
          else recv_response_loop f max buff_size (take (Z.to_nat offset) data) x rest
  end.

(* sylar/http/http_connection.cc:34-41, HttpConnection::recvResponse *)
Definition recvResponse (max buff_size : Z) (pieces : list bytes) : outcome (option HttpResponse.HttpResponse * list bytes) :=
  '(x, rest) ← recv_response_loop (S (total pieces)) max buff_size [] new_HttpResponseParser pieces;
  Ret (option_map (λ x, m_data (rfill x)) x, rest).
