(* ===== verification/HttpMessageTheorems.v ===== *)
(** * Reading messages: what the loops promise

    Reading a message always ends without a fault, however the stream is cut
    into pieces; what is read depends on the cuts. *)
From S2P Require Import Prelude StdString HttpParser HttpParserExec HttpParserSafety.
From S2P Require Import Http HttpMessage.
From S2P Require HttpResponse.

Local Open Scope Z_scope.

(* ------------------------------------------------------------------ *)
(** ** The loops end *)

Lemma request_tame : tame s_request_settings.
Proof.
  split.
  - intros f cb q d u [= <-]. left. destruct f; try done. unfold on_request_url_cb.
    by destruct (HttpUrl.http_parser_parse_url _ _ _) as [[[|?|?] v]|?|?].
  - intros f cb q u [= <-]. left. by destruct f.
Qed.
Lemma response_tame : tame s_response_settings.
Proof.
  split.
  - intros f cb q d u [= <-]. left. by destruct f.
  - intros f cb q u [= <-]. left. by destruct f.
Qed.

Lemma execute_ok max data x : valid (m_parser x) → data ≠ [] →
  ∃ n data' x', execute max data x = Ret (n, data', x') ∧ valid (m_parser x') ∧
    0 <= n <= Z.of_nat (length data).
Proof.
  intros Hv Hd. destruct (execute_valid s_request_settings max data (m_parser x) (fill x) request_tame Hv)
    as (n & q & u & E & Hv' & [Hn|[? _]]); [|done].
  unfold execute. rewrite E. cbn [mbind outcome_bind].
  destruct (upgrade q); [by do 3 eexists|]. destruct (negb _); by do 3 eexists.
Qed.

Lemma execute_response_ok max data x : valid (m_rparser x) → data ≠ [] →
  ∃ n data' x', execute_response max data x = Ret (n, data', x') ∧ valid (m_rparser x') ∧
    0 <= n <= Z.of_nat (length data).
Proof.
  intros Hv Hd. destruct (execute_valid s_response_settings max data (m_rparser x) (rfill x) response_tame Hv)
    as (n & q & u & E & Hv' & [Hn|[? _]]); [|done].
  unfold execute_response. rewrite E. cbn [mbind outcome_bind]. destruct (negb _); by do 3 eexists.
Qed.

Lemma read_piece_total n pieces p rest : read_piece n pieces = (p, rest) → p ≠ [] →
  (total rest < total pieces)%nat.
Proof.
  unfold read_piece. destruct pieces as [|q pieces]; [by intros [= <- <-]|].
  destruct (Z.leb_spec (Z.of_nat (length q)) n) as [H|H]; intros [= <- <-] Hp; cbn [total]; [lia|].
  assert (length (take (Z.to_nat n) q) ≠ 0%nat) by (by intros ?%nil_length_inv).
  rewrite length_take in *. rewrite length_drop. lia.
Qed.

Lemma recv_request_ok max buff_size buf x pieces fuel : valid (m_parser x) → (total pieces < fuel)%nat →
  ∃ r rest, recv_request_loop fuel max buff_size buf x pieces = Ret (r, rest).
Proof.
  revert buf x pieces. induction fuel as [|f IH]; intros buf x pieces Hv Hf; [lia|].
  cbn [recv_request_loop]. destruct (read_piece _ pieces) as [p rest] eqn:Er.
  case_bool_decide as Hp; [by do 2 eexists|]. pose proof (read_piece_total _ _ _ _ Er Hp).
  destruct (execute_ok max (buf ++ p) x Hv) as (n & data & x' & -> & Hv' & _);
    [intros [_ ?]%app_nil; done|]. cbn [mbind outcome_bind].
  destruct (hasError x'); [by do 2 eexists|]. destruct (_ =? i32 buff_size); [by do 2 eexists|].
  destruct (m_finished _); [by do 2 eexists|]. apply IH; [done|lia].
Qed.

Lemma recv_response_ok max buff_size buf x pieces fuel : valid (m_rparser x) → (total pieces < fuel)%nat →
  ∃ r rest, recv_response_loop fuel max buff_size buf x pieces = Ret (r, rest).
Proof.
  revert buf x pieces. induction fuel as [|f IH]; intros buf x pieces Hv Hf; [lia|].
  cbn [recv_response_loop]. destruct (read_piece _ pieces) as [p rest] eqn:Er.
  case_bool_decide as Hp; [by do 2 eexists|]. pose proof (read_piece_total _ _ _ _ Er Hp).
  destruct (execute_response_ok max (buf ++ p) x Hv) as (n & data & x' & -> & Hv' & _);
    [intros [_ ?]%app_nil; done|]. cbn [mbind outcome_bind].
  destruct (negb _); [by do 2 eexists|]. destruct (_ =? i32 buff_size); [by do 2 eexists|].
  destruct (m_finished _); [by do 2 eexists|]. apply IH; [done|lia].
Qed.

(** C20: whatever a peer sends, in whatever pieces, reading a request or a
    response ends: the parser never faults, the loops stop after at most as
    many reads as there are bytes and pieces, and the call returns a message or
    closes the connection. *)
Theorem recv_terminates max buff_size pieces :
  (∃ r rest, recvRequest max buff_size pieces = Ret (r, rest)) ∧
  (∃ r rest, recvResponse max buff_size pieces = Ret (r, rest)).
Proof.
  split.
  - unfold recvRequest.
    destruct (recv_request_ok max buff_size [] new_HttpRequestParser pieces (S (total pieces)))
      as (r & rest & ->); [apply init_valid|lia|]. by do 2 eexists.
  - unfold recvResponse.
    destruct (recv_response_ok max buff_size [] new_HttpResponseParser pieces (S (total pieces)))
      as (r & rest & ->); [apply init_valid|lia|]. by do 2 eexists.
Qed.

(* ------------------------------------------------------------------ *)
(** ** The cuts show *)

Definition sample_text : bytes :=
  B "GET /a/b?x=1#f HTTP/1.1" ++ crlf ++ B "Host: example.com" ++ crlf ++ B "Content-Length: 3" ++ crlf
  ++ crlf ++ B "xyz".
Definition second_text : bytes := B "GET /second HTTP/1.1" ++ crlf ++ crlf.

Definition received (pieces : list bytes) : option (option HttpRequest) :=
  match recvRequest 81920 4096 pieces with Ret (r, _) => Some r | _ => None end.
Definition header_of (name : bytes) (r : option (option HttpRequest)) : option bytes :=
  match r with Some (Some r) => lookup_ci name (m_headers r) | _ => None end.

(** What is read depends on how the stream is cut.  The parser reports a
    header's value in as many parts as there are pieces, and each part
    replaces the one before; a URL in two pieces is parsed piece by piece and
    the request refused; two requests that arrive together are poured into one
    message, the path of the second with the query and body of the first. *)
Theorem recv_depends_on_pieces :
  header_of (B "host") (received [sample_text]) = Some (B "example.com") ∧
  header_of (B "host") (received [take 34 sample_text; drop 34 sample_text]) = Some (B "mple.com") ∧
  received [take 8 sample_text; drop 8 sample_text] = Some None ∧
  ∃ r, received [sample_text ++ second_text] = Some (Some r) ∧
    m_path r = B "/second" ∧ m_query r = B "x=1" ∧ m_body r = B "xyz".
Proof.
  split_and!; [vm_compute; reflexivity..|]. eexists. split; [vm_compute; reflexivity|].
  split_and!; vm_compute; reflexivity.
Qed.
