(* ===== verification/HttpServer.v ===== *)
(** * Serving a connection ([http/http_server.cc])

    The loop of [handleClient]: receive a request, let the dispatcher fill the
    response, send it, until the peer or the server wants to close. *)
From S2P Require Import Prelude StdString.
From S2P Require Http HttpResponse.
From S2P Require Import HttpParserSafety HttpMessage HttpMessageTheorems Servlet.

Local Open Scope Z_scope.

Section server.
Context (fnmatch : bytes → bytes → bool) (max buff_size : Z).

(** [m_isKeepalive], the server's name and its dispatcher. *)
(* sylar/http/http_server.cc:11-22, HttpServer *)
Record HttpServer := mkServer {
  m_isKeepalive : bool;
  m_name : bytes;
  m_dispatch : ServletDispatch
}.

(* sylar/http/http_server.cc:24-27, HttpServer::setName *)
Definition setName (v : bytes) (s : HttpServer) : HttpServer :=
  mkServer (m_isKeepalive s) v (setDefault (NotFoundServlet v) (m_dispatch s)).

(** The response the dispatcher is given, and what it makes of the two. *)
(* sylar/http/http_server.cc:41-44, HttpServer::handleClient *)
Definition respond (s : HttpServer) (req : Http.HttpRequest) : Http.HttpRequest * HttpResponse.HttpResponse :=
  let rsp := HttpResponse.setHeader (B "Server") (m_name s)
               (HttpResponse.new_HttpResponse (Http.m_version req) (Http.m_close req || negb (m_isKeepalive s))) in
  (handle fnmatch (m_dispatch s) req rsp).2.

(** What the peer sends, in pieces; the responses sent.  The result of
    [sendResponse] is not looked at. *)
(* sylar/http/http_server.cc:29-52, HttpServer::handleClient *)
Fixpoint handleClient (fuel : nat) (s : HttpServer) (pieces : list bytes) : outcome (list HttpResponse.HttpResponse) :=
  match fuel with
  | O => Crash no_fuel
  | S f =>
      '(req, rest) ← recvRequest max buff_size pieces;
      match req with
      | None => Ret []
      | Some req =>
          let '(req, rsp) := respond s req in
          if negb (m_isKeepalive s) || Http.m_close req then Ret [rsp]
          else rsps ← handleClient f s rest; Ret (rsp :: rsps)
      end
  end.

(* sylar/http/http_session.cc:71-76, HttpSession::sendResponse *)
Definition sendResponse (rsp : HttpResponse.HttpResponse) : bytes := HttpResponse.dump rsp.

(** Servlets that leave the decision to close alone. *)
Definition polite (s : HttpServer) : Prop := ∀ req rsp,
  let r := (handle fnmatch (m_dispatch s) req rsp).2 in
  Http.m_close r.1 = Http.m_close req ∧ HttpResponse.m_close r.2 = HttpResponse.m_close rsp.

Lemma recv_loop_total fuel buf x pieces x' rest :
  recv_request_loop fuel max buff_size buf x pieces = Ret (Some x', rest) → (total rest < total pieces)%nat.
Proof.
  revert buf x pieces. induction fuel as [|f IH]; intros buf x pieces; [done|]. cbn [recv_request_loop].
  destruct (read_piece _ pieces) as [p rest0] eqn:Er. case_bool_decide as Hp; [done|].
  pose proof (read_piece_total _ _ _ _ Er Hp) as Ht.
  destruct (execute max (buf ++ p) x) as [[[n data] x1]|?|?]; [|done..]. cbn [mbind outcome_bind].
  destruct (hasError x1); [done|]. destruct (_ =? i32 buff_size); [done|].
  destruct (m_finished _); [by intros [= _ <-]|]. intros E. apply IH in E. lia.
Qed.

Lemma recvRequest_total pieces r rest :
  recvRequest max buff_size pieces = Ret (Some r, rest) → (total rest < total pieces)%nat.
Proof.
  unfold recvRequest. destruct (recv_request_loop _ _ _ _ _ _) as [[[x|] rest0]|?|?] eqn:E; try done.
  cbn [mbind outcome_bind]. intros [= _ <-]. by eapply recv_loop_total.
Qed.

Lemma recvRequest_ret pieces : ∃ r rest, recvRequest max buff_size pieces = Ret (r, rest).
Proof.
  unfold recvRequest.
  destruct (recv_request_ok max buff_size [] new_HttpRequestParser pieces (S (total pieces)))
    as (r & rest & ->); [apply init_valid|lia|]. by do 2 eexists.
Qed.

(** The requests received one after the other from [pieces], and what is
    left after the last of them. *)
Inductive receives : list bytes → list Http.HttpRequest → list bytes → Prop :=
  | receives_nil pieces : receives pieces [] pieces
  | receives_cons pieces req rest reqs left :
      recvRequest max buff_size pieces = Ret (Some req, rest) → receives rest reqs left →
      receives pieces (req :: reqs) left.

(** Whether the server ends the connection after this request, and the
    response it sends. *)
Definition ends_after (s : HttpServer) (req : Http.HttpRequest) : bool :=
  negb (m_isKeepalive s) || Http.m_close (respond s req).1.
Definition response_to (s : HttpServer) (req : Http.HttpRequest) : HttpResponse.HttpResponse :=
  (respond s req).2.

(** No request but possibly the last ended the connection. *)
Definition kept_until_last (s : HttpServer) (reqs : list Http.HttpRequest) : Prop :=
  ∀ l req r, reqs = l ++ req :: r → r ≠ [] → ends_after s req = false.

Lemma respond_close s req : polite s →
  Http.m_close (respond s req).1 = Http.m_close req ∧
  HttpResponse.m_close (response_to s req) = ends_after s req.
Proof.
  intros Hp. unfold response_to, ends_after, respond.
  set (rsp0 := HttpResponse.setHeader _ _ _). destruct (Hp req rsp0) as [-> ->].
  split; [done|]. apply orb_comm.
Qed.

Lemma kept_cons s req reqs : ends_after s req = false → kept_until_last s reqs →
  kept_until_last s (req :: reqs).
Proof.
  intros He Hk [|x l] req' r E Hr; injection E as <- E; [done|]. by eapply Hk.
Qed.

Lemma handleClient_conversation fuel s pieces : (total pieces < fuel)%nat →
  ∃ reqs left, receives pieces reqs left ∧
    handleClient fuel s pieces = Ret (response_to s <$> reqs) ∧ kept_until_last s reqs ∧
    ((∃ req, last reqs = Some req ∧ ends_after s req = true) ∨
     (∃ rest, recvRequest max buff_size left = Ret (None, rest)) ∧
       Forall (λ req, ends_after s req = false) reqs).
Proof.
  revert pieces. induction fuel as [|f IH]; intros pieces Hf; [lia|]. cbn [handleClient].
  destruct (recvRequest_ret pieces) as ([req|] & rest & E).
  2:{ exists [], pieces. rewrite E. split_and!; [constructor|done|by intros [|? ?] ? ? [=]|].
      right. split; [by exists rest|constructor]. }
  rewrite E. cbn [mbind outcome_bind]. pose proof (recvRequest_total _ _ _ E).
  rewrite (surjective_pairing (respond s req)). fold (response_to s req).
  change (negb (m_isKeepalive s) || _) with (ends_after s req).
  destruct (ends_after s req) eqn:He.
  { exists [req], rest. split_and!; [by repeat econstructor|done| |left; by exists req].
    intros [|? [|]] ? ? [=]; by subst. }
  destruct (IH rest ltac:(lia)) as (reqs & left & Hr & -> & Hk & Hend).
  exists (req :: reqs), left. split_and!; [by econstructor|done|by apply kept_cons|].
  destruct Hend as [(q & Hq & Hl)|[Hn Hall]]; [|right; split; [done|by constructor]].
  left. exists q. split; [|done]. by destruct reqs.
Qed.

(** C21: serving a connection ends, whatever the peer sends and whatever
    the servlets do: the requests received one after the other are answered
    each with its response, and the connection is ended after the first
    request that the server does not keep the connection after (a server
    that does not keep connections: the first request; otherwise the first
    one that asks to close, as its servlet left it), or when no further
    request could be received.  With [polite] servlets, which leave the
    decision alone, a response announces that the connection is closed
    exactly when the server ends it there: every response but the last
    announces that it is kept, and so does the last only when no further
    request could be received. *)
Theorem handle_client_ends s pieces :
  ∃ reqs left, receives pieces reqs left ∧
    handleClient (S (total pieces)) s pieces = Ret (response_to s <$> reqs) ∧
    (m_isKeepalive s = false → (length reqs <= 1)%nat) ∧
    kept_until_last s reqs ∧
    ((∃ req, last reqs = Some req ∧ ends_after s req = true) ∨
     (∃ rest, recvRequest max buff_size left = Ret (None, rest)) ∧
       Forall (λ req, ends_after s req = false) reqs) ∧
    (polite s →
      Forall (λ req, HttpResponse.m_close (response_to s req) = ends_after s req ∧
                     ends_after s req = Http.m_close req || negb (m_isKeepalive s)) reqs).
Proof.
  destruct (handleClient_conversation (S (total pieces)) s pieces ltac:(lia))
    as (reqs & left & Hr & E & Hk & Hend).
  exists reqs, left. split_and!; [done|done| |done|done|].
  - intros Hs. destruct reqs as [|x [|y l]]; cbn; [lia|lia|].
    specialize (Hk [] x (y :: l) eq_refl ltac:(done)). unfold ends_after in Hk. by rewrite Hs in Hk.
  - intros Hp. apply Forall_forall. intros req _. destruct (respond_close s req Hp) as [Hc Hq].
    split; [done|]. unfold ends_after. rewrite Hc. apply orb_comm.
Qed.
End server.

(** A server without servlets, and a peer that asks twice to keep the
    connection and then to close it. *)
Definition sample_server : HttpServer := setName (B "sample") (mkServer true [] new_ServletDispatch).
Definition ask (connection : bytes) : bytes :=
  B "GET /x HTTP/1.1" ++ Http.crlf ++ B "Connection: " ++ connection ++ Http.crlf ++ Http.crlf.

Lemma sample_polite : polite star_match sample_server.
Proof. intros req rsp. unfold handle, getMatchedServlet. cbn. done. Qed.

Definition sample_pieces : list bytes :=
  [ask (B "keep-alive"); ask (B "keep-alive"); ask (B "close"); ask (B "close")].

Lemma handle_client_ends_witness :
  (∃ reqs left, receives 81920 4096 sample_pieces reqs left ∧
    handleClient star_match 81920 4096 (S (total sample_pieces)) sample_server sample_pieces
      = Ret (response_to star_match sample_server <$> reqs) ∧
    Forall (λ req, HttpResponse.m_close (response_to star_match sample_server req)
                   = ends_after star_match sample_server req) reqs) ∧
  (rsps ← handleClient star_match 81920 4096 9 sample_server sample_pieces;
   mret (map HttpResponse.m_close rsps)) = Ret [false; false; true].
Proof.
  split; [|vm_compute; reflexivity].
  destruct (handle_client_ends star_match 81920 4096 sample_server sample_pieces)
    as (reqs & left & Hr & E & _ & _ & _ & Hp).
  exists reqs, left. split_and!; [exact Hr|exact E|].
  eapply Forall_impl; [apply (Hp sample_polite)|]. by intros req [? _].
Defined.
