(* ===== verification/IOManager.v ===== *)
(** * The IO scheduler ([iomanager.h], [iomanager.cc])

    An [IOManager] is a scheduler and a timer manager with a vector of
    descriptor contexts, an epoll instance and a pipe.  Each operation on
    a descriptor holds that context's mutex, so that it is one step; the
    only part that is not is the lookup of the context, which [addEvent]
    makes in two ([find_context], then [contextResize] if it was not
    there).  The idle fiber's turn is a sequence of such steps, with those of
    other threads in between.  A context is never moved nor freed before the destructor:
    the pointer [epoll_event.data.ptr] is its index.  The kernel's epoll
    is a parameter. *)
From S2P Require Import Prelude Timer Fiber Scheduler.

Local Open Scope Z_scope.

(* sylar/iomanager.h:25-32, IOManager::Event *)
Definition NONE : Z := 0x0.
Definition READ : Z := 0x1.
Definition WRITE : Z := 0x4.

(** The constants of [sys/epoll.h]. *)
Definition EPOLLIN : Z := 0x001.
Definition EPOLLOUT : Z := 0x004.
Definition EPOLLERR : Z := 0x008.
Definition EPOLLHUP : Z := 0x010.
Definition EPOLLET : Z := 2 ^ 31.

(* sylar/iomanager.cc:19-20, EpollCtlOp *)
Inductive EpollCtlOp := EPOLL_CTL_ADD | EPOLL_CTL_MOD | EPOLL_CTL_DEL.

(** [a & b] as a condition, and [a & ~b]. *)
Definition has (a b : Z) : bool := negb (Z.land a b =? 0).
Definition without (a b : Z) : Z := Z.ldiff a b.

Section iomanager.
Context {Cb K : Type}.

(** [epoll_ctl(m_epfd, op, fd, {events, ptr})]: whether it returned 0. *)
Context (epoll_ctl : EpollCtlOp → Z → Z → Z → K → bool * K).

(** The address of this scheduler. *)
Context (this : Z).

(* sylar/iomanager.h:46-53, EventContext *)
Record EventContext := mkEventContext {
  scheduler : option Z;
  ev_fiber : option Z;
  ev_cb : option Cb
}.

(* sylar/iomanager.h:75-85, FdContext *)
Record FdContext := mkFdContext {
  read : EventContext;
  write : EventContext;
  fd : Z;
  events : Z
}.

(** The scheduler and the timer manager it is, and the tasks handed to
    other schedulers, in order. *)
(* sylar/iomanager.h:179-190, IOManager *)
Record IOManager := mkIOManager {
  sched : @Scheduler Cb;
  handed : list (Z * @ScheduleTask Cb);
  timers : @TimerManager Cb;
  m_fdContexts : list FdContext;
  m_pendingEventCount : Z;
  pipe : Z;
  epoll : K
}.

Implicit Types (s : IOManager) (c : FdContext) (ev : Z).

Definition set_sched v s := mkIOManager v (handed s) (timers s) (m_fdContexts s) (m_pendingEventCount s) (pipe s) (epoll s).
Definition set_handed v s := mkIOManager (sched s) v (timers s) (m_fdContexts s) (m_pendingEventCount s) (pipe s) (epoll s).
Definition set_timers v s := mkIOManager (sched s) (handed s) v (m_fdContexts s) (m_pendingEventCount s) (pipe s) (epoll s).
Definition set_contexts v s := mkIOManager (sched s) (handed s) (timers s) v (m_pendingEventCount s) (pipe s) (epoll s).
Definition set_pending v s := mkIOManager (sched s) (handed s) (timers s) (m_fdContexts s) v (pipe s) (epoll s).
Definition set_pipe v s := mkIOManager (sched s) (handed s) (timers s) (m_fdContexts s) (m_pendingEventCount s) v (epoll s).
Definition set_epoll v s := mkIOManager (sched s) (handed s) (timers s) (m_fdContexts s) (m_pendingEventCount s) (pipe s) v.

Definition set_events v c := mkFdContext (read c) (write c) (fd c) v.

(** Operations of the two base classes. *)
Definition on_scheduler {A} (m : stE (@Scheduler Cb) A) : stE IOManager A := λ s,
  let '(r, x') := m (sched s) in (r, set_sched x' s).
Definition on_timers {A} (m : stE (@TimerManager Cb) A) : stE IOManager A := λ s,
  let '(r, x') := m (timers s) in (r, set_timers x' s).

Definition ASSERT (b : bool) : stE IOManager unit := if b then mret tt else crash assert_failed.

(** [write] to the pipe; the read end is the one that does not block. *)
(* sylar/iomanager.cc:335-342, IOManager::tickle *)
Definition tickle : stE IOManager unit :=
  s ← get;
  if hasIdleThreads (sched s) then modify (λ s, set_pipe (pipe s + 1) s) else mret tt.

(** [a->schedule(k)]: this scheduler's [tickle] is the one above; what
    another does to wake its threads is its own business. *)
(* sylar/scheduler.h:65-76, Scheduler::schedule *)
Definition schedule_on (a : Z) (k : ScheduleTask) : stE IOManager unit :=
  if bool_decide (a = this) then
    evs ← on_scheduler (schedule k);
    if existsb (λ e, match e with Tickle => true | _ => false end) evs then tickle else mret tt
  else modify (λ s, set_handed (handed s ++ (if is_task k then [(a, k)] else [])) s).

Definition pointer (p : option Z) : stE IOManager Z :=
  match p with Some a => mret a | None => crash null_deref end.

(* ------------------------------------------------------------------ *)
(** ** Contexts *)

Definition no_event : EventContext := mkEventContext None None None.

(* sylar/iomanager.cc:66-76, IOManager::FdContext::getEventContext *)
Definition getEventContext ev c : outcome EventContext :=
  if ev =? READ then Ret (read c)
  else if ev =? WRITE then Ret (write c)
  else Crash assert_failed.

(** The write through the reference it returns. *)
Definition set_event_context ev (x : EventContext) c : FdContext :=
  if ev =? READ then mkFdContext x (write c) (fd c) (events c)
  else mkFdContext (read c) x (fd c) (events c).

(* sylar/iomanager.cc:78-82, IOManager::FdContext::resetEventContext *)
Definition resetEventContext ev c : FdContext := set_event_context ev no_event c.

(** The context at index [i], and a write to it. *)
Definition context (i : Z) : stE IOManager FdContext := query (λ s,
  match m_fdContexts s !! Z.to_nat i with
  | Some c => if i <? 0 then Crash out_of_bounds else Ret c
  | None => Crash out_of_bounds
  end).
Definition put_context (i : Z) c : stE IOManager unit :=
  modify (λ s, set_contexts (<[Z.to_nat i := c]> (m_fdContexts s)) s).

(** The task an event context stands for. *)
Definition task_of (x : EventContext) : ScheduleTask :=
  match ev_cb x with
  | Some cb => mkTask None (Some cb) (-1)
  | None => mkTask (ev_fiber x) None (-1)
  end.

(* sylar/iomanager.cc:84-101, IOManager::FdContext::triggerEvent *)
Definition triggerEvent (i ev : Z) : stE IOManager unit :=
  c ← context i;
  _ ← ASSERT (has (events c) ev);
  let c := set_events (without (events c) ev) c in
  _ ← put_context i c;
  x ← query (λ _, getEventContext ev c);
  a ← pointer (scheduler x);
  _ ← schedule_on a (task_of x);
  put_context i (resetEventContext ev c).

(** [new FdContext] for the entries that are null. *)
Definition new_context (i : nat) : FdContext := mkFdContext no_event no_event (Z.of_nat i) NONE.

(* sylar/iomanager.cc:142-151, IOManager::contextResize *)
Definition contextResize (size : nat) : stE IOManager unit :=
  modify (λ s, let n := length (m_fdContexts s) in
    set_contexts (take size (m_fdContexts s) ++ map new_context (seq n (size - n))) s).

(** The part of the constructor that concerns this class: the pipe is
    added to epoll, and there are 32 contexts. *)
(* sylar/iomanager.cc:103-127, IOManager::IOManager *)
Definition new_iomanager (base : @Scheduler Cb) (now : Z) (tickle_fd : Z) (k : K) : outcome IOManager :=
  let '(ok, k') := epoll_ctl EPOLL_CTL_ADD tickle_fd (Z.lor EPOLLIN EPOLLET) tickle_fd k in
  if ok then Ret (mkIOManager base [] (new_manager now) (map new_context (seq 0 32)) 0 0 k')
  else Crash assert_failed.

(* ------------------------------------------------------------------ *)
(** ** Registering and removing *)

Definition run_epoll_ctl (op : EpollCtlOp) (f evs i : Z) : stE IOManager bool := λ s,
  let '(ok, k) := epoll_ctl op f evs i (epoll s) in (Ret ok, set_epoll k s).

Definition add_pending (d : Z) : stE IOManager unit :=
  modify (λ s, set_pending (u64 (m_pendingEventCount s + d)) s).

(** [(int)m_fdContexts.size() > fd] under the read lock. *)
(* sylar/iomanager.cc:154-162, IOManager::addEvent *)
Definition find_context (f : Z) : stE IOManager bool :=
  query (λ s, Ret (bool_decide (f < i32 (Z.of_nat (length (m_fdContexts s)))))).

(** [fd * 1.5], converted to [size_t]. *)
Definition grown (f : Z) : nat := Z.to_nat (f * 3 / 2).

(** The callee of [addEvent]: the callback, or the current fiber [cur],
    which must be running. *)
(* sylar/iomanager.cc:199-206, IOManager::addEvent *)
Definition callee (here : option Z) (cur : Z) (cb : option Cb) : stE IOManager EventContext :=
  match cb with
  | Some cb => mret (mkEventContext here None (Some cb))
  | None =>
      s ← get;
      _ ← ASSERT (match fibers (shs (sched s)) !! cur with
                  | Some x => bool_decide (m_state x = RUNNING)
                  | None => false
                  end);
      mret (mkEventContext here (Some cur) None)
  end.

(** With the context's mutex.  [here] is [Scheduler::GetThis()] and [cur]
    [Fiber::GetThis()]. *)
(* sylar/iomanager.cc:167-207, IOManager::addEvent *)
Definition addEvent_locked (f ev : Z) (here : option Z) (cur : Z) (cb : option Cb) : stE IOManager Z :=
  c ← context f;
  _ ← ASSERT (negb (has (events c) ev));
  let op := if events c =? 0 then EPOLL_CTL_ADD else EPOLL_CTL_MOD in
  ok ← run_epoll_ctl op f (Z.lor EPOLLET (Z.lor (events c) ev)) f;
  if negb ok then mret (-1)
  else
    _ ← add_pending 1;
    let c := set_events (Z.lor (events c) ev) c in
    _ ← put_context f c;
    x ← query (λ _, getEventContext ev c);
    _ ← ASSERT (match x with mkEventContext None None None => true | _ => false end);
    y ← callee here cur cb;
    _ ← put_context f (set_event_context ev y c);
    mret 0.

(* sylar/iomanager.cc:153-166, IOManager::addEvent *)
Definition addEvent (f ev : Z) (here : option Z) (cur : Z) (cb : option Cb) : stE IOManager Z :=
  found ← find_context f;
  _ ← (if (found : bool) then mret tt else contextResize (grown f));
  addEvent_locked f ev here cur cb.

(** What [delEvent] and [cancelEvent] begin with: the context's events
    without [ev], once epoll has them. *)
(* sylar/iomanager.cc:210-237, IOManager::delEvent *)
Definition remove_interest (f ev : Z) : stE IOManager (option Z) :=
  found ← find_context f;
  if negb found then mret None
  else
    c ← context f;
    if negb (has (events c) ev) then mret None
    else
      let new_events := without (events c) ev in
      let op := if new_events =? 0 then EPOLL_CTL_DEL else EPOLL_CTL_MOD in
      ok ← run_epoll_ctl op f (Z.lor EPOLLET new_events) f;
      mret (if (ok : bool) then Some new_events else None).

(* sylar/iomanager.cc:238-246, IOManager::delEvent *)
Definition delEvent (f ev : Z) : stE IOManager bool :=
  r ← remove_interest f ev;
  match r with
  | None => mret false
  | Some new_events =>
      _ ← add_pending (-1);
      c ← context f;
      let c := set_events new_events c in
      _ ← query (λ _, getEventContext ev c);
      _ ← put_context f (resetEventContext ev c);
      mret true
  end.

(* sylar/iomanager.cc:248-282, IOManager::cancelEvent *)
Definition cancelEvent (f ev : Z) : stE IOManager bool :=
  r ← remove_interest f ev;
  match r with
  | None => mret false
  | Some _ =>
      _ ← triggerEvent f ev;
      _ ← add_pending (-1);
      mret true
  end.

(** [if (fd_ctx->events & ev) { trigger; --pending; }] *)
Definition trigger_if (b : bool) (f ev : Z) : stE IOManager unit :=
  if b then _ ← triggerEvent f ev; add_pending (-1) else mret tt.

(* sylar/iomanager.cc:284-324, IOManager::cancelAll *)
Definition cancelAll (f : Z) : stE IOManager bool :=
  found ← find_context f;
  if negb found then mret false
  else
    c ← context f;
    if events c =? 0 then mret false
    else
      ok ← run_epoll_ctl EPOLL_CTL_DEL f 0 f;
      if negb ok then mret false
      else
        c ← context f;
        _ ← trigger_if (has (events c) READ) f READ;
        c ← context f;
        _ ← trigger_if (has (events c) WRITE) f WRITE;
        c ← context f;
        _ ← ASSERT (events c =? 0);
        mret true.

(* ------------------------------------------------------------------ *)
(** ** The idle fiber *)

(** [timeout], and whether to stop; the three conditions are looked at one
    after the other, each under its own lock.  [now] is the clock. *)
(* sylar/iomanager.cc:344-354, IOManager::stopping *)
Definition stopping {A} (k : Z → bool → proc IOManager A) : proc IOManager A :=
  Then (λ _ now, 0 < now) (λ now, on_timers (getNextTimer now)) (λ timeout,
  if negb (timeout =? 2 ^ 64 - 1) then k timeout false
  else Then always (λ _, query (λ s, Ret (m_pendingEventCount s))) (λ pending,
  if negb (pending =? 0) then k timeout false
  else Then always (λ _, query (λ s, Ret (Scheduler.stopping (sched s)))) (k timeout))).

(** [next_timeout] before each call of [epoll_wait], which takes an
    [int]. *)
(* sylar/iomanager.cc:382-388, IOManager::idle *)
Definition limit (next_timeout : Z) : Z :=
  let MAX_TIMEOUT := 5000 in
  if bool_decide (next_timeout = 2 ^ 64 - 1) then MAX_TIMEOUT
  else u64 (Z.min (i32 next_timeout) MAX_TIMEOUT).
(* sylar/iomanager.cc:389-389, IOManager::idle *)
Definition wait_time (next_timeout : Z) : Z := i32 (limit next_timeout).

(** The last arguments of the calls when the first [n] are interrupted by
    a signal: the limit is applied again each time. *)
(* sylar/iomanager.cc:380-395, IOManager::idle *)
Fixpoint wait_times (n : nat) (next_timeout : Z) : list Z :=
  wait_time next_timeout :: match n with O => [] | S n => wait_times n (limit next_timeout) end.

(** An entry of [events]: the tickle pipe, or a context and what the
    kernel saw. *)
Inductive ready := OnPipe | OnFd (i evs : Z).

(** What the kernel saw, as [READ] and [WRITE]; an error counts as every
    event registered. *)
(* sylar/iomanager.cc:420-434, IOManager::idle *)
Definition real_events (evs registered : Z) : Z :=
  let evs := if has evs (Z.lor EPOLLERR EPOLLHUP)
             then Z.lor evs (Z.land (Z.lor EPOLLIN EPOLLOUT) registered) else evs in
  Z.lor (if has evs EPOLLIN then READ else 0) (if has evs EPOLLOUT then WRITE else 0).

(* sylar/iomanager.cc:408-462, IOManager::idle *)
Definition handle_event (r : ready) : stE IOManager unit :=
  match r with
  | OnPipe => modify (set_pipe 0)
  | OnFd i evs =>
      c ← context i;
      let real := real_events evs (events c) in
      if Z.land (events c) real =? NONE then mret tt
      else
        let left_events := without (events c) real in
        let op := if left_events =? 0 then EPOLL_CTL_DEL else EPOLL_CTL_MOD in
        ok ← run_epoll_ctl op (fd c) (Z.lor EPOLLET left_events) i;
        if negb ok then mret tt
        else
          _ ← trigger_if (has real READ) i READ;
          trigger_if (has real WRITE) i WRITE
  end.

(** What is known of an answer of [epoll_wait]: at most [MAX_EVNETS]
    entries, each the pipe or a pointer that was given to [epoll_ctl], which
    is a context of the vector; what is registered may have changed since. *)
Definition may_report s (r : ready) : Prop :=
  match r with OnPipe => True | OnFd i _ => 0 <= i < Z.of_nat (length (m_fdContexts s)) end.
Definition answers s (x : nat * list ready) : Prop :=
  (length x.2 <= 256)%nat ∧ Forall (may_report s) x.2.

(* sylar/iomanager.cc:399-407, IOManager::idle *)
Fixpoint schedule_all {A} (cbs : list (option Cb)) (k : proc IOManager A) : proc IOManager A :=
  match cbs with
  | [] => k
  | cb :: cbs => Then always (λ _, schedule_on this (mkTask None cb (-1))) (λ _, schedule_all cbs k)
  end.

(* sylar/iomanager.cc:409-462, IOManager::idle *)
Fixpoint handle_all {A} (rs : list ready) (k : proc IOManager A) : proc IOManager A :=
  match rs with
  | [] => k
  | r :: rs => Then always (λ _, handle_event r) (λ _, handle_all rs k)
  end.

(** What a turn did: how long it let [epoll_wait] wait, the callbacks it
    collected and the entries of [events]. *)
Record turn := mkTurn { waited : list Z; collected : list (option Cb); reported : list ready }.

(** One turn of the loop, up to the [yield]: [None] when the loop ends.
    Other threads act between its steps.  An interrupted [epoll_wait] is
    repeated; [p] is the address of the timer that [listExpiredCb] compares
    with. *)
(* sylar/iomanager.cc:361-475, IOManager::idle *)
Definition idle_turn : proc IOManager (option turn) :=
  stopping (λ next_timeout stop,
  if (stop : bool) then Over None
  else Then answers (λ '(n, rs), mret (wait_times n next_timeout, rs)) (λ '(ws, rs),
  Then (λ s '(now, p), m_heap (timers s) !! p = None) (λ '(now, p), on_timers (listExpiredCb p now)) (λ cbs,
  schedule_all cbs (handle_all rs (Over (Some (mkTurn ws cbs rs))))))).

(** The destructor after [stop]: the descriptors it closes, the contexts
    deleted. *)
(* sylar/iomanager.cc:131-139, IOManager::~IOManager *)
Definition release (m_epfd write_end : Z) (tickle_fd : Z) : stE IOManager (list Z) :=
  _ ← modify (set_contexts []); mret [m_epfd; tickle_fd; write_end].
End iomanager.

(* ------------------------------------------------------------------ *)
(** ** Printing for the log *)

(* sylar/iomanager.cc:22-34, operator<< *)
Definition print_ctl_op (op : EpollCtlOp) : bytes :=
  match op with EPOLL_CTL_ADD => B "EPOLL_CTL_ADD" | EPOLL_CTL_MOD => B "EPOLL_CTL_MOD" | EPOLL_CTL_DEL => B "EPOLL_CTL_DEL" end.

(* sylar/iomanager.cc:49-61, operator<< *)
Definition event_names : list (Z * bytes) :=
  [(EPOLLIN, B "EPOLLIN"); (0x002, B "EPOLLPRI"); (EPOLLOUT, B "EPOLLOUT"); (0x040, B "EPOLLRDNORM"); (0x080, B "EPOLLRDBAND");
   (0x100, B "EPOLLWRNORM"); (0x200, B "EPOLLWRBAND"); (0x400, B "EPOLLMSG"); (EPOLLERR, B "EPOLLERR"); (EPOLLHUP, B "EPOLLHUP");
   (0x2000, B "EPOLLRDHUP"); (2 ^ 30, B "EPOLLONESHOT"); (EPOLLET, B "EPOLLET")].
(* sylar/iomanager.cc:40-48, operator<< *)
Fixpoint print_names (l : list (Z * bytes)) (events : Z) (first : bool) : bytes :=
  match l with
  | [] => []
  | (e, name) :: l =>
      if has events e then (if first then [] else B "|") ++ name ++ print_names l events false else print_names l events first
  end.
(* sylar/iomanager.cc:36-64, operator<< *)
Definition print_events (events : Z) : bytes := if events =? 0 then B "0" else print_names event_names events true.

Example events_printed : print_events 0x80000005 = B "EPOLLIN|EPOLLOUT|EPOLLET".
Proof. reflexivity. Qed.
