(* ===== verification/IOManagerTheorems.v ===== *)
(** * The IO scheduler: what it promises

    The invariant of the descriptor contexts, the refinement of every
    operation to a table of waits and the schedulers' queues, the
    agreement with the kernel's interest list, and two races. *)
From S2P Require Import Prelude Timer Fiber Scheduler IOManager.

Local Open Scope Z_scope.

(* ------------------------------------------------------------------ *)
(** ** What an operation leaves alone *)

Section keeps.
Context {S T : Type} (g : S → T).

Definition keeps {A} (m : stE S A) : Prop := ∀ s, g ((m s).2) = g s.

Lemma keeps_bind {A C} (m : stE S A) (f : A → stE S C) :
  keeps m → (∀ a, keeps (f a)) → keeps (m ≫= f).
Proof.
  intros Hm Hf s. specialize (Hm s). unfold mbind, stE_bind.
  destruct (m s) as [[a|e|c] s']; cbn in *; [by rewrite Hf|done..].
Qed.
Lemma keeps_ret {A} (a : A) : keeps (mret a).
Proof. done. Qed.
Lemma keeps_get : keeps get.
Proof. done. Qed.
Lemma keeps_crash {A} c : keeps (crash c : stE S A).
Proof. done. Qed.
Lemma keeps_query {A} (f : S → outcome A) : keeps (query f).
Proof. done. Qed.
Lemma keeps_modify (f : S → S) : (∀ s, g (f s) = g s) → keeps (modify f).
Proof. intros H s. apply H. Qed.
End keeps.

Create HintDb keeps.
#[export] Hint Resolve keeps_ret keeps_get keeps_crash keeps_query : keeps.

Ltac keeps_solve :=
  repeat first
    [ apply keeps_bind; [|intros ?]
    | apply keeps_ret | apply keeps_get | apply keeps_crash | apply keeps_query
    | apply keeps_modify; intros ?; done
    | progress case_match ]; eauto with keeps.

Section theorems.
Context {Cb K : Type}.
Context (epoll_ctl : EpollCtlOp → Z → Z → Z → K → bool * K) (this : Z).

Abbreviation IOManager := (@IOManager Cb K).
Abbreviation FdContext := (@FdContext Cb).
Abbreviation task := (@ScheduleTask Cb).
Implicit Types (s : IOManager) (c : FdContext) (ev f : Z) (l : list FdContext).

(* ------------------------------------------------------------------ *)
(** ** One context *)

Definition is_event ev : Prop := ev = READ ∨ ev = WRITE.
Definition slot ev c : EventContext := if ev =? READ then read c else write c.

(** Who waits for an event: the task, and the scheduler to run it. *)
Definition wait_of ev c : option (Z * task) :=
  if has (events c) ev then (λ a, (a, task_of (slot ev c))) <$> scheduler (slot ev c) else None.

(** A registered event has a scheduler and something to run; the others
    are empty. *)
Record ctx_ok (i : nat) c : Prop := {
  ok_fd : fd c = Z.of_nat i;
  ok_events : events c = NONE ∨ events c = READ ∨ events c = WRITE ∨ events c = READ + WRITE;
  ok_slot ev : is_event ev →
    if has (events c) ev
    then is_Some (scheduler (slot ev c)) ∧ is_task (task_of (slot ev c)) = true
    else slot ev c = no_event
}.

Definition bit (b : bool) : Z := if b then 1 else 0.
Definition nevents c : Z := bit (has (events c) READ) + bit (has (events c) WRITE).

Lemma wait_registered i c ev : ctx_ok i c → is_event ev →
  has (events c) ev = true ↔ is_Some (wait_of ev c).
Proof.
  intros [_ _ H] Hev. specialize (H ev Hev). unfold wait_of.
  destruct (has (events c) ev); [|split; [done|by intros [? ?]]].
  destruct H as [[a ->] _]. cbn. split; eauto.
Qed.

(** Removing an event. *)
Definition removed ev c : FdContext :=
  resetEventContext ev (set_events (without (events c) ev) c).

Ltac by_events Hc := destruct Hc as [-> |[-> |[-> | ->]]].

Lemma removed_ok i c ev : ctx_ok i c → is_event ev → ctx_ok i (removed ev c).
Proof.
  destruct c as [r w d es]. intros [Hf He Hs] Hev. pose proof (Hs READ (or_introl eq_refl)) as Hr.
  pose proof (Hs WRITE (or_intror eq_refl)) as Hw. cbn in *.
  destruct Hev as [-> | ->]; split; cbn; try done;
    try (intros ev [-> | ->]); by_events He;
    first [exact eq_refl | exact Hr | exact Hw | tauto].
Qed.

Lemma wait_removed c ev : is_event ev → wait_of ev (removed ev c) = None.
Proof. intros [-> | ->]; unfold wait_of; cbn; by case_match. Qed.

Lemma wait_removed_ne i c ev ev' :
  ctx_ok i c → is_event ev → is_event ev' → ev ≠ ev' → wait_of ev' (removed ev c) = wait_of ev' c.
Proof.
  destruct c. intros [_ He _] [-> | ->] [-> | ->] Hne; try done; cbn in He; by_events He; done.
Qed.

Lemma nevents_removed i c ev : ctx_ok i c → is_event ev → has (events c) ev = true →
  nevents (removed ev c) = nevents c - 1.
Proof. destruct c. intros [_ He _] [-> | ->]; cbn in He; by_events He; done. Qed.

(** Adding one. *)
Definition added ev (x : EventContext) c : FdContext :=
  set_event_context ev x (set_events (Z.lor (events c) ev) c).

Lemma added_ok i c ev a x : ctx_ok i c → is_event ev →
  scheduler x = Some a → is_task (task_of x) = true → ctx_ok i (added ev x c).
Proof.
  destruct c as [r w d es]. intros [Hf He Hs] Hev Ha Hx. pose proof (Hs READ (or_introl eq_refl)) as Hr.
  pose proof (Hs WRITE (or_intror eq_refl)) as Hw. cbn in *.
  destruct Hev as [-> | ->]; split; cbn; try done;
    try (intros ev [-> | ->]); by_events He;
    first [exact Hr | exact Hw | tauto | exact (conj (mk_is_Some _ _ Ha) Hx)].
Qed.

Lemma wait_added i c ev a x : ctx_ok i c → is_event ev →
  scheduler x = Some a → wait_of ev (added ev x c) = Some (a, task_of x).
Proof.
  destruct c. intros [_ He _] [-> | ->] Ha; cbn in He; unfold wait_of; by_events He; cbn; by rewrite Ha.
Qed.

Lemma wait_added_ne i c ev ev' x :
  ctx_ok i c → is_event ev → is_event ev' → ev ≠ ev' → wait_of ev' (added ev x c) = wait_of ev' c.
Proof.
  destruct c. intros [_ He _] [-> | ->] [-> | ->] Hne; try done; cbn in He; by_events He; done.
Qed.

Lemma nevents_added i c ev x : ctx_ok i c → is_event ev → has (events c) ev = false →
  nevents (added ev x c) = nevents c + 1.
Proof. destruct c. intros [_ He _] [-> | ->]; cbn in He; by_events He; done. Qed.
(* ------------------------------------------------------------------ *)
(** ** The manager and what it stands for *)

Fixpoint count l : Z := match l with [] => 0 | c :: l' => nevents c + count l' end.
#[local] Arguments nevents : simpl never.

(** [d] more events are counted than there are: an operation is under way. *)
Record wf_off (d : Z) s : Prop := {
  wf_ctx i c : m_fdContexts s !! i = Some c → ctx_ok i c;
  wf_len : (32 <= length (m_fdContexts s))%nat ∧ Z.of_nat (length (m_fdContexts s)) < 2 ^ 31;
  wf_pending : m_pendingEventCount s = count (m_fdContexts s) + d
}.
Definition wf s : Prop := wf_off 0 s.

(** The specification: who waits for which event of which descriptor, and
    the tasks each scheduler was given. *)
Record view := mkView {
  waits : Z → Z → option (Z * task);
  queue : Z → list task
}.

Definition tasks_for (a : Z) s : list task :=
  if decide (a = this) then m_tasks (sched s) else (filter (λ x, x.1 = a) (handed s)).*2.

Definition view_of s : view := mkView
  (λ f ev, if decide (0 <= f) then (m_fdContexts s !! Z.to_nat f) ≫= wait_of ev else None)
  (λ a, tasks_for a s).

#[global] Instance view_equiv : Equiv view := λ A V,
  (∀ f ev, is_event ev → waits A f ev = waits V f ev) ∧ (∀ a, queue A a = queue V a).
#[global] Instance view_equivalence : Equivalence (≡@{view}).
Proof.
  split; [by split|intros A V [H1 H2]; split; intros; symmetry; auto|].
  intros A V C [H1 H2] [H3 H4]. split; intros; [rewrite H1, H3 by done|rewrite H2, H4]; done.
Qed.

Definition set_wait f ev (w : option (Z * task)) (A : view) : view := mkView
  (λ f' ev', if decide (f' = f ∧ ev' = ev) then w else waits A f' ev') (queue A).
Definition push (a : Z) (k : task) (A : view) : view := mkView (waits A)
  (λ a', if decide (a' = a) then queue A a' ++ [k] else queue A a').

(** A wait ends: its task is queued with its scheduler. *)
Definition wake f ev (A : view) : view :=
  match waits A f ev with
  | Some (a, k) => push a k (set_wait f ev None A)
  | None => A
  end.

Lemma wake_proper f ev A V : is_event ev → A ≡ V → wake f ev A ≡ wake f ev V.
Proof.
  intros Hev [H1 H2]. unfold wake. rewrite (H1 f ev Hev).
  destruct (waits V f ev) as [[a k]|]; [|by split]. split; cbn.
  - intros f' ev' Hev'. case_decide; [done|]. by apply H1.
  - intros a'. case_decide; by rewrite H2.
Qed.

(** How the count and the waits follow a change of one context. *)
Lemma count_insert l i c c' : l !! i = Some c →
  count (<[i := c']> l) = count l - nevents c + nevents c'.
Proof.
  revert i. induction l as [|x l IH]; intros [|i] H; try done; simpl in *.
  - injection H as ->. lia.
  - rewrite IH by done. lia.
Qed.

Lemma nevents_range c : 0 <= nevents c <= 2.
Proof. unfold nevents, bit. repeat case_match; lia. Qed.

Lemma count_range l : 0 <= count l <= 2 * Z.of_nat (length l).
Proof. induction l as [|c l IH]; cbn [count length]; [lia|]. pose proof (nevents_range c). lia. Qed.

Lemma wf_change d s i c c' s' :
  wf_off d s → m_fdContexts s !! i = Some c → ctx_ok i c' →
  m_fdContexts s' = <[i := c']> (m_fdContexts s) → m_pendingEventCount s' = m_pendingEventCount s →
  wf_off (d + nevents c - nevents c') s'.
Proof.
  intros [H1 H2 H3] Hi Hc El Ep. split; rewrite El.
  - intros j x Hj. destruct (decide (i = j)) as [<-|Hne].
    + rewrite list_lookup_insert_eq in Hj by (by eapply lookup_lt_Some). by injection Hj as <-.
    + rewrite list_lookup_insert_ne in Hj by done. by apply H1.
  - by rewrite length_insert.
  - rewrite Ep, H3, (count_insert _ _ c) by done. lia.
Qed.

Lemma waits_insert s s' f c c' :
  0 <= f → m_fdContexts s !! Z.to_nat f = Some c →
  m_fdContexts s' = <[Z.to_nat f := c']> (m_fdContexts s) →
  ∀ f' ev, waits (view_of s') f' ev = if decide (f' = f) then wait_of ev c' else waits (view_of s) f' ev.
Proof.
  intros Hf Hc El f' ev. cbn. rewrite El. destruct (decide (f' = f)) as [->|Hne].
  - rewrite decide_True by done. by rewrite list_lookup_insert_eq by (by eapply lookup_lt_Some).
  - case_decide; [|done]. rewrite list_lookup_insert_ne by lia. done.
Qed.

Lemma waits_at s f c ev : 0 <= f → m_fdContexts s !! Z.to_nat f = Some c →
  waits (view_of s) f ev = wait_of ev c.
Proof. intros Hf Hc. cbn. rewrite decide_True by done. by rewrite Hc. Qed.

(** Scheduling: the task is queued and nothing else the specification
    speaks of changes. *)
Lemma schedule_on_spec a k s : is_task k = true →
  ∃ s', schedule_on this a k s = (Ret tt, s') ∧
    m_fdContexts s' = m_fdContexts s ∧ m_pendingEventCount s' = m_pendingEventCount s ∧
    epoll s' = epoll s ∧ timers s' = timers s ∧
    ∀ a', tasks_for a' s' = if decide (a' = a) then tasks_for a' s ++ [k] else tasks_for a' s.
Proof.
  intros Hk. unfold schedule_on. case_bool_decide as Ha.
  - subst a. unfold on_scheduler, schedule, scheduleNoLock, mbind, stE_bind, get, modify. cbn.
    rewrite Hk. cbn. unfold tickle, mbind, stE_bind, get, modify.
    destruct (existsb _ _); cbn; [destruct (hasIdleThreads _)|];
      (eexists; split; [reflexivity|]; cbn; split_and!; try done;
       intros a'; unfold tasks_for; cbn; by repeat case_decide).
  - eexists. split; [reflexivity|]. cbn. rewrite Hk. split_and!; try done.
    intros a'. unfold tasks_for. cbn. rewrite filter_app, fmap_app.
    destruct (decide (a' = a)) as [->|Hne].
    + rewrite !decide_False by done. rewrite filter_cons_True by done. done.
    + rewrite filter_cons_False by (cbn; congruence). cbn. by rewrite app_nil_r.
Qed.
(* ------------------------------------------------------------------ *)
(** ** The pieces of the operations *)

Lemma context_at f c s : 0 <= f → m_fdContexts s !! Z.to_nat f = Some c → context f s = (Ret c, s).
Proof. intros Hf Hc. unfold context, query. rewrite Hc. by destruct (Z.ltb_spec f 0); [lia|]. Qed.

Lemma getEventContext_slot ev c : is_event ev → getEventContext ev c = Ret (slot ev c).
Proof. by intros [-> | ->]. Qed.

(** What the parts of the operations leave alone. *)
Definition same_rest s s' : Prop := epoll s' = epoll s ∧ timers s' = timers s.

(** [triggerEvent] on a registered event. *)
Lemma triggerEvent_spec d s f ev c :
  wf_off d s → 0 <= f → m_fdContexts s !! Z.to_nat f = Some c → is_event ev →
  has (events c) ev = true →
  ∃ s', triggerEvent this f ev s = (Ret tt, s') ∧ wf_off (d + 1) s' ∧ same_rest s s' ∧
    m_fdContexts s' = <[Z.to_nat f := removed ev c]> (m_fdContexts s) ∧
    view_of s' ≡ wake f ev (view_of s).
Proof.
  intros Hwf Hf Hc Hev Hh. pose proof (wf_ctx d s Hwf _ _ Hc) as Hok.
  destruct (proj1 (wait_registered _ _ _ Hok Hev) Hh) as [[a k] Hw].
  pose proof (ok_slot _ _ Hok _ Hev) as Hs. rewrite Hh in Hs. destruct Hs as [_ Ht].
  pose proof Hw as Hw'. unfold wait_of in Hw'. rewrite Hh in Hw'.
  destruct (scheduler (slot ev c)) as [a'|] eqn:Ea; [|done]. injection Hw' as -> <-.
  set (c1 := set_events (without (events c) ev) c).
  set (s1 := set_contexts (<[Z.to_nat f := c1]> (m_fdContexts s)) s).
  destruct (schedule_on_spec a (task_of (slot ev c)) s1 Ht) as (s2 & E2 & El & Ep & Ek & Et & Eq).
  set (s3 := set_contexts (<[Z.to_nat f := removed ev c]> (m_fdContexts s2)) s2).
  assert (m_fdContexts s3 = <[Z.to_nat f := removed ev c]> (m_fdContexts s)) as El3
    by (cbn; rewrite El; apply list_insert_insert_eq).
  exists s3. split; [|split; [|split; [|split]]].
  - unfold triggerEvent. rewrite (stE_bind_ret _ _ _ _ _ (context_at f c s Hf Hc)).
    rewrite Hh. cbn [ASSERT]. rewrite (stE_bind_ret _ _ _ tt s eq_refl).
    rewrite (stE_bind_ret _ (put_context f c1) s tt s1 eq_refl).
    rewrite (stE_bind_ret _ (query _) s1 (slot ev c) s1)
      by (unfold query; rewrite getEventContext_slot by done; by destruct Hev as [-> | ->]).
    rewrite Ea. rewrite (stE_bind_ret _ (pointer (Some a)) s1 a s1 eq_refl).
    rewrite (stE_bind_ret _ _ _ _ _ E2). done.
  - replace (d + 1) with (d + nevents c - nevents (removed ev c))
      by (rewrite (nevents_removed _ _ _ Hok Hev Hh); lia).
    eapply wf_change; [done|done|by apply removed_ok|done|]. cbn. by rewrite Ep.
  - by split.
  - done.
  - unfold wake. rewrite (waits_at _ _ c) by done. rewrite Hw. split; cbn [waits queue push set_wait].
    + intros f' ev' Hev'. rewrite (waits_insert _ _ _ _ _ Hf Hc El3).
      destruct (decide (f' = f)) as [->|].
      * case_decide as Hd; [destruct Hd as [_ ->]; by apply wait_removed|].
        rewrite (waits_at _ _ c) by done. eapply wait_removed_ne; [done..|]. intros ->. by apply Hd.
      * rewrite (decide_False (P := f' = f ∧ ev' = ev)) by naive_solver. done.
    + intros a'. exact (Eq a').
Qed.


Lemma add_pending_spec d e s : wf_off d s → 0 <= count (m_fdContexts s) + d + e → -2 <= d + e <= 2 →
  ∃ s', add_pending e s = (Ret tt, s') ∧ wf_off (d + e) s' ∧ m_fdContexts s' = m_fdContexts s ∧
    same_rest s s' ∧ view_of s' = view_of s.
Proof.
  intros [H1 H2 H3] Hr Hd. eexists. split; [reflexivity|].
  pose proof (count_range (m_fdContexts s)). split; [|by split_and!].
  split; cbn; [done|done|]. rewrite H3, wrapu_small; [lia|]. unfold in_u. lia.
Qed.

(** Triggering a registered event and uncounting it. *)
Lemma trigger_ok s f ev c :
  wf s → 0 <= f → m_fdContexts s !! Z.to_nat f = Some c → is_event ev → has (events c) ev = true →
  ∃ s', trigger_if this true f ev s = (Ret tt, s') ∧ wf s' ∧ same_rest s s' ∧
    m_fdContexts s' = <[Z.to_nat f := removed ev c]> (m_fdContexts s) ∧
    view_of s' ≡ wake f ev (view_of s).
Proof.
  intros Hwf Hf Hc Hev Hh.
  destruct (triggerEvent_spec 0 s f ev c) as (s1 & E1 & Hwf1 & [Hr1 Hr2] & El & Hv); [done..|].
  destruct (add_pending_spec 1 (-1) s1) as (s2 & E2 & Hwf2 & El2 & [Hr3 Hr4] & Hv2); [done|..|lia|].
  { pose proof (count_range (m_fdContexts s1)). lia. }
  exists s2. unfold trigger_if. rewrite (stE_bind_ret _ _ _ _ _ E1), E2, El2, Hv2.
  split_and!; try done; split; congruence.
Qed.
(* ------------------------------------------------------------------ *)
(** ** The operations *)

Inductive op :=
  | OpAdd (f ev : Z) (here : option Z) (cur : Z) (cb : option Cb)
  | OpDel (f ev : Z)
  | OpCancel (f ev : Z)
  | OpCancelAll (f : Z)
  | OpHandle (r : ready).

(** The descriptor it is about. *)
Definition op_fd (o : op) : Z :=
  match o with
  | OpAdd f _ _ _ _ | OpDel f _ | OpCancel f _ | OpCancelAll f | OpHandle (OnFd f _) => f
  | OpHandle OnPipe => 0
  end.

(** The result: whether the call reports success. *)
Definition exec (o : op) : stE IOManager bool :=
  match o with
  | OpAdd f ev here cur cb => r ← addEvent epoll_ctl f ev here cur cb; mret (r =? 0)
  | OpDel f ev => delEvent epoll_ctl f ev
  | OpCancel f ev => cancelEvent epoll_ctl this f ev
  | OpCancelAll f => cancelAll epoll_ctl this f
  | OpHandle r => _ ← handle_event epoll_ctl this r; mret true
  end.

Definition registered s f : Z := from_option events 0 (m_fdContexts s !! Z.to_nat f).

(** What a call may ask for: an event is registered once, from a thread
    of a scheduler, for a callback or a running fiber; and what the kernel
    reported is still registered when it is looked at, or none of it. *)
Definition op_ok (o : op) s : Prop :=
  match o with
  | OpAdd f ev here cur cb =>
      0 <= f < 2 ^ 30 ∧ is_event ev ∧ waits (view_of s) f ev = None ∧ is_Some here ∧
      (cb = None → ∃ x, fibers (shs (sched s)) !! cur = Some x ∧ m_state x = RUNNING)
  | OpDel f ev | OpCancel f ev => 0 <= f ∧ is_event ev
  | OpCancelAll f => 0 <= f
  | OpHandle OnPipe => True
  | OpHandle (OnFd i evs) =>
      0 <= i < Z.of_nat (length (m_fdContexts s)) ∧
      (Z.land (registered s i) (real_events evs (registered s i)) ≠ 0 →
       ∀ ev, is_event ev → has (real_events evs (registered s i)) ev = true →
         has (registered s i) ev = true)
  end.

(** The events [real] of a descriptor happen. *)
Definition fire i real (A : view) : view :=
  let A1 := if has real READ then wake i READ A else A in
  if has real WRITE then wake i WRITE A1 else A1.

(** The specification of each operation on the view. *)
Definition spec (o : op) s (A : view) (r : bool) (A' : view) : Prop :=
  match o, r with
  | OpAdd f ev (Some a) cur cb, true =>
      A' ≡ set_wait f ev (Some (a, match cb with Some _ => mkTask None cb (-1)
                                     | None => mkTask (Some cur) None (-1) end)) A
  | OpDel f ev, true => waits A f ev ≠ None ∧ A' ≡ set_wait f ev None A
  | OpCancel f ev, true => waits A f ev ≠ None ∧ A' ≡ wake f ev A
  | OpCancelAll f, true =>
      (waits A f READ ≠ None ∨ waits A f WRITE ≠ None) ∧ A' ≡ wake f WRITE (wake f READ A)
  | OpHandle (OnFd i evs), _ =>
      A' ≡ A ∨ A' ≡ fire i (real_events evs (registered s i)) A
  | _, _ => A' ≡ A
  end.

(** What an operation tells the kernel: nothing, or something it refused,
    and no event changes; or the new events of one descriptor. *)
Definition refused f s s' : Prop :=
  ∃ op evs, epoll_ctl op f evs f (epoll s) = (false, epoll s') ∧
    (op = EPOLL_CTL_ADD ↔ registered s f = 0).
Definition quiet f s s' : Prop :=
  (∀ j, 0 <= j → registered s' j = registered s j) ∧ (epoll s' = epoll s ∨ refused f s s').
Definition told f e s s' : Prop :=
  0 <= f ∧ (∀ j, 0 <= j → registered s' j = if decide (j = f) then e else registered s j) ∧
  ∃ op evs, epoll_ctl op f evs f (epoll s) = (true, epoll s') ∧
    op = (if registered s f =? 0 then EPOLL_CTL_ADD else if e =? 0 then EPOLL_CTL_DEL
          else EPOLL_CTL_MOD) ∧
    (op ≠ EPOLL_CTL_DEL → evs = Z.lor EPOLLET e) ∧ (registered s f = 0 → e ≠ 0).
Definition synced f s s' : Prop := quiet f s s' ∨ ∃ e, told f e s s'.

Lemma quiet_refl f s : quiet f s s.
Proof. split; auto. Qed.

Lemma refused_intro s s' op f evs c : m_fdContexts s !! Z.to_nat f = Some c →
  epoll_ctl op f evs f (epoll s) = (false, epoll s') →
  (op = EPOLL_CTL_ADD ↔ events c = 0) → refused f s s'.
Proof. intros H ? Ho. exists op, evs. split; [done|]. unfold registered. by rewrite H. Qed.

Lemma quiet_refused f s s' : m_fdContexts s' = m_fdContexts s → refused f s s' → quiet f s s'.
Proof. intros H ?. split; [|by right]. intros j _. unfold registered. by rewrite H. Qed.

Lemma told_intro s s' f op evs c c' : 0 <= f → m_fdContexts s !! Z.to_nat f = Some c →
  m_fdContexts s' = <[Z.to_nat f := c']> (m_fdContexts s) →
  epoll_ctl op f evs f (epoll s) = (true, epoll s') →
  op = (if events c =? 0 then EPOLL_CTL_ADD else if events c' =? 0 then EPOLL_CTL_DEL
        else EPOLL_CTL_MOD) →
  (op ≠ EPOLL_CTL_DEL → evs = Z.lor EPOLLET (events c')) → (events c = 0 → events c' ≠ 0) →
  synced f s s'.
Proof.
  intros Hf Hc El Ek Eo Ee En. right. exists (events c'). split; [done|].
  assert (registered s f = events c) as -> by (unfold registered; by rewrite Hc).
  split; [|by exists op, evs]. intros j Hj. unfold registered. rewrite El.
  case_decide as Hd; [subst; by rewrite list_lookup_insert_eq by (by eapply lookup_lt_Some)|].
  by rewrite list_lookup_insert_ne by lia.
Qed.

Lemma run_epoll_ctl_spec d op f evs i s : wf_off d s →
  ∃ s', run_epoll_ctl epoll_ctl op f evs i s = (Ret (epoll_ctl op f evs i (epoll s)).1, s') ∧
    epoll s' = (epoll_ctl op f evs i (epoll s)).2 ∧ wf_off d s' ∧ m_fdContexts s' = m_fdContexts s ∧ view_of s' = view_of s ∧
    sched s' = sched s ∧ m_pendingEventCount s' = m_pendingEventCount s.
Proof.
  intros Hwf. unfold run_epoll_ctl. destruct (epoll_ctl op f evs i (epoll s)) as [ok k].
  eexists. split; [reflexivity|]. split_and!; try done. by destruct Hwf.
Qed.

Lemma find_context_spec d f s : wf_off d s → 0 <= f →
  find_context f s = (Ret (bool_decide (f < Z.of_nat (length (m_fdContexts s)))), s).
Proof.
  intros [_ [_ H] _] Hf. unfold find_context, query. do 3 f_equal.
  unfold wraps. rewrite Z.mod_small by lia. by case_decide; [|lia].
Qed.

Lemma find_none s f ev : 0 <= f → ¬ f < Z.of_nat (length (m_fdContexts s)) →
  waits (view_of s) f ev = None.
Proof. intros Hf Hn. cbn. case_decide; [|done]. by rewrite lookup_ge_None_2 by lia. Qed.

(** The context of a descriptor inside the vector. *)
Lemma context_inside s f : 0 <= f → f < Z.of_nat (length (m_fdContexts s)) →
  ∃ c, m_fdContexts s !! Z.to_nat f = Some c.
Proof. intros. apply lookup_lt_is_Some. lia. Qed.

Lemma refused_del s s' f (b : bool) evs c : m_fdContexts s !! Z.to_nat f = Some c → events c ≠ 0 →
  epoll_ctl (if b then EPOLL_CTL_DEL else EPOLL_CTL_MOD) f evs f (epoll s) = (false, epoll s') →
  refused f s s'.
Proof. intros Hc He Hk. eapply refused_intro; [done|exact Hk|]. by destruct b. Qed.

Lemma has_nonzero c ev : has (events c) ev = true → events c ≠ 0.
Proof. intros H E. by rewrite E in H. Qed.

Lemma remove_interest_spec s f ev : wf s → 0 <= f → is_event ev →
  ∃ r s', remove_interest epoll_ctl f ev s = (Ret r, s') ∧ wf s' ∧ view_of s' = view_of s ∧
    match r with
    | None => quiet f s s' ∧ (waits (view_of s) f ev = None ∨ refused f s s')
    | Some e => ∃ c, m_fdContexts s !! Z.to_nat f = Some c ∧ m_fdContexts s' = m_fdContexts s ∧
                has (events c) ev = true ∧ e = without (events c) ev ∧
                epoll_ctl (if e =? 0 then EPOLL_CTL_DEL else EPOLL_CTL_MOD) f (Z.lor EPOLLET e) f
                  (epoll s) = (true, epoll s')
    end.
Proof.
  intros Hwf Hf Hev. unfold remove_interest. rewrite (stE_bind_ret _ _ _ _ _ (find_context_spec _ _ _ Hwf Hf)).
  case_bool_decide as Hl; cbn [negb].
  2:{ exists None, s. split_and!; try done; [apply quiet_refl|left; by apply find_none]. }
  destruct (context_inside s f Hf Hl) as [c Hc].
  rewrite (stE_bind_ret _ _ _ _ _ (context_at f c s Hf Hc)).
  destruct (has (events c) ev) eqn:Hh; cbn [negb].
  2:{ exists None, s. split_and!; try done; [apply quiet_refl|]. left.
      rewrite (waits_at _ _ c) by done. unfold wait_of. by rewrite Hh. }
  destruct (run_epoll_ctl_spec 0 (if without (events c) ev =? 0 then EPOLL_CTL_DEL else EPOLL_CTL_MOD) f
              (Z.lor EPOLLET (without (events c) ev)) f s Hwf) as (s' & E & Ek & Hwf' & El & Hv & _).
  rewrite (stE_bind_ret _ _ _ _ _ E). destruct (epoll_ctl _ _ _ _ _) as [[] k] eqn:Eo; cbn [fst snd negb] in Ek |- *;
    eexists _, s'; (split; [reflexivity|]); subst k; split_and!; try done.
  - by exists c.
  - apply quiet_refused; [done|]. eapply refused_del; [done|by eapply has_nonzero|done].
  - right. eapply refused_del; [done|by eapply has_nonzero|done].
Qed.

(** A changed context and the count changed with it. *)
Lemma wf_update s s' i c c' :
  wf s → m_fdContexts s !! i = Some c → ctx_ok i c' →
  m_fdContexts s' = <[i := c']> (m_fdContexts s) →
  m_pendingEventCount s' = u64 (m_pendingEventCount s + (nevents c' - nevents c)) → wf s'.
Proof.
  intros Hwf Hi Hc El Ep. pose proof Hwf as [_ [_ Hlen] Hp].
  pose proof (count_range (<[i := c']> (m_fdContexts s))) as Hr. rewrite length_insert in Hr.
  pose proof (count_insert _ _ _ c' Hi) as Hcnt.
  set (s0 := set_pending (m_pendingEventCount s) s').
  pose proof (wf_change 0 s i c c' s0 Hwf Hi Hc El eq_refl) as [H1 H2 _].
  split; [done|done|]. rewrite Ep, El, wrapu_small; [lia|]. unfold in_u. lia.
Qed.

Lemma events_removed ev c : is_event ev → events (removed ev c) = without (events c) ev.
Proof. by intros [-> | ->]. Qed.

(** Removing one event tells the kernel what is left. *)
Lemma told_removed s s' f ev c : 0 <= f → m_fdContexts s !! Z.to_nat f = Some c → is_event ev →
  has (events c) ev = true → m_fdContexts s' = <[Z.to_nat f := removed ev c]> (m_fdContexts s) →
  epoll_ctl (if without (events c) ev =? 0 then EPOLL_CTL_DEL else EPOLL_CTL_MOD) f
    (Z.lor EPOLLET (without (events c) ev)) f (epoll s) = (true, epoll s') → synced f s s'.
Proof.
  intros Hf Hc Hev Hh El Ek. eapply told_intro; [done|exact Hc|exact El|exact Ek|..];
    rewrite events_removed by done; [|done|intros H; by rewrite H in Hh]. by rewrite (proj2 (Z.eqb_neq _ _) (has_nonzero _ _ Hh)).
Qed.

Lemma delEvent_ok s f ev : wf s → 0 <= f → is_event ev →
  ∃ r s', delEvent epoll_ctl f ev s = (Ret r, s') ∧ wf s' ∧ synced f s s' ∧
    (r = false → waits (view_of s) f ev = None ∨ refused f s s') ∧
    spec (OpDel f ev) s (view_of s) r (view_of s').
Proof.
  intros Hwf Hf Hev. destruct (remove_interest_spec s f ev Hwf Hf Hev) as (r & s1 & E & Hwf1 & Hv & Hr).
  unfold delEvent. rewrite (stE_bind_ret _ _ _ _ _ E). destruct r as [e|].
  2:{ exists false, s1. destruct Hr. rewrite Hv. split_and!; try done. by left. }
  destruct Hr as (c & Hc & El & Hh & -> & Hk). pose proof Hc as Hc0. rewrite <- El in Hc.
  pose proof (wf_ctx _ _ Hwf1 _ _ Hc) as Hok.
  set (s2 := set_pending (u64 (m_pendingEventCount s1 + -1)) s1).
  set (s3 := set_contexts (<[Z.to_nat f := removed ev c]> (m_fdContexts s2)) s2).
  exists true, s3. split; [|split; [|split; [|split; [done|]]]].
  - rewrite (stE_bind_ret _ (add_pending (-1)) s1 tt s2 eq_refl).
    rewrite (stE_bind_ret _ _ _ _ _ (context_at f c s2 Hf Hc)). cbv zeta.
    rewrite (stE_bind_ret _ (query _) s2 (slot ev c) s2)
      by (unfold query; rewrite getEventContext_slot by done; by destruct Hev as [-> | ->]).
    done.
  - eapply wf_update; [exact Hwf1|exact Hc|by apply removed_ok|done|].
    rewrite (nevents_removed _ _ _ Hok Hev Hh). cbn. f_equal. lia.
  - apply (told_removed s s3 f ev c); try done. cbn. by rewrite El.
  - cbn [spec]. rewrite <- Hv, (waits_at _ _ c) by done. split.
    + apply (wait_registered _ _ _ Hok Hev) in Hh. destruct Hh as [w ->]. done.
    + split; [|done]. intros f' ev' Hev'.
      rewrite (waits_insert s1 s3 f c (removed ev c) Hf Hc eq_refl). cbn [waits set_wait].
      destruct (decide (f' = f)) as [->|].
      * case_decide as Hd; [destruct Hd as [_ ->]; by apply wait_removed|].
        rewrite (waits_at _ _ c) by done. eapply wait_removed_ne; [done..|]. intros ->. by apply Hd.
      * by rewrite (decide_False (P := f' = f ∧ ev' = ev)) by naive_solver.
Qed.

Lemma cancelEvent_ok s f ev : wf s → 0 <= f → is_event ev →
  ∃ r s', cancelEvent epoll_ctl this f ev s = (Ret r, s') ∧ wf s' ∧ synced f s s' ∧
    (r = false → waits (view_of s) f ev = None ∨ refused f s s') ∧
    spec (OpCancel f ev) s (view_of s) r (view_of s').
Proof.
  intros Hwf Hf Hev. destruct (remove_interest_spec s f ev Hwf Hf Hev) as (r & s1 & E & Hwf1 & Hv & Hr).
  unfold cancelEvent. rewrite (stE_bind_ret _ _ _ _ _ E). destruct r as [e|].
  2:{ exists false, s1. destruct Hr. rewrite Hv. split_and!; try done. by left. }
  destruct Hr as (c & Hc & El & Hh & -> & Hk). pose proof Hc as Hc0. rewrite <- El in Hc.
  destruct (trigger_ok s1 f ev c) as (s2 & E2 & Hwf2 & [Hk2 _] & El2 & Hv2); [done..|].
  exists true, s2. split; [|split; [done|split; [|split; [done|]]]].
  - unfold trigger_if in E2. apply stE_bind_inv in E2 as (? & s3 & E3 & E4).
    rewrite (stE_bind_ret _ _ _ _ _ E3). by rewrite (stE_bind_ret _ _ _ _ _ E4).
  - apply (told_removed s s2 f ev c); try done; [by rewrite El2, El|by rewrite Hk2].
  - cbn [spec]. rewrite <- Hv, (waits_at _ _ c) by done. split; [|done].
    apply (wait_registered _ _ _ (wf_ctx _ _ Hwf1 _ _ Hc) Hev) in Hh. by destruct Hh as [w ->].
Qed.

(** Triggering when registered is waking, whatever is registered. *)
Lemma trigger_if_ok s f ev c : wf s → 0 <= f → m_fdContexts s !! Z.to_nat f = Some c → is_event ev →
  ∃ s', trigger_if this (has (events c) ev) f ev s = (Ret tt, s') ∧ wf s' ∧ epoll s' = epoll s ∧
    m_fdContexts s' = <[Z.to_nat f := if has (events c) ev then removed ev c else c]> (m_fdContexts s) ∧
    view_of s' ≡ wake f ev (view_of s).
Proof.
  intros Hwf Hf Hc Hev. destruct (has (events c) ev) eqn:Hh.
  - destruct (trigger_ok s f ev c) as (s' & ? & ? & [? _] & ? & ?); [done..|]. by exists s'.
  - exists s. do 3 (split; [done|]). rewrite list_insert_id by done. split; [done|].
    unfold wake. rewrite (waits_at _ _ c) by done. unfold wait_of. by rewrite Hh.
Qed.

Lemma removed_all i c : ctx_ok i c →
  events (let c1 := if has (events c) READ then removed READ c else c in
          if has (events c1) WRITE then removed WRITE c1 else c1) = 0.
Proof. destruct c. intros [_ He _]. cbn in He. by_events He; done. Qed.

Lemma some_event i c : ctx_ok i c → events c ≠ 0 → has (events c) READ = true ∨ has (events c) WRITE = true.
Proof. destruct c. intros [_ He _] H. cbn in *. by_events He; auto. Qed.

Lemma cancelAll_ok s f : wf s → 0 <= f →
  ∃ r s', cancelAll epoll_ctl this f s = (Ret r, s') ∧ wf s' ∧ synced f s s' ∧
    (r = false → (∀ ev, is_event ev → waits (view_of s) f ev = None) ∨ refused f s s') ∧
    spec (OpCancelAll f) s (view_of s) r (view_of s').
Proof.
  intros Hwf Hf. unfold cancelAll. rewrite (stE_bind_ret _ _ _ _ _ (find_context_spec _ _ _ Hwf Hf)).
  case_bool_decide as Hl; cbn [negb].
  2:{ exists false, s. split_and!; try done; [left; apply quiet_refl|]. left. intros. by apply find_none. }
  destruct (context_inside s f Hf Hl) as [c Hc]. pose proof (wf_ctx _ _ Hwf _ _ Hc) as Hok.
  rewrite (stE_bind_ret _ _ _ _ _ (context_at f c s Hf Hc)).
  destruct (events c =? 0) eqn:He.
  { exists false, s. split_and!; try done; [left; apply quiet_refl|]. left. intros ev _.
    rewrite (waits_at _ _ c) by done. apply Z.eqb_eq in He. unfold wait_of. by rewrite He. }
  destruct (run_epoll_ctl_spec 0 EPOLL_CTL_DEL f 0 f s Hwf) as (s1 & E & Ek & Hwf1 & El & Hv & _).
  rewrite (stE_bind_ret _ _ _ _ _ E).
  destruct (epoll_ctl _ _ _ _ _) as [[] k] eqn:Eo; cbn [fst snd negb] in Ek |- *; subst k.
  2:{ assert (refused f s s1).
      { eapply refused_intro; [done|done|]. split; intros H; [done|by rewrite H in He]. }
      exists false, s1. rewrite Hv. split_and!; try done; [left; by apply quiet_refused|auto]. }
  pose proof Hc as Hc0. rewrite <- El in Hc. rewrite (stE_bind_ret _ _ _ _ _ (context_at f c s1 Hf Hc)).
  destruct (trigger_if_ok s1 f READ c) as (s2 & E2 & Hwf2 & Ek2 & El2 & Hv2); [done..|by left|].
  rewrite (stE_bind_ret _ _ _ _ _ E2).
  set (c1 := if has (events c) READ then removed READ c else c) in *.
  assert (m_fdContexts s2 !! Z.to_nat f = Some c1) as Hc1
    by (rewrite El2; apply list_lookup_insert_eq; by eapply lookup_lt_Some).
  rewrite (stE_bind_ret _ _ _ _ _ (context_at f c1 s2 Hf Hc1)).
  destruct (trigger_if_ok s2 f WRITE c1) as (s3 & E3 & Hwf3 & Ek3 & El3 & Hv3); [done..|by right|].
  rewrite (stE_bind_ret _ _ _ _ _ E3).
  set (c2 := if has (events c1) WRITE then removed WRITE c1 else c1) in *.
  assert (m_fdContexts s3 !! Z.to_nat f = Some c2) as Hc2
    by (rewrite El3; apply list_lookup_insert_eq; by eapply lookup_lt_Some).
  rewrite (stE_bind_ret _ _ _ _ _ (context_at f c2 s3 Hf Hc2)).
  assert (events c2 = 0) as Hz by apply (removed_all _ _ Hok). rewrite Hz.
  exists true, s3. split; [done|]. split; [done|]. split.
  { apply (told_intro s s3 f EPOLL_CTL_DEL 0 c c2); try done;
      [|congruence|by rewrite He, Hz|intros H; by rewrite H in He].
    rewrite El3, El2, El. apply list_insert_insert_eq. }
  split; [done|].
  apply Z.eqb_neq in He. cbn [spec]. rewrite <- Hv. split.
  - rewrite !(waits_at _ _ c) by done. destruct (some_event _ _ Hok He) as [Hh|Hh]; [left|right];
      apply (wait_registered _ _ _ Hok) in Hh; [destruct Hh as [? ->]; done|by left|
        destruct Hh as [? ->]; done|by right].
  - rewrite Hv3. apply wake_proper; [by right|done].
Qed.
Lemma trigger_seen s (b : bool) f ev c : wf s → 0 <= f → m_fdContexts s !! Z.to_nat f = Some c →
  is_event ev → (b = true → has (events c) ev = true) →
  ∃ s', trigger_if this b f ev s = (Ret tt, s') ∧ wf s' ∧ epoll s' = epoll s ∧
    m_fdContexts s' = <[Z.to_nat f := if b then removed ev c else c]> (m_fdContexts s) ∧
    view_of s' ≡ (if b then wake f ev (view_of s) else view_of s).
Proof.
  intros Hwf Hf Hc Hev Hb. destruct b; [|exists s; by rewrite list_insert_id].
  destruct (trigger_ok s f ev c) as (s' & E & Hwf' & [Hk _] & El & Hv); [done|done|done|done|by apply Hb|].
  by exists s'.
Qed.

Lemma still_registered i c : ctx_ok i c → has (events c) WRITE = true →
  has (events (removed READ c)) WRITE = true.
Proof. destruct c. intros [_ He _] H. cbn in *. by_events He; done. Qed.

Lemma events_seen i c evs e : ctx_ok i c →
  let real := real_events evs e in
  let c1 := if has real READ then removed READ c else c in
  events (if has real WRITE then removed WRITE c1 else c1) = without (events c) real.
Proof.
  destruct c. intros [_ He _]. cbn in He. unfold real_events.
  destruct (has _ EPOLLIN), (has _ EPOLLOUT); by_events He; done.
Qed.

(** Firing events none of which is registered. *)
Lemma fire_nothing s f c real : wf s → 0 <= f → m_fdContexts s !! Z.to_nat f = Some c →
  Z.land (events c) real = 0 → fire f real (view_of s) ≡ view_of s.
Proof.
  intros Hwf Hf Hc Hl. pose proof (wf_ctx _ _ Hwf _ _ Hc) as Hok.
  assert (∀ ev, is_event ev → has real ev = true → wake f ev (view_of s) = view_of s) as Hw.
  { intros ev Hev Hr. unfold wake. rewrite (waits_at _ _ c) by done. unfold wait_of.
    destruct (has (events c) ev) eqn:Hh; [|done]. exfalso.
    unfold has in Hh, Hr. apply negb_true_iff, Z.eqb_neq in Hh, Hr.
    assert (∃ n, ev = 2 ^ n ∧ 0 <= n) as (n & -> & Hn).
    { destruct Hev as [-> | ->]; [by exists 0|by exists 2]. }
    assert (∀ x, Z.land x (2 ^ n) ≠ 0 → Z.testbit x n = true) as Hb.
    { intros x Hx. destruct (Z.testbit x n) eqn:E; [done|]. exfalso. apply Hx.
      apply Z.bits_inj'. intros j Hj. rewrite Z.land_spec, Z.bits_0, Z.pow2_bits_eqb by lia.
      destruct (Z.eqb_spec n j) as [->|]; [by rewrite E|apply andb_false_r]. }
    apply Hb in Hh, Hr. assert (Z.testbit (Z.land (events c) real) n = true) as Ht
      by by rewrite Z.land_spec, Hh, Hr. by rewrite Hl, Z.bits_0 in Ht. }
  unfold fire. destruct (has real READ) eqn:H1.
  - rewrite (Hw READ (or_introl eq_refl) H1). destruct (has real WRITE) eqn:H2; [|done].
    by rewrite (Hw WRITE (or_intror eq_refl) H2).
  - destruct (has real WRITE) eqn:H2; [|done]. by rewrite (Hw WRITE (or_intror eq_refl) H2).
Qed.

Lemma handle_event_ok s f evs : wf s → op_ok (OpHandle (OnFd f evs)) s →
  ∃ s', handle_event epoll_ctl this (OnFd f evs) s = (Ret tt, s') ∧ wf s' ∧ synced f s s' ∧
    length (m_fdContexts s') = length (m_fdContexts s) ∧
    (view_of s' ≡ view_of s ∧ refused f s s' ∨
     view_of s' ≡ fire f (real_events evs (registered s f)) (view_of s)).
Proof.
  intros Hwf Hok. destruct Hok as [Hf Hin]. destruct (context_inside s f) as [c Hc]; [lia..|].
  pose proof (wf_ctx _ _ Hwf _ _ Hc) as Hok.
  assert (registered s f = events c) as Hreg by (unfold registered; by rewrite Hc).
  rewrite Hreg in *. set (real := real_events evs (events c)) in *.
  unfold handle_event. rewrite (stE_bind_ret _ _ _ _ _ (context_at f c s ltac:(lia) Hc)). cbv zeta.
  fold real. destruct (Z.land (events c) real =? NONE) eqn:En.
  { apply Z.eqb_eq in En. exists s. split_and!; try done; [left; apply quiet_refl|right].
    symmetry. eapply fire_nothing; done || lia. }
  apply Z.eqb_neq in En. specialize (Hin En).
  rewrite (ok_fd _ _ Hok), Z2Nat.id by lia.
  destruct (run_epoll_ctl_spec 0 (if without (events c) real =? 0 then EPOLL_CTL_DEL else EPOLL_CTL_MOD)
              f (Z.lor EPOLLET (without (events c) real)) f s Hwf) as (s1 & E & Ek & Hwf1 & El & Hv & _).
  rewrite (stE_bind_ret _ _ _ _ _ E).
  destruct (epoll_ctl _ _ _ _ _) as [[] k] eqn:Eo; cbn [fst snd negb] in Ek |- *; subst k.
  2:{ assert (refused f s s1) by (eapply refused_del; [done| |done]; intros H; by rewrite H in En).
      exists s1. rewrite Hv, El. split_and!; try done; left; [|done]. by apply quiet_refused. }
  pose proof Hc as Hc0. rewrite <- El in Hc.
  destruct (trigger_seen s1 (has real READ) f READ c) as (s2 & E2 & Hwf2 & Ek2 & El2 & Hv2);
    [done|lia|done|by left|apply Hin; by left|].
  rewrite (stE_bind_ret _ _ _ _ _ E2).
  set (c1 := if has real READ then removed READ c else c) in *.
  assert (m_fdContexts s2 !! Z.to_nat f = Some c1) as Hc1
    by (rewrite El2; apply list_lookup_insert_eq; by eapply lookup_lt_Some).
  destruct (trigger_seen s2 (has real WRITE) f WRITE _ Hwf2 ltac:(lia) Hc1)
    as (s3 & E3 & Hwf3 & Ek3 & El3 & Hv3); [by right| |].
  { intros Hr. apply Hin in Hr; [|by right]. subst c1. destruct (has real READ); [|done].
    by eapply still_registered. }
  pose proof (events_seen _ c evs (events c) Hok) as Hse. cbv zeta in Hse. fold real in Hse. fold c1 in Hse.
  exists s3. split; [done|]. split; [done|]. split.
  - eapply (told_intro s s3 f _ _ c); [lia|done|by rewrite El3, El2, El, list_insert_insert_eq|..].
    + rewrite Ek3, Ek2. exact Eo.
    + rewrite Hse.
      destruct (events c =? 0) eqn:Ez; [|done]. apply Z.eqb_eq in Ez. by rewrite Ez in En.
    + by rewrite Hse.
    + intros H. by rewrite H in En.
  - split; [by rewrite El3, El2, El, !length_insert|].
    right. unfold fire. cbv zeta. rewrite <- Hv, Hv3.
    destruct (has real WRITE); [apply wake_proper; [by right|]|]; done.
Qed.

(** Growing the vector. *)
Definition grow m l : list FdContext := l ++ map new_context (seq (length l) (m - length l)).

Lemma grow_lookup m l j c : grow m l !! j = Some c → l !! j = Some c ∨ l !! j = None ∧ c = new_context j.
Proof.
  unfold grow. rewrite lookup_app_Some. intros [?|[Hj Hc]]; [by left|]. right.
  split; [by apply lookup_ge_None_2|].
  apply list_lookup_fmap_Some in Hc as (x & -> & Hx). apply lookup_seq in Hx as [-> _].
  f_equal. lia.
Qed.

Lemma grow_at {A} (g : FdContext → A) d m l j : (∀ i, g (new_context i) = d) →
  from_option g d (grow m l !! j) = from_option g d (l !! j).
Proof.
  intros Hg. destruct (grow m l !! j) as [c|] eqn:E.
  - destruct (grow_lookup _ _ _ _ E) as [-> |[-> ->]]; [done|apply Hg].
  - apply lookup_ge_None in E. unfold grow in E. rewrite length_app in E.
    by rewrite lookup_ge_None_2 by lia.
Qed.

Lemma count_grow m l : count (grow m l) = count l.
Proof.
  assert (∀ k j, count (map new_context (seq j k)) = 0) as Hz.
  { intros k. induction k as [|k IH]; intros j; [done|]. cbn [seq map count]. by rewrite IH. }
  unfold grow. generalize (m - length l)%nat (length l). intros k j.
  induction l as [|x l IH]; cbn [count app]; [apply Hz|]. by rewrite IH.
Qed.

Lemma new_context_ok i : ctx_ok i (new_context i).
Proof. split; [done|by left|]. by intros ev [-> | ->]. Qed.

Lemma grow_length m l : (length l <= m)%nat → length (grow m l) = m.
Proof. intros. unfold grow. rewrite length_app, length_map, length_seq. lia. Qed.

Lemma grown_range f : 32 <= f < 2 ^ 30 → f < Z.of_nat (grown f) < 2 ^ 31.
Proof.
  intros Hf. unfold grown. rewrite Z2Nat.id by (apply Z.div_pos; lia).
  split; [|apply Z.div_lt_upper_bound; lia].
  apply Z.lt_le_trans with (f + 1); [lia|]. apply Z.div_le_lower_bound; lia.
Qed.

Lemma contextResize_ok s f : wf s → 32 <= f < 2 ^ 30 → (length (m_fdContexts s) <= grown f)%nat →
  ∃ s', contextResize (grown f) s = (Ret tt, s') ∧ wf s' ∧ f < Z.of_nat (length (m_fdContexts s')) ∧
    (length (m_fdContexts s) <= length (m_fdContexts s'))%nat ∧
    sched s' = sched s ∧ view_of s' ≡ view_of s ∧ epoll s' = epoll s ∧
    ∀ j, 0 <= j → registered s' j = registered s j.
Proof.
  intros [H1 [H2 H2'] H3] Hf Hl. pose proof (grown_range f ltac:(lia)) as Hm.
  set (s' := set_contexts (grow (grown f) (m_fdContexts s)) s). exists s'.
  split; [unfold contextResize, modify; rewrite take_ge by lia; done|].
  split; [|split; [|split; [|split; [|split; [|split]]]]]; cbn; try done.
  - split; cbn; rewrite ?grow_length, ?count_grow by lia; [|lia|done].
    intros j c Hj. destruct (grow_lookup _ _ _ _ Hj) as [?|[_ ->]]; [by apply H1|apply new_context_ok].
  - rewrite grow_length by lia. lia.
  - rewrite grow_length by lia. lia.
  - split; [|done]. intros f' ev Hev. cbn. case_decide; [|done].
    apply (grow_at (wait_of ev) None). by destruct Hev as [-> | ->].
  - intros j _. by apply (grow_at events 0).
Qed.

Lemma callee_ok here cur cb s a : here = Some a →
  (cb = None → ∃ x, fibers (shs (sched s)) !! cur = Some x ∧ m_state x = RUNNING) →
  ∃ y, callee here cur cb s = (Ret y, s) ∧ scheduler y = Some a ∧
    task_of y = (match cb with Some _ => mkTask None cb (-1) | None => mkTask (Some cur) None (-1) end).
Proof.
  intros -> Hr. destruct cb as [cb|].
  - by eexists.
  - destruct (Hr eq_refl) as (x & Hx & Hs).
    exists (mkEventContext (Some a) (Some cur) None). split; [|done].
    unfold callee. rewrite (stE_bind_ret _ get _ s s eq_refl), Hx, bool_decide_eq_true_2 by done. done.
Qed.

Lemma events_added ev x c : is_event ev → events (added ev x c) = Z.lor (events c) ev.
Proof. by intros [-> | ->]. Qed.

Lemma events_more i c ev : ctx_ok i c → is_event ev → has (events c) ev = false →
  (Z.lor (events c) ev =? 0) = false.
Proof. destruct c. intros [_ He _] [-> | ->]; cbn in He; by_events He; done. Qed.

Lemma addEvent_locked_ok s f ev a cur cb : wf s → op_ok (OpAdd f ev (Some a) cur cb) s →
  f < Z.of_nat (length (m_fdContexts s)) →
  ∃ r s', addEvent_locked epoll_ctl f ev (Some a) cur cb s = (Ret r, s') ∧ wf s' ∧ synced f s s' ∧
    ((r =? 0) = false → refused f s s') ∧
    spec (OpAdd f ev (Some a) cur cb) s (view_of s) (r =? 0) (view_of s').
Proof.
  intros Hwf (Hf & Hev & Hw & _ & Hr) Hl. destruct (context_inside s f ltac:(lia) Hl) as [c Hc].
  pose proof (wf_ctx _ _ Hwf _ _ Hc) as Hok. rewrite (waits_at _ _ c) in Hw by (done || lia).
  assert (has (events c) ev = false) as Hh.
  { apply not_true_iff_false. intros Hh. apply (wait_registered _ _ _ Hok Hev) in Hh. by rewrite Hw in Hh; destruct Hh. }
  unfold addEvent_locked. rewrite (stE_bind_ret _ _ _ _ _ (context_at f c s ltac:(lia) Hc)), Hh.
  rewrite (stE_bind_ret _ (ASSERT true) s tt s eq_refl). cbv zeta.
  destruct (run_epoll_ctl_spec 0 (if events c =? 0 then EPOLL_CTL_ADD else EPOLL_CTL_MOD) f
    (Z.lor EPOLLET (Z.lor (events c) ev)) f s Hwf) as (s1 & E & Ek & Hwf1 & El & Hv & Es & Ep).
  rewrite (stE_bind_ret _ _ _ _ _ E).
  destruct (epoll_ctl _ _ _ _ _) as [[] k] eqn:Eo; cbn [fst snd negb] in Ek |- *; subst k.
  2:{ assert (refused f s s1).
      { eapply refused_intro; [done|done|]. rewrite <- Z.eqb_eq. by destruct (_ =? 0). }
      exists (-1), s1. rewrite Hv. split_and!; try done. left. by apply quiet_refused. }
  pose proof Hc as Hc0. rewrite <- El in Hc.
  set (s2 := set_pending (u64 (m_pendingEventCount s1 + 1)) s1).
  rewrite (stE_bind_ret _ (add_pending 1) s1 tt s2 eq_refl).
  set (c1 := set_events (Z.lor (events c) ev) c).
  set (s3 := set_contexts (<[Z.to_nat f := c1]> (m_fdContexts s2)) s2).
  rewrite (stE_bind_ret _ (put_context f c1) s2 tt s3 eq_refl).
  pose proof (ok_slot _ _ Hok _ Hev) as Hs. rewrite Hh in Hs.
  rewrite (stE_bind_ret _ (query _) s3 no_event s3)
    by (unfold query; rewrite getEventContext_slot by done; destruct Hev as [-> | ->]; cbn in *; by rewrite Hs).
  rewrite (stE_bind_ret _ (ASSERT true) s3 tt s3 eq_refl).
  destruct (callee_ok (Some a) cur cb s3 a eq_refl) as (y & Ey & Ha & Ht); [cbn; by rewrite Es|].
  rewrite (stE_bind_ret _ _ _ _ _ Ey).
  set (s4 := set_contexts (<[Z.to_nat f := added ev y c]> (m_fdContexts s3)) s3).
  assert (m_fdContexts s4 = <[Z.to_nat f := added ev y c]> (m_fdContexts s1)) as El4
    by apply list_insert_insert_eq.
  assert (is_task (task_of y) = true) as Hy by (rewrite Ht; by destruct cb).
  exists 0, s4. split; [done|]. split; [|split; [|split; [done|]]].
  - eapply wf_update; [exact Hwf1|exact Hc|by eapply added_ok|exact El4|].
    rewrite (nevents_added _ _ _ _ Hok Hev Hh). cbn. f_equal. lia.
  - eapply (told_intro s s4 f _ _ c); [lia|done|by rewrite El4, El|exact Eo|..];
      rewrite events_added by done; [|done|intros _; apply Z.eqb_neq; by eapply events_more].
    destruct (events c =? 0) eqn:Ez; [done|]. rewrite (events_more _ _ _ Hok Hev Hh). done.
  - cbn [spec Z.eqb]. rewrite <- Ht, <- Hv. split; [|done]. intros f' ev' Hev'.
    rewrite (waits_insert s1 s4 f c _ ltac:(lia) Hc El4). cbn [waits set_wait].
    destruct (decide (f' = f)) as [->|].
    + case_decide as Hd; [destruct Hd as [_ ->]; by eapply wait_added|].
      rewrite (waits_at _ _ c) by (done || lia). eapply wait_added_ne; [done..|]. intros ->. by apply Hd.
    + by rewrite (decide_False (P := f' = f ∧ ev' = ev)) by naive_solver.
Qed.
Lemma set_wait_proper f ev w A V : A ≡ V → set_wait f ev w A ≡ set_wait f ev w V.
Proof.
  intros [H1 H2]. split; cbn; [|done]. intros f' ev' Hev'. case_decide; [done|]. by apply H1.
Qed.

Lemma refused_same f s0 s s' : 0 <= f → epoll s0 = epoll s →
  (∀ j, 0 <= j → registered s0 j = registered s j) → refused f s0 s' → refused f s s'.
Proof.
  intros Hf Ek Er (op & evs & H1 & H2). exists op, evs. by rewrite <- Ek, <- (Er f).
Qed.

Lemma synced_same f s0 s s' : 0 <= f → epoll s0 = epoll s → (∀ j, 0 <= j → registered s0 j = registered s j) →
  synced f s0 s' → synced f s s'.
Proof.
  intros Hf Ek Er [[H1 H2]|(e & H1 & H2 & H3)].
  - left. split; [intros j Hj; by rewrite H1, Er|]. rewrite <- Ek.
    destruct H2; [by left|right; by eapply refused_same].
  - right. exists e. split; [done|]. rewrite <- Ek, <- (Er f) by done. split; [|done].
    intros j Hj. rewrite H2 by done. case_decide; [done|by apply Er].
Qed.

Lemma addEvent_ok s f ev a cur cb : wf s → op_ok (OpAdd f ev (Some a) cur cb) s →
  ∃ r s', addEvent epoll_ctl f ev (Some a) cur cb s = (Ret r, s') ∧ wf s' ∧ synced f s s' ∧
    ((r =? 0) = false → refused f s s') ∧
    spec (OpAdd f ev (Some a) cur cb) s (view_of s) (r =? 0) (view_of s').
Proof.
  intros Hwf Hok. pose proof Hok as (Hf & Hev & Hw & _ & Hr). unfold addEvent.
  rewrite (stE_bind_ret _ _ _ _ _ (find_context_spec _ _ _ Hwf (proj1 Hf))).
  case_bool_decide as Hl.
  { rewrite (stE_bind_ret _ (mret tt) s tt s eq_refl). by apply addEvent_locked_ok. }
  pose proof (wf_len _ _ Hwf) as Hlen.
  destruct (contextResize_ok s f Hwf) as (s1 & E & Hwf1 & Hl1 & _ & Es & Hv & Ek & Hreg);
    [lia|pose proof (grown_range f); lia|].
  rewrite (stE_bind_ret _ _ _ _ _ E).
  destruct (addEvent_locked_ok s1 f ev a cur cb Hwf1) as (r & s2 & E2 & Hwf2 & Hk2 & Hr2 & Hs2); [|done|].
  { split_and!; try lia; try done. - by rewrite (proj1 Hv f ev Hev). - by rewrite Es. }
  exists r, s2. split; [done|]. split; [done|].
  split; [eapply synced_same; done || lia|]. split; [intros; eapply refused_same; [lia|done..|by apply Hr2]|].
  cbn [spec] in *. destruct (r =? 0); [|by rewrite Hs2].
  rewrite Hs2. by apply set_wait_proper.
Qed.

(** There is nothing for the call to do. *)
Definition idle_op (o : op) (A : view) : Prop :=
  match o with
  | OpDel f ev | OpCancel f ev => waits A f ev = None
  | OpCancelAll f => ∀ ev, is_event ev → waits A f ev = None
  | _ => False
  end.

Lemma exec_ok o s : wf s → op_ok o s →
  ∃ r s', exec o s = (Ret r, s') ∧ wf s' ∧ synced (op_fd o) s s' ∧
    (r = false → idle_op o (view_of s) ∨ refused (op_fd o) s s') ∧ spec o s (view_of s) r (view_of s').
Proof.
  intros Hwf Hok. destruct o as [f ev [a|] cur cb|f ev|f ev|f|r].
  - destruct (addEvent_ok s f ev a cur cb Hwf Hok) as (r & s' & E & ? & ? & ? & Hs).
    exists (r =? 0), s'. split; [|by split_and!; auto]. cbn [exec]. by rewrite (stE_bind_ret _ _ _ _ _ E).
  - by destruct Hok as (_ & _ & _ & [? ?] & _).
  - destruct Hok. by apply delEvent_ok.
  - destruct Hok. by apply cancelEvent_ok.
  - by apply cancelAll_ok.
  - destruct r as [|f evs].
    + exists true, (set_pipe 0 s). split_and!; try done; [by destruct Hwf|]. left. split; [done|by left].
    + destruct (handle_event_ok s f evs Hwf Hok) as (s' & E & ? & ? & _ & Hv). exists true, s'.
      cbn [exec]. rewrite (stE_bind_ret _ _ _ _ _ E). split_and!; try done.
      cbn [spec]. destruct Hv as [[? _]|?]; [by left|by right].
Qed.
(* ------------------------------------------------------------------ *)
(** ** What other threads do *)

(** The vector only grows. *)
Abbreviation kl := (keeps (λ s : IOManager, length (m_fdContexts s))).

Lemma put_context_length i c : kl (put_context i c).
Proof. intros s. cbn. apply length_insert. Qed.
Lemma run_length op f e i : kl (run_epoll_ctl epoll_ctl op f e i).
Proof. intros s. unfold run_epoll_ctl. by destruct (epoll_ctl _ _ _ _ _). Qed.
Lemma schedule_on_length a k : kl (schedule_on this a k).
Proof.
  unfold schedule_on. case_bool_decide; [|by apply keeps_modify].
  apply keeps_bind; [|intros evs; case_match; [unfold tickle; keeps_solve|keeps_solve]].
  intros s. unfold on_scheduler. by destruct (schedule k (sched s)).
Qed.
#[local] Hint Resolve put_context_length run_length schedule_on_length : keeps.

Lemma locked_length f ev here cur cb : kl (addEvent_locked epoll_ctl f ev here cur cb).
Proof. unfold addEvent_locked, callee, IOManager.ASSERT, context, add_pending. keeps_solve. Qed.
Lemma handle_length r : kl (handle_event epoll_ctl this r).
Proof.
  unfold handle_event, trigger_if, triggerEvent, IOManager.ASSERT, IOManager.pointer, context, add_pending. keeps_solve.
Qed.
Lemma removal_length o : (match o with OpAdd _ _ _ _ _ => False | _ => True end) → kl (exec o).
Proof.
  destruct o as [f ev here cur cb|f ev|f ev|f|r]; cbn [exec]; [done|..]; intros _; [..|apply keeps_bind; [apply handle_length|by keeps_solve]];
    unfold delEvent, cancelEvent, cancelAll, remove_interest, find_context, trigger_if, triggerEvent, IOManager.ASSERT,
      IOManager.pointer, context, add_pending; keeps_solve.
Qed.

(** What the caller of an operation answers for: a descriptor that fits,
    and, for a wait, a scheduler and a callback or the running fiber.  The
    kernel reports contexts that exist. *)
Definition allowed (o : op) s : Prop :=
  match o with
  | OpAdd f ev here cur cb => 0 <= f < 2 ^ 30 ∧ is_event ev ∧ is_Some here ∧
      (cb = None → ∃ x, fibers (shs (sched s)) !! cur = Some x ∧ m_state x = RUNNING)
  | OpDel f ev | OpCancel f ev => 0 <= f ∧ is_event ev
  | OpCancelAll f => 0 <= f
  | OpHandle OnPipe => True
  | OpHandle (OnFd i evs) => 0 <= i < Z.of_nat (length (m_fdContexts s))
  end.

(** What stops the program: an event registered twice, and a report of
    which a part was removed since. *)
Definition stale i evs s : Prop :=
  let real := real_events evs (registered s i) in
  Z.land (registered s i) real ≠ 0 ∧ ∃ ev, is_event ev ∧ has real ev = true ∧ has (registered s i) ev = false.
Definition misused (o : op) s : Prop :=
  match o with
  | OpAdd f ev _ _ _ => waits (view_of s) f ev ≠ None
  | OpHandle (OnFd i evs) => stale i evs s
  | _ => False
  end.

#[global] Instance is_event_dec ev : Decision (is_event ev).
Proof. unfold is_event. apply _. Defined.

Lemma stale_or_ok i evs s : 0 <= i < Z.of_nat (length (m_fdContexts s)) →
  op_ok (OpHandle (OnFd i evs)) s ∨ stale i evs s.
Proof.
  intros Hi. cbn [op_ok]. unfold stale. set (e := registered s i). set (real := real_events evs e). cbv zeta.
  destruct (decide (Z.land e real = 0)) as [Hz|Hz]; [left; by split|].
  destruct (decide (has real READ = true ∧ has e READ = false)) as [[??]|H1];
    [right; split; [done|]; exists READ; split_and!; done || by left|].
  destruct (decide (has real WRITE = true ∧ has e WRITE = false)) as [[??]|H2];
    [right; split; [done|]; exists WRITE; split_and!; done || by right|].
  left. split; [done|]. intros _ ev [-> | ->] Hr; apply not_false_iff_true; tauto.
Qed.

Lemma trigger_missing s f ev c : 0 <= f → m_fdContexts s !! Z.to_nat f = Some c →
  has (events c) ev = false → trigger_if this true f ev s = (Crash assert_failed, s).
Proof.
  intros Hf Hc Hh. unfold trigger_if. apply stE_bind_crash. unfold triggerEvent.
  rewrite (stE_bind_ret _ _ _ _ _ (context_at f c s Hf Hc)), Hh. done.
Qed.

(** Handling a stale report: the kernel refuses the change, or the
    assertion fails. *)
Lemma handle_stale s i evs : wf s → 0 <= i < Z.of_nat (length (m_fdContexts s)) → stale i evs s →
  (∃ s', handle_event epoll_ctl this (OnFd i evs) s = (Ret tt, s') ∧ wf s' ∧ view_of s' = view_of s ∧
     m_fdContexts s' = m_fdContexts s ∧ refused i s s') ∨
  (handle_event epoll_ctl this (OnFd i evs) s).1 = Crash assert_failed.
Proof.
  intros Hwf Hi [Hl (ev & Hev & Hr & Hh)]. destruct (context_inside s i) as [c Hc]; [lia..|].
  pose proof (wf_ctx _ _ Hwf _ _ Hc) as Hok.
  assert (registered s i = events c) as Hreg by (unfold registered; by rewrite Hc).
  rewrite Hreg in *. set (real := real_events evs (events c)) in *.
  unfold handle_event. rewrite (stE_bind_ret _ _ _ _ _ (context_at i c s ltac:(lia) Hc)). cbv zeta. fold real.
  rewrite (proj2 (Z.eqb_neq (Z.land (events c) real) NONE) Hl). rewrite (ok_fd _ _ Hok), Z2Nat.id by lia.
  destruct (run_epoll_ctl_spec 0 (if without (events c) real =? 0 then EPOLL_CTL_DEL else EPOLL_CTL_MOD)
              i (Z.lor EPOLLET (without (events c) real)) i s Hwf) as (s1 & E & Ek & Hwf1 & El & Hv & _).
  rewrite (stE_bind_ret _ _ _ _ _ E).
  destruct (epoll_ctl _ _ _ _ _) as [[] k] eqn:Eo; cbn [fst snd negb] in Ek |- *; subst k.
  2:{ left. exists s1. split_and!; try done.
      eapply refused_del; [done| |done]. intros H; by rewrite H in Hl. }
  right. rewrite <- El in Hc. destruct (has real READ) eqn:H1.
  - destruct (has (events c) READ) eqn:H2.
    + destruct (trigger_seen s1 true i READ c) as (s2 & E2 & Hwf2 & _ & El2 & _); [done|lia|done|by left|done|].
      rewrite (stE_bind_ret _ _ _ _ _ E2). destruct Hev as [-> | ->]; [congruence|]. rewrite Hr.
      rewrite (trigger_missing s2 i WRITE (removed READ c)); [done|lia|..].
      * rewrite El2. apply list_lookup_insert_eq. by eapply lookup_lt_Some.
      * destruct Hok as [_ He _]. destruct c. cbn in *. by_events He; done.
    + by rewrite (stE_bind_crash _ _ _ _ _ (trigger_missing s1 i READ c ltac:(lia) Hc H2)).
  - destruct Hev as [-> | ->]; [congruence|].
    rewrite (stE_bind_ret _ (trigger_if this false i READ) s1 tt s1 eq_refl), Hr.
    by rewrite (trigger_missing s1 i WRITE c ltac:(lia) Hc Hh).
Qed.

(** Registering an event twice. *)
Lemma add_twice s f ev here cur cb : wf s → 0 <= f → is_event ev → waits (view_of s) f ev ≠ None →
  addEvent epoll_ctl f ev here cur cb s = (Crash assert_failed, s).
Proof.
  intros Hwf Hf Hev Hw. unfold addEvent. rewrite (stE_bind_ret _ _ _ _ _ (find_context_spec _ _ _ Hwf Hf)).
  case_bool_decide as Hl; [|by destruct Hw; apply find_none].
  rewrite (stE_bind_ret _ (mret tt) s tt s eq_refl). destruct (context_inside s f Hf Hl) as [c Hc].
  rewrite (waits_at _ _ c) in Hw by done.
  assert (has (events c) ev = true) as Hh
    by (apply (wait_registered _ _ _ (wf_ctx _ _ Hwf _ _ Hc) Hev); by apply not_eq_None_Some).
  unfold addEvent_locked. rewrite (stE_bind_ret _ _ _ _ _ (context_at f c s Hf Hc)), Hh. done.
Qed.

Lemma exec_length o s : wf s → allowed o s →
  (length (m_fdContexts s) <= length (m_fdContexts (exec o s).2))%nat.
Proof.
  intros Hwf Ha. destruct o as [f ev here cur cb|f ev|f ev|f|r]; [|by rewrite removal_length..].
  destruct Ha as (Hf & _). cbn [exec]. unfold addEvent. pose proof (wf_len _ _ Hwf) as Hlen.
  assert (kl (r ← addEvent_locked epoll_ctl f ev here cur cb; mret (r =? 0)%Z : stE IOManager bool)) as Hk
    by (apply keeps_bind; [apply locked_length|intros r; apply keeps_ret]).
  unfold mbind at 1, stE_bind at 1.
  rewrite (stE_bind_ret _ _ _ _ _ (find_context_spec 0 f s Hwf (proj1 Hf))). case_bool_decide as Hl.
  - rewrite (stE_bind_ret _ (mret tt) s tt s eq_refl). apply Nat.eq_le_incl. symmetry. exact (Hk s).
  - pose proof (grown_range f ltac:(lia)).
    destruct (contextResize_ok s f Hwf) as (s1 & E & _ & _ & Hl1 & _); [lia..|].
    rewrite (stE_bind_ret _ _ _ _ _ E). etrans; [exact Hl1|].
    apply Nat.eq_le_incl. symmetry. exact (Hk s1).
Qed.

(** A call the caller may make does what it promises, or the kernel
    refuses, or the program stops at an assertion. *)
Lemma exec_cases o s : wf s → allowed o s →
  (∃ r s', exec o s = (Ret r, s') ∧ wf s' ∧ synced (op_fd o) s s' ∧
    (r = false → idle_op o (view_of s) ∨ refused (op_fd o) s s') ∧ spec o s (view_of s) r (view_of s')) ∨
  (exec o s).1 = Crash assert_failed ∧ misused o s.
Proof.
  intros Hwf Ha. destruct o as [f ev here cur cb|f ev|f ev|f|[|i evs]];
    try (left; by apply exec_ok).
  - destruct Ha as (Hf & Hev & Hh & Hr). destruct (waits (view_of s) f ev) eqn:Hw.
    + right. cbn [exec misused]. rewrite (stE_bind_crash _ _ _ _ _ (add_twice s f ev here cur cb Hwf
        ltac:(lia) Hev ltac:(by rewrite Hw))). by rewrite Hw.
    + left. by apply exec_ok.
  - destruct (stale_or_ok i evs s Ha) as [Hok|Hst]; [left; by apply exec_ok|].
    destruct (handle_stale s i evs Hwf Ha Hst) as [(s' & E & Hwf' & Hv & El & Href)|E].
    + left. exists true, s'. cbn [exec op_fd]. rewrite (stE_bind_ret _ _ _ _ _ E). split_and!; try done.
      * left. by apply quiet_refused.
      * left. by rewrite Hv.
    + right. split; [|done]. cbn [exec]. unfold mbind, stE_bind.
      destruct (handle_event _ _ _ _) as [[]]; cbn in E; simplify_eq; done.
Qed.

Lemma exec_returns o s r s' : wf s → allowed o s → exec o s = (Ret r, s') →
  wf s' ∧ synced (op_fd o) s s' ∧ (length (m_fdContexts s) <= length (m_fdContexts s'))%nat ∧
  (r = false → idle_op o (view_of s) ∨ refused (op_fd o) s s') ∧ spec o s (view_of s) r (view_of s').
Proof.
  intros Hwf Ha E. pose proof (exec_length o s Hwf Ha) as Hl.
  destruct (exec_cases o s Hwf Ha) as [(r' & s1 & E' & H)|[E' _]]; rewrite E in *; [|done].
  injection E' as <- <-. cbn in Hl. tauto.
Qed.

(** A step of another thread, as the IO manager sees it: a call, which may
    be one that finds its event gone; the growth of the vector, which
    [addEvent] makes in a critical section of its own (one that would shrink
    the vector apart: [shrink_loses_contexts]); and whatever leaves the
    contexts and epoll alone: the timers, the schedulers, the pipe. *)
Inductive other : IOManager → IOManager → Prop :=
  | other_call o r s s' : allowed o s → exec o s = (Ret r, s') → other s s'
  | other_grow f s s' : 32 <= f < 2 ^ 30 → (length (m_fdContexts s) <= grown f)%nat →
      contextResize (grown f) s = (Ret tt, s') → other s s'
  | other_rest s s' : m_fdContexts s' = m_fdContexts s → m_pendingEventCount s' = m_pendingEventCount s →
      epoll s' = epoll s → Timer.wf (timers s') → other s s'.

(* ------------------------------------------------------------------ *)
(** ** What it promises *)

(** C11: on a well-formed manager every call that is allowed returns and
    leaves a well-formed manager, so [m_pendingEventCount] is the number of
    registered events, and no event context holds anything for an event that
    is not registered.  What it does to the waits and the schedulers' queues is
    its specification: [addEvent] adds a wait, [delEvent] removes one without
    running it, [cancelEvent], [cancelAll] and a reported event remove waits
    and queue their tasks, each once, with the scheduler that registered
    them. *)
Theorem io_refines o s : wf s → op_ok o s →
  ∃ r s', exec o s = (Ret r, s') ∧ wf s' ∧ spec o s (view_of s) r (view_of s').
Proof.
  intros Hwf Hok. destruct (exec_ok o s Hwf Hok) as (r & s' & ? & ? & _ & _ & ?). by exists r, s'.
Qed.

(** What the manual says of [epoll_ctl], of an interest list: a call that
    returned 0 did what it is for, one that failed (the manual's EBADF,
    EEXIST, ENOENT, EPERM, ENOMEM, ENOSPC, ...) changed nothing.  Nothing is
    said of when it fails. *)
Record epoll_law (interest : K → gmap Z (Z * Z)) : Prop := {
  law_accepted op f evs p k k' : epoll_ctl op f evs p k = (true, k') →
    interest k' = match op with
                  | EPOLL_CTL_DEL => delete f (interest k)
                  | _ => <[f := (evs, p)]> (interest k)
                  end;
  law_refused op f evs p k k' : epoll_ctl op f evs p k = (false, k') → interest k' = interest k
}.

(** The kernel watches the registered events, edge-triggered, with the
    context for its pointer; the pipe is another descriptor. *)
Definition watched (interest : K → gmap Z (Z * Z)) (tickle_fd : Z) s : Prop :=
  ∀ f, 0 <= f → f ≠ tickle_fd → interest (epoll s) !! f =
    if registered s f =? 0 then None else Some (Z.lor EPOLLET (registered s f), f).

Lemma watched_synced interest t f s s' : epoll_law interest → watched interest t s →
  synced f s s' → watched interest t s'.
Proof.
  intros [L1 L2] Hw [[H1 H2]|(e & Hf & H1 & op & evs & Hk & Ho & He & Hn)] j Hj Hjt.
  - assert (interest (epoll s') = interest (epoll s)) as ->; [|rewrite H1 by done; by apply Hw].
    destruct H2 as [->|(op & evs & Hk & _)]; [done|by eapply L2].
  - rewrite (H1 j Hj), (L1 _ _ _ _ _ _ Hk). specialize (Hw j Hj Hjt).
    destruct (decide (j = f)) as [->|Hne];
      [|destruct op; by rewrite ?lookup_insert_ne, ?lookup_delete_ne by congruence].
    destruct (registered s f =? 0) eqn:E; [|destruct (e =? 0) eqn:Ee]; subst op.
    + apply Z.eqb_eq in E. rewrite (proj2 (Z.eqb_neq e 0)), He by auto. apply lookup_insert_eq.
    + apply lookup_delete_eq.
    + rewrite He by done. apply lookup_insert_eq.
Qed.

(** One call of [epoll_ctl], which fits the interest list: it adds a
    descriptor that is not there, or changes or removes one that is, so that a
    refusal is none of EEXIST and ENOENT. *)
Definition asks (interest : K → gmap Z (Z * Z)) f (ok : bool) s s' : Prop :=
  ∃ op evs, epoll_ctl op f evs f (epoll s) = (ok, epoll s') ∧
    (op = EPOLL_CTL_ADD ↔ interest (epoll s) !! f = None).

Lemma watched_none interest t f s : watched interest t s → 0 <= f → f ≠ t →
  registered s f = 0 ↔ interest (epoll s) !! f = None.
Proof.
  intros Hw Hf Ht. rewrite (Hw f Hf Ht).
  destruct (Z.eqb_spec (registered s f) 0) as [->|Hne]; [done|]. split; [done|discriminate].
Qed.

Lemma refused_asks interest t f s s' : watched interest t s → 0 <= f → f ≠ t →
  refused f s s' → asks interest f false s s'.
Proof.
  intros Hw Hf Ht (op & evs & Hk & Ho). exists op, evs. by rewrite Ho, (watched_none interest t).
Qed.

Lemma synced_asks interest t f s s' : watched interest t s → 0 <= f → f ≠ t →
  synced f s s' → epoll s' = epoll s ∨ ∃ ok, asks interest f ok s s'.
Proof.
  intros Hw Hf Ht [[_ [?|?]]|(e & _ & _ & op & evs & Hk & Ho & _)]; [by left|right..].
  - exists false. by eapply refused_asks.
  - exists true, op, evs. split; [done|]. rewrite <- (watched_none interest t), Ho by done.
    destruct (Z.eqb_spec (registered s f) 0); [done|]. by destruct (e =? 0).
Qed.

(** A call that fails changes nothing. *)
Lemma failed_spec o s r s' : exec o s = (Ret r, s') → spec o s (view_of s) r (view_of s') →
  r = false → view_of s' ≡ view_of s.
Proof.
  intros E Hv ->. destruct o as [f ev [a|] cur cb|f ev|f ev|f|r]; try exact Hv.
  cbn [exec] in E. by apply stE_bind_inv in E as (? & ? & _ & [=]).
Qed.

Lemma op_fd_nonneg o s : allowed o s → 0 <= op_fd o.
Proof. destruct o as [f ev here cur cb|f ev|f ev|f|[|f evs]]; cbn; lia || naive_solver. Qed.

(** C13: the kernel always watches exactly the registered events, whichever
    calls it refuses: every call keeps the agreement, asks only for what fits
    the interest list (so that no refusal is EEXIST or ENOENT), and fails only
    when it has nothing to do or the kernel refuses, with every wait and queue
    as before.  It stops the program only when an event is registered twice or
    a reported event was removed in between.  Of [epoll_ctl] it is assumed that
    a call which succeeds does what it says and one which fails does nothing; a
    descriptor closed while registered, which drops out of the list by itself,
    is outside. *)
Theorem kernel_agrees interest t o s :
  epoll_law interest → wf s → allowed o s → op_fd o ≠ t → watched interest t s →
  match exec o s with
  | (Ret r, s') => watched interest t s' ∧
      (epoll s' = epoll s ∨ ∃ ok, asks interest (op_fd o) ok s s') ∧
      (r = false → (idle_op o (view_of s) ∨ asks interest (op_fd o) false s s') ∧ view_of s' ≡ view_of s)
  | (Crash c, _) => c = assert_failed ∧ misused o s
  | (Throw _, _) => False
  end.
Proof.
  intros Hlaw Hwf Ha Ht Hw. pose proof (op_fd_nonneg o s Ha) as Hf.
  destruct (exec_cases o s Hwf Ha) as [(r & s' & E & _ & Hs & Hr & Hv)|[E Hm]].
  - pose proof (failed_spec o s r s' E Hv) as Hf'. rewrite E. split; [by eapply watched_synced|].
    split; [by eapply synced_asks|]. intros ->. split; [|by apply Hf'].
    destruct (Hr eq_refl) as [?|?]; [by left|right]. by eapply refused_asks.
  - destruct (exec o s) as [[]]; cbn in E; simplify_eq. done.
Qed.

(** The event loop loses the race against [delEvent] and
    [cancelEvent]: if an event the kernel reported was removed before the loop
    takes the context's lock, and the descriptor's other event was reported
    too and is still registered, [triggerEvent] fails its assertion and the
    program stops. *)
Theorem stale_event_asserts s i evs c :
  wf s → 0 <= i → m_fdContexts s !! Z.to_nat i = Some c →
  events c = WRITE → real_events evs WRITE = READ + WRITE →
  (epoll_ctl EPOLL_CTL_DEL (fd c) EPOLLET i (epoll s)).1 = true →
  (exec (OpHandle (OnFd i evs)) s).1 = Crash assert_failed.
Proof.
  intros Hwf Hi Hc He Hr Hk. cbn [exec]. unfold handle_event.
  unfold mbind at 1, stE_bind at 1.
  rewrite (stE_bind_ret _ _ _ _ _ (context_at i c s Hi Hc)). cbv zeta. rewrite He, Hr.
  change (Z.land WRITE (READ + WRITE) =? NONE) with false. cbv iota.
  change (without WRITE (READ + WRITE)) with 0. change (0 =? 0) with true. cbv iota.
  change (Z.lor EPOLLET 0) with EPOLLET.
  destruct (run_epoll_ctl_spec 0 EPOLL_CTL_DEL (fd c) EPOLLET i s Hwf) as (s1 & E & _ & _ & El & _).
  rewrite Hk in E. rewrite (stE_bind_ret _ _ _ _ _ E). cbn [negb]. rewrite <- El in Hc.
  unfold trigger_if. change (has (READ + WRITE) READ) with true. cbv iota. unfold triggerEvent.
  unfold mbind, stE_bind. rewrite (context_at i c s1 Hi Hc), He. done.
Qed.

(** [addEvent] looks the context up and grows the vector in two
    critical sections, and what it grows to depends on its own descriptor
    only: if the vector has grown further in between, it shrinks, and
    descriptors that had contexts, with their registered events, are no longer
    found; [delEvent] and [cancelEvent] then report failure. *)
Theorem shrink_loses_contexts s f g :
  wf s → 0 <= f → Z.of_nat (grown f) <= g < Z.of_nat (length (m_fdContexts s)) →
  let s' := (contextResize (grown f) s).2 in
  length (m_fdContexts s') = grown f ∧
  (∀ ev, waits (view_of s') g ev = None) ∧
  (∀ ev, delEvent epoll_ctl g ev s' = (Ret false, s') ∧
         cancelEvent epoll_ctl this g ev s' = (Ret false, s')).
Proof.
  intros [_ [_ Hlen] _] Hf Hg s'.
  assert (length (m_fdContexts s') = grown f) as Hl.
  { subst s'. cbn. rewrite length_app, length_take, length_map, length_seq. lia. }
  assert (find_context g s' = (Ret false, s')) as Hfind.
  { unfold find_context, query. rewrite Hl, bool_decide_eq_false_2; [done|].
    unfold wraps. rewrite Z.mod_small by lia. case_decide; lia. }
  split; [done|]. split.
  - intros ev. cbn [waits view_of]. case_decide; [|done]. by rewrite lookup_ge_None_2 by lia.
  - intros ev. unfold delEvent, cancelEvent, remove_interest, mbind, stE_bind.
    by rewrite Hfind.
Qed.

Lemma count_zero l : count l = 0 ↔ Forall (λ c, nevents c = 0) l.
Proof.
  induction l as [|c l IH]; cbn [count]; [by rewrite Forall_nil|]. rewrite Forall_cons, <- IH.
  pose proof (nevents_range c). pose proof (count_range l). lia.
Qed.

Lemma no_waits s : wf s →
  count (m_fdContexts s) = 0 ↔ ∀ f ev, is_event ev → waits (view_of s) f ev = None.
Proof.
  intros Hwf. rewrite count_zero, Forall_lookup. split.
  - intros H f ev Hev. cbn [waits view_of]. case_decide; [|done].
    destruct (m_fdContexts s !! Z.to_nat f) as [c|] eqn:Hc; [|done]. cbn.
    specialize (H _ _ Hc). unfold nevents, bit in H. unfold wait_of.
    destruct Hev as [-> | ->]; destruct (has _ READ), (has _ WRITE); done || lia.
  - intros H i c Hc. pose proof (wf_ctx _ _ Hwf _ _ Hc) as Hok.
    assert (∀ ev, is_event ev → has (events c) ev = false) as Hn.
    { intros ev Hev. apply not_true_iff_false. rewrite (wait_registered _ _ _ Hok Hev).
      rewrite <- (waits_at s (Z.of_nat i) c) by (lia || by rewrite Nat2Z.id).
      rewrite H by done. by intros [? ?]. }
    unfold nevents. by rewrite (Hn READ (or_introl eq_refl)), (Hn WRITE (or_intror eq_refl)).
Qed.

(** How long [epoll_wait] is told to wait, for a next timer due in [t]
    milliseconds: at most five seconds and never past the timer, as long as
    [t] is below [2^31]; above, the conversion to [int] keeps the low 32 bits
    only, and when these are a negative number the wait has no end. *)
Theorem wait_time_exact t : in_u 64 t →
  wait_time t = (if decide (t = 2 ^ 64 - 1) then 5000
                 else if decide (t mod 2 ^ 32 < 2 ^ 31) then Z.min (t mod 2 ^ 32) 5000
                 else t mod 2 ^ 32 - 2 ^ 32) ∧
  (t < 2 ^ 31 → 0 <= wait_time t <= Z.min t 5000).
Proof.
  intros Ht. unfold in_u in Ht.
  assert (wait_time t = (if decide (t = 2 ^ 64 - 1) then 5000
    else if decide (t mod 2 ^ 32 < 2 ^ 31) then Z.min (t mod 2 ^ 32) 5000
    else t mod 2 ^ 32 - 2 ^ 32)) as ->.
  { unfold wait_time, limit. cbv zeta. case_decide as He.
    - by rewrite bool_decide_eq_true_2.
    - rewrite bool_decide_eq_false_2 by done. unfold wrapu, wraps. cbv zeta.
      change (2 ^ (32 - 1)) with (2 ^ 31).
      pose proof (Z.mod_pos_bound t (2 ^ 32) eq_refl) as Hb. revert Hb.
      generalize (t mod 2 ^ 32). intros m Hb. destruct (decide (m < 2 ^ 31)) as [Hs|Hs].
      + rewrite (Z.mod_small (Z.min _ _) (2 ^ 64)) by lia.
        rewrite Z.mod_small by lia. case_decide; lia.
      + rewrite Z.min_l by lia.
        assert ((m - 2 ^ 32) mod 2 ^ 64 = m - 2 ^ 32 + 2 ^ 64) as ->
          by (symmetry; apply (Z.mod_unique _ _ (-1)); lia).
        assert ((m - 2 ^ 32 + 2 ^ 64) mod 2 ^ 32 = m) as ->
          by (symmetry; apply (Z.mod_unique _ _ (2 ^ 32 - 1)); lia).
        rewrite decide_False by done. lia. }
  split; [done|]. intros Hl. repeat case_decide; try lia; rewrite Z.mod_small in *; lia.
Qed.
Lemma new_iomanager_wf base now t k s : new_iomanager epoll_ctl base now t k = Ret s → wf s.
Proof.
  unfold new_iomanager. destruct (epoll_ctl _ _ _ _ _) as [[] k']; [|done]. intros [= <-].
  split; cbn [m_fdContexts m_pendingEventCount].
  - intros i c Hc. destruct (grow_lookup 32 [] i c Hc) as [?|[_ ->]]; [done|apply new_context_ok].
  - cbn. lia.
  - done.
Qed.

Lemma io_exec_wf o s : wf s → op_ok o s → wf (exec o s).2.
Proof. intros Hwf Hok. by destruct (exec_ok o s Hwf Hok) as (r & s' & -> & ? & _). Qed.
Lemma io_exec_watched interest t o s : epoll_law interest → wf s → op_ok o s →
  watched interest t s → watched interest t (exec o s).2.
Proof.
  intros Hlaw Hwf Hok Hw. destruct (exec_ok o s Hwf Hok) as (r & s' & -> & _ & Hs & _).
  by eapply watched_synced.
Qed.
End theorems.

(* ------------------------------------------------------------------ *)
(** ** The timers and the fibers are left alone *)

Section timers_kept.
Context {Cb K : Type} (epoll_ctl : EpollCtlOp → Z → Z → Z → K → bool * K) (this : Z).

(** The timers and the fibers. *)
Definition kept_part (s : @IOManager Cb K) := (timers s, shs (sched s)).
Abbreviation kt := (keeps kept_part).

Lemma keeps_ASSERT b : kt (IOManager.ASSERT b).
Proof. unfold IOManager.ASSERT. destruct b; keeps_solve. Qed.
Lemma keeps_context i : kt (context i).
Proof. apply keeps_query. Qed.
Lemma keeps_put i c : kt (put_context i c).
Proof. by apply keeps_modify. Qed.
Lemma keeps_add_pending d : kt (add_pending d).
Proof. by apply keeps_modify. Qed.
Lemma keeps_run op f e i : kt (run_epoll_ctl epoll_ctl op f e i).
Proof. intros s. unfold run_epoll_ctl. by destruct (epoll_ctl _ _ _ _ _). Qed.
Lemma keeps_pointer p : kt (IOManager.pointer p).
Proof. destruct p; cbn; keeps_solve. Qed.
Lemma keeps_schedule_on a k : kt (schedule_on this a k).
Proof.
  unfold schedule_on. case_bool_decide; [|by apply keeps_modify].
  apply keeps_bind; [|intros evs; case_match; [unfold tickle; keeps_solve|keeps_solve]].
  intros s. unfold on_scheduler, kept_part, schedule, scheduleNoLock, mbind, stE_bind, get, modify, mret, stE_ret.
  cbn. by destruct (is_task k).
Qed.
#[local] Hint Resolve keeps_ASSERT keeps_context keeps_put keeps_add_pending keeps_run keeps_pointer
  keeps_schedule_on : keeps.

Lemma keeps_trigger i ev : kt (triggerEvent this i ev).
Proof. unfold triggerEvent. keeps_solve. Qed.
Lemma keeps_remove f ev : kt (remove_interest epoll_ctl f ev).
Proof. unfold remove_interest, find_context. keeps_solve. Qed.
#[local] Hint Resolve keeps_trigger keeps_remove : keeps.

Lemma keeps_cancelEvent f ev : kt (cancelEvent epoll_ctl this f ev).
Proof. unfold cancelEvent. keeps_solve. Qed.
Lemma keeps_callee here cur cb : kt (callee here cur cb).
Proof. unfold callee. keeps_solve. Qed.
#[local] Hint Resolve keeps_callee : keeps.
Lemma keeps_addEvent f ev here cur cb : kt (addEvent epoll_ctl f ev here cur cb).
Proof. unfold addEvent, addEvent_locked, find_context, contextResize. keeps_solve. Qed.
Lemma keeps_trigger_if b i ev : kt (trigger_if this b i ev).
Proof. unfold trigger_if. keeps_solve. Qed.
#[local] Hint Resolve keeps_cancelEvent keeps_addEvent keeps_trigger_if : keeps.

Lemma keeps_exec o : kt (exec epoll_ctl this o).
Proof.
  destruct o as [f ev here cur cb|f ev|f ev|f|[|i evs]]; cbn [exec];
    unfold delEvent, cancelAll, handle_event, find_context; keeps_solve.
Qed.
End timers_kept.

(* ------------------------------------------------------------------ *)
(** ** On a concrete kernel *)

Definition Kernel : Type := gmap Z (Z * Z).

Definition kernel_ctl (op : EpollCtlOp) (f evs p : Z) (k : Kernel) : bool * Kernel :=
  match op, k !! f with
  | EPOLL_CTL_ADD, None => (true, <[f := (evs, p)]> k)
  | EPOLL_CTL_MOD, Some _ => (true, <[f := (evs, p)]> k)
  | EPOLL_CTL_DEL, Some _ => (true, delete f k)
  | _, _ => (false, k)
  end.

Lemma kernel_law : epoll_law kernel_ctl (λ k, k).
Proof.
  split; intros op f evs p k k'; unfold kernel_ctl; destruct op, (_ !! f); by intros [= <-].
Qed.

Definition fresh_manager : outcome (@IOManager nat Kernel) :=
  new_iomanager kernel_ctl new_scheduler 100 3 ∅.
Definition idle_manager : @IOManager nat Kernel :=
  mkIOManager new_scheduler [] (new_manager 100) (map new_context (seq 0 32)) 0 0
    {[ 3 := (Z.lor EPOLLIN EPOLLET, 3) ]}.

Lemma idle_manager_wf : wf idle_manager.
Proof. apply (new_iomanager_wf kernel_ctl new_scheduler 100 3 ∅). vm_compute. reflexivity. Qed.

Definition add_read : op := OpAdd 5 READ (Some 0) 9 (Some 7%nat).
Definition add_write : op := OpAdd 5 WRITE (Some 0) 9 (Some 8%nat).
Definition one_wait : @IOManager nat Kernel := (exec kernel_ctl 0 add_read idle_manager).2.
Definition two_waits : @IOManager nat Kernel := (exec kernel_ctl 0 add_write one_wait).2.
Definition write_left : @IOManager nat Kernel := (exec kernel_ctl 0 (OpDel 5 READ) two_waits).2.

Lemma add_read_ok : op_ok 0 add_read idle_manager.
Proof. split_and!; done || (by left) || by eexists. Qed.
Lemma one_wait_wf : wf one_wait.
Proof. apply io_exec_wf; [apply idle_manager_wf|apply add_read_ok]. Qed.
Lemma add_write_ok : op_ok 0 add_write one_wait.
Proof. split_and!; done || (by right) || by eexists. Qed.
Lemma two_waits_wf : wf two_waits.
Proof. apply io_exec_wf; [apply one_wait_wf|apply add_write_ok]. Qed.
Lemma write_left_wf : wf write_left.
Proof. apply io_exec_wf; [apply two_waits_wf|]. split; [done|by left]. Qed.

Lemma io_refines_witness :
  ∃ r s', exec kernel_ctl 0 (OpCancelAll 5) two_waits = (Ret r, s') ∧ wf s' ∧
    spec (OpCancelAll 5) two_waits (view_of 0 two_waits) r (view_of 0 s').
Proof. apply (io_refines kernel_ctl 0 (OpCancelAll 5) two_waits two_waits_wf). vm_compute. done. Defined.

(** A manager no descriptor was registered with. *)
Lemma fresh_wf {Cb} (s : @IOManager Cb Kernel) :
  m_fdContexts s = map new_context (seq 0 32) → m_pendingEventCount s = 0 → wf s.
Proof.
  intros E Ep. split; rewrite ?E, ?Ep; [|cbn; lia|done].
  intros i c Hc. destruct (grow_lookup 32 [] i c Hc) as [?|[_ ->]]; [done|apply new_context_ok].
Qed.
Lemma fresh_watched {Cb} (s : @IOManager Cb Kernel) :
  m_fdContexts s = map new_context (seq 0 32) → epoll s = {[ 3 := (Z.lor EPOLLIN EPOLLET, 3) ]} →
  watched (λ k : Kernel, k) 3 s.
Proof.
  intros E Ek f Hf Ht. rewrite Ek. etransitivity;
    [exact (lookup_singleton_ne (M := gmap Z) 3 f (Z.lor EPOLLIN EPOLLET, 3) (not_eq_sym Ht))|].
  assert (registered s f = 0) as Hr; [|unfold Kernel in *; by rewrite Hr].
  unfold registered. rewrite E. destruct (map new_context (seq 0 32) !! Z.to_nat f) as [c|] eqn:El; [|done].
  by destruct (grow_lookup 32 [] _ c El) as [?|[_ ->]].
Qed.
Lemma idle_watched : watched (λ k : Kernel, k) 3 idle_manager.
Proof. by apply fresh_watched. Qed.

Lemma kernel_agrees_witness :
  match exec kernel_ctl 0 add_read idle_manager with
  | (Ret r, s') => watched (λ k, k) 3 s' ∧
      (epoll s' = epoll idle_manager ∨ ∃ ok, asks kernel_ctl (λ k, k) (op_fd add_read) ok idle_manager s') ∧
      (r = false → (idle_op add_read (view_of 0 idle_manager) ∨
                    asks kernel_ctl (λ k, k) (op_fd add_read) false idle_manager s') ∧
                   view_of 0 s' ≡ view_of 0 idle_manager)
  | (Crash c, _) => c = assert_failed ∧ misused 0 add_read idle_manager
  | (Throw _, _) => False
  end.
Proof.
  apply (kernel_agrees kernel_ctl 0 (λ k, k) 3 add_read idle_manager);
    [apply kernel_law|apply idle_manager_wf|by split_and!; [..|left|eexists|]|done|apply idle_watched].
Defined.

(** The kernel reported both events while both were registered. *)
Lemma stale_event_asserts_witness :
  (exec kernel_ctl 0 (OpHandle (OnFd 5 (EPOLLIN + EPOLLOUT))) write_left).1 = Crash assert_failed.
Proof.
  apply (stale_event_asserts kernel_ctl 0 write_left 5 (EPOLLIN + EPOLLOUT)
           (mkFdContext no_event (mkEventContext (Some 0) None (Some 8%nat)) 5 WRITE));
    [apply write_left_wf|done|vm_compute; reflexivity|done|done|vm_compute; reflexivity].
Defined.

(** Descriptor 40 is looked up in the vector of 32; then another thread
    adds descriptor 100. *)
Definition late : @IOManager nat Kernel :=
  (exec kernel_ctl 0 (OpAdd 100 READ (Some 0) 9 (Some 7%nat)) idle_manager).2.
Lemma late_wf : wf late.
Proof.
  apply io_exec_wf; [apply idle_manager_wf|]. split_and!; done || (by left) || by eexists.
Qed.

Lemma shrink_loses_contexts_witness :
  let s' := (contextResize (grown 40) late).2 in
  length (m_fdContexts s') = grown 40 ∧ (∀ ev, waits (view_of 0 s') 100 ev = None) ∧
  (∀ ev, delEvent kernel_ctl 100 ev s' = (Ret false, s') ∧
         cancelEvent kernel_ctl 0 100 ev s' = (Ret false, s')).
Proof.
  apply (shrink_loses_contexts kernel_ctl 0 late 40 100 late_wf); [done|].
  split; [vm_compute; discriminate|vm_compute; reflexivity].
Defined.

Lemma wait_time_exact_witness :
  wait_time (2 ^ 31) = - 2 ^ 31 ∧ (2 ^ 31 < 2 ^ 31 → 0 <= wait_time (2 ^ 31) <= Z.min (2 ^ 31) 5000).
Proof.
  apply (wait_time_exact (2 ^ 31)). unfold in_u. split; [discriminate|reflexivity].
Defined.
