(* ===== verification/IdleLoop.v ===== *)
(** * One turn of the event loop

    What [IOManager::idle] does until it yields, with the steps of other
    threads in between: the callbacks of the expired timers and the tasks of
    the reported events are queued, each once. *)
From S2P Require Import Prelude Timer TimerTheorems Fiber Scheduler IOManager IOManagerTheorems.

Local Open Scope Z_scope.

Section loop.
Context {Cb K : Type}.
Context (epoll_ctl : EpollCtlOp → Z → Z → Z → K → bool * K) (this : Z).

Implicit Types (s a b : @IOManager Cb K) (r : ready) (tr : list (@IOManager Cb K * @IOManager Cb K)).

Abbreviation view_of := (IOManagerTheorems.view_of this).
Abbreviation other := (IOManagerTheorems.other epoll_ctl this).
Abbreviation runs := (Prelude.runs other).

(* ------------------------------------------------------------------ *)
(** ** Between the steps *)

Definition fit s : Prop := wf s ∧ Timer.wf (timers s).

(** A later state: contexts stay. *)
Definition later s s' : Prop := fit s' ∧ (length (m_fdContexts s) <= length (m_fdContexts s'))%nat.

Lemma later_refl s : fit s → later s s.
Proof. by split. Qed.
Lemma later_trans s s1 s2 : later s s1 → later s1 s2 → later s s2.
Proof. intros [_ H1] [H2 H3]. split; [done|lia]. Qed.

Lemma later_rest s s' : fit s → m_fdContexts s' = m_fdContexts s → m_pendingEventCount s' = m_pendingEventCount s →
  Timer.wf (timers s') → later s s'.
Proof.
  intros [[H1 H2 H3] _] El Ep HT. split; [|by rewrite El]. split; [|done]. split; by rewrite ?El, ?Ep.
Qed.

Lemma other_later s s' : fit s → other s s' → later s s'.
Proof.
  intros [Hwf HT] Ho. destruct Ho as [o r s s' Ha E|f s s' Hf Hl E|s s' El Ep _ HT'].
  - destruct (exec_returns epoll_ctl this o s r s' Hwf Ha E) as (Hwf' & _ & Hl & _).
    pose proof (keeps_exec epoll_ctl this o s) as Hk. rewrite E in Hk. injection Hk as Hk _.
    split; [|done]. split; [done|]. by rewrite Hk.
  - destruct (contextResize_ok this s f Hwf Hf Hl) as (s1 & E1 & Hwf1 & _ & Hl1 & _).
    rewrite E in E1. injection E1 as <-.
    assert (timers s' = timers s) as Et by (by injection E as <-).
    split; [|done]. split; [done|]. by rewrite Et.
  - by apply later_rest.
Qed.

Lemma others_later s s' : fit s → rtc other s s' → later s s'.
Proof.
  intros Hf H. revert Hf. induction H as [s|s s1 s2 H _ IH]; intros Hf; [by apply later_refl|].
  pose proof (other_later _ _ Hf H) as H1. eapply later_trans; [exact H1|apply IH, H1].
Qed.

(** The next step of the loop, and where it starts. *)
Lemma next_step {A X Y} (ok : @IOManager Cb K → X → Prop) (step : X → stE _ Y) (k : Y → proc _ A) s tr o s' :
  fit s → runs s (Then ok step k) tr o s' →
  ∃ a x b, later s a ∧ ok a x ∧
    match step x a with
    | (Ret y, b') => b' = b ∧ ∃ tr', tr = (a, b) :: tr' ∧ runs b (k y) tr' o s'
    | (Throw e, b') => b' = b ∧ tr = [(a, b)] ∧ o = Throw e
    | (Crash c, b') => b' = b ∧ tr = [(a, b)] ∧ o = Crash c
    end.
Proof.
  intros Hf (a & x & b & Hr & H)%runs_inv. exists a, x, b. split; [by apply others_later|done].
Qed.

(* ------------------------------------------------------------------ *)
(** ** The stop condition and the wait *)

Definition unmoved (p : @IOManager Cb K * @IOManager Cb K) : Prop := p.1 = p.2.

(** The next timer, and the three looks. *)
Definition next_in (w now : Z) a : Prop :=
  match m_timers (timers a) with
  | [] => w = 2 ^ 64 - 1
  | p :: _ => w = Z.max 0 (next_of (m_heap (timers a)) p - now) ∧ w < 2 ^ 64 - 1
  end.
Definition may_stop a (looks : list (@IOManager Cb K * @IOManager Cb K)) : Prop :=
  m_timers (timers a) = [] ∧ ∃ a2 a3, looks = [(a2, a2); (a3, a3)] ∧
    (∀ f ev, is_event ev → waits (view_of a2) f ev = None) ∧ Scheduler.stopping (sched a3) = true.
Definition goes_on a (looks : list (@IOManager Cb K * @IOManager Cb K)) : Prop :=
  m_timers (timers a) ≠ [] ∨
  (∃ a2, looks = [(a2, a2)] ∧ ¬ ∀ f ev, is_event ev → waits (view_of a2) f ev = None) ∨
  (∃ a2 a3, looks = [(a2, a2); (a3, a3)] ∧ Scheduler.stopping (sched a3) = false).

Lemma pending_zero s : wf s → m_pendingEventCount s = 0 ↔ ∀ f ev, is_event ev → waits (view_of s) f ev = None.
Proof. intros Hwf. rewrite (wf_pending _ _ Hwf), Z.add_0_r. by apply no_waits. Qed.

Lemma stopping_runs {A} (k : Z → bool → proc _ A) s tr o s' : fit s → runs s (stopping k) tr o s' →
  ∃ now a b looks w stop s1 tr', tr = (a, b) :: looks ++ tr' ∧ 0 < now ∧ view_of b = view_of a ∧
    Forall unmoved looks ∧ next_in w now a ∧ (if stop : bool then may_stop a looks else goes_on a looks) ∧
    fit a ∧ fit s1 ∧ runs s1 (k w stop) tr' o s'.
Proof.
  intros Hf H. unfold stopping in H. apply next_step in H as (a & now & b & [Ha _] & Hnow & H); [|done].
  destruct Ha as [Hwf HT]. destruct (getNextTimer_spec now (timers a) HT) as (w & E & Hw); [lia|].
  unfold on_timers in H at 1. rewrite E in H. destruct H as (<- & tr1 & -> & H).
  set (b := set_timers _ a) in *.
  assert (fit b) as Hfb by (split; [by destruct Hwf|by apply wf_tickled]).
  assert (next_in w now a) as Hn.
  { unfold next_in. destruct (m_timers (timers a)) as [|p l] eqn:El; [done|]. split; [done|].
    destruct (wf_live _ HT p) as [t Ht]; [rewrite El; by left|].
    pose proof (wf_words _ HT p t Ht) as Hr. unfold in_u in Hr. unfold next_of in Hw. rewrite Ht in Hw. cbn in Hw. lia. }
  destruct (Z.eqb_spec w (2 ^ 64 - 1)) as [->|Hne]; cbn [negb] in H.
  2:{ exists now, a, b, [], w, false, b, tr1. split_and!; try done. left. unfold next_in in Hn.
      destruct (m_timers (timers a)); done. }
  assert (m_timers (timers a) = []) as Hempty.
  { unfold next_in in Hn. destruct (m_timers (timers a)); [done|lia]. }
  apply next_step in H as (a2 & [] & b2 & [Hf2 _] & _ & H); [|done].
  destruct H as (<- & tr2 & -> & H).
  destruct (Z.eqb_spec (m_pendingEventCount a2) 0) as [Hz|Hz]; cbn [negb] in H.
  2:{ exists now, a, b, [(a2, a2)], (2 ^ 64 - 1), false, a2, tr2. split_and!; try done; [by constructor|].
      right; left. exists a2. split; [done|]. by rewrite <- pending_zero by apply Hf2. }
  apply next_step in H as (a3 & [] & b3 & [Hf3 _] & _ & H); [|done].
  destruct H as (<- & tr3 & -> & H).
  exists now, a, b, [(a2, a2); (a3, a3)], (2 ^ 64 - 1), (Scheduler.stopping (sched a3)), a3, tr3.
  split_and!; try done; [by repeat constructor|].
  destruct (Scheduler.stopping (sched a3)) eqn:Es.
  - split; [done|]. exists a2, a3. split_and!; try done. by apply pending_zero; [apply Hf2|].
  - right; right. by exists a2, a3.
Qed.

Lemma limit_small t : 0 <= t < 2 ^ 31 → limit t = Z.min t 5000.
Proof.
  intros Ht. unfold limit. cbv zeta. rewrite bool_decide_eq_false_2 by lia.
  rewrite wraps_small by (done || unfold in_s; lia). apply wrapu_small. unfold in_u. lia.
Qed.

Lemma wait_times_small n t : 0 <= t < 2 ^ 31 → Forall (λ w, 0 <= w <= Z.min t 5000) (wait_times n t).
Proof.
  revert t. induction n as [|n IH]; intros t Ht; cbn [wait_times]; unfold wait_time; rewrite limit_small by done;
    rewrite wraps_small by (done || unfold in_s; lia).
  - constructor; [lia|constructor].
  - constructor; [lia|]. eapply Forall_impl; [apply IH; lia|]. cbn. lia.
Qed.

Lemma wait_times_none n : Forall (λ w, w = 5000) (wait_times n (2 ^ 64 - 1)).
Proof.
  assert (∀ n, Forall (λ w, w = 5000) (wait_times n 5000)) as H
    by (intros m; induction m as [|m IH]; repeat constructor; done).
  destruct n as [|n]; constructor; [done|constructor|done|apply (H n)].
Qed.

(** How long [epoll_wait] may be told to wait, for timers such as in [a]. *)
Definition waits_no_longer now a (ws : list Z) : Prop :=
  (m_timers (timers a) = [] → Forall (λ w, w = 5000) ws) ∧
  ∀ p, p ∈ m_timers (timers a) → next_of (m_heap (timers a)) p < now + 2 ^ 31 →
    Forall (λ w, 0 <= w <= Z.min (Z.max 0 (next_of (m_heap (timers a)) p - now)) 5000) ws.

Lemma waits_bounded n w now a : Timer.wf (timers a) → next_in w now a → waits_no_longer now a (wait_times n w).
Proof.
  intros HT. unfold next_in, waits_no_longer. pose proof (wf_sorted _ HT) as Hs.
  destruct (m_timers (timers a)) as [|q l] eqn:El.
  - intros ->. split; [intros _; apply wait_times_none|]. intros p Hp. by apply not_elem_of_nil in Hp.
  - intros [-> Hmax]. split; [done|]. intros p Hp Hlt. pose proof (sorted_head_next _ _ _ Hs p Hp) as Hle.
    eapply Forall_impl; [apply wait_times_small; lia|]. cbn. lia.
Qed.

(* ------------------------------------------------------------------ *)
(** ** The callbacks and the reported events *)

(** What scheduling a callback does; the empty one is dropped. *)
Definition queued (cb : option Cb) (p : @IOManager Cb K * @IOManager Cb K) : Prop :=
  view_of p.2 ≡ match cb with
                | Some _ => push this (mkTask None cb (-1)) (view_of p.1)
                | None => view_of p.1
                end.

(** What handling a reported event does: its waits end and their tasks are
    queued; or the kernel refuses, and nothing happens. *)
Definition took r (p : @IOManager Cb K * @IOManager Cb K) : Prop :=
  match r with
  | OnPipe => p.2 = set_pipe 0 p.1
  | OnFd i evs =>
      view_of p.2 ≡ fire i (real_events evs (registered p.1 i)) (view_of p.1) ∨
      refused epoll_ctl i p.1 p.2 ∧ view_of p.2 ≡ view_of p.1
  end.

Lemma schedule_callback (cb : option Cb) s : fit s →
  ∃ s', schedule_on this this (mkTask None cb (-1)) s = (Ret tt, s') ∧ queued cb (s, s') ∧ later s s'.
Proof.
  intros Hf. destruct cb as [cb|].
  - destruct (schedule_on_spec this this (mkTask None (Some cb) (-1)) s eq_refl)
      as (s' & E & El & Ep & Ek & Et & Hq).
    exists s'. split; [done|]. split; [|apply later_rest; try done; rewrite Et; apply Hf].
    split; cbn; [by rewrite El|exact Hq].
  - unfold schedule_on. rewrite bool_decide_eq_true_2 by done.
    unfold on_scheduler, schedule, scheduleNoLock, mbind, stE_bind, get, modify. cbn.
    unfold tickle, mbind, stE_bind, get, modify.
    destruct (existsb _ _); cbn; [destruct (hasIdleThreads _)|];
      (eexists; split; [reflexivity|]; split; [done|]; apply later_rest; try done; apply Hf).
Qed.

Lemma schedule_runs {A} cbs (k : proc _ A) s tr o s' : fit s → runs s (schedule_all this cbs k) tr o s' →
  ∃ qs s1 tr', tr = qs ++ tr' ∧ Forall2 queued cbs qs ∧ later s s1 ∧ runs s1 k tr' o s'.
Proof.
  revert s tr. induction cbs as [|cb cbs IH]; intros s tr Hf H; cbn [schedule_all] in H.
  { exists [], s, tr. split_and!; try done. }
  apply next_step in H as (a & [] & b & Ha & _ & H); [|done].
  destruct (schedule_callback cb a) as (b' & E & Hq & Hl); [apply Ha|]. rewrite E in H.
  destruct H as (-> & tr1 & -> & H).
  destruct (IH b tr1) as (qs & s1 & tr' & -> & Hqs & Hl1 & H1); [apply Hl|done|].
  exists ((a, b) :: qs), s1, tr'. split_and!; try done; [by constructor|].
  eapply later_trans; [eapply later_trans; [exact Ha|exact Hl]|exact Hl1].
Qed.

Lemma handle_event_timers r s : timers (handle_event epoll_ctl this r s).2 = timers s.
Proof.
  pose proof (keeps_exec epoll_ctl this (OpHandle r) s) as Hk. cbn [exec] in Hk. unfold mbind, stE_bind in Hk.
  destruct (handle_event _ _ _ _) as [[]]; by injection Hk as Hk _.
Qed.

(** Handling one entry: as it should, or the program stops because a part
    of the report is stale. *)
Lemma handle_one r s : fit s → may_report s r →
  (∃ s', handle_event epoll_ctl this r s = (Ret tt, s') ∧ took r (s, s') ∧ later s s') ∨
  (handle_event epoll_ctl this r s).1 = Crash assert_failed ∧ ∃ i evs, r = OnFd i evs ∧ stale i evs s.
Proof.
  intros [Hwf HT] Hr. pose proof (handle_event_timers r s) as Ht.
  pose proof (handle_length epoll_ctl this r s) as Hl. cbn beta in Hl. destruct r as [|i evs].
  { left. exists (set_pipe 0 s). split_and!; try done. by apply later_rest. }
  assert (∀ s', handle_event epoll_ctl this (OnFd i evs) s = (Ret tt, s') → wf s' → later s s') as Hlater.
  { intros s' E Hwf'. rewrite E in Ht, Hl. cbn in Ht, Hl. split; [split; [done|by rewrite Ht]|by rewrite Hl]. }
  destruct (stale_or_ok this i evs s Hr) as [Hok|Hst].
  - destruct (handle_event_ok epoll_ctl this s i evs Hwf Hok) as (s' & E & Hwf' & _ & _ & Hv).
    left. exists s'. split_and!; [done|cbn; tauto|by apply Hlater].
  - destruct (handle_stale epoll_ctl this s i evs Hwf Hr Hst) as [(s' & E & Hwf' & Hv & _ & Href)|E]; [left|right].
    + exists s'. split_and!; [done|cbn; right; by rewrite Hv|by apply Hlater].
    + eauto.
Qed.

Lemma handle_runs {A} rs (k : proc _ A) s tr o s' : fit s → Forall (may_report s) rs →
  runs s (handle_all epoll_ctl this rs k) tr o s' →
  (∃ hs s1 tr', tr = hs ++ tr' ∧ Forall2 took rs hs ∧ fit s1 ∧ runs s1 k tr' o s') ∨
  (∃ hs a b i evs, tr = hs ++ [(a, b)] ∧ stale i evs a ∧ o = Crash assert_failed).
Proof.
  revert s tr. induction rs as [|r rs IH]; intros s tr Hf Hrs H; cbn [handle_all] in H.
  { left. by exists [], s, tr. }
  apply Forall_cons in Hrs as [Hr Hrs].
  apply next_step in H as (a & [] & b & [Ha Hla] & _ & H); [|done].
  assert (∀ s1, (length (m_fdContexts s) <= length (m_fdContexts s1))%nat → ∀ r, may_report s r → may_report s1 r) as Hmay.
  { intros s1 Hl [|i evs]; cbn; [done|lia]. }
  destruct (handle_one r a Ha) as [(b' & E & Ht & [Hfb Hlb])|[E (i & evs & -> & Hst)]]; [by eapply Hmay|..].
  - rewrite E in H. destruct H as (-> & tr1 & -> & H).
    destruct (IH b tr1 Hfb) as [(hs & s1 & tr' & -> & Hhs & Hf1 & H1)|(hs & a' & b' & i & evs & -> & Hst & ->)]; [|done|left|right].
    + eapply Forall_impl; [exact Hrs|]. intros r'. apply Hmay. lia.
    + exists ((a, b) :: hs), s1, tr'. split_and!; try done. by constructor.
    + by exists ((a, b) :: hs), a', b', i, evs.
  - right. destruct (handle_event _ _ _ _) as [[]]; cbn in E; try done. injection E as ->.
    destruct H as (-> & -> & ->). by exists [], a, b, i, evs.
Qed.

(** C12: one turn of the event loop, with any steps of other threads between
    its own, which are taken in this order.  It looks whether to stop, and
    stops exactly if it finds no timer, then no event registered and then the
    scheduler ready to stop.  Otherwise it lets [epoll_wait] wait five seconds
    at most, and not past the next timer it saw, if that is due within 2^31
    milliseconds.  It collects the callbacks of the timers that are due then,
    queues each of them once, and handles each reported entry once: whoever
    waits at that moment for what was reported is queued with its scheduler and
    waits no longer, unless the kernel refuses the change.  The turn fails in
    one case only: a part of a reported event was removed since. *)
Theorem idle_turn_serves s tr o s' : fit s → runs s (idle_turn epoll_ctl this) tr o s' →
  match o with
  | Ret None => ∃ a b looks, tr = (a, b) :: looks ∧ view_of b = view_of a ∧ may_stop a looks
  | Ret (Some t) => ∃ now a b looks w now' c d qs hs,
      tr = (a, b) :: looks ++ (w, w) :: (c, d) :: qs ++ hs ∧
      0 < now ∧ view_of b = view_of a ∧ Forall unmoved looks ∧ goes_on a looks ∧
      waits_no_longer now a (waited t) ∧ view_of d = view_of c ∧
      collected t = cb_of (m_heap (timers c)) <$> filter (due now' (timers c)) (m_timers (timers c)) ∧
      Forall2 queued (collected t) qs ∧ Forall (may_report w) (reported t) ∧ Forall2 took (reported t) hs
  | Crash c => c = assert_failed ∧ ∃ before a b i evs, tr = before ++ [(a, b)] ∧ stale i evs a
  | Throw _ => False
  end.
Proof.
  intros Hf H. unfold idle_turn in H.
  apply stopping_runs in H as (now & a & b & looks & w & stop & s1 & tr1 & -> & Hnow & Hv & Hl & Hn & Hs & Hfa & Hf1 & H);
    [|done].
  destruct stop.
  { apply runs_inv in H as (-> & -> & _). exists a, b, looks. by rewrite app_nil_r. }
  apply next_step in H as (u & [n rs] & u' & [Hu _] & [_ Hrs] & H); [|done].
  destruct H as (<- & tr2 & -> & H). cbn [snd] in Hrs.
  apply next_step in H as (c & [now' p] & d & [Hc Hlc] & Hp & H); [|done].
  destruct (listExpiredCb_spec p now' (timers c)) as (T & E & HT & _); [apply Hc|done|].
  unfold on_timers in H at 1. rewrite E in H. destruct H as (<- & tr3 & -> & H).
  set (d := set_timers T c) in *.
  assert (fit d) as Hd by (split; [by destruct Hc as [[]]|done]).
  apply schedule_runs in H as (qs & s2 & tr4 & -> & Hqs & [Hf2 Hl2] & H); [|done].
  apply handle_runs in H as [(hs & s3 & tr5 & -> & Hhs & _ & H)|(hs & a' & b' & i & evs & -> & Hst & ->)]; [..|done|].
  - apply runs_inv in H as (-> & -> & _). rewrite app_nil_r.
    exists now, a, b, looks, u, now', c, d, qs, hs. split_and!; try done. by apply waits_bounded; [apply Hfa|].
  - split; [done|]. exists ((a, b) :: looks ++ (u, u) :: (c, d) :: qs ++ hs), a', b', i, evs.
    split; [|done]. cbn. rewrite <- !app_assoc. cbn. by rewrite <- app_assoc.
  - eapply Forall_impl; [exact Hrs|]. intros [|i evs]; cbn; [done|].
    change (length (m_fdContexts d)) with (length (m_fdContexts c)) in Hl2. lia.
Qed.
End loop.

(* ------------------------------------------------------------------ *)
(** ** On a concrete kernel *)

(** Two waits on descriptor 5, and a timer that is due at 110. *)
Definition busy_manager : @IOManager nat Kernel :=
  set_timers (mkTimerManager {[ 16 := mkTimer false 10 110 (Some 5%nat) ]} [16] false 100) two_waits.

Lemma busy_timers_wf : Timer.wf (timers busy_manager).
Proof.
  split; cbn.
  - constructor; [constructor|]. by constructor.
  - intros p Hp. apply list_elem_of_singleton in Hp as ->. by eexists.
  - intros p t Hp _. apply lookup_singleton_Some in Hp as [<- _]. by apply list_elem_of_singleton.
  - intros p t Hp. apply lookup_singleton_Some in Hp as [_ <-]. by vm_compute.
Qed.

(** The loop looks at 105 and sees the timer; [epoll_wait] is interrupted
    once, then reports the pipe and that descriptor 5 can be read; another
    thread removes the other wait before the report is handled. *)
Definition seen_manager : @IOManager nat Kernel :=
  set_timers (set_tickled false (timers busy_manager)) busy_manager.
Definition collected_manager : @IOManager nat Kernel := (on_timers (listExpiredCb 48 110) seen_manager).2.
Definition scheduled_manager : @IOManager nat Kernel :=
  (schedule_on 0 0 (mkTask None (Some 5%nat) (-1)) collected_manager).2.
Definition read_manager : @IOManager nat Kernel := (exec kernel_ctl 0 (OpDel 5 WRITE) scheduled_manager).2.
Definition drained_manager : @IOManager nat Kernel := set_pipe 0 read_manager.
Definition served_manager : @IOManager nat Kernel :=
  (handle_event kernel_ctl 0 (OnFd 5 EPOLLIN) drained_manager).2.
Definition one_turn : turn := mkTurn [5; 5] [Some 5%nat] [OnPipe; OnFd 5 EPOLLIN].
Definition turn_trace : list (@IOManager nat Kernel * @IOManager nat Kernel) :=
  [(busy_manager, seen_manager); (seen_manager, seen_manager); (seen_manager, collected_manager);
   (collected_manager, scheduled_manager); (read_manager, drained_manager); (drained_manager, served_manager)].

Lemma turn_runs : runs (other kernel_ctl 0) busy_manager (idle_turn kernel_ctl 0) turn_trace
  (Ret (Some one_turn)) served_manager.
Proof.
  eapply runs_then with (x := 105); [done|vm_compute; reflexivity|].
  eapply runs_then with (x := (1%nat, [OnPipe; OnFd 5 EPOLLIN])); [|vm_compute; reflexivity|].
  { split; [cbn; lia|]. repeat constructor; done. }
  eapply runs_then with (x := (110, 48)); [done|vm_compute; reflexivity|].
  eapply runs_then with (x := tt); [done|vm_compute; reflexivity|].
  eapply runs_other; [eapply (other_call _ _ (OpDel 5 WRITE) true); [split; [done|by right]|vm_compute; reflexivity]|].
  eapply runs_then with (x := tt); [done|vm_compute; reflexivity|].
  eapply runs_then with (x := tt); [done|vm_compute; reflexivity|].
  apply runs_over.
Qed.

Lemma idle_turn_serves_witness :
  m_tasks (sched served_manager) = [mkTask None (Some 5%nat) (-1); mkTask None (Some 7%nat) (-1)] ∧
  ∃ now a b looks w now' c d qs hs,
    turn_trace = (a, b) :: looks ++ (w, w) :: (c, d) :: qs ++ hs ∧
    0 < now ∧ view_of 0 b = view_of 0 a ∧ Forall unmoved looks ∧ goes_on 0 a looks ∧
    waits_no_longer now a (waited one_turn) ∧ view_of 0 d = view_of 0 c ∧
    collected one_turn = cb_of (m_heap (timers c)) <$> filter (due now' (timers c)) (m_timers (timers c)) ∧
    Forall2 (queued 0) (collected one_turn) qs ∧ Forall (may_report w) (reported one_turn) ∧
    Forall2 (took kernel_ctl 0) (reported one_turn) hs.
Proof.
  split; [vm_compute; reflexivity|].
  apply (idle_turn_serves kernel_ctl 0 busy_manager turn_trace (Ret (Some one_turn)) served_manager);
    [|apply turn_runs].
  split; [destruct two_waits_wf; by split|apply busy_timers_wf].
Defined.
