(* ===== verification/Hook.v ===== *)
(** * Hooked system calls ([hook.h], [hook.cc])

    The calls that would block a thread block a fiber instead.  The first
    part is about descriptors: [socket], [accept], [fcntl], [ioctl],
    [setsockopt] over the descriptor contexts; the calls found by [dlsym] are
    parameters.  The second is the waiting: [do_io], [connect_with_timeout],
    the sleeps and [close] over an [IOManager], in the steps other threads can
    come between. *)
From S2P Require Import Prelude Timer Fiber Scheduler IOManager.
From S2P Require FdManager.

Local Open Scope Z_scope.

(** Constants of the system headers. *)
Definition EINTR : Z := 4.
Definition EAGAIN : Z := 11.
Definition ETIMEDOUT : Z := 110.
Definition FIONBIO : Z := 0x5421.
Definition SOL_SOCKET : Z := 1.

(** The commands of [fcntl] by the kind of their argument. *)
(* sylar/hook.cc:386-395, fcntl *)
Definition fcntl_int : list Z :=
  [0 (* F_DUPFD *); 1030 (* F_DUPFD_CLOEXEC *); 2 (* F_SETFD *); 8 (* F_SETOWN *); 10 (* F_SETSIG *);
   1024 (* F_SETLEASE *); 1026 (* F_NOTIFY *); 1031 (* F_SETPIPE_SZ *)].
(* sylar/hook.cc:414-424, fcntl *)
Definition fcntl_pointer : list Z :=
  [6 (* F_SETLK *); 7 (* F_SETLKW *); 5 (* F_GETLK *); 16 (* F_GETOWN_EX *); 15 (* F_SETOWN_EX *)].

Section descriptors.
Import FdManager.
Context {K : Type}.
Context (fstat : Z → K → option Z) (fcntl_f : Z → Z → option Z → K → Z * K).
Context (socket_f : Z → Z → Z → K → Z * K) (ioctl_f : Z → Z → Z → K → Z * K).
Context (setsockopt_f : Z → Z → Z → Z * Z → K → Z * K).

(** [t_hook_enable] of the calling thread. *)
Context (hook_enable : bool).

Abbreviation manager := (@FdManager K).

(** A call of the kernel. *)
Definition system {A} (f : K → A * K) : stE manager A := λ s,
  let '(a, k) := f (kern s) in (Ret a, set_kern k s).

(** [FdMgr::GetInstance()->get(fd)] and the object it points to. *)
Definition lookup (fd : Z) : stE manager (option (nat * FdCtx)) :=
  p ← FdManager.get fstat fcntl_f fd false;
  match p with
  | None => mret None
  | Some p => c ← ctx_of p; mret (Some (p, c))
  end.

(** The context, when it is the one of a socket that is not closed. *)
(* sylar/hook.cc:359-361, fcntl *)
Definition open_socket (r : option (nat * FdCtx)) : option (nat * FdCtx) :=
  match r with
  | Some (p, c) => if m_isClosed c || negb (m_isSocket c) then None else Some (p, c)
  | None => None
  end.

(* sylar/hook.cc:199-209, socket *)
Definition socket (domain type protocol : Z) : stE manager Z :=
  fd ← system (socket_f domain type protocol);
  if negb hook_enable then mret fd
  else if fd =? -1 then mret fd
  else _ ← FdManager.get fstat fcntl_f fd true; mret fd.

(** [accept]'s own part, on the descriptor [do_io] returned. *)
(* sylar/hook.cc:286-292, accept *)
Definition accept_done (fd : Z) : stE manager Z :=
  _ ← (if 0 <=? fd then _ ← FdManager.get fstat fcntl_f fd true; mret tt else mret tt);
  mret fd.

(** The flag as the kernel is to have it, and as the user is to see it. *)
Definition with_nonblock (b : bool) (flags : Z) : Z :=
  if b then Z.lor flags O_NONBLOCK else Z.ldiff flags O_NONBLOCK.

(* sylar/hook.cc:354-369, fcntl *)
Definition fcntl_setfl (fd arg : Z) : stE manager Z :=
  ctx ← lookup fd;
  match open_socket ctx with
  | None => system (fcntl_f fd F_SETFL (Some arg))
  | Some (p, c) =>
      _ ← update p (setUserNonblock (has_flag arg O_NONBLOCK));
      system (fcntl_f fd F_SETFL (Some (with_nonblock (m_sysNonblock c) arg)))
  end.

(* sylar/hook.cc:371-384, fcntl *)
Definition fcntl_getfl (fd : Z) : stE manager Z :=
  arg ← system (fcntl_f fd F_GETFL None);
  ctx ← lookup fd;
  match open_socket ctx with
  | None => mret arg
  | Some (_, c) => mret (with_nonblock (m_userNonblock c) arg)
  end.

(** Whether the call is hooked makes no difference to [fcntl]. *)
(* sylar/hook.cc:350-435, fcntl *)
Definition fcntl (fd cmd arg : Z) : stE manager Z :=
  if cmd =? F_SETFL then fcntl_setfl fd arg
  else if cmd =? F_GETFL then fcntl_getfl fd
  else if bool_decide (cmd ∈ fcntl_int) || bool_decide (cmd ∈ fcntl_pointer)
  then system (fcntl_f fd cmd (Some arg))
  else system (fcntl_f fd cmd None).

(** [arg] is the integer pointed to. *)
(* sylar/hook.cc:437-452, ioctl *)
Definition ioctl (d request arg : Z) : stE manager Z :=
  if request =? FIONBIO then
    ctx ← lookup d;
    match open_socket ctx with
    | None => system (ioctl_f d request arg)
    | Some (p, _) =>
        _ ← update p (setUserNonblock (negb (arg =? 0)));
        system (ioctl_f d request arg)
    end
  else system (ioctl_f d request arg).

(** [optval] as a [timeval]. *)
(* sylar/hook.cc:458-472, setsockopt *)
Definition setsockopt (sockfd level optname : Z) (v : Z * Z) : stE manager Z :=
  _ ← (if hook_enable && (level =? SOL_SOCKET)
          && ((optname =? SO_RCVTIMEO) || (optname =? SO_SNDTIMEO)) then
         ctx ← lookup sockfd;
         match ctx with
         | Some (p, _) => update p (setTimeout optname (i64 (v.1 * 1000 + Z.quot v.2 1000)))
         | None => mret tt
         end
       else mret tt);
  system (setsockopt_f sockfd level optname v).

(** What [do_io] and [connect_with_timeout] do before the call itself. *)
Inductive route := Direct | BadDescriptor | Managed.

(* sylar/hook.cc:85-101, do_io *)
Definition do_io_route (ctx : option FdCtx) : route :=
  if negb hook_enable then Direct
  else match ctx with
       | None => Direct
       | Some c =>
           if m_isClosed c then BadDescriptor
           else if negb (m_isSocket c) || m_userNonblock c then Direct
           else Managed
       end.

(* sylar/hook.cc:212-227, connect_with_timeout *)
Definition connect_route (ctx : option FdCtx) : route :=
  if negb hook_enable then Direct
  else match ctx with
       | None => BadDescriptor
       | Some c =>
           if m_isClosed c then BadDescriptor
           else if negb (m_isSocket c) then Direct
           else if m_userNonblock c then Direct
           else Managed
       end.
End descriptors.

(** The calls that are [do_io] of the original: the event waited for and
    the time-out consulted. *)
Inductive io_call :=
  | c_accept | c_read | c_readv | c_recv | c_recvfrom | c_recvmsg
  | c_write | c_writev | c_send | c_sendto | c_sendmsg.

(* sylar/hook.cc:286-332, accept *)
Definition io_args (c : io_call) : Z * Z :=
  match c with
  | c_accept | c_read | c_readv | c_recv | c_recvfrom | c_recvmsg => (READ, FdManager.SO_RCVTIMEO)
  | c_write | c_writev | c_send | c_sendto | c_sendmsg => (WRITE, FdManager.SO_SNDTIMEO)
  end.

(* ------------------------------------------------------------------ *)
(** ** Waiting *)

(** What the timers and tasks of the program call: the lambda of a hooked
    call, with its [timer_info], descriptor and event; [schedule] bound to a
    fiber; a function of the application. *)
Inductive hook_fn (C : Type) :=
  | OnTimeout (info fd ev : Z)
  | Resume (fiber : Z)
  | App (c : C).
Arguments OnTimeout {C} info fd ev.
Arguments Resume {C} fiber.
Arguments App {C} c.

Section waiting.
Context {C K : Type}.
Context (epoll_ctl : EpollCtlOp → Z → Z → Z → K → bool * K).

(** The address of the scheduler the thread belongs to, which is
    [IOManager::GetThis()]. *)
Context (this : Z).

Abbreviation Cb := (@callback (hook_fn C) Z).
Abbreviation manager := (@IOManager Cb K).

(** The manager and the live [timer_info] objects, by address, with
    [cancelled]. *)
(* sylar/hook.cc:78-80, timer_info *)
Record hooks := mkHooks { iom : manager; infos : gmap Z Z }.

Definition on_iom {A} (m : stE manager A) : stE hooks A := λ s,
  let '(r, x) := m (iom s) in (r, mkHooks x (infos s)).

(** [onTimerInsertedAtFront] wakes the thread that waits in epoll. *)
(* sylar/iomanager.cc:476-478, IOManager::onTimerInsertedAtFront *)
Definition onTimerInsertedAtFront : stE manager unit := tickle.

(** [addTimer] and [addConditionTimer] of an [IOManager]; [p] is the
    address of the new timer. *)
Definition addTimer (p now ms : Z) (cb : Cb) : stE manager unit :=
  front ← on_timers (Timer.addTimer p now ms (Some cb) false);
  if (front : bool) then onTimerInsertedAtFront else mret tt.

Definition addConditionTimer (p now ms : Z) (cb : hook_fn C) (weak_cond : Z) : stE manager unit :=
  front ← on_timers (Timer.addConditionTimer p now ms (Some cb) weak_cond false);
  if (front : bool) then onTimerInsertedAtFront else mret tt.

(** What the original's result leads to: it is called again, the fiber
    waits, or the call returns. *)
Inductive answer := Again | Block | Return.

(* sylar/hook.cc:106-111, do_io *)
Definition do_io_answer (n errno : Z) : answer :=
  if (n =? -1) && (errno =? EINTR) then Again
  else if (n =? -1) && (errno =? EAGAIN) then Block
  else Return.

(** The timer, if there is to be one. *)
(* sylar/hook.cc:112-125, do_io *)
Definition arm (p now to info fd ev : Z) : stE hooks (option Z) :=
  if to =? FdManager.no_timeout then mret None
  else _ ← on_iom (addConditionTimer p now to (OnTimeout info fd ev) info); mret (Some p).

Definition disarm (timer : option Z) : stE hooks unit :=
  match timer with
  | None => mret tt
  | Some p => _ ← on_iom (on_timers (cancel p)); mret tt
  end.

(** Once the timer is armed: register, or give up.  [self] is the current
    fiber. *)
(* sylar/hook.cc:127-135, do_io *)
Definition io_add (self fd ev : Z) (timer : option Z) : stE hooks (option (option Z)) :=
  rt ← on_iom (addEvent epoll_ctl fd ev (Some this) self None);
  if negb (rt =? 0) then _ ← disarm timer; mret None
  else mret (Some timer).

(** The original would block: whether the fiber is to yield, with its
    timer, or [addEvent] failed. *)
(* sylar/hook.cc:111-136, do_io *)
Definition io_block (self p now to info fd ev : Z) : stE hooks (option (option Z)) :=
  timer ← arm p now to info fd ev;
  io_add self fd ev timer.

(** The fiber is back: [Some e] is a return of -1 with [errno] e, [None]
    is [goto retry]. *)
(* sylar/hook.cc:136-145, do_io *)
Definition io_wake (timer : option Z) (info : Z) : stE hooks (option Z) :=
  _ ← disarm timer;
  c ← query (λ s, match infos s !! info with Some c => Ret c | None => Crash null_deref end);
  mret (if negb (c =? 0) then Some c else None).

(** The lambda of the timer; [winfo.lock()] finds the object while the
    call is under way. *)
(* sylar/hook.cc:117-124, do_io *)
Definition on_timeout (info fd ev : Z) : stE hooks unit :=
  s ← get;
  match infos s !! info with
  | None => mret tt
  | Some c =>
      if negb (c =? 0) then mret tt
      else
        _ ← modify (λ s, mkHooks (iom s) (<[info := ETIMEDOUT]> (infos s)));
        _ ← on_iom (cancelEvent epoll_ctl this fd ev);
        mret tt
  end.

(** [bind(&IOManager::schedule, iom, fiber, -1)]. *)
Definition resume_fiber (f : Z) : stE manager unit := schedule_on this this (mkTask (Some f) None (-1)).

(** The sleeps, up to the [yield] after which they return 0; the
    milliseconds are computed in the type of each. *)
(* sylar/hook.cc:164-164, sleep *)
Definition sleep_ms (seconds : Z) : Z := u32 (u32 seconds * 1000).
(* sylar/hook.cc:177-177, usleep *)
Definition usleep_ms (usec : Z) : Z := u32 usec / 1000.
(* sylar/hook.cc:189-192, nanosleep *)
Definition nanosleep_ms (tv_sec tv_nsec : Z) : Z :=
  u64 (i32 (i64 (i64 (tv_sec * 1000) + Z.quot (Z.quot tv_nsec 1000) 1000))).

(* sylar/hook.cc:157-169, sleep *)
Definition sleep (self p now seconds : Z) : stE manager unit :=
  addTimer p now (sleep_ms seconds) (Function (Resume self)).
(* sylar/hook.cc:171-182, usleep *)
Definition usleep (self p now usec : Z) : stE manager unit :=
  addTimer p now (usleep_ms usec) (Function (Resume self)).
(* sylar/hook.cc:184-197, nanosleep *)
Definition nanosleep (self p now tv_sec tv_nsec : Z) : stE manager unit :=
  addTimer p now (nanosleep_ms tv_sec tv_nsec) (Function (Resume self)).

(** After a connection attempt that goes on in the background. *)
(* sylar/hook.cc:236-267, connect_with_timeout *)
Definition connect_block (self p now timeout_ms info fd : Z) : stE hooks (option (option Z)) :=
  timer ← arm p now timeout_ms info fd WRITE;
  io_add self fd WRITE timer.

(** The end: [so_error] is what [getsockopt] says, if it succeeds.  The
    result and, for -1, [errno] where the call sets it. *)
(* sylar/hook.cc:269-280, connect_with_timeout *)
Definition connect_result (so_error : option Z) : Z * option Z :=
  match so_error with
  | None => (-1, None)
  | Some e => if e =? 0 then (0, None) else (-1, Some e)
  end.

(** The part of [close] that concerns the manager; the descriptor's
    context is dropped whether or not anything was waiting. *)
(* sylar/hook.cc:334-347, close *)
Definition close_waits (has_ctx : bool) (fd : Z) : stE manager unit :=
  if has_ctx then _ ← cancelAll epoll_ctl this fd; mret tt else mret tt.
End waiting.
