(* ===== verification/HookTheorems.v ===== *)
(** * Hooked descriptors

    What the hooks promise of a descriptor's flags. *)
From S2P Require Import Prelude FdManager.
From S2P Require Hook.

Local Open Scope Z_scope.

(* ------------------------------------------------------------------ *)
(** ** Flags *)

Lemma has_flag_or a b : has_flag (Z.lor a b) O_NONBLOCK = has_flag a O_NONBLOCK || has_flag b O_NONBLOCK.
Proof.
  unfold has_flag. rewrite Z.land_lor_distr_l.
  destruct (Z.eqb_spec (Z.land a O_NONBLOCK) 0) as [->|Ha], (Z.eqb_spec (Z.land b O_NONBLOCK) 0) as [->|Hb]; cbn.
  - done.
  - by apply negb_true_iff, Z.eqb_neq.
  - rewrite Z.lor_0_r. by apply negb_true_iff, Z.eqb_neq.
  - apply negb_true_iff, Z.eqb_neq. intros E%Z.lor_eq_0_iff. tauto.
Qed.

Lemma with_nonblock_flag b flags : has_flag (Hook.with_nonblock b flags) O_NONBLOCK = b.
Proof.
  unfold Hook.with_nonblock. destruct b.
  - rewrite has_flag_or. by rewrite orb_true_r.
  - unfold has_flag. apply negb_false_iff, Z.eqb_eq, Z.bits_inj'. intros n Hn.
    rewrite Z.land_spec, Z.ldiff_spec, Z.bits_0. by destruct (Z.testbit O_NONBLOCK n), (Z.testbit flags n).
Qed.

Section flags.
Context {K : Type}.
Context (fstat : Z → K → option Z) (fcntl_f : Z → Z → option Z → K → Z * K) (ioctl_f : Z → Z → Z → K → Z * K).

(** Whether a descriptor is non-blocking; [None] for one that is not
    open.  What the manual says of the calls for an open descriptor. *)
Record kernel_law (nonblocking : K → Z → option bool) : Prop := {
  law_getfl k fd a b : nonblocking k fd = Some b →
    ∃ v, fcntl_f fd F_GETFL a k = (v, k) ∧ has_flag v O_NONBLOCK = b;
  law_setfl k fd a b : nonblocking k fd = Some b →
    ∃ k', fcntl_f fd F_SETFL (Some a) k = (0, k') ∧ nonblocking k' fd = Some (has_flag a O_NONBLOCK);
  law_ioctl k fd a b : nonblocking k fd = Some b →
    ∃ k', ioctl_f fd Hook.FIONBIO a k = (0, k') ∧ nonblocking k' fd = Some (negb (a =? 0))
}.

Context (nonblocking : K → Z → option bool) (Hlaw : kernel_law nonblocking).

Abbreviation manager := (@FdManager K).
Implicit Types s : manager.

(** A socket the manager knows, by its context. *)
Definition known s fd p c : Prop :=
  managed s fd = Some p ∧ objs s !! p = Some c ∧ m_isSocket c = true.

Lemma get_known s fd p auto : wf s → 0 <= fd < 2 ^ 30 → managed s fd = Some p →
  FdManager.get fstat fcntl_f fd auto s = (Ret (Some p), s).
Proof. intros ?? Hm. rewrite get_run by done. by rewrite Hm. Qed.

Lemma lookup_known s fd p c : wf s → 0 <= fd < 2 ^ 30 → known s fd p c →
  Hook.lookup fstat fcntl_f fd s = (Ret (Some (p, c)), s) ∧ Hook.open_socket (Some (p, c)) = Some (p, c).
Proof.
  intros Hwf Hfd (Hm & Hc & Hs). destruct (wf_objs s Hwf p c Hc) as [Hcl _]. split.
  - unfold Hook.lookup. rewrite (stE_bind_ret _ _ _ _ _ (get_known s fd p false Hwf Hfd Hm)).
    unfold ctx_of. rewrite (stE_bind_ret _ _ s c s); [done|]. unfold query. by rewrite Hc.
  - unfold Hook.open_socket. by rewrite Hcl, Hs.
Qed.

(** A write through the descriptor's pointer. *)
Lemma update_known s fd p c g : wf s → known s fd p c → harmless g →
  ∃ s', update p g s = (Ret tt, s') ∧ wf s' ∧ kern s' = kern s ∧ known s' fd p (g c).
Proof.
  intros Hwf (Hm & Hc & Hs) Hg. destruct (update_run p g s Hwf Hg) as (s' & E & Hwf' & Ed & Ek & Ho).
  exists s'. split_and!; try done. split_and!.
  - unfold managed. by rewrite Ed.
  - rewrite Ho, decide_True, Hc by done. done.
  - destruct (Hg c) as (_ & _ & _ & ->). done.
Qed.

Lemma wf_kern s k : wf s → wf (set_kern k s).
Proof. by intros []. Qed.

Lemma system_run {A} (f : K → A * K) s a k : f (kern s) = (a, k) →
  Hook.system f s = (Ret a, set_kern k s).
Proof. intros E. unfold Hook.system. by rewrite E. Qed.

(** The calls through a known, open descriptor. *)
Lemma setfl_known s fd p c arg b : wf s → 0 <= fd < 2 ^ 30 → known s fd p c →
  nonblocking (kern s) fd = Some b →
  ∃ s', Hook.fcntl fstat fcntl_f fd F_SETFL arg s = (Ret 0, s') ∧ wf s' ∧
    known s' fd p (setUserNonblock (has_flag arg O_NONBLOCK) c) ∧ nonblocking (kern s') fd = Some true.
Proof.
  intros Hwf Hfd Hk Hb. destruct (lookup_known s fd p c Hwf Hfd Hk) as [El Eo].
  destruct (wf_objs s Hwf p c) as [_ Hsys]; [apply Hk|].
  destruct (update_known s fd p c _ Hwf Hk (harmless_user (has_flag arg O_NONBLOCK))) as (s1 & E1 & Hwf1 & Ek1 & Hk1).
  destruct (law_setfl _ Hlaw (kern s1) fd (Hook.with_nonblock true arg) b) as (k' & E2 & Hn); [by rewrite Ek1|].
  exists (set_kern k' s1). split; [|split; [by apply wf_kern|split; [exact Hk1|]]].
  - unfold Hook.fcntl, Hook.fcntl_setfl. cbn [Z.eqb]. change (F_SETFL =? F_SETFL) with true. cbv iota.
    rewrite (stE_bind_ret _ _ _ _ _ El), Eo, (stE_bind_ret _ _ _ _ _ E1).
    apply system_run. rewrite Hsys. destruct Hk as (_ & _ & ->). exact E2.
  - cbn. by rewrite Hn, with_nonblock_flag.
Qed.

Lemma getfl_known s fd p c b : wf s → 0 <= fd < 2 ^ 30 → known s fd p c →
  nonblocking (kern s) fd = Some b →
  ∃ v, Hook.fcntl fstat fcntl_f fd F_GETFL 0 s = (Ret v, s) ∧ has_flag v O_NONBLOCK = m_userNonblock c.
Proof.
  intros Hwf Hfd Hk Hb. destruct (lookup_known s fd p c Hwf Hfd Hk) as [El Eo].
  destruct (law_getfl _ Hlaw (kern s) fd None b Hb) as (v & E & _).
  exists (Hook.with_nonblock (m_userNonblock c) v). split; [|apply with_nonblock_flag].
  unfold Hook.fcntl. change (F_GETFL =? F_SETFL) with false. change (F_GETFL =? F_GETFL) with true. cbv iota.
  unfold Hook.fcntl_getfl. rewrite (stE_bind_ret _ _ _ v s).
  - rewrite (stE_bind_ret _ _ _ _ _ El), Eo. done.
  - rewrite (system_run _ s v (kern s) E). by destruct s.
Qed.

Lemma fionbio_known s fd p c arg b : wf s → 0 <= fd < 2 ^ 30 → known s fd p c →
  nonblocking (kern s) fd = Some b →
  ∃ s', Hook.ioctl fstat fcntl_f ioctl_f fd Hook.FIONBIO arg s = (Ret 0, s') ∧ wf s' ∧
    known s' fd p (setUserNonblock (negb (arg =? 0)) c) ∧ nonblocking (kern s') fd = Some (negb (arg =? 0)).
Proof.
  intros Hwf Hfd Hk Hb. destruct (lookup_known s fd p c Hwf Hfd Hk) as [El Eo].
  destruct (update_known s fd p c _ Hwf Hk (harmless_user (negb (arg =? 0)))) as (s1 & E1 & Hwf1 & Ek1 & Hk1).
  destruct (law_ioctl _ Hlaw (kern s1) fd arg b) as (k' & E2 & Hn); [by rewrite Ek1|].
  exists (set_kern k' s1). split; [|split; [by apply wf_kern|split; [exact Hk1|exact Hn]]].
  unfold Hook.ioctl. change (Hook.FIONBIO =? Hook.FIONBIO) with true. cbv iota.
  rewrite (stE_bind_ret _ _ _ _ _ El), Eo, (stE_bind_ret _ _ _ _ _ E1). by apply system_run.
Qed.

(** What a hooked call on the descriptor does next. *)
Definition next_route (c : FdCtx) : Hook.route := Hook.do_io_route true (Some c).

Lemma route_known s fd p c b : wf s → known s fd p c →
  next_route (setUserNonblock b c) = if b then Hook.Direct else Hook.Managed.
Proof.
  intros Hwf (_ & Hc & Hs). destruct (wf_objs s Hwf p c Hc) as [Hcl _].
  unfold next_route, Hook.do_io_route; cbn. rewrite Hcl, Hs. by destruct b.
Qed.

(** C16: a socket the manager knows is kept non-blocking for the kernel by
    the hooked [fcntl], whatever the user sets, while the user's own choice
    is what F_GETFL reports and what decides whether the next hooked call is
    passed on or waits in the fiber; no F_SETFL argument changes that.  The
    hooked [ioctl] records the user's choice the same way but hands FIONBIO
    on as it is: after FIONBIO with 0 the descriptor is blocking in the
    kernel and the next hooked read, which is meant to suspend the fiber,
    blocks the thread. *)
Theorem nonblocking_kept s fd p c b : wf s → 0 <= fd < 2 ^ 30 → known s fd p c →
  nonblocking (kern s) fd = Some b →
  (∀ arg, ∃ s' v, Hook.fcntl fstat fcntl_f fd F_SETFL arg s = (Ret 0, s') ∧ wf s' ∧
     nonblocking (kern s') fd = Some true ∧
     Hook.fcntl fstat fcntl_f fd F_GETFL 0 s' = (Ret v, s') ∧
     has_flag v O_NONBLOCK = has_flag arg O_NONBLOCK ∧
     ∃ c', known s' fd p c' ∧
       next_route c' = if has_flag arg O_NONBLOCK then Hook.Direct else Hook.Managed) ∧
  (∃ s' c', Hook.ioctl fstat fcntl_f ioctl_f fd Hook.FIONBIO 0 s = (Ret 0, s') ∧
     nonblocking (kern s') fd = Some false ∧ known s' fd p c' ∧ next_route c' = Hook.Managed).
Proof.
  intros Hwf Hfd Hk Hb. split.
  - intros arg. destruct (setfl_known s fd p c arg b Hwf Hfd Hk Hb) as (s' & E & Hwf' & Hk' & Hn).
    destruct (getfl_known s' fd p _ true Hwf' Hfd Hk' Hn) as (v & Ev & Hv).
    exists s', v. split_and!; try done. eexists. split; [exact Hk'|]. apply (route_known s fd p c _ Hwf Hk).
  - destruct (fionbio_known s fd p c 0 b Hwf Hfd Hk Hb) as (s' & E & _ & Hk' & Hn).
    exists s'. eexists. split_and!; [done|done|exact Hk'|]. apply (route_known s fd p c false Hwf Hk).
Qed.
End flags.

(* ------------------------------------------------------------------ *)
(** ** On a concrete kernel *)

Definition sockets_ioctl (fd request arg : Z) (k : Sockets) : Z * Sockets :=
  match k !! fd with
  | None => (-1, k)
  | Some flags =>
      if request =? Hook.FIONBIO then (0, <[fd := Hook.with_nonblock (negb (arg =? 0)) flags]> k) else (0, k)
  end.
Definition sockets_nonblocking (k : Sockets) (fd : Z) : option bool :=
  (λ flags, has_flag flags O_NONBLOCK) <$> (k : gmap Z Z) !! fd.

Lemma sockets_law : kernel_law sockets_fcntl sockets_ioctl sockets_nonblocking.
Proof.
  split; intros k fd a b (flags & E & ->)%fmap_Some;
    unfold sockets_fcntl, sockets_ioctl; unfold Sockets in *; rewrite E; cbn.
  - eauto.
  - eexists. split; [reflexivity|]. unfold sockets_nonblocking. by rewrite lookup_insert_eq.
  - eexists. split; [reflexivity|]. unfold sockets_nonblocking. rewrite lookup_insert_eq. cbn.
    by rewrite with_nonblock_flag.
Qed.

Lemma nonblocking_kept_witness :
  (∀ arg, ∃ s' v, Hook.fcntl sockets_fstat sockets_fcntl 5 F_SETFL arg managed_socket = (Ret 0, s') ∧ wf s' ∧
     sockets_nonblocking (kern s') 5 = Some true ∧
     Hook.fcntl sockets_fstat sockets_fcntl 5 F_GETFL 0 s' = (Ret v, s') ∧
     has_flag v O_NONBLOCK = has_flag arg O_NONBLOCK ∧
     ∃ c', known s' 5 0%nat c' ∧
       next_route c' = if has_flag arg O_NONBLOCK then Hook.Direct else Hook.Managed) ∧
  (∃ s' c', Hook.ioctl sockets_fstat sockets_fcntl sockets_ioctl 5 Hook.FIONBIO 0 managed_socket = (Ret 0, s') ∧
     sockets_nonblocking (kern s') 5 = Some false ∧ known s' 5 0%nat c' ∧ next_route c' = Hook.Managed).
Proof.
  apply (nonblocking_kept sockets_fstat sockets_fcntl sockets_ioctl sockets_nonblocking sockets_law managed_socket 5 0%nat
           (mkFdCtx true true true false false 5 no_timeout no_timeout) true managed_socket_wf); done.
Defined.
