(* ===== verification/HookWaiting.v ===== *)
(** * The waits of hooked calls

    A hooked call as a state machine over the IO manager and its timers,
    with other threads' steps in between, for any [epoll_ctl]: a parked fiber is
    registered or has been queued; the time-out wakes it; and the gap in which it
    does not. *)
From S2P Require Import Prelude Timer TimerTheorems Fiber Scheduler IOManager IOManagerTheorems.
From S2P Require Import Hook.

Local Open Scope Z_scope.

(* ------------------------------------------------------------------ *)
(** ** What an operation leaves alone *)

(** The timers' operations leave the rest alone. *)
Section io_kept.
Context {Cb K : Type}.
Definition io_part (s : @IOManager Cb K) :=
  (m_fdContexts s, m_pendingEventCount s, epoll s, sched s, handed s).

End io_kept.

(* ------------------------------------------------------------------ *)
(** ** One hooked call and everybody else *)

Section call.
Context {C K : Type}.
Context (epoll_ctl : EpollCtlOp → Z → Z → Z → K → bool * K) (this : Z).
Abbreviation Cb := (@callback (hook_fn C) Z).
Abbreviation hooks := (@hooks C K).
Abbreviation manager := (@IOManager Cb K).
Abbreviation view := (@view Cb).
Abbreviation view_of := (@IOManagerTheorems.view_of Cb K this).

(** The call: its fiber, descriptor, event, time-out and [timer_info]. *)
Context (self fd ev to info : Z).

(** The task that resumes the fiber, and how many of them this scheduler
    was given. *)
Definition resume_task : @ScheduleTask Cb := mkTask (Some self) None (-1).
Definition resumes (k : @ScheduleTask Cb) : bool :=
  match k with mkTask (Some f) None _ => f =? self | _ => false end.
Definition resumptions (A : view) : nat := length (filter (λ k, resumes k = true) (queue A this)).

(** The call waits, or nobody does for its event; only its own wait resumes
    the fiber. *)
Definition status (A : view) : Prop :=
  waits A fd ev = None ∨ waits A fd ev = Some (this, resume_task).
Definition sole (A : view) : Prop :=
  ∀ f ev' a k, is_event ev' → waits A f ev' = Some (a, k) → resumes k = true → f = fd ∧ ev' = ev.

(** What others may do to the wait: nothing, or end it and queue the fiber
    once. *)
Definition woken_once (A A' : view) : Prop :=
  waits A fd ev = Some (this, resume_task) ∧ waits A' fd ev = None ∧
  resumptions A' = S (resumptions A).
Definition untouched (A A' : view) : Prop :=
  waits A' fd ev = waits A fd ev ∧ resumptions A' = resumptions A.
Definition effect (A A' : view) : Prop :=
  sole A → status A → sole A' ∧ status A' ∧ (untouched A A' ∨ woken_once A A').

Lemma effect_refl A : effect A A.
Proof. intros Hs Ht. split_and!; try done. by left. Qed.

Lemma effect_trans A V W : effect A V → effect V W → effect A W.
Proof.
  intros H1 H2 Hs Ht. destruct (H1 Hs Ht) as (Hs1 & Ht1 & E1). destruct (H2 Hs1 Ht1) as (Hs2 & Ht2 & E2).
  split_and!; try done. unfold untouched, woken_once in *.
  destruct E1 as [[E1 E1']|(E1 & E1' & E1'')], E2 as [[E2 E2']|(E2 & E2' & E2'')];
    [left|right|right|congruence]; split_and!; congruence.
Qed.

Lemma effect_equiv A V W : is_event ev → V ≡ W → effect A W → effect A V.
Proof.
  intros Hev [H1 H2] H Hs Ht. destruct (H Hs Ht) as (Hs' & Ht' & E).
  assert (resumptions V = resumptions W) as Hr by (unfold resumptions; by rewrite H2).
  split_and!.
  - intros f ev' a k Hev' Hw. rewrite (H1 f ev' Hev') in Hw. by eapply Hs'.
  - unfold status. rewrite (H1 fd ev Hev). done.
  - unfold untouched, woken_once in *. rewrite (H1 fd ev Hev), Hr. done.
Qed.

Lemma resumptions_push a k A : resumptions (push a k A) =
  (resumptions A + if decide (a = this) then if resumes k then 1 else 0 else 0)%nat.
Proof.
  unfold resumptions, push. cbn [queue]. destruct (decide (a = this)) as [->|Hne].
  - rewrite decide_True by done. rewrite filter_app, length_app.
    destruct (resumes k) eqn:E; [rewrite filter_cons_True by done|rewrite filter_cons_False by (by rewrite E)]; done.
  - rewrite decide_False by done. lia.
Qed.

Lemma effect_wake f ev' A : is_event ev' → effect A (wake f ev' A).
Proof.
  intros Hev' Hs Ht. unfold wake. destruct (waits A f ev') as [[a k]|] eqn:Hw; [|by apply effect_refl].
  assert (sole (push a k (set_wait f ev' None A))) as Hs'.
  { intros f1 ev1 a1 k1 Hev1 H1. cbn in H1. case_decide; [done|]. by eapply Hs. }
  destruct (decide (fd = f ∧ ev = ev')) as [[<- <-]|Hd].
  - destruct Ht as [Ht|Ht]; [congruence|]. assert (Hw' := Hw). rewrite Ht in Hw'. injection Hw' as <- <-.
    split_and!; [done|left|right; split_and!; [done|..]].
    + cbn. by rewrite decide_True.
    + cbn. by rewrite decide_True.
    + rewrite resumptions_push. rewrite decide_True by done. cbn [resumes resume_task]. rewrite Z.eqb_refl.
      unfold resumptions. cbn [queue set_wait]. lia.
  - assert (waits (push a k (set_wait f ev' None A)) fd ev = waits A fd ev) as E by (cbn; by rewrite decide_False).
    split_and!; [done|unfold status; by rewrite E|left; split; [done|]].
    rewrite resumptions_push. destruct (resumes k) eqn:Er; [|case_decide; unfold resumptions; cbn; lia].
    destruct (Hs f ev' a k Hev' Hw Er) as [-> ->]. by destruct Hd.
Qed.

Lemma effect_set_wait f ev' w A : ¬ (f = fd ∧ ev' = ev) →
  (∀ a k, w = Some (a, k) → resumes k = false) → effect A (set_wait f ev' w A).
Proof.
  intros Hd Hw Hs Ht.
  assert (waits (set_wait f ev' w A) fd ev = waits A fd ev) as E by (cbn; rewrite decide_False by naive_solver; done).
  split_and!; [|unfold status; by rewrite E|by left].
  intros f1 ev1 a k Hev1 H1 Hr. cbn in H1. case_decide as Hc; [|by eapply Hs].
  apply Hw in H1. congruence.
Qed.

(** Other threads: their own calls on other events, and what the loop and
    other fibers do to this one. *)
Definition other_op (o : @op Cb) : Prop :=
  match o with
  | OpAdd f ev' _ cur cb => ¬ (f = fd ∧ ev' = ev) ∧ (cb = None → cur ≠ self)
  | OpDel f ev' => ¬ (f = fd ∧ ev' = ev)
  | _ => True
  end.

Lemma effect_spec o (s : @IOManager Cb K) A r A' : is_event ev → allowed o s → other_op o → spec o s A r A' → effect A A'.
Proof.
  intros Hev Hok Ho Hs.
  assert (∀ A', A' ≡ A → effect A A') as Hnone.
  { intros V HV. eapply effect_equiv; [done|exact HV|apply effect_refl]. }
  destruct o as [f ev' [a|] cur cb|f ev'|f ev'|f|[|f evs]]; cbn [allowed other_op spec] in *;
    try (destruct r; [|by apply Hnone]); try (by apply Hnone).
  - eapply effect_equiv; [done|exact Hs|]. apply effect_set_wait; [tauto|].
    intros a1 k [= <- <-]. destruct Ho as [_ Ho]. destruct cb; [done|]. cbn. apply Z.eqb_neq. auto.
  - eapply effect_equiv; [done|apply Hs|]. by apply effect_set_wait.
  - eapply effect_equiv; [done|apply Hs|]. apply effect_wake. tauto.
  - eapply effect_equiv; [done|apply Hs|].
    eapply effect_trans; apply effect_wake; [by left|by right].
  - destruct Hs as [Hs|Hs]; [by apply Hnone|]. eapply effect_equiv; [done|exact Hs|].
    unfold fire. cbv zeta. generalize (real_events evs (registered s f)). intros real.
    apply (effect_trans _ (if has real READ then wake f READ A else A)).
    + destruct (has real READ); [apply effect_wake; by left|apply effect_refl].
    + destruct (has real WRITE); [apply effect_wake; by right|apply effect_refl].
Qed.

(* ------------------------------------------------------------------ *)
(** ** The steps *)

(** Where the call is; the timer is [None] for a call without a time-out. *)
Inductive phase :=
  | Trying
  | Armed (timer : option Z)
  | Parked (timer : option Z)
  | Finished (n errno : Z)
  | Failed.

(** With it, whether a timer was ever armed, and how often the fiber was
    queued since it parked. *)
Record call := mkCall { hk : hooks; at_ : phase; armed : bool; resumed : nat }.

Definition view_at (h : hooks) : view := view_of (iom h).
Definition running (h : hooks) : Prop :=
  ∃ x, fibers (shs (sched (iom h))) !! self = Some x ∧ m_state x = RUNNING.
Definition under_way (q : phase) : bool := match q with Finished _ _ | Failed => false | _ => true end.

(** Resumptions between two states. *)
Definition gained (h h' : hooks) : nat := resumptions (view_at h') - resumptions (view_at h).

(** Schedulers, timers and other calls go on; the call holds its timer and
    its [timer_info]. *)
Record elsewhere (h h' : hooks) : Prop := {
  else_contexts : m_fdContexts (iom h') = m_fdContexts (iom h);
  else_pending : m_pendingEventCount (iom h') = m_pendingEventCount (iom h);
  else_epoll : epoll (iom h') = epoll (iom h);
  else_info : infos h' !! info = infos h !! info;
  else_timers : Timer.wf (timers (iom h'));
  else_live p : is_Some (m_heap (timers (iom h)) !! p) → is_Some (m_heap (timers (iom h')) !! p)
}.

(** The steps of the call, its time-out's callback and everybody else.  The
    callback marks the [timer_info] and cancels the event: other steps may come
    between ([step_mark], then the cancellation as anyone's [OpCancel]).
    Other threads make any call they may make, at any moment: one that fails an
    assertion ends the program; [addEvent] is its two critical sections, the
    growth of the vector ([step_grow]), which is only left out when it would
    shrink the vector ([IOManagerTheorems.shrink_loses_contexts]), and the
    rest.  [io_wake]'s two parts, the timer's cancellation and the look at the
    [timer_info], touch different things and are taken at the look. *)
Inductive step : call → call → Prop :=
  | step_return h b r n e : do_io_answer n e = Return →
      step (mkCall h Trying b r) (mkCall h (Finished n e) b r)
  | step_arm h h' b r p now timer :
      m_heap (timers (iom h)) !! p = None → arm p now to info fd ev h = (Ret timer, h') →
      step (mkCall h Trying b r) (mkCall h' (Armed timer) (b || bool_decide (is_Some timer)) r)
  | step_add h h' b r timer o :
      running h → io_add epoll_ctl this self fd ev timer h = (Ret o, h') →
      step (mkCall h (Armed timer) b r)
           (mkCall h' (match o with Some timer => Parked timer | None => Failed end) b 0)
  | step_wake h h' b r timer o :
      io_wake timer info h = (Ret o, h') →
      step (mkCall h (Parked timer) b (S r))
           (mkCall h' (match o with Some e => Finished (-1) e | None => Trying end) b 0)
  | step_timeout h h' q r : under_way q = true →
      on_timeout epoll_ctl this info fd ev h = (Ret tt, h') →
      step (mkCall h q true r) (mkCall h' q true (r + gained h h'))
  | step_mark h q r : under_way q = true → infos h !! info = Some 0 →
      step (mkCall h q true r) (mkCall (mkHooks (iom h) (<[info := ETIMEDOUT]> (infos h))) q true r)
  | step_other h m q b r o res : allowed o (iom h) → other_op o →
      exec epoll_ctl this o (iom h) = (Ret res, m) →
      step (mkCall h q b r) (mkCall (mkHooks m (infos h)) q b (r + gained h (mkHooks m (infos h))))
  | step_grow h m q b r f : 32 <= f < 2 ^ 30 → (length (m_fdContexts (iom h)) <= grown f)%nat →
      contextResize (grown f) (iom h) = (Ret tt, m) →
      step (mkCall h q b r) (mkCall (mkHooks m (infos h)) q b r)
  | step_else h h' q b r : elsewhere h h' → step (mkCall h q b r) (mkCall h' q b r).

(** What every state has, and what each phase has. *)
Record base (h : hooks) : Prop := {
  base_wf : IOManagerTheorems.wf (iom h);
  base_timers : Timer.wf (timers (iom h));
  base_info : infos h !! info = Some 0 ∨ infos h !! info = Some ETIMEDOUT;
  base_sole : sole (view_at h)
}.

Definition live (h : hooks) (timer : option Z) : Prop :=
  ∀ p, timer = Some p → is_Some (m_heap (timers (iom h)) !! p).

(** Parked: registered and not yet queued, or queued once and no longer
    registered. *)
Definition phase_ok (h : hooks) (q : phase) (r : nat) : Prop :=
  match q with
  | Trying => waits (view_at h) fd ev = None
  | Armed timer => waits (view_at h) fd ev = None ∧ live h timer
  | Parked timer => live h timer ∧
      (waits (view_at h) fd ev = Some (this, resume_task) ∧ r = 0%nat ∨
       waits (view_at h) fd ev = None ∧ r = 1%nat)
  | Finished n e => waits (view_at h) fd ev = None ∧
      (do_io_answer n e = Return ∨
       n = -1 ∧ e = ETIMEDOUT ∧ infos h !! info = Some ETIMEDOUT)
  | Failed => waits (view_at h) fd ev = None
  end.

Definition good (c : call) : Prop :=
  base (hk c) ∧ phase_ok (hk c) (at_ c) (resumed c) ∧
  (infos (hk c) !! info = Some ETIMEDOUT → armed c = true) ∧
  (armed c = true → to ≠ FdManager.no_timeout).

(** A call that is about to be made. *)
Definition start (h : hooks) : Prop :=
  base h ∧ infos h !! info = Some 0 ∧ waits (view_at h) fd ev = None.
Definition reachable (c : call) : Prop :=
  ∃ h, start h ∧ rtc step (mkCall h Trying false 0) c.

(* ------------------------------------------------------------------ *)
(** ** What each step does *)

Context (Hfd : 0 <= fd < 2 ^ 30) (Hev : is_event ev).

(** States with the same contexts, kernel and [timer_info]. *)
Definition alike (h h' : hooks) : Prop :=
  m_fdContexts (iom h') = m_fdContexts (iom h) ∧ m_pendingEventCount (iom h') = m_pendingEventCount (iom h) ∧
  epoll (iom h') = epoll (iom h) ∧ infos h' !! info = infos h !! info.

Lemma alike_waits h h' : alike h h' → waits (view_at h') = waits (view_at h).
Proof. intros (E & _). unfold view_at. cbn. by rewrite E. Qed.

Lemma alike_base h h' : alike h h' → Timer.wf (timers (iom h')) → base h → base h'.
Proof.
  intros Ha HT [[H1 H2 H3] _ Hi Hs]. pose proof (alike_waits _ _ Ha) as E.
  destruct Ha as (E1 & E2 & E3 & E4). split; [split| | |]; rewrite ?E1, ?E2, ?E4; try done.
  intros f ev' a k He Hk. rewrite E in Hk. by eapply Hs.
Qed.

Lemma alike_io h (m : manager) : io_part m = io_part (iom h) → alike h (mkHooks m (infos h)).
Proof. intros [= ????]. by split_and!. Qed.


Lemma arm_ok p now h : base h → m_heap (timers (iom h)) !! p = None →
  ∃ m, arm p now to info fd ev h
       = (Ret (if to =? FdManager.no_timeout then None else Some p), mkHooks m (infos h)) ∧
    io_part m = io_part (iom h) ∧ Timer.wf (timers m) ∧
    (to ≠ FdManager.no_timeout → is_Some (m_heap (timers m) !! p)).
Proof.
  intros Hb Hp. unfold arm. destruct (to =? FdManager.no_timeout) eqn:Et.
  { exists (iom h). destruct Hb. split_and!; try done; [by destruct h|]. by apply Z.eqb_eq in Et. }
  destruct (addTimer_spec p now to (Some (Bind_OnTimer info (Some (OnTimeout info fd ev)))) false
              (timers (iom h))) as (i & l & E & Hwf & _); [by destruct Hb|done|].
  set (T := set_tickled _ _) in E.
  assert (Timer.wf T ∧ is_Some (m_heap T !! p)) as [HT HTp].
  { split; [by apply wf_tickled|]. cbn. rewrite lookup_insert_eq. eauto. }
  unfold addConditionTimer, on_iom, on_timers, mbind, stE_bind, Timer.addConditionTimer. rewrite E.
  cbn -[tickle]. set (b := bool_decide _ && _). assert (∃ m, (if b then tickle else mret tt) (set_timers T (iom h)) = (Ret tt, m) ∧
    io_part m = io_part (iom h) ∧ timers m = T) as (m & Em & Eio & ET).
  { destruct b; [|by eexists]. unfold tickle, mbind, stE_bind, get, modify. cbn.
    destruct (hasIdleThreads _); by eexists. }
  exists m. unfold onTimerInsertedAtFront. rewrite Em. cbn. rewrite ET. by split_and!.
Qed.

Lemma disarm_ok timer h : base h → live h timer →
  ∃ m, disarm timer h = (Ret tt, mkHooks m (infos h)) ∧ io_part m = io_part (iom h) ∧ Timer.wf (timers m).
Proof.
  intros Hb Hl. destruct timer as [p|]; [|exists (iom h); destruct h, Hb; by split_and!].
  destruct (Hl p eq_refl) as [x Hx]. pose proof (cancel_spec p x (timers (iom h)) (base_timers _ Hb) Hx) as Hc.
  unfold disarm, on_iom, on_timers, mbind, stE_bind.
  destruct (Timer.m_cb x); [destruct Hc as (l & -> & _ & _ & Hwf)|rewrite Hc]; cbn; eexists; split_and!; try done.
  by destruct Hb.
Qed.

(** The facts about the waits that the effect of an operation carries over. *)
Lemma base_effect h h' : base h → IOManagerTheorems.wf (iom h') →
  timers (iom h') = timers (iom h) → infos h' !! info = Some 0 ∨ infos h' !! info = Some ETIMEDOUT →
  sole (view_at h') → base h'.
Proof. intros [_ HT _ _] ? E ??. split; try done. by rewrite E. Qed.

Lemma sole_equiv A V : A ≡ V → sole V → sole A.
Proof. intros [H _] Hs f ev' a k Hev' Hw. rewrite H in Hw by done. by eapply Hs. Qed.

(** Registering: the fiber may park, or the kernel refuses and the timer is
    cancelled. *)
Lemma io_add_ok timer h : base h → running h → live h timer → waits (view_at h) fd ev = None →
  (∃ m, io_add epoll_ctl this self fd ev timer h = (Ret (Some timer), mkHooks m (infos h)) ∧
    base (mkHooks m (infos h)) ∧ timers m = timers (iom h) ∧
    waits (view_of m) fd ev = Some (this, resume_task)) ∨
  (∃ m, io_add epoll_ctl this self fd ev timer h = (Ret None, mkHooks m (infos h)) ∧
    base (mkHooks m (infos h)) ∧ refused epoll_ctl fd (iom h) m ∧ waits (view_of m) fd ev = None).
Proof.
  intros Hb Hrun Hl Hw.
  destruct (addEvent_ok epoll_ctl this (iom h) fd ev this self None (base_wf _ Hb))
    as (r & m & E & Hwf & Hsy & Hr & Hspec).
  { split_and!; try done; try lia; by eexists. }
  pose proof (keeps_addEvent epoll_ctl fd ev (Some this) self None (iom h)) as HT. rewrite E in HT. injection HT as HT _.
  assert (∀ f ev' a k, is_event ev' → waits (view_of m) f ev' = Some (a, k) → resumes k = true →
    f = fd ∧ ev' = ev) as Hs.
  { intros f ev' a k Hev' Hf Hres. cbn [spec] in Hspec. destruct (r =? 0); rewrite (proj1 Hspec f ev' Hev') in Hf.
    - cbn in Hf. case_decide; [done|]. by eapply (base_sole _ Hb).
    - by eapply (base_sole _ Hb). }
  assert (base (mkHooks m (infos h))) as Hb' by (apply (base_effect h); try done; apply Hb).
  unfold io_add. rewrite (stE_bind_ret _ _ h r (mkHooks m (infos h))) by (unfold on_iom; by rewrite E).
  destruct (r =? 0) eqn:Er; cbn [negb]; cbn [spec] in Hspec; [left|right].
  - exists m. split_and!; try done. rewrite (proj1 Hspec fd ev Hev). cbn. by rewrite decide_True.
  - destruct (disarm_ok timer (mkHooks m (infos h)) Hb') as (m' & E' & Hio & HT').
    { unfold live. cbn. by rewrite HT. }
    pose proof (alike_io _ m' Hio) as Ha.
    exists m'. rewrite (stE_bind_ret _ _ _ _ _ E'). split; [done|]. split; [by apply (alike_base (mkHooks m (infos h)))|]. split.
    + destruct (Hr eq_refl) as (op & evs & Hk & Ho). exists op, evs. split; [|done].
      destruct Ha as (_ & _ & Ek & _). cbn in Ek. by rewrite Ek.
    + pose proof (alike_waits _ _ Ha) as Ew. unfold view_at in Ew. cbn [iom] in Ew.
      by rewrite Ew, (proj1 Hspec fd ev Hev).
Qed.

Lemma io_wake_ok timer h c : base h → live h timer → infos h !! info = Some c →
  ∃ m, io_wake timer info h = (Ret (if c =? 0 then None else Some c), mkHooks m (infos h)) ∧
    io_part m = io_part (iom h) ∧ Timer.wf (timers m).
Proof.
  intros Hb Hl Hc. destruct (disarm_ok timer h Hb Hl) as (m & E & ?). exists m. split; [|done].
  unfold io_wake, mbind, stE_bind, query. rewrite E. cbn. rewrite Hc. by destruct (c =? 0).
Qed.

(** The lambda: nothing the second time; the first time it ends the wait,
    if there is one. *)
Lemma on_timeout_again (h : hooks) : infos h !! info = Some ETIMEDOUT →
  on_timeout epoll_ctl this info fd ev h = (Ret tt, h).
Proof. intros E. unfold on_timeout, mbind, stE_bind, get. cbn. by rewrite E. Qed.

Lemma on_timeout_ok (h : hooks) : base h → status (view_at h) → infos h !! info = Some 0 →
  ∃ m, on_timeout epoll_ctl this info fd ev h = (Ret tt, mkHooks m (<[info := ETIMEDOUT]> (infos h))) ∧
    base (mkHooks m (<[info := ETIMEDOUT]> (infos h))) ∧ timers m = timers (iom h) ∧
    (untouched (view_at h) (view_of m) ∨ woken_once (view_at h) (view_of m)) ∧
    (waits (view_of m) fd ev = None ∨ refused epoll_ctl fd (iom h) m ∧ view_of m ≡ view_at h).
Proof.
  intros Hb Hst Hi.
  destruct (cancelEvent_ok epoll_ctl this (iom h) fd ev (base_wf _ Hb)) as (r & m & E & Hwf & Hsy & Hr & Hspec);
    [lia|done|].
  pose proof (keeps_cancelEvent epoll_ctl this fd ev (iom h)) as HT. rewrite E in HT. injection HT as HT _.
  exists m. split.
  { unfold on_timeout, mbind, stE_bind, get, modify, on_iom. rewrite Hi. cbn -[cancelEvent]. by rewrite E. }
  assert (effect (view_at h) (view_of m)) as Heff
    by (apply (effect_spec (OpCancel fd ev) (iom h) _ r); [done|split; [lia|done]|done|done]).
  destruct (Heff (base_sole _ Hb) Hst) as (Hs & _ & Hcase).
  split; [apply (base_effect h); try done; right; apply lookup_insert_eq|].
  split; [done|]. split; [done|]. destruct r.
  - left. cbn [spec] in Hspec. destruct Hspec as [Hw Hv]. rewrite (proj1 Hv fd ev Hev). unfold wake.
    destruct (waits _ fd ev) as [[a k]|]; [|done]. cbn. by rewrite decide_True.
  - destruct (Hr eq_refl) as [Hw|Href]; [left|by right]. by rewrite (proj1 Hspec fd ev Hev).
Qed.

(* ------------------------------------------------------------------ *)
(** ** Every reachable state *)

Lemma phase_alike h h' q r : alike h h' → (∀ p, is_Some (m_heap (timers (iom h)) !! p) →
  is_Some (m_heap (timers (iom h')) !! p)) → phase_ok h q r → phase_ok h' q r.
Proof.
  intros Ha Hl. pose proof (alike_waits _ _ Ha) as E. destruct Ha as (_ & _ & _ & Ei).
  unfold phase_ok, live. rewrite E, Ei. destruct q; naive_solver.
Qed.

(** The state after an operation with such an effect on the wait. *)
Lemma phase_effect h h' q r : timers (iom h') = timers (iom h) →
  (infos h !! info = Some ETIMEDOUT → infos h' !! info = Some ETIMEDOUT) →
  untouched (view_at h) (view_at h') ∨ woken_once (view_at h) (view_at h') →
  phase_ok h q r → phase_ok h' q (r + gained h h').
Proof.
  intros HT Hi Heff. unfold phase_ok, live, gained. rewrite HT.
  destruct Heff as [[E1 E2]|(E1 & E2 & E3)].
  - rewrite E1, E2, Nat.sub_diag, Nat.add_0_r. destruct q; naive_solver.
  - rewrite E1, E2, E3. destruct q as [|?|?|??|]; [done|by intros [? _]| |by intros [? _]|done].
    intros [Hl [[_ ->]|[? _]]]; [|done]. split; [done|]. right. split; [done|lia].
Qed.

Lemma phase_status h q r : phase_ok h q r → status (view_at h).
Proof. unfold status. destruct q; cbn; naive_solver. Qed.

Lemma good_other h m q b r o res : good (mkCall h q b r) →
  allowed o (iom h) → other_op o → exec epoll_ctl this o (iom h) = (Ret res, m) →
  good (mkCall (mkHooks m (infos h)) q b (r + gained h (mkHooks m (infos h)))).
Proof.
  intros (Hb & Hph & H1 & H2) Ha Ho E. cbn [hk at_ armed resumed] in *.
  destruct (exec_returns epoll_ctl this o (iom h) res m (base_wf _ Hb) Ha E) as (Hwf & _ & _ & _ & Hspec).
  pose proof (keeps_exec epoll_ctl this o (iom h)) as HT. rewrite E in HT. injection HT as HT _.
  destruct (effect_spec o (iom h) _ res _ Hev Ha Ho Hspec (base_sole _ Hb) (phase_status _ _ _ Hph))
    as (Hs & _ & Heff).
  split; [|split; [by apply phase_effect|done]].
  apply (base_effect h); try done. apply Hb.
Qed.

Lemma good_grow h m q b r f : good (mkCall h q b r) → 32 <= f < 2 ^ 30 →
  (length (m_fdContexts (iom h)) <= grown f)%nat → contextResize (grown f) (iom h) = (Ret tt, m) →
  good (mkCall (mkHooks m (infos h)) q b r).
Proof.
  intros (Hb & Hph & H1 & H2) Hf Hl E. cbn [hk at_ armed resumed] in *.
  destruct (contextResize_ok this (iom h) f (base_wf _ Hb) Hf Hl) as (m' & E' & Hwf & _ & _ & _ & Hv & _ & _).
  rewrite E in E'. injection E' as <-. assert (timers m = timers (iom h)) as HT by (by injection E as <-).
  split; [|split; [|done]].
  - apply (base_effect h); try done; [apply Hb|]. by eapply sole_equiv; [|apply Hb].
  - change (view_at (mkHooks m (infos h))) with (view_of m).
    pose proof (proj1 Hv fd ev Hev) as Hw. cbn [hk at_ resumed]. unfold phase_ok, live, view_at in *. cbn [iom infos].
    rewrite Hw, HT. exact Hph.
Qed.

Lemma good_mark h q r : good (mkCall h q true r) →
  good (mkCall (mkHooks (iom h) (<[info := ETIMEDOUT]> (infos h))) q true r).
Proof.
  intros (Hb & Hph & H1 & H2). cbn [hk at_ armed resumed] in *. split; [|split; [|done]].
  - destruct Hb as [? ? ? ?]. split; try done. right. apply lookup_insert_eq.
  - cbn [hk at_ resumed]. unfold phase_ok, live, view_at in *. cbn [iom infos]. destruct q; try done.
    destruct Hph as [Hw Hf]. split; [done|]. destruct Hf as [?|(? & ? & _)]; [by left|right].
    split_and!; try done. apply lookup_insert_eq.
Qed.

Lemma good_timeout h h' q r : good (mkCall h q true r) → under_way q = true →
  on_timeout epoll_ctl this info fd ev h = (Ret tt, h') →
  good (mkCall h' q true (r + gained h h')).
Proof.
  intros (Hb & Hph & H1 & H2) Hq E. cbn [hk at_ armed resumed] in *. pose proof (phase_status _ _ _ Hph) as Hst.
  destruct (base_info _ Hb) as [Hi|Hi].
  - destruct (on_timeout_ok h Hb Hst Hi) as (m & E' & Hb' & HT & Heff & _).
    rewrite E in E'. injection E' as ->. split; [done|]. split; [|done].
    apply phase_effect; [done|by rewrite Hi|done|done].
  - rewrite (on_timeout_again h Hi) in E. injection E as <-. unfold gained.
    rewrite Nat.sub_diag, Nat.add_0_r. by split_and!.
Qed.

Lemma good_arm h h' b r p now timer : good (mkCall h Trying b r) →
  m_heap (timers (iom h)) !! p = None → arm p now to info fd ev h = (Ret timer, h') →
  good (mkCall h' (Armed timer) (b || bool_decide (is_Some timer)) r).
Proof.
  intros (Hb & Hph & H1 & H2) Hp E. cbn [hk at_ armed resumed] in *.
  destruct (arm_ok p now h Hb Hp) as (m & E' & Hio & HT & Hl). rewrite E in E'. injection E' as -> ->.
  pose proof (alike_io h m Hio) as Ha. split; [by apply (alike_base h)|].
  cbn [hk at_ armed resumed phase_ok infos]. split; [|split].
  - split; [by rewrite (alike_waits _ _ Ha)|]. intros p' Hp'. destruct (Z.eqb_spec to FdManager.no_timeout); [done|].
    injection Hp' as <-. by apply Hl.
  - intros Hi. by rewrite (H1 Hi).
  - destruct (Z.eqb_spec to FdManager.no_timeout); [|done]. rewrite bool_decide_eq_false_2 by (by intros [? ?]).
    rewrite orb_false_r. done.
Qed.

Lemma good_add h h' b r timer o : good (mkCall h (Armed timer) b r) → running h →
  io_add epoll_ctl this self fd ev timer h = (Ret o, h') →
  good (mkCall h' (match o with Some timer => Parked timer | None => Failed end) b 0).
Proof.
  intros (Hb & [Hw Hl] & H1 & H2) Hr E. cbn [hk at_ armed resumed] in *.
  destruct (io_add_ok timer h Hb Hr Hl Hw) as [(m & E' & Hb' & HT & Hw')|(m & E' & Hb' & _ & Hw')];
    rewrite E in E'; injection E' as -> ->; (split; [done|]); (split; [|done]); [|done].
  split; [|by left]. unfold live in *. cbn. by rewrite HT.
Qed.

Lemma good_wake h h' b r timer o : good (mkCall h (Parked timer) b (S r)) →
  io_wake timer info h = (Ret o, h') →
  good (mkCall h' (match o with Some e => Finished (-1) e | None => Trying end) b 0).
Proof.
  intros (Hb & [Hl Hph] & H1 & H2) E. cbn [hk at_ armed resumed] in *.
  destruct Hph as [[_ ?]|[Hw _]]; [done|].
  assert (∃ c, infos h !! info = Some c ∧ (c = 0 ∨ c = ETIMEDOUT)) as (c & Hc & Hcc)
    by (destruct (base_info _ Hb); eauto).
  destruct (io_wake_ok timer h c Hb Hl Hc) as (m & E' & Hio & HT). rewrite E in E'. injection E' as -> ->.
  pose proof (alike_io h m Hio) as Ha. split; [by apply (alike_base h)|].
  assert (waits (view_at (mkHooks m (infos h))) fd ev = None) as Hn by (by rewrite (alike_waits _ _ Ha)).
  destruct Hcc as [-> | ->]; cbn [Z.eqb]; (split; [|done]); [done|].
  split; [done|]. right. done.
Qed.

Lemma good_step c c' : step c c' → good c → good c'.
Proof.
  intros Hs Hg. destruct Hs.
  - destruct Hg as (Hb & Hph & ?). split; [done|]. split; [|done]. split; [done|by left].
  - by eapply good_arm.
  - by eapply good_add.
  - by eapply good_wake.
  - by eapply good_timeout.
  - by apply good_mark.
  - by eapply good_other.
  - by eapply good_grow.
  - destruct Hg as (Hb & Hph & H1 & H2), H as [E1 E2 E3 E4 E5 E6]. cbn [hk at_ armed resumed] in *.
    assert (alike h h') as Ha by done. split; [by apply (alike_base h)|].
    split; [by apply (phase_alike h)|]. cbn. by rewrite E4.
Qed.

Lemma good_reachable c : reachable c → good c.
Proof.
  intros (h & (Hb & Hi & Hw) & Hr).
  assert (good (mkCall h Trying false 0)) as Hg by (split_and!; try done; cbn; by rewrite Hi).
  clear Hb Hi Hw. induction Hr as [|x y z Hxy _ IH]; [done|]. apply IH. by eapply good_step.
Qed.

(* ------------------------------------------------------------------ *)
(** ** What the hooked calls promise *)

(** C14: a hooked call among other threads, which make any calls they may make
    at any moment, the event loop's stale reports and the kernel's refusals
    included; only the event it waits for is its own: nobody else registers it
    or calls [delEvent] for it ([other_op]).  Histories that go on are those in
    which no assertion failed and no growth of the context vector shrank it.  A
    call that parked is either
    registered with the manager and not yet queued, or was queued exactly once
    and is no longer registered; outside the wait nothing is registered for it;
    it gives up waiting only if the kernel refuses its event; when it is over,
    the result is the original's, or -1 with [ETIMEDOUT] for a call that has a
    time-out.  No step of the call, and no callback of its time-out, faults. *)
Theorem hooked_call_safe c : reachable c →
  match at_ c with
  | Trying => waits (view_at (hk c)) fd ev = None ∧
      ∀ p now, m_heap (timers (iom (hk c))) !! p = None →
        ∃ timer h', arm p now to info fd ev (hk c) = (Ret timer, h')
  | Armed timer => waits (view_at (hk c)) fd ev = None ∧
      (running (hk c) → ∃ o h', io_add epoll_ctl this self fd ev timer (hk c) = (Ret o, h') ∧
        match o with
        | Some t => t = timer ∧ waits (view_at h') fd ev = Some (this, resume_task)
        | None => refused epoll_ctl fd (iom (hk c)) (iom h')
        end)
  | Parked timer =>
      (waits (view_at (hk c)) fd ev = Some (this, resume_task) ∧ resumed c = 0%nat ∨
       waits (view_at (hk c)) fd ev = None ∧ resumed c = 1%nat) ∧
      ∃ o h', io_wake timer info (hk c) = (Ret o, h')
  | Finished n e => waits (view_at (hk c)) fd ev = None ∧
      (do_io_answer n e = Return ∨ n = -1 ∧ e = ETIMEDOUT ∧ to ≠ FdManager.no_timeout)
  | Failed => waits (view_at (hk c)) fd ev = None
  end ∧ ∃ h', on_timeout epoll_ctl this info fd ev (hk c) = (Ret tt, h').
Proof.
  intros (Hb & Hph & H1 & H2)%good_reachable. split.
  - destruct (at_ c) as [|timer|timer|n e|]; cbn in Hph; [..|done].
    + split; [done|]. intros p now Hp. destruct (arm_ok p now _ Hb Hp) as (m & E & _). eauto.
    + destruct Hph as [Hw Hl]. split; [done|]. intros Hr.
      destruct (io_add_ok timer _ Hb Hr Hl Hw) as [(m & E & _ & _ & Hw')|(m & E & _ & Hf & _)];
        by do 2 eexists.
    + destruct Hph as [Hl Hw]. split; [done|].
      destruct (base_info _ Hb) as [Hi|Hi]; destruct (io_wake_ok timer _ _ Hb Hl Hi) as (m & E & _); eauto.
    + destruct Hph as [Hw He]. split; [done|]. destruct He as [?|(? & ? & Hi)]; [by left|right]. auto.
  - destruct (base_info _ Hb) as [Hi|Hi].
    + destruct (on_timeout_ok _ Hb (phase_status _ _ _ Hph) Hi) as (m & E & _). eauto.
    + rewrite (on_timeout_again _ Hi). eauto.
Qed.

(** C15: what a parked call wakes up to.  While the time-out has not fired, a
    wake-up means the event, and the original is called again; the time-out's
    callback ends the wait and queues the fiber, so that it has been queued
    exactly once, unless the kernel refuses to drop the event, which leaves the
    wait; from then on a wake-up ends the call with -1 and [ETIMEDOUT].  If the
    time-out had fired, which may have been before the call parked, its callback
    does nothing any more: only the event or a cancellation wakes the call, with
    [ETIMEDOUT]. *)
Theorem parked_call_wakes c timer : reachable c → at_ c = Parked timer →
  (infos (hk c) !! info = Some 0 ∧ (∃ h'', io_wake timer info (hk c) = (Ret None, h'')) ∧
   ∃ h', on_timeout epoll_ctl this info fd ev (hk c) = (Ret tt, h') ∧
     (waits (view_at h') fd ev = None ∧ (resumed c + gained (hk c) h' = 1)%nat ∨
      refused epoll_ctl fd (iom (hk c)) (iom h') ∧ view_at h' ≡ view_at (hk c)) ∧
     ∃ h'', io_wake timer info h' = (Ret (Some ETIMEDOUT), h'')) ∨
  (infos (hk c) !! info = Some ETIMEDOUT ∧
   on_timeout epoll_ctl this info fd ev (hk c) = (Ret tt, hk c) ∧
   ∃ h'', io_wake timer info (hk c) = (Ret (Some ETIMEDOUT), h'')).
Proof.
  intros (Hb & Hph & _)%good_reachable Ec. pose proof (phase_status _ _ _ Hph) as Hst.
  rewrite Ec in Hph. destruct Hph as [Hl Hw]. destruct (base_info _ Hb) as [Hi|Hi]; [left|right].
  - split; [done|]. split; [destruct (io_wake_ok timer _ 0 Hb Hl Hi) as (m' & E' & _); eauto|].
    destruct (on_timeout_ok _ Hb Hst Hi) as (m & E & Hb' & HT & Heff & Hend).
    set (h' := mkHooks m (<[info := ETIMEDOUT]> (infos (hk c)))) in *. exists h'. split; [done|].
    change (view_at h') with (view_of m). split.
    + destruct Hend as [Hn|?]; [left|by right]. split; [done|]. unfold gained. change (view_at h') with (view_of m).
      destruct Heff as [[Hu ->]|(Hu & _ & ->)], Hw as [[Hw ->]|[Hw ->]]; try congruence; lia.
    + assert (live h' timer) as Hl' by (unfold live; cbn; by rewrite HT).
      destruct (io_wake_ok timer _ ETIMEDOUT Hb' Hl') as (m' & E' & _); [apply lookup_insert_eq|eauto].
  - split; [done|]. split; [by apply on_timeout_again|].
    destruct (io_wake_ok timer _ ETIMEDOUT Hb Hl Hi) as (m' & E' & _). eauto.
Qed.

(** The time-out callback and everything but the calls on descriptors. *)
Inductive silent : call → call → Prop :=
  | silent_timeout h h' q r : on_timeout epoll_ctl this info fd ev h = (Ret tt, h') →
      silent (mkCall h q true r) (mkCall h' q true (r + gained h h'))
  | silent_else h h' q b r : elsewhere h h' → silent (mkCall h q b r) (mkCall h' q b r).

Definition asleep (timer : option Z) (c : call) : Prop :=
  at_ c = Parked timer ∧ resumed c = 0%nat ∧
  waits (view_at (hk c)) fd ev = Some (this, resume_task) ∧ infos (hk c) !! info = Some ETIMEDOUT.

Lemma silent_step timer c c' : silent c c' → asleep timer c → step c c' ∧ asleep timer c'.
Proof.
  intros Hs (Hq & Hr & Hw & Hi).
  destruct Hs as [h h' q r E|h h' q b r [E1 E2 E3 E4 E5 E6]]; cbn [hk at_ resumed] in *.
  - split; [apply step_timeout; [by subst|done]|].
    rewrite (on_timeout_again h Hi) in E. injection E as <-. split_and!; try done.
    unfold gained. cbn [hk resumed]. lia.
  - split; [by apply step_else|]. split_and!; try done; cbn [hk]; [|by rewrite E4].
    by rewrite (alike_waits h h').
Qed.

Lemma silent_asleep timer c c' : rtc silent c c' → reachable c → asleep timer c →
  reachable c' ∧ asleep timer c'.
Proof.
  induction 1 as [|x y z Hxy _ IH]; [done|]. intros (h & Hs & Hr) Ha.
  destruct (silent_step _ _ _ Hxy Ha) as [Hst Ha']. apply IH; [|done].
  exists h. split; [done|]. by eapply rtc_r.
Qed.

(** The time-out can be lost.  If it expires between [addConditionTimer]
    and [addEvent], the callback cancels an event that is not there yet; the
    fiber then registers and parks, and no later time-out callback, and nothing
    but the event itself or a cancellation, ever queues it.  When the event
    does come, the call fails with [ETIMEDOUT] although it is ready. *)
Theorem lost_timeout h r timer :
  reachable (mkCall h (Armed timer) true r) → running h → infos h !! info = Some 0 →
  ∃ h1, on_timeout epoll_ctl this info fd ev h = (Ret tt, h1) ∧
    ∀ h2, io_add epoll_ctl this self fd ev timer h1 = (Ret (Some timer), h2) →
    reachable (mkCall h2 (Parked timer) true 0) ∧
    ∀ c, rtc silent (mkCall h2 (Parked timer) true 0) c →
      asleep timer c ∧ ∃ h', io_wake timer info (hk c) = (Ret (Some ETIMEDOUT), h').
Proof.
  intros Hr Hrun Hi. pose proof (good_reachable _ Hr) as (Hb & [Hw Hl] & _).
  destruct (on_timeout_ok h Hb (or_introl Hw) Hi) as (m & E & Hb' & HT & Heff & _).
  assert (waits (view_of m) fd ev = None) as Hn by (destruct Heff as [[-> _]|(? & ? & _)]; done).
  set (h1 := mkHooks m _) in *. assert (running h1) as Hrun1.
  { pose proof (keeps_cancelEvent epoll_ctl this fd ev (iom h)) as Hk.
    unfold on_timeout, mbind, stE_bind, get, modify, on_iom in E. rewrite Hi in E. cbn -[cancelEvent] in E.
    destruct (cancelEvent _ _ _ _ _) as [[rr|?|?] m']; [|done..]. injection E as ->.
    injection Hk as _ Hk. unfold running, h1. cbn. cbn in Hk. by rewrite Hk. }
  exists h1. split; [done|]. intros h2 E2.
  assert (waits (view_at h2) fd ev = Some (this, resume_task) ∧ infos h2 !! info = Some ETIMEDOUT) as [Hw2 Hi2].
  { destruct (io_add_ok timer h1 Hb' Hrun1) as [(m2 & E2' & _ & _ & ?)|(m2 & E2' & _)]; [by unfold live; cbn; rewrite HT|done|..];
      rewrite E2 in E2'; [|done]. injection E2' as ->. split; [done|apply lookup_insert_eq]. }
  assert (reachable (mkCall h2 (Parked timer) true 0)) as Hr2.
  { destruct Hr as (h0 & Hs & Hr). exists h0. split; [done|].
    eapply rtc_r; [eapply rtc_r; [exact Hr|by apply (step_timeout h h1)]|].
    by apply (step_add h1 _ _ _ timer (Some timer)). }
  split; [done|]. intros c Hc. destruct (silent_asleep timer _ _ Hc Hr2) as [Hrc Ha]; [by split_and!|].
  split; [done|]. destruct Ha as (Hq & _ & _ & Hic). pose proof (good_reachable _ Hrc) as (Hbc & Hpc & _).
  rewrite Hq in Hpc. destruct Hpc as [Hlc _].
  destruct (io_wake_ok timer _ ETIMEDOUT Hbc Hlc Hic) as (m' & E' & _). eauto.
Qed.
End call.

(* ------------------------------------------------------------------ *)
(** ** The sleeps *)

Section sleeps.
Context {C K : Type} (this self : Z).
Abbreviation Cb := (@callback (hook_fn C) Z).
Abbreviation wake_up := (Function (Resume self) : Cb).

(** A sleeping fiber is woken: the first look at the expired timers at or
    after the deadline returns the callback, and the callback queues the fiber
    with the scheduler. *)
Theorem sleep_wakes (s : @IOManager Cb K) p now ms probe now' :
  Timer.wf (timers s) → m_heap (timers s) !! p = None → u64 (now + ms) <= now' →
  m_heap (timers s) !! probe = None → probe ≠ p →
  ∃ s', addTimer p now ms wake_up s = (Ret tt, s') ∧
    (∃ cbs T, listExpiredCb probe now' (timers s') = (Ret cbs, T) ∧ Some wake_up ∈ cbs) ∧
    ∀ s0 : @IOManager Cb K, ∃ s1, resume_fiber this self s0 = (Ret tt, s1) ∧
      queue (view_of this s1) this = queue (view_of this s0) this ++ [resume_task self].
Proof.
  intros Hwf Hp Hms Hprobe Hne.
  destruct (addTimer_spec p now ms (Some wake_up) false (timers s) Hwf Hp) as (i & l & E & Hwf' & Hl & _).
  set (T := set_tickled _ _) in E. set (b := bool_decide _ && _) in E.
  assert (∃ s', addTimer p now ms wake_up s = (Ret tt, s') ∧ timers s' = T) as (s' & E' & ET).
  { unfold addTimer, on_timers, mbind, stE_bind. rewrite E. destruct b; [|by eexists].
    unfold onTimerInsertedAtFront, tickle, mbind, stE_bind, get, modify. cbn.
    destruct (hasIdleThreads _); by eexists. }
  exists s'. split; [done|]. split.
  - destruct (listExpiredCb_spec probe now' T) as (T' & ET' & _); [by apply wf_tickled| |].
    { cbn. by rewrite lookup_insert_ne. }
    rewrite ET. do 2 eexists. split; [exact ET'|]. apply list_elem_of_fmap. exists p.
    assert (m_heap T !! p = Some (new_timer now ms (Some wake_up) false)) as HTp by (cbn; by rewrite lookup_insert_eq).
    split; [unfold cb_of; by rewrite HTp|]. apply list_elem_of_filter. split.
    + right. unfold next_of. rewrite HTp. done.
    + change (p ∈ l). rewrite Hl. by left.
  - intros s0. destruct (schedule_on_spec this this (resume_task self) s0 eq_refl)
      as (s1 & E1 & _ & _ & _ & _ & Hq).
    exists s1. split; [done|]. cbn. by rewrite Hq, decide_True.
Qed.

(** How long the sleeps are.  [sleep] multiplies in 32 bits: above
    4294967 seconds it is too short.  [usleep] drops the part below a
    millisecond.  [nanosleep] goes through an [int]: from 2^31 milliseconds
    (24.8 days) on, the deadline can be in the past. *)
Theorem sleep_durations seconds usec sec nsec :
  in_u 32 seconds → in_u 32 usec → 0 <= sec < 2 ^ 50 → 0 <= nsec < 10 ^ 9 →
  sleep_ms seconds = (1000 * seconds) mod 2 ^ 32 ∧
  (sleep_ms seconds = 1000 * seconds ↔ seconds <= 4294967) ∧
  1000 * usleep_ms usec <= usec < 1000 * usleep_ms usec + 1000 ∧
  (let ms := 1000 * sec + nsec / 1000000 in
   nanosleep_ms sec nsec =
     (if decide (ms mod 2 ^ 32 < 2 ^ 31) then ms mod 2 ^ 32 else 2 ^ 64 - 2 ^ 32 + ms mod 2 ^ 32) ∧
   (ms < 2 ^ 31 → nanosleep_ms sec nsec = ms) ∧
   (2 ^ 31 <= ms < 2 ^ 32 → ∀ now, 2 ^ 32 <= now < 2 ^ 63 → u64 (now + nanosleep_ms sec nsec) < now)).
Proof.
  unfold in_u. intros Hs Hu Hsec Hns.
  assert (sleep_ms seconds = (1000 * seconds) mod 2 ^ 32) as Es.
  { unfold sleep_ms, wrapu. rewrite (Z.mod_small seconds) by lia. f_equal. lia. }
  split; [done|]. split.
  { rewrite Es. split; intros H; [|apply Z.mod_small; lia].
    pose proof (Z.mod_pos_bound (1000 * seconds) (2 ^ 32) eq_refl). lia. }
  split.
  { unfold usleep_ms, wrapu. rewrite Z.mod_small by lia.
    pose proof (Z.div_mod usec 1000 ltac:(lia)). pose proof (Z.mod_pos_bound usec 1000 ltac:(lia)). lia. }
  cbv zeta. set (ms := 1000 * sec + nsec / 1000000).
  assert (0 <= ms < 2 ^ 62) as Hms.
  { pose proof (Z.div_pos nsec 1000000 ltac:(lia) ltac:(lia)).
    pose proof (Z.div_lt_upper_bound nsec 1000000 1000 ltac:(lia) ltac:(lia)). unfold ms. lia. }
  assert (nanosleep_ms sec nsec =
    if decide (ms mod 2 ^ 32 < 2 ^ 31) then ms mod 2 ^ 32 else 2 ^ 64 - 2 ^ 32 + ms mod 2 ^ 32) as En.
  { unfold nanosleep_ms. rewrite (Z.quot_div_nonneg nsec) by lia.
    rewrite Z.quot_div_nonneg by (try apply Z.div_pos; lia). rewrite Z.div_div by lia. change (1000 * 1000) with 1000000. rewrite (Z.mul_comm sec).
    assert (∀ x, 0 <= x < 2 ^ 62 → i64 x = x) as Hi64.
    { intros x Hx. apply wraps_small; [done|]. unfold in_s. change (64 - 1) with 63. lia. }
    assert (0 <= nsec / 1000000) by (apply Z.div_pos; lia).
    rewrite (Hi64 (1000 * sec)) by lia. fold ms. rewrite (Hi64 ms) by lia.
    unfold wraps, wrapu. change (2 ^ (32 - 1)) with (2 ^ 31). cbv zeta.
    pose proof (Z.mod_pos_bound ms (2 ^ 32) eq_refl). case_decide.
    - rewrite Z.mod_small by lia. done.
    - symmetry. apply (Z.mod_unique _ _ (-1)); lia. }
  rewrite En. split; [done|]. split.
  - intros H. rewrite Z.mod_small by lia. by rewrite decide_True by lia.
  - intros H now Hnow. rewrite Z.mod_small by lia. rewrite decide_False by lia. unfold wrapu.
    rewrite <- (Z.mod_unique (now + (2 ^ 64 - 2 ^ 32 + ms)) (2 ^ 64) 1 (now - 2 ^ 32 + ms)); lia.
Qed.
End sleeps.

(* ------------------------------------------------------------------ *)
(** ** On a concrete kernel *)

(** Fiber 9 is running; descriptor 5 is to be read within 200 ms. *)
Definition quiet_manager : @IOManager (@callback (hook_fn nat) Z) Kernel :=
  mkIOManager
    (mkScheduler (mkShared {[ 9 := mkFiber 9 131072 RUNNING (Some 9) true None true ]} 10 1) [] 0 0 false None [])
    [] (new_manager 100) (map new_context (seq 0 32)) 0 0 {[ 3 := (Z.lor EPOLLIN EPOLLET, 3) ]}.
Definition before_read : @hooks nat Kernel := mkHooks quiet_manager {[ 50 := 0 ]}.
Definition armed_read : @hooks nat Kernel := (arm 70 100 200 50 5 READ before_read).2.
Definition parked_read : @hooks nat Kernel := (io_add kernel_ctl 0 9 5 READ (Some 70) armed_read).2.

Abbreviation reachable_read := (reachable (C := nat) (K := Kernel) kernel_ctl 0 9 5 READ 200 50).

Lemma armed_read_reachable : reachable_read (mkCall armed_read (Armed (Some 70)) true 0).
Proof.
  exists before_read. split.
  - split; [|by split]. split; [by apply fresh_wf|apply new_manager_wf|by left|].
    intros f ev a k Hev Hw. exfalso. revert Hw.
    assert (m_fdContexts quiet_manager = map new_context (seq 0 32)) as E by done.
    unfold view_at, view_of. cbn [waits iom before_read]. rewrite E. case_decide; [|done].
    destruct (map new_context (seq 0 32) !! Z.to_nat f) as [c|] eqn:El; [|done].
    destruct (grow_lookup 32 [] _ c El) as [?|[_ ->]]; [done|]. by destruct Hev as [-> | ->].
  - apply rtc_once. change true with (false || bool_decide (is_Some (Some 70))).
    eapply step_arm with (p := 70) (now := 100); [done|vm_compute; reflexivity].
Qed.
Lemma armed_running : running (C := nat) (K := Kernel) 9 armed_read.
Proof. eexists. split; [vm_compute; reflexivity|done]. Qed.

Lemma parked_read_reachable : reachable_read (mkCall parked_read (Parked (Some 70)) true 0).
Proof.
  destruct armed_read_reachable as (h & Hs & Hr). exists h. split; [done|].
  eapply rtc_r; [exact Hr|].
  eapply step_add with (o := Some (Some 70)); [apply armed_running|vm_compute; reflexivity].
Qed.

(** Meanwhile the event came and the loop queued the fiber. *)
Definition event_read : @hooks nat Kernel :=
  mkHooks (exec kernel_ctl 0 (OpHandle (OnFd 5 EPOLLIN)) (iom parked_read)).2 (infos parked_read).
Lemma event_read_reachable : reachable_read (mkCall event_read (Parked (Some 70)) true 1).
Proof.
  destruct parked_read_reachable as (h & Hs & Hr). exists h. split; [done|]. eapply rtc_r; [exact Hr|].
  change 1%nat with (0 + gained 0 9 parked_read event_read)%nat.
  apply (step_other _ _ _ _ _ _ _ parked_read _ _ _ _ (OpHandle (OnFd 5 EPOLLIN)) true); [vm_compute; done|done|].
  vm_compute. reflexivity.
Qed.

Lemma hooked_call_safe_witness :
  ((waits (view_at 0 parked_read) 5 READ = Some (0, resume_task 9) ∧ 0%nat = 0%nat ∨
    waits (view_at 0 parked_read) 5 READ = None ∧ 0%nat = 1%nat) ∧
   ∃ o h', io_wake (Some 70) 50 parked_read = (Ret o, h')) ∧
  (waits (view_at 0 event_read) 5 READ = Some (0, resume_task 9) ∧ 1%nat = 0%nat ∨
   waits (view_at 0 event_read) 5 READ = None ∧ 1%nat = 1%nat) ∧
  ∃ o h', io_wake (Some 70) 50 event_read = (Ret o, h').
Proof.
  split.
  - apply (hooked_call_safe kernel_ctl 0 9 5 READ 200 50)
      with (c := mkCall parked_read (Parked (Some 70)) true 0); [done|by left|apply parked_read_reachable].
  - apply (hooked_call_safe kernel_ctl 0 9 5 READ 200 50)
      with (c := mkCall event_read (Parked (Some 70)) true 1); [done|by left|apply event_read_reachable].
Defined.

Lemma parked_call_wakes_witness :
  (infos parked_read !! 50 = Some 0 ∧ (∃ h'', io_wake (Some 70) 50 parked_read = (Ret None, h'')) ∧
   ∃ h', on_timeout kernel_ctl 0 50 5 READ parked_read = (Ret tt, h') ∧
     (waits (view_at 0 h') 5 READ = None ∧ (0 + gained 0 9 parked_read h' = 1)%nat ∨
      refused kernel_ctl 5 (iom parked_read) (iom h') ∧ view_at 0 h' ≡ view_at 0 parked_read) ∧
     ∃ h'', io_wake (Some 70) 50 h' = (Ret (Some ETIMEDOUT), h'')) ∨
  (infos parked_read !! 50 = Some ETIMEDOUT ∧
   on_timeout kernel_ctl 0 50 5 READ parked_read = (Ret tt, parked_read) ∧
   ∃ h'', io_wake (Some 70) 50 parked_read = (Ret (Some ETIMEDOUT), h'')).
Proof.
  apply (parked_call_wakes kernel_ctl 0 9 5 READ 200 50)
    with (c := mkCall parked_read (Parked (Some 70)) true 0); [done|by left|apply parked_read_reachable|done].
Defined.

Lemma lost_timeout_witness :
  ∃ h1, on_timeout kernel_ctl 0 50 5 READ armed_read = (Ret tt, h1) ∧
    ∀ h2, io_add kernel_ctl 0 9 5 READ (Some 70) h1 = (Ret (Some (Some 70)), h2) →
    reachable_read (mkCall h2 (Parked (Some 70)) true 0) ∧
    ∀ c, rtc (silent kernel_ctl 0 9 5 READ 50) (mkCall h2 (Parked (Some 70)) true 0) c →
      asleep 0 9 5 READ 50 (Some 70) c ∧ ∃ h', io_wake (Some 70) 50 (hk c) = (Ret (Some ETIMEDOUT), h').
Proof.
  apply (lost_timeout kernel_ctl 0 9 5 READ 200 50) with (r := 0%nat);
    [done|by left|apply armed_read_reachable|apply armed_running|vm_compute; reflexivity].
Defined.

Lemma sleep_wakes_witness :
  ∃ s', addTimer 70 100 200 (Function (Resume 9)) quiet_manager = (Ret tt, s') ∧
    (∃ cbs T, listExpiredCb 71 300 (timers s') = (Ret cbs, T) ∧ Some (Function (Resume 9)) ∈ cbs) ∧
    ∀ s0 : @IOManager (@callback (hook_fn nat) Z) Kernel, ∃ s1, resume_fiber 0 9 s0 = (Ret tt, s1) ∧
      queue (view_of 0 s1) 0 = queue (view_of 0 s0) 0 ++ [resume_task 9].
Proof. apply (sleep_wakes 0 9 quiet_manager); [apply new_manager_wf|done..]. Defined.

Lemma sleep_durations_witness :
  sleep_ms 4294968 = (1000 * 4294968) mod 2 ^ 32 ∧ (sleep_ms 4294968 = 1000 * 4294968 ↔ 4294968 <= 4294967) ∧
  1000 * usleep_ms 1999 <= 1999 < 1000 * usleep_ms 1999 + 1000 ∧
  (let ms := 1000 * 3000000 + 0 / 1000000 in
   nanosleep_ms 3000000 0 =
     (if decide (ms mod 2 ^ 32 < 2 ^ 31) then ms mod 2 ^ 32 else 2 ^ 64 - 2 ^ 32 + ms mod 2 ^ 32) ∧
   (ms < 2 ^ 31 → nanosleep_ms 3000000 0 = ms) ∧
   (2 ^ 31 <= ms < 2 ^ 32 → ∀ now, 2 ^ 32 <= now < 2 ^ 63 → u64 (now + nanosleep_ms 3000000 0) < now)).
Proof. apply (sleep_durations 4294968 1999 3000000 0); unfold in_u; lia. Defined.
