(* ===== verification/Address.v ===== *)
(** * Socket addresses ([address.h], [address.cc])

    The four kinds of address over the socket structures of the system,
    subnet arithmetic, printing, comparison, and the look-ups.  Structures
    hold the numbers as the machine reads them, so that a port or an IPv4
    address in network order depends on the byte order [host];
    [getaddrinfo], [getifaddrs] and [inet_pton] are parameters. *)
From S2P Require Import Prelude StdString Endian OrderedMap.

Local Open Scope Z_scope.

Definition AF_UNSPEC : Z := 0.
Definition AF_UNIX : Z := 1.
Definition AF_INET : Z := 2.
Definition AF_INET6 : Z := 10.

(* ------------------------------------------------------------------ *)
(** ** The structures of the system *)

Record sockaddr_in := mkIn { sin_family : Z; sin_port : Z; s_addr : Z; sin_zero : bytes }.
Record sockaddr_in6 := mkIn6 {
  sin6_family : Z; sin6_port : Z; sin6_flowinfo : Z; s6_addr : list Z; sin6_scope_id : Z }.
Record sockaddr_un := mkUn { sun_family : Z; sun_path : bytes }.
Record sockaddr := mkSockaddr { sa_family : Z; sa_data : bytes }.

(** [sizeof(sun_path)], and what [memset(..., 0, ...)] leaves. *)
Definition PATH_SIZE : nat := 108.
Definition zeros (n : nat) : bytes := replicate n zero.

(* sylar/address.h:30-322, Address *)
Inductive Address :=
  | IPv4Address (m_addr : sockaddr_in)
  | IPv6Address (m_addr : sockaddr_in6)
  | UnixAddress (m_addr : sockaddr_un) (m_length : Z)
  | UnknownAddress (m_addr : sockaddr).

(* ------------------------------------------------------------------ *)
(** ** Masks *)

(** [1 << n] is an [int]; for [n = 31] it is the smallest one, and the
    subtraction overflows. *)
(* sylar/address.cc:14-17, CreateMask *)
Definition CreateMask (w : Z) (bits : Z) : outcome Z :=
  let n := u64 (w - bits) in
  if 32 <=? n then Crash bad_shift
  else m ← checked_s 32 (i32 (Z.shiftl 1 n) - 1); Ret (wrapu w m).

(* sylar/address.cc:22-24, CountBytes *)
Fixpoint count_loop (fuel : nat) (value result : Z) : outcome Z :=
  match fuel with
  | O => Crash no_fuel
  | S f => if value =? 0 then Ret result else count_loop f (Z.land value (value - 1)) (u32 (result + 1))
  end.
(* sylar/address.cc:19-26, CountBytes *)
Definition CountBytes (value : Z) : outcome Z := count_loop 33 value 0.

(** The hexadecimal digits [os << std::hex] prints. *)
Definition hex_char (d : Z) : ascii := char_of (if d <? 10 then 48 + d else 87 + d).
Fixpoint hex_rev (fuel : nat) (n : Z) : bytes :=
  match fuel with
  | O => []
  | S f => hex_char (n mod 16) :: (if n / 16 =? 0 then [] else hex_rev f (n / 16))
  end.
Definition to_hex (n : Z) : bytes := reverse (hex_rev 8 n).

Section address.
Context (host : endian).

Local Abbreviation swap := (byteswapOnLittleEndian host).

(* ------------------------------------------------------------------ *)
(** ** IPv4 *)

Implicit Types (m : sockaddr_in) (q : sockaddr_in6).

Definition set_s_addr v m := mkIn (sin_family m) (sin_port m) (u32 v) (sin_zero m).
Definition set_sin_port v m := mkIn (sin_family m) v (s_addr m) (sin_zero m).

(* sylar/address.cc:285-290, IPv4Address::IPv4Address *)
Definition new_IPv4Address (address port : Z) : sockaddr_in :=
  mkIn AF_INET (swap 2 (u16 port)) (swap 4 (u32 address)) (zeros 8).

(* sylar/address.cc:314-323, IPv4Address::broadcastAddress *)
Definition broadcastAddress4 (prefix_len : Z) m : outcome (option sockaddr_in) :=
  if 32 <? prefix_len then Ret None
  else mask ← CreateMask 32 prefix_len;
       Ret (Some (set_s_addr (Z.lor (s_addr m) (swap 4 mask)) m)).

(* sylar/address.cc:325-334, IPv4Address::networkAddress *)
Definition networkAddress4 (prefix_len : Z) m : outcome (option sockaddr_in) :=
  if 32 <? prefix_len then Ret None
  else mask ← CreateMask 32 prefix_len;
       Ret (Some (set_s_addr (Z.land (s_addr m) (swap 4 (u32 (Z.lnot mask)))) m)).

(* sylar/address.cc:336-342, IPv4Address::subnetMask *)
Definition subnetMask4 (prefix_len : Z) : outcome sockaddr_in :=
  mask ← CreateMask 32 prefix_len;
  Ret (set_s_addr (Z.lnot (swap 4 mask)) (mkIn AF_INET 0 0 (zeros 8))).

(* sylar/address.cc:344-346, IPv4Address::getPort *)
Definition getPort4 m : Z := swap 2 (sin_port m).
(* sylar/address.cc:348-350, IPv4Address::setPort *)
Definition setPort4 (v : Z) m : sockaddr_in := set_sin_port (swap 2 (u16 v)) m.

(* sylar/address.cc:304-312, IPv4Address::insert *)
Definition insert4 m : bytes :=
  let addr := swap 4 (s_addr m) in
  to_string (Z.land (Z.shiftr addr 24) 0xff) ++ B "."
  ++ to_string (Z.land (Z.shiftr addr 16) 0xff) ++ B "."
  ++ to_string (Z.land (Z.shiftr addr 8) 0xff) ++ B "."
  ++ to_string (Z.land addr 0xff) ++ B ":" ++ to_string (swap 2 (sin_port m)).

(* ------------------------------------------------------------------ *)
(** ** IPv6 *)

Definition set_s6_addr v q :=
  mkIn6 (sin6_family q) (sin6_port q) (sin6_flowinfo q) v (sin6_scope_id q).
Definition set_sin6_port v q :=
  mkIn6 (sin6_family q) v (sin6_flowinfo q) (s6_addr q) (sin6_scope_id q).

(* sylar/address.cc:365-368, IPv6Address::IPv6Address *)
Definition new_IPv6Address : sockaddr_in6 := mkIn6 AF_INET6 0 0 (replicate 16 0) 0.

(** [address] points to 16 bytes. *)
(* sylar/address.cc:374-379, IPv6Address::IPv6Address *)
Definition new_IPv6Address_of (address : list Z) (port : Z) : sockaddr_in6 :=
  mkIn6 AF_INET6 (swap 2 (u16 port)) 0 address 0.

(** [s6_addr[i] = f(s6_addr[i])], and the loops that set all bytes from
    [from] on, or all before it. *)
Definition update_byte (i : Z) (f : Z → Z) (a : list Z) : outcome (list Z) :=
  if 16 <=? i then Crash out_of_bounds else Ret (alter f (Z.to_nat i) a).
Definition fill_from (from : Z) (v : Z) (a : list Z) : list Z :=
  imap (λ j b, if from <=? Z.of_nat j then v else b) a.
Definition fill_before (upto : Z) (v : Z) (a : list Z) : list Z :=
  imap (λ j b, if Z.of_nat j <? upto then v else b) a.

(* sylar/address.cc:419-427, IPv6Address::broadcastAddress *)
Definition broadcastAddress6 (prefix_len : Z) q : outcome sockaddr_in6 :=
  mask ← CreateMask 8 (prefix_len mod 8);
  a ← update_byte (prefix_len / 8) (λ b, Z.lor b mask) (s6_addr q);
  Ret (set_s6_addr (fill_from (prefix_len / 8 + 1) 0xff a) q).

(* sylar/address.cc:429-437, IPv6Address::networkAddress *)
Definition networkAddress6 (prefix_len : Z) q : outcome sockaddr_in6 :=
  mask ← CreateMask 8 (prefix_len mod 8);
  a ← update_byte (prefix_len / 8) (λ b, Z.land b mask) (s6_addr q);
  Ret (set_s6_addr (fill_from (prefix_len / 8 + 1) 0x00 a) q).

(** Before the loop the bytes other than [prefix_len / 8] are 0. *)
(* sylar/address.cc:439-450, IPv6Address::subnetMask *)
Definition subnetMask6 (prefix_len : Z) : outcome sockaddr_in6 :=
  mask ← CreateMask 8 (prefix_len mod 8);
  a ← update_byte (prefix_len / 8) (λ _, u8 (Z.lnot mask)) (replicate 16 0);
  Ret (set_s6_addr (fill_before (prefix_len / 8) 0xff a) new_IPv6Address).

(* sylar/address.cc:452-454, IPv6Address::getPort *)
Definition getPort6 q : Z := swap 2 (sin6_port q).
(* sylar/address.cc:456-458, IPv6Address::setPort *)
Definition setPort6 (v : Z) q : sockaddr_in6 := set_sin6_port (swap 2 (u16 v)) q.

(** The address read as an array of [uint16_t]. *)
Fixpoint halfwords (a : list Z) : list Z :=
  match a with
  | x :: y :: r => of_mem host [char_of x; char_of y] :: halfwords r
  | _ => []
  end.

(** From index [i] on, [n] groups left; [used] is [used_zeros]. *)
(* sylar/address.cc:397-409, IPv6Address::insert *)
Fixpoint insert_loop (addr : list Z) (n i : nat) (os : bytes) (used : bool) : bytes * bool :=
  match n with
  | O => (os, used)
  | S n' =>
      let a := nth i addr 0 in
      if (a =? 0) && negb used then insert_loop addr n' (S i) os used
      else
        let gap := (0 <? i)%nat && (nth (i - 1) addr 0 =? 0) && negb used in
        insert_loop addr n' (S i)
          ((if gap then os ++ B ":" else os) ++ (if (0 <? i)%nat then B ":" else []) ++ to_hex (swap 2 a))
          (used || gap)
  end.

(* sylar/address.cc:393-417, IPv6Address::insert *)
Definition insert6 q : bytes :=
  let addr := halfwords (s6_addr q) in
  let '(os, used_zeros) := insert_loop addr 8 0 (B "[") false in
  (if negb used_zeros && (nth 7 addr 0 =? 0) then os ++ B "::" else os)
  ++ B "]:" ++ to_string (swap 2 (sin6_port q)).

(* ------------------------------------------------------------------ *)
(** ** Unix addresses *)

(** [offsetof(sockaddr_un, sun_path)]. *)
Definition PATH_OFFSET : Z := 2.

(* sylar/address.cc:460-460, MAX_PATH_LEN *)
Definition MAX_PATH_LEN : Z := Z.of_nat PATH_SIZE - 1.

(* sylar/address.cc:462-466, UnixAddress::UnixAddress *)
Definition new_UnixAddress_0 : sockaddr_un * Z := (mkUn AF_UNIX (zeros PATH_SIZE), PATH_OFFSET + MAX_PATH_LEN).

(* sylar/address.cc:468-482, UnixAddress::UnixAddress *)
Definition new_UnixAddress (path : bytes) : outcome (sockaddr_un * Z) :=
  let n := u32 (Z.of_nat (length path) + 1) in
  let n := match path with c :: _ => if Ascii.eqb c zero then u32 (n - 1) else n | [] => n end in
  if Z.of_nat PATH_SIZE <? n then Throw logic_error
  else Ret (mkUn AF_UNIX (splice 0 (take (Z.to_nat n) (path ++ [zero])) (zeros PATH_SIZE)),
            u32 (n + PATH_OFFSET)).

(** [std::string(sun_path + 1, m_length - offsetof - 1)], or the C string in
    [sun_path]; both read nothing but [sun_path]. *)
(* sylar/address.cc:500-508, UnixAddress::getPath *)
Definition getPath (u : sockaddr_un) (m_length : Z) : outcome bytes :=
  match sun_path u with
  | c :: rest =>
      if (PATH_OFFSET <? m_length) && Ascii.eqb c zero then
        if Z.of_nat (length rest) <? m_length - PATH_OFFSET - 1 then Crash out_of_bounds
        else Ret (B "\0" ++ take (Z.to_nat (m_length - PATH_OFFSET - 1)) rest)
      else if decide (zero ∈ sun_path u) then Ret (c_str (sun_path u)) else Crash out_of_bounds
  | [] => Crash out_of_bounds
  end.

(* ------------------------------------------------------------------ *)
(** ** All kinds *)

(** The memory [getAddr] points to. *)
(* sylar/address.cc:292-298, IPv4Address::getAddr *)
Definition getAddr (a : Address) : bytes :=
  match a with
  | IPv4Address m => mem_of host 2 (sin_family m) ++ mem_of host 2 (sin_port m)
                     ++ mem_of host 4 (s_addr m) ++ sin_zero m
  | IPv6Address m => mem_of host 2 (sin6_family m) ++ mem_of host 2 (sin6_port m)
                     ++ mem_of host 4 (sin6_flowinfo m) ++ (char_of <$> s6_addr m)
                     ++ mem_of host 4 (sin6_scope_id m)
  | UnixAddress m _ => mem_of host 2 (sun_family m) ++ sun_path m
  | UnknownAddress m => mem_of host 2 (sa_family m) ++ sa_data m
  end.

(* sylar/address.cc:496-498, UnixAddress::getAddrLen *)
Definition getAddrLen (a : Address) : Z :=
  match a with
  | IPv4Address _ => 16
  | IPv6Address _ => 28
  | UnixAddress _ n => n
  | UnknownAddress _ => 16
  end.

(* sylar/address.cc:188-190, Address::getFamily *)
Definition getFamily (a : Address) : Z := of_mem host (take 2 (getAddr a)).

(* sylar/address.cc:538-541, UnknownAddress::insert *)
Definition insert_unknown (m : sockaddr) : bytes :=
  B "[UnknownAddress family=" ++ to_string (sa_family m) ++ B "]".

(* sylar/address.cc:192-196, Address::toString *)
Definition toString (a : Address) : outcome bytes :=
  match a with
  | IPv4Address m => Ret (insert4 m)
  | IPv6Address m => Ret (insert6 m)
  | UnixAddress m n => getPath m n
  | UnknownAddress m => Ret (insert_unknown m)
  end.

(** The cast reads the bytes of the structure. *)
Definition in_of (mem : bytes) : sockaddr_in :=
  mkIn (of_mem host (take 2 mem)) (of_mem host (slice 2 2 mem)) (of_mem host (slice 4 4 mem)) (slice 8 8 mem).
Definition in6_of (mem : bytes) : sockaddr_in6 :=
  mkIn6 (of_mem host (take 2 mem)) (of_mem host (slice 2 2 mem)) (of_mem host (slice 4 4 mem))
    (uchar <$> slice 8 16 mem) (of_mem host (slice 24 4 mem)).
Definition sockaddr_of (mem : bytes) : sockaddr := mkSockaddr (of_mem host (take 2 mem)) (slice 2 14 mem).

Definition read_struct {A} (n : nat) (f : bytes → A) (mem : bytes) : outcome A :=
  if (length mem <? n)%nat then Crash out_of_bounds else Ret (f mem).

(* sylar/address.cc:198-216, Address::Create *)
Definition Create (addr : option bytes) : outcome (option Address) :=
  match addr with
  | None => Ret None
  | Some mem =>
      family ← read_struct 2 (λ mem, of_mem host (take 2 mem)) mem;
      if family =? AF_INET then m ← read_struct 16 in_of mem; Ret (Some (IPv4Address m))
      else if family =? AF_INET6 then m ← read_struct 28 in6_of mem; Ret (Some (IPv6Address m))
      else m ← read_struct 16 sockaddr_of mem; Ret (Some (UnknownAddress m))
  end.

(** [memcmp]: the sign of the first difference among [n] bytes. *)
Fixpoint compare_bytes (s t : bytes) : Z :=
  match s, t with
  | c :: s', d :: t' => if Ascii.eqb c d then compare_bytes s' t' else uchar c - uchar d
  | _, _ => 0
  end.
Definition memcmp (s t : bytes) (n : Z) : outcome Z :=
  if (Z.of_nat (length s) <? n) || (Z.of_nat (length t) <? n) then Crash out_of_bounds
  else Ret (compare_bytes (take (Z.to_nat n) s) (take (Z.to_nat n) t)).

(* sylar/address.cc:218-229, Address::operator< *)
Definition address_lt (a rhs : Address) : outcome bool :=
  let minlen := Z.min (getAddrLen a) (getAddrLen rhs) in
  result ← memcmp (getAddr a) (getAddr rhs) minlen;
  Ret (if result <? 0 then true
       else if 0 <? result then false
       else getAddrLen a <? getAddrLen rhs).

(* sylar/address.cc:231-233, Address::operator== *)
Definition address_eq (a rhs : Address) : outcome bool :=
  if getAddrLen a =? getAddrLen rhs then
    result ← memcmp (getAddr a) (getAddr rhs) (getAddrLen a); Ret (result =? 0)
  else Ret false.

(* sylar/address.cc:235-237, Address::operator!= *)
Definition address_neq (a rhs : Address) : outcome bool := r ← address_eq a rhs; Ret (negb r).

(* ------------------------------------------------------------------ *)
(** ** Look-ups *)

(** [getaddrinfo(node, service, hints)]: an error code, or the addresses
    found. *)
Context (getaddrinfo : bytes → option bytes → Z → Z → Z → Z → Z + list (option bytes)).
(** [inet_pton]: the 4 or 16 bytes of the address. *)
Context (inet_pton : Z → bytes → option (list Z)).

(** [[address]:service]; the character after the bracket may be the
    terminator. *)
(* sylar/address.cc:69-79, Address::Lookup *)
Definition bracketed (s : bytes) : bytes * option bytes :=
  match s with
  | c :: _ =>
      if Ascii.eqb c "[" then
        match find_char s "]" 1 with
        | Some i =>
            (slice 1 (i - 1) s, if bool_decide (s !! S i = Some ":"%char) then Some (drop (i + 2) s) else None)
        | None => ([], None)
        end
      else ([], None)
  | [] => ([], None)
  end.

(** [node:service]; the service is the rest of [host] as a C string. *)
(* sylar/address.cc:66-94, Address::Lookup *)
Definition node_service (s : bytes) : bytes * option bytes :=
  let '(node, service) := bracketed s in
  let '(node, service) :=
    match node with
    | [] =>
        match find_char s ":" 0 with
        | Some i =>
            match find_char s ":" (S i) with
            | None => (take i s, Some (drop (S i) s))
            | Some _ => (node, Some (drop i s))
            end
        | None => (node, None)
        end
    | _ => (node, service)
    end in
  (match node with [] => s | _ => node end, service).

Fixpoint create_all (l : list (option bytes)) : outcome (list (option Address)) :=
  match l with
  | [] => Ret []
  | a :: l' => x ← Create a; xs ← create_all l'; Ret (x :: xs)
  end.

(* sylar/address.cc:54-113, Address::Lookup *)
Definition Lookup (result : list (option Address)) (s : bytes) (family type protocol : Z) :
    outcome (bool * list (option Address)) :=
  let '(node, service) := node_service s in
  match getaddrinfo (c_str node) (c_str <$> service) 0 family type protocol with
  | inl _ => Ret (false, result)
  | inr found =>
      l ← create_all found;
      Ret (negb (bool_decide (result ++ l = [])), result ++ l)
  end.

(* sylar/address.cc:28-35, Address::LookupAny *)
Definition LookupAny (s : bytes) (family type protocol : Z) : outcome (option Address) :=
  '(ok, result) ← Lookup [] s family type protocol;
  if (ok : bool) then match result with a :: _ => Ret a | [] => Crash out_of_bounds end else Ret None.

Definition is_ip (a : option Address) : bool :=
  match a with Some (IPv4Address _) | Some (IPv6Address _) => true | _ => false end.

(* sylar/address.cc:37-52, Address::LookupAnyIPAddress *)
Definition LookupAnyIPAddress (s : bytes) (family type protocol : Z) : outcome (option Address) :=
  '(ok, result) ← Lookup [] s family type protocol;
  Ret (if (ok : bool) then default None (head (filter (λ a, is_ip a = true) result)) else None).

(** [AI_NUMERICHOST]. *)
Definition numeric_host : Z := 4.

(* sylar/address.cc:239-266, IPAddress::Create *)
Definition ip_Create (address : bytes) (port : Z) : outcome (option Address) :=
  match getaddrinfo address None numeric_host AF_UNSPEC 0 0 with
  | inl _ => Ret None
  | inr [] => Crash null_deref
  | inr (a :: _) =>
      result ← Create a;
      Ret (match result with
           | Some (IPv4Address m) => Some (IPv4Address (setPort4 port m))
           | Some (IPv6Address m) => Some (IPv6Address (setPort6 port m))
           | _ => None
           end)
  end.

(* sylar/address.cc:268-279, IPv4Address::Create *)
Definition ipv4_Create (address : bytes) (port : Z) : option sockaddr_in :=
  match inet_pton AF_INET address with
  | Some l => Some (set_s_addr (of_mem host (char_of <$> l)) (setPort4 port (new_IPv4Address 0 0)))
  | None => None
  end.

(* sylar/address.cc:352-363, IPv6Address::Create *)
Definition ipv6_Create (address : bytes) (port : Z) : option sockaddr_in6 :=
  match inet_pton AF_INET6 address with
  | Some l => Some (set_s6_addr l (setPort6 port new_IPv6Address))
  | None => None
  end.

(* ------------------------------------------------------------------ *)
(** ** Interfaces *)

(** What [getifaddrs] lists: a name, an address and a netmask, either of
    which may be missing.  A multimap is its sequence in order. *)
Definition ifaddr : Type := bytes * option bytes * option bytes.
Definition interfaces : Type := list (bytes * (option Address * Z)).

Fixpoint multimap_insert (k : bytes) (v : option Address * Z) (m : interfaces) : interfaces :=
  match m with
  | [] => [(k, v)]
  | (k', v') :: m' => if bytes_lt k k' then (k, v) :: m else (k', v') :: multimap_insert k v m'
  end.

Fixpoint sum_outcome (l : list (outcome Z)) : outcome Z :=
  match l with [] => Ret 0 | x :: l' => a ← x; b ← sum_outcome l'; Ret (u32 (a + b)) end.

(** The address and prefix length of one entry; a missing address or a
    missing netmask is dereferenced. *)
(* sylar/address.cc:128-148, Address::GetInterfaceAddresses *)
Definition interface_entry (addr netmask : option bytes) : outcome (option Address * Z) :=
  match addr with
  | None => Crash null_deref
  | Some mem =>
      let family := of_mem host (take 2 mem) in
      if family =? AF_INET then
        a ← Create addr;
        match netmask with
        | None => Crash null_deref
        | Some nm => n ← CountBytes (of_mem host (slice 4 4 nm)); Ret (a, n)
        end
      else if family =? AF_INET6 then
        a ← Create addr;
        match netmask with
        | None => Crash null_deref
        | Some nm => n ← sum_outcome (CountBytes <$> (uchar <$> slice 8 16 nm)); Ret (a, n)
        end
      else Ret (None, 2 ^ 32 - 1)
  end.

(* sylar/address.cc:126-154, Address::GetInterfaceAddresses *)
Fixpoint interface_loop (family : Z) (l : list ifaddr) (result : interfaces) : outcome interfaces :=
  match l with
  | [] => Ret result
  | ((name, addr), netmask) :: l' =>
      match addr with
      | None => Crash null_deref
      | Some mem =>
          if negb (family =? AF_UNSPEC) && negb (family =? of_mem host (take 2 mem))
          then interface_loop family l' result
          else
            v ← interface_entry addr netmask;
            interface_loop family l' (match v.1 with Some _ => multimap_insert name v result | None => result end)
      end
  end.

(* sylar/address.cc:115-162, Address::GetInterfaceAddresses *)
Definition GetInterfaceAddresses_all (found : option (list ifaddr)) (family : Z) (result : interfaces) :
    outcome (bool * interfaces) :=
  match found with
  | None => Ret (false, result)
  | Some l => r ← interface_loop family l result; Ret (negb (bool_decide (r = [])), r)
  end.

(* sylar/address.cc:164-186, Address::GetInterfaceAddresses *)
Definition GetInterfaceAddresses (found : option (list ifaddr)) (iface : bytes) (family : Z)
    (result : list (option Address * Z)) : outcome (bool * list (option Address * Z)) :=
  if bool_decide (iface = [] ∨ iface = B "*") then
    Ret (true, result
      ++ (if (family =? AF_INET) || (family =? AF_UNSPEC) then [(Some (IPv4Address (new_IPv4Address 0 0)), 0)] else [])
      ++ (if (family =? AF_INET6) || (family =? AF_UNSPEC) then [(Some (IPv6Address new_IPv6Address), 0)] else []))
  else
    '(ok, results) ← GetInterfaceAddresses_all found family [];
    if negb ok then Ret (false, result)
    else
      let r := result ++ (filter (λ e, e.1 = iface) results).*2 in
      Ret (negb (bool_decide (r = [])), r).
End address.
