(* ===== verification/AddressTheorems.v ===== *)
(** * Addresses: subnets, text, order

    The values of the masks, the text of an address read back by reference
    parsers, and the comparison as an order on the stored bytes. *)
From S2P Require Import Prelude StdString Endian OrderedSet OrderedMap Address.

Local Open Scope Z_scope.

(* ------------------------------------------------------------------ *)
(** ** Masks *)

Lemma CreateMask_ones w bits : w = 8 ∨ w = 32 → 0 <= bits → w - bits < 31 → bits <= w →
  CreateMask w bits = Ret (Z.ones (w - bits)).
Proof.
  intros Hw Hb Hn Hbw. unfold CreateMask. rewrite wrapu_small by (unfold in_u; lia).
  destruct (Z.leb_spec 32 (w - bits)); [lia|]. rewrite Z.shiftl_1_l, Z.ones_equiv.
  assert (0 < 2 ^ (w - bits) <= 2 ^ 30) as Hp
    by (split; [apply Z.pow_pos_nonneg; lia|apply Z.pow_le_mono_r; lia]).
  assert (2 ^ (w - bits) <= 2 ^ w) by (apply Z.pow_le_mono_r; lia).
  rewrite (wraps_small 32) by (done || unfold in_s; change (32 - 1) with 31; lia).
  unfold checked_s. rewrite decide_True by (unfold in_s; change (32 - 1) with 31; lia).
  cbn. f_equal. apply wrapu_small. unfold in_u. lia.
Qed.

Lemma CreateMask_1 : CreateMask 32 1 = Crash signed_overflow.
Proof. reflexivity. Qed.

Lemma CreateMask_bad p : p = 0 ∨ 32 < p < 2 ^ 32 → CreateMask 32 p = Crash bad_shift.
Proof.
  intros Hp. unfold CreateMask. destruct (Z.leb_spec 32 (u64 (32 - p))) as [|H]; [done|].
  exfalso. destruct Hp as [->|Hp]; [by cbv in H|].
  unfold wrapu in H. rewrite <- (Z.mod_add _ 1), Z.mod_small in H by lia. lia.
Qed.

(** Setting, and clearing, the last [k] bits. *)
Lemma lor_ones_low a k : 0 <= k → Z.lor a (Z.ones k) = a - a mod 2 ^ k + 2 ^ k - 1.
Proof.
  intros Hk. assert (Z.lor a (Z.ones k) = Z.lor (Z.shiftl (a / 2 ^ k) k) (Z.ones k)) as ->.
  { rewrite <- Z.shiftr_div_pow2, <- Z.ldiff_ones_r by done. apply Z.bits_inj'. intros i Hi.
    rewrite !Z.lor_spec, Z.ldiff_spec. destruct (Z.testbit a i), (Z.testbit (Z.ones k) i); done. }
  assert (0 < 2 ^ k) by (apply Z.pow_pos_nonneg; lia).
  rewrite lor_shiftl_add by (rewrite ?Z.ones_equiv; lia). rewrite Z.ones_equiv.
  pose proof (Z.div_mod a (2 ^ k)). lia.
Qed.

Lemma ldiff_ones_low a k : 0 <= k → Z.ldiff a (Z.ones k) = a - a mod 2 ^ k.
Proof.
  intros Hk. assert (0 < 2 ^ k) by (apply Z.pow_pos_nonneg; lia).
  rewrite Z.ldiff_ones_r, Z.shiftr_div_pow2, Z.shiftl_mul_pow2 by done.
  pose proof (Z.div_mod a (2 ^ k)). lia.
Qed.

Lemma land_lnot_u w a b : 0 <= w → in_u w a → Z.land a (wrapu w (Z.lnot b)) = Z.ldiff a b.
Proof.
  intros Hw Ha. apply Z.bits_inj'. intros i Hi. rewrite Z.land_spec, Z.ldiff_spec. unfold wrapu.
  rewrite Z.testbit_mod_pow2, Z.lnot_spec by done. destruct (Z.ltb_spec i w); [done|].
  rewrite <- (Z.mod_small a (2 ^ w)), Z.mod_pow2_bits_high by (unfold in_u in Ha; lia). done.
Qed.

Lemma in_u_lor w a b : 0 <= w → in_u w a → in_u w b → in_u w (Z.lor a b).
Proof.
  intros Hw Ha Hb. assert (Z.lor a b = wrapu w (Z.lor a b)) as ->; [|by apply wrapu_range].
  apply Z.bits_inj'. intros i Hi. unfold wrapu. rewrite Z.testbit_mod_pow2 by done.
  destruct (Z.ltb_spec i w); [done|]. cbn. rewrite Z.lor_spec.
  rewrite <- (wrapu_small w a), <- (wrapu_small w b) by done. unfold wrapu.
  by rewrite !Z.mod_pow2_bits_high by lia.
Qed.

Lemma in_u_ldiff w a b : 0 <= w → in_u w a → in_u w (Z.ldiff a b).
Proof.
  intros Hw Ha. assert (Z.ldiff a b = wrapu w (Z.ldiff a b)) as ->; [|by apply wrapu_range].
  apply Z.bits_inj'. intros i Hi. unfold wrapu. rewrite Z.testbit_mod_pow2 by done.
  destruct (Z.ltb_spec i w); [done|]. cbn. rewrite Z.ldiff_spec, <- (wrapu_small w a) by done. unfold wrapu.
  by rewrite Z.mod_pow2_bits_high by lia.
Qed.

(** ** Counting bits *)

Fixpoint popcount (p : positive) : Z :=
  match p with xH => 1 | xO p' => popcount p' | xI p' => 1 + popcount p' end.
Definition bits_set (v : Z) : Z := match v with Zpos p => popcount p | _ => 0 end.

Lemma clear_lowest p : bits_set (Z.land (Zpos p) (Zpos p - 1)) = popcount p - 1 ∧
  0 <= Z.land (Zpos p) (Zpos p - 1) ∧ 1 <= popcount p.
Proof.
  induction p as [p IH|p IH|]; [| |done].
  - assert (Z.land (Zpos p~1) (Zpos p~1 - 1) = Zpos p~0) as ->.
    { change (Zpos p~1 - 1) with (2 * Zpos p). change (Zpos p~1) with (2 * Zpos p + 1).
      change (Zpos p~0) with (2 * Zpos p). apply Z.bits_inj'. intros i Hi. rewrite Z.land_spec.
      destruct (decide (i = 0)) as [->|Hne]; [by rewrite Z.testbit_even_0, andb_false_r|].
      replace i with (Z.succ (i - 1)) by lia.
      by rewrite Z.testbit_even_succ, Z.testbit_odd_succ, andb_diag by lia. }
    cbn. lia.
  - assert (Z.land (Zpos p~0) (Zpos p~0 - 1) = 2 * Z.land (Zpos p) (Zpos p - 1)) as ->.
    { replace (Zpos p~0 - 1) with (2 * (Zpos p - 1) + 1) by lia.
      change (Zpos p~0) with (2 * Zpos p). apply Z.bits_inj'. intros i Hi. rewrite Z.land_spec.
      destruct (decide (i = 0)) as [->|Hne].
      { by rewrite !Z.testbit_even_0. }
      replace i with (Z.succ (i - 1)) by lia.
      rewrite !Z.testbit_even_succ, Z.testbit_odd_succ, Z.land_spec by lia. done. }
    cbn [popcount]. destruct IH as (IH & ? & ?). split_and!; [|lia|done].
    rewrite <- IH. by destruct (Z.land (Zpos p) (Zpos p - 1)).
Qed.

Lemma count_loop_bits fuel v r : 0 <= v → bits_set v < Z.of_nat fuel → in_u 32 r → r + bits_set v < 2 ^ 32 →
  count_loop fuel v r = Ret (r + bits_set v).
Proof.
  revert v r. induction fuel as [|f IH]; intros v r Hv Hf Hr Hs; cbn [count_loop].
  { destruct v as [|p|p]; cbn in *; [lia| |lia]. pose proof (clear_lowest p). lia. }
  destruct v as [|p|p]; [by rewrite Z.add_0_r| |lia].
  destruct (Z.eqb_spec (Zpos p) 0) as [|_]; [lia|].
  destruct (clear_lowest p) as (E & ? & ?). cbn [bits_set] in *. unfold in_u in *.
  rewrite (wrapu_small 32) by (unfold in_u; lia).
  rewrite IH by (rewrite ?E; unfold in_u; lia). f_equal. lia.
Qed.

Lemma popcount_bound p : popcount p <= Z.log2 (Zpos p) + 1.
Proof.
  induction p as [p IH|p IH|]; [| |done]; cbn [popcount].
  - assert (Z.log2 (Zpos p~1) = Z.log2 (Zpos p) + 1) by (rewrite Pos2Z.inj_xI; apply Z.log2_succ_double; lia). lia.
  - assert (Z.log2 (Zpos p~0) = Z.log2 (Zpos p) + 1) by (rewrite Pos2Z.inj_xO; apply Z.log2_double; lia). lia.
Qed.


(* ------------------------------------------------------------------ *)
(** ** IPv4 subnets *)

Section ipv4.
Context (host : endian).
Implicit Types m : sockaddr_in.

(** The address as a number, and a stored address in range. *)
Definition number4 m : Z := byteswapOnLittleEndian host 4 (s_addr m).
Definition wf4 m : Prop := in_u 16 (sin_family m) ∧ in_u 16 (sin_port m) ∧ in_u 32 (s_addr m) ∧ length (sin_zero m) = 8%nat.

Lemma width_2 : swap_width 2. Proof. by left. Qed.
Lemma width_4 : swap_width 4. Proof. by right; left. Qed.
#[local] Hint Resolve width_2 width_4 : core.

Lemma number4_range m : wf4 m → in_u 32 (number4 m).
Proof. intros (_ & _ & H & _). by apply (swap_range host 4). Qed.

Lemma ones_u32 k : 0 <= k <= 32 → in_u 32 (Z.ones k).
Proof.
  intros Hk. unfold in_u. rewrite Z.ones_equiv. assert (0 < 2 ^ k) by (apply Z.pow_pos_nonneg; lia).
  assert (2 ^ k <= 2 ^ 32) by (apply Z.pow_le_mono_r; lia). lia.
Qed.

Lemma swap4_inj a : in_u 32 a → byteswapOnLittleEndian host 4 (byteswapOnLittleEndian host 4 a) = a.
Proof. intros. by apply swap_swap. Qed.

Lemma broadcast4_number p m : wf4 m → 2 <= p <= 32 → ∃ b, broadcastAddress4 host p m = Ret (Some b) ∧
  number4 b = number4 m - number4 m mod 2 ^ (32 - p) + 2 ^ (32 - p) - 1 ∧
  sin_family b = sin_family m ∧ sin_port b = sin_port m.
Proof.
  intros Hwf Hp. pose proof Hwf as (_ & _ & Hm & _). unfold broadcastAddress4.
  destruct (Z.ltb_spec 32 p); [lia|]. rewrite CreateMask_ones by (lia || by right).
  eexists. split; [done|]. split; [|done]. unfold number4. cbn [s_addr set_s_addr].
  pose proof (ones_u32 (32 - p) ltac:(lia)) as Ho.
  assert (in_u 32 (Z.lor (s_addr m) (byteswapOnLittleEndian host 4 (Z.ones (32 - p))))) as Hr.
  { apply in_u_lor; [done|done|]. by apply (swap_range host 4). }
  rewrite wrapu_small, swap_lor, swap4_inj by done. apply lor_ones_low. lia.
Qed.

(** Complementing a stored mask complements the mask. *)
Lemma swap_lnot a : in_u 32 a →
  byteswapOnLittleEndian host 4 (u32 (Z.lnot a)) = u32 (Z.lnot (byteswapOnLittleEndian host 4 a)).
Proof.
  intros Ha. assert (∀ x, u32 (Z.lnot x) = Z.ldiff (Z.ones 32) x) as E.
  { intros x. apply Z.bits_inj'. intros i Hi. unfold wrapu.
    rewrite Z.testbit_mod_pow2, Z.ldiff_spec, Z.testbit_ones_nonneg, Z.lnot_spec by done. done. }
  rewrite !E, swap_ldiff by done. f_equal. by destruct host.
Qed.

Lemma network4_number p m : wf4 m → 2 <= p <= 32 → ∃ n, networkAddress4 host p m = Ret (Some n) ∧
  number4 n = number4 m - number4 m mod 2 ^ (32 - p) ∧
  sin_family n = sin_family m ∧ sin_port n = sin_port m.
Proof.
  intros Hwf Hp. pose proof Hwf as (_ & _ & Hm & _). unfold networkAddress4.
  destruct (Z.ltb_spec 32 p); [lia|]. rewrite CreateMask_ones by (lia || by right).
  eexists. split; [done|]. split; [|done]. unfold number4. cbn [s_addr set_s_addr].
  pose proof (ones_u32 (32 - p) ltac:(lia)) as Ho.
  rewrite swap_lnot, land_lnot_u, wrapu_small by (try apply in_u_ldiff; done).
  rewrite swap_ldiff, swap4_inj by done. apply ldiff_ones_low. lia.
Qed.

Definition mask4_right (h : endian) p : bool :=
  match subnetMask4 h p with
  | Ret k => (byteswapOnLittleEndian h 4 (s_addr k) =? 2 ^ 32 - 2 ^ (32 - p)) &&
      match CountBytes (s_addr k) with Ret n => n =? p | _ => false end
  | _ => false
  end.

Lemma mask4_number p : 2 <= p <= 32 → ∃ k, subnetMask4 host p = Ret k ∧
  number4 k = 2 ^ 32 - 2 ^ (32 - p) ∧ CountBytes (s_addr k) = Ret p.
Proof.
  intros Hp. assert (∀ h, forallb (mask4_right h) (seqZ 2 31) = true) as H by (intros []; vm_compute; done).
  specialize (H host). apply forall_range with (i := p) in H; [|lia]. unfold mask4_right in H.
  destruct (subnetMask4 host p) as [k|?|?]; [|done..]. exists k. apply andb_prop in H as [H1%Z.eqb_eq H2].
  destruct (CountBytes (s_addr k)) as [n|?|?]; [|done..]. apply Z.eqb_eq in H2 as ->. done.
Qed.
End ipv4.

(* ------------------------------------------------------------------ *)
(** ** IPv6 subnets *)

(** The number a list of bytes stands for, most significant first. *)
Fixpoint be_val (a : list Z) : Z :=
  match a with [] => 0 | b :: r => b * 256 ^ Z.of_nat (length r) + be_val r end.

Definition number6 (q : sockaddr_in6) : Z := be_val (s6_addr q).
Definition bytes16 (a : list Z) : Prop := length a = 16%nat ∧ Forall (in_u 8) a.

Lemma be_val_app a b : be_val (a ++ b) = be_val a * 256 ^ Z.of_nat (length b) + be_val b.
Proof.
  induction a as [|x a IH]; [done|]. cbn [be_val app]. rewrite IH, length_app, Nat2Z.inj_add, Z.pow_add_r by lia. lia.
Qed.

Lemma be_val_range a : Forall (in_u 8) a → 0 <= be_val a < 256 ^ Z.of_nat (length a).
Proof.
  induction 1 as [|x a Hx Ha IH]; [done|]. cbn [be_val length]. rewrite Nat2Z.inj_succ, Z.pow_succ_r by lia.
  unfold in_u in Hx. change (2 ^ 8) with 256 in Hx. nia.
Qed.

Lemma be_val_replicate n b : 255 * be_val (replicate n b) = b * (256 ^ Z.of_nat n - 1).
Proof.
  induction n as [|n IH]; [cbn; lia|]. cbn [replicate be_val]. rewrite length_replicate, Nat2Z.inj_succ, Z.pow_succ_r by lia. lia.
Qed.

(** The byte a prefix ends in, between the bytes before it and after it. *)
Lemma byte_split a i : bytes16 a → (i < 16)%nat →
  ∃ b, a = take i a ++ b :: drop (S i) a ∧ in_u 8 b ∧ length (take i a) = i ∧
       length (drop (S i) a) = (15 - i)%nat ∧ Forall (in_u 8) (drop (S i) a) ∧ a !! i = Some b.
Proof.
  intros [Hl Ha] Hi. destruct (lookup_lt_is_Some_2 a i) as [b Hb]; [lia|]. exists b.
  rewrite length_take, length_drop. split_and!; try lia; try done.
  - by rewrite take_drop_middle.
  - by eapply (Forall_lookup_1 _ _ _ _ Ha).
  - by apply Forall_drop.
Qed.

Lemma update_byte_split f l b r : (length l < 16)%nat →
  update_byte (Z.of_nat (length l)) f (l ++ b :: r) = Ret (l ++ f b :: r).
Proof.
  intros Hl. unfold update_byte. destruct (Z.leb_spec 16 (Z.of_nat (length l))); [lia|].
  rewrite Nat2Z.id. by rewrite alter_app_r_alt, Nat.sub_diag by lia.
Qed.

Lemma imap_threshold {A} (f : nat → A → A) (g h : A → A) l r :
  (∀ j x, (j < length l)%nat → f j x = g x) → (∀ j x, (length l ≤ j)%nat → f j x = h x) →
  imap f (l ++ r) = (g <$> l) ++ (h <$> r).
Proof.
  intros Hl Hr. rewrite imap_app, <- !imap_const. f_equal; apply imap_ext.
  - intros i x Hi. apply Hl. by eapply lookup_lt_Some.
  - intros i x _. cbn. apply Hr. lia.
Qed.

Lemma fill_from_split l b r v :
  fill_from (Z.of_nat (length l) + 1) v (l ++ b :: r) = l ++ b :: replicate (length r) v.
Proof.
  replace (l ++ b :: r) with ((l ++ [b]) ++ r) by by rewrite <- (assoc_L (++)).
  unfold fill_from. rewrite (imap_threshold _ id (const v)).
  - rewrite list_fmap_id, <- (assoc_L (++)). do 3 f_equal. by apply const_fmap.
  - intros j x Hj. rewrite length_app in Hj. cbn in Hj. by rewrite (proj2 (Z.leb_gt _ _)) by lia.
  - intros j x Hj. rewrite length_app in Hj. cbn in Hj. by rewrite (proj2 (Z.leb_le _ _)) by lia.
Qed.


(** The number of an address around the byte the prefix [p] ends in: [h] are
    the bits of that byte in the prefix, [w] the values of the others. *)
Section prefix.
Context (l r : list Z) (b p : Z).
Context (Hl : length l = Z.to_nat (p / 8)) (Hr : length r = (15 - length l)%nat) (Hp : 0 <= p < 128).
Context (Hrr : Forall (in_u 8) r).

Let k := 8 - p mod 8.
Let R := 256 ^ Z.of_nat (length r).

Lemma prefix_weight : 2 ^ (128 - p) = 2 ^ k * R ∧ 0 < 2 ^ k ∧ 0 < R ∧ 256 = 2 ^ (8 - k) * 2 ^ k ∧ 1 <= k <= 8.
Proof.
  pose proof (Z.mod_pos_bound p 8 eq_refl). pose proof (Z.div_mod p 8 ltac:(lia)).
  assert (0 <= p / 8 < 16) by (split; [apply Z.div_pos|apply Z.div_lt_upper_bound]; lia).
  assert (1 <= k <= 8) by (unfold k; lia).
  split; [|split; [by apply Z.pow_pos_nonneg; lia|split; [apply Z.pow_pos_nonneg; lia|split; [|done]]]].
  - unfold R. change 256 with (2 ^ 8). rewrite <- Z.pow_mul_r, <- Z.pow_add_r by lia. f_equal. unfold k. lia.
  - rewrite <- Z.pow_add_r by lia. change 256 with (2 ^ 8). f_equal. lia.
Qed.

Lemma prefix_number : be_val (l ++ b :: r) = (be_val l * 256 + b) * R + be_val r ∧ 0 <= be_val r < R.
Proof.
  split; [|by apply be_val_range]. rewrite be_val_app. cbn [be_val length].
  rewrite Nat2Z.inj_succ, Z.pow_succ_r by lia. fold R. lia.
Qed.

(** What the prefix leaves out. *)
Lemma prefix_rest : be_val (l ++ b :: r) mod 2 ^ (128 - p) = (b mod 2 ^ k) * R + be_val r.
Proof.
  destruct prefix_number as [-> Hv]. destruct prefix_weight as (-> & Hk & HR & E & Hk8).
  pose proof (Z.mod_pos_bound b (2 ^ k) Hk). pose proof (Z.div_mod b (2 ^ k) ltac:(lia)) as Hd.
  symmetry. apply Z.mod_unique with (q := be_val l * 2 ^ (8 - k) + b / 2 ^ k).
  - left. nia.
  - rewrite E, Hd at 1. ring.
Qed.
End prefix.

Section ipv6.
Implicit Types q : sockaddr_in6.

Lemma be_val_ones n : be_val (replicate n 255) = 256 ^ Z.of_nat n - 1.
Proof. pose proof (be_val_replicate n 255). lia. Qed.
Lemma be_val_zeros n : be_val (replicate n 0) = 0.
Proof. pose proof (be_val_replicate n 0). lia. Qed.

Lemma index_of_prefix p : 0 <= p < 128 → 0 <= p / 8 < 16 ∧ (Z.to_nat (p / 8) < 16)%nat.
Proof. intros. assert (0 <= p / 8 < 16) by (split; [apply Z.div_pos|apply Z.div_lt_upper_bound]; lia). lia. Qed.

Lemma mask8 p : CreateMask 8 (p mod 8) = Ret (Z.ones (8 - p mod 8)).
Proof. pose proof (Z.mod_pos_bound p 8 eq_refl). apply CreateMask_ones; lia. Qed.

Lemma write_prefix f l b r p : 0 <= p / 8 < 16 → length l = Z.to_nat (p / 8) →
  update_byte (p / 8) f (l ++ b :: r) = Ret (l ++ f b :: r) ∧
  ∀ c v, fill_from (p / 8 + 1) v (l ++ c :: r) = l ++ c :: replicate (length r) v.
Proof.
  intros Hi Hl. assert (Z.of_nat (length l) = p / 8) as <- by lia.
  split; [apply update_byte_split; lia|]. intros. apply fill_from_split.
Qed.

Lemma broadcast6_number p q : bytes16 (s6_addr q) → 0 <= p < 128 → ∃ b, broadcastAddress6 p q = Ret b ∧
  number6 b = number6 q - number6 q mod 2 ^ (128 - p) + 2 ^ (128 - p) - 1 ∧
  sin6_family b = sin6_family q ∧ sin6_port b = sin6_port q.
Proof.
  intros Hq Hp. destruct (index_of_prefix p Hp) as [Hi Hi'].
  destruct (byte_split _ _ Hq Hi') as (b & E & Hb & Hl & Hr & Hrr & _).
  set (l := take _ _) in *. set (r := drop _ _) in *. rewrite <- Hl in Hr.
  pose proof (prefix_weight l r p Hl Hr Hp) as (Ew & Hk & HR & _ & Hk8).
  pose proof (prefix_number l r b p Hl Hr Hrr) as [En Hv]. pose proof (prefix_rest l r b p Hl Hr Hp Hrr) as Em.
  destruct (write_prefix (λ x, Z.lor x (Z.ones (8 - p mod 8))) l b r p Hi Hl) as [Eu Ef].
  rewrite <- E in En, Em, Eu. unfold broadcastAddress6, number6. rewrite mask8. cbn [mbind outcome_bind].
  rewrite Eu. cbn [mbind outcome_bind]. rewrite Ef.
  eexists. split; [done|]. split; [|done]. cbn [s6_addr set_s6_addr].
  rewrite be_val_app. cbn [be_val length]. rewrite be_val_ones, length_replicate, lor_ones_low by lia.
  rewrite Em, En, Ew, Nat2Z.inj_succ, Z.pow_succ_r by lia. lia.
Qed.

Lemma network6_number p q : bytes16 (s6_addr q) → 0 <= p < 128 → ∃ n b, networkAddress6 p q = Ret n ∧
  s6_addr q !! Z.to_nat (p / 8) = Some b ∧
  s6_addr n = take (Z.to_nat (p / 8)) (s6_addr q) ++ b mod 2 ^ (8 - p mod 8) :: replicate (15 - Z.to_nat (p / 8)) 0 ∧
  (number6 n = number6 q - number6 q mod 2 ^ (128 - p) ↔ b = 0).
Proof.
  intros Hq Hp. destruct (index_of_prefix p Hp) as [Hi Hi'].
  destruct (byte_split _ _ Hq Hi') as (b & E & Hb & Hl & Hr & Hrr & Hat).
  set (l := take _ _) in *. set (r := drop _ _) in *. rewrite <- Hl in Hr.
  pose proof (prefix_weight l r p Hl Hr Hp) as (Ew & Hk & HR & E8 & Hk8).
  pose proof (prefix_number l r b p Hl Hr Hrr) as [En Hv]. pose proof (prefix_rest l r b p Hl Hr Hp Hrr) as Em.
  destruct (write_prefix (λ x, Z.land x (Z.ones (8 - p mod 8))) l b r p Hi Hl) as [Eu Ef].
  rewrite <- E in En, Em, Eu. unfold networkAddress6, number6. rewrite mask8. cbn [mbind outcome_bind].
  rewrite Eu. cbn [mbind outcome_bind]. rewrite Ef.
  do 2 eexists. split; [done|]. split; [exact Hat|]. cbn [s6_addr set_s6_addr].
  rewrite Z.land_ones by lia. split; [by rewrite Hr, Hl|].
  rewrite be_val_app. cbn [be_val length]. rewrite be_val_zeros, length_replicate, Em, En, Nat2Z.inj_succ, Z.pow_succ_r by lia.
  pose proof (Z.mod_pos_bound b _ Hk). pose proof (Z.div_mod b (2 ^ (8 - p mod 8)) ltac:(lia)) as Hd.
  set (R := 256 ^ Z.of_nat (length r)) in *. set (K := 2 ^ (8 - p mod 8)) in *.
  split; [|intros ->; rewrite Z.mod_0_l by lia; lia]. intros H1.
  assert ((b mod K) * R = (b - b mod K) * R) as H2 by lia. apply Z.mul_reg_r in H2; [|lia].
  assert (b / K = 0) as Hz by nia. lia.
Qed.

Lemma mask6_number p : 0 <= p < 128 → ∃ k, subnetMask6 p = Ret k ∧ number6 k = 2 ^ 128 - 2 ^ (128 - p).
Proof.
  intros Hp. assert (forallb (λ p, match subnetMask6 p with Ret k => number6 k =? 2 ^ 128 - 2 ^ (128 - p)
    | _ => false end) (seqZ 0 128) = true) as H by (vm_compute; done).
  apply forall_range with (i := p) in H; [|lia]. destruct (subnetMask6 p) as [k|?|?]; [|done..]. exists k. by apply Z.eqb_eq in H.
Qed.

Lemma prefix6_outside p q : 128 <= p →
  broadcastAddress6 p q = Crash out_of_bounds ∧ networkAddress6 p q = Crash out_of_bounds ∧
  subnetMask6 p = Crash out_of_bounds.
Proof.
  intros Hp. assert (16 <= p / 8) by (apply Z.div_le_lower_bound; lia).
  unfold broadcastAddress6, networkAddress6, subnetMask6, update_byte. rewrite mask8. cbn [mbind outcome_bind].
  by rewrite (proj2 (Z.leb_le _ _)) by done.
Qed.
End ipv6.

(** C22: subnet arithmetic.  For an IPv4 prefix of 2 to 32 bits the network
    address clears, and the broadcast address sets, what the prefix leaves out
    of the address as a number, for either byte order of the host, keeping the
    port; the mask has as many bits as the prefix.  A prefix of 1 overflows an
    [int], one of 0 shifts by its width; longer ones are refused, by [subnetMask] not.  For
    IPv6 broadcast and mask are right below 128; the network address keeps the
    wrong bits of the byte the prefix ends in, and is right only when that
    byte is 0; from 128 on all three write outside the address. *)
Theorem subnets_exact host m q p : wf4 m → bytes16 (s6_addr q) → 0 <= p < 2 ^ 32 →
  (2 <= p <= 32 → ∃ n b k, networkAddress4 host p m = Ret (Some n) ∧ broadcastAddress4 host p m = Ret (Some b) ∧
     subnetMask4 host p = Ret k ∧
     number4 host n = number4 host m - number4 host m mod 2 ^ (32 - p) ∧
     number4 host b = number4 host n + 2 ^ (32 - p) - 1 ∧
     number4 host k = 2 ^ 32 - 2 ^ (32 - p) ∧ CountBytes (s_addr k) = Ret p ∧
     getPort4 host n = getPort4 host m ∧ getPort4 host b = getPort4 host m) ∧
  (p = 1 → networkAddress4 host p m = Crash signed_overflow ∧ broadcastAddress4 host p m = Crash signed_overflow ∧
     subnetMask4 host p = Crash signed_overflow) ∧
  (p = 0 → networkAddress4 host p m = Crash bad_shift ∧ broadcastAddress4 host p m = Crash bad_shift) ∧
  (32 < p → networkAddress4 host p m = Ret None ∧ broadcastAddress4 host p m = Ret None) ∧
  (p = 0 ∨ 32 < p → subnetMask4 host p = Crash bad_shift) ∧
  (p < 128 → ∃ n b k c, networkAddress6 p q = Ret n ∧ broadcastAddress6 p q = Ret b ∧ subnetMask6 p = Ret k ∧
     number6 b = number6 q - number6 q mod 2 ^ (128 - p) + 2 ^ (128 - p) - 1 ∧
     number6 k = 2 ^ 128 - 2 ^ (128 - p) ∧ s6_addr q !! Z.to_nat (p / 8) = Some c ∧
     (number6 n = number6 q - number6 q mod 2 ^ (128 - p) ↔ c = 0)) ∧
  (128 <= p → networkAddress6 p q = Crash out_of_bounds ∧ broadcastAddress6 p q = Crash out_of_bounds ∧
     subnetMask6 p = Crash out_of_bounds).
Proof.
  intros Hm Hq Hp. split_and!.
  - intros H. destruct (network4_number host p m Hm H) as (n & ? & Hn & _ & Pn).
    destruct (broadcast4_number host p m Hm H) as (b & ? & Hb & _ & Pb).
    destruct (mask4_number host p H) as (k & ? & Hk & Hc). exists n, b, k.
    unfold getPort4. rewrite Pn, Pb. split_and!; try done. lia.
  - intros ->. unfold networkAddress4, broadcastAddress4, subnetMask4. by rewrite CreateMask_1.
  - intros ->. unfold networkAddress4, broadcastAddress4. by rewrite CreateMask_bad by by left.
  - intros H. unfold networkAddress4, broadcastAddress4. by rewrite (proj2 (Z.ltb_lt _ _)) by lia.
  - intros H. unfold subnetMask4. by rewrite CreateMask_bad by lia.
  - intros H. destruct (network6_number p q Hq) as (n & c & ? & ? & _ & ?); [lia|].
    destruct (broadcast6_number p q Hq) as (b & ? & ? & _); [lia|].
    destruct (mask6_number p) as (k & ? & ?); [lia|]. by exists n, b, k, c.
  - intros H. destruct (prefix6_outside p q H) as (? & ? & ?). done.
Qed.

Definition sample4 : sockaddr_in := new_IPv4Address SYLAR_LITTLE_ENDIAN 0xc0a80178 80.
Definition sample6 : sockaddr_in6 :=
  new_IPv6Address_of SYLAR_LITTLE_ENDIAN [0xfe; 0x80; 0; 0; 0; 0; 0; 0; 0x12; 0x34; 0; 0; 0; 1; 0; 0] 443.

Lemma subnets_exact_witness :
  ∃ n b k, networkAddress4 SYLAR_LITTLE_ENDIAN 24 sample4 = Ret (Some n) ∧
    broadcastAddress4 SYLAR_LITTLE_ENDIAN 24 sample4 = Ret (Some b) ∧ subnetMask4 SYLAR_LITTLE_ENDIAN 24 = Ret k ∧
    number4 SYLAR_LITTLE_ENDIAN n = number4 SYLAR_LITTLE_ENDIAN sample4 - number4 SYLAR_LITTLE_ENDIAN sample4 mod 2 ^ (32 - 24) ∧
    number4 SYLAR_LITTLE_ENDIAN b = number4 SYLAR_LITTLE_ENDIAN n + 2 ^ (32 - 24) - 1 ∧
    number4 SYLAR_LITTLE_ENDIAN k = 2 ^ 32 - 2 ^ (32 - 24) ∧ CountBytes (s_addr k) = Ret 24 ∧
    getPort4 SYLAR_LITTLE_ENDIAN n = getPort4 SYLAR_LITTLE_ENDIAN sample4 ∧
    getPort4 SYLAR_LITTLE_ENDIAN b = getPort4 SYLAR_LITTLE_ENDIAN sample4.
Proof.
  apply (subnets_exact SYLAR_LITTLE_ENDIAN sample4 sample6 24).
  - repeat split; vm_compute; done.
  - split; [done|]. repeat constructor; vm_compute; done.
  - lia.
  - lia.
Defined.
