(* ===== verification/AddressText.v ===== *)
(** * Addresses as text

    Reference parsers for the two textual forms (dotted decimal; groups of
    hexadecimal digits with one gap), and the round trip: what [toString]
    prints is split by [Lookup] into address and port and read back as the
    address it was printed from. *)
From S2P Require Import Prelude StdString Endian Address AddressTheorems.

Local Open Scope Z_scope.

(* ------------------------------------------------------------------ *)
(** ** Fields between separators *)

Fixpoint fields (sep : ascii) (s : bytes) : list bytes :=
  match s with
  | [] => [[]]
  | c :: r =>
      if Ascii.eqb c sep then [] :: fields sep r
      else match fields sep r with f :: fs => (c :: f) :: fs | [] => [[c]] end
  end.

Definition sep_all (sep : ascii) (l : list bytes) : bytes := l ≫= (λ f, sep :: f).
Definition join (sep : ascii) (l : list bytes) : bytes :=
  match l with [] => [] | x :: l' => x ++ sep_all sep l' end.


Lemma fields_app sep f s : sep ∉ f → fields sep (f ++ sep :: s) = f :: fields sep s.
Proof.
  induction f as [|c f IH]; intros Hf; cbn [app fields].
  - by rewrite ascii_eqb_refl.
  - rewrite ascii_eqb_neq by set_solver. by rewrite IH by set_solver.
Qed.

Lemma fields_one sep f : sep ∉ f → fields sep f = [f].
Proof.
  induction f as [|c f IH]; intros Hf; cbn [fields]; [done|].
  rewrite ascii_eqb_neq by set_solver. by rewrite IH by set_solver.
Qed.

Lemma fields_sep_all sep x l : Forall (λ f, sep ∉ f) (x :: l) → fields sep (x ++ sep_all sep l) = x :: l.
Proof.
  revert x. induction l as [|y l IH]; intros x [Hx Hl]%Forall_cons; cbn.
  - rewrite app_nil_r. by apply fields_one.
  - rewrite fields_app by done. f_equal. by apply IH.
Qed.

Lemma fields_join sep l : l ≠ [] → Forall (λ f, sep ∉ f) l → fields sep (join sep l) = l.
Proof. destruct l as [|x l]; [done|]. intros _ H. by apply fields_sep_all. Qed.

Lemma fields_join_app sep l s : l ≠ [] → Forall (λ f, sep ∉ f) l →
  fields sep (join sep l ++ sep :: s) = l ++ fields sep s.
Proof.
  destruct l as [|x l]; [done|]. intros _. cbn [join]. revert x.
  induction l as [|y l IH]; intros x [Hx Hl]%Forall_cons; cbn.
  - rewrite app_nil_r. by apply fields_app.
  - rewrite <- (assoc_L (++)). cbn. rewrite fields_app by done. f_equal. by apply IH.
Qed.

(* ------------------------------------------------------------------ *)
(** ** Reference parsers *)

Definition dec_field (f : bytes) : option Z :=
  if negb (bool_decide (f = [])) && forallb isdigit f && (length f <=? 3)%nat && (dec_val f <? 256)
     && (bool_decide (f = B "0") || negb (bool_decide (head f = Some "0"%char)))
  then Some (dec_val f) else None.

Definition hex_digit (c : ascii) : Z := if isdigit c then uchar c - 48 else uchar (tolower c) - 87.
Definition hex_val (f : bytes) : Z := fold_left (λ a c, 16 * a + hex_digit c) f 0.
Definition hex_field (f : bytes) : option Z :=
  if negb (bool_decide (f = [])) && forallb isxdigit f && (length f <=? 4)%nat then Some (hex_val f) else None.

(** [a.b.c.d]. *)
Definition parse4 (s : bytes) : option (list Z) :=
  match mapM dec_field (fields "." s) with
  | Some [a; b; c; d] => Some [a; b; c; d]
  | _ => None
  end.

(** The fields before the first empty one, and those after it. *)
Fixpoint cut_empty (fs : list bytes) : list bytes * option (list bytes) :=
  match fs with
  | [] => ([], None)
  | [] :: r => ([], Some r)
  | f :: r => let '(a, b) := cut_empty r in (f :: a, b)
  end.

Definition groups_of (fs : list bytes) : option (list Z) :=
  match cut_empty fs with
  | (a, None) => l ← mapM hex_field a; if (length l =? 8)%nat then Some l else None
  | (a, Some b) =>
      b ← match a, b with [], [] :: b' => Some b' | [], _ => None | _, _ => Some b end;
      if bool_decide (b = []) then None else
      l1 ← mapM hex_field a;
      l2 ← mapM hex_field (if bool_decide (b = [[]]) then [] else b);
      if (length l1 + length l2 <=? 7)%nat
      then Some (l1 ++ replicate (8 - length l1 - length l2) 0 ++ l2) else None
  end.

(** [g:g:...:g], or [g:...::g:...] with one gap for a run of zero groups:
    an empty field stands only for the two colons of the gap. *)
Definition parse6 (s : bytes) : option (list Z) :=
  gs ← groups_of (fields ":" s); Some (gs ≫= (λ g, [g / 256; g mod 256])).

(** The forms without a gap, with one, and what is not an address. *)
Example parse6_forms :
  (parse6 (B "1:2:3:4:5:6:7:8"), parse6 (B "::"), parse6 (B "1::"), parse6 (B "fe80::1:2"))
  = (Some [0; 1; 0; 2; 0; 3; 0; 4; 0; 5; 0; 6; 0; 7; 0; 8], Some (replicate 16 0),
     Some ([0; 1] ++ replicate 14 0), Some ([254; 128] ++ replicate 10 0 ++ [0; 1; 0; 2])).
Proof. vm_compute. reflexivity. Qed.

Example parse6_refusals :
  parse6 <$> [B ""; B ":"; B "1:"; B ":1"; B "1:2:3:4:5:6:7:"; B ":2:3:4:5:6:7:8"; B ":::"; B "1:::2";
              B "1::2:"; B "1::2::3"; B "1:2:3:4:5:6:7"; B "1:2:3:4:5:6:7:8:9"; B "1:2:3:4::5:6:7:8";
              B "12345::"; B "g::"]
  = replicate 15 None.
Proof. vm_compute. reflexivity. Qed.

(** ** Fields of printed numbers *)

Lemma dec_field_to_string n : 0 <= n < 256 → dec_field (to_string n) = Some n.
Proof.
  intros Hn. assert (forallb (λ n, bool_decide (dec_field (to_string n) = Some n)) (seqZ 0 256) = true) as H
    by (vm_compute; done).
  apply forall_range with (i := n) in H; [|lia]. by apply bool_decide_eq_true in H.
Qed.

#[local] Arguments to_hex : simpl never.

Lemma hex_char_digit d : 0 <= d < 16 → hex_digit (hex_char d) = d ∧ isxdigit (hex_char d) = true.
Proof.
  intros Hd. assert (forallb (λ d, (hex_digit (hex_char d) =? d) && isxdigit (hex_char d)) (seqZ 0 16) = true) as H
    by (vm_compute; done).
  apply forall_range with (i := d) in H; [|lia]. by apply andb_prop in H as [->%Z.eqb_eq ->].
Qed.

Lemma hex_rev_spec fuel n k : 0 <= n < 16 ^ Z.of_nat k → (1 ≤ k ≤ fuel)%nat →
  hex_val (reverse (hex_rev fuel n)) = n ∧ forallb isxdigit (hex_rev fuel n) = true ∧
  (1 ≤ length (hex_rev fuel n) ≤ k)%nat.
Proof.
  revert n k. induction fuel as [|f IH]; intros n k Hn Hk; [lia|]. cbn [hex_rev].
  pose proof (Z.mod_pos_bound n 16 eq_refl). pose proof (Z.div_mod n 16 ltac:(lia)).
  destruct (hex_char_digit (n mod 16)) as [Hd Hx]; [lia|].
  destruct (Z.eqb_spec (n / 16) 0) as [E|E].
  - unfold reverse, hex_val. cbn. rewrite Hd, Hx. split; [lia|]. split; [done|lia].
  - destruct k as [|[|k]]; [lia|cbn in Hn; lia|]. rewrite Nat2Z.inj_succ, Z.pow_succ_r in Hn by lia.
    destruct (IH (n / 16) (S k)) as (Hv & Hxs & Hl); [lia|lia|].
    rewrite reverse_cons. unfold hex_val in *. rewrite fold_left_app, Hv. cbn. rewrite Hd, Hx.
    split; [lia|]. split; [done|lia].
Qed.

Lemma hex_field_to_hex n : 0 <= n < 65536 → hex_field (to_hex n) = Some n.
Proof.
  intros Hn. unfold to_hex. destruct (hex_rev_spec 8 n 4) as (Hv & Hx & Hl); [done|lia|].
  unfold hex_field. rewrite Hv, length_reverse, (proj2 (Nat.leb_le _ _)) by lia.
  rewrite bool_decide_eq_false_2 by (intros E; apply (f_equal length) in E; rewrite length_reverse in E; cbn in E; lia).
  assert (forallb isxdigit (reverse (hex_rev 8 n)) = true) as ->; [|done].
  apply forallb_forall. intros c Hc. rewrite forallb_forall in Hx. apply Hx.
  by rewrite <- list_elem_of_In, elem_of_reverse, list_elem_of_In in *.
Qed.

Lemma hex_field_chars f n c : hex_field f = Some n → c ∈ f → isxdigit c = true.
Proof.
  unfold hex_field. destruct (_ && _ && _) eqn:E; [|done]. intros _ Hc.
  apply andb_prop in E as [[_ E]%andb_prop _]. rewrite forallb_forall in E. by apply E, list_elem_of_In.
Qed.

Lemma hex_field_nonempty f n : hex_field f = Some n → f ≠ [].
Proof. by intros H ->. Qed.

(* ------------------------------------------------------------------ *)
(** ** What [insert] prints for IPv6 *)

Section text6.
Context (host : endian).
Local Abbreviation swap := (byteswapOnLittleEndian host).

(** [insert_loop] by recursion on the groups left; [prev] is the group
    before. *)
Fixpoint walk (prev : option Z) (todo : list Z) (used : bool) : bytes * bool :=
  match todo with
  | [] => ([], used)
  | a :: todo =>
      if (a =? 0) && negb used then walk (Some a) todo used
      else
        let gap := match prev with Some p => (p =? 0) && negb used | None => false end in
        let '(t, u) := walk (Some a) todo (used || gap) in
        ((if gap then B ":" else []) ++ (match prev with Some _ => B ":" | None => [] end) ++ to_hex (swap 2 a) ++ t, u)
  end.

Lemma insert_loop_walk before todo os used :
  insert_loop host (before ++ todo) (length todo) (length before) os used
  = (os ++ (walk (last before) todo used).1, (walk (last before) todo used).2).
Proof.
  revert before os used. induction todo as [|a todo IH]; intros before os used; cbn [insert_loop walk length].
  { by rewrite app_nil_r. }
  assert (nth (length before) (before ++ a :: todo) 0 = a) as -> by apply nth_middle.
  assert (∀ os used, insert_loop host (before ++ a :: todo) (length todo) (S (length before)) os used
    = (os ++ (walk (Some a) todo used).1, (walk (Some a) todo used).2)) as IH'.
  { intros os' used'. specialize (IH (before ++ [a]) os' used').
    rewrite last_snoc, length_app, <- (assoc_L (++)), Nat.add_1_r in IH. exact IH. }
  destruct ((a =? 0) && negb used); [apply IH'|]. rewrite IH'.
  destruct (list_eq_nil_dec before) as [->|Hne]; [|].
  - cbn. rewrite orb_false_r. destruct (walk (Some a) todo used). cbn. by rewrite <- (assoc_L (++)).
  - destruct (exists_last Hne) as (b0 & p & ->). rewrite last_snoc, length_app. cbn [length].
    rewrite (proj2 (Nat.ltb_lt 0 _)) by lia. rewrite Nat.add_sub.
    assert (nth (length b0) ((b0 ++ [p]) ++ a :: todo) 0 = p) as ->
      by (rewrite <- (assoc_L (++)); apply nth_middle).
    cbn [andb]. set (gap := (p =? 0) && negb used).
    destruct (walk (Some a) todo (used || gap)). cbn. destruct gap; by rewrite <- ?(assoc_L (++)).
Qed.

Definition hex_all (l : list Z) : list bytes := (λ a, to_hex (swap 2 a)) <$> l.
Definition colons (l : list Z) : bytes := sep_all ":" (hex_all l).

Lemma walk_used p l : walk (Some p) l true = (colons l, true).
Proof.
  revert p. induction l as [|a l IH]; intros p; [done|]. cbn [walk]. rewrite !andb_false_r. cbn [orb].
  rewrite IH. done.
Qed.

Lemma walk_zeros l : ∃ k r, l = replicate k 0 ++ r ∧ head r ≠ Some 0 ∧
  walk (Some 0) l false = match r with [] => ([], false) | _ => (":"%char :: colons r, true) end.
Proof.
  induction l as [|a l (k & r & E & Hr & IH)]; [by exists 0%nat, []|].
  destruct (Z.eqb_spec a 0) as [->|Ha].
  - exists (S k), r. split; [by rewrite E|]. split; [done|]. cbn [walk]. exact IH.
  - exists 0%nat, (a :: l). split; [done|]. split; [by intros [= ->]|]. cbn [walk].
    rewrite (proj2 (Z.eqb_neq a 0)), (Z.eqb_refl 0) by done. cbn. rewrite walk_used. done.
Qed.

(** No zero group, or one gap for the first run of them. *)
Lemma walk_spec prev l : prev ≠ Some 0 →
  (∃ l1, l = l1 ∧ Forall (λ a, a ≠ 0) l1 ∧
     walk prev l false = (match prev with Some _ => colons l1 | None => join ":" (hex_all l1) end, false)) ∨
  (∃ l1 k r, l = l1 ++ 0 :: replicate k 0 ++ r ∧ head r ≠ Some 0 ∧ Forall (λ a, a ≠ 0) l1 ∧
     walk prev l false =
       ((match prev with Some _ => colons l1 | None => join ":" (hex_all l1) end)
        ++ match r with [] => [] | _ => ":"%char :: colons r end, negb (bool_decide (r = [])))).
Proof.
  revert prev. induction l as [|a l IH]; intros prev Hp.
  { left. exists []. split; [done|]. split; [done|]. by destruct prev. }
  destruct (Z.eqb_spec a 0) as [->|Ha].
  - right. destruct (walk_zeros l) as (k & r & -> & Hr & E). exists [], k, r. split; [done|]. split; [done|].
    split; [done|]. cbn [walk]. cbn [Z.eqb andb negb]. rewrite E. destruct prev, r; done.
  - assert (walk prev (a :: l) false
      = ((match prev with Some _ => B ":" | None => [] end) ++ to_hex (swap 2 a) ++ (walk (Some a) l false).1,
         (walk (Some a) l false).2)) as ->.
    { cbn [walk]. rewrite (proj2 (Z.eqb_neq a 0)) by done. cbn [andb].
      assert ((match prev with Some p => (p =? 0) && negb false | None => false end) = false) as ->.
      { destruct prev as [p|]; [|done]. destruct (Z.eqb_spec p 0); [congruence|done]. }
      cbn [orb]. by destruct (walk (Some a) l false). }
    destruct (IH (Some a)) as [(l1 & -> & H1 & ->)|(l1 & k & r & -> & Hr & H1 & ->)]; [congruence| |].
    + left. exists (a :: l1). split; [done|]. split; [by constructor|]. by destruct prev.
    + right. exists (a :: l1), k, r. split; [done|]. split; [done|]. split; [by constructor|]. cbn.
      destruct prev; cbn; by rewrite <- ?(assoc_L (++)).
Qed.
End text6.

(* ------------------------------------------------------------------ *)
(** ** Reading the groups back *)

Lemma hex_all_read gs : Forall (in_u 16) gs → mapM hex_field (to_hex <$> gs) = Some gs.
Proof.
  intros Hg. apply mapM_Some_2, Forall2_fmap_l, Forall_Forall2_diag. eapply Forall_impl; [exact Hg|].
  intros g Hr. by apply hex_field_to_hex.
Qed.

Lemma to_hex_plain g : in_u 16 g → to_hex g ≠ [] ∧ ∀ c, c ∈ to_hex g → isxdigit c = true.
Proof.
  intros Hg. pose proof (hex_field_to_hex g Hg) as E.
  split; [by eapply hex_field_nonempty|]. intros c. by eapply hex_field_chars.
Qed.

Lemma hex_all_plain gs sep : Forall (in_u 16) gs → isxdigit sep = false → Forall (λ f, sep ∉ f) (to_hex <$> gs).
Proof.
  intros Hg Hs. apply Forall_fmap. eapply Forall_impl; [exact Hg|]. intros g Hgr Hc.
  apply (to_hex_plain g Hgr) in Hc. congruence.
Qed.

Lemma cut_empty_hex gs rest : Forall (in_u 16) gs →
  cut_empty ((to_hex <$> gs) ++ [] :: rest) = (to_hex <$> gs, Some rest) ∧
  cut_empty (to_hex <$> gs) = (to_hex <$> gs, None).
Proof.
  induction 1 as [|g gs Hg _ [IH1 IH2]]; [done|]. cbn.
  destruct (to_hex g) as [|c t] eqn:E; [by destruct (to_hex_plain g Hg)|]. cbn in IH1, IH2.
  by rewrite IH1, IH2.
Qed.

Lemma fields_hex gs : Forall (in_u 16) gs →
  fields ":" (join ":" (to_hex <$> gs)) = (match gs with [] => [[]] | _ => to_hex <$> gs end).
Proof.
  intros Hg. destruct gs as [|g gs]; [done|]. apply fields_join; [done|]. by apply hex_all_plain.
Qed.

Lemma groups_of_full gs : Forall (in_u 16) gs → length gs = 8%nat →
  groups_of (fields ":" (join ":" (to_hex <$> gs))) = Some gs.
Proof.
  intros Hg Hl. rewrite fields_hex by done. destruct gs as [|g gs]; [done|].
  unfold groups_of. rewrite (proj2 (cut_empty_hex (g :: gs) [] Hg)), hex_all_read by done. cbn [mbind option_bind].
  by rewrite Hl.
Qed.

Lemma groups_of_gap l1 l2 : Forall (in_u 16) l1 → Forall (in_u 16) l2 → (length l1 + length l2 ≤ 7)%nat →
  groups_of (fields ":" (join ":" (to_hex <$> l1) ++ B "::" ++ join ":" (to_hex <$> l2)))
  = Some (l1 ++ replicate (8 - length l1 - length l2) 0 ++ l2).
Proof.
  intros H1 H2 Hl. set (F2 := match l2 with [] => [[]] | _ => to_hex <$> l2 end).
  assert (fields ":" (join ":" (to_hex <$> l2)) = F2) as E2 by by apply fields_hex.
  assert (mapM hex_field (if bool_decide (F2 = [[]]) then [] else F2) = Some l2) as Er2.
  { unfold F2. destruct l2 as [|g l2]; [done|]. rewrite bool_decide_eq_false_2; [by apply hex_all_read|].
    apply Forall_cons in H2 as [Hg _]. intros [= E _]. by destruct (to_hex_plain g Hg). }
  assert (cut_empty (fields ":" (join ":" (to_hex <$> l1) ++ B "::" ++ join ":" (to_hex <$> l2)))
    = (to_hex <$> l1, Some (match l1 with [] => [] :: F2 | _ => F2 end))) as E.
  { destruct l1 as [|g l1].
    - change (B "::" ++ join ":" (to_hex <$> l2)) with ([] ++ ":"%char :: [] ++ ":"%char :: join ":" (to_hex <$> l2)).
      cbn [fmap list_fmap join app fields]. rewrite ascii_eqb_refl, E2. done.
    - change (B "::" ++ ?x) with (":"%char :: [] ++ ":"%char :: x).
      rewrite fields_join_app by (try done; by apply hex_all_plain).
      rewrite fields_app, E2 by set_solver. by apply cut_empty_hex. }
  assert (bool_decide (F2 = []) = false) as Ene
    by (apply bool_decide_eq_false_2; unfold F2; by destruct l2).
  unfold groups_of. rewrite E. destruct l1 as [|g l1]; cbn [mbind option_bind fmap list_fmap]; rewrite Ene.
  - cbn [mapM]. rewrite Er2. cbn [mbind option_bind mret option_ret length].
    rewrite (proj2 (Nat.leb_le _ _)) by (cbn in Hl; lia). done.
  - change (to_hex g :: (to_hex <$> l1)) with (to_hex <$> g :: l1). rewrite hex_all_read, Er2 by done.
    cbn [mbind option_bind]. rewrite (proj2 (Nat.leb_le _ _)) by lia. done.
Qed.

(* ------------------------------------------------------------------ *)
(** ** Bytes and groups *)

Section groups.
Context (host : endian).
Local Abbreviation swap := (byteswapOnLittleEndian host).

Definition groups (a : list Z) : list Z := swap 2 <$> halfwords host a.

Lemma swap_halfword x y : in_u 8 x → in_u 8 y → swap 2 (of_mem host [char_of x; char_of y]) = 256 * x + y.
Proof.
  intros Hx Hy. unfold in_u in *. rewrite swap_of_mem by (done || by left).
  unfold reverse. cbn. rewrite !uchar_char_of, !Z.mod_small by lia. lia.
Qed.

Lemma groups_bytes n a : length a = (2 * n)%nat → Forall (in_u 8) a →
  Forall (in_u 16) (groups a) ∧ (groups a ≫= (λ g, [g / 256; g mod 256])) = a ∧ length (groups a) = n.
Proof.
  revert a. induction n as [|n IH]; intros a Hl Ha; [by destruct a|].
  destruct a as [|x [|y a]]; [done|cbn in Hl; lia|]. apply Forall_cons in Ha as [Hx [Hy Ha]%Forall_cons].
  destruct (IH a) as (H1 & H2 & H3); [cbn in Hl; lia|done|]. unfold groups in *. cbn [halfwords fmap list_fmap].
  rewrite swap_halfword by done. unfold in_u in *. split_and!.
  - constructor; [unfold in_u; lia|done].
  - cbn. rewrite H2. f_equal; [|f_equal].
    + symmetry. apply Z.div_unique with (r := y); lia.
    + symmetry. apply Z.mod_unique with (q := x); lia.
  - cbn. by rewrite H3.
Qed.

(** The text between the brackets. *)
Definition text6 (a : list Z) : bytes :=
  let addr := halfwords host a in
  let '(os, used) := walk host None addr false in
  if negb used && (nth 7 addr 0 =? 0) then os ++ B "::" else os.

Lemma groups16 a : bytes16 a →
  Forall (in_u 16) (groups a) ∧ (groups a ≫= (λ g, [g / 256; g mod 256])) = a ∧ length (groups a) = 8%nat ∧
  length (halfwords host a) = 8%nat.
Proof.
  intros [Hl Ha]. destruct (groups_bytes 8 a Hl Ha) as (H1 & H2 & H3). split_and!; try done.
  unfold groups in H3. by rewrite length_fmap in H3.
Qed.

Lemma insert6_text q : bytes16 (s6_addr q) →
  insert6 host q = B "[" ++ text6 (s6_addr q) ++ B "]:" ++ to_string (swap 2 (sin6_port q)).
Proof.
  intros (_ & _ & _ & Ha)%groups16. unfold insert6, text6.
  pose proof (insert_loop_walk host [] (halfwords host (s6_addr q)) (B "[") false) as E. rewrite Ha in E.
  cbn [app length last] in E. rewrite E. destruct (walk host None _ false) as [os used]. cbn [fst snd].
  destruct (negb used && _); by rewrite <- ?(assoc_L (++)).
Qed.

Lemma join_chars sep l c : c ∈ join sep l → c = sep ∨ ∃ f, f ∈ l ∧ c ∈ f.
Proof.
  destruct l as [|x l]; cbn; [by intros ?%elem_of_nil|]. intros [Hc|Hc]%elem_of_app; [right; exists x; set_solver|].
  unfold sep_all in Hc. apply list_elem_of_bind in Hc as (f & [->|Hc]%elem_of_cons & Hf); [by left|].
  right. exists f. set_solver.
Qed.

Definition text_char (c : ascii) : Prop := isxdigit c = true ∨ c = ":"%char.

Lemma join_hex_chars gs c : Forall (in_u 16) gs → c ∈ join ":" (to_hex <$> gs) → text_char c.
Proof.
  intros Hg [->|(f & Hf & Hc)]%join_chars; [by right|left]. apply list_elem_of_fmap in Hf as (g & -> & Hin).
  rewrite Forall_forall in Hg. apply (to_hex_plain g (Hg g Hin)). done.
Qed.

(** The printed groups: all of them, or a gap for the zeros between two
    parts. *)
Lemma text6_forms a : bytes16 a →
  text6 a = join ":" (to_hex <$> groups a) ∨
  ∃ l1 k l2, groups a = l1 ++ replicate (S k) 0 ++ l2 ∧
    text6 a = join ":" (to_hex <$> l1) ++ B "::" ++ join ":" (to_hex <$> l2).
Proof.
  intros (Hg & _ & _ & Hl)%groups16. unfold text6. set (addr := halfwords host a) in *.
  assert (groups a = swap 2 <$> addr) as Eg by done.
  assert (∀ l, hex_all host l = to_hex <$> (swap 2 <$> l)) as Eh
    by (intros l; unfold hex_all; by rewrite <- list_fmap_compose).
  destruct (walk_spec host None addr) as [(l1 & <- & H1 & ->)|(l1 & k & r & E & Hr & H1 & ->)]; [done| |].
  - left. destruct (Z.eqb_spec (nth 7 addr 0) 0) as [Hz|_]; [|by rewrite Eh, Eg].
    exfalso. rewrite Forall_forall in H1. apply (H1 (nth 7 addr 0)); [|done].
    apply list_elem_of_In, nth_In. lia.
  - right. exists (swap 2 <$> l1), k, (swap 2 <$> r). rewrite Eg, E. split.
    { rewrite fmap_app. f_equal. cbn [fmap list_fmap replicate app]. f_equal; [by destruct host|].
      change (list_fmap Z Z (swap 2) ?l) with (swap 2 <$> l). rewrite fmap_app. f_equal. rewrite fmap_replicate. f_equal. by destruct host. }
    rewrite Eh. destruct r as [|g r].
    + assert (nth 7 addr 0 = 0) as Hz.
      { rewrite E in Hl |- *. rewrite app_nil_r in *. change (0 :: replicate k 0) with (replicate (S k) 0) in *.
        rewrite length_app, length_replicate in Hl. rewrite app_nth2, nth_lookup, lookup_replicate_2 by lia. done. }
      rewrite E in Hz. rewrite Hz. cbn. by rewrite app_nil_r.
    + cbn [bool_decide negb andb]. rewrite bool_decide_eq_false_2 by done. cbn [negb andb].
      f_equal. unfold colons. rewrite Eh. done.
Qed.

Lemma text6_read a : bytes16 a →
  parse6 (text6 a) = Some a ∧ text6 a ≠ [] ∧ ∀ c, c ∈ text6 a → text_char c.
Proof.
  intros Ha. pose proof (groups16 a Ha) as (Hg & Hb & Hl & _). unfold parse6.
  destruct (text6_forms a Ha) as [->|(l1 & k & l2 & Eg & ->)].
  - rewrite groups_of_full by done. cbn. rewrite Hb. split; [done|].
    split; [|intros c; by apply join_hex_chars]. destruct (groups a) as [|g gs]; [done|].
    apply Forall_cons in Hg as [Hg _]. cbn. intros [E _]%app_eq_nil. by apply (to_hex_plain g Hg) in E.
  - rewrite Eg in Hg, Hl. apply Forall_app in Hg as [H1 [_ H2]%Forall_app].
    rewrite !length_app, length_replicate in Hl. rewrite groups_of_gap by (done || lia). cbn.
    replace (8 - length l1 - length l2)%nat with (S k) by lia. rewrite <- Eg, Hb. split; [done|]. split.
    + destruct (join ":" (to_hex <$> l1)); done.
    + intros c [Hc|[->|[->|Hc]%elem_of_cons]%elem_of_cons]%elem_of_app;
        [by apply (join_hex_chars l1)|by right|by right|by apply (join_hex_chars l2)].
Qed.
End groups.

(* ------------------------------------------------------------------ *)
(** ** Splitting address and port *)

Lemma node_service_plain t port : "["%char ∉ t → ":"%char ∉ t → ":"%char ∉ port → t ≠ [] →
  node_service (t ++ B ":" ++ port) = (t, Some port).
Proof.
  intros H1 H2 H3 Hne. unfold node_service. change (B ":" ++ port) with (":"%char :: port).
  assert (bracketed (t ++ ":"%char :: port) = ([], None)) as ->.
  { destruct t as [|c t]; [done|]. cbn [app bracketed]. by rewrite ascii_eqb_neq by set_solver. }
  rewrite find_char_app by (rewrite ?drop_0; done || lia).
  rewrite find_char_None by by rewrite drop_app_ge, Nat.sub_succ_l, Nat.sub_diag by lia.
  rewrite take_app_length. rewrite drop_app_ge by lia.
  replace (S (length t) - length t)%nat with 1%nat by lia. by destruct t.
Qed.

Lemma node_service_bracket t port : "]"%char ∉ t → t ≠ [] →
  node_service (B "[" ++ t ++ B "]:" ++ port) = (t, Some port).
Proof.
  intros H1 Hne. unfold node_service.
  assert (bracketed (B "[" ++ t ++ B "]:" ++ port) = (t, Some port)) as ->; [|by destruct t].
  change (B "[" ++ t ++ B "]:" ++ port) with (("["%char :: t) ++ "]"%char :: ":"%char :: port).
  unfold bracketed. cbn [app]. rewrite ascii_eqb_refl.
  change ("["%char :: t ++ ?x) with (("["%char :: t) ++ x).
  rewrite find_char_app by (cbn; try lia; by rewrite drop_0).
  f_equal.
  - unfold slice. cbn. rewrite Nat.sub_0_r, drop_0, take_app_length. done.
  - rewrite bool_decide_eq_true_2.
    + rewrite drop_app_ge by (cbn; lia). cbn [length]. by replace (S (length t) + 2 - S (length t))%nat with 2%nat by lia.
    + rewrite lookup_app_r by (cbn; lia). cbn [length]. by replace (S (S (length t)) - S (length t))%nat with 1%nat by lia.
Qed.

(* ------------------------------------------------------------------ *)
(** ** The round trip *)

Definition quad (n : Z) : list Z :=
  [Z.land (Z.shiftr n 24) 0xff; Z.land (Z.shiftr n 16) 0xff; Z.land (Z.shiftr n 8) 0xff; Z.land n 0xff].

Lemma quad_bytes n : in_u 32 n → Forall (in_u 8) (quad n) ∧ le_val (reverse (char_of <$> quad n)) = n.
Proof.
  intros Hn. unfold quad. change 0xff with (Z.ones 8). rewrite !Z.land_ones, !Z.shiftr_div_pow2 by lia.
  unfold in_u in Hn. split.
  - repeat constructor; try apply Z.mod_pos_bound; lia.
  - unfold reverse. cbn. rewrite !uchar_char_of, !Z.mod_mod by lia. change (2 ^ 8) with 256.
    change (2 ^ 32) with 4294967296 in Hn. change (Z.pow_pos 2 24) with 16777216. change (Z.pow_pos 2 16) with 65536.
    change (Z.pow_pos 2 8) with 256. Z.to_euclidean_division_equations. lia.
Qed.

Definition text4 (l : list Z) : bytes := join "." (to_string <$> l).

Lemma text4_read l : Forall (in_u 8) l → length l = 4%nat →
  parse4 (text4 l) = Some l ∧ text4 l ≠ [] ∧ ∀ c, c ∈ text4 l → isdigit c = true ∨ c = "."%char.
Proof.
  intros Hl H4. assert (∀ n c, in_u 8 n → c ∈ to_string n → isdigit c = true) as Hd.
  { intros n c Hn. apply to_string_digits. unfold in_u in Hn. lia. }
  assert (Forall (λ f, "."%char ∉ f) (to_string <$> l)) as Hp.
  { apply Forall_fmap. eapply Forall_impl; [exact Hl|]. intros n Hn Hc. by apply (Hd n _ Hn) in Hc. }
  split_and!.
  - unfold parse4, text4. rewrite fields_join by (try done; by destruct l).
    assert (mapM dec_field (to_string <$> l) = Some l) as ->.
    { apply mapM_Some_2, Forall2_fmap_l, Forall_Forall2_diag. eapply Forall_impl; [exact Hl|].
      intros n Hn. by apply dec_field_to_string. }
    by destruct l as [|? [|? [|? [|? [|]]]]].
  - destruct l as [|n l]; [done|]. unfold text4. cbn. intros [E _]%app_eq_nil. by apply to_string_nonempty in E.
  - intros c [->|(f & (n & -> & Hn)%list_elem_of_fmap & Hc)]%join_chars; [by right|left].
    rewrite Forall_forall in Hl. eapply Hd; [by apply Hl|done].
Qed.

Section roundtrip.
Context (host : endian) (inet_pton : Z → bytes → option (list Z)).
Context (pton4 : ∀ s l, parse4 s = Some l → inet_pton AF_INET s = Some l).
Context (pton6 : ∀ s l, parse6 s = Some l → inet_pton AF_INET6 s = Some l).

Lemma insert4_text m : insert4 host m
  = text4 (quad (byteswapOnLittleEndian host 4 (s_addr m))) ++ B ":" ++ to_string (getPort4 host m).
Proof.
  unfold insert4, text4, quad, getPort4, lit. cbn [fmap list_fmap join sep_all mbind list_bind list_ascii_of_string].
  rewrite app_nil_r. rewrite <- !app_assoc. reflexivity.
Qed.

Lemma port_text v : in_u 16 v → ":"%char ∉ to_string v ∧ dec_val (to_string v) = v.
Proof.
  intros Hv. unfold in_u in Hv. split; [|apply to_string_val; lia].
  intros Hc. apply to_string_digits in Hc; [done|lia].
Qed.

(** C23: what [toString] prints is read back.  [Lookup] splits the text of an
    IPv4 or IPv6 address into the address and the decimal port, and [Create]
    on the two parts, with an [inet_pton] that reads the standard forms,
    gives the address it was printed from, whatever run of zero groups was
    left out.  The standard forms ([parse4], [parse6], see [parse6_forms] and
    [parse6_refusals]) are four decimal numbers below 256 without leading
    zeros, and eight groups of at most four hexadecimal digits, a run of zero
    groups possibly written as two colons, once. *)
Theorem address_text_roundtrip m q : wf4 m → bytes16 (s6_addr q) → in_u 16 (sin6_port q) →
  (∃ t port, toString host (IPv4Address m) = Ret (t ++ B ":" ++ port) ∧
     node_service (t ++ B ":" ++ port) = (t, Some port) ∧ dec_val port = getPort4 host m ∧
     ipv4_Create host inet_pton t (dec_val port) = Some (mkIn AF_INET (sin_port m) (s_addr m) (zeros 8))) ∧
  (∃ t port, toString host (IPv6Address q) = Ret (B "[" ++ t ++ B "]:" ++ port) ∧
     node_service (B "[" ++ t ++ B "]:" ++ port) = (t, Some port) ∧ dec_val port = getPort6 host q ∧
     ipv6_Create host inet_pton t (dec_val port) = Some (mkIn6 AF_INET6 (sin6_port q) 0 (s6_addr q) 0)).
Proof.
  intros Hm Hq Hp. split.
  - pose proof Hm as (_ & Hport & Haddr & _). pose proof (number4_range host m Hm) as Hn. unfold number4 in Hn.
    destruct (quad_bytes _ Hn) as [Hb Hv]. destruct (text4_read _ Hb eq_refl) as (Hr & Hne & Hc).
    assert (in_u 16 (getPort4 host m)) as Hpr by (apply (swap_range host 2); [by left|done]).
    destruct (port_text _ Hpr) as [Hpc Hpv].
    exists (text4 (quad (byteswapOnLittleEndian host 4 (s_addr m)))), (to_string (getPort4 host m)).
    split; [cbn [toString]; by rewrite insert4_text|].
    split; [apply node_service_plain; try done; intros H; apply Hc in H as [H|H]; done|].
    split; [done|]. unfold ipv4_Create. rewrite (pton4 _ _ Hr), Hpv. f_equal.
    unfold set_s_addr, setPort4, set_sin_port, new_IPv4Address. cbn [sin_family sin_port s_addr sin_zero].
    rewrite (wrapu_small 16) by done. unfold getPort4. rewrite swap_swap by first [by left|done]. f_equal.
    rewrite <- (swap_swap host 4 (of_mem host _)); [|by right; left|].
    + rewrite swap_of_mem, Hv, swap_swap by (done || by right; left). by apply wrapu_small.
    + unfold in_u, of_mem. destruct host; [pose proof (le_val_range (char_of <$> quad (byteswapOnLittleEndian SYLAR_LITTLE_ENDIAN 4 (s_addr m)))) as H|
        pose proof (le_val_range (reverse (char_of <$> quad (byteswapOnLittleEndian SYLAR_BIG_ENDIAN 4 (s_addr m))))) as H]; exact H.
  - destruct (text6_read host _ Hq) as (Hr & Hne & Hc).
    assert (in_u 16 (getPort6 host q)) as Hpr by (apply (swap_range host 2); [by left|done]).
    destruct (port_text _ Hpr) as [Hpc Hpv]. exists (text6 host (s6_addr q)), (to_string (getPort6 host q)).
    split; [cbn [toString]; by rewrite insert6_text|].
    split; [apply node_service_bracket; [|done]; intros H; apply Hc in H as [H|H]; done|].
    split; [done|]. unfold ipv6_Create. rewrite (pton6 _ _ Hr), Hpv. f_equal.
    unfold set_s6_addr, setPort6, set_sin6_port, new_IPv6Address. cbn.
    rewrite (wrapu_small 16) by done. unfold getPort6. by rewrite swap_swap by first [by left|done].
Qed.
End roundtrip.

(** An [inet_pton] that reads exactly the standard forms. *)
Definition sample_pton (family : Z) (s : bytes) : option (list Z) :=
  if family =? AF_INET then parse4 s else parse6 s.

Lemma address_text_roundtrip_witness :
  (∃ t port, toString SYLAR_BIG_ENDIAN (IPv4Address sample4) = Ret (t ++ B ":" ++ port) ∧
     node_service (t ++ B ":" ++ port) = (t, Some port) ∧ dec_val port = getPort4 SYLAR_BIG_ENDIAN sample4 ∧
     ipv4_Create SYLAR_BIG_ENDIAN sample_pton t (dec_val port)
     = Some (mkIn AF_INET (sin_port sample4) (s_addr sample4) (zeros 8))) ∧
  (∃ t port, toString SYLAR_BIG_ENDIAN (IPv6Address sample6) = Ret (B "[" ++ t ++ B "]:" ++ port) ∧
     node_service (B "[" ++ t ++ B "]:" ++ port) = (t, Some port) ∧ dec_val port = getPort6 SYLAR_BIG_ENDIAN sample6 ∧
     ipv6_Create SYLAR_BIG_ENDIAN sample_pton t (dec_val port)
     = Some (mkIn6 AF_INET6 (sin6_port sample6) 0 (s6_addr sample6) 0)).
Proof.
  apply (address_text_roundtrip SYLAR_BIG_ENDIAN sample_pton).
  - by intros s l H.
  - by intros s l H.
  - repeat split; vm_compute; done.
  - split; [done|]. repeat constructor; vm_compute; done.
  - split; vm_compute; done.
Defined.

(** The addresses printed, and an IPv6 address without brackets: everything
    from its first colon on is taken for the service. *)
Example printed :
  toString SYLAR_LITTLE_ENDIAN (IPv4Address sample4) = Ret (B "192.168.1.120:80") ∧
  toString SYLAR_LITTLE_ENDIAN (IPv6Address sample6) = Ret (B "[fe80::1234:0:1:0]:443") ∧
  node_service (B "::1") = (B "::1", Some (B "::1")).
Proof. vm_compute. done. Qed.

(* ------------------------------------------------------------------ *)
(** ** Unix paths *)

Lemma c_str_app s r : zero ∉ s → c_str (s ++ zero :: r) = s.
Proof.
  induction s as [|c s IH]; intros Hs; cbn; [done|]. rewrite ascii_eqb_neq by set_solver.
  by rewrite IH by set_solver.
Qed.

Lemma splice_zeros d : (length d ≤ PATH_SIZE)%nat → splice 0 d (zeros PATH_SIZE) = d ++ zeros (PATH_SIZE - length d).
Proof. intros. unfold splice, zeros. cbn [take app]. by rewrite drop_replicate, Nat.add_0_l. Qed.

(** A path of at most 107 characters is stored with its terminator and comes
    back; a longer one is refused; a name that begins with NUL (an abstract
    one, up to 108 characters with the NUL) is printed with the two characters
    [\0] instead. *)
Theorem unix_path path : zero ∉ path → path ≠ [] → Z.of_nat (length path) < 2 ^ 32 - 2 →
  ((length path ≤ 107)%nat →
     (∃ u n, new_UnixAddress path = Ret (u, n) ∧ getPath u n = Ret path) ∧
     (∃ u n, new_UnixAddress (zero :: path) = Ret (u, n) ∧ getPath u n = Ret (B "\0" ++ path))) ∧
  ((107 < length path)%nat →
     new_UnixAddress path = Throw logic_error ∧ new_UnixAddress (zero :: path) = Throw logic_error).
Proof.
  intros Hz Hne Hl. assert (u32 (Z.of_nat (length path) + 1) = Z.of_nat (length path) + 1) as E1
    by (apply wrapu_small; unfold in_u; lia).
  assert (u32 (u32 (Z.of_nat (length (zero :: path)) + 1) - 1) = Z.of_nat (length path) + 1) as E2.
  { cbn [length]. rewrite !wrapu_small by (unfold in_u; rewrite ?wrapu_small by (unfold in_u; lia); lia). lia. }
  assert (new_UnixAddress path = if Z.of_nat PATH_SIZE <? Z.of_nat (length path) + 1 then Throw logic_error
    else Ret (mkUn AF_UNIX (splice 0 (take (S (length path)) (path ++ [zero])) (zeros PATH_SIZE)),
              u32 (Z.of_nat (length path) + 1 + PATH_OFFSET))) as Ep.
  { unfold new_UnixAddress. rewrite E1. destruct path as [|c p]; [done|]. rewrite ascii_eqb_neq by set_solver.
    by replace (Z.to_nat (Z.of_nat (length (c :: p)) + 1)) with (S (length (c :: p))) by lia. }
  assert (new_UnixAddress (zero :: path) = if Z.of_nat PATH_SIZE <? Z.of_nat (length path) + 1 then Throw logic_error
    else Ret (mkUn AF_UNIX (splice 0 (take (S (length path)) (zero :: path ++ [zero])) (zeros PATH_SIZE)),
              u32 (Z.of_nat (length path) + 1 + PATH_OFFSET))) as Ea.
  { unfold new_UnixAddress. rewrite ascii_eqb_refl, E2.
    by replace (Z.to_nat (Z.of_nat (length path) + 1)) with (S (length path)) by lia. }
  rewrite Ep, Ea. unfold PATH_SIZE, PATH_OFFSET in *. split; intros H.
  2: { by rewrite (proj2 (Z.ltb_lt _ _)) by lia. }
  rewrite (proj2 (Z.ltb_ge _ _)), (wrapu_small 32 (_ + _)) by (unfold in_u; lia). split; do 2 eexists; (split; [done|]).
  - rewrite take_ge by (rewrite length_app; cbn; lia). rewrite splice_zeros by (rewrite length_app; unfold PATH_SIZE; cbn; lia).
    unfold getPath. cbn [sun_path]. destruct path as [|c p]; [done|]. cbn [app].
    rewrite ascii_eqb_neq, andb_false_r by set_solver.
    rewrite decide_True by (rewrite <- (assoc_L (++)); set_solver).
    f_equal. change (c :: (p ++ [zero]) ++ ?r) with (((c :: p) ++ [zero]) ++ r).
    rewrite <- (assoc_L (++)). by apply c_str_app.
  - cbn [take]. rewrite take_app_length. rewrite splice_zeros by (unfold PATH_SIZE; cbn; lia).
    unfold getPath. cbn [sun_path app]. rewrite ascii_eqb_refl, (proj2 (Z.ltb_lt _ _)) by (unfold PATH_OFFSET; lia).
    cbn [andb]. unfold PATH_OFFSET.
    replace (Z.of_nat (length path) + 1 + 2 - 2 - 1) with (Z.of_nat (length path)) by lia.
    rewrite (proj2 (Z.ltb_ge _ _)) by (rewrite length_app; lia). by rewrite Nat2Z.id, take_app_length.
Qed.
