(* ===== verification/AddressOrder.v ===== *)
(** * Addresses as stored bytes

    [operator<] and [operator==] compare what [getAddr] points to, and
    [Create] copies it: the first is the order of byte strings, the second
    gives an IP address back. *)
From S2P Require Import Prelude StdString Endian OrderedSet OrderedMap Address AddressTheorems.

Local Open Scope Z_scope.

Lemma compare_bytes_lt s t :
  let n := Nat.min (length s) (length t) in
  let c := compare_bytes (take n s) (take n t) in
  bytes_lt s t = (if c <? 0 then true else if 0 <? c then false else (length s <? length t)%nat) ∧
  (c = 0 → length s = length t → s = t).
Proof.
  revert t. induction s as [|x s IH]; intros [|y t]; try done. cbn. destruct (Ascii.eqb x y) eqn:E.
  - apply Ascii.eqb_eq in E as ->. rewrite Z.ltb_irrefl, Z.eqb_refl. cbn. destruct (IH t) as [-> Heq].
    split; [done|]. intros ? ?. f_equal. apply Heq; [done|lia].
  - apply Ascii.eqb_neq in E. assert (uchar x ≠ uchar y) as Hne by (intros ?%uchar_inj; done).
    split; [|lia]. rewrite (proj2 (Z.eqb_neq _ _) Hne). cbn [andb]. rewrite orb_false_r.
    destruct (Z.ltb_spec (uchar x) (uchar y)), (Z.ltb_spec (uchar x - uchar y) 0), (Z.ltb_spec 0 (uchar x - uchar y));
      lia || done.
Qed.

Lemma compare_bytes_refl s : compare_bytes s s = 0.
Proof. induction s as [|c s IH]; [done|]. cbn. by rewrite ascii_eqb_refl. Qed.

Section order.
Context (host : endian).
Implicit Types a b : Address.

(** The fields fit their types; a Unix address claims no more than it has. *)
Definition wf_address a : Prop :=
  match a with
  | IPv4Address m => wf4 m
  | IPv6Address q => in_u 16 (sin6_family q) ∧ in_u 16 (sin6_port q) ∧ in_u 32 (sin6_flowinfo q) ∧
      in_u 32 (sin6_scope_id q) ∧ bytes16 (s6_addr q)
  | UnixAddress u n => length (sun_path u) = PATH_SIZE ∧ 0 <= n <= 110
  | UnknownAddress m => length (sa_data m) = 14%nat
  end.

(** What is compared. *)
Definition stored a : bytes := take (Z.to_nat (getAddrLen a)) (getAddr host a).

Lemma stored_length a : wf_address a →
  0 <= getAddrLen a <= Z.of_nat (length (getAddr host a)) ∧ Z.of_nat (length (stored a)) = getAddrLen a.
Proof.
  intros Ha. assert (0 <= getAddrLen a <= Z.of_nat (length (getAddr host a))) as H.
  { destruct a as [m|q|u n|m]; cbn [getAddr getAddrLen wf_address] in *;
      rewrite ?length_app, ?length_mem_of, ?length_fmap.
    - destruct Ha as (_ & _ & _ & ->). cbn. lia.
    - destruct Ha as (_ & _ & _ & _ & -> & _). cbn. lia.
    - destruct Ha as [-> ?]. unfold PATH_SIZE. lia.
    - rewrite Ha. cbn. lia. }
  split; [done|]. unfold stored. rewrite length_take. lia.
Qed.

Lemma memcmp_stored a b n : wf_address a → wf_address b → 0 <= n <= getAddrLen a → n <= getAddrLen b →
  memcmp (getAddr host a) (getAddr host b) n
  = Ret (compare_bytes (take (Z.to_nat n) (stored a)) (take (Z.to_nat n) (stored b))).
Proof.
  intros Ha Hb Hn1 Hn2. destruct (stored_length a Ha) as [Ha1 Ha2], (stored_length b Hb) as [Hb1 Hb2].
  unfold memcmp. rewrite !(proj2 (Z.ltb_ge _ _)) by lia. cbn [orb]. unfold stored.
  by rewrite !take_take, !Nat.min_l by lia.
Qed.

Lemma slice_app_here {A} n (x y : list A) : length x = n → slice 0 n (x ++ y) = x.
Proof. intros <-. unfold slice. rewrite drop_0. apply take_app_length. Qed.
Lemma slice_app_skip {A} i n (x y : list A) : (length x ≤ i)%nat → slice i n (x ++ y) = slice (i - length x) n y.
Proof. intros. unfold slice. by rewrite drop_app_ge. Qed.
Lemma slice_whole {A} n (x : list A) : length x = n → slice 0 n x = x.
Proof. intros <-. unfold slice. rewrite drop_0. by apply take_ge. Qed.

Lemma of_mem_field n v : in_u (8 * Z.of_nat n) v → of_mem host (mem_of host n v) = v.
Proof. intros. rewrite of_mem_of. by apply wrapu_small. Qed.

(** Find the field a slice covers, skipping the fields before it. *)
Ltac field_lengths :=
  rewrite ?length_mem_of;
  repeat match goal with H : length ?x = _ |- context [length ?x] => rewrite H end.
Ltac read_fields :=
  repeat first
    [ rewrite slice_app_here by (field_lengths; done)
    | rewrite slice_app_skip by (field_lengths; lia); field_lengths; cbn [Nat.sub]
    | rewrite slice_whole by (field_lengths; done) ].

Lemma family_read f r : in_u 16 f → of_mem host (take 2 (mem_of host 2 f ++ r)) = f.
Proof. intros. change (take 2 ?l) with (slice 0 2 l). read_fields. by apply of_mem_field. Qed.

Lemma in_of_getAddr m : wf4 m → in_of host (getAddr host (IPv4Address m)) = m.
Proof.
  destruct m as [f p s z]. intros (? & ? & ? & Hz). cbn in *. unfold in_of. rewrite family_read by done.
  read_fields. by rewrite !of_mem_field.
Qed.

Lemma bytes_copied l : Forall (in_u 8) l → uchar <$> (char_of <$> l) = l.
Proof.
  induction 1 as [|x l Hx _ IH]; [done|]. cbn. rewrite IH, uchar_char_of. f_equal. by apply Z.mod_small.
Qed.

Lemma in6_of_getAddr q : wf_address (IPv6Address q) → in6_of host (getAddr host (IPv6Address q)) = q.
Proof.
  destruct q as [f p i l c]. intros (? & ? & ? & ? & Hl & Hb). cbn in *. unfold in6_of. rewrite family_read by done.
  assert (length (char_of <$> l) = 16%nat) as Hl' by by rewrite length_fmap.
  pose proof (bytes_copied l Hb) as El. set (cs := char_of <$> l) in *.
  clearbody cs. read_fields. by rewrite !of_mem_field, El.
Qed.

Lemma read_struct_ok {A} n (f : bytes → A) mem : (n ≤ length mem)%nat → read_struct n f mem = Ret (f mem).
Proof. intros. unfold read_struct. by rewrite (proj2 (Nat.ltb_ge _ _)). Qed.

(** An IP address with its own family. *)
Definition ip_address a : Prop :=
  match a with
  | IPv4Address m => sin_family m = AF_INET
  | IPv6Address q => sin6_family q = AF_INET6
  | _ => False
  end.

Lemma create_getAddr a : wf_address a → ip_address a → Create host (Some (getAddr host a)) = Ret (Some a).
Proof.
  intros Ha Hf. pose proof (stored_length a Ha) as [Hl _]. unfold Create.
  destruct a as [m|q|u n|m]; [| |done..]; cbn [getAddrLen] in Hl; rewrite (read_struct_ok 2) by lia;
    cbn [mbind outcome_bind].
  - assert (of_mem host (take 2 (getAddr host (IPv4Address m))) = AF_INET) as ->
      by (cbn [getAddr]; rewrite Hf; by apply family_read).
    rewrite Z.eqb_refl, read_struct_ok by lia. cbn [mbind outcome_bind]. by rewrite in_of_getAddr.
  - assert (of_mem host (take 2 (getAddr host (IPv6Address q))) = AF_INET6) as ->
      by (cbn [getAddr]; rewrite Hf; by apply family_read).
    change (AF_INET6 =? AF_INET) with false. rewrite Z.eqb_refl, read_struct_ok by lia.
    cbn [mbind outcome_bind]. by rewrite in6_of_getAddr.
Qed.

Lemma lt_stored a b : wf_address a → wf_address b →
  address_lt host a b = Ret (bytes_lt (stored a) (stored b)) ∧
  address_eq host a b = Ret (bool_decide (stored a = stored b)).
Proof.
  intros Ha Hb. destruct (stored_length a Ha) as [Ha1 Ha2], (stored_length b Hb) as [Hb1 Hb2].
  destruct (compare_bytes_lt (stored a) (stored b)) as [Hlt Heq]. unfold address_lt, address_eq. split.
  - rewrite memcmp_stored by (done || lia). cbn [mbind outcome_bind].
    rewrite Z2Nat.inj_min, <- Ha2, <- Hb2, !Nat2Z.id. rewrite Hlt. do 2 f_equal.
    destruct (_ <? 0); [done|]. destruct (0 <? _); [done|].
    destruct (Z.ltb_spec (Z.of_nat (length (stored a))) (Z.of_nat (length (stored b)))),
      (Nat.ltb_spec (length (stored a)) (length (stored b))); lia || done.
  - destruct (Z.eqb_spec (getAddrLen a) (getAddrLen b)) as [E|E].
    + rewrite memcmp_stored by (done || lia). cbn [mbind outcome_bind]. f_equal.
      rewrite <- Ha2, Nat2Z.id. assert (length (stored a) = length (stored b)) as El by lia.
      rewrite <- El, Nat.min_id in Heq. clear Hlt. set (c := compare_bytes _ _) in *.
      destruct (Z.eqb_spec c 0) as [Ec|Ec]; [symmetry; apply bool_decide_eq_true_2; by apply Heq|].
      rewrite bool_decide_eq_false_2; [done|]. intros E'. apply Ec. unfold c. rewrite E'. apply compare_bytes_refl.
    + rewrite bool_decide_eq_false_2; [done|]. intros E'. rewrite E' in Ha2. lia.
Qed.

Lemma stored_all a : ip_address a → wf_address a → stored a = getAddr host a.
Proof.
  intros Hi Ha. unfold stored. apply take_ge. destruct a as [m|q|u n|m]; try done; cbn [getAddr getAddrLen wf_address] in *;
    rewrite ?length_app, ?length_mem_of, ?length_fmap.
  - destruct Ha as (_ & _ & _ & ->). done.
  - destruct Ha as (_ & _ & _ & _ & -> & _). done.
Qed.

(** Addresses compare as the bytes they store: [operator<] is their
    lexicographic order, hence a strict total order up to [operator==], which
    holds exactly when the bytes agree; for IP addresses that is equality, and
    [Create] on the stored bytes makes the address again. *)
Theorem address_order a b : wf_address a → wf_address b →
  address_lt host a b = Ret (bytes_lt (stored a) (stored b)) ∧
  address_eq host a b = Ret (bool_decide (stored a = stored b)) ∧
  (address_eq host a b = Ret true ↔ address_lt host a b = Ret false ∧ address_lt host b a = Ret false) ∧
  (ip_address a → Create host (Some (getAddr host a)) = Ret (Some a)) ∧
  (ip_address a → ip_address b → address_eq host a b = Ret true ↔ a = b).
Proof.
  intros Ha Hb. destruct (lt_stored a b Ha Hb) as [Hlt Heq], (lt_stored b a Hb Ha) as [Hlt' _].
  split; [done|]. split; [done|]. rewrite Hlt, Hlt', Heq. split; [|split; [by apply create_getAddr|]].
  - split.
    + intros [= E%bool_decide_eq_true]. by rewrite E, (lt_irrefl bytes_lt).
    + intros [[= H1] [= H2]]. f_equal. apply bool_decide_eq_true. by apply (lt_total bytes_lt).
  - intros Hia Hib. split; [|intros ->; by rewrite bool_decide_eq_true_2].
    intros [= E%bool_decide_eq_true]. pose proof (create_getAddr a Ha Hia) as Ca.
    pose proof (create_getAddr b Hb Hib) as Cb. rewrite (stored_all a Hia Ha), (stored_all b Hib Hb) in E.
    rewrite E, Cb in Ca. by injection Ca.
Qed.
End order.

Lemma address_order_witness :
  let a := IPv4Address sample4 in let b := IPv6Address sample6 in
  address_lt SYLAR_LITTLE_ENDIAN a b = Ret (bytes_lt (stored SYLAR_LITTLE_ENDIAN a) (stored SYLAR_LITTLE_ENDIAN b)) ∧
  address_eq SYLAR_LITTLE_ENDIAN a b = Ret (bool_decide (stored SYLAR_LITTLE_ENDIAN a = stored SYLAR_LITTLE_ENDIAN b)) ∧
  (address_eq SYLAR_LITTLE_ENDIAN a b = Ret true ↔
    address_lt SYLAR_LITTLE_ENDIAN a b = Ret false ∧ address_lt SYLAR_LITTLE_ENDIAN b a = Ret false) ∧
  (ip_address a → Create SYLAR_LITTLE_ENDIAN (Some (getAddr SYLAR_LITTLE_ENDIAN a)) = Ret (Some a)) ∧
  (ip_address a → ip_address b → address_eq SYLAR_LITTLE_ENDIAN a b = Ret true ↔ a = b).
Proof.
  intros a b. apply (address_order SYLAR_LITTLE_ENDIAN a b).
  - repeat split; vm_compute; done.
  - repeat split; try (vm_compute; done). repeat constructor; vm_compute; done.
Defined.
