(* ===== verification/HttpClient.v ===== *)
(** * HTTP requests of a client ([http/http_connection.h], [http/http_connection.cc])

    The requests [DoGet], [DoPost] and [DoRequest] build from a URL and a map of
    headers, and the results they report.  What the network does - whether a
    connection is made, what the write returned, what the peer sends - is an
    argument; resolving the host is [Address.Lookup] over [getaddrinfo]. *)
From S2P Require Import Prelude StdString Endian OrderedSet OrderedMap.
From S2P Require Uri Address HttpMessage HttpResponse.
From S2P Require Import Http HttpTheorems.

Local Open Scope Z_scope.

(* sylar/http/http_connection.h:32-53, HttpResult::Error *)
Inductive Error :=
  | OK | INVALID_URL | INVALID_HOST | CONNECT_FAIL | SEND_CLOSE_BY_PEER | SEND_SOCKET_ERROR
  | TIMEOUT | CREATE_SOCKET_ERROR | POOL_GET_CONNECTION | POOL_INVALID_CONNECTION.

(* sylar/http/http_connection.h:61-76, HttpResult *)
Record HttpResult := mkResult {
  result : Error;
  response : option HttpResponse.HttpResponse;
  error : bytes
}.

(* sylar/http/http_connection.h:32-53, HttpResult::Error *)
Definition error_code (e : Error) : Z :=
  match e with
  | OK => 0 | INVALID_URL => 1 | INVALID_HOST => 2 | CONNECT_FAIL => 3 | SEND_CLOSE_BY_PEER => 4 | SEND_SOCKET_ERROR => 5
  | TIMEOUT => 6 | CREATE_SOCKET_ERROR => 7 | POOL_GET_CONNECTION => 8 | POOL_INVALID_CONNECTION => 9
  end.

(* sylar/http/http_connection.cc:17-24, HttpResult::toString *)
Definition result_toString (r : HttpResult) : bytes :=
  B "[HttpResult result=" ++ to_string (error_code (result r)) ++ B " error=" ++ error r
  ++ B " response=" ++ match response r with Some rsp => HttpResponse.dump rsp | None => B "nullptr" end ++ B "]".

(** [std::map<std::string, std::string>] in its order. *)
Abbreviation headers_map := (list (bytes * bytes)).

(** The loop over the given headers; the first component is [has_host]. *)
(* sylar/http/http_connection.cc:209-222, HttpConnection::DoRequest *)
Fixpoint apply_headers (headers : headers_map) (has_host : bool) (req : HttpRequest) : bool * HttpRequest :=
  match headers with
  | [] => (has_host, req)
  | i :: rest =>
      if strcasecmp i.1 (B "connection") =? 0 then
        apply_headers rest has_host (if strcasecmp i.2 (B "keep-alive") =? 0 then setClose false req else req)
      else
        let has_host := if negb has_host && (strcasecmp i.1 (B "host") =? 0) then negb (bool_decide (i.2 = []))
                        else has_host in
        apply_headers rest has_host (setHeader i.1 i.2 req)
  end.

(** The headers, the default host, the body. *)
(* sylar/http/http_connection.cc:208-226, HttpConnection::DoRequest *)
Definition finish_request (headers : headers_map) (host body : bytes) (req : HttpRequest) : HttpRequest :=
  let '(has_host, req) := apply_headers headers false req in
  setBody body (if has_host then req else setHeader (B "Host") host req).

Definition make_HttpRequest : HttpRequest := Http.new_HttpRequest 0x11 true.

(* sylar/http/http_connection.cc:198-227, HttpConnection::DoRequest *)
Definition request_of_uri (method : Z) (uri : Uri.Uri) (headers : headers_map) (body : bytes) : HttpRequest :=
  finish_request headers (Uri.m_host uri) body
    (setMethod method (setFragment (Uri.m_fragment uri) (setQuery (Uri.m_query uri) (setPath (Uri.getPath uri) make_HttpRequest)))).

(** The pool puts the whole target into the path; its host is the virtual
    one if there is one. *)
(* sylar/http/http_connection.cc:388-420, HttpConnectionPool::doRequest *)
Definition request_of_target (method : Z) (url m_host m_vhost : bytes) (headers : headers_map) (body : bytes) : HttpRequest :=
  finish_request headers (match m_vhost with [] => m_host | _ => m_vhost end) body
    (setMethod method (setPath url make_HttpRequest)).

(* sylar/http/http_connection.cc:428-433, HttpConnectionPool::doRequest *)
Definition target_of (uri : Uri.Uri) : bytes :=
  Uri.getPath uri ++ (if bool_decide (Uri.m_query uri = []) then [] else B "?") ++ Uri.m_query uri
  ++ (if bool_decide (Uri.m_fragment uri = []) then [] else B "#") ++ Uri.m_fragment uri.

Section client.
Context (host : endian) (getaddrinfo : bytes → option bytes → Z → Z → Z → Z → Z + list (option bytes)).
Context (max buff_size : Z).

(** What happens on the network: the result of [connect], of the write of
    the request, the pieces the peer sends; [errno] and its text as they are
    when a write fails. *)
Record network := mkNetwork {
  connects : bool;
  sent : Z;
  pieces : list bytes;
  errno : Z;
  errstr : bytes
}.

(* sylar/uri.cc:123-129, Uri::createAddress *)
Definition createAddress (uri : Uri.Uri) : outcome (option Address.Address) :=
  addr ← Address.LookupAnyIPAddress host getaddrinfo (Uri.m_host uri) Address.AF_INET 0 0;
  Ret (match addr with
       | Some (Address.IPv4Address m) => Some (Address.IPv4Address (Address.setPort4 host (Uri.getPort uri) m))
       | Some (Address.IPv6Address m) => Some (Address.IPv6Address (Address.setPort6 host (Uri.getPort uri) m))
       | _ => addr
       end).

(** From the write on; [peer] is the text of the peer's address.  The second
    component is whether the socket is still open. *)
(* sylar/http/http_connection.cc:252-267, HttpConnection::DoRequest *)
Definition exchange (net : network) (peer : outcome bytes) (timeout_ms : Z) : outcome (HttpResult * bool) :=
  if sent net =? 0 then
    a ← peer; Ret (mkResult SEND_CLOSE_BY_PEER None (B "send request closed by peer: " ++ a), true)
  else if sent net <? 0 then
    Ret (mkResult SEND_SOCKET_ERROR None (B "send request socket error errno=" ++ to_string (errno net)
           ++ B " errstr=" ++ errstr net), true)
  else
    '(rsp, _) ← HttpMessage.recvResponse max buff_size (pieces net);
    match rsp with
    | None =>
        a ← peer; Ret (mkResult TIMEOUT None (B "recv response timeout: " ++ a
                         ++ B " timeout_ms:" ++ to_string timeout_ms), false)
    | Some rsp => Ret (mkResult OK (Some rsp) (B "ok"), true)
    end.

(** [CreateTCP] always gives a socket; it is closed when the connection goes
    out of scope. *)
(* sylar/http/http_connection.cc:230-268, HttpConnection::DoRequest *)
Definition DoRequest_to (uri : Uri.Uri) (timeout_ms : Z) (net : network) : outcome HttpResult :=
  addr ← createAddress uri;
  match addr with
  | None => Ret (mkResult INVALID_HOST None (B "invalid host: " ++ Uri.m_host uri))
  | Some addr =>
      if negb (connects net) then
        a ← Address.toString host addr; Ret (mkResult CONNECT_FAIL None (B "connect fail: " ++ a))
      else
        '(r, _) ← exchange net (Address.toString host addr) timeout_ms; Ret r
  end.

(** What is sent is the printed request. *)
(* sylar/http/http_connection.cc:140-145, HttpConnection::sendRequest *)
Definition sendRequest_data (req : HttpRequest) : bytes := dump req.

(** The request sent, unless the URL is refused, and the result. *)
(* sylar/http/http_connection.cc:185-196, HttpConnection::DoRequest *)
Definition DoRequest (method : Z) (url : bytes) (timeout_ms : Z) (headers : headers_map) (body : bytes) (net : network) :
    outcome (option HttpRequest * HttpResult) :=
  uri ← Uri.Create url;
  match uri with
  | None => Ret (None, mkResult INVALID_URL None (B "invalid url: " ++ url))
  | Some uri =>
      r ← DoRequest_to uri timeout_ms net;
      Ret (Some (request_of_uri method uri headers body), r)
  end.

(** The same for a URL that has been parsed. *)
Definition DoRequest_uri (method : Z) (uri : Uri.Uri) (timeout_ms : Z) (headers : headers_map) (body : bytes) (net : network) :
    outcome (HttpRequest * HttpResult) :=
  r ← DoRequest_to uri timeout_ms net; Ret (request_of_uri method uri headers body, r).
(* sylar/http/http_connection.cc:159-164, HttpConnection::DoGet *)
Definition DoGet_uri := DoRequest_uri 1.
(* sylar/http/http_connection.cc:178-183, HttpConnection::DoPost *)
Definition DoPost_uri := DoRequest_uri 3.

(* sylar/http/http_connection.cc:147-157, HttpConnection::DoGet *)
Definition DoGet := DoRequest 1.
(* sylar/http/http_connection.cc:166-176, HttpConnection::DoPost *)
Definition DoPost := DoRequest 3.
End client.
