(* ===== verification/HttpClientTheorems.v ===== *)
(** * The requests of a client

    What the loop over the given headers leaves in a request. *)
From S2P Require Import Prelude StdString OrderedSet OrderedMap.
From S2P Require Import Http HttpTheorems HttpClient.

Local Open Scope Z_scope.

(** The last value given for a name, under any spelling. *)
Definition last_value (k : bytes) (l : headers_map) : option bytes :=
  last (snd <$> filter (λ h, ci_key h.1 = ci_key k) l).

Definition is_connection (h : bytes * bytes) : Prop := ci_key h.1 = ci_key (B "connection").
#[export] Instance is_connection_dec h : Decision (is_connection h).
Proof. unfold is_connection. apply _. Defined.

(** A host header that says something; a connection header that keeps. *)
Definition names_host (h : bytes * bytes) : bool :=
  bool_decide (ci_key h.1 = ci_key (B "host")) && negb (bool_decide (h.2 = [])).
Definition keeps (h : bytes * bytes) : bool :=
  bool_decide (ci_key h.1 = ci_key (B "connection")) && bool_decide (ci_key h.2 = ci_key (B "keep-alive")).

Lemma last_value_cons k h l : last_value k (h :: l)
  = match last_value k l with Some v => Some v | None => if decide (ci_key h.1 = ci_key k) then Some h.2 else None end.
Proof.
  unfold last_value. rewrite filter_cons. case_decide; cbn [fmap list_fmap].
  - rewrite last_cons. by destruct (last _).
  - by destruct (last _).
Qed.

(** Everything but headers and [m_close] is left alone. *)
Definition same_rest (a b : HttpRequest) : Prop :=
  m_method a = m_method b ∧ m_version a = m_version b ∧ m_websocket a = m_websocket b ∧ m_path a = m_path b ∧
  m_query a = m_query b ∧ m_fragment a = m_fragment b ∧ m_body a = m_body b.

Lemma same_rest_trans a b c : same_rest a b → same_rest b c → same_rest a c.
Proof. unfold same_rest. intuition congruence. Qed.


Lemma apply_headers_spec l b req : headers_ok (m_headers req) →
  let r := apply_headers l b req in
  headers_ok (m_headers r.2) ∧
  (∀ k, lookup_ci k (m_headers r.2)
     = match last_value k (filter (λ h, ¬ is_connection h) l) with
       | Some v => Some v | None => lookup_ci k (m_headers req) end) ∧
  m_close r.2 = m_close req && negb (existsb keeps l) ∧
  r.1 = b || existsb names_host l ∧
  same_rest r.2 req.
Proof.
  revert b req. induction l as [|[k0 v0] l IH]; intros b req Hok; cbn [apply_headers fst snd].
  { cbn. rewrite andb_true_r, orb_false_r. done. }
  rewrite strcasecmp_eq. cbn [existsb]. unfold keeps at 1, names_host at 1. cbn [fst snd].
  rewrite filter_cons. destruct (decide (ci_key k0 = ci_key (B "connection"))) as [Hc|Hc].
  - rewrite !(bool_decide_eq_true_2 (ci_key k0 = ci_key (B "connection"))), decide_False, strcasecmp_eq
      by (unfold is_connection; tauto).
    destruct (IH b (if bool_decide (ci_key v0 = ci_key (B "keep-alive")) then setClose false req else req))
      as (H1 & H2 & H3 & H4 & H5); [by case_bool_decide|].
    split; [done|]. split; [intros k; rewrite H2; by case_bool_decide|].
    rewrite (bool_decide_eq_false_2 (ci_key k0 = ci_key (B "host"))) by (by rewrite Hc). cbn [andb orb].
    split; [|split; [done|]].
    + rewrite H3. case_bool_decide; cbn; [|done]. by destruct (m_close req).
    + eapply same_rest_trans; [done|]. by case_bool_decide.
  - rewrite !(bool_decide_eq_false_2 (ci_key k0 = ci_key (B "connection"))), decide_True
      by (unfold is_connection; tauto). cbn [andb orb].
    rewrite strcasecmp_eq.
    destruct (IH (if negb b && bool_decide (ci_key k0 = ci_key (B "host")) then negb (bool_decide (v0 = [])) else b)
      (setHeader k0 v0 req)) as (H1 & H2 & H3 & H4 & H5); [by apply assign_ok|].
    split; [done|]. split; [|split; [done|split; [|done]]].
    + intros k. rewrite H2, last_value_cons. destruct (last_value k _); [done|]. unfold setHeader. cbn [fst snd m_headers setHeaders].
      rewrite lookup_assign by done. destruct (decide (ci_key k = ci_key k0)), (decide (ci_key k0 = ci_key k)); congruence.
    + rewrite H4. destruct b, (bool_decide (ci_key k0 = ci_key (B "host"))), (bool_decide (v0 = [])); done.
Qed.

(** The headers in effect: those given but for [connection], then the default
    host if none of them names one. *)
Definition effective (headers : headers_map) (host : bytes) : headers_map :=
  filter (λ h, ¬ is_connection h) headers ++ (if existsb names_host headers then [] else [(B "Host", host)]).

Lemma last_value_app k l1 l2 : last_value k (l1 ++ l2)
  = match last_value k l2 with Some v => Some v | None => last_value k l1 end.
Proof. unfold last_value. rewrite filter_app, fmap_app, last_app. by destruct (last (snd <$> filter _ l2)). Qed.

Lemma last_value_none k l : (∀ h, h ∈ l → ci_key h.1 ≠ ci_key k) → last_value k l = None.
Proof.
  induction l as [|h l IH]; intros H; [done|]. rewrite last_value_cons, IH by set_solver.
  by rewrite decide_False by (apply H; set_solver).
Qed.

Lemma last_value_some k h l : h ∈ l → ci_key h.1 = ci_key k → is_Some (last_value k l).
Proof.
  induction l as [|x l IH]; [by intros ?%elem_of_nil|]. intros [->|Hh]%elem_of_cons Hk; rewrite last_value_cons.
  - rewrite decide_True by done. destruct (last_value k l); by eexists.
  - by destruct (IH Hh Hk) as [v ->]; eexists.
Qed.

(** The request a client builds.  Whatever headers are given, it is for
    the given method, path and body, with no [connection] header of its own
    (the line [dump] prints says keep-alive exactly when one of those given
    did); every other header reads as it was last given under any spelling,
    and there is always a host: the last one given, if any that was given is
    not empty, and otherwise that of the URL. *)
Theorem request_built headers host body req : headers_ok (m_headers req) → m_headers req = [] → m_close req = true →
  let r := finish_request headers host body req in
  headers_ok (m_headers r) ∧ m_body r = body ∧
  m_method r = m_method req ∧ m_path r = m_path req ∧ m_query r = m_query req ∧ m_fragment r = m_fragment req ∧
  m_close r = negb (existsb keeps headers) ∧
  (∀ k, lookup_ci k (m_headers r) = last_value k (effective headers host)) ∧
  lookup_ci (B "connection") (m_headers r) = None ∧
  is_Some (lookup_ci (B "host") (m_headers r)) ∧
  (existsb names_host headers = false → lookup_ci (B "host") (m_headers r) = Some host).
Proof.
  intros Hok He Hc r. pose proof (apply_headers_spec headers false req Hok) as (H1 & H2 & H3 & H4 & H5).
  unfold r, finish_request. clear r. destruct (apply_headers headers false req) as [b r]. cbn [fst snd orb] in *. subst b.
  destruct H5 as (? & ? & ? & ? & ? & ? & ?). rewrite Hc in H3. cbn in H3.
  set (r' := if existsb names_host headers then r else setHeader (B "Host") host r).
  assert (∀ k, lookup_ci k (m_headers r') = last_value k (effective headers host)) as Hl.
  { intros k. unfold effective, r'. rewrite last_value_app.
    destruct (existsb names_host headers); cbn [m_headers setHeader].
    - rewrite H2, He. cbn. by destruct (last_value k _).
    - unfold setHeader. cbn [m_headers setHeaders]. rewrite lookup_assign, H2, He by done.
      rewrite last_value_cons. change (last_value k []) with (@None bytes). cbn [fst snd].
      destruct (decide (ci_key k = ci_key (B "Host"))), (decide (ci_key (B "Host") = ci_key k));
        try congruence. by destruct (last_value k _). }
  assert (headers_ok (m_headers r') ∧ same_rest r' req ∧ m_close r' = m_close r)
    as (Hok' & (E1 & _ & _ & E4 & E5 & E6 & _) & E7).
  { unfold r'. destruct (existsb names_host headers); [done|]. split; [by apply assign_ok|done]. }
  cbn. rewrite E1, E4, E5, E6, E7. split_and!; try done.
  - rewrite Hl. unfold effective. rewrite last_value_app. rewrite (last_value_none _ (filter _ _)), last_value_none; [done| |].
    + intros h Hh. destruct (existsb names_host headers); [by apply elem_of_nil in Hh|]. by apply list_elem_of_singleton in Hh as ->.
    + by intros h [Hh _]%list_elem_of_filter.
  - rewrite Hl. destruct (existsb names_host headers) eqn:Eh.
    + apply existsb_exists in Eh as (h & Hin & [Hk _]%andb_prop). apply bool_decide_eq_true in Hk.
      apply last_value_some with h; [|done]. apply elem_of_app. left. apply list_elem_of_filter.
      split; [|by apply list_elem_of_In]. unfold is_connection. by rewrite Hk.
    + apply last_value_some with (B "Host", host); [|done]. unfold effective. rewrite Eh. set_solver.
  - intros Eh. rewrite Hl. unfold effective. rewrite Eh, last_value_app. done.
Qed.

(** A client that asks for [/a] with a host of its own and a connection
    header. *)
Definition sample_headers : headers_map :=
  [(B "Accept", B "*/*"); (B "Connection", B "Keep-Alive"); (B "HOST", B "example.com")].
Definition sample_base : HttpRequest := setMethod 1 (setPath (B "/a") make_HttpRequest).

Lemma request_built_witness :
  let r := finish_request sample_headers (B "fallback") (B "body") sample_base in
  (headers_ok (m_headers r) ∧ m_body r = B "body" ∧
   m_method r = m_method sample_base ∧ m_path r = m_path sample_base ∧ m_query r = m_query sample_base ∧
   m_fragment r = m_fragment sample_base ∧
   m_close r = negb (existsb keeps sample_headers) ∧
   (∀ k, lookup_ci k (m_headers r) = last_value k (effective sample_headers (B "fallback"))) ∧
   lookup_ci (B "connection") (m_headers r) = None ∧
   is_Some (lookup_ci (B "host") (m_headers r)) ∧
   (existsb names_host sample_headers = false → lookup_ci (B "host") (m_headers r) = Some (B "fallback"))) ∧
  dump r = B "GET /a HTTP/1.1" ++ crlf ++ B "connection: keep-alive" ++ crlf ++ B "Accept: */*" ++ crlf
           ++ B "HOST: example.com" ++ crlf ++ B "content-length: 4" ++ crlf ++ crlf ++ B "body".
Proof.
  split; [|vm_compute; reflexivity].
  apply (request_built sample_headers (B "fallback") (B "body") sample_base); [constructor|reflexivity|reflexivity].
Defined.

(** Two spellings of the host, the second empty: the request goes out with an
    empty host. *)
Example empty_host :
  lookup_ci (B "host") (m_headers (finish_request [(B "HOST", B "a"); (B "host", [])] (B "b") [] sample_base)) = Some [].
Proof. reflexivity. Qed.
