(* ===== verification/HttpPool.v ===== *)
(** * The pool of HTTP connections ([http/http_connection.h], [http/http_connection.cc])

    Connections are objects on a heap, named by numbers that are not used
    again; the pool holds pointers to those at rest.  [getConnection] takes the
    lock for its first part only, so that it is three steps; the deleter of
    the pointer it hands out is [ReleasePtr].  [world] adds what the callers
    hold, so that "deleted once" and "counted exactly" can be stated for any
    interleaving. *)
From S2P Require Import Prelude StdString.
From S2P Require Http Uri.
From S2P Require Import HttpClient.
From stdpp Require Import gmap.

Local Open Scope Z_scope.

(** [m_createTime] is 0 from the start and nothing assigns it. *)
(* sylar/http/http_connection.h:204-208, HttpConnection *)
Record HttpConnection := mkConnection { m_createTime : Z; m_request : Z; isConnected : bool }.

(* sylar/http/http_connection.h:334-345, HttpConnectionPool *)
Record config := mkConfig {
  m_host : bytes;
  m_vhost : bytes;
  m_port : Z;
  m_maxSize : Z;
  m_maxAliveTime : Z;
  m_maxRequest : Z
}.

(* sylar/http/http_connection.h:346-351, HttpConnectionPool *)
Record HttpConnectionPool := mkPool {
  objs : gmap nat HttpConnection;
  next : nat;
  m_conns : list nat;
  m_total : Z
}.

(* sylar/http/http_connection.cc:271-283, HttpConnectionPool::HttpConnectionPool *)
Definition new_HttpConnectionPool : HttpConnectionPool := mkPool ∅ 0 [] 0.

Section pool.
Context (c : config).

Definition set_objs o s := mkPool o (next s) (m_conns s) (m_total s).
Definition set_conns l s := mkPool (objs s) (next s) l (m_total s).
Definition set_total n s := mkPool (objs s) (next s) (m_conns s) (i32 n).

Definition conn_at (p : nat) : stE HttpConnectionPool HttpConnection :=
  query (λ s, match objs s !! p with Some x => Ret x | None => Crash dangling end).
Definition put_conn (p : nat) (x : HttpConnection) : stE HttpConnectionPool unit :=
  _ ← conn_at p; modify (λ s, set_objs (<[p := x]> (objs s)) s).
(** [delete ptr]. *)
Definition delete_conn (p : nat) : stE HttpConnectionPool unit :=
  _ ← conn_at p; modify (λ s, set_objs (delete p (objs s)) s).

(* sylar/http/http_connection.cc:290-303, HttpConnectionPool::getConnection *)
Fixpoint pop_conns (now_ms : Z) (o : gmap nat HttpConnection) (conns invalid_conns : list nat) :
    outcome (list nat * list nat * option nat) :=
  match conns with
  | [] => Ret (invalid_conns, [], None)
  | p :: rest =>
      match o !! p with
      | None => Crash dangling
      | Some conn =>
          if negb (isConnected conn) then pop_conns now_ms o rest (invalid_conns ++ [p])
          else if now_ms <? u64 (m_createTime conn + m_maxAliveTime c) then pop_conns now_ms o rest (invalid_conns ++ [p])
          else Ret (invalid_conns, rest, Some p)
      end
  end.

(** Under the lock. *)
(* sylar/http/http_connection.cc:286-304, HttpConnectionPool::getConnection *)
Definition get_take (now_ms : Z) : stE HttpConnectionPool (list nat * option nat) :=
  s ← get;
  r ← query (λ s, pop_conns now_ms (objs s) (m_conns s) []);
  _ ← modify (set_conns r.1.2);
  mret (r.1.1, r.2).

Fixpoint delete_all (l : list nat) : stE HttpConnectionPool unit :=
  match l with [] => mret tt | p :: r => _ ← delete_conn p; delete_all r end.

(* sylar/http/http_connection.cc:305-308, HttpConnectionPool::getConnection *)
Definition get_discard (invalid_conns : list nat) : stE HttpConnectionPool unit :=
  _ ← delete_all invalid_conns;
  modify (λ s, set_total (m_total s - Z.of_nat (length invalid_conns)) s).

(** [connects]: the host was found, a socket made and connected. *)
(* sylar/http/http_connection.cc:310-329, HttpConnectionPool::getConnection *)
Definition get_connect (connects : bool) : stE HttpConnectionPool (option nat) :=
  if negb connects then mret None
  else λ s, (Ret (Some (next s)),
             mkPool (<[next s := mkConnection 0 0 true]> (objs s)) (S (next s)) (m_conns s) (i32 (m_total s + 1))).

(* sylar/http/http_connection.cc:285-333, HttpConnectionPool::getConnection *)
Definition getConnection (now_ms : Z) (connects : bool) : stE HttpConnectionPool (option nat) :=
  r ← get_take now_ms;
  _ ← get_discard r.1;
  match r.2 with Some p => mret (Some p) | None => get_connect connects end.

(* sylar/http/http_connection.cc:335-346, HttpConnectionPool::ReleasePtr *)
Definition ReleasePtr (now_ms : Z) (p : nat) : stE HttpConnectionPool unit :=
  x ← conn_at p;
  let x := mkConnection (m_createTime x) (u64 (m_request x + 1)) (isConnected x) in
  _ ← put_conn p x;
  if negb (isConnected x) || (now_ms <=? u64 (m_createTime x + m_maxAliveTime c)) || (m_maxRequest c <=? m_request x)
  then _ ← delete_conn p; modify (λ s, set_total (m_total s - 1) s)
  else modify (λ s, set_conns (m_conns s ++ [p]) s).

(** The holder of a connection closes its socket. *)
Definition close_conn (p : nat) : stE HttpConnectionPool unit :=
  x ← conn_at p; put_conn p (mkConnection (m_createTime x) (m_request x) false).

(** [now_ms], [later]: the clock when the connection is taken and when it is
    given back, which happens on every path once there is one. *)
(* sylar/http/http_connection.cc:437-467, HttpConnectionPool::doRequest *)
Definition doRequest (max buff_size : Z) (peer : outcome bytes) (timeout_ms now_ms later : Z) (net : network) :
    stE HttpConnectionPool HttpResult :=
  conn ← getConnection now_ms (connects net);
  match conn with
  | None => mret (mkResult POOL_GET_CONNECTION None (B "pool host:" ++ m_host c ++ B " port:" ++ to_string (m_port c)))
  | Some p =>
      '(r, open) ← query (λ _, exchange max buff_size net peer timeout_ms);
      _ ← (if (open : bool) then mret tt else close_conn p);
      _ ← ReleasePtr later p;
      mret r
  end.

(** The request a pool sends, and the result; from a URI the target is its
    path, query and fragment. *)
Definition pool_request (method : Z) (url : bytes) (headers : headers_map) (body : bytes) : Http.HttpRequest :=
  request_of_target method url (m_host c) (m_vhost c) headers body.
(* sylar/http/http_connection.cc:348-353, HttpConnectionPool::doGet *)
Definition doGet := pool_request 1.
(* sylar/http/http_connection.cc:368-373, HttpConnectionPool::doPost *)
Definition doPost := pool_request 3.
(** These join the parts themselves. *)
(* sylar/http/http_connection.cc:359-364, HttpConnectionPool::doGet *)
Definition doGet_uri (uri : Uri.Uri) := doGet (target_of uri).
(* sylar/http/http_connection.cc:379-384, HttpConnectionPool::doPost *)
Definition doPost_uri (uri : Uri.Uri) := doPost (target_of uri).
(* sylar/http/http_connection.cc:423-435, HttpConnectionPool::doRequest *)
Definition doRequest_uri (method : Z) (uri : Uri.Uri) := pool_request method (target_of uri).

(* ------------------------------------------------------------------ *)
(** ** The pool and its callers *)

(** [out]: the connections handed out; [dying]: for each thread between the
    lock and the deletions, those it is to delete. *)
Record world := mkWorld { pool : HttpConnectionPool; out : list nat; dying : list (list nat) }.

Inductive event :=
  | Take (now : Z) | Discard (i : nat) | Connect (ok : bool) | Close (p : nat) | Release (now : Z) (p : nat).

Definition with_pool {A} (w : world) (m : stE HttpConnectionPool A) (f : A → HttpConnectionPool → world) : outcome world :=
  match m (pool w) with (Ret a, s) => Ret (f a s) | (Throw e, _) => Throw e | (Crash x, _) => Crash x end.

Definition run_event (e : event) (w : world) : outcome world :=
  match e with
  | Take now => with_pool w (get_take now) (λ r s,
      mkWorld s (match r.2 with Some p => p :: out w | None => out w end) (r.1 :: dying w))
  | Discard i =>
      match dying w !! i with
      | None => Ret w
      | Some l => with_pool w (get_discard l) (λ _ s, mkWorld s (out w) (delete i (dying w)))
      end
  | Connect ok => with_pool w (get_connect ok) (λ r s,
      mkWorld s (match r with Some p => p :: out w | None => out w end) (dying w))
  | Close p => with_pool w (close_conn p) (λ _ s, mkWorld s (out w) (dying w))
  | Release now p => with_pool w (ReleasePtr now p) (λ _ s,
      mkWorld s (filter (λ q, q ≠ p) (out w)) (dying w))
  end.

(** Only a connection that was handed out is used or given back. *)
Definition allowed (e : event) (w : world) : Prop :=
  match e with
  | Close p | Release _ p => p ∈ out w
  | _ => True
  end.

Fixpoint run (es : list event) (w : world) : outcome world :=
  match es with [] => Ret w | e :: es => w ← run_event e w; run es w end.

(** A history whose every event is allowed when it comes. *)
Fixpoint history (es : list event) (w : world) : Prop :=
  match es with
  | [] => True
  | e :: es => allowed e w ∧ match run_event e w with Ret w' => history es w' | _ => True end
  end.
End pool.
