(* ===== verification/HttpPoolTheorems.v ===== *)
(** * The pool of connections: ownership and reuse

    Whatever the threads do in whatever order, every connection is in exactly
    one place - at rest in the pool, with a caller, or about to be deleted -
    and [m_total] counts them.  Then, which connections are used again. *)
From S2P Require Import Prelude StdString HttpClient HttpPool.
From stdpp Require Import gmap.

Local Open Scope Z_scope.

(** Arithmetic on a wrapped counter. *)
Lemma wraps_mod w a b : a mod 2 ^ w = b mod 2 ^ w → wraps w a = wraps w b.
Proof. intros E. unfold wraps. by rewrite E. Qed.
Lemma i32_add a b : i32 (i32 a + b) = i32 (a + b).
Proof.
  apply wraps_mod. pose proof (wrapu_wraps 32 a eq_refl) as E. unfold wrapu in E.
  by rewrite <- Z.add_mod_idemp_l, E, Z.add_mod_idemp_l by lia.
Qed.

Lemma i32_sub a b : i32 (i32 a - b) = i32 (a - b).
Proof. apply (i32_add a (- b)). Qed.

Section theorems.
Context (c : config).
Context (Hmax : in_u 32 (m_maxRequest c)) (Halive : in_u 32 (m_maxAliveTime c)).
Implicit Types (s : HttpConnectionPool) (w : world) (h l : list nat).

(** The connections that exist are those of [h], each once; the counter is
    their number; none was used too often. *)
Record owns s h : Prop := {
  owns_nodup : NoDup h;
  owns_live p : p ∈ h ↔ is_Some (objs s !! p);
  owns_next p : is_Some (objs s !! p) → (p < next s)%nat;
  owns_total : m_total s = i32 (Z.of_nat (length h));
  owns_object p x : objs s !! p = Some x → m_createTime x = 0 ∧ 0 <= m_request x < Z.max 1 (m_maxRequest c)
}.

(** A connection at rest is open and was used. *)
Definition rested s : Prop := ∀ p x, p ∈ m_conns s → objs s !! p = Some x → isConnected x = true ∧ 1 <= m_request x.

Definition held w : list nat := m_conns (pool w) ++ out w ++ mjoin (dying w).
Definition inv w : Prop := owns (pool w) (held w) ∧ rested (pool w).

#[global] Instance owns_proper s : Proper ((≡ₚ) ==> iff) (owns s).
Proof.
  assert (∀ h h', h ≡ₚ h' → owns s h → owns s h') as H.
  { intros h h' E [H1 H2 H3 H4 H5]. split; [by rewrite <- E| |done| |done].
    - intros p. by rewrite <- E.
    - by rewrite <- E. }
  intros h h' E. split; by apply H.
Qed.

Lemma owns_lookup s h p : owns s h → p ∈ h → ∃ x, objs s !! p = Some x.
Proof. intros H Hp. by apply (owns_live _ _ H) in Hp. Qed.

Lemma owns_conns s h l : owns s h → owns (set_conns l s) h.
Proof. by intros [? ? ? ? ?]. Qed.

(** Writing to a connection that exists. *)
Lemma owns_put s h p x y : owns s h → objs s !! p = Some x →
  m_createTime y = 0 → 0 <= m_request y < Z.max 1 (m_maxRequest c) → owns (set_objs (<[p := y]> (objs s)) s) h.
Proof.
  intros [H1 H2 H3 H4 H5] Hx Hy1 Hy2. split; cbn; try done.
  - intros q. rewrite H2. destruct (decide (p = q)) as [->|]; [rewrite lookup_insert_eq, Hx|by rewrite lookup_insert_ne].
    split; intros _; by eexists.
  - intros q Hq. apply H3. destruct (decide (p = q)) as [->|]; [by rewrite Hx|by rewrite lookup_insert_ne in Hq].
  - intros q z Hq. destruct (decide (p = q)) as [->|]; [|rewrite lookup_insert_ne in Hq by done; by apply (H5 q)].
    rewrite lookup_insert_eq in Hq. by injection Hq as <-.
Qed.

(** Deleting some of them, and counting down. *)
Definition without l (o : gmap nat HttpConnection) : gmap nat HttpConnection := filter (λ kx, kx.1 ∉ l) o.

Lemma lookup_without l o p : without l o !! p = if decide (p ∈ l) then None else o !! p.
Proof.
  unfold without. case_decide as Hp.
  - apply map_lookup_filter_None. right. intros x _ Hn. by apply Hn.
  - destruct (o !! p) as [x|] eqn:E.
    + by apply map_lookup_filter_Some.
    + apply map_lookup_filter_None. by left.
Qed.

Lemma owns_remove s h l : owns s (l ++ h) →
  owns (set_total (m_total s - Z.of_nat (length l)) (set_objs (without l (objs s)) s)) h.
Proof.
  intros [H1 H2 H3 H4 H5]. apply NoDup_app in H1 as (Hl & Hd & Hh). split; cbn.
  - done.
  - intros p. rewrite lookup_without. case_decide as Hp.
    + split; [intros Hin; by destruct (Hd p Hp)|by intros [? ?]].
    + rewrite <- H2, elem_of_app. tauto.
  - intros p. rewrite lookup_without. case_decide; [by intros [? ?]|]. apply H3.
  - rewrite H4, length_app, i32_sub, Nat2Z.inj_add. f_equal. lia.
  - intros p x. rewrite lookup_without. case_decide; [done|]. apply H5.
Qed.

(* ------------------------------------------------------------------ *)
(** ** What each part of the code does *)

Lemma conn_at_ret s p x : objs s !! p = Some x → conn_at p s = (Ret x, s).
Proof. intros E. unfold conn_at, query. by rewrite E. Qed.

Lemma put_conn_ret s p x y : objs s !! p = Some x → put_conn p y s = (Ret tt, set_objs (<[p := y]> (objs s)) s).
Proof. intros E. unfold put_conn. by rewrite (stE_bind_ret _ _ _ _ _ (conn_at_ret s p x E)). Qed.

Lemma delete_conn_ret s p x : objs s !! p = Some x → delete_conn p s = (Ret tt, set_objs (delete p (objs s)) s).
Proof. intros E. unfold delete_conn. by rewrite (stE_bind_ret _ _ _ _ _ (conn_at_ret s p x E)). Qed.

Lemma delete_all_ret l s : NoDup l → (∀ p, p ∈ l → is_Some (objs s !! p)) →
  delete_all l s = (Ret tt, set_objs (without l (objs s)) s).
Proof.
  revert s. induction l as [|p l IH]; intros s Hl Hin; cbn [delete_all].
  { f_equal. destruct s as [o n m t]. unfold set_objs. cbn. f_equal. apply map_eq. intros q.
    rewrite lookup_without, decide_False; [done|]. apply not_elem_of_nil. }
  apply NoDup_cons in Hl as [Hp Hl]. destruct (Hin p) as [x Hx]; [by left|].
  rewrite (stE_bind_ret _ _ _ _ _ (delete_conn_ret s p x Hx)). rewrite IH; [|done|].
  - f_equal. unfold set_objs. cbn. f_equal. apply map_eq. intros q. rewrite !lookup_without.
    destruct (decide (p = q)) as [->|Hne].
    + rewrite lookup_delete_eq, (decide_True (P := q ∈ q :: l)) by by left. by case_decide.
    + rewrite lookup_delete_ne by done. destruct (decide (q ∈ l)), (decide (q ∈ p :: l)); set_solver.
  - intros q Hq. cbn. rewrite lookup_delete_ne by (by intros ->). apply Hin. by right.
Qed.

Lemma pop_conns_ret now o conns acc : (∀ p, p ∈ conns → is_Some (o !! p)) →
  ∃ l rest ptr, pop_conns c now o conns acc = Ret (acc ++ l, rest, ptr) ∧ conns = l ++ option_list ptr ++ rest.
Proof.
  revert acc. induction conns as [|p conns IH]; intros acc H; cbn [pop_conns].
  { exists [], [], None. by rewrite app_nil_r. }
  destruct (H p) as [x ->]; [by left|].
  assert (∃ l rest ptr, pop_conns c now o conns (acc ++ [p]) = Ret (acc ++ l, rest, ptr) ∧
    p :: conns = l ++ option_list ptr ++ rest) as Hskip.
  { destruct (IH (acc ++ [p])) as (l & rest & ptr & -> & ->); [intros; apply H; by right|].
    exists (p :: l), rest, ptr. by rewrite <- (assoc_L (++)). }
  destruct (negb (isConnected x)); [done|]. destruct (now <? _); [done|].
  exists [], conns, (Some p). by rewrite app_nil_r.
Qed.

Lemma held_owns w p : inv w → p ∈ held w → ∃ x, objs (pool w) !! p = Some x.
Proof. intros [H _]. by apply owns_lookup. Qed.

Lemma rested_conns s l : rested s → l ⊆ m_conns s → rested (set_conns l s).
Proof. intros H Hl p x Hp. apply H. by apply Hl. Qed.

(** Changing what nobody at rest has. *)
Lemma rested_objs s o : rested s → (∀ p, p ∈ m_conns s → o !! p = objs s !! p) → rested (set_objs o s).
Proof. intros H Ho p x Hp. cbn in *. rewrite Ho by done. by apply H. Qed.

Lemma take_inv now w : inv w → ∃ r s, get_take c now (pool w) = (Ret r, s) ∧
  inv (mkWorld s (match r.2 with Some p => p :: out w | None => out w end) (r.1 :: dying w)).
Proof.
  intros Hw. pose proof Hw as [Ho Hr].
  destruct (pop_conns_ret now (objs (pool w)) (m_conns (pool w)) []) as (l & rest & ptr & E & Ec).
  { intros p Hp. destruct (held_owns w p Hw) as [x ->]; [|by eexists]. unfold held. set_solver. }
  unfold get_take. rewrite get_bind, (stE_bind_ret _ _ (pool w) ([] ++ l, rest, ptr) (pool w)) by (unfold query; by rewrite E).
  rewrite modify_bind. do 2 eexists. split; [done|]. cbn [app fst snd]. split.
  - unfold held in *. cbn [pool out dying set_conns m_conns mjoin list_join].
    apply owns_conns. revert Ho. apply owns_proper. rewrite Ec. destruct ptr as [p|]; cbn [option_list app]; solve_Permutation.
  - cbn [pool]. apply rested_conns; [done|]. rewrite Ec. set_solver.
Qed.

Lemma discard_inv i l w : inv w → dying w !! i = Some l →
  ∃ s, get_discard l (pool w) = (Ret tt, s) ∧ inv (mkWorld s (out w) (delete i (dying w))).
Proof.
  intros Hw Hi. pose proof Hw as [Ho Hr].
  assert (held w ≡ₚ l ++ m_conns (pool w) ++ out w ++ mjoin (delete i (dying w))) as E.
  { unfold held. assert (mjoin (dying w) ≡ₚ l ++ mjoin (delete i (dying w))) as ->; [|solve_Permutation].
    by rewrite (delete_Permutation (dying w) i l Hi) at 1. }
  rewrite E in Ho. pose proof (owns_nodup _ _ Ho) as Hnd. apply NoDup_app in Hnd as (Hl & Hd & _).
  unfold get_discard. rewrite (stE_bind_ret _ _ _ _ _ (delete_all_ret l (pool w) Hl
    ltac:(intros p Hp; apply (owns_live _ _ Ho); set_solver))).
  eexists. split; [done|]. split.
  - apply (owns_remove _ _ l) in Ho. unfold held. cbn. exact Ho.
  - apply (rested_objs _ (without l (objs (pool w)))) in Hr; [exact Hr|].
    intros p Hp. rewrite lookup_without, decide_False; [done|]. intros Hpl. apply (Hd p Hpl). set_solver.
Qed.

(** A new connection. *)
Lemma owns_new s h : owns s h →
  owns (mkPool (<[next s := mkConnection 0 0 true]> (objs s)) (S (next s)) (m_conns s) (i32 (m_total s + 1))) (next s :: h).
Proof.
  intros [H1 H2 H3 H4 H5].
  assert (objs s !! next s = None) as Hn.
  { apply eq_None_not_Some. intros Hs. apply H3 in Hs. lia. }
  split; cbn [objs next m_total].
  - apply NoDup_cons. split; [|done]. rewrite H2, Hn. by intros [? ?].
  - intros p. rewrite elem_of_cons, H2, lookup_insert_is_Some. destruct (decide (p = next s)) as [->|]; naive_solver.
  - intros p. rewrite lookup_insert_is_Some. intros [<-|[_ Hp]]; [lia|]. apply H3 in Hp. lia.
  - rewrite H4, i32_add. cbn [length]. f_equal. lia.
  - intros p x [[<- <-]|[_ Hp]]%lookup_insert_Some; [cbn; lia|]. by apply (H5 p).
Qed.

Lemma connect_inv ok w : inv w → ∃ r s, get_connect ok (pool w) = (Ret r, s) ∧
  inv (mkWorld s (match r with Some p => p :: out w | None => out w end) (dying w)).
Proof.
  intros [Ho Hr]. destruct ok; (do 2 eexists; split; [done|]); [|by destruct w]. split; cbn [pool].
  - unfold held in *. cbn [pool out dying m_conns]. apply owns_new in Ho. revert Ho. apply owns_proper. solve_Permutation.
  - intros p x Hp. cbn [objs m_conns] in *. rewrite lookup_insert_ne; [by apply Hr|].
    intros <-. destruct (owns_lookup _ _ (next (pool w)) Ho) as [y Hy]; [unfold held; set_solver|].
    assert (is_Some (objs (pool w) !! next (pool w))) as Hs%(owns_next _ _ Ho) by (by eexists). lia.
Qed.

(** What a caller holds is not at rest. *)
Lemma out_not_rested w p : inv w → p ∈ out w → p ∉ m_conns (pool w).
Proof.
  intros [Ho _] Hp Hc. pose proof (owns_nodup _ _ Ho) as H. unfold held in H.
  apply NoDup_app in H as (_ & Hd & _). apply (Hd p Hc). set_solver.
Qed.

(** A write to a connection a caller holds. *)
Lemma put_out_inv w p x y : inv w → p ∈ out w → objs (pool w) !! p = Some x →
  m_createTime y = 0 → 0 <= m_request y < Z.max 1 (m_maxRequest c) →
  inv (mkWorld (set_objs (<[p := y]> (objs (pool w))) (pool w)) (out w) (dying w)).
Proof.
  intros Hw Hp Hx Hy1 Hy2. pose proof Hw as [Ho Hr]. split.
  - unfold held. cbn [pool out dying set_objs m_conns]. by apply (owns_put _ _ _ x).
  - apply rested_objs; [done|]. intros q Hq. apply lookup_insert_ne. intros ->. by apply (out_not_rested w q Hw).
Qed.

Lemma close_inv p w : inv w → p ∈ out w → ∃ s, close_conn p (pool w) = (Ret tt, s) ∧ inv (mkWorld s (out w) (dying w)).
Proof.
  intros Hw Hp. destruct (held_owns w p Hw) as [x Hx]; [unfold held; set_solver|].
  unfold close_conn. rewrite (stE_bind_ret _ _ _ _ _ (conn_at_ret _ p x Hx)), (put_conn_ret _ p x _ Hx).
  eexists. split; [done|]. pose proof Hw as [Ho _]. destruct (owns_object _ _ Ho p x Hx) as [? ?]. by apply (put_out_inv w p x).
Qed.

Lemma remove_one (p : nat) (l : list nat) : NoDup l → p ∈ l → l ≡ₚ p :: filter (λ q, q ≠ p) l.
Proof.
  induction 1 as [|q l Hq Hl IH]; [by intros ?%elem_of_nil|]. intros [->|Hp]%elem_of_cons; rewrite filter_cons.
  - rewrite decide_False by (intros E; by apply E). f_equiv. clear IH Hl. induction l as [|r l IH]; [done|].
    apply not_elem_of_cons in Hq as [Hne Hq]. rewrite filter_cons, decide_True by done. f_equiv. by apply IH.
  - rewrite decide_True by (intros ->; done). rewrite (IH Hp) at 1. apply Permutation_swap.
Qed.

(** What [ReleasePtr] does with a connection that is used once more. *)
Definition kept now (x : HttpConnection) : bool :=
  isConnected x && (m_maxAliveTime c <? now) && (m_request x + 1 <? m_maxRequest c).

Lemma release_ret now p s h x : owns s h → objs s !! p = Some x →
  let s1 := set_objs (<[p := mkConnection 0 (m_request x + 1) (isConnected x)]> (objs s)) s in
  ReleasePtr c now p s = (Ret tt, if kept now x then set_conns (m_conns s ++ [p]) s1
                                  else set_total (m_total s - 1) (set_objs (delete p (objs s1)) s)).
Proof.
  intros Ho Hx. destruct (owns_object _ _ Ho p x Hx) as [Hc Hm].
  assert (in_u 64 (m_request x + 1) ∧ in_u 64 (m_maxAliveTime c)) as [Hu Hv] by (unfold in_u in *; lia).
  unfold ReleasePtr. rewrite (stE_bind_ret _ _ _ _ _ (conn_at_ret s p x Hx)).
  rewrite (stE_bind_ret _ _ _ _ _ (put_conn_ret s p x _ Hx)). cbn [m_createTime m_request isConnected].
  rewrite Hc, Z.add_0_l, (wrapu_small 64 (m_request x + 1) Hu), (wrapu_small 64 (m_maxAliveTime c) Hv).
  unfold kept. rewrite !Z.leb_antisym. destruct (isConnected x), (m_maxAliveTime c <? now), (m_request x + 1 <? m_maxRequest c);
    cbn [negb andb orb]; try done;
    by rewrite (stE_bind_ret _ _ _ _ _ (delete_conn_ret _ p _ (lookup_insert_eq _ _ _))).
Qed.

Lemma delete_without p (o : gmap nat HttpConnection) x : delete p (<[p := x]> o) = without [p] o.
Proof.
  apply map_eq. intros q. rewrite lookup_without. case_decide as E; rewrite list_elem_of_singleton in E.
  - subst. by rewrite lookup_delete_eq.
  - by rewrite lookup_delete_ne, lookup_insert_ne.
Qed.

Lemma release_inv now p w : inv w → p ∈ out w → ∃ s, ReleasePtr c now p (pool w) = (Ret tt, s) ∧
  inv (mkWorld s (filter (λ q, q ≠ p) (out w)) (dying w)).
Proof.
  intros Hw Hp. pose proof Hw as [Ho Hr]. destruct (held_owns w p Hw) as [x Hx]; [unfold held; set_solver|].
  rewrite (release_ret now p _ _ x Ho Hx). eexists. split; [done|]. destruct (owns_object _ _ Ho p x Hx) as [Hc Hm].
  assert (out w ≡ₚ p :: filter (λ q, q ≠ p) (out w)) as E.
  { apply remove_one; [|done]. pose proof (owns_nodup _ _ Ho) as H. unfold held in H.
    apply NoDup_app in H as (_ & _ & H). by apply NoDup_app in H as (H & _). }
  destruct (kept now x) eqn:Ek.
  - unfold kept in Ek. apply andb_prop in Ek as [[Ei Ea]%andb_prop Em]. apply Z.ltb_lt in Em.
    destruct (put_out_inv w p x (mkConnection 0 (m_request x + 1) (isConnected x)) Hw Hp Hx) as [Ho' Hr']; [done|cbn; lia|].
    split.
    + unfold held in *. cbn [pool out dying set_conns set_objs m_conns] in *. apply owns_conns.
      revert Ho'. apply owns_proper. rewrite E at 2. solve_Permutation.
    + intros q y. cbn [pool set_conns m_conns]. intros [Hq|Hq%list_elem_of_singleton]%elem_of_app; [by apply Hr'|subst q].
      cbn [objs set_conns set_objs]. rewrite lookup_insert_eq. intros [= <-]. cbn. split; [done|lia].
  - cbn [objs set_objs]. rewrite delete_without. split.
    + assert (owns (pool w) ([p] ++ m_conns (pool w) ++ filter (λ q, q ≠ p) (out w) ++ mjoin (dying w))) as H.
      { revert Ho. apply owns_proper. unfold held. rewrite E at 2. solve_Permutation. }
      apply owns_remove in H. exact H.
    + apply (rested_objs _ (without [p] (objs (pool w)))) in Hr; [exact Hr|].
      intros q Hq. rewrite lookup_without, decide_False; [done|]. intros Hqp%list_elem_of_singleton. subst q. by apply (out_not_rested w p Hw).
Qed.

Lemma run_event_inv e w : inv w → allowed e w → ∃ w', run_event c e w = Ret w' ∧ inv w'.
Proof.
  intros Hw Ha. unfold run_event, with_pool. destruct e as [now|i|ok|p|now p]; cbn [allowed] in Ha.
  - destruct (take_inv now w Hw) as (r & s & -> & H). by eexists.
  - destruct (dying w !! i) as [l|] eqn:Ei; [|by eexists]. destruct (discard_inv i l w Hw Ei) as (s & -> & H). by eexists.
  - destruct (connect_inv ok w Hw) as (r & s & -> & H). by eexists.
  - destruct (close_inv p w Hw Ha) as (s & -> & H). by eexists.
  - destruct (release_inv now p w Hw Ha) as (s & -> & H). by eexists.
Qed.

Lemma run_inv es w : inv w → history c es w → ∃ w', run c es w = Ret w' ∧ inv w'.
Proof.
  revert w. induction es as [|e es IH]; intros w Hw; cbn [run history]; [by eexists|]. intros [Ha Hh].
  destruct (run_event_inv e w Hw Ha) as (w' & E & Hw'). rewrite E in *. by apply IH.
Qed.

Definition start : world := mkWorld new_HttpConnectionPool [] [].

Lemma start_inv : inv start.
Proof.
  split; [split; cbn|].
  - constructor.
  - intros p. rewrite lookup_empty. split; [by intros ?%elem_of_nil|by intros [? ?]].
  - intros p. rewrite lookup_empty. by intros [? ?].
  - done.
  - intros p x. by rewrite lookup_empty.
  - by intros p x ?%elem_of_nil.
Qed.

(** The clock against the time to live: all that is at rest is fit, or
    none of it is. *)
Lemma pop_conns_rested now s h conns acc : owns s h → rested s → (∀ p, p ∈ conns → p ∈ m_conns s ∧ p ∈ h) →
  pop_conns c now (objs s) conns acc =
    Ret (if now <? m_maxAliveTime c then (acc ++ conns, [], None)
         else match conns with [] => (acc, [], None) | p :: rest => (acc, rest, Some p) end).
Proof.
  intros Ho Hr. assert (in_u 64 (m_maxAliveTime c)) as Hv by (unfold in_u in *; lia).
  revert acc. induction conns as [|p conns IH]; intros acc H; cbn [pop_conns].
  { rewrite app_nil_r. by destruct (now <? _). }
  destruct (H p) as [Hp Hh]; [by left|]. destruct (owns_lookup _ _ _ Ho Hh) as [x Hx]. rewrite Hx.
  destruct (Hr p x Hp Hx) as [-> _]. destruct (owns_object _ _ Ho p x Hx) as [-> _].
  rewrite Z.add_0_l, (wrapu_small 64 (m_maxAliveTime c) Hv). cbn [negb]. destruct (now <? m_maxAliveTime c) eqn:En; [|done].
  rewrite IH by (intros; apply H; by right). by rewrite <- (assoc_L (++)).
Qed.

Lemma get_take_rested now w : inv w → let s := pool w in
  get_take c now s = if now <? m_maxAliveTime c then (Ret (m_conns s, None), set_conns [] s)
                     else (Ret ([], head (m_conns s)), set_conns (tail (m_conns s)) s).
Proof.
  intros [Ho Hr] s. unfold get_take. rewrite get_bind.
  assert (∀ p, p ∈ m_conns s → p ∈ m_conns s ∧ p ∈ held w) as Hc by (unfold held; set_solver).
  pose proof (pop_conns_rested now s (held w) (m_conns s) [] Ho Hr Hc) as Ep.
  unfold query. unfold mbind at 1, stE_bind at 1. rewrite Ep.
  destruct (now <? _); [done|]. by destruct (m_conns s).
Qed.
End theorems.

(** The same pool with another time to live. *)
Definition with_alive (t : Z) (c : config) : config :=
  mkConfig (m_host c) (m_vhost c) (m_port c) (m_maxSize c) t (m_maxRequest c).

Lemma inv_with_alive t c w : inv c w → inv (with_alive t c) w.
Proof. by intros [[] ?]. Qed.

(** C24: Whatever the threads that use a pool do, in whatever order - taking a
    connection, deleting the unfit ones found on the way, making a new one,
    losing one, giving one back - no part of the code touches a connection
    that was deleted, every connection that exists is in exactly one place
    (at rest, with a caller, or about to be deleted by one thread), [m_total]
    is their number, a connection at rest is open and was used at least once
    and fewer than [m_maxRequest] times.  What a taker gets nobody else
    holds. *)
Theorem pool_invariant (c : config) (Hmax : in_u 32 (m_maxRequest c)) (Halive : in_u 32 (m_maxAliveTime c))
    (es : list event) (Hes : history c es start) :
  ∃ w, run c es start = Ret w ∧ NoDup (held w) ∧
    (∀ p, p ∈ held w ↔ is_Some (objs (pool w) !! p)) ∧
    m_total (pool w) = i32 (Z.of_nat (length (held w))) ∧
    (∀ p x, p ∈ m_conns (pool w) → objs (pool w) !! p = Some x →
       isConnected x = true ∧ 1 <= m_request x < Z.max 1 (m_maxRequest c)) ∧
    (∀ now, ∃ r s, get_take c now (pool w) = (Ret r, s) ∧
       ∀ p, r.2 = Some p → p ∉ out w ∧ p ∉ m_conns s ∧ p ∉ mjoin (dying w)).
Proof.
  destruct (run_inv c Hmax Halive es start (start_inv c) Hes) as (w & E & Hw). exists w. pose proof Hw as [Ho Hr].
  split; [done|]. split; [by apply (owns_nodup c _ _ Ho)|]. split; [by apply (owns_live c _ _ Ho)|].
  split; [by apply (owns_total c _ _ Ho)|]. split.
  { intros p x Hp Hx. destruct (Hr p x Hp Hx). destruct (owns_object c _ _ Ho p x Hx). split; [done|lia]. }
  intros now. destruct (take_inv c Hmax Halive now w Hw) as (r & s & Et & Hi). exists r, s. split; [done|].
  intros p Hp. destruct Hi as [Hi _]. apply (owns_nodup c) in Hi. rewrite Hp in Hi. unfold held in Hi. cbn in Hi.
  apply NoDup_app in Hi as (_ & Hd & Hn). apply NoDup_cons in Hn as [Hn _].
  split_and!; [set_solver|intros Hc; apply (Hd p Hc); by left|set_solver].
Qed.

Definition shop : config := mkConfig (B "h") [] 80 10 5000 2.
Definition busy : list event :=
  [Take 9000; Discard 0; Connect true; Release 9000 0; Take 9001; Discard 0; Close 0; Take 9002; Connect true; Release 9003 0].

Lemma pool_invariant_witness : (in_u 32 2 ∧ in_u 32 5000) ∧ history shop busy start ∧
  (∃ w, run shop busy start = Ret w ∧ m_total (pool w) = 1 ∧ held w = [1%nat]) ∧
  ∃ w, run shop busy start = Ret w ∧ NoDup (held w).
Proof.
  assert (in_u 32 2 ∧ in_u 32 5000) as [H1 H2] by (unfold in_u; lia).
  assert (history shop busy start) as Hh by (vm_compute; repeat split; repeat constructor).
  split; [by split|]. split; [exact Hh|]. split; [by eexists; vm_compute|].
  destruct (pool_invariant shop H1 H2 busy Hh) as (w & E & Hn & _). by exists w.
Defined.

(** In a pool that any history led to: taking gives the connection that
    has rested longest and discards nothing if the clock has reached
    [m_maxAliveTime], and discards everything otherwise; an open connection
    given back after the clock has passed it is kept exactly until its
    [m_maxRequest]-th use.  Creation times are all 0, so with the clock of the
    system, which has long passed [2^32] milliseconds, the time to live the pool was
    given changes nothing. *)
Theorem pool_reuse (c : config) (Hmax : in_u 32 (m_maxRequest c)) (Halive : in_u 32 (m_maxAliveTime c))
    (es : list event) (w : world) (Hes : history c es start) (Hw : run c es start = Ret w) :
  let s := pool w in
  (∀ now, get_take c now s =
     if now <? m_maxAliveTime c then (Ret (m_conns s, None), set_conns [] s)
     else (Ret ([], head (m_conns s)), set_conns (tail (m_conns s)) s)) ∧
  (∀ now p x, p ∈ out w → objs s !! p = Some x → ∃ s', ReleasePtr c now p s = (Ret tt, s') ∧
     if isConnected x && (m_maxAliveTime c <? now) && (m_request x + 1 <? m_maxRequest c)
     then m_conns s' = m_conns s ++ [p] ∧ objs s' !! p = Some (mkConnection 0 (m_request x + 1) true) ∧ m_total s' = m_total s
     else m_conns s' = m_conns s ∧ objs s' !! p = None ∧ m_total s' = i32 (m_total s - 1)) ∧
  (∀ t now p, in_u 32 t → 2 ^ 32 <= now → p ∈ out w →
     get_take (with_alive t c) now s = get_take c now s ∧ ReleasePtr (with_alive t c) now p s = ReleasePtr c now p s).
Proof.
  destruct (run_inv c Hmax Halive es start (start_inv c) Hes) as (w' & E & Hi).
  rewrite Hw in E. injection E as <-. pose proof Hi as [Ho _]. intros s.
  assert (∀ p, p ∈ out w → ∃ x, objs s !! p = Some x) as Hout.
  { intros p Hp. apply (held_owns c w p Hi). unfold held. set_solver. }
  split; [intros now; by apply get_take_rested|]. split.
  - intros now p x Hp Hx. rewrite (release_ret c Hmax Halive now p s _ x Ho Hx). eexists. split; [done|].
    fold (kept c now x). destruct (kept c now x) eqn:Ek; cbn.
    + rewrite lookup_insert_eq. unfold kept in Ek. by destruct (isConnected x).
    + by rewrite lookup_delete_eq.
  - intros t now p Ht Hnow Hp. change t with (m_maxAliveTime (with_alive t c)) in Ht.
    pose proof (inv_with_alive t c w Hi) as Hi'. split.
    + subst s. rewrite !get_take_rested by done. by rewrite !(proj2 (Z.ltb_ge now _)) by (unfold in_u in *; lia).
    + destruct (Hout p Hp) as [x Hx].
      rewrite (release_ret c Hmax Halive now p s _ x Ho Hx), (release_ret (with_alive t c) Hmax Ht now p s _ x (proj1 Hi') Hx).
      unfold kept. by rewrite !(proj2 (Z.ltb_lt _ now)) by (unfold in_u in *; lia).
Qed.

Lemma pool_reuse_witness : (in_u 32 2 ∧ in_u 32 5000) ∧ history shop (busy ++ [Release 9003 1]) start ∧
  ∃ w, run shop (busy ++ [Release 9003 1]) start = Ret w ∧ get_take shop 9004 (pool w) = (Ret ([], Some 1%nat), set_conns [] (pool w)).
Proof.
  assert (in_u 32 2 ∧ in_u 32 5000) as [H1 H2] by (unfold in_u; lia).
  assert (history shop (busy ++ [Release 9003 1]) start) as Hh by (vm_compute; repeat split; repeat constructor).
  split; [by split|]. split; [exact Hh|].
  destruct (run shop (busy ++ [Release 9003 1]) start) as [w| |] eqn:E; [|by vm_compute in E..]. exists w. split; [done|].
  destruct (pool_reuse shop H1 H2 _ w Hh E) as [H _]. rewrite H. vm_compute in E. injection E as <-. vm_compute. reflexivity.
Defined.

(** A write that failed leaves the connection open: [doRequest] reports the
    error and the pool gives the same connection out again. *)
Example failed_send_reused :
  let net := mkNetwork true (-1) [] 32 (B "Broken pipe") in
  let s := (doRequest shop 1000 1000 (Ret (B "1.2.3.4:80")) 100 9000 9001 net new_HttpConnectionPool).2 in
  (doRequest shop 1000 1000 (Ret (B "1.2.3.4:80")) 100 9000 9001 net new_HttpConnectionPool).1
    = Ret (mkResult SEND_SOCKET_ERROR None (B "send request socket error errno=32 errstr=Broken pipe")) ∧
  (getConnection shop 9002 true s).1 = Ret (Some 0%nat).
Proof. by vm_compute. Qed.
