(* ===== verification/Yaml.v ===== *)
(** * What the code uses of YAML documents

    The library that reads and prints YAML is not part of this program.  The
    class has the operations the configuration and the logging call; the laws
    are the documented behaviour they rely on.  An instance at the end shows that
    the laws can hold. *)
From S2P Require Import Prelude StdString.
From stdpp Require Import gmap countable.

Local Open Scope Z_scope.

Class Yaml := {
  Node : Type;
  (** [YAML::Load], [operator<<]. *)
  Load : bytes → outcome Node;
  emit : Node → bytes;
  (** [IsDefined], [IsScalar], [IsMap], [Scalar], [as<std::string>]. *)
  IsDefined : Node → bool;
  IsScalar : Node → bool;
  IsMap : Node → bool;
  Scalar : Node → bytes;
  as_string : Node → outcome bytes;
  (** [size], [operator[]] with a position or a key, and the pairs of a map. *)
  node_size : Node → nat;
  index : Node → nat → Node;
  field : Node → bytes → Node;
  pairs : Node → list (Node * Node);
  (** Nodes built by conversion from a string, by [push_back] of each element
      and by assignment to each key in turn. *)
  scalar : bytes → Node;
  sequence : list Node → Node;
  mapping : list (bytes * Node) → Node
}.

(** The text of an integer. *)
Definition is_number (s : bytes) : bool :=
  let d := match s with c :: r => if bool_decide (c = "-"%char) then r else s | [] => s end in
  negb (bool_decide (d = [])) && forallb isdigit d.

(** A text that stands for itself in a document, quoted where the emitter
    must: printable characters, at least one, and none of the words YAML
    reads as null. *)
Definition yaml_text (s : bytes) : bool :=
  negb (bool_decide (s = [])) && forallb (char_in 32 126) s
  && negb (bool_decide (s ∈ [B "~"; B "null"; B "Null"; B "NULL"])).

(** The documents whose printing is relied on: built of such texts, of
    sequences and of maps with different keys.  Nothing is undefined in
    them. *)
#[warnings="-register-all"]
Inductive document {Y : Yaml} : Node → Prop :=
  | document_scalar s : yaml_text s = true → document (scalar s)
  | document_sequence l : Forall document l → document (sequence l)
  | document_mapping l : NoDup l.*1 → Forall (λ kn, yaml_text kn.1 = true ∧ document kn.2) l → document (mapping l).

(** Such a document is printed as a text that loads as the same document;
    numbers are plain scalars; what was built can be taken apart. *)
Class YamlLaws (Y : Yaml) := {
  load_emit n : document n → Load (emit n) = Ret n;
  emit_number s : is_number s = true → emit (scalar s) = s;
  scalar_Scalar s : Scalar (scalar s) = s;
  scalar_as s : as_string (scalar s) = Ret s;
  scalar_defined s : IsDefined (scalar s) = true;
  sequence_defined l : IsDefined (sequence l) = true;
  sequence_size l : node_size (sequence l) = length l;
  sequence_index l i n : l !! i = Some n → index (sequence l) i = n;
  mapping_pairs l : NoDup l.*1 → pairs (mapping l) = (λ kn, (scalar kn.1, kn.2)) <$> l;
  mapping_field l k n : NoDup l.*1 → (k, n) ∈ l → field (mapping l) k = n;
  mapping_no_field l k : k ∉ l.*1 → IsDefined (field (mapping l) k) = false
}.

Lemma number_text s : is_number s = true → yaml_text s = true.
Proof.
  intros Hn. assert (Hs : s ≠ [] ∧ ∀ c, c ∈ s → isdigit c = true ∨ c = "-"%char).
  { unfold is_number in Hn. apply andb_prop in Hn as [Hne Hd]. rewrite forallb_forall in Hd. destruct s as [|c r]; [done|].
    split; [done|]. intros x Hx. case_bool_decide as Hc.
    - apply elem_of_cons in Hx as [->|Hx]; [by right|left]. by apply Hd, list_elem_of_In.
    - left. by apply Hd, list_elem_of_In. }
  destruct Hs as [Hne Hs]. unfold yaml_text. rewrite bool_decide_eq_false_2 by done. cbn [negb andb]. apply andb_true_iff. split.
  - apply forallb_forall. intros c Hc. apply list_elem_of_In in Hc. destruct (Hs c Hc) as [Hd| ->]; [|done].
    unfold isdigit, char_in in *. lia.
  - rewrite bool_decide_eq_false_2; [done|]. intros Hin.
    rewrite !elem_of_cons in Hin. destruct Hin as [->|[->|[->|[->|Hin]]]]; [..|by apply elem_of_nil in Hin].
    all: by vm_compute in Hn.
Qed.

(* ------------------------------------------------------------------ *)
(** ** An instance *)

Module Tree.
#[warnings="-register-all"]
Inductive node := Undefined | Scalar_ (s : bytes) | Seq (l : list node) | Map_ (l : list (bytes * node)).

Fixpoint to_gen (n : node) : gen_tree bytes :=
  match n with
  | Undefined => GenNode 0 []
  | Scalar_ s => GenLeaf s
  | Seq l => GenNode 1 (to_gen <$> l)
  | Map_ l => GenNode 2 ((λ kn, GenNode 3 [GenLeaf kn.1; to_gen kn.2]) <$> l)
  end.
Fixpoint of_gen (t : gen_tree bytes) : node :=
  match t with
  | GenLeaf s => Scalar_ s
  | GenNode 1 l => Seq (of_gen <$> l)
  | GenNode 2 l => Map_ ((λ t, match t with GenNode _ [GenLeaf k; t] => (k, of_gen t) | _ => ([], Undefined) end) <$> l)
  | _ => Undefined
  end.

Lemma of_to_gen n : of_gen (to_gen n) = n.
Proof.
  revert n. fix IH 1. intros [|s|l|l]; cbn; [done|done|f_equal|f_equal].
  - induction l as [|n l IHl]; cbn; [done|]. by rewrite IH, IHl.
  - induction l as [|[k n] l IHl]; cbn; [done|]. by rewrite IH, IHl.
Qed.

(** Digits of a positive number in base two. *)
Fixpoint bits (p : positive) : bytes :=
  match p with xH => [] | xO p => "0"%char :: bits p | xI p => "1"%char :: bits p end.
Fixpoint of_bits (s : bytes) : positive :=
  match s with [] => xH | c :: s => if bool_decide (c = "0"%char) then xO (of_bits s) else xI (of_bits s) end.
Lemma of_bits_bits p : of_bits (bits p) = p.
Proof. induction p as [p IH|p IH|]; cbn; rewrite ?IH; done. Qed.

Definition emit (n : node) : bytes :=
  match n with
  | Scalar_ s => if is_number s then s else "#"%char :: bits (encode (to_gen n))
  | _ => "#"%char :: bits (encode (to_gen n))
  end.
Definition Load (s : bytes) : outcome node :=
  match s with
  | c :: r => if bool_decide (c = "#"%char)
              then match decode (of_bits r) with Some t => Ret (of_gen t) | None => Throw invalid_argument end
              else Ret (Scalar_ s)
  | [] => Ret (Scalar_ s)
  end.

Lemma number_no_hash s : is_number s = true → Load s = Ret (Scalar_ s).
Proof.
  destruct s as [|c s]; [done|]. destruct (decide (c = "#"%char)) as [->|Hc]; [intros [_ H]%andb_prop; done|].
  intros _. unfold Load. by rewrite bool_decide_eq_false_2.
Qed.

Definition get (l : list (bytes * node)) (k : bytes) : node :=
  match list_find (λ kn, k = kn.1) l with Some (_, kn) => kn.2 | None => Undefined end.

#[export] Instance yaml : Yaml := {|
  Node := node; Yaml.Load := Load; Yaml.emit := emit;
  IsDefined n := match n with Undefined => false | _ => true end;
  IsScalar n := match n with Scalar_ _ => true | _ => false end;
  IsMap n := match n with Map_ _ => true | _ => false end;
  Scalar n := match n with Scalar_ s => s | _ => [] end;
  as_string n := match n with Scalar_ s => Ret s | _ => Throw bad_lexical_cast end;
  node_size n := match n with Seq l => length l | Map_ l => length l | _ => 0%nat end;
  index n i := match n with Seq l => nth i l Undefined | _ => Undefined end;
  field n k := match n with Map_ l => get l k | _ => Undefined end;
  pairs n := match n with Map_ l => (λ kn, (Scalar_ kn.1, kn.2)) <$> l | _ => [] end;
  scalar := Scalar_; sequence := Seq; mapping := Map_
|}.

Lemma load_emit_tree n : Load (emit n) = Ret n.
Proof.
  assert (Load ("#"%char :: bits (encode (to_gen n))) = Ret n) as H.
  { cbn. by rewrite of_bits_bits, decode_encode, of_to_gen. }
  destruct n as [|s| |]; [exact H| |exact H..]. unfold emit in *. destruct (is_number s) eqn:E; [by apply number_no_hash|exact H].
Qed.

#[export] Instance laws : YamlLaws yaml.
Proof.
  split; cbn; try done.
  - intros n _. apply load_emit_tree.
  - by intros s ->.
  - intros l i n H. by apply nth_lookup_Some with (d := Undefined) in H.
  - intros l k n Hnd Hin. unfold get. destruct (list_find _ l) as [[i kn]|] eqn:E.
    + apply list_find_Some in E as (Hi & -> & _). apply list_elem_of_lookup_2 in Hi. destruct kn as [k n']. cbn in *.
      apply list_elem_of_lookup in Hin as [a Ha]. apply list_elem_of_lookup in Hi as [b Hb].
      assert (a = b) as ->. { apply (NoDup_lookup l.*1 a b k); [done|..]; rewrite list_lookup_fmap; [by rewrite Ha|by rewrite Hb]. }
      congruence.
    + apply list_find_None in E. rewrite Forall_forall in E. by destruct (E (k, n) (proj1 (list_elem_of_In _ _) Hin)).
  - intros l k Hk. unfold get. destruct (list_find _ l) as [[i kn]|] eqn:E; [|done].
    apply list_find_Some in E as (Hi & -> & _). destruct Hk. apply list_elem_of_fmap_2, list_elem_of_lookup_2 with i. done.
Qed.
End Tree.
