(* ===== verification/LexicalCast.v ===== *)
(** * Values of configuration variables and their text ([config.h])

    [ConfigVar<T>] is a template; its instances differ in the type of their value and in
    the two functors that read and print it.  Types are codes, values are
    untyped, and [has_type] says which values a type has.  The casts follow
    the specialisations for containers; for numbers they are
    [boost::lexical_cast], a parameter. *)
From S2P Require Import Prelude StdString OrderedSet OrderedMap Yaml.
From stdpp Require Import sorting list.

Local Open Scope Z_scope.

(** Arithmetic types by signedness and width. *)
Inductive ty :=
  | TNum (signed : bool) (width : Z)
  | TString
  | TVector (t : ty) | TList (t : ty) | TSet (t : ty) | TUnorderedSet (t : ty)
  | TMap (t : ty) | TUnorderedMap (t : ty).

#[export] Instance ty_eq_dec : EqDecision ty.
Proof. solve_decision. Defined.

(** Sets and maps are lists in the order of iteration. *)
#[warnings="-register-all"]
Inductive value := VNum (z : Z) | VStr (s : bytes) | VSeq (l : list value) | VMap (l : list (bytes * value)).

Definition in_num (signed : bool) (w z : Z) : Prop := if signed then in_s w z else in_u w z.

(** [operator<] of the values of one type compares these codes: numbers by
    value, texts and containers by their elements, a prefix first. *)
Definition enc_bytes (s : bytes) : list Z := ((λ c, uchar c + 1) <$> s) ++ [0].
Fixpoint enc (v : value) : list Z :=
  match v with
  | VNum z => [z]
  | VStr s => enc_bytes s
  | VSeq l => mjoin ((λ v, 1 :: enc v) <$> l) ++ [0]
  | VMap l => mjoin ((λ kv, 1 :: enc_bytes kv.1 ++ enc kv.2) <$> l) ++ [0]
  end.
Fixpoint zs_lt (a b : list Z) : bool :=
  match a, b with
  | _, [] => false
  | [], _ => true
  | x :: a, y :: b => (x <? y) || (x =? y) && zs_lt a b
  end.
Definition value_lt (v w : value) : bool := zs_lt (enc v) (enc w).

#[export] Instance zs_lt_total : StrictTotal zs_lt.
Proof.
  split.
  - intros s. induction s as [|c s IH]; [done|]. cbn. by rewrite IH, Z.ltb_irrefl, andb_false_r.
  - intros s t u. revert s u. induction t as [|d t IH]; intros [|c s] [|e u]; cbn; try done.
    rewrite !orb_true_iff, !andb_true_iff, !Z.ltb_lt, !Z.eqb_eq.
    intros [?|[-> ?]] [?|[? ?]]; [left; lia|left; lia|by left; lia|right]. eauto.
  - intros s. induction s as [|c s IH]; intros [|d t]; cbn; try done.
    rewrite !orb_false_iff, !andb_false_iff, !Z.ltb_ge, !Z.eqb_neq. intros [? ?] [? ?].
    assert (c = d) as -> by lia. f_equal. apply IH; naive_solver lia.
Qed.
#[export] Instance value_lt_ordered : OrderedBy value_lt enc zs_lt.
Proof. done. Qed.
#[export] Instance key_ordered : OrderedBy bytes_lt id bytes_lt.
Proof. done. Qed.

(** A [std::set] is kept as the keys of a map. *)
Definition as_keys (l : list value) : list (value * unit) := (λ v, (v, tt)) <$> l.
Definition set_sorted (l : list value) : Prop := map_sorted enc zs_lt (as_keys l).
Definition std_insert (v : value) (l : list value) : list value := (OrderedMap.map_insert value_lt v tt (as_keys l)).*1.

Fixpoint has_type (t : ty) (v : value) : Prop :=
  match t, v with
  | TNum s w, VNum z => in_num s w z
  | TString, VStr _ => True
  | TVector t, VSeq l | TList t, VSeq l => Forall (has_type t) l
  | TSet t, VSeq l => Forall (has_type t) l ∧ set_sorted l
  | TUnorderedSet t, VSeq l => Forall (has_type t) l ∧ NoDup l
  | TMap t, VMap l => Forall (λ kv, has_type t kv.2) l ∧ map_sorted id bytes_lt l
  | TUnorderedMap t, VMap l => Forall (λ kv, has_type t kv.2) l ∧ NoDup l.*1
  | _, _ => False
  end.

#[export] Instance value_eq_dec : EqDecision value.
Proof.
  refine (fix go v w := let _ : EqDecision value := @go in
    match v, w with
    | VNum a, VNum b => cast_if (decide (a = b))
    | VStr a, VStr b => cast_if (decide (a = b))
    | VSeq a, VSeq b => cast_if (decide (a = b))
    | VMap a, VMap b => cast_if (decide (a = b))
    | _, _ => right _
    end); congruence.
Defined.

Section casts.
Context {Y : Yaml}.
(** [boost::lexical_cast] between text and numbers of a type, and the order
    of iteration an unordered container is left in. *)
Context (num_of : bool → Z → bytes → outcome Z) (num_to : bool → Z → Z → bytes).
Context (rehash : ∀ A, list A → list A).

(** [for(i < node.size())]: the text of each element. *)
Definition element_texts (node : Node) : list bytes := (λ i, emit (index node i)) <$> seq 0 (node_size node).

Fixpoint each {A C} (f : A → outcome C) (l : list A) : outcome (list C) :=
  match l with [] => Ret [] | x :: l => y ← f x; r ← each f l; Ret (y :: r) end.

(* sylar/config.h:105-119, LexicalCast<std::string, std::vector<T>> *)
Definition cast_vector (cast : bytes → outcome value) (v : bytes) : outcome value :=
  node ← Load v; vec ← each cast (element_texts node); Ret (VSeq vec).

(* sylar/config.h:141-155, LexicalCast<std::string, std::list<T>> *)
Definition cast_list (cast : bytes → outcome value) (v : bytes) : outcome value :=
  node ← Load v; vec ← each cast (element_texts node); Ret (VSeq vec).

(* sylar/config.h:177-191, LexicalCast<std::string, std::set<T>> *)
Definition cast_set (cast : bytes → outcome value) (v : bytes) : outcome value :=
  node ← Load v; vec ← each cast (element_texts node); Ret (VSeq (fold_left (λ l x, std_insert x l) vec [])).

(* sylar/config.h:213-227, LexicalCast<std::string, std::unordered_set<T>> *)
Definition cast_unordered_set (cast : bytes → outcome value) (v : bytes) : outcome value :=
  node ← Load v; vec ← each cast (element_texts node);
  Ret (VSeq (fold_left (λ l x, if decide (x ∈ l) then l else rehash _ (l ++ [x])) vec [])).

Definition pair_texts (node : Node) : list (bytes * bytes) := (λ it, (Scalar it.1, emit it.2)) <$> pairs node.
Definition cast_pair (cast : bytes → outcome value) (p : bytes * bytes) : outcome (bytes * value) :=
  x ← cast p.2; Ret (p.1, x).

(** [insert]: the first of two equal keys stays. *)
(* sylar/config.h:249-265, LexicalCast<std::string, std::map<std::string, T>> *)
Definition cast_map (cast : bytes → outcome value) (v : bytes) : outcome value :=
  node ← Load v; vec ← each (cast_pair cast) (pair_texts node);
  Ret (VMap (fold_left (λ l x, OrderedMap.map_insert bytes_lt x.1 x.2 l) vec [])).

(* sylar/config.h:287-303, LexicalCast<std::string, std::unordered_map<std::string, T>> *)
Definition cast_unordered_map (cast : bytes → outcome value) (v : bytes) : outcome value :=
  node ← Load v; vec ← each (cast_pair cast) (pair_texts node);
  Ret (VMap (fold_left (λ l x, if decide (x.1 ∈ l.*1) then l else rehash _ (l ++ [x])) vec [])).

(** [LexicalCast<std::string, T>]. *)
(* sylar/config.h:88-100, LexicalCast *)
Fixpoint from_string (t : ty) (v : bytes) : outcome value :=
  match t with
  | TNum s w => z ← num_of s w v; Ret (VNum z)
  | TString => Ret (VStr v)
  | TVector t => cast_vector (from_string t) v
  | TList t => cast_list (from_string t) v
  | TSet t => cast_set (from_string t) v
  | TUnorderedSet t => cast_unordered_set (from_string t) v
  | TMap t => cast_map (from_string t) v
  | TUnorderedMap t => cast_unordered_map (from_string t) v
  end.

Definition reload (cast : value → outcome bytes) (v : value) : outcome Node := s ← cast v; Load s.
Definition reload_pair (cast : value → outcome bytes) (kv : bytes * value) : outcome (bytes * Node) :=
  n ← reload cast kv.2; Ret (kv.1, n).

(* sylar/config.h:124-136, LexicalCast<std::vector<T>, std::string> *)
Definition print_vector (cast : value → outcome bytes) (v : list value) : outcome bytes :=
  l ← each (reload cast) v; Ret (emit (sequence l)).
(* sylar/config.h:160-172, LexicalCast<std::list<T>, std::string> *)
Definition print_list (cast : value → outcome bytes) (v : list value) : outcome bytes :=
  l ← each (reload cast) v; Ret (emit (sequence l)).
(* sylar/config.h:196-208, LexicalCast<std::set<T>, std::string> *)
Definition print_set (cast : value → outcome bytes) (v : list value) : outcome bytes :=
  l ← each (reload cast) v; Ret (emit (sequence l)).
(* sylar/config.h:232-244, LexicalCast<std::unordered_set<T>, std::string> *)
Definition print_unordered_set (cast : value → outcome bytes) (v : list value) : outcome bytes :=
  l ← each (reload cast) v; Ret (emit (sequence l)).
(* sylar/config.h:270-282, LexicalCast<std::map<std::string, T>, std::string> *)
Definition print_map (cast : value → outcome bytes) (v : list (bytes * value)) : outcome bytes :=
  l ← each (reload_pair cast) v; Ret (emit (mapping l)).
(* sylar/config.h:308-320, LexicalCast<std::unordered_map<std::string, T>, std::string> *)
Definition print_unordered_map (cast : value → outcome bytes) (v : list (bytes * value)) : outcome bytes :=
  l ← each (reload_pair cast) v; Ret (emit (mapping l)).

(** [LexicalCast<T, std::string>]; a value of another type does not occur. *)
(* sylar/config.h:88-100, LexicalCast *)
Fixpoint to_string (t : ty) (v : value) : outcome bytes :=
  match t, v with
  | TNum s w, VNum z => Ret (num_to s w z)
  | TString, VStr s => Ret s
  | TVector t, VSeq l => print_vector (to_string t) l
  | TList t, VSeq l => print_list (to_string t) l
  | TSet t, VSeq l => print_set (to_string t) l
  | TUnorderedSet t, VSeq l => print_unordered_set (to_string t) l
  | TMap t, VMap l => print_map (to_string t) l
  | TUnorderedMap t, VMap l => print_unordered_map (to_string t) l
  | _, _ => Crash bad_call
  end.
End casts.
