(* ===== verification/LexicalCastTheorems.v ===== *)
(** * Reading and printing configuration values

    What is read for a type is of the type; what is printed reads back,
    with one exception: texts inside containers. *)
From S2P Require Import Prelude StdString OrderedSet OrderedMap Yaml LexicalCast.
From stdpp Require Import sorting list.

Local Open Scope Z_scope.

(** Inserting after all others. *)
Lemma map_insert_last {A V} (lt : A → A → bool) (x : A) (v : V) m : Forall (λ a, lt a.1 x = true) m →
  OrderedMap.map_insert lt x v m = m ++ [(x, v)].
Proof. induction 1 as [|[y w] m Hy Hm IH]; [done|]. cbn in *. by rewrite Hy, IH. Qed.

Lemma Forall_map_insert {A V} (lt : A → A → bool) (P : A * V → Prop) x v m : P (x, v) → Forall P m →
  Forall P (OrderedMap.map_insert lt x v m).
Proof. intros Hx Hm. induction Hm as [|[y w] m Hy Hm IH]; cbn; [by constructor|]. destruct (lt y x), (lt x y); by repeat constructor. Qed.

Section sorted_fold.
Context {A V N : Type} (lt : A → A → bool) (norm : A → N) (ltN : N → N → bool) {OB : OrderedBy lt norm ltN}.

Lemma fold_insert_sorted (vec acc : list (A * V)) : map_sorted norm ltN (acc ++ vec) →
  fold_left (λ l x, OrderedMap.map_insert lt x.1 x.2 l) vec acc = acc ++ vec.
Proof.
  revert acc. induction vec as [|[x v] vec IH]; intros acc Hs; cbn [fold_left]; [by rewrite app_nil_r|].
  rewrite map_insert_last; [rewrite IH|].
  - by rewrite <- (assoc_L (++)).
  - by rewrite <- (assoc_L (++)).
  - apply Forall_forall. intros [y w] Hy. cbn. rewrite (OB y x).
    unfold map_sorted in Hs. apply (StronglySorted_app _ acc) in Hs as (H & _ & _).
    specialize (H (y, w) (x, v) Hy ltac:(by left)). exact H.
Qed.
End sorted_fold.

Section types.
Context {Y : Yaml}.
Context (num_of : bool → Z → bytes → outcome Z) (rehash : ∀ A, list A → list A).
(** The documented behaviour of [boost::lexical_cast] and of unordered
    containers. *)
Context (num_of_range : ∀ s w v z, num_of s w v = Ret z → in_num s w z).
Context (rehash_perm : ∀ A (l : list A), rehash A l ≡ₚ l).
Abbreviation from_string := (from_string num_of rehash).

Lemma each_Forall {A C} (f : A → outcome C) (P : C → Prop) l r : (∀ x y, f x = Ret y → P y) → each f l = Ret r → Forall P r.
Proof.
  intros Hf. revert r. induction l as [|x l IH]; intros r; cbn [each]; [by intros [= <-]|].
  unfold mbind, outcome_bind. destruct (f x) as [y| |] eqn:E; [|done..]. destruct (each f l) as [r'| |]; [|done..].
  intros [= <-]. constructor; [by eapply Hf|by apply IH].
Qed.

Lemma each_map {A C D} (g : A → D) (f : D → outcome C) (h : A → C) l : (∀ x, x ∈ l → f (g x) = Ret (h x)) → each f (g <$> l) = Ret (h <$> l).
Proof.
  intros H. induction l as [|x l IH]; [done|]. cbn. rewrite H by by left. cbn.
  rewrite IH by (intros; apply H; by right). done.
Qed.

Lemma each_ret {A C} (f : A → outcome C) (h : A → C) l : (∀ x, x ∈ l → f x = Ret (h x)) → each f l = Ret (h <$> l).
Proof. intros H. rewrite <- (list_fmap_id l) at 1. by apply each_map. Qed.

(** ** Types *)

Lemma as_keys_fst l : (as_keys l).*1 = l.
Proof. unfold as_keys. rewrite <- list_fmap_compose. by rewrite list_fmap_id. Qed.
Lemma fst_as_keys (m : list (value * unit)) : as_keys m.*1 = m.
Proof. unfold as_keys. rewrite <- list_fmap_compose. rewrite <- (list_fmap_id m) at 2. by apply list_fmap_ext; intros ? [? []]. Qed.

Lemma std_insert_typed (P : value → Prop) x l : P x → Forall P l ∧ set_sorted l → Forall P (std_insert x l) ∧ set_sorted (std_insert x l).
Proof.
  intros Hx [Hl Hs]. unfold std_insert. split.
  - apply Forall_fmap. apply (Forall_put value_lt P x tt); [done|]. by apply Forall_fmap.
  - unfold set_sorted. rewrite fst_as_keys. by apply (put_sorted value_lt enc zs_lt x tt (as_keys l)).
Qed.

Lemma fold_invariant {A C} (P : A → Prop) (Q : C → Prop) (f : A → C → A) l a :
  (∀ a x, P a → Q x → P (f a x)) → P a → Forall Q l → P (fold_left f l a).
Proof. intros Hf Ha Hl. revert a Ha. induction Hl as [|x l Hx Hl IH]; intros a Ha; [done|]. apply IH. by apply Hf. Qed.

Lemma Forall_perm {A} (P : A → Prop) (l l' : list A) : l ≡ₚ l' → Forall P l' → Forall P l.
Proof. by intros ->. Qed.

Lemma from_string_typed t s v : from_string t s = Ret v → has_type t v.
Proof.
  revert s v. induction t as [sg w| |t IH|t IH|t IH|t IH|t IH|t IH]; intros s v; cbn [LexicalCast.from_string].
  all: unfold cast_vector, cast_list, cast_set, cast_unordered_set, cast_map, cast_unordered_map, mbind, outcome_bind.
  all: try (destruct (Load s) as [node| |]; [|done..]).
  all: try (destruct (each _ _) as [vec| |] eqn:E; [|done..]; intros [= <-]; cbn).
  - destruct (num_of sg w s) as [z| |] eqn:E; [|done..]. intros [= <-]. by eapply num_of_range.
  - by intros [= <-].
  - eapply each_Forall; [|exact E]. apply IH.
  - eapply each_Forall; [|exact E]. apply IH.
  - apply (each_Forall _ (has_type t)) in E; [|apply IH].
    apply (fold_invariant (λ l, Forall (has_type t) l ∧ set_sorted l) (has_type t)); [|split; [done|constructor]|done].
    intros l x Hl Hx. by apply std_insert_typed.
  - apply (each_Forall _ (has_type t)) in E; [|apply IH].
    apply (fold_invariant (λ l, Forall (has_type t) l ∧ NoDup l) (has_type t)); [|split; constructor|done].
    intros l x [Hl Hn] Hx. case_decide; [done|]. split.
    + eapply Forall_perm; [apply rehash_perm|]. apply Forall_app. by repeat constructor.
    + rewrite rehash_perm. apply NoDup_app. split; [done|]. split; [set_solver|apply NoDup_singleton].
  - apply (each_Forall _ (λ kv, has_type t kv.2)) in E.
    2:{ intros [k x] y. unfold cast_pair, mbind, outcome_bind. destruct (from_string t _) eqn:Ef; [|done..]. intros [= <-]. by eapply IH. }
    apply (fold_invariant (λ l, Forall (λ kv, has_type t kv.2) l ∧ map_sorted id bytes_lt l) (λ kv, has_type t kv.2)); [|split; constructor|done].
    intros l [k x] [Hl Hs] Hx. split; [|by apply (put_sorted bytes_lt id bytes_lt k x)].
    by apply Forall_map_insert.
  - apply (each_Forall _ (λ kv, has_type t kv.2)) in E.
    2:{ intros [k x] y. unfold cast_pair, mbind, outcome_bind. destruct (from_string t _) eqn:Ef; [|done..]. intros [= <-]. by eapply IH. }
    apply (fold_invariant (λ l, Forall (λ kv, has_type t kv.2) l ∧ NoDup l.*1) (λ kv, has_type t kv.2)); [|split; constructor|done].
    intros l [k x] [Hl Hn] Hx. case_decide as Hk; [done|]. split.
    + eapply Forall_perm; [apply rehash_perm|]. apply Forall_app. by repeat constructor.
    + rewrite rehash_perm, fmap_app. apply NoDup_app. cbn in *. split; [done|]. split; [set_solver|apply NoDup_singleton].
Qed.
End types.

(** ** Round trips *)

Section roundtrips.
Context {Y : Yaml} {L : YamlLaws Y}.
Context (num_of : bool → Z → bytes → outcome Z) (num_to : bool → Z → Z → bytes) (rehash : ∀ A, list A → list A).
Context (num_of_to : ∀ s w z, in_num s w z → num_of s w (num_to s w z) = Ret z).
Context (num_to_number : ∀ s w z, is_number (num_to s w z) = true).
Abbreviation from_string := (from_string num_of rehash).
Abbreviation to_string := (to_string num_to).

(** A text that reads as a document printed as the same text. *)
Definition plain_text (s : bytes) : Prop := ∃ n, document n ∧ Load s = Ret n ∧ emit n = s.

(** Values whose texts inside containers are plain and whose keys stand for
    themselves; unordered containers, that
    have no order of their own to come back in, are left out. *)
Fixpoint safe (nested : bool) (t : ty) (v : value) : Prop :=
  match t, v with
  | TNum _ _, VNum _ => True
  | TString, VStr s => nested = true → plain_text s
  | TVector t, VSeq l | TList t, VSeq l | TSet t, VSeq l => Forall (safe true t) l
  | TMap t, VMap l => Forall (λ kv, yaml_text kv.1 = true ∧ safe true t kv.2) l
  | _, _ => False
  end.

Lemma element_texts_sequence ns : element_texts (sequence ns) = emit <$> ns.
Proof.
  unfold element_texts. rewrite sequence_size. apply list_eq. intros i. rewrite !list_lookup_fmap.
  destruct (ns !! i) as [n|] eqn:E.
  - rewrite lookup_seq_lt by (by eapply lookup_lt_Some). cbn. f_equal. by rewrite (sequence_index ns i n).
  - rewrite lookup_seq_ge; [done|]. by apply lookup_ge_None.
Qed.

Lemma pair_texts_mapping l : NoDup l.*1 → pair_texts (mapping l) = (λ kn, (kn.1, emit kn.2)) <$> l.
Proof.
  intros H. unfold pair_texts. rewrite mapping_pairs by done. rewrite <- list_fmap_compose. apply list_fmap_ext.
  intros i [k n] _. cbn. by rewrite scalar_Scalar.
Qed.

(** What the casts of the elements give, as functions. *)
Definition text (t : ty) (v : value) : bytes := match to_string t v with Ret s => s | _ => [] end.
Definition node (t : ty) (v : value) : Node := match Load (text t v) with Ret n => n | _ => scalar [] end.

Definition good (nested : bool) (t : ty) (v : value) : Prop :=
  to_string t v = Ret (text t v) ∧ from_string t (text t v) = Ret v ∧
  (nested = true → document (node t v) ∧ Load (text t v) = Ret (node t v) ∧ emit (node t v) = text t v).

Lemma good_intro t v nested s : to_string t v = Ret s → from_string t s = Ret v → (nested = true → plain_text s) → good nested t v.
Proof.
  intros H1 H2 H3. assert (text t v = s) as E by (unfold text; by rewrite H1). unfold good. rewrite E. split_and!; try done.
  intros Hn. destruct (H3 Hn) as (n & Hd & Hl & He). unfold node. by rewrite E, Hl.
Qed.

Lemma reload_good t v : good true t v → reload (to_string t) v = Ret (node t v).
Proof. intros (H1 & _ & H3). unfold reload. rewrite H1. cbn. by apply H3. Qed.

Lemma emit_plain n : document n → plain_text (emit n).
Proof. intros Hn. exists n. split; [done|]. split; [by apply load_emit|done]. Qed.

Lemma sequence_document t l : Forall (good true t) l → document (sequence (node t <$> l)).
Proof. intros Hg. constructor. apply Forall_fmap. eapply Forall_impl; [exact Hg|]. intros v (_ & _ & H). by apply H. Qed.

(** The elements of a container, printed and read. *)
Lemma elements_good t l : Forall (good true t) l →
  each (reload (to_string t)) l = Ret (node t <$> l) ∧
  each (from_string t) (element_texts (sequence (node t <$> l))) = Ret l.
Proof.
  intros Hg. rewrite Forall_forall in Hg. split.
  - apply each_ret. intros x Hx. by apply reload_good, Hg.
  - rewrite element_texts_sequence, <- list_fmap_compose. etrans; [apply (each_map (emit ∘ node t) _ id)|by rewrite list_fmap_id].
    intros x Hx. destruct (Hg x Hx) as (_ & H2 & H3). cbn. destruct (H3 eq_refl) as (_ & _ & ->). done.
Qed.

Lemma pairs_good t l : Forall (λ kv, good true t kv.2) l → NoDup l.*1 →
  let ns := (λ kv, (kv.1, node t kv.2)) <$> l in
  each (reload_pair (to_string t)) l = Ret ns ∧
  each (cast_pair (from_string t)) (pair_texts (mapping ns)) = Ret l.
Proof.
  intros Hg Hn ns. rewrite Forall_forall in Hg. split.
  - apply each_ret. intros [k x] Hx. unfold reload_pair. cbn [fst snd]. rewrite (reload_good t x (Hg _ Hx)). done.
  - rewrite pair_texts_mapping by (unfold ns; rewrite <- list_fmap_compose; exact Hn).
    unfold ns. rewrite <- list_fmap_compose.
    etrans; [apply (each_map ((λ kn, (kn.1, emit kn.2)) ∘ (λ kv, (kv.1, node t kv.2))) _ id)|by rewrite list_fmap_id].
    intros [k x] Hx. destruct (Hg _ Hx) as (_ & H2 & H3). destruct (H3 eq_refl) as (_ & _ & E). cbn in *. unfold cast_pair. cbn.
    by rewrite E, H2.
Qed.

Lemma set_fold l : set_sorted l → fold_left (λ l x, std_insert x l) l [] = l.
Proof.
  intros Hs. assert (∀ acc, (fold_left (λ l x, std_insert x l) l acc) =
    (fold_left (λ l x, OrderedMap.map_insert value_lt x.1 x.2 l) (as_keys l) (as_keys acc)).*1) as H.
  { clear Hs. induction l as [|x l IH]; intros acc; cbn [fold_left fmap list_fmap as_keys]; [by rewrite as_keys_fst|].
    rewrite IH. unfold std_insert. by rewrite fst_as_keys. }
  rewrite H. change (as_keys []) with (@nil (value * unit)).
  rewrite (fold_insert_sorted value_lt enc zs_lt (as_keys l) []); [apply as_keys_fst|exact Hs].
Qed.

Lemma sorted_keys_NoDup (l : list (bytes * value)) : map_sorted id bytes_lt l → NoDup l.*1.
Proof.
  induction l as [|[k v] l IH]; [constructor|]. intros [Hall Hs]%StronglySorted_cons. cbn. constructor; [|by apply IH].
  intros ([k' v'] & E & Hin)%list_elem_of_fmap. rewrite Forall_forall in Hall. specialize (Hall _ Hin). cbn in *. subst k'.
  unfold id in Hall. by rewrite (lt_irrefl bytes_lt) in Hall.
Qed.

Lemma roundtrip_good t nested v : has_type t v → safe nested t v → good nested t v.
Proof.
  revert nested v. induction t as [sg w| |t IH|t IH|t IH|t IH|t IH|t IH]; intros nested [z|s|l|l]; cbn [has_type safe]; try done.
  - intros Hz _. apply (good_intro _ _ _ (num_to sg w z)); [done|cbn; by rewrite num_of_to|]. intros _.
    pose proof (emit_number _ (num_to_number sg w z)) as E. rewrite <- E at 1. apply emit_plain.
    constructor. apply number_text, num_to_number.
  - intros _ Hs. by apply (good_intro _ _ _ s).
  - intros Ht Hs. assert (Forall (good true t) l) as Hg.
    { rewrite Forall_forall in *. intros x Hx. apply IH; [by apply Ht|by apply Hs]. }
    destruct (elements_good t l Hg) as [E1 E2]. pose proof (sequence_document t l Hg) as Hd.
    apply (good_intro _ _ _ (emit (sequence (node t <$> l)))); [| |intros _; by apply emit_plain]; cbn.
    + unfold print_vector. by rewrite E1.
    + unfold cast_vector. rewrite load_emit by done. cbn. by rewrite E2.
  - intros Ht Hs. assert (Forall (good true t) l) as Hg.
    { rewrite Forall_forall in *. intros x Hx. apply IH; [by apply Ht|by apply Hs]. }
    destruct (elements_good t l Hg) as [E1 E2]. pose proof (sequence_document t l Hg) as Hd.
    apply (good_intro _ _ _ (emit (sequence (node t <$> l)))); [| |intros _; by apply emit_plain]; cbn.
    + unfold print_list. by rewrite E1.
    + unfold cast_list. rewrite load_emit by done. cbn. by rewrite E2.
  - intros [Ht Hsort] Hs. assert (Forall (good true t) l) as Hg.
    { rewrite Forall_forall in *. intros x Hx. apply IH; [by apply Ht|by apply Hs]. }
    destruct (elements_good t l Hg) as [E1 E2]. pose proof (sequence_document t l Hg) as Hd.
    apply (good_intro _ _ _ (emit (sequence (node t <$> l)))); [| |intros _; by apply emit_plain]; cbn.
    + unfold print_set. by rewrite E1.
    + unfold cast_set. rewrite load_emit by done. cbn. rewrite E2. cbn. by rewrite set_fold.
  - intros [Ht Hsort] Hs. assert (Forall (λ kv, good true t kv.2) l) as Hg.
    { rewrite Forall_forall in *. intros x Hx. apply IH; [by apply Ht|by apply Hs]. }
    assert (NoDup l.*1) as Hnd by by apply sorted_keys_NoDup.
    destruct (pairs_good t l Hg Hnd) as [E1 E2].
    assert (document (mapping ((λ kv, (kv.1, node t kv.2)) <$> l))) as Hd.
    { constructor; [by rewrite <- list_fmap_compose|]. apply Forall_fmap. rewrite Forall_forall in *. intros x Hx.
      split; [by apply Hs|]. by apply (Hg x Hx). }
    apply (good_intro _ _ _ (emit (mapping ((λ kv, (kv.1, node t kv.2)) <$> l)))); [| |intros _; by apply emit_plain]; cbn.
    + unfold print_map. by rewrite E1.
    + unfold cast_map. rewrite load_emit by done. cbn. rewrite E2. cbn.
      by rewrite (fold_insert_sorted bytes_lt id bytes_lt l []).
Qed.
End roundtrips.

(** ** Numbers in decimal *)

Module Decimal.
Definition num_of (s : bool) (w : Z) (v : bytes) : outcome Z :=
  if is_number v then
    let z := match v with c :: r => if bool_decide (c = "-"%char) then - dec_val r else dec_val v | [] => 0 end in
    if (if s then bool_decide (in_s w z) else bool_decide (in_u w z)) then Ret z else Throw bad_lexical_cast
  else Throw bad_lexical_cast.
Definition num_to (s : bool) (w z : Z) : bytes := StdString.to_string z.

Lemma num_of_range s w v z : num_of s w v = Ret z → in_num s w z.
Proof.
  unfold num_of. destruct (is_number v); [|done]. destruct s; case_bool_decide as H; intros [= <-]; exact H.
Qed.

Lemma to_string_neg z : z < 0 → StdString.to_string z = "-"%char :: StdString.to_string (- z).
Proof.
  intros Hz. unfold StdString.to_string. rewrite (proj2 (Z.ltb_lt z 0)) by done. by rewrite (proj2 (Z.ltb_ge (- z) 0)) by lia.
Qed.

Lemma digits_text n : 0 <= n → ∃ c r, StdString.to_string n = c :: r ∧ c ≠ "-"%char ∧ forallb isdigit (c :: r) = true.
Proof.
  intros Hn. destruct (StdString.to_string n) as [|c r] eqn:E; [by apply to_string_nonempty in E|]. exists c, r. split; [done|].
  pose proof (to_string_digits n) as H. rewrite E in H. split.
  - intros ->. specialize (H "-"%char Hn ltac:(by left)). done.
  - apply forallb_forall. intros d Hd. apply H; [done|]. by apply list_elem_of_In.
Qed.

Lemma num_to_number s w z : is_number (num_to s w z) = true.
Proof.
  unfold num_to, is_number. destruct (Z.ltb_spec z 0) as [Hz|Hz].
  - rewrite to_string_neg by done. rewrite (bool_decide_eq_true_2 ("-"%char = "-"%char)) by done.
    destruct (digits_text (- z)) as (c & r & -> & _ & ->); [lia|done].
  - destruct (digits_text z Hz) as (c & r & -> & Hc & H). rewrite (bool_decide_eq_false_2 (c = "-"%char)) by done. by rewrite H.
Qed.

Lemma num_of_to s w z : in_num s w z → num_of s w (num_to s w z) = Ret z.
Proof.
  intros Hr. unfold num_of. rewrite num_to_number. unfold num_to.
  assert ((match StdString.to_string z with c :: r => if bool_decide (c = "-"%char) then - dec_val r else dec_val (StdString.to_string z) | [] => 0 end) = z) as E.
  { destruct (Z.ltb_spec z 0) as [Hz|Hz].
    - rewrite to_string_neg by done. rewrite (bool_decide_eq_true_2 ("-"%char = "-"%char)) by done. rewrite to_string_val; lia.
    - destruct (digits_text z Hz) as (c & r & E & Hc & _). rewrite E at 1. rewrite bool_decide_eq_false_2 by done. by apply to_string_val. }
  rewrite E. destruct s; by rewrite bool_decide_eq_true_2.
Qed.
End Decimal.


Definition sample_type : ty := TMap (TVector (TNum true 32)).
Definition sample_value : value := VMap [(B "a", VSeq [VNum (-5); VNum 7]); (B "b", VSeq [])].

