(* ===== verification/Config.v ===== *)
(** * Configuration variables and their registry ([config.h], [config.cc])

    Variables are shared objects on a heap, with the code of their type; the
    registry maps names to them.  A listener is named by a number; what it
    does outside the configuration is left out, but it can throw.  Every call
    of a listener is recorded, so that the order of calls can be stated.  Each
    operation takes the lock of its variable once, but for [setValue], which
    takes it twice: its two regions are definitions of their own.  A listener
    that comes back to the variable it is called for to change it would wait
    for itself for ever. *)
From S2P Require Import Prelude StdString OrderedSet OrderedMap Yaml LexicalCast.
From stdpp Require Import gmap.

Local Open Scope Z_scope.

(** [T == T]: unordered containers compare without regard to order. *)
Fixpoint value_eq (t : ty) (v w : value) : bool :=
  match t, v, w with
  | TUnorderedSet t, VSeq l, VSeq k =>
      (length l =? length k)%nat && forallb (λ x, existsb (value_eq t x) k) l
  | TUnorderedMap t, VMap l, VMap k =>
      (length l =? length k)%nat && forallb (λ x, existsb (λ y, bool_decide (x.1 = y.1) && value_eq t x.2 y.2) k) l
  | TVector t, VSeq l, VSeq k | TList t, VSeq l, VSeq k | TSet t, VSeq l, VSeq k =>
      (length l =? length k)%nat && forallb (λ xy, value_eq t xy.1 xy.2) (zip l k)
  | TMap t, VMap l, VMap k =>
      (length l =? length k)%nat && forallb (λ xy, bool_decide (xy.1.1 = xy.2.1) && value_eq t xy.1.2 xy.2.2) (zip l k)
  | _, _, _ => bool_decide (v = w)
  end.

(** [m_cbs] in the order of its keys. *)
(* sylar/config.h:451-455, ConfigVar *)
Record ConfigVar := mkVar {
  m_type : ty;
  m_name : bytes;
  m_description : bytes;
  m_val : value;
  m_cbs : list (Z * nat)
}.

Record config := mkConfig {
  vars : gmap nat ConfigVar;
  s_datas : gmap bytes nat;
  next : nat;
  s_fun_id : ty → Z;
  s_file2modifytime : gmap bytes Z;
  calls : list (nat * value * value)
}.

Definition no_config : config := mkConfig ∅ ∅ 0 (λ _, 0) ∅ [].

Definition set_vars f s := mkConfig (f (vars s)) (s_datas s) (next s) (s_fun_id s) (s_file2modifytime s) (calls s).
Definition set_ids f s := mkConfig (vars s) (s_datas s) (next s) f (s_file2modifytime s) (calls s).
Definition set_times f s := mkConfig (vars s) (s_datas s) (next s) (s_fun_id s) (f (s_file2modifytime s)) (calls s).
Definition set_calls f s := mkConfig (vars s) (s_datas s) (next s) (s_fun_id s) (s_file2modifytime s) (f (calls s)).

(** [std::less] on the keys of [m_cbs]. *)
Definition id_lt (a b : Z) : bool := a <? b.

Definition var_at (p : nat) : stE config ConfigVar :=
  query (λ s, match vars s !! p with Some x => Ret x | None => Crash dangling end).
Definition put_var (p : nat) (x : ConfigVar) : stE config unit := modify (set_vars <[p := x]>).
Definition with_val (v : value) (x : ConfigVar) : ConfigVar := mkVar (m_type x) (m_name x) (m_description x) v (m_cbs x).
Definition with_cbs (l : list (Z * nat)) (x : ConfigVar) : ConfigVar := mkVar (m_type x) (m_name x) (m_description x) (m_val x) l.

(** [catch (std::exception &)], with what is done then. *)
Definition catching {A} (a : A) (m : stE config A) : stE config A :=
  λ s, match m s with (Throw _, s') => (Ret a, s') | r => r end.

Section config.
Context {Y : Yaml}.
Context (num_of : bool → Z → bytes → outcome Z) (num_to : bool → Z → Z → bytes) (rehash : ∀ A, list A → list A).
(** What a listener makes of the old and the new value. *)
Context (listener : nat → value → value → outcome unit).

(** ** Variables *)

(* sylar/config.h:42-46, ConfigVarBase::ConfigVarBase *)
Definition new_ConfigVar (t : ty) (name : bytes) (default_value : value) (description : bytes) : ConfigVar :=
  mkVar t (tolower <$> name) description default_value [].

(* sylar/config.h:351-362, ConfigVar::toString *)
Definition toString (p : nat) : stE config bytes :=
  catching [] (x ← var_at p; query (λ _, to_string num_to (m_type x) (m_val x))).

(* sylar/config.h:383-386, ConfigVar::getValue *)
Definition getValue (p : nat) : stE config value := x ← var_at p; mret (m_val x).

(* sylar/config.h:398-400, ConfigVar::setValue *)
Fixpoint notify (cbs : list (Z * nat)) (old_value new_value : value) : stE config unit :=
  match cbs with
  | [] => mret tt
  | i :: r =>
      _ ← modify (set_calls (λ l, l ++ [(i.2, old_value, new_value)]));
      _ ← query (λ _, listener i.2 old_value new_value);
      notify r old_value new_value
  end.

(** Under the read lock: whether the value is to be stored, after the
    listeners were called. *)
(* sylar/config.h:393-401, ConfigVar::setValue *)
Definition setValue_notify (p : nat) (v : value) : stE config bool :=
  x ← var_at p;
  if value_eq (m_type x) v (m_val x) then mret false
  else _ ← notify (m_cbs x) (m_val x) v; mret true.

(** Under the write lock. *)
(* sylar/config.h:402-403, ConfigVar::setValue *)
Definition setValue_store (p : nat) (v : value) : stE config unit :=
  x ← var_at p; put_var p (with_val v x).

(** The two locked regions, with nobody between them; what others can do
    there is in [Settings]. *)
(* sylar/config.h:392-404, ConfigVar::setValue *)
Definition setValue (p : nat) (v : value) : stE config unit :=
  changed ← setValue_notify p v;
  if (changed : bool) then setValue_store p v else mret tt.

(** Whether it succeeds or not the result is [false]. *)
(* sylar/config.h:368-378, ConfigVar::fromString *)
Definition fromString (p : nat) (val : bytes) : stE config bool :=
  _ ← catching tt (x ← var_at p; v ← query (λ _, from_string num_of rehash (m_type x) val); setValue p v);
  mret false.

(** [s_fun_id] is one counter for all variables of a type. *)
(* sylar/config.h:415-421, ConfigVar::addListener *)
Definition addListener (p cb : nat) : stE config Z :=
  x ← var_at p;
  s ← get;
  let id := u64 (s_fun_id s (m_type x) + 1) in
  _ ← modify (set_ids (λ t, if decide (t = m_type x) then id else s_fun_id s t));
  _ ← put_var p (with_cbs (OrderedMap.map_assign id_lt id cb (m_cbs x)) x);
  mret id.

(* sylar/config.h:427-430, ConfigVar::delListener *)
Definition delListener (p : nat) (key : Z) : stE config unit :=
  x ← var_at p; put_var p (with_cbs (OrderedMap.map_erase id_lt key (m_cbs x)) x).

(* sylar/config.h:437-441, ConfigVar::getListener *)
Definition getListener (p : nat) (key : Z) : stE config (option nat) :=
  x ← var_at p; mret (OrderedMap.map_find id_lt key (m_cbs x)).

(* sylar/config.h:446-449, ConfigVar::clearListener *)
Definition clearListener (p : nat) : stE config unit := x ← var_at p; put_var p (with_cbs [] x).

(** ** The registry *)

(** [dynamic_pointer_cast<ConfigVar<T>>]. *)
Definition dynamic_cast (t : ty) (p : nat) : stE config (option nat) :=
  x ← var_at p; mret (if decide (m_type x = t) then Some p else None).

(** The characters allowed in a name: there is no 9 among them. *)
(* sylar/config.cc:32-32, ListAllMember *)
Definition valid_name (name : bytes) : bool :=
  match find_first_not_of name (B "abcdefghikjlmnopqrstuvwxyz._012345678") with None => true | Some _ => false end.

(* sylar/config.h:477-503, Config::Lookup *)
Definition Lookup_default (t : ty) (name : bytes) (default_value : value) (description : bytes) : stE config (option nat) :=
  s ← get;
  match s_datas s !! name with
  | Some p => dynamic_cast t p
  | None =>
      if negb (valid_name name) then throw invalid_argument
      else λ s, (Ret (Some (next s)),
                 mkConfig (<[next s := new_ConfigVar t name default_value description]> (vars s)) (<[name := next s]> (s_datas s))
                          (S (next s)) (s_fun_id s) (s_file2modifytime s) (calls s))
  end.

(* sylar/config.h:510-518, Config::Lookup *)
Definition Lookup (t : ty) (name : bytes) : stE config (option nat) :=
  s ← get; match s_datas s !! name with None => mret None | Some p => dynamic_cast t p end.

(* sylar/config.cc:18-22, Config::LookupBase *)
Definition LookupBase (name : bytes) : stE config (option nat) := s ← get; mret (s_datas s !! name).

(** [prefix.empty() ? key : prefix + "." + key]. *)
Definition member_name (prefix key : bytes) : bytes := match prefix with [] => key | _ => prefix ++ B "." ++ key end.

(** What is appended to [output]. *)
(* sylar/config.cc:29-45, ListAllMember *)
Fixpoint ListAllMember (fuel : nat) (prefix : bytes) (node : Node) : outcome (list (bytes * Node)) :=
  match fuel with
  | O => Crash no_fuel
  | S fuel =>
      if negb (valid_name prefix) then Ret []
      else
        rest ← (if IsMap node
                then each (λ it, ListAllMember fuel (member_name prefix (Scalar it.1)) it.2) (pairs node)
                else Ret []);
        Ret ((prefix, node) :: mjoin rest)
  end.

(* sylar/config.cc:51-69, Config::LoadFromYaml *)
Fixpoint load_members (all_nodes : list (bytes * Node)) : stE config unit :=
  match all_nodes with
  | [] => mret tt
  | i :: r =>
      _ ← match i.1 with
          | [] => mret tt
          | _ =>
              var ← LookupBase (tolower <$> i.1);
              match var with
              | None => mret tt
              | Some p => _ ← fromString p (if IsScalar i.2 then Scalar i.2 else emit i.2); mret tt
              end
          end;
      load_members r
  end.

(* sylar/config.cc:47-70, Config::LoadFromYaml *)
Definition LoadFromYaml (fuel : nat) (root : Node) : stE config unit :=
  all_nodes ← query (λ _, ListAllMember fuel [] root); load_members all_nodes.

(** Files that did not change since the last time are skipped; the time is
    noted before the file is read.  A file never seen counts as of time 0. *)
(* sylar/config.cc:82-101, Config::LoadFromConfDir *)
Fixpoint load_files (fuel : nat) (mtime : bytes → Z) (LoadFile : bytes → outcome Node) (files : list bytes) (force : bool) :
    stE config unit :=
  match files with
  | [] => mret tt
  | i :: r =>
      s ← get;
      _ ← (if negb force && (default 0 (s_file2modifytime s !! i) =? u64 (mtime i)) then mret tt
           else
             _ ← modify (set_times <[i := u64 (mtime i)]>);
             catching tt (root ← query (λ _, LoadFile i); LoadFromYaml fuel root));
      load_files fuel mtime LoadFile r force
  end.

(** [ListAllFile]: the files of a directory tree with a suffix. *)
(* sylar/config.cc:77-102, Config::LoadFromConfDir *)
Definition LoadFromConfDir (fuel : nat) (mtime : bytes → Z) (LoadFile : bytes → outcome Node)
    (ListAllFile : bytes → bytes → list bytes) (absoulte_path : bytes) (force : bool) : stE config unit :=
  load_files fuel mtime LoadFile (ListAllFile absoulte_path (B ".yml")) force.

(** The variables visited, in no particular order. *)
(* sylar/config.cc:104-111, Config::Visit *)
Definition Visit : stE config (list nat) := s ← get; mret (map_to_list (s_datas s)).*2.
End config.
