(* ===== verification/ConfigTheorems.v ===== *)
(** * The registry keeps its types, and what a document sets *)
From S2P Require Import Prelude StdString OrderedSet OrderedMap Yaml LexicalCast LexicalCastTheorems Config.
From stdpp Require Import gmap.

Local Open Scope Z_scope.

(** ** Names *)

Definition name_chars : bytes := B "abcdefghikjlmnopqrstuvwxyz._012345678".

Lemma find_from_forall p s : find_from p s 0 = None → ∀ c, c ∈ s → p c = false.
Proof.
  induction s as [|d s IH]; [by intros _ c ?%elem_of_nil|]. cbn [find_from]. destruct (p d) eqn:E; [done|].
  intros H c [->|Hc]%elem_of_cons; [done|]. apply IH; [|done]. by destruct (find_from p s 0).
Qed.

Lemma valid_name_spec n : valid_name n = true ↔ ∀ c, c ∈ n → mem_char name_chars c = true.
Proof.
  unfold valid_name, find_first_not_of. fold name_chars.
  destruct (find_from _ n 0) as [i|] eqn:E; split; try done.
  - intros H. exfalso. apply find_from_Some in E as (_ & c & Hc & Hp).
    rewrite H in Hp by (by eapply list_elem_of_lookup_2). done.
  - intros _ c Hc. pose proof (find_from_forall _ n E c Hc) as H. by apply negb_false_iff in H.
Qed.

Lemma valid_lower n : valid_name n = true → tolower <$> n = n.
Proof.
  rewrite valid_name_spec. intros H. rewrite <- (list_fmap_id n) at 2. apply list_fmap_ext. intros i c Hc.
  apply list_elem_of_lookup_2, H in Hc. revert c Hc.
  assert (∀ c, (negb (mem_char name_chars c) || Ascii.eqb (tolower c) c) = true) as Hall by (apply ascii_forall; reflexivity).
  intros c Hc. specialize (Hall c). rewrite Hc in Hall. by apply Ascii.eqb_eq in Hall.
Qed.

Section theorems.
Context {Y : Yaml}.
Context (num_of : bool → Z → bytes → outcome Z) (num_to : bool → Z → Z → bytes) (rehash : ∀ A, list A → list A).
Context (listener : nat → value → value → outcome unit).
Context (num_of_range : ∀ s w v z, num_of s w v = Ret z → in_num s w z).
Context (rehash_perm : ∀ A (l : list A), rehash A l ≡ₚ l).
Implicit Types (s : config) (x : ConfigVar).

(** ** Types *)

(** Every variable has a value of its type, and every name leads to a variable of
    that name. *)
Record typed s : Prop := {
  typed_val p x : vars s !! p = Some x → has_type (m_type x) (m_val x);
  typed_name n p : s_datas s !! n = Some p → valid_name n = true ∧ ∃ x, vars s !! p = Some x ∧ m_name x = n;
  typed_next p : is_Some (vars s !! p) → (p < next s)%nat
}.

(** Variables stay, with their type and name, and so do names. *)
Record extends s s' : Prop := {
  extends_var p x : vars s !! p = Some x → ∃ x', vars s' !! p = Some x' ∧ m_type x' = m_type x ∧ m_name x' = m_name x;
  extends_name n p : s_datas s !! n = Some p → s_datas s' !! n = Some p
}.

#[local] Instance extends_preorder : PreOrder extends.
Proof.
  split.
  - intros s. split; [|done]. intros p x Hx. by exists x.
  - intros s1 s2 s3 [A1 A2] [B1 B2]. split; [|auto]. intros p x Hx.
    destruct (A1 p x Hx) as (y & Hy & E1 & E2). destruct (B1 p y Hy) as (z & Hz & E3 & E4). exists z. split_and!; congruence.
Qed.

Definition step s s' : Prop := typed s' ∧ extends s s'.
Lemma step_trans s1 s2 s3 : step s1 s2 → (typed s2 → step s2 s3) → step s1 s3.
Proof. intros [T1 E1] H. destruct (H T1) as [T2 E2]. split; [done|]. by etrans. Qed.

(** An operation that keeps types, whatever it returns. *)
Definition keeps_types {A} (m : stE config A) : Prop := ∀ s, typed s → step s (m s).2.

Lemma keeps_types_pure {A} (f : config → outcome A) : keeps_types (query f).
Proof. intros s Hs. by split. Qed.
Lemma keeps_types_bind {A C} (m : stE config A) (f : A → stE config C) :
  keeps_types m → (∀ a, keeps_types (f a)) → keeps_types (m ≫= f).
Proof.
  intros Hm Hf s Hs. specialize (Hm s Hs). unfold mbind, stE_bind. destruct (m s) as [[a|e|c] s1]; cbn in *; try done.
  eapply step_trans; [done|]. intros Ht. by apply Hf.
Qed.
Lemma keeps_types_catching {A} (a : A) (m : stE config A) : keeps_types m → keeps_types (catching a m).
Proof. intros Hm s Hs. specialize (Hm s Hs). unfold catching. by destruct (m s) as [[b|e|c] s1]. Qed.
Lemma keeps_types_ret {A} (a : A) : keeps_types (mret a).
Proof. intros s Hs. by split. Qed.

(** Writing a variable that is there. *)
Lemma put_var_step s p x y : typed s → vars s !! p = Some x → m_type y = m_type x → m_name y = m_name x →
  has_type (m_type y) (m_val y) → step s (set_vars <[p := y]> s).
Proof.
  intros [T1 T2 T3] Hx Ht Hn Hv. split; split; cbn.
  - intros q z [[<- <-]|[_ Hz]]%lookup_insert_Some; [done|by eapply T1].
  - intros n q Hq. destruct (T2 n q Hq) as (Hval & z & Hz & Hzn). split; [done|]. destruct (decide (p = q)) as [->|Hne].
    + rewrite lookup_insert_eq. exists y. split; [done|]. congruence.
    + rewrite lookup_insert_ne by done. by exists z.
  - intros q. rewrite lookup_insert_is_Some'. intros [<-|Hq]; apply T3; [by eexists|done].
  - intros q z Hz. destruct (decide (p = q)) as [->|Hne].
    + rewrite lookup_insert_eq. exists y. split_and!; congruence.
    + rewrite lookup_insert_ne by done. by exists z.
  - done.
Qed.

Lemma notify_calls cbs v w s : ∃ l, (notify listener cbs v w s).2 = set_calls (λ k, k ++ l) s.
Proof.
  revert s. induction cbs as [|i cbs IH]; intros s; cbn [notify].
  { exists []. destruct s. unfold set_calls. cbn. by rewrite app_nil_r. }
  rewrite modify_bind. unfold mbind at 1, stE_bind at 1, query at 1.
  destruct (listener i.2 v w); [|by eexists..]. destruct (IH (set_calls (λ k, k ++ [(i.2, v, w)]) s)) as [l ->].
  exists ([(i.2, v, w)] ++ l). unfold set_calls. cbn. by rewrite <- (assoc_L (++)).
Qed.


Lemma var_at_ret p s x : vars s !! p = Some x → var_at p s = (Ret x, s).
Proof. intros H. unfold var_at, query. by rewrite H. Qed.

(** Nothing comes between the two regions of [setValue]. *)
Lemma setValue_eq p v s : setValue listener p v s =
  (x ← var_at p;
   if value_eq (m_type x) v (m_val x) then mret tt
   else _ ← notify listener (m_cbs x) (m_val x) v; put_var p (with_val v x)) s.
Proof.
  unfold setValue, setValue_notify, mbind, stE_bind, var_at, query. destruct (vars s !! p) as [x|] eqn:Ex; [|done].
  destruct (value_eq _ _ _); [done|]. destruct (notify_calls (m_cbs x) (m_val x) v s) as [l Hl].
  destruct (notify listener (m_cbs x) (m_val x) v s) as [[[]|e|c] s1]; [|done..]. cbn in Hl. subst s1. cbn.
  unfold setValue_store, mbind, stE_bind, var_at, query. cbn. by rewrite Ex.
Qed.

(** After [var_at], the variable is known. *)
Lemma with_var {A} p (f : ConfigVar → stE config A) s : typed s →
  (∀ x, vars s !! p = Some x → step s (f x s).2) → step s ((x ← var_at p; f x) s).2.
Proof.
  intros Hs Hf. unfold mbind, stE_bind, var_at, query. destruct (vars s !! p) as [x|] eqn:E; [|by split]. by apply Hf.
Qed.

Lemma setValue_step p v s : typed s → (∀ x, vars s !! p = Some x → has_type (m_type x) v) → step s (setValue listener p v s).2.
Proof.
  intros Hs Hv. rewrite setValue_eq. apply with_var; [done|]. intros x Hx. destruct (value_eq _ _ _); [by split|].
  destruct (notify_calls (m_cbs x) (m_val x) v s) as [l Hl]. unfold mbind, stE_bind.
  destruct (notify listener (m_cbs x) (m_val x) v s) as [r s1]. cbn in Hl. subst s1.
  assert (step s (set_calls (λ k, k ++ l) s)) as Hstep by (split; [by destruct Hs|split; [intros q z Hz; by exists z|done]]).
  destruct r as [[]|e|c]; [|exact Hstep..]. eapply step_trans; [exact Hstep|]. intros Ht.
  apply (put_var_step _ p x); [done..|]. cbn. by apply Hv.
Qed.

Lemma fromString_keeps p val : keeps_types (fromString num_of rehash listener p val).
Proof.
  apply keeps_types_bind; [|intros; apply keeps_types_ret]. apply keeps_types_catching. intros s Hs.
  apply with_var; [done|]. intros x Hx. unfold mbind, stE_bind, query. destruct (from_string _ _ _ _) as [v| |] eqn:E; [|by split..].
  apply setValue_step; [done|]. intros y Hy. rewrite Hx in Hy. injection Hy as <-. eapply from_string_typed; [exact num_of_range|exact rehash_perm|exact E].
Qed.

Lemma load_members_keeps l : keeps_types (load_members num_of rehash listener l).
Proof.
  induction l as [|[k n] l IH]; cbn [load_members]; [apply keeps_types_ret|]. apply keeps_types_bind; [|done].
  cbn [fst snd]. destruct k as [|c k]; [apply keeps_types_ret|].
  apply keeps_types_bind; [intros s Hs; by split|]. intros [p|]; [|apply keeps_types_ret].
  apply keeps_types_bind; [apply fromString_keeps|intros; apply keeps_types_ret].
Qed.

Lemma LoadFromYaml_keeps fuel root : keeps_types (LoadFromYaml num_of rehash listener fuel root).
Proof. apply keeps_types_bind; [apply keeps_types_pure|apply load_members_keeps]. Qed.

Lemma load_files_keeps fuel mtime LoadFile files force : keeps_types (load_files num_of rehash listener fuel mtime LoadFile files force).
Proof.
  induction files as [|i files IH]; cbn [load_files]; [apply keeps_types_ret|].
  apply keeps_types_bind; [intros s Hs; by split|]. intros s0. apply keeps_types_bind; [|done].
  destruct (_ && _); [apply keeps_types_ret|]. apply keeps_types_bind.
  - intros s Hs. split; [by destruct Hs|]. split; [intros q z Hz; by exists z|done].
  - intros _. apply keeps_types_catching, keeps_types_bind; [apply keeps_types_pure|]. intros root. apply LoadFromYaml_keeps.
Qed.

(** Changing the listeners of a variable. *)
Lemma with_cbs_step p (f : ConfigVar → list (Z * nat)) s : typed s → step s ((x ← var_at p; put_var p (with_cbs (f x) x)) s).2.
Proof.
  intros Hs. apply with_var; [done|]. intros x Hx. apply (put_var_step _ p x); try done. cbn. by apply (typed_val s Hs p).
Qed.

Lemma addListener_keeps p cb : keeps_types (addListener p cb).
Proof.
  intros s Hs. apply with_var; [done|]. intros x Hx. rewrite get_bind, modify_bind.
  set (s1 := set_ids _ s). assert (step s s1) as H1.
  { split; [by destruct Hs|]. split; [intros q z Hz; by exists z|done]. }
  eapply step_trans; [exact H1|]. intros Ht. apply (put_var_step _ p x); try done. cbn. by apply (typed_val s Hs p).
Qed.

Lemma Lookup_default_step t n v d s : typed s → has_type t v → step s (Lookup_default t n v d s).2.
Proof.
  intros Hs Hv. unfold Lookup_default. rewrite get_bind. destruct (s_datas s !! n) as [p|] eqn:En.
  { apply with_var; [done|]. intros x _. by split. }
  destruct (valid_name n) eqn:Hn; cbn [negb]; [|by split]. pose proof Hs as [T1 T2 T3].
  assert (∀ p x, vars s !! p = Some x → p ≠ next s) as Hne.
  { intros p x Hx ->. assert (is_Some (vars s !! next s)) as H by by eexists. specialize (T3 _ H). lia. }
  split; split; cbn.
  - intros p x [[<- <-]|[_ Hx]]%lookup_insert_Some; [done|by eapply T1].
  - intros m p [[<- <-]|[_ Hp]]%lookup_insert_Some.
    + split; [done|]. rewrite lookup_insert_eq. eexists. split; [done|]. cbn. by apply valid_lower.
    + destruct (T2 m p Hp) as (Hm & x & Hx & Hxn). split; [done|]. exists x. split; [|done].
      rewrite lookup_insert_ne; [done|]. intros <-. by eapply Hne.
  - intros p. rewrite lookup_insert_is_Some'. intros [<-|Hp]; [lia|]. specialize (T3 p Hp). lia.
  - intros p x Hx. exists x. split; [|done]. rewrite lookup_insert_ne; [done|]. intros <-. by eapply Hne.
  - intros m p Hm. rewrite lookup_insert_ne; [done|]. intros ->. congruence.
Qed.

(** What [Lookup] finds. *)
Lemma Lookup_spec t n s : typed s → ∃ r, Config.Lookup t n s = (Ret r, s) ∧
  ∀ p, r = Some p ↔ s_datas s !! n = Some p ∧ ∃ x, vars s !! p = Some x ∧ m_type x = t.
Proof.
  intros Hs. unfold Config.Lookup. rewrite get_bind. destruct (s_datas s !! n) as [q|] eqn:En; [|exists None; split; [done|naive_solver]].
  destruct (typed_name s Hs n q En) as (_ & x & Hx & _). unfold dynamic_cast. rewrite (stE_bind_ret _ _ _ _ _ (var_at_ret q s x Hx)).
  eexists. split; [done|]. intros p. case_decide as Ht; split; [intros [= ->]|intros ([= ->] & _)|done|intros ([= ->] & y & Hy & Hyt)]; [by eauto|done|].
  rewrite Hx in Hy. injection Hy as <-. done.
Qed.
End theorems.

(** ** Histories *)

Inductive op {Y : Yaml} :=
  | OpLookup (t : ty) (name : bytes) (default_value : value) (description : bytes)
  | OpSet (p : nat) (v : value) | OpFromString (p : nat) (text : bytes)
  | OpAdd (p cb : nat) | OpDel (p : nat) (key : Z) | OpClear (p : nat)
  | OpYaml (fuel : nat) (root : Node) | OpFiles (fuel : nat) (mtime : bytes → Z) (LoadFile : bytes → outcome Node) (files : list bytes) (force : bool).

Section histories.
Context {Y : Yaml} (num_of : bool → Z → bytes → outcome Z) (rehash : ∀ A, list A → list A).
Context (listener : nat → value → value → outcome unit).

(** The state an operation leaves, also when it throws. *)
Definition run_op (o : op) (s : config) : config :=
  match o with
  | OpLookup t n v d => (Lookup_default t n v d s).2
  | OpSet p v => (setValue listener p v s).2
  | OpFromString p text => (fromString num_of rehash listener p text s).2
  | OpAdd p cb => (addListener p cb s).2
  | OpDel p key => (delListener p key s).2
  | OpClear p => (clearListener p s).2
  | OpYaml fuel root => (LoadFromYaml num_of rehash listener fuel root s).2
  | OpFiles fuel mtime LoadFile files force => (load_files num_of rehash listener fuel mtime LoadFile files force s).2
  end.

(** The compiler checks the values a program passes. *)
Definition op_typed (o : op) (s : config) : Prop :=
  match o with
  | OpLookup t _ v _ => has_type t v
  | OpSet p v => ∀ x, vars s !! p = Some x → has_type (m_type x) v
  | _ => True
  end.

Fixpoint ops_typed (l : list op) (s : config) : Prop :=
  match l with [] => True | o :: l => op_typed o s ∧ ops_typed l (run_op o s) end.
Definition run_ops (l : list op) (s : config) : config := fold_left (λ s o, run_op o s) l s.
End histories.

Lemma run_op_step {Y : Yaml} num_of rehash listener o s : (∀ s w v z, num_of s w v = Ret z → in_num s w z) →
  (∀ A (l : list A), rehash A l ≡ₚ l) → typed s → op_typed o s → step s (run_op num_of rehash listener o s).
Proof.
  intros Hn Hr Hs Ho. destruct o; cbn [run_op op_typed] in *.
  - by apply Lookup_default_step.
  - by apply setValue_step.
  - by apply fromString_keeps.
  - by apply addListener_keeps.
  - by apply with_cbs_step.
  - by apply with_cbs_step.
  - by apply LoadFromYaml_keeps.
  - by apply load_files_keeps.
Qed.

Lemma run_ops_step {Y : Yaml} num_of rehash listener l s : (∀ s w v z, num_of s w v = Ret z → in_num s w z) →
  (∀ A (l : list A), rehash A l ≡ₚ l) → typed s → ops_typed num_of rehash listener l s → step s (run_ops num_of rehash listener l s).
Proof.
  intros Hn Hr. revert s. induction l as [|o l IH]; intros s Hs; cbn [ops_typed run_ops fold_left].
  { intros _. split; [done|]. split; [|done]. intros p x Hx. by exists x. }
  intros [Ho Hl]. eapply step_trans; [by apply run_op_step|]. intros Ht. by apply IH.
Qed.

Lemma no_config_typed : typed no_config.
Proof.
  split; cbn.
  - intros p x. by rewrite lookup_empty.
  - intros n p. by rewrite lookup_empty.
  - intros p. rewrite lookup_empty. by intros [? ?].
Qed.

(** C28: through any history of the configuration - look-ups that create variables, values that are set,
    texts and whole documents and files that are read, well-formed or not,
    listeners that come, go and throw - every variable holds a value of
    its type: numbers in the range of their width, sets and maps in
    order, unordered ones without repetition.  A variable never changes its
    type or name, a name never leads elsewhere, and a look-up with a type finds
    the variable of the name exactly when it has this type. *)
Theorem config_typed {Y : Yaml} (num_of : bool → Z → bytes → outcome Z) (rehash : ∀ A, list A → list A)
    (listener : nat → value → value → outcome unit)
    (Hnum : ∀ s w v z, num_of s w v = Ret z → in_num s w z) (Hrehash : ∀ A (l : list A), rehash A l ≡ₚ l)
    (before after : list op) (Hb : ops_typed num_of rehash listener before no_config)
    (Ha : ops_typed num_of rehash listener after (run_ops num_of rehash listener before no_config)) :
  let s := run_ops num_of rehash listener before no_config in
  let s' := run_ops num_of rehash listener after s in
  (∀ p x, vars s !! p = Some x → has_type (m_type x) (m_val x) ∧
     ∃ x', vars s' !! p = Some x' ∧ m_type x' = m_type x ∧ m_name x' = m_name x ∧ has_type (m_type x) (m_val x')) ∧
  (∀ n p, s_datas s !! n = Some p → s_datas s' !! n = Some p ∧ valid_name n = true ∧ m_name <$> vars s !! p = Some n) ∧
  (∀ t n, ∃ r, Config.Lookup t n s = (Ret r, s) ∧
     ∀ p, r = Some p ↔ s_datas s !! n = Some p ∧ m_type <$> vars s !! p = Some t).
Proof.
  intros s s'. destruct (run_ops_step num_of rehash listener before no_config Hnum Hrehash no_config_typed Hb) as [T _].
  destruct (run_ops_step num_of rehash listener after s Hnum Hrehash T Ha) as [T' [E1 E2]]. split_and!.
  - intros p x Hx. split; [by apply (typed_val s T p)|]. destruct (E1 p x Hx) as (x' & Hx' & Ht & Hn).
    exists x'. split_and!; try done. rewrite <- Ht. by apply (typed_val s' T' p).
  - intros n p Hp. split; [by apply E2|]. destruct (typed_name s T n p Hp) as (Hv & x & Hx & Hn). split; [done|]. by rewrite Hx, <- Hn.
  - intros t n. destruct (Lookup_spec listener t n s T) as (r & Hr & H). exists r. split; [done|]. intros p. rewrite H.
    rewrite fmap_Some. naive_solver.
Qed.

(* ------------------------------------------------------------------ *)
(** ** A configuration *)

Definition quiet_listener (_ : nat) (_ _ : value) : outcome unit := Ret tt.

(** Two variables, and a document for one of them, twice, and for names that
    cannot be. *)
Definition int32 : ty := TNum true 32.
Definition sample_ops : list (@op Tree.yaml) :=
  [OpLookup int32 (B "tcp.port") (VNum 80) []; OpLookup (TVector int32) (B "list") (VSeq []) []; OpAdd 0 5].
Definition sample_config : config := run_ops (Y := Tree.yaml) Decimal.num_of (λ _ l, l) quiet_listener sample_ops no_config.
Definition sample_document : Tree.node :=
  Tree.Map_ [(B "tcp", Tree.Map_ [(B "port", Tree.Scalar_ (B "8080")); (B "port9", Tree.Scalar_ (B "1"))]);
             (B "tcp.port", Tree.Scalar_ (B "none")); (B "TCP", Tree.Map_ [(B "port", Tree.Scalar_ (B "9"))])].

Definition later : list (@op Tree.yaml) := [@OpYaml Tree.yaml 5 sample_document; OpFromString 0 (B "x")].

Lemma sample_ops_typed : ops_typed (Y := Tree.yaml) Decimal.num_of (λ _ l, l) quiet_listener sample_ops no_config.
Proof. unfold sample_ops. cbn [ops_typed op_typed has_type int32 in_num]. unfold in_s. repeat split; try lia. constructor. Qed.

Lemma config_typed_witness :
  ops_typed (Y := Tree.yaml) Decimal.num_of (λ _ l, l) quiet_listener sample_ops no_config ∧
  ∃ x', vars (run_ops (Y := Tree.yaml) Decimal.num_of (λ _ l, l) quiet_listener later sample_config) !! 0%nat
    = Some x' ∧ m_type x' = int32 ∧ has_type int32 (m_val x').
Proof.
  split; [exact sample_ops_typed|].
  pose proof (config_typed (Y := Tree.yaml) Decimal.num_of (λ _ l, l) quiet_listener Decimal.num_of_range (λ A l, Permutation_refl l)
    sample_ops later sample_ops_typed) as H.
  destruct (H ltac:(repeat split)) as (H1 & _ & _).
  destruct (H1 0%nat (mkVar int32 (B "tcp.port") [] (VNum 80) [(1, 5%nat)])) as (_ & x' & E & Ht & _ & Hv); [reflexivity|].
  exists x'. split; [exact E|]. split; [exact Ht|exact Hv].
Defined.
