(* ===== verification/ConfigLoad.v ===== *)
(** * What a document sets, and who is told

    The members of a document, the variables they are for, and the values
    these end with; the order in which listeners learn of a change. *)
From S2P Require Import Prelude StdString OrderedSet OrderedMap Yaml LexicalCast LexicalCastTheorems Config ConfigTheorems.
From stdpp Require Import gmap.

Local Open Scope Z_scope.

(** ** Members *)

Section members.
Context {Y : Yaml}.

(** [m] is a member of [node] under the name [k], itself under [prefix]; no name on
    the way has a character that is not allowed. *)
Inductive reach : bytes → Node → bytes → Node → Prop :=
  | reach_here prefix node : valid_name prefix = true → reach prefix node prefix node
  | reach_member prefix node it k m : valid_name prefix = true → IsMap node = true → it ∈ pairs node →
      reach (member_name prefix (Scalar it.1)) it.2 k m → reach prefix node k m.

(** A bound on the nesting. *)
Definition bounds_depth (depth : Node → nat) : Prop :=
  ∀ node it, IsMap node = true → it ∈ pairs node → (depth it.2 < depth node)%nat.

Lemma each_total {A C} (f : A → outcome C) l : (∀ x, x ∈ l → ∃ y, f x = Ret y) → ∃ r, each f l = Ret r ∧ Forall2 (λ x y, f x = Ret y) l r.
Proof.
  induction l as [|x l IH]; intros H; cbn [each]; [by exists []|]. destruct (H x) as [y Hy]; [by left|].
  destruct IH as (r & -> & Hr); [intros; apply H; by right|]. rewrite Hy. exists (y :: r). split; [done|]. by constructor.
Qed.

Lemma reach_valid prefix node k m : reach prefix node k m → valid_name k = true.
Proof. by induction 1. Qed.

Lemma members_spec depth fuel prefix node : bounds_depth depth → (depth node < fuel)%nat →
  ∃ l, ListAllMember fuel prefix node = Ret l ∧ ∀ k m, (k, m) ∈ l ↔ reach prefix node k m.
Proof.
  intros Hd. revert prefix node. induction fuel as [|fuel IH]; intros prefix node Hf; [lia|]. cbn [ListAllMember].
  destruct (valid_name prefix) eqn:Hv; cbn [negb].
  2:{ exists []. split; [done|]. intros k m. split; [by intros ?%elem_of_nil|]. intros H. inversion H; congruence. }
  destruct (IsMap node) eqn:Hm.
  - destruct (each_total (λ it, ListAllMember fuel (member_name prefix (Scalar it.1)) it.2) (pairs node)) as (r & Er & Hr).
    { intros it Hin. destruct (IH (member_name prefix (Scalar it.1)) it.2) as (l & Hl & _); [|by exists l].
      specialize (Hd node it Hm Hin). lia. }
    rewrite Er. eexists. split; [reflexivity|]. intros k m. rewrite elem_of_cons, list_elem_of_join. split.
    + intros [[= -> ->]|(l & Hin & Hl)]; [by apply reach_here|]. apply list_elem_of_lookup in Hl as [i Hi].
      destruct (Forall2_lookup_r _ _ _ _ _ Hr Hi) as (it & Hit & Eit). apply list_elem_of_lookup_2 in Hit.
      apply (reach_member prefix node it); [done..|].
      destruct (IH (member_name prefix (Scalar it.1)) it.2) as (l' & Hl' & H); [specialize (Hd node it Hm Hit); lia|].
      apply H. congruence.
    + intros H. inversion H as [? ? ? E1 E2|? ? it ? ? _ _ Hit Hk]; subst; [by left|]. right.
      destruct (IH (member_name prefix (Scalar it.1)) it.2) as (l' & Hl' & H'); [specialize (Hd node it Hm Hit); lia|].
      exists l'. split; [by apply H'|]. apply list_elem_of_lookup in Hit as [i Hi].
      destruct (Forall2_lookup_l _ _ _ _ _ Hr Hi) as (l & Hl & El). apply list_elem_of_lookup_2 with i. congruence.
  - eexists. split; [reflexivity|]. intros k m. rewrite list_elem_of_singleton. split.
    + intros [= -> ->]. by apply reach_here.
    + intros H. inversion H; [done|congruence].
Qed.
End members.

(** ** Listeners *)

Section values.
Context {Y : Yaml}.
Context (num_of : bool → Z → bytes → outcome Z) (rehash : ∀ A, list A → list A).
Context (listener : nat → value → value → outcome unit).
Implicit Types (s : config) (x : ConfigVar).

(** Listeners that return are called in turn. *)
Lemma notify_ret cbs v w s : (∀ i, i ∈ cbs → listener i.2 v w = Ret tt) →
  notify listener cbs v w s = (Ret tt, set_calls (λ l, l ++ ((λ i, (i.2, v, w)) <$> cbs)) s).
Proof.
  revert s. induction cbs as [|i cbs IH]; intros s H; cbn [notify].
  { destruct s. unfold set_calls. cbn. by rewrite app_nil_r. }
  rewrite modify_bind, (stE_bind_ret _ _ _ tt _) by (unfold query; by rewrite H by by left).
  rewrite IH by (intros; apply H; by right). unfold set_calls. cbn. by rewrite <- (assoc_L (++)).
Qed.

Lemma notify_throw cbs i rest v w e s : (∀ j, j ∈ cbs → listener j.2 v w = Ret tt) → listener i.2 v w = Throw e →
  notify listener (cbs ++ i :: rest) v w s = (Throw e, set_calls (λ l, l ++ ((λ i, (i.2, v, w)) <$> (cbs ++ [i]))) s).
Proof.
  revert s. induction cbs as [|j cbs IH]; intros s H Hi; cbn [app notify].
  { rewrite modify_bind. by rewrite (stE_bind_throw _ _ _ e _) by (unfold query; by rewrite Hi). }
  rewrite modify_bind, (stE_bind_ret _ _ _ tt _) by (unfold query; by rewrite H by by left).
  rewrite IH; [|intros; apply H; by right|done]. unfold set_calls. cbn. by rewrite <- (assoc_L (++)).
Qed.

(** The text of a node, and the texts a document has for a name. *)
Definition text_of (n : Node) : bytes := if IsScalar n then Scalar n else emit n.
Definition texts_for (n : bytes) (members : list (bytes * Node)) : list bytes :=
  (text_of ∘ snd) <$> filter (λ kn, kn.1 ≠ [] ∧ tolower <$> kn.1 = n) members.

(** A text that can be cast becomes the value, unless it is equal to it. *)
Definition apply_text (t : ty) (v : value) (text : bytes) : value :=
  match from_string num_of rehash t text with Ret w => if value_eq t w v then v else w | _ => v end.

(** Nobody listens who throws. *)
Definition quiet x : Prop := ∀ i, i ∈ m_cbs x → ∀ v w, listener i.2 v w = Ret tt.
Definition no_faults : Prop :=
  ((∀ sg w v f, num_of sg w v ≠ Crash f) ∧ ∀ v f, Load v ≠ Crash f) ∧ ∀ cb v w f, listener cb v w ≠ Crash f.

Lemma each_no_crash {A C} (g : A → outcome C) l f : (∀ a f, g a ≠ Crash f) → each g l ≠ Crash f.
Proof.
  intros H. induction l as [|a l IH]; cbn [each]; [done|]. specialize (H a). unfold mbind, outcome_bind.
  destruct (g a) as [y|e|c]; [|done|by intros [= <-]; by eapply H]. by destruct (each g l).
Qed.

Lemma from_string_no_crash t v f : no_faults → from_string num_of rehash t v ≠ Crash f.
Proof.
  intros [[Hn Hl] _]. revert v f. induction t as [sg w| |t IH|t IH|t IH|t IH|t IH|t IH]; intros v f; cbn [from_string].
  all: unfold cast_vector, cast_list, cast_set, cast_unordered_set, cast_map, cast_unordered_map, mbind, outcome_bind.
  { specialize (Hn sg w v f). destruct (num_of sg w v); [done|done|congruence]. }
  { done. }
  all: specialize (Hl v f); destruct (Load v) as [n|e|c]; [|done|congruence].
  all: match goal with |- context [each ?g ?l] => pose proof (each_no_crash g l f) as He; destruct (each g l); [done|done|] end.
  all: intros [= ->]; apply He; [|done]; try exact IH.
  all: intros [k a] f' Hc; unfold cast_pair, mbind, outcome_bind in Hc; cbn in Hc; specialize (IH a);
    destruct (from_string num_of rehash t a); [done|done|].
  all: injection Hc as ->; by eapply IH.
Qed.

(** Only the value of one variable changes. *)
Definition only_value s s' p : Prop :=
  s_datas s' = s_datas s ∧ (∀ q, q ≠ p → vars s' !! q = vars s !! q) ∧
  ∀ x, vars s !! p = Some x → ∃ v, vars s' !! p = Some (with_val v x).

Lemma notify_outcome cbs v w s : no_faults → (∃ e, (notify listener cbs v w s).1 = Throw e) ∨ (notify listener cbs v w s).1 = Ret tt.
Proof.
  intros [_ Hf]. revert s. induction cbs as [|i cbs IH]; intros s; cbn [notify]; [by right|].
  rewrite modify_bind. unfold mbind, stE_bind, query. destruct (listener i.2 v w) as [[]|e|f] eqn:E; [apply IH|left; by exists e|].
  by apply Hf in E.
Qed.

Lemma with_same_val x : with_val (m_val x) x = x.
Proof. by destruct x. Qed.

Lemma fromString_effect p text s x : no_faults → vars s !! p = Some x → ∃ s', fromString num_of rehash listener p text s = (Ret false, s') ∧
  only_value s s' p ∧ (quiet x → vars s' !! p = Some (with_val (apply_text (m_type x) (m_val x) text) x)).
Proof.
  intros Hnf Hx. unfold fromString.
  assert (∃ s', catching tt (x ← var_at p; v ← query (λ _, from_string num_of rehash (m_type x) text); setValue listener p v) s = (Ret tt, s') ∧
    only_value s s' p ∧ (quiet x → vars s' !! p = Some (with_val (apply_text (m_type x) (m_val x) text) x))) as (s' & E & H).
  2:{ exists s'. split; [|exact H]. by rewrite (stE_bind_ret _ _ _ _ _ E). }
  assert (only_value s s p) as Hsame.
  { split; [done|]. split; [done|]. intros y Hy. exists (m_val y). by rewrite with_same_val. }
  unfold catching. rewrite (stE_bind_ret _ _ _ _ _ (var_at_ret p s x Hx)). unfold apply_text.
  destruct (from_string num_of rehash (m_type x) text) as [v|e|f] eqn:Ef; [| |by apply from_string_no_crash in Ef].
  2:{ exists s. unfold mbind, stE_bind, query. split; [done|]. split; [done|]. intros _. by rewrite with_same_val. }
  rewrite (stE_bind_ret _ _ s v s) by done. rewrite setValue_eq, (stE_bind_ret _ _ _ _ _ (var_at_ret p s x Hx)).
  destruct (value_eq (m_type x) v (m_val x)).
  { exists s. split; [done|]. split; [done|]. intros _. by rewrite with_same_val. }
  destruct (notify_calls listener (m_cbs x) (m_val x) v s) as [l Hl].
  pose proof (notify_outcome (m_cbs x) (m_val x) v s Hnf) as Ho. pose proof (notify_ret (m_cbs x) (m_val x) v s) as Hq.
  destruct (notify listener (m_cbs x) (m_val x) v s) as [r s1] eqn:En. cbn in Hl, Ho. subst s1.
  destruct Ho as [[e ->]| ->]; unfold mbind, stE_bind; rewrite En.
  - exists (set_calls (λ k, k ++ l) s). split; [done|]. split; [exact Hsame|]. intros Hquiet. by specialize (Hq (λ i Hi, Hquiet i Hi _ _)).
  - eexists. split; [done|]. split; [|intros _; cbn; apply lookup_insert_eq]. split; [done|]. cbn. split.
    + intros q Hne. by rewrite lookup_insert_ne.
    + intros y Hy. rewrite Hx in Hy. injection Hy as <-. exists v. apply lookup_insert_eq.
Qed.

(** Every name leads to a variable of that name. *)
Definition named s : Prop := ∀ n p, s_datas s !! n = Some p → ∃ x, vars s !! p = Some x ∧ m_name x = n.

Lemma named_only_value s s' p : named s → only_value s s' p → named s'.
Proof.
  intros Hs (Hd & Ho & Hp) n q Hq. rewrite Hd in Hq. destruct (Hs n q Hq) as (x & Hx & Hn).
  destruct (decide (q = p)) as [->|Hne]; [|exists x; by rewrite Ho].
  destruct (Hp x Hx) as [v Hv]. by exists (with_val v x).
Qed.

Lemma texts_for_cons n k m members : texts_for n ((k, m) :: members) =
  (if decide (k ≠ [] ∧ tolower <$> k = n) then [text_of m] else []) ++ texts_for n members.
Proof. unfold texts_for. rewrite filter_cons. cbn [fst]. by repeat case_decide. Qed.

(** One member. *)
Definition load_member (i : bytes * Node) : stE config unit :=
  match i.1 with
  | [] => mret tt
  | _ =>
      var ← LookupBase (tolower <$> i.1);
      match var with
      | None => mret tt
      | Some p => _ ← fromString num_of rehash listener p (text_of i.2); mret tt
      end
  end.

Lemma load_member_effect k m s : no_faults → named s → ∃ s', load_member (k, m) s = (Ret tt, s') ∧ named s' ∧
  s_datas s' = s_datas s ∧ ∀ n p x, s_datas s !! n = Some p → vars s !! p = Some x → quiet x →
    vars s' !! p = Some (with_val (fold_left (apply_text (m_type x)) (if decide (k ≠ [] ∧ tolower <$> k = n) then [text_of m] else []) (m_val x)) x).
Proof.
  intros Hnf Hs. unfold load_member. cbn [fst snd]. destruct (decide (k = [])) as [->|Hk].
  { exists s. split; [done|]. split; [done|]. split; [done|]. intros n p x _ Hx _. rewrite decide_False by tauto. cbn. by rewrite with_same_val. }
  assert ((match k with [] => mret tt | _ => var ← LookupBase (tolower <$> k); match var with None => mret tt
    | Some p => _ ← fromString num_of rehash listener p (text_of m); mret tt end end : stE config unit) s
    = match s_datas s !! (tolower <$> k) with None => (Ret tt, s)
      | Some p => (_ ← fromString num_of rehash listener p (text_of m); mret tt) s end) as E.
  { destruct k as [|c k]; [done|]. unfold LookupBase. unfold mbind, stE_bind, get. cbn. by destruct (s_datas s !! _). }
  rewrite E. clear E. destruct (s_datas s !! (tolower <$> k)) as [q|] eqn:Eq.
  - destruct (Hs _ q Eq) as (y & Hy & Hyn). destruct (fromString_effect q (text_of m) s y Hnf Hy) as (s1 & E1 & H1 & Hq).
    exists s1. rewrite (stE_bind_ret _ _ _ _ _ E1). split; [done|]. split; [by eapply named_only_value|]. split; [apply H1|].
    intros n p x Hn Hx Hquiet. case_decide as Hd.
    + destruct Hd as [_ <-]. assert (p = q) as -> by congruence. assert (x = y) as -> by congruence. by apply Hq.
    + cbn. rewrite with_same_val. destruct H1 as (_ & Ho & _). rewrite Ho; [done|]. intros ->. apply Hd. split; [done|].
      destruct (Hs n q Hn) as (x' & Hx' & <-). congruence.
  - exists s. split; [done|]. split; [done|]. split; [done|]. intros n p x Hn Hx _.
    rewrite decide_False by (intros [_ <-]; congruence). cbn. by rewrite with_same_val.
Qed.

Lemma load_members_effect members s : no_faults → named s → ∃ s', load_members num_of rehash listener members s = (Ret tt, s') ∧
  s_datas s' = s_datas s ∧ ∀ n p x, s_datas s !! n = Some p → vars s !! p = Some x → quiet x →
    vars s' !! p = Some (with_val (fold_left (apply_text (m_type x)) (texts_for n members) (m_val x)) x).
Proof.
  intros Hnf. revert s. induction members as [|[k m] members IH]; intros s Hs; cbn [load_members].
  { exists s. split; [done|]. split; [done|]. intros n p x _ Hx _. unfold texts_for. cbn. by rewrite with_same_val. }
  destruct (load_member_effect k m s Hnf Hs) as (s1 & E1 & N1 & D1 & V1). destruct (IH s1 N1) as (s2 & E2 & D2 & V2).
  exists s2. unfold load_member, text_of in E1. rewrite (stE_bind_ret _ _ _ _ _ E1). split; [done|]. split; [congruence|].
  intros n p x Hn Hx Hquiet. rewrite texts_for_cons, fold_left_app.
  set (v1 := fold_left _ (if decide _ then _ else _) _).
  rewrite (V2 n p (with_val v1 x)); [by destruct x|by rewrite D1|by apply V1|exact Hquiet].
Qed.
End values.

(** Loading a document.  However it is formed, as long as it does
    not contain itself, loading it ends and no error of a cast or a listener
    gets out.  Its members are exactly those under names of allowed
    characters all the way - a name with a 9 or a capital letter hides all that is below it.
    A variable nobody listens to who throws ends with the last text the
    document has for its name that can be cast, and keeps its value
    if there is none; no other variable changes. *)
Theorem document_loaded {Y : Yaml} (num_of : bool → Z → bytes → outcome Z) (rehash : ∀ A, list A → list A)
    (listener : nat → value → value → outcome unit) (Hnf : no_faults num_of listener)
    (depth : Node → nat) (Hdepth : bounds_depth depth) (root : Node) (fuel : nat) (Hfuel : (depth root < fuel)%nat)
    (s : config) (Hs : named s) :
  ∃ members, ListAllMember fuel [] root = Ret members ∧
    (∀ k m, (k, m) ∈ members ↔ reach [] root k m) ∧
    (∀ k m, (k, m) ∈ members → ∀ c, c ∈ k → mem_char name_chars c = true) ∧
    ∃ s', LoadFromYaml num_of rehash listener fuel root s = (Ret tt, s') ∧ s_datas s' = s_datas s ∧
      ∀ n p x, s_datas s !! n = Some p → vars s !! p = Some x → quiet listener x →
        vars s' !! p = Some (with_val (fold_left (apply_text num_of rehash (m_type x)) (texts_for n members) (m_val x)) x).
Proof.
  destruct (members_spec depth fuel [] root Hdepth Hfuel) as (members & El & Hl). exists members. split; [done|]. split; [done|]. split.
  - intros k m Hin. apply valid_name_spec. by eapply reach_valid, Hl.
  - destruct (load_members_effect num_of rehash listener members s Hnf Hs) as (s' & E & H).
    exists s'. split; [|exact H]. unfold LoadFromYaml. by rewrite (stE_bind_ret _ _ s members s) by (unfold query; by rewrite El).
Qed.

(** Who is told of a change, and when.  Setting an equal value tells
    nobody.  Otherwise the listeners are called in the order they were added,
    each with the old and the new value, and only then is the value stored; if one
    throws, those after it are not called and the old value stays, and
    reading from a text reports failure in every case. *)
Theorem change_notified {Y : Yaml} (num_of : bool → Z → bytes → outcome Z) (rehash : ∀ A, list A → list A)
    (listener : nat → value → value → outcome unit) (s : config) (p : nat) (x : ConfigVar) (v : value) (text : bytes)
    (Hx : vars s !! p = Some x) (Hv : from_string num_of rehash (m_type x) text = Ret v) :
  let told l := (λ i : Z * nat, (i.2, m_val x, v)) <$> l in
  let from_text := fromString num_of rehash listener p text s in
  (value_eq (m_type x) v (m_val x) = true → setValue listener p v s = (Ret tt, s) ∧ from_text = (Ret false, s)) ∧
  (value_eq (m_type x) v (m_val x) = false → (∀ i, i ∈ m_cbs x → listener i.2 (m_val x) v = Ret tt) →
     let s' := set_vars <[p := with_val v x]> (set_calls (λ l, l ++ told (m_cbs x)) s) in
     setValue listener p v s = (Ret tt, s') ∧ from_text = (Ret false, s')) ∧
  (∀ l i r e, value_eq (m_type x) v (m_val x) = false → m_cbs x = l ++ i :: r →
     (∀ j, j ∈ l → listener j.2 (m_val x) v = Ret tt) → listener i.2 (m_val x) v = Throw e →
     let s' := set_calls (λ k, k ++ told (l ++ [i])) s in
     setValue listener p v s = (Throw e, s') ∧ from_text = (Ret false, s')).
Proof.
  intros told from_text. pose proof (var_at_ret p s x Hx) as Hat.
  assert (∀ r s', setValue listener p v s = (r, s') → (∀ f, r ≠ Crash f) → from_text = (Ret false, s')) as Hft.
  { intros r s' E Hr. unfold from_text, fromString, catching, mbind, stE_bind, query. rewrite Hat, Hv, E.
    destruct r as [[]|e|f]; [done|done|by destruct (Hr f)]. }
  rewrite setValue_eq, (stE_bind_ret _ _ _ _ _ Hat) in *. split_and!.
  - intros E. rewrite E in *. split; [done|]. by eapply Hft.
  - intros E Hall. rewrite E in *. rewrite (stE_bind_ret _ _ _ _ _ (notify_ret listener _ _ _ s Hall)) in *.
    split; [done|]. by eapply Hft.
  - intros l i r e E Hm Hl Hi. rewrite E, Hm in *.
    pose proof (notify_throw listener l i r (m_val x) v e s Hl Hi) as Hn. rewrite (stE_bind_throw _ _ _ _ _ Hn) in *.
    split; [done|]. by eapply Hft.
Qed.

(* ------------------------------------------------------------------ *)
(** ** A configuration and a document *)

Definition depth_of : Tree.node → nat :=
  fix go n := match n with Tree.Map_ l => S (list_max ((λ kn, go kn.2) <$> l)) | _ => 0%nat end.

Lemma depth_of_bounds : bounds_depth (Y := Tree.yaml) depth_of.
Proof.
  intros [|s|l|l] it Hm Hin; try done. cbn in Hin. apply list_elem_of_fmap in Hin as ([k n] & -> & Hin). cbn.
  apply Nat.lt_succ_r.
  pose proof (proj1 (list_max_le ((λ kn, depth_of kn.2) <$> l) _) (Nat.le_refl _)) as H. rewrite List.Forall_forall in H.
  apply H. apply list_elem_of_In, list_elem_of_fmap. by exists (k, n).
Qed.

Lemma sample_no_faults : no_faults (Y := Tree.yaml) Decimal.num_of quiet_listener.
Proof.
  split; [split|done].
  - intros sg w v f. unfold Decimal.num_of. destruct (is_number v); [|done]. by destruct (if sg then _ else _).
  - intros [|c v] f; cbn; [done|]. case_bool_decide; [|done]. by destruct (decode _).
Qed.

Lemma document_loaded_witness : named sample_config ∧ (depth_of sample_document < 5)%nat ∧
  ∃ s', LoadFromYaml (Y := Tree.yaml) Decimal.num_of (λ _ l, l) quiet_listener 5 sample_document sample_config = (Ret tt, s') ∧
    m_val <$> vars s' !! 0%nat = Some (VNum 8080).
Proof.
  assert (named sample_config) as Hn.
  { intros n p Hp. assert (s_datas sample_config = <[B "list" := 1%nat]> {[ B "tcp.port" := 0%nat ]}) as E by (vm_compute; reflexivity).
    rewrite E in Hp. apply lookup_insert_Some in Hp as [[<- <-]|[_ [<- <-]%lookup_singleton_Some]]; eexists; split; reflexivity. }
  split; [exact Hn|]. split; [cbn; lia|].
  destruct (document_loaded (Y := Tree.yaml) Decimal.num_of (λ _ l, l) quiet_listener sample_no_faults depth_of depth_of_bounds
    sample_document 5 ltac:(cbn; lia) sample_config Hn) as (members & Em & _ & _ & s' & E & _ & Hv).
  exists s'. split; [exact E|]. vm_compute in Em. injection Em as <-.
  rewrite (Hv (B "tcp.port") 0%nat (mkVar int32 (B "tcp.port") [] (VNum 80) [(1, 5%nat)])); [reflexivity|reflexivity|reflexivity|].
  intros i _ v w. reflexivity.
Defined.

(** The second of two listeners throws. *)
Definition picky (cb : nat) (_ _ : value) : outcome unit := if (cb =? 5)%nat then Ret tt else Throw logic_error.

Lemma change_notified_witness :
  let x := mkVar int32 (B "n") [] (VNum 1) [(1, 5%nat); (2, 6%nat); (3, 5%nat)] in
  let s := mkConfig {[ 0%nat := x ]} ∅ 1 (λ _, 3) ∅ [] in
  from_string (Y := Tree.yaml) Decimal.num_of (λ _ l, l) int32 (B "2") = Ret (VNum 2) ∧
  setValue picky 0 (VNum 2) s = (Throw logic_error, set_calls (λ _, [(5%nat, VNum 1, VNum 2); (6%nat, VNum 1, VNum 2)]) s).
Proof.
  intros x s. split; [reflexivity|].
  destruct (change_notified (Y := Tree.yaml) Decimal.num_of (λ _ l, l) picky s 0 x (VNum 2) (B "2") eq_refl eq_refl) as (_ & _ & H).
  refine (proj1 (H [(1, 5%nat)] (2, 6%nat) [(3, 5%nat)] logic_error eq_refl eq_refl _ eq_refl)).
  intros j Hj. apply list_elem_of_singleton in Hj as ->. reflexivity.
Defined.
