(* ===== verification/Log.v ===== *)
(** * Logging ([log.h], [log.cpp])

    Levels, events, and the formatter with its pattern parser.  Formatters
    never change once made, so that they are values.  [strftime] on the local
    time is a parameter.  The notices the code
    prints on the console when something fails are left out. *)
From S2P Require Import Prelude StdString OrderedSet OrderedMap.
From stdpp Require Import gmap.

Local Open Scope Z_scope.

(* sylar/log.h:98-117, LogLevel::Level *)
Inductive Level := FATAL | ALERT | CRIT | ERROR | WARN | NOTICE | INFO | DEBUG | NOTSET.

#[export] Instance Level_eq_dec : EqDecision Level.
Proof. solve_decision. Defined.

(* sylar/log.h:98-117, LogLevel::Level *)
Definition level_value (l : Level) : Z :=
  match l with
  | FATAL => 0 | ALERT => 100 | CRIT => 200 | ERROR => 300 | WARN => 400
  | NOTICE => 500 | INFO => 600 | DEBUG => 700 | NOTSET => 800
  end.

(* sylar/log.cpp:15-31, LogLevel::ToString *)
Definition ToString (level : Level) : bytes :=
  match level with
  | FATAL => B "FATAL" | ALERT => B "ALERT" | CRIT => B "CRIT" | ERROR => B "ERROR" | WARN => B "WARN"
  | NOTICE => B "NOTICE" | INFO => B "INFO" | DEBUG => B "DEBUG" | NOTSET => B "NOTSET"
  end.

Definition level_names : list (Level * bytes) :=
  [(FATAL, B "fatal"); (ALERT, B "alert"); (CRIT, B "crit"); (ERROR, B "error");
   (WARN, B "warn"); (NOTICE, B "notice"); (INFO, B "info"); (DEBUG, B "debug");
   (FATAL, B "FATAL"); (ALERT, B "ALERT"); (CRIT, B "CRIT"); (ERROR, B "ERROR");
   (WARN, B "WARN"); (NOTICE, B "NOTICE"); (INFO, B "INFO"); (DEBUG, B "DEBUG")].

(* sylar/log.cpp:33-55, LogLevel::FromString *)
Definition FromString (str : bytes) : Level :=
  match list_find (λ x, str = x.2) level_names with
  | Some (_, x) => x.1
  | None => NOTSET
  end.

(* sylar/log.h:224-242, LogEvent *)
Record LogEvent := mkEvent {
  m_level : Level;
  m_ss : bytes;
  m_file : bytes;
  m_line : Z;
  m_elapse : Z;
  m_threadId : Z;
  m_fiberId : Z;
  m_time : Z;
  m_threadName : bytes;
  m_loggerName : bytes
}.

(** [text]: what [vasprintf] makes, if it does not fail. *)
(* sylar/log.cpp:78-85, LogEvent::vprintf *)
Definition vprintf (text : option bytes) (e : LogEvent) : LogEvent :=
  match text with
  | Some t => mkEvent (m_level e) (m_ss e ++ t) (m_file e) (m_line e) (m_elapse e) (m_threadId e) (m_fiberId e)
                      (m_time e) (m_threadName e) (m_loggerName e)
  | None => e
  end.

(** ** Format items *)

(** The subclasses of [LogFormatter::FormatItem] with what they keep. *)
Inductive FormatItem :=
  | MessageFormatItem | LevelFormatItem | ElapseFormatItem | LoggerNameFormatItem | ThreadIdFormatItem
  | FiberIdFormatItem | ThreadNameFormatItem | DateTimeFormatItem (m_format : bytes) | FileNameFormatItem
  | LineFormatItem | NewLineFormatItem | StringFormatItem (m_string : bytes) | TabFormatItem | PercentSignFormatItem.

(* sylar/log.cpp:145-150, DateTimeFormatItem::DateTimeFormatItem *)
Definition new_DateTimeFormatItem (format : bytes) : FormatItem :=
  DateTimeFormatItem (match format with [] => B "%Y-%m-%d %H:%M:%S" | _ => format end).

Section format.
Context (strftime : bytes → Z → bytes).

(** The text must fit into [buf] with its terminator; otherwise [strftime]
    leaves the buffer unspecified and it is printed all the same. *)
(* sylar/log.cpp:152-159, DateTimeFormatItem::format *)
Definition format_time (m_format : bytes) (time : Z) : outcome bytes :=
  let text := strftime (c_str m_format) time in
  if (length text <? 64)%nat then Ret (c_str text) else Crash out_of_bounds.

(** What [format] writes for one item. *)
(* sylar/log.cpp:87-213, FormatItem::format *)
Definition item_format (i : FormatItem) (event : LogEvent) : outcome bytes :=
  match i with
  | MessageFormatItem => Ret (m_ss event)
  | LevelFormatItem => Ret (ToString (m_level event))
  | ElapseFormatItem => Ret (to_string (m_elapse event))
  | LoggerNameFormatItem => Ret (m_loggerName event)
  | ThreadIdFormatItem => Ret (to_string (m_threadId event))
  | FiberIdFormatItem => Ret (to_string (m_fiberId event))
  | ThreadNameFormatItem => Ret (m_threadName event)
  | DateTimeFormatItem f => format_time f (m_time event)
  | FileNameFormatItem => Ret (c_str (m_file event))
  | LineFormatItem => Ret (to_string (m_line event))
  | NewLineFormatItem => Ret [char_of 10]
  | StringFormatItem s => Ret s
  | TabFormatItem => Ret [char_of 9]
  | PercentSignFormatItem => Ret (B "%")
  end.

(** ** The formatter *)

(* sylar/log.h:327-331, LogFormatter *)
Record LogFormatter := mkFormatter { m_pattern : bytes; m_items : list FormatItem; m_error : bool }.

(* sylar/log.cpp:375-380, LogFormatter::format *)
Fixpoint format_items (items : list FormatItem) (event : LogEvent) : outcome bytes :=
  match items with
  | [] => Ret []
  | i :: r => a ← item_format i event; b ← format_items r event; Ret (a ++ b)
  end.
Definition format (f : LogFormatter) (event : LogEvent) : outcome bytes := format_items (m_items f) event.
End format.

(** A piece of the pattern: 0 and literal text, or 1 and a letter. *)
Definition pieces := list (Z * bytes).

(** The text in braces after [%d], and what is left of the pattern from the
    closing brace on. *)
(* sylar/log.cpp:290-293, LogFormatter::init *)
Fixpoint date_loop (rest dateformat : bytes) : bytes * bytes :=
  match rest with
  | [] => (dateformat, [])
  | c :: r => if bool_decide (c = "}"%char) then (dateformat, rest) else date_loop r (dateformat ++ [c])
  end.

(** [rest] is the pattern from [i] on.  [None] is the error of a brace that is
    not closed.  When [%d] ends the pattern, the second [i++] leaves [i] one
    past the size and [m_pattern[i]] reads there. *)
(* sylar/log.cpp:251-304, LogFormatter::init *)
Fixpoint init_loop (fuel : nat) (rest : bytes) (parsing_string : bool) (tmp dateformat : bytes) (patterns : pieces) :
    outcome (option (pieces * bytes * bytes)) :=
  match fuel with
  | O => Crash no_fuel
  | S fuel =>
      match rest with
      | [] => Ret (Some (patterns, tmp, dateformat))
      | c :: rest =>
          if bool_decide (c = "%"%char) then
            if parsing_string then
              init_loop fuel rest false [] dateformat (match tmp with [] => patterns | _ => patterns ++ [(0, tmp)] end)
            else init_loop fuel rest true tmp dateformat (patterns ++ [(1, [c])])
          else if parsing_string then init_loop fuel rest true (tmp ++ [c]) dateformat patterns
          else
            let patterns := patterns ++ [(1, [c])] in
            if negb (bool_decide (c = "d"%char)) then init_loop fuel rest true tmp dateformat patterns
            else
              match rest with
              | [] => Crash out_of_bounds
              | c2 :: rest2 =>
                  if negb (bool_decide (c2 = "{"%char)) then init_loop fuel rest true tmp dateformat patterns
                  else
                    let '(dateformat, rest) := date_loop rest2 dateformat in
                    match rest with
                    | [] => Ret None
                    | _ :: rest => init_loop fuel rest true tmp dateformat patterns
                    end
              end
      end
  end.

(* sylar/log.cpp:324-341, LogFormatter::init *)
Definition s_format_items (str : bytes) : option FormatItem :=
  snd <$> (snd <$> list_find (λ x, str = x.1)
    [(B "m", MessageFormatItem); (B "p", LevelFormatItem); (B "c", LoggerNameFormatItem); (B "r", ElapseFormatItem);
     (B "f", FileNameFormatItem); (B "l", LineFormatItem); (B "t", ThreadIdFormatItem); (B "F", FiberIdFormatItem);
     (B "N", ThreadNameFormatItem); (B "%", PercentSignFormatItem); (B "T", TabFormatItem); (B "n", NewLineFormatItem)]).

(** The items up to the first letter that is not known, and whether there
    was one. *)
(* sylar/log.cpp:343-359, LogFormatter::init *)
Fixpoint build_items (patterns : pieces) (dateformat : bytes) : list FormatItem * bool :=
  match patterns with
  | [] => ([], false)
  | v :: r =>
      let push i := let '(l, e) := build_items r dateformat in (i :: l, e) in
      if v.1 =? 0 then push (StringFormatItem v.2)
      else if bool_decide (v.2 = B "d") then push (new_DateTimeFormatItem dateformat)
      else match s_format_items v.2 with None => ([], true) | Some i => push i end
  end.

(* sylar/log.cpp:233-365, LogFormatter::init *)
Definition init (m_pattern : bytes) : outcome (list FormatItem * bool) :=
  r ← init_loop (S (length m_pattern)) m_pattern true [] [] [];
  match r with
  | None => Ret ([], true)
  | Some (patterns, tmp, dateformat) =>
      Ret (build_items (match tmp with [] => patterns | _ => patterns ++ [(0, tmp)] end) dateformat)
  end.

(* sylar/log.cpp:215-218, LogFormatter::LogFormatter *)
Definition new_LogFormatter (pattern : bytes) : outcome LogFormatter :=
  r ← init pattern; Ret (mkFormatter pattern r.1 r.2).

(* sylar/log.h:274-274, LogFormatter::LogFormatter *)
Definition default_pattern : bytes :=
  B "%d{%Y-%m-%d %H:%M:%S} [%rms]%T%t%T%N%T%F%T[%p]%T[%c]%T%f:%l%T%m%n".

Example default_items :
  new_LogFormatter default_pattern = Ret (mkFormatter default_pattern
    [DateTimeFormatItem (B "%Y-%m-%d %H:%M:%S"); StringFormatItem (B " ["); ElapseFormatItem; StringFormatItem (B "ms]");
     TabFormatItem; ThreadIdFormatItem; TabFormatItem; ThreadNameFormatItem; TabFormatItem; FiberIdFormatItem; TabFormatItem;
     StringFormatItem (B "["); LevelFormatItem; StringFormatItem (B "]"); TabFormatItem; StringFormatItem (B "[");
     LoggerNameFormatItem; StringFormatItem (B "]"); TabFormatItem; FileNameFormatItem; StringFormatItem (B ":");
     LineFormatItem; TabFormatItem; MessageFormatItem; NewLineFormatItem] false).
Proof. reflexivity. Qed.
