(* ===== verification/LogPattern.v ===== *)
(** * The pattern of a formatter

    Every pattern is a sequence of elements - literal text, a letter after
    [%], a date with or without a format of its own - and a tail that is
    cut short in one of three ways; [init] does what the elements mean. *)
From S2P Require Import Prelude StdString Log.

Local Open Scope Z_scope.

(** [Date None]: no braces follow. *)
Inductive elem := Lit (c : ascii) | Item (c : ascii) | Date (f : option bytes).

(** What ends a pattern: nothing, [%], [%d], or braces that stay open. *)
Inductive tail := Complete | OpenItem | OpenDate | OpenBrace (f : bytes).

Definition print_elem (e : elem) : bytes :=
  match e with
  | Lit c => [c]
  | Item c => "%"%char :: [c]
  | Date None => B "%d"
  | Date (Some f) => B "%d{" ++ f ++ B "}"
  end.
Definition print_tail (t : tail) : bytes :=
  match t with Complete => [] | OpenItem => B "%" | OpenDate => B "%d" | OpenBrace f => B "%d{" ++ f end.
Definition print (es : list elem) (t : tail) : bytes := mjoin (print_elem <$> es) ++ print_tail t.

(** A literal is not a percent sign, a plain letter is not [d], a format has
    no closing brace; a date without a format has something after it that
    is no opening brace. *)
Fixpoint wf (es : list elem) (t : tail) : Prop :=
  match es with
  | [] => match t with OpenBrace f => "}"%char ∉ f | _ => True end
  | e :: es =>
      match e with
      | Lit c => c ≠ "%"%char
      | Item c => c ≠ "d"%char
      | Date (Some f) => "}"%char ∉ f
      | Date None => ∃ c r, print es t = c :: r ∧ c ≠ "{"%char
      end ∧ wf es t
  end.

(** The pieces the elements stand for, after the literal text [tmp]. *)
Definition flush (tmp : bytes) : pieces := match tmp with [] => [] | _ => [(0, tmp)] end.
Fixpoint pieces_of (tmp : bytes) (es : list elem) (t : tail) : pieces :=
  match es with
  | [] => flush tmp
  | Lit c :: es => pieces_of (tmp ++ [c]) es t
  | Item c :: es => flush tmp ++ (1, [c]) :: pieces_of [] es t
  | Date _ :: es => flush tmp ++ (1, B "d") :: pieces_of [] es t
  end.
Definition date_format (es : list elem) : bytes :=
  mjoin ((λ e, match e with Date (Some f) => f | _ => [] end) <$> es).

(** What a pattern means. *)
Definition meaning (es : list elem) (t : tail) : outcome (list FormatItem * bool) :=
  match t with
  | OpenDate => Crash out_of_bounds
  | OpenBrace _ => Ret ([], true)
  | _ => Ret (build_items (pieces_of [] es t) (date_format es))
  end.

Lemma date_loop_closed f r d : "}"%char ∉ f → date_loop (f ++ "}"%char :: r) d = (d ++ f, "}"%char :: r).
Proof.
  revert d. induction f as [|c f IH]; intros d H; cbn [app date_loop].
  { by rewrite app_nil_r. }
  apply not_elem_of_cons in H as [Hc H]. rewrite bool_decide_eq_false_2 by done. rewrite IH by done.
  by rewrite <- (assoc_L (++)).
Qed.

Lemma date_loop_open f d : "}"%char ∉ f → date_loop f d = (d ++ f, []).
Proof.
  revert d. induction f as [|c f IH]; intros d H; cbn [date_loop]; [by rewrite app_nil_r|].
  apply not_elem_of_cons in H as [Hc H]. rewrite bool_decide_eq_false_2 by done. rewrite IH by done.
  by rewrite <- (assoc_L (++)).
Qed.

Definition flushed (patterns : pieces) (tmp : bytes) : pieces :=
  match tmp with [] => patterns | _ => patterns ++ [(0, tmp)] end.
Lemma flushed_flush patterns tmp : flushed patterns tmp = patterns ++ flush tmp.
Proof. destruct tmp; cbn; [by rewrite app_nil_r|done]. Qed.

(** What the loop makes of elements, from any state in literal text. *)
Definition loop_result (r : outcome (option (pieces * bytes * bytes))) (es : list elem) (t : tail)
    (tmp d : bytes) (patterns : pieces) : Prop :=
  match t with
  | OpenDate => r = Crash out_of_bounds
  | OpenBrace _ => r = Ret None
  | _ => ∃ ps tmp', r = Ret (Some (ps, tmp', d ++ date_format es)) ∧ flushed ps tmp' = patterns ++ pieces_of tmp es t
  end.

Lemma init_loop_nil fuel p tmp d ps : init_loop (S fuel) [] p tmp d ps = Ret (Some (ps, tmp, d)).
Proof. done. Qed.
Lemma init_loop_percent fuel r tmp d ps : init_loop (S fuel) ("%"%char :: r) true tmp d ps = init_loop fuel r false [] d (flushed ps tmp).
Proof. done. Qed.
Lemma init_loop_lit fuel c r tmp d ps : c ≠ "%"%char →
  init_loop (S fuel) (c :: r) true tmp d ps = init_loop fuel r true (tmp ++ [c]) d ps.
Proof. intros H. cbn [init_loop]. by rewrite bool_decide_eq_false_2. Qed.
Lemma init_loop_item fuel c r d ps : c ≠ "d"%char →
  init_loop (S fuel) (c :: r) false [] d ps = init_loop fuel r true [] d (ps ++ [(1, [c])]).
Proof.
  intros H. cbn [init_loop]. rewrite (bool_decide_eq_false_2 (c = "d"%char)) by done. by case_bool_decide.
Qed.

Lemma print_cons e es t : print (e :: es) t = print_elem e ++ print es t.
Proof. unfold print. cbn [fmap list_fmap mjoin list_join]. by rewrite <- (assoc_L (++)). Qed.

Lemma init_loop_date fuel r d ps :
  init_loop (S fuel) ("d"%char :: "{"%char :: r) false [] d ps =
    let '(d, r) := date_loop r d in
    match r with [] => Ret None | _ :: r => init_loop fuel r true [] d (ps ++ [(1, B "d")]) end.
Proof. done. Qed.
Lemma init_loop_bare fuel c r d ps : c ≠ "{"%char →
  init_loop (S fuel) ("d"%char :: c :: r) false [] d ps = init_loop fuel (c :: r) true [] d (ps ++ [(1, B "d")]).
Proof. intros H. cbn [init_loop]. by rewrite (bool_decide_eq_false_2 (c = "{"%char)). Qed.

(** A letter that is not known ends the items with the error. *)
Lemma build_items_unknown ps d c : (1, [c]) ∈ ps → c ≠ "d"%char → s_format_items [c] = None →
  ∃ l, build_items ps d = (l, true).
Proof.
  intros Hin Hd Hn. induction ps as [|v ps IH]; [by apply elem_of_nil in Hin|]. cbn [build_items].
  assert (∀ i, ((1, [c]) ∈ ps → ∃ l, (let '(l, e) := build_items ps d in (i :: l, e)) = (l, true))) as Hpush.
  { intros i H. destruct (IH H) as [l ->]. by eexists. }
  apply elem_of_cons in Hin as [<-|Hin].
  - cbn [fst snd]. rewrite Hn, bool_decide_eq_false_2 by (by intros [= ->]). by eexists.
  - destruct (v.1 =? 0); [by apply Hpush|]. case_bool_decide; [by apply Hpush|].
    destruct (s_format_items v.2); [by apply Hpush|by eexists].
Qed.

Lemma pieces_of_item tmp es t c : Item c ∈ es → (1, [c]) ∈ pieces_of tmp es t.
Proof.
  revert tmp. induction es as [|e es IH]; intros tmp H; [by apply elem_of_nil in H|].
  apply elem_of_cons in H as [<-|H]; [cbn [pieces_of]; set_solver|].
  destruct e; cbn [pieces_of]; [by apply IH|..]; apply elem_of_app; right; right; by apply IH.
Qed.

Lemma wf_item es t c : wf es t → Item c ∈ es → c ≠ "d"%char.
Proof.
  induction es as [|e es IH]; [by intros _ ?%elem_of_nil|]. intros [He Hwf] [<-|H]%elem_of_cons; [done|by apply IH].
Qed.

Lemma init_loop_elems es t fuel tmp d ps : wf es t → (length (print es t) < fuel)%nat →
  loop_result (init_loop fuel (print es t) true tmp d ps) es t tmp d ps.
Proof.
  revert fuel tmp d ps. induction es as [|e es IH]; intros fuel tmp d ps Hwf Hf.
  - unfold print in *. cbn [fmap list_fmap mjoin list_join app print_tail] in *.
    destruct fuel as [|[|[|[|fuel]]]]; try (destruct t; cbn in Hf; lia).
    all: destruct t as [| | |f]; cbn [print_tail lit list_ascii_of_string app loop_result length] in *; try lia.
    all: try (by rewrite ?init_loop_percent, ?init_loop_nil; do 2 eexists; unfold date_format; cbn;
      rewrite app_nil_r, <- flushed_flush; split; [reflexivity|by destruct tmp]).
    all: try done. rewrite init_loop_percent.
    cbn. by rewrite date_loop_open.
  - destruct Hwf as [He Hwf].
    assert (∀ fuel tmp' ps', (length (print es t) < fuel)%nat →
      (∀ d', d' ++ date_format es = d ++ date_format (e :: es) →
       ps' ++ pieces_of tmp' es t = ps ++ pieces_of tmp (e :: es) t →
       loop_result (init_loop fuel (print es t) true tmp' d' ps') (e :: es) t tmp d ps)) as Hstep.
    { intros fuel' tmp' ps' Hf' d' Hd Hp. specialize (IH fuel' tmp' d' ps' Hwf Hf').
      destruct t; cbn [loop_result] in *; try done; by rewrite <- Hd, <- Hp. }
    rewrite print_cons in *. destruct e as [c|c|[f|]]; cbn [print_elem app] in *.
    + destruct fuel as [|fuel]; [lia|]. rewrite init_loop_lit by done. apply Hstep; [cbn in Hf; lia|done..].
    + destruct fuel as [|[|fuel]]; [cbn in Hf; lia..|]. rewrite init_loop_percent, init_loop_item by done.
      apply Hstep; [cbn in Hf; lia|done|]. rewrite flushed_flush. cbn. by rewrite <- !(assoc_L (++)).
    + cbn [lit list_ascii_of_string app] in *. destruct fuel as [|[|fuel]]; [cbn in Hf; lia..|].
      rewrite init_loop_percent, init_loop_date, <- (assoc_L (++)). cbn [app]. rewrite date_loop_closed by done.
      apply Hstep.
      * cbn in Hf. rewrite !length_app in Hf. lia.
      * unfold date_format. cbn. by rewrite <- (assoc_L (++)).
      * rewrite flushed_flush. cbn. by rewrite <- !(assoc_L (++)).
    + cbn [lit list_ascii_of_string app] in *. destruct fuel as [|[|fuel]]; [cbn in Hf; lia..|].
      destruct He as (c & r & Er & Hc). rewrite init_loop_percent, Er, init_loop_bare by done. rewrite <- Er.
      apply Hstep; [cbn in Hf; lia|done|]. rewrite flushed_flush. cbn. by rewrite <- !(assoc_L (++)).
Qed.

Lemma init_print es t : wf es t → init (print es t) = meaning es t.
Proof.
  intros H. unfold init. pose proof (init_loop_elems es t (S (length (print es t))) [] [] [] H ltac:(lia)) as Hr.
  unfold loop_result in Hr. destruct t; cbn [meaning].
  1,2: destruct Hr as (ps & tmp' & Hi & E); cbn [app] in *;
    unfold mbind, outcome_bind; rewrite Hi, <- E; by destruct tmp'.
  all: by rewrite Hr.
Qed.

(** Cutting a pattern into elements. *)
Lemma pattern_elems p : ∃ es t, wf es t ∧ p = print es t.
Proof.
  remember (length p) as n eqn:Hn. revert p Hn. induction n as [n IH] using lt_wf_ind. intros p ->.
  assert (∀ q, (length q < length p)%nat → ∃ es t, wf es t ∧ q = print es t) as Hq by (intros; by eapply IH).
  clear IH. destruct p as [|c p]; [by exists [], Complete|]. destruct (decide (c = "%"%char)) as [->|Hc].
  2:{ destruct (Hq p) as (es & t & Hwf & ->); [cbn; lia|]. exists (Lit c :: es), t. rewrite print_cons. done. }
  destruct p as [|c p]; [by exists [], OpenItem|]. destruct (decide (c = "d"%char)) as [->|Hc].
  2:{ destruct (Hq p) as (es & t & Hwf & ->); [cbn; lia|]. exists (Item c :: es), t. rewrite print_cons. done. }
  destruct p as [|c p]; [by exists [], OpenDate|]. destruct (decide (c = "{"%char)) as [->|Hc].
  2:{ destruct (Hq (c :: p)) as (es & t & Hwf & E); [cbn; lia|]. exists (Date None :: es), t. rewrite print_cons, <- E.
      split; [|done]. split; [by exists c, p|done]. }
  destruct (decide ("}"%char ∈ p)) as [(f & r & -> & Hf)%list_elem_of_split_l|Hf].
  - destruct (Hq r) as (es & t & Hwf & ->); [cbn; rewrite length_app; cbn; lia|].
    exists (Date (Some f) :: es), t. rewrite print_cons. split; [done|]. cbn. by rewrite <- (assoc_L (++)).
  - by exists [], (OpenBrace p).
Qed.

(** C25: every pattern is read as the sequence of elements it is printed
    from, and there always is one: literal text is kept, [%] and a letter is
    the item of the letter, [%d] a date.  All dates of a formatter get the same format,
    the texts of all braces one after the other, or the default when they are
    empty; a letter that is not known is an error that keeps the items before
    it, a brace that is not closed an error that keeps none, a [%] at
    the end is dropped, and a pattern that ends in [%d] is read outside its
    bounds.  The loop always ends. *)
Theorem pattern_meaning :
  (∀ es t, wf es t → init (print es t) = meaning es t) ∧
  (∀ p, ∃ es t, wf es t ∧ p = print es t ∧ init p = meaning es t ∧
     (init p = Crash out_of_bounds ↔ t = OpenDate)) ∧
  (∀ es t c, wf es t → (t = Complete ∨ t = OpenItem) → Item c ∈ es → s_format_items [c] = None →
     ∃ items, init (print es t) = Ret (items, true)).
Proof.
  split; [exact init_print|]. split.
  - intros p. destruct (pattern_elems p) as (es & t & Hwf & ->). exists es, t. rewrite (init_print es t Hwf).
    split_and!; try done. by destruct t.
  - intros es t c Hwf Ht Hc Hn. rewrite (init_print es t Hwf). unfold meaning.
    destruct (build_items_unknown (pieces_of [] es t) (date_format es) c) as [l E]; [by apply pieces_of_item|by eapply wf_item|done|].
    exists l. destruct Ht as [-> | ->]; by rewrite E.
Qed.

(** Two dates: both get both formats. *)
Definition two_dates : list elem := [Date (Some (B "%H")); Lit " "%char; Date (Some (B ":%M")); Item "q"%char; Lit "x"%char].

Lemma pattern_meaning_witness : (wf two_dates OpenItem ∧ print two_dates OpenItem = B "%d{%H} %d{:%M}%qx%") ∧
  init (B "%d{%H} %d{:%M}%qx%")
    = Ret ([DateTimeFormatItem (B "%H:%M"); StringFormatItem (B " "); DateTimeFormatItem (B "%H:%M")], true).
Proof.
  assert (wf two_dates OpenItem) as H by (cbn; repeat split; try done; set_solver).
  split; [split; [exact H|reflexivity]|].
  exact (proj1 pattern_meaning two_dates OpenItem H).
Defined.

(** A date in the middle needs no braces, at the end it does. *)
Example bare_date : init (B "%d x") = Ret ([DateTimeFormatItem (B "%Y-%m-%d %H:%M:%S"); StringFormatItem (B " x")], false)
  ∧ init (B "x %d") = Crash out_of_bounds.
Proof. by split. Qed.
