(* ===== verification/Logger.v ===== *)
(** * Appenders, loggers and their manager ([log.h], [log.cpp])

    Appenders and loggers are shared: the state has a heap of each, and the
    manager finds the logger of a name.  The text the console got and, for
    each file, the text its streams accepted, in order, are part of the
    state.  When a stream passes on what it accepted from its buffer to the
    file, and whether that succeeds later, is the library's and not modelled:
    [accepted] is what was handed over, not what the file contains.  Whether
    a file can be opened, whether a stream takes the text of an event, and
    whether the process is a daemon, is in [env]. *)
From S2P Require Import Prelude StdString OrderedSet OrderedMap Log.
From stdpp Require Import gmap.

Local Open Scope Z_scope.

Record env := mkEnv { openable : bytes → bool; accepts : bool; daemon : bool; elapsed : Z }.

(** [std::ofstream]: [close] of a stream that is not open fails, and so does
    [open] of one that is. *)
Record ofstream := mkStream { is_open : bool; failbit : bool }.
Definition stream_close (f : ofstream) : ofstream := if is_open f then mkStream false (failbit f) else mkStream false true.
Definition stream_open (ok : bool) (f : ofstream) : ofstream :=
  if is_open f then mkStream true true else if ok then mkStream true false else mkStream false true.

(** [FileLogAppender]: [m_filename], [m_filestream], [m_lastTime],
    [m_reopenError]. *)
(* sylar/log.h:436-443, FileLogAppender *)
Inductive sink :=
  | StdoutLogAppender
  | FileLogAppender (m_filename : bytes) (m_filestream : ofstream) (m_lastTime : Z) (m_reopenError : bool).

(* sylar/log.h:374-380, LogAppender *)
Record LogAppender := mkAppender { m_sink : sink; m_formatter : option LogFormatter; m_defaultFormatter : LogFormatter }.

(* sylar/log.h:508-516, Logger *)
Record Logger := mkLogger { m_name : bytes; m_level : Level; m_appenders : list nat; m_createTime : Z }.

(* sylar/log.h:582-587, LoggerManager *)
Record logging := mkLogging {
  appenders : gmap nat LogAppender;
  loggers : gmap nat Logger;
  next : nat;
  m_loggers : list (bytes * nat);
  m_root : nat;
  console : bytes;
  accepted : gmap bytes bytes
}.

Definition set_appenders f s := mkLogging (f (appenders s)) (loggers s) (next s) (m_loggers s) (m_root s) (console s) (accepted s).
Definition set_loggers f s := mkLogging (appenders s) (f (loggers s)) (next s) (m_loggers s) (m_root s) (console s) (accepted s).
Definition set_output c d s := mkLogging (appenders s) (loggers s) (next s) (m_loggers s) (m_root s) c d.

Definition appender_at (p : nat) : stE logging LogAppender :=
  query (λ s, match appenders s !! p with Some a => Ret a | None => Crash dangling end).
Definition put_appender (p : nat) (a : LogAppender) : stE logging unit := modify (set_appenders <[p := a]>).
Definition logger_at (p : nat) : stE logging Logger :=
  query (λ s, match loggers s !! p with Some l => Ret l | None => Crash dangling end).
Definition put_logger (p : nat) (l : Logger) : stE logging unit := modify (set_loggers <[p := l]>).
Definition new_appender (a : LogAppender) : stE logging nat :=
  λ s, (Ret (next s), mkLogging (<[next s := a]> (appenders s)) (loggers s) (S (next s)) (m_loggers s) (m_root s) (console s) (accepted s)).

(** ** Appenders *)

(* sylar/log.cpp:386-389, LogAppender::setFormatter *)
Definition setFormatter (p : nat) (val : LogFormatter) : stE logging unit :=
  a ← appender_at p; put_appender p (mkAppender (m_sink a) (Some val) (m_defaultFormatter a)).

(* sylar/log.cpp:391-394, LogAppender::getFormatter *)
Definition getFormatter (a : LogAppender) : LogFormatter :=
  match m_formatter a with Some f => f | None => m_defaultFormatter a end.

(** The stream and [m_reopenError] afterwards. *)
(* sylar/log.cpp:455-463, FileLogAppender::reopen *)
Definition reopen (e : env) (m_filename : bytes) (f : ofstream) : ofstream * bool :=
  let f := if negb (failbit f) then stream_close f else f in
  let f := stream_open (openable e m_filename) f in
  (f, failbit f).

(* sylar/log.cpp:396-398, StdoutLogAppender::StdoutLogAppender *)
Definition new_StdoutLogAppender : stE logging nat :=
  f ← query (λ _, new_LogFormatter default_pattern);
  new_appender (mkAppender StdoutLogAppender None f).

(* sylar/log.cpp:418-425, FileLogAppender::FileLogAppender *)
Definition new_FileLogAppender (e : env) (file : bytes) : stE logging nat :=
  f ← query (λ _, new_LogFormatter default_pattern);
  let '(stream, err) := reopen e file (mkStream false false) in
  new_appender (mkAppender (FileLogAppender file stream 0 err) None f).

Section log.
Context (strftime : bytes → Z → bytes) (e : env).

Definition accepted_for (file : bytes) (s : logging) : bytes := default [] (accepted s !! file).

(* sylar/log.cpp:400-406, StdoutLogAppender::log *)
Definition log_stdout (p : nat) (event : LogEvent) : stE logging unit :=
  a ← appender_at p;
  text ← query (λ _, format strftime (getFormatter a) event);
  modify (λ s, set_output (console s ++ text) (accepted s) s).

(** A stream that does not take the whole text of an event has failed; that
    text does not count as accepted. *)
(* sylar/log.cpp:430-453, FileLogAppender::log *)
Definition log_file (p : nat) (event : LogEvent) : stE logging unit :=
  a ← appender_at p;
  match m_sink a with
  | StdoutLogAppender => mret tt
  | FileLogAppender file f last err =>
      let now := u64 (m_time event) in
      let '(f, last, err) := if u64 (last + 3) <=? now then let '(f, err) := reopen e file f in (f, now, err)
                             else (f, last, err) in
      let a f := mkAppender (FileLogAppender file f last err) (m_formatter a) (m_defaultFormatter a) in
      _ ← put_appender p (a f);
      if err then mret tt
      else
        text ← query (λ _, format strftime (getFormatter (a f)) event);
        if failbit f then mret tt
        else if accepts e then modify (λ s, set_output (console s) (<[file := accepted_for file s ++ text]> (accepted s)) s)
        else put_appender p (a (mkStream (is_open f) true))
  end.

(** The virtual call. *)
Definition log_appender (p : nat) (event : LogEvent) : stE logging unit :=
  a ← appender_at p;
  match m_sink a with StdoutLogAppender => log_stdout p event | _ => log_file p event end.

Fixpoint log_appenders (l : list nat) (event : LogEvent) : stE logging unit :=
  match l with [] => mret tt | p :: l => _ ← log_appender p event; log_appenders l event end.

(** ** Loggers *)

(* sylar/log.cpp:506-512, Logger::log *)
Definition log (p : nat) (event : LogEvent) : stE logging unit :=
  l ← logger_at p;
  if level_value (Log.m_level event) <=? level_value (m_level l) then log_appenders (m_appenders l) event else mret tt.

(** [ev]: the event with what was streamed into it, as the destructor of the
    wrapper finds it. *)
(* sylar/log.h:39-43, SYLAR_LOG_LEVEL *)
Definition SYLAR_LOG_LEVEL (p : nat) (level : Level) (ev : Logger → LogEvent) : stE logging unit :=
  l ← logger_at p;
  if level_value level <=? level_value (m_level l) then log p (ev l) else mret tt.

Definition set_level lv l := mkLogger (m_name l) lv (m_appenders l) (m_createTime l).
Definition set_list x l := mkLogger (m_name l) (m_level l) x (m_createTime l).

(* sylar/log.h:474-474, Logger::setLevel *)
Definition setLevel (p : nat) (level : Level) : stE logging unit := l ← logger_at p; put_logger p (set_level level l).

(* sylar/log.cpp:482-485, Logger::addAppender *)
Definition addAppender (p ap : nat) : stE logging unit := l ← logger_at p; put_logger p (set_list (m_appenders l ++ [ap]) l).

Fixpoint erase_first (ap : nat) (l : list nat) : list nat :=
  match l with [] => [] | q :: l => if bool_decide (q = ap) then l else q :: erase_first ap l end.

(* sylar/log.cpp:487-495, Logger::delAppender *)
Definition delAppender (p ap : nat) : stE logging unit := l ← logger_at p; put_logger p (set_list (erase_first ap (m_appenders l)) l).

(* sylar/log.cpp:497-500, Logger::clearAppenders *)
Definition clearAppenders (p : nat) : stE logging unit := l ← logger_at p; put_logger p (set_list [] l).

(** ** The manager *)

(* sylar/log.cpp:476-480, Logger::Logger *)
Definition new_Logger (name : bytes) : Logger := mkLogger name INFO [] (elapsed e).

(* sylar/log.cpp:550-560, LoggerManager::getLogger *)
Definition getLogger (name : bytes) : stE logging nat :=
  s ← get;
  match map_find bytes_lt name (m_loggers s) with
  | Some p => mret p
  | None => λ s,
      (Ret (next s), mkLogging (appenders s) (<[next s := new_Logger name]> (loggers s)) (S (next s))
                               (map_assign bytes_lt name (next s) (m_loggers s)) (m_root s) (console s) (accepted s))
  end.

(* sylar/log.cpp:539-544, LoggerManager::LoggerManager *)
Definition new_LoggerManager (d : gmap bytes bytes) : outcome unit * logging :=
  (ap ← new_StdoutLogAppender; addAppender 0 ap)
    (mkLogging ∅ {[ 0%nat := new_Logger (B "root") ]} 1 [(B "root", 0%nat)] 0 [] d).
End log.
