(* ===== verification/LoggerTheorems.v ===== *)
(** * What loggers write

    With files that can be opened and streams that take what they are given,
    an event goes to every appender of the logger, once, if its level allows;
    and what a file appender does when they do not. *)
From S2P Require Import Prelude StdString OrderedSet OrderedMap Log Logger.
From stdpp Require Import gmap.

Local Open Scope Z_scope.

(** Where an appender writes: the console or a file. *)
Definition target_of (a : LogAppender) : option bytes :=
  match m_sink a with StdoutLogAppender => None | FileLogAppender f _ _ _ => Some f end.

(** The stream of a file appender is open and no operation on it failed. *)
Definition healthy (a : LogAppender) : Prop :=
  match m_sink a with StdoutLogAppender => True | FileLogAppender _ f _ err => f = mkStream true false ∧ err = false end.

(** Only time and stream differ. *)
Definition like (a b : LogAppender) : Prop :=
  target_of a = target_of b ∧ m_formatter a = m_formatter b ∧ m_defaultFormatter a = m_defaultFormatter b.
#[export] Instance like_equiv : Equivalence like.
Proof. split; unfold like; [done|intros ??; naive_solver|intros ???; intuition congruence]. Qed.

Lemma like_formatter a b : like a b → getFormatter a = getFormatter b.
Proof. intros (_ & H1 & H2). unfold getFormatter. by rewrite H1, H2. Qed.

Section theorems.
Context (strftime : bytes → Z → bytes) (e : env).
Abbreviation render a event := (format strftime (getFormatter a) event).
Implicit Types (s : logging) (a : LogAppender) (event : LogEvent).

(** What one event puts on a target, through the appenders [l] in order. *)
Definition output (t : option bytes) (event : LogEvent) s (l : list nat) : bytes :=
  mjoin ((λ p, match appenders s !! p with
               | Some a => if decide (target_of a = t) then match render a event with Ret x => x | _ => [] end else []
               | None => []
               end) <$> l).

(** [s'] has the appenders of [s], up to their streams. *)
Definition same_appenders s s' : Prop := ∀ p,
  match appenders s !! p, appenders s' !! p with
  | Some a, Some a' => like a a' ∧ (healthy a → healthy a')
  | None, None => True
  | _, _ => False
  end.

Lemma same_appenders_eq s s' : appenders s' = appenders s → same_appenders s s'.
Proof. intros E p. rewrite E. by destruct (appenders s !! p). Qed.
Lemma same_appenders_trans s1 s2 s3 : same_appenders s1 s2 → same_appenders s2 s3 → same_appenders s1 s3.
Proof.
  intros H1 H2 p. specialize (H1 p). specialize (H2 p).
  destruct (appenders s1 !! p), (appenders s2 !! p), (appenders s3 !! p); try done.
  destruct H1 as [H1 H1'], H2 as [H2 H2']. split; [by etrans|auto].
Qed.

Lemma same_put s p a a' c d : appenders s !! p = Some a → like a a' → (healthy a → healthy a') →
  same_appenders s (set_output c d (set_appenders <[p := a']> s)).
Proof.
  intros Ha Hl Hh q. cbn. destruct (decide (p = q)) as [->|Hne].
  - by rewrite Ha, lookup_insert_eq.
  - rewrite lookup_insert_ne by done. by destruct (appenders s !! q).
Qed.

Lemma output_same t event s s' l : same_appenders s s' → output t event s' l = output t event s l.
Proof.
  intros H. unfold output. f_equal. apply list_fmap_ext. intros i p _. specialize (H p).
  destruct (appenders s !! p) as [a|], (appenders s' !! p) as [a'|]; try done.
  destruct H as [Hl _]. rewrite <- (like_formatter a a' Hl). destruct Hl as [-> _]. done.
Qed.

Lemma output_cons t event s p l : output t event s (p :: l) = output t event s [p] ++ output t event s l.
Proof. unfold output. cbn. by rewrite app_nil_r. Qed.

Lemma output_one t event s p a text : appenders s !! p = Some a → render a event = Ret text →
  output t event s [p] = if decide (target_of a = t) then text else [].
Proof. intros Ha Hr. unfold output. cbn. by rewrite Ha, Hr, app_nil_r. Qed.

(** [s'] is [s] with the output of an event. *)
Definition delivered event l s s' : Prop :=
  console s' = console s ++ output None event s l ∧ (∀ f, accepted_for f s' = accepted_for f s ++ output (Some f) event s l) ∧
  loggers s' = loggers s ∧ m_loggers s' = m_loggers s ∧ next s' = next s ∧ m_root s' = m_root s ∧ same_appenders s s'.

(** It can be: the appender is there, fit, and the event can be printed. *)
Definition fit event s p : Prop := ∃ a text, appenders s !! p = Some a ∧ healthy a ∧ render a event = Ret text.

Lemma fit_same event s s' p : same_appenders s s' → fit event s p → fit event s' p.
Proof.
  intros H (a & t & Ha & Hh & Hr). specialize (H p). rewrite Ha in H. destruct (appenders s' !! p) as [a'|] eqn:E; [|done].
  destruct H as [Hl H]. exists a', t. rewrite <- (like_formatter a a' Hl). auto.
Qed.

Lemma accepted_for_output f g t s c :
  accepted_for g (set_output c (<[f := accepted_for f s ++ t]> (accepted s)) s) = accepted_for g s ++ if decide (Some f = Some g) then t else [].
Proof.
  unfold accepted_for. cbn. destruct (decide (f = g)) as [->|Hne].
  - rewrite lookup_insert_eq, decide_True by done. done.
  - rewrite lookup_insert_ne, decide_False by congruence. by rewrite app_nil_r.
Qed.

Hypothesis Hopen : ∀ f, openable e f = true.
Hypothesis Haccept : accepts e = true.

Lemma log_appender_delivers event s p : fit event s p →
  ∃ s', log_appender strftime e p event s = (Ret tt, s') ∧ delivered event [p] s s'.
Proof.
  intros (a & text & Ha & Hh & Hr). unfold log_appender.
  assert (appender_at p s = (Ret a, s)) as Hat by (unfold appender_at, query; by rewrite Ha).
  rewrite (stE_bind_ret _ _ _ _ _ Hat). unfold delivered. setoid_rewrite (output_one _ event s p a text Ha Hr).
  unfold target_of, healthy in *. destruct (m_sink a) as [|f st last err] eqn:Es.
  - unfold log_stdout. rewrite (stE_bind_ret _ _ _ _ _ Hat). rewrite (stE_bind_ret _ _ s text s) by (unfold query; by rewrite Hr).
    eexists. split; [done|]. cbn. split_and!; try done. { intros f. unfold accepted_for. cbn. by rewrite app_nil_r. }
    by apply same_appenders_eq.
  - destruct Hh as [-> ->]. unfold log_file. rewrite (stE_bind_ret _ _ _ _ _ Hat). rewrite Es. unfold reopen. cbn [negb failbit stream_close is_open].
    rewrite Hopen. cbn [stream_open is_open failbit].
    destruct (u64 (last + 3) <=? u64 (m_time event));
      (unfold put_appender; rewrite modify_bind; rewrite (stE_bind_ret _ _ _ text _) by (unfold query; by rewrite <- Hr);
       cbn [failbit]; rewrite Haccept; eexists; split; [done|]; cbn [console set_output set_appenders loggers m_loggers next m_root];
       split_and!; [by rewrite app_nil_r|intros g; apply (accepted_for_output f g text (set_appenders _ s))|done..|];
       apply (same_put s p a); [done|unfold like, target_of; by rewrite Es|by intros _]).
Qed.

Lemma log_appenders_deliver event l s : (∀ p, p ∈ l → fit event s p) →
  ∃ s', log_appenders strftime e l event s = (Ret tt, s') ∧ delivered event l s s'.
Proof.
  revert s. induction l as [|p l IH]; intros s H; cbn [log_appenders].
  { exists s. split; [done|]. unfold delivered, output. cbn. split_and!; try done; [by rewrite app_nil_r|intros; by rewrite app_nil_r|].
    by apply same_appenders_eq. }
  destruct (log_appender_delivers event s p) as (s1 & E1 & C1 & F1 & L1 & M1 & N1 & R1 & S1); [apply H; by left|].
  destruct (IH s1) as (s2 & E2 & C2 & F2 & L2 & M2 & N2 & R2 & S2).
  { intros q Hq. apply (fit_same event s); [done|]. apply H. by right. }
  exists s2. rewrite (stE_bind_ret _ _ _ _ _ E1). split; [done|]. unfold delivered.
  setoid_rewrite (output_cons _ event s p l). setoid_rewrite (output_same _ event s s1 l S1) in C2.
  split_and!; try congruence.
  - by rewrite C2, C1, (assoc_L (++)).
  - intros f. by rewrite F2, F1, (output_same _ event s s1 l S1), (assoc_L (++)).
  - by eapply same_appenders_trans.
Qed.
End theorems.

(** C26: a logger gives an event to each of its appenders in order, exactly
    when its level allows the event, and otherwise nothing changes.  Provided
    every file can be opened, the streams take what they are given, and each
    appender of the logger is [fit] - it exists, its stream is open and has
    not failed, and its formatter prints the event -, the console gets, and
    the stream of every file is handed, after what it had, the event as the
    formatter of each appender for it prints it, in the order of the
    appenders, and nothing more; loggers, their registry and the appenders,
    up to the state of their streams, are as before, and fit ones stay fit.
    The macro makes the event under the same condition. *)
Theorem log_delivers (strftime : bytes → Z → bytes) (e : env) (Hopen : ∀ f, openable e f = true) (Haccept : accepts e = true)
    (s : logging) (p : nat) (l : Logger) (event : LogEvent) (Hl : loggers s !! p = Some l)
    (Hfit : ∀ q, q ∈ m_appenders l → fit strftime event s q) :
  (if level_value (Log.m_level event) <=? level_value (m_level l)
   then ∃ s', log strftime e p event s = (Ret tt, s') ∧
     delivered strftime event (m_appenders l) s s' ∧ (∀ q ev, fit strftime ev s q → fit strftime ev s' q)
   else log strftime e p event s = (Ret tt, s)) ∧
  SYLAR_LOG_LEVEL strftime e p (Log.m_level event) (λ _, event) s = log strftime e p event s.
Proof.
  assert (logger_at p s = (Ret l, s)) as Hat by (unfold logger_at, query; by rewrite Hl).
  assert (log strftime e p event s = if level_value (Log.m_level event) <=? level_value (m_level l)
    then log_appenders strftime e (m_appenders l) event s else (Ret tt, s)) as Hlog.
  { unfold log. rewrite (stE_bind_ret _ _ _ _ _ Hat). by destruct (_ <=? _). }
  split.
  - rewrite Hlog. destruct (_ <=? _); [|done].
    destruct (log_appenders_deliver strftime e Hopen Haccept event (m_appenders l) s Hfit) as (s' & E & HD).
    exists s'. split_and!; [done|done|]. intros q ev. by apply fit_same, HD.
  - unfold SYLAR_LOG_LEVEL. rewrite (stE_bind_ret _ _ _ _ _ Hat), Hlog. by destruct (_ <=? _).
Qed.

(** Two loggers' worth of appenders: the console with a pattern of its own
    and a file. *)
Definition plain : LogFormatter := mkFormatter (B "%p %m%n") [LevelFormatItem; StringFormatItem (B " "); MessageFormatItem; NewLineFormatItem] false.
Definition sample_logging : logging :=
  mkLogging {[ 1%nat := mkAppender StdoutLogAppender (Some plain) plain;
               2%nat := mkAppender (FileLogAppender (B "/f") (mkStream true false) 10 false) None plain ]}
    {[ 0%nat := mkLogger (B "root") WARN [1%nat; 2%nat; 1%nat] 0 ]} 3 [(B "root", 0%nat)] 0 [] ∅.
Definition sample_event (l : Level) : LogEvent := mkEvent l (B "hi") (B "a.cc") 7 0 1 2 12 (B "main") (B "root").

Lemma log_delivers_witness :
  (∀ q, q ∈ [1%nat; 2%nat; 1%nat] → fit (λ _ _, []) (sample_event ERROR) sample_logging q) ∧
  ∃ s', log (λ _ _, []) (mkEnv (λ _, true) true false 0) 0 (sample_event ERROR) sample_logging = (Ret tt, s') ∧
    accepted_for (B "/f") s' = B "ERROR hi" ++ [char_of 10].
Proof.
  assert (∀ q, q ∈ [1%nat; 2%nat; 1%nat] → fit (λ _ _, []) (sample_event ERROR) sample_logging q) as H.
  { intros q Hq. assert (q = 1%nat ∨ q = 2%nat) as [-> | ->] by set_solver; do 2 eexists; (split; [reflexivity|split; [by try split|reflexivity]]). }
  split; [exact H|].
  destruct (log_delivers (λ _ _, []) (mkEnv (λ _, true) true false 0) (λ _, eq_refl) eq_refl sample_logging 0
    (mkLogger (B "root") WARN [1%nat; 2%nat; 1%nat] 0) (sample_event ERROR) eq_refl H) as [(s' & E & (_ & F & _) & _) _].
  exists s'. split; [exact E|]. rewrite (F (B "/f")). reflexivity.
Defined.

(* ------------------------------------------------------------------ *)
(** ** Files that fail *)

(** A stream that failed while it was open. *)
Definition stuck (a : LogAppender) : Prop := ∃ f last err, m_sink a = FileLogAppender f (mkStream true true) last err.

Fixpoint log_history (strftime : bytes → Z → bytes) (p : nat) (l : list (env * LogEvent)) : stE logging unit :=
  match l with [] => mret tt | (e, ev) :: l => _ ← log_appender strftime e p ev; log_history strftime p l end.

Section failures.
Context (strftime : bytes → Z → bytes).

Lemma appender_at_ret p s a : appenders s !! p = Some a → appender_at p s = (Ret a, s).
Proof. intros H. unfold appender_at, query. by rewrite H. Qed.

Lemma stuck_log e p ev s a r s' : appenders s !! p = Some a → stuck a → log_appender strftime e p ev s = (r, s') →
  accepted s' = accepted s ∧ ∃ a', appenders s' !! p = Some a' ∧ stuck a'.
Proof.
  intros Ha (f & last & err & Es). unfold log_appender, log_file.
  rewrite (stE_bind_ret _ _ _ _ _ (appender_at_ret p s a Ha)), Es, (stE_bind_ret _ _ _ _ _ (appender_at_ret p s a Ha)), Es.
  unfold reopen. cbn [negb failbit stream_open is_open].
  destruct (u64 (last + 3) <=? u64 (m_time ev)); unfold put_appender; rewrite modify_bind; [|destruct err]; cbn [failbit is_open].
  1,2: intros [= <- <-]; cbn; split; [done|]; rewrite lookup_insert_eq; eexists; split; [done|]; by do 3 eexists.
  unfold mbind at 1, stE_bind at 1, query at 1. destruct (format strftime _ ev); intros [= <- <-]; cbn; (split; [done|]);
    rewrite lookup_insert_eq; (eexists; split; [done|]; by do 3 eexists).
Qed.

Lemma stuck_history p l s a r s' : appenders s !! p = Some a → stuck a → log_history strftime p l s = (r, s') → accepted s' = accepted s.
Proof.
  revert s a. induction l as [|[e ev] l IH]; intros s a Ha Hs; cbn [log_history]; [by intros [= _ <-]|].
  intros H. unfold mbind, stE_bind in H. destruct (log_appender strftime e p ev s) as [r1 s1] eqn:E1.
  destruct (stuck_log e p ev s a r1 s1 Ha Hs E1) as [Hd (a1 & Ha1 & Hs1)].
  destruct r1; [|by injection H as _ <-..]. rewrite <- Hd. by eapply IH.
Qed.

(** What one event does to a file appender that is not at the console. *)
Lemma log_file_appender e p ev s a f st last err : appenders s !! p = Some a → m_sink a = FileLogAppender f st last err →
  log_appender strftime e p ev s = log_file strftime e p ev s.
Proof. intros Ha Es. unfold log_appender. by rewrite (stE_bind_ret _ _ _ _ _ (appender_at_ret p s a Ha)), Es. Qed.
End failures.

(** What a file appender does when the system fails.  After a write that
    failed no text is ever accepted for the file again, whatever events come and
    however well the file system works, since the stream stays open and is
    never cleared.  When the file cannot be opened, events are dropped until
    one that is three seconds or more after the last attempt finds it can be; that one is
    written, and the appender is fit again. *)
Theorem file_appender_failures (strftime : bytes → Z → bytes) (e : env) (s : logging) (p : nat) (a : LogAppender)
    (f : bytes) (last : Z) (event : LogEvent) (text : bytes) (Ha : appenders s !! p = Some a)
    (Ht : format strftime (getFormatter a) event = Ret text) :
  (m_sink a = FileLogAppender f (mkStream true false) last false → openable e f = true → accepts e = false →
     ∃ s', log_appender strftime e p event s = (Ret tt, s') ∧ accepted s' = accepted s ∧
       ∀ l r s'', log_history strftime p l s' = (r, s'') → accepted s'' = accepted s) ∧
  (m_sink a = FileLogAppender f (mkStream false true) last true →
     ∃ s', log_appender strftime e p event s = (Ret tt, s') ∧
       if (u64 (last + 3) <=? u64 (m_time event)) && openable e f && accepts e
       then accepted_for f s' = accepted_for f s ++ text ∧ fit strftime event s' p else accepted s' = accepted s).
Proof.
  pose proof (appender_at_ret p s a Ha) as Hat. unfold getFormatter in Ht. split.
  - intros Es Ho Hw. rewrite (log_file_appender strftime e p event s a _ _ _ _ Ha Es). unfold log_file.
    rewrite (stE_bind_ret _ _ _ _ _ Hat), Es. unfold reopen. cbn [negb failbit stream_close is_open]. rewrite Ho. cbn [stream_open is_open failbit].
    destruct (u64 (last + 3) <=? u64 (m_time event)); unfold put_appender, getFormatter; rewrite modify_bind;
      (rewrite (stE_bind_ret _ _ _ text _) by (unfold query; cbn [m_formatter m_defaultFormatter]; by rewrite Ht));
      cbn [failbit]; rewrite Hw; (eexists; split; [done|]; split; [done|]); intros l r s'' H;
      (eapply stuck_history in H; [exact H|cbn; apply lookup_insert_eq|by do 3 eexists]).
  - intros Es. rewrite (log_file_appender strftime e p event s a _ _ _ _ Ha Es). unfold log_file.
    rewrite (stE_bind_ret _ _ _ _ _ Hat), Es. unfold reopen. cbn [negb failbit stream_open is_open].
    destruct (u64 (last + 3) <=? u64 (m_time event)); cbn [andb]; [|unfold put_appender; rewrite modify_bind; by eexists].
    destruct (openable e f); unfold put_appender, getFormatter; rewrite modify_bind; cbn [andb failbit]; [|by eexists].
    rewrite (stE_bind_ret _ _ _ text _) by (unfold query; cbn [m_formatter m_defaultFormatter]; by rewrite Ht).
    destruct (accepts e); cbn [failbit]; (eexists; split; [done|]); [|done]. split.
    + unfold accepted_for. cbn. by rewrite lookup_insert_eq.
    + eexists _, text. split; [cbn; apply lookup_insert_eq|]. split; [done|]. unfold getFormatter. exact Ht.
Qed.

(** A full disk for one event, then an empty one for ever. *)
Lemma file_appender_failures_witness :
  appenders sample_logging !! 2%nat = Some (mkAppender (FileLogAppender (B "/f") (mkStream true false) 10 false) None plain) ∧
  ∃ s', log_appender (λ _ _, []) (mkEnv (λ _, true) false false 0) 2 (sample_event ERROR) sample_logging = (Ret tt, s') ∧
    ∀ n, accepted (log_history (λ _ _, []) 2 (replicate n (mkEnv (λ _, true) true false 0, sample_event FATAL)) s').2 = ∅.
Proof.
  split; [reflexivity|].
  destruct (proj1 (file_appender_failures (λ _ _, []) (mkEnv (λ _, true) false false 0) sample_logging 2
    (mkAppender (FileLogAppender (B "/f") (mkStream true false) 10 false) None plain) (B "/f") 10 (sample_event ERROR) _
    eq_refl eq_refl) eq_refl eq_refl eq_refl) as (s' & E & _ & H).
  exists s'. split; [exact E|]. intros n.
  destruct (log_history _ 2 _ s') as [r s''] eqn:El. exact (H _ r s'' El).
Defined.
