(* ===== verification/LogConfig.v ===== *)
(** * Loggers from the configuration ([log.cpp])

    The definitions of loggers as the configuration holds them, and the
    listener that makes the loggers follow them. *)
From S2P Require Import Prelude StdString OrderedSet OrderedMap Log Logger.
From stdpp Require Import gmap.

Local Open Scope Z_scope.

(* sylar/log.cpp:584-587, LogAppenderDefine *)
Record LogAppenderDefine := mkAppenderDefine { type : Z; pattern : bytes; file : bytes }.

(* sylar/log.cpp:597-600, LogDefine *)
Record LogDefine := mkDefine { name : bytes; level : Level; defines : list LogAppenderDefine }.

#[export] Instance LogAppenderDefine_eq_dec : EqDecision LogAppenderDefine.
Proof. solve_decision. Defined.
#[export] Instance LogDefine_eq_dec : EqDecision LogDefine.
Proof. solve_decision. Defined.

(** [appenders == appenders] compares the list with itself. *)
(* sylar/log.cpp:602-604, LogDefine::operator== *)
Definition define_eq (a b : LogDefine) : bool :=
  bool_decide (name a = name b) && bool_decide (level a = level b) && bool_decide (defines a = defines a).

(* sylar/log.cpp:606-608, LogDefine::operator< *)
Definition define_lt (a b : LogDefine) : bool := bytes_lt (name a) (name b).

(* sylar/log.cpp:610-612, LogDefine::isValid *)
Definition isValid (d : LogDefine) : bool := negb (bool_decide (name d = [])).

(** [std::set<LogDefine>::find], of a set in its order. *)
Definition find_define (d : LogDefine) (l : list LogDefine) : option LogDefine :=
  map_find define_lt d ((λ x, (x, x)) <$> l).

Section listener.
Context (strftime : bytes → Z → bytes) (e : env).

(** [None]: no appender is made, for the console of a daemon. *)
(* sylar/log.cpp:713-723, LogIniter::LogIniter *)
Definition make_appender (a : LogAppenderDefine) : stE logging (option nat) :=
  if type a =? 1 then p ← new_FileLogAppender e (file a); mret (Some p)
  else if type a =? 2 then if negb (daemon e) then p ← new_StdoutLogAppender; mret (Some p) else mret None
  else crash null_deref.

(* sylar/log.cpp:712-731, LogIniter::LogIniter *)
Fixpoint add_defined (logger : nat) (l : list LogAppenderDefine) : stE logging unit :=
  match l with
  | [] => mret tt
  | a :: l =>
      ap ← make_appender a;
      _ ← match ap with
          | None => mret tt
          | Some ap =>
              f ← query (λ _, new_LogFormatter (match pattern a with [] => default_pattern | p => p end));
              _ ← setFormatter ap f;
              addAppender logger ap
          end;
      add_defined logger l
  end.

(* sylar/log.cpp:710-731, LogIniter::LogIniter *)
Definition apply_define (i : LogDefine) (logger : nat) : stE logging unit :=
  _ ← setLevel logger (level i); _ ← clearAppenders logger; add_defined logger (defines i).

(** For a definition that changed, the logger is looked up but the pointer
    is compared with it, not assigned, and stays null. *)
(* sylar/log.cpp:696-731, LogIniter::LogIniter *)
Fixpoint apply_new (new_value old_value : list LogDefine) : stE logging unit :=
  match new_value with
  | [] => mret tt
  | i :: rest =>
      _ ← match find_define i old_value with
          | None => logger ← getLogger e (name i); apply_define i logger
          | Some it => if negb (define_eq i it) then _ ← getLogger e (name i); crash null_deref else mret tt
          end;
      apply_new rest old_value
  end.

(* sylar/log.cpp:734-741, LogIniter::LogIniter *)
Fixpoint apply_old (old_value new_value : list LogDefine) : stE logging unit :=
  match old_value with
  | [] => mret tt
  | i :: rest =>
      _ ← match find_define i new_value with
          | None => logger ← getLogger e (name i); _ ← setLevel logger NOTSET; clearAppenders logger
          | Some _ => mret tt
          end;
      apply_old rest new_value
  end.

(** [announce]: the event that says that the configuration changed. *)
(* sylar/log.cpp:694-742, LogIniter::LogIniter *)
Definition on_change (announce : Logger → LogEvent) (old_value new_value : list LogDefine) : stE logging unit :=
  s ← get;
  _ ← SYLAR_LOG_LEVEL strftime e (m_root s) INFO announce;
  _ ← apply_new new_value old_value;
  apply_old old_value new_value.
End listener.
