(* ===== verification/LogConfigTheorems.v ===== *)
(** * Loggers follow the configuration, as far as they do

    The view of the logging state that matters to a configuration: for each
    name the level of its logger and where its appenders write in which
    pattern.  The listener refines an update of this view. *)
From S2P Require Import Prelude StdString OrderedSet OrderedMap Log Logger LoggerTheorems LogConfig.
From stdpp Require Import gmap sorting.

Local Open Scope Z_scope.

#[export] Instance bytes_lt_ordered : OrderedBy bytes_lt id bytes_lt.
Proof. done. Qed.
#[export] Instance define_lt_ordered : OrderedBy define_lt name bytes_lt.
Proof. done. Qed.

(** ** The view *)

Definition describe (a : LogAppender) : option bytes * bytes := (target_of a, m_pattern (getFormatter a)).
Abbreviation entry := (Level * list (option (option bytes * bytes)))%type.

Definition entry_of (s : logging) (l : Logger) : entry := (m_level l, (λ q, describe <$> appenders s !! q) <$> m_appenders l).
Definition view (s : logging) (n : bytes) : option entry :=
  match map_find bytes_lt n (m_loggers s) with Some p => entry_of s <$> loggers s !! p | None => None end.

(** The state is in order: names find their own loggers, and what loggers
    list exists. *)
Record ok (s : logging) : Prop := {
  ok_sorted : map_sorted id bytes_lt (m_loggers s);
  ok_find n p : map_find bytes_lt n (m_loggers s) = Some p → ∃ l, loggers s !! p = Some l ∧ m_name l = n;
  ok_next p : is_Some (loggers s !! p) ∨ is_Some (appenders s !! p) → (p < next s)%nat;
  ok_live p l q : loggers s !! p = Some l → q ∈ m_appenders l → is_Some (appenders s !! q)
}.

(** [s'] is [s] but for the entry of [n], which is [v]. *)
Definition sets (s s' : logging) (n : bytes) (v : option entry) : Prop :=
  ok s' ∧ view s' n = v ∧ (∀ m, m ≠ n → view s' m = view s m) ∧ (∀ p, map_find bytes_lt n (m_loggers s) = Some p →
    map_find bytes_lt n (m_loggers s') = Some p).

Lemma sets_trans s1 s2 s3 n v w : sets s1 s2 n v → sets s2 s3 n w → sets s1 s3 n w.
Proof.
  intros (_ & _ & H1 & P1) (O & V & H2 & P2). split; [done|]. split; [done|]. split; [|auto].
  intros m Hm. by rewrite H2, H1.
Qed.

Lemma view_at s n p l : map_find bytes_lt n (m_loggers s) = Some p → loggers s !! p = Some l → view s n = Some (entry_of s l).
Proof. intros Hn Hp. unfold view. by rewrite Hn, Hp. Qed.

(** Writing to the logger of [n]. *)
Lemma put_logger_sets s n p l l' : ok s → map_find bytes_lt n (m_loggers s) = Some p → loggers s !! p = Some l →
  m_name l' = m_name l → (∀ q, q ∈ m_appenders l' → is_Some (appenders s !! q)) →
  sets s (set_loggers <[p := l']> s) n (Some (entry_of s l')).
Proof.
  intros [O1 O2 O3 O4] Hn Hp Hname Hlive. destruct (O2 n p Hn) as (l0 & Hl0 & Hl0n). rewrite Hp in Hl0. injection Hl0 as <-.
  split; [split; cbn; [done| | |]|split; [|split]].
  - intros m q Hm. destruct (O2 m q Hm) as (k & Hk & Hkn). destruct (decide (p = q)) as [<-|Hne].
    + rewrite lookup_insert_eq. exists l'. split; [done|]. congruence.
    + rewrite lookup_insert_ne by done. by exists k.
  - intros q. rewrite lookup_insert_is_Some. intros [[->|[_ Hq]]|Hq]; apply O3; [left; by eexists|by left|by right].
  - intros q k r. intros [[<- <-]|[_ Hk]]%lookup_insert_Some; [apply Hlive|by eapply O4].
  - rewrite (view_at _ n p l'); [done|done|cbn; apply lookup_insert_eq].
  - intros m Hm. unfold view. cbn. destruct (map_find bytes_lt m (m_loggers s)) as [q|] eqn:Eq; [|done].
    rewrite lookup_insert_ne; [done|]. intros ->. destruct (O2 m q Eq) as (k & Hk & Hkn). congruence.
  - done.
Qed.

(** Looking a logger up makes it when it is not there. *)
Definition found (s : logging) (n : bytes) : entry := default (INFO, []) (view s n).

Lemma getLogger_eq e s n : getLogger e n s =
  match map_find bytes_lt n (m_loggers s) with
  | Some p => (Ret p, s)
  | None => (Ret (next s), mkLogging (appenders s) (<[next s := new_Logger e n]> (loggers s)) (S (next s))
      (map_assign bytes_lt n (next s) (m_loggers s)) (m_root s) (console s) (accepted s))
  end.
Proof. unfold getLogger. unfold mbind, stE_bind, get. by destruct (map_find _ _ _). Qed.

Lemma getLogger_sets e s n : ok s → ∃ p s', getLogger e n s = (Ret p, s') ∧ sets s s' n (Some (found s n)) ∧
  map_find bytes_lt n (m_loggers s') = Some p.
Proof.
  intros Hs. pose proof Hs as [O1 O2 O3 O4]. rewrite getLogger_eq.
  destruct (map_find bytes_lt n (m_loggers s)) as [p|] eqn:En.
  - exists p, s. split; [done|]. split; [|done]. destruct (O2 n p En) as (l & Hl & _). split; [done|]. split; [|done].
    unfold found. by rewrite (view_at s n p l).
  - exists (next s). eexists. split; [done|]. assert (loggers s !! next s = None) as Hno.
    { apply eq_None_not_Some. intros H. specialize (O3 (next s) (or_introl H)). lia. }
    assert (∀ m q, map_find bytes_lt m (m_loggers s) = Some q → q ≠ next s) as Hne.
    { intros m q Hm ->. destruct (O2 _ _ Hm) as (l & Hl & _). congruence. }
    pose proof (λ m, find_assign bytes_lt id bytes_lt m n (next s) (m_loggers s) O1) as Hfind. unfold id in Hfind.
    split; [split; [split; cbn|split; [|split]]|].
    + apply (put_sorted bytes_lt id bytes_lt n (next s) (m_loggers s) O1).
    + intros m q. rewrite Hfind. case_decide as E; [intros [= <-]|intros Hm].
      * subst m. rewrite lookup_insert_eq. by eexists.
      * rewrite lookup_insert_ne by (intros <-; by eapply Hne). by apply O2.
    + intros q. rewrite lookup_insert_is_Some. intros [[<-|[_ Hq]]|Hq]; [lia|..];
        (assert (q < next s)%nat; [apply O3; auto|lia]).
    + intros q l r [[<- <-]|[_ Hl]]%lookup_insert_Some; [by intros ?%elem_of_nil|by eapply O4].
    + unfold found, view. cbn. rewrite En, Hfind, decide_True, lookup_insert_eq by done. done.
    + intros m Hm. unfold view. cbn. rewrite Hfind, decide_False by done.
      destruct (map_find bytes_lt m (m_loggers s)) as [q|] eqn:Eq; [|done]. rewrite lookup_insert_ne; [done|].
      intros <-. by eapply Hne.
    + intros p. congruence.
    + cbn. by rewrite Hfind, decide_True.
Qed.

(** ** Appenders of a definition *)

Definition pattern_of (a : LogAppenderDefine) : bytes := match pattern a with [] => default_pattern | p => p end.

(** What a definition asks for; a daemon has no console. *)
Definition meant (daemon : bool) (a : LogAppenderDefine) : list (option bytes * bytes) :=
  if type a =? 1 then [(Some (file a), pattern_of a)] else if negb daemon then [(None, pattern_of a)] else [].

(** Of a kind there is, with a pattern that is not read outside its bounds. *)
Definition good (a : LogAppenderDefine) : Prop := (type a = 1 ∨ type a = 2) ∧ ∃ f, new_LogFormatter (pattern_of a) = Ret f.

Definition alloc (a : LogAppender) (s : logging) : logging :=
  mkLogging (<[next s := a]> (appenders s)) (loggers s) (S (next s)) (m_loggers s) (m_root s) (console s) (accepted s).

Lemma alloc_fresh s : ok s → appenders s !! next s = None.
Proof.
  intros [_ _ O3 _]. apply eq_None_not_Some. intros H. specialize (O3 (next s) (or_intror H)). lia.
Qed.

Lemma alloc_live s a q : ok s → is_Some (appenders s !! q) → appenders (alloc a s) !! q = appenders s !! q.
Proof. intros Hs [x Hx]. cbn. apply lookup_insert_ne. intros <-. by rewrite (alloc_fresh s Hs) in Hx. Qed.

Lemma alloc_entry s a p l : ok s → loggers s !! p = Some l → entry_of (alloc a s) l = entry_of s l.
Proof.
  intros Hs Hl. unfold entry_of. f_equal. apply list_fmap_ext. intros i q Hq.
  rewrite alloc_live; [done|done|]. apply (ok_live s Hs p l); [done|]. by apply list_elem_of_lookup_2 in Hq.
Qed.

Lemma alloc_ok s a : ok s → ok (alloc a s) ∧ ∀ n, view (alloc a s) n = view s n.
Proof.
  intros Hs. pose proof Hs as [O1 O2 O3 O4]. split.
  - split; cbn; try done.
    + intros q. rewrite lookup_insert_is_Some. intros [Hq|[<-|[_ Hq]]]; [|lia|];
        (assert (q < next s)%nat; [apply O3; auto|lia]).
    + intros q l r Hl Hr. apply lookup_insert_is_Some. right. split; [|by eapply O4].
      intros <-. pose proof (alloc_fresh s Hs) as Hf. destruct (O4 q l (next s) Hl Hr). congruence.
  - intros n. unfold view. cbn. destruct (map_find bytes_lt n (m_loggers s)) as [q|] eqn:Eq; [|done].
    destruct (loggers s !! q) as [l|] eqn:El; [|done]. cbn. f_equal. by eapply alloc_entry.
Qed.

Lemma formatter_pattern p f : new_LogFormatter p = Ret f → m_pattern f = p.
Proof. unfold new_LogFormatter. by destruct (init p); [intros [= <-]|..]. Qed.

(** The formatter every appender starts with. *)
Ltac default_formatter s := unfold mbind, stE_bind, query; rewrite default_items; cbv beta iota.

(** Making one appender of a definition and giving it its formatter. *)
Lemma make_appender_made e a s : good a →
  ∃ f, new_LogFormatter (pattern_of a) = Ret f ∧
  match meant (daemon e) a with
  | [] => make_appender e a s = (Ret None, s)
  | _ => ∃ b, make_appender e a s = (Ret (Some (next s)), alloc b s) ∧
         meant (daemon e) a = [describe (mkAppender (m_sink b) (Some f) (m_defaultFormatter b))]
  end.
Proof.
  intros [Ht (f & Hf)]. exists f. split; [done|]. pose proof (formatter_pattern _ f Hf) as Hp.
  unfold meant, make_appender, describe, target_of, getFormatter. cbn [m_formatter m_sink]. rewrite Hp.
  destruct Ht as [-> | ->]; cbn [Z.eqb Pos.eqb].
  - eexists. split; [unfold new_FileLogAppender; default_formatter s; reflexivity|done].
  - destruct (daemon e); cbn [negb]; [done|]. eexists. split; [unfold new_StdoutLogAppender; default_formatter s; reflexivity|done].
Qed.

Lemma add_defined_sets e n p lv ds l s : ok s → map_find bytes_lt n (m_loggers s) = Some p → view s n = Some (lv, ds) →
  Forall good l → ∃ s', add_defined e p l s = (Ret tt, s') ∧ sets s s' n (Some (lv, ds ++ (Some <$> (l ≫= meant (daemon e))))).
Proof.
  intros Hs Hn Hv Hl. revert s ds Hs Hn Hv. induction Hl as [|a l Ha Hl IH]; intros s ds Hs Hn Hv; cbn [add_defined].
  { exists s. split; [done|]. cbn. rewrite app_nil_r. done. }
  destruct (make_appender_made e a s Ha) as (f & Hf & Hm). rewrite bind_cons, fmap_app, (assoc_L (++)).
  destruct (meant (daemon e) a) as [|d r] eqn:Em.
  { rewrite (stE_bind_ret _ _ _ _ _ Hm), mret_bind. cbn. rewrite app_nil_r. by apply IH. }
  destruct Hm as (b & Hb & [= -> ->]). rewrite (stE_bind_ret _ _ _ _ _ Hb).
  set (b' := mkAppender (m_sink b) (Some f) (m_defaultFormatter b)).
  destruct (ok_find s Hs n p Hn) as (k & Hk & Hkn).
  set (s1 := set_loggers <[p := set_list (m_appenders k ++ [next s]) k]> (alloc b' s)).
  assert ((f ← query (λ _, new_LogFormatter (pattern_of a)); _ ← setFormatter (next s) f; addAppender p (next s)) (alloc b s)
          = (Ret tt, s1)) as E.
  { rewrite (stE_bind_ret _ _ _ f (alloc b s)) by (unfold query; by rewrite Hf).
    unfold setFormatter, addAppender, appender_at, logger_at, put_appender, put_logger, mbind, stE_bind, query, modify.
    cbn. rewrite lookup_insert_eq. cbn. rewrite Hk. unfold s1, set_loggers, set_appenders, alloc. cbn. by rewrite insert_insert_eq. }
  rewrite (stE_bind_ret _ _ _ _ _ E). clear E.
  destruct (alloc_ok s b' Hs) as [Hok Hview]. rewrite (view_at s n p k Hn Hk) in Hv. injection Hv as Hlv Hds.
  assert (sets s s1 n (Some (lv, ds ++ [Some (describe b')]))) as Hsets.
  { destruct (put_logger_sets (alloc b' s) n p k (set_list (m_appenders k ++ [next s]) k) Hok Hn Hk eq_refl) as (P1 & P2 & P3 & P4).
    - intros q [Hq|Hq%list_elem_of_singleton]%elem_of_app; cbn; apply lookup_insert_is_Some'; [right|by left].
      by apply (ok_live s Hs p k).
    - split; [done|]. split; [|split; [|exact P4]].
      + etrans; [exact P2|]. f_equal. unfold entry_of. cbn [set_list m_level m_appenders]. f_equal; [done|].
        rewrite fmap_app. f_equal; [|cbn; by rewrite lookup_insert_eq].
        rewrite <- Hds. pose proof (alloc_entry s b' p k Hs Hk) as [= H]. exact H.
      + intros m Hm. etrans; [by apply P3|]. apply Hview. }
  destruct (IH s1 (ds ++ [Some (describe b')])) as (s2 & E2 & H2); [apply Hsets|by apply Hsets|apply Hsets|].
  exists s2. split; [exact E2|]. by eapply sets_trans.
Qed.

(** ** One definition *)

Definition entry_of_define (daemon : bool) (i : LogDefine) : entry := (level i, Some <$> (defines i ≫= meant daemon)).

Lemma set_logger_sets s n p (f : Logger → Logger) v : ok s → map_find bytes_lt n (m_loggers s) = Some p → view s n = Some v →
  (∀ l, m_name (f l) = m_name l ∧ m_appenders (f l) ⊆ m_appenders l) →
  ∃ l s', (l ← logger_at p; put_logger p (f l)) s = (Ret tt, s') ∧ entry_of s l = v ∧ sets s s' n (Some (entry_of s (f l))).
Proof.
  intros Hs Hn Hv Hf. destruct (ok_find s Hs n p Hn) as (l & Hl & _). destruct (Hf l) as [Hname Hsub].
  exists l. eexists. split; [|split].
  - rewrite (stE_bind_ret _ _ s l s) by (unfold logger_at, query; by rewrite Hl). reflexivity.
  - rewrite (view_at s n p l Hn Hl) in Hv. by injection Hv.
  - apply (put_logger_sets s n p l); try done. intros q Hq. apply (ok_live s Hs p l); auto.
Qed.

Lemma setLevel_sets s n p lv v : ok s → map_find bytes_lt n (m_loggers s) = Some p → view s n = Some v →
  ∃ s', setLevel p lv s = (Ret tt, s') ∧ sets s s' n (Some (lv, v.2)).
Proof.
  intros Hs Hn Hv. destruct (set_logger_sets s n p (set_level lv) v Hs Hn Hv) as (l & s' & E & <- & H); [done|]. by exists s'.
Qed.

Lemma clearAppenders_sets s n p v : ok s → map_find bytes_lt n (m_loggers s) = Some p → view s n = Some v →
  ∃ s', clearAppenders p s = (Ret tt, s') ∧ sets s s' n (Some (v.1, [])).
Proof.
  intros Hs Hn Hv. destruct (set_logger_sets s n p (set_list []) v Hs Hn Hv) as (l & s' & E & <- & H); [|by exists s'].
  intros l. split; [done|]. set_solver.
Qed.

(** A logger that is given a level and loses its appenders. *)
Lemma reset_sets s n p lv : ok s → map_find bytes_lt n (m_loggers s) = Some p →
  ∃ s', (_ ← setLevel p lv; clearAppenders p) s = (Ret tt, s') ∧ sets s s' n (Some (lv, [])).
Proof.
  intros Hs Hn. destruct (ok_find s Hs n p Hn) as (l & Hl & _).
  destruct (setLevel_sets s n p lv _ Hs Hn (view_at s n p l Hn Hl)) as (s1 & E1 & H1).
  pose proof H1 as (O1 & V1 & _ & P1). destruct (clearAppenders_sets s1 n p _ O1 (P1 _ Hn) V1) as (s2 & E2 & H2).
  exists s2. rewrite (stE_bind_ret _ _ _ _ _ E1). split; [done|]. by eapply sets_trans.
Qed.

Lemma apply_define_sets e i p s : ok s → map_find bytes_lt (name i) (m_loggers s) = Some p → Forall good (defines i) →
  ∃ s', apply_define e i p s = (Ret tt, s') ∧ sets s s' (name i) (Some (entry_of_define (daemon e) i)).
Proof.
  intros Hs Hn Hg. destruct (reset_sets s (name i) p (level i) Hs Hn) as (s1 & E1 & H1).
  pose proof H1 as (O1 & V1 & _ & P1). destruct (add_defined_sets e (name i) p _ _ (defines i) s1 O1 (P1 _ Hn) V1 Hg) as (s2 & E2 & H2).
  exists s2. split; [|by eapply sets_trans]. unfold apply_define.
  apply stE_bind_inv in E1 as (u & s0 & E0 & E1). rewrite (stE_bind_ret _ _ _ _ _ E0), (stE_bind_ret _ _ _ _ _ E1). exact E2.
Qed.

(** ** Sets of definitions *)

Definition defs_sorted (l : list LogDefine) : Prop := map_sorted name bytes_lt ((λ x, (x, x)) <$> l).

Lemma find_define_spec d l it : defs_sorted l → find_define d l = Some it ↔ it ∈ l ∧ name d = name it.
Proof.
  intros Hs. unfold find_define. rewrite (find_elem define_lt name bytes_lt) by done. split.
  - intros (y & (x & [= -> ->] & Hx)%list_elem_of_fmap & E). done.
  - intros [Hin E]. exists it. split; [|done]. apply list_elem_of_fmap. by exists it.
Qed.

Lemma find_define_None d l : defs_sorted l → find_define d l = None ↔ name d ∉ name <$> l.
Proof.
  intros Hs. destruct (find_define d l) as [it|] eqn:E.
  - apply find_define_spec in E as [Hin E]; [|done]. split; [done|]. intros Hn. destruct Hn. rewrite E. by apply list_elem_of_fmap_2.
  - split; [|done]. intros _ (it & En & Hin)%list_elem_of_fmap.
    assert (find_define d l = Some it) by by apply find_define_spec. congruence.
Qed.

Lemma defs_sorted_cons i l : defs_sorted (i :: l) → defs_sorted l ∧ name i ∉ name <$> l.
Proof.
  unfold defs_sorted, map_sorted. cbn. intros [Hall Hs]%StronglySorted_cons. split; [done|].
  intros (it & En & Hin)%list_elem_of_fmap. rewrite Forall_forall in Hall.
  specialize (Hall (it, it)). cbn in Hall. rewrite <- En, (lt_irrefl bytes_lt) in Hall. apply diff_false_true.
  apply Hall. apply list_elem_of_fmap. by exists it.
Qed.

Lemma define_eq_level i it : name i = name it → define_eq i it = bool_decide (level i = level it).
Proof. intros E. unfold define_eq. by rewrite E, !(bool_decide_eq_true_2 _ eq_refl), andb_true_r. Qed.

(** One step of the loop over the new definitions. *)
Lemma apply_one e i old s : ok s → defs_sorted old → (name i ∉ name <$> old → Forall good (defines i)) →
  (match find_define i old with
   | None => logger ← getLogger e (name i); apply_define e i logger
   | Some it => if negb (define_eq i it) then _ ← getLogger e (name i); crash null_deref else mret tt
   end) s = (Crash null_deref, (getLogger e (name i) s).2) ∧ (∃ it, it ∈ old ∧ name i = name it ∧ level i ≠ level it) ∨
  ∃ s', (match find_define i old with
   | None => logger ← getLogger e (name i); apply_define e i logger
   | Some it => if negb (define_eq i it) then _ ← getLogger e (name i); crash null_deref else mret tt
   end) s = (Ret tt, s') ∧ ok s' ∧ (∀ it, it ∈ old → name i = name it → level i = level it) ∧
   (∀ m, view s' m = if decide (m = name i ∧ name i ∉ name <$> old) then Some (entry_of_define (daemon e) i) else view s m).
Proof.
  intros Hs Hold Hg. destruct (getLogger_sets e s (name i) Hs) as (p & s1 & E1 & H1 & P1). rewrite E1.
  pose proof (find_define_None i old Hold) as HN. destruct (find_define i old) as [it|] eqn:Ef.
  - pose proof Ef as Ef'. apply find_define_spec in Ef as [Hin En]; [|done]. rewrite define_eq_level by done. case_bool_decide as El; cbn [negb].
    + right. exists s. split; [done|]. split; [done|]. split.
      * intros it' Hin' En'. assert (find_define i old = Some it') by by apply find_define_spec. congruence.
      * intros m. rewrite decide_False; [done|]. intros [_ Hno]. by apply HN in Hno.
    + left. split; [|by exists it]. by rewrite (stE_bind_ret _ _ _ _ _ E1).
  - right. assert (name i ∉ name <$> old) as Hno by by apply HN.
    pose proof H1 as (O1 & _ & V1 & _). destruct (apply_define_sets e i p s1 O1 P1 (Hg Hno)) as (s2 & E2 & O2 & V2 & V2' & _).
    exists s2. rewrite (stE_bind_ret _ _ _ _ _ E1). split; [done|]. split; [done|]. split.
    + intros it Hin En. destruct Hno. rewrite En. by apply list_elem_of_fmap_2.
    + intros m. case_decide as Hd; [destruct Hd as [-> _]; done|]. rewrite V2', V1; [done|..]; naive_solver.
Qed.

Definition all_good (new old : list LogDefine) : Prop := ∀ i, i ∈ new → name i ∉ name <$> old → Forall good (defines i).

Lemma apply_new_sets e new old s : ok s → defs_sorted new → defs_sorted old → all_good new old →
  (∀ i it, i ∈ new → it ∈ old → name i = name it → level i = level it) →
  ∃ s', apply_new e new old s = (Ret tt, s') ∧ ok s' ∧
    (∀ i, i ∈ new → name i ∉ name <$> old → view s' (name i) = Some (entry_of_define (daemon e) i)) ∧
    (∀ n, n ∉ name <$> new ∨ n ∈ name <$> old → view s' n = view s n).
Proof.
  intros Hs Hnew Hold. revert s Hs Hnew. induction new as [|i new IH]; intros s Hs Hnew Hg Hl; cbn [apply_new].
  { exists s. split; [done|]. split; [done|]. split; [|done]. by intros i ?%elem_of_nil. }
  apply defs_sorted_cons in Hnew as [Hnew Hi].
  destruct (apply_one e i old s Hs Hold) as [[_ (it & Hin & En & El)]|(s1 & E1 & O1 & _ & V1)].
  { apply Hg. by left. } { destruct El. apply Hl; [by left|done..]. }
  destruct (IH s1 O1 Hnew) as (s2 & E2 & O2 & V2 & V2').
  { intros j Hj. apply Hg. by right. } { intros j it Hj. apply Hl. by right. }
  exists s2. rewrite (stE_bind_ret _ _ _ _ _ E1). split; [done|]. split; [done|]. split.
  - intros j [->|Hj]%elem_of_cons Hno; [|by apply V2]. rewrite V2' by by left. by rewrite V1, decide_True.
  - intros n Hn. rewrite V2' by (rewrite fmap_cons, not_elem_of_cons in Hn; naive_solver).
    rewrite V1, decide_False; [done|]. intros [-> Hno]. destruct Hn as [Hn|Hn]; [|done]. apply Hn. by left.
Qed.

Lemma apply_new_crash e new old s : ok s → defs_sorted old → all_good new old →
  (∃ i it, i ∈ new ∧ it ∈ old ∧ name i = name it ∧ level i ≠ level it) →
  ∃ s', apply_new e new old s = (Crash null_deref, s').
Proof.
  intros Hs Hold. revert s Hs. induction new as [|i new IH]; intros s Hs Hg (j & it & Hj & Hit & En & El); [by apply elem_of_nil in Hj|].
  cbn [apply_new]. destruct (apply_one e i old s Hs Hold) as [[E1 _]|(s1 & E1 & O1 & Hlev & _)]; [apply Hg; by left|..].
  - eexists. by rewrite (stE_bind_crash _ _ _ _ _ E1).
  - rewrite (stE_bind_ret _ _ _ _ _ E1). apply IH; [done|intros k Hk; apply Hg; by right|].
    apply elem_of_cons in Hj as [->|Hj]; [by destruct El; apply Hlev|]. by exists j, it.
Qed.

Lemma apply_old_sets e old new s : ok s → defs_sorted new →
  ∃ s', apply_old e old new s = (Ret tt, s') ∧ ok s' ∧
    ∀ n, view s' n = if decide (n ∈ name <$> old ∧ n ∉ name <$> new) then Some (NOTSET, []) else view s n.
Proof.
  intros Hs Hnew. revert s Hs. induction old as [|i old IH]; intros s Hs; cbn [apply_old].
  { exists s. split; [done|]. split; [done|]. intros n. rewrite decide_False; [done|]. by intros [?%elem_of_nil _]. }
  pose proof (find_define_None i new Hnew) as HN. destruct (find_define i new) as [it|] eqn:Ef.
  - rewrite mret_bind. destruct (IH s Hs) as (s2 & E2 & O2 & V2). exists s2. split; [done|]. split; [done|].
    intros n. rewrite V2. assert (name i ∈ name <$> new) as Hi by (destruct (decide (name i ∈ name <$> new)); [done|by apply HN in n0]).
    repeat case_decide; set_solver.
  - assert (name i ∉ name <$> new) as Hi by by apply HN.
    destruct (getLogger_sets e s (name i) Hs) as (p & s1 & E1 & (O1 & _ & V1 & _) & P1).
    destruct (reset_sets s1 (name i) p NOTSET O1 P1) as (s2 & E2 & O2 & V2 & V2' & _).
    destruct (IH s2 O2) as (s3 & E3 & O3 & V3). exists s3. split.
    + assert ((logger ← getLogger e (name i); _ ← setLevel logger NOTSET; clearAppenders logger) s = (Ret tt, s2)) as E.
      { by rewrite (stE_bind_ret _ _ _ _ _ E1). }
      by rewrite (stE_bind_ret _ _ _ _ _ E).
    + split; [done|]. intros n. rewrite V3. destruct (decide (n = name i)) as [->|Hne].
      * rewrite (decide_True (P := name i ∈ name <$> i :: old ∧ _)) by (split; [by left|done]). by case_decide.
      * rewrite V2', V1 by done. repeat case_decide; set_solver.
Qed.

(** ** Logging changes no logger *)

Section keeps.
Context (strftime : bytes → Z → bytes) (e : env).

(** Streams and output apart, [s'] is [s]. *)
Record keeps (s s' : logging) : Prop := {
  keeps_loggers : loggers s' = loggers s;
  keeps_names : m_loggers s' = m_loggers s;
  keeps_next : next s' = next s;
  keeps_like p : option_Forall2 like (appenders s !! p) (appenders s' !! p)
}.

#[local] Instance keeps_preorder : PreOrder keeps.
Proof.
  split.
  - intros s. by split.
  - intros s1 s2 s3 [A1 A2 A3 A4] [B1 B2 B3 B4]. split; [congruence..|]. intros p. etrans; [apply A4|apply B4].
Qed.

Lemma keeps_put_appender s p a a' : appenders s !! p = Some a → like a a' → keeps s (set_appenders <[p := a']> s).
Proof.
  intros Ha Hl. split; [done..|]. intros q. cbn. destruct (decide (p = q)) as [->|].
  - rewrite Ha, lookup_insert_eq. by constructor.
  - by rewrite lookup_insert_ne.
Qed.

Lemma keeps_output s c d : keeps s (set_output c d s).
Proof. by split. Qed.

Lemma log_appender_keeps p event s r s' : log_appender strftime e p event s = (r, s') → keeps s s'.
Proof.
  unfold log_appender. destruct (appenders s !! p) as [a|] eqn:Ha.
  2:{ unfold mbind, stE_bind, appender_at, query. rewrite Ha. by intros [= _ <-]. }
  pose proof (appender_at_ret p s a Ha) as Hat. rewrite (stE_bind_ret _ _ _ _ _ Hat).
  destruct (m_sink a) as [|f st last err] eqn:Es.
  - unfold log_stdout. rewrite (stE_bind_ret _ _ _ _ _ Hat). unfold mbind, stE_bind, query.
    destruct (format _ _ _); intros [= _ <-]; [apply keeps_output|done..].
  - unfold log_file. rewrite (stE_bind_ret _ _ _ _ _ Hat), Es.
    destruct (if u64 (last + 3) <=? u64 (m_time event) then _ else _) as [[f' last'] err'].
    assert (∀ f', like a (mkAppender (FileLogAppender f f' last' err') (m_formatter a) (m_defaultFormatter a))) as Hl.
    { intros f2. unfold like, target_of. by rewrite Es. }
    unfold put_appender. rewrite modify_bind. destruct err'; [intros [= _ <-]; by eapply keeps_put_appender|].
    unfold mbind, stE_bind, query. destruct (format _ _ _); [|intros [= _ <-]; by eapply keeps_put_appender..].
    destruct (failbit f'); [intros [= _ <-]; by eapply keeps_put_appender|].
    destruct (accepts e); intros [= _ <-]; (etrans; [apply (keeps_put_appender s p a _ Ha (Hl f'))|]); [apply keeps_output|].
    eapply keeps_put_appender; [cbn; apply lookup_insert_eq|]. etrans; [symmetry; apply Hl|apply Hl].
Qed.

Lemma log_keeps p level ev s r s' : SYLAR_LOG_LEVEL strftime e p level ev s = (r, s') → keeps s s'.
Proof.
  assert (∀ l event s r s', log_appenders strftime e l event s = (r, s') → keeps s s') as Hall.
  { intros l event. induction l as [|q l IH]; intros s0 r0 s0'; cbn [log_appenders]; [by intros [= _ <-]|].
    unfold mbind, stE_bind. destruct (log_appender strftime e q event s0) as [[[]|x|x] s1] eqn:E1;
      apply log_appender_keeps in E1; [|by intros [= _ <-]..]. intros H. etrans; [exact E1|by eapply IH]. }
  unfold SYLAR_LOG_LEVEL, log, mbind, stE_bind, logger_at, query. destruct (loggers s !! p) as [l|] eqn:El; [|by intros [= _ <-]].
  destruct (_ <=? level_value (m_level l)); [|by intros [= _ <-]]. rewrite El.
  destruct (_ <=? level_value (m_level l)); [apply Hall|by intros [= _ <-]].
Qed.

Lemma keeps_view s s' : keeps s s' → ok s → ok s' ∧ ∀ n, view s' n = view s n.
Proof.
  intros [K1 K2 K3 K4] [O1 O2 O3 O4].
  assert (∀ q, is_Some (appenders s' !! q) ↔ is_Some (appenders s !! q)) as Hlive.
  { intros q. destruct (K4 q); split; intros [? ?]; try done; by eexists. }
  split.
  - split; rewrite ?K1, ?K2, ?K3; try done; intros q; [setoid_rewrite Hlive; apply O3|].
    intros r l Hl Hr. rewrite Hlive. by eapply O4.
  - intros n. unfold view. rewrite K1, K2. destruct (map_find _ _ _); [|done]. destruct (loggers s !! _); [|done].
    cbn. unfold entry_of. do 2 f_equal. apply list_fmap_ext. intros i q _. destruct (K4 q) as [a b H|]; [|done]. cbn.
    unfold describe. rewrite (like_formatter a b H). by destruct H as [-> _].
Qed.
End keeps.

(** C27: what the loggers do when the configuration changes from one set of
    definitions to another.  Seen as a table from names to level and
    appenders, a name that is new gets exactly what its definition says
    (no console for a daemon), one that is gone gets level NOTSET and no appenders, and all others
    keep what they have - also those whose appenders changed, which the
    comparison of definitions does not see.  When the level of a definition changed, a
    null pointer is dereferenced. *)
Theorem config_applied (strftime : bytes → Z → bytes) (e : env) (announce : Logger → LogEvent)
    (old_value new_value : list LogDefine) (s s1 : logging) (Hs : ok s)
    (Hold : defs_sorted old_value) (Hnew : defs_sorted new_value) (Hgood : all_good new_value old_value)
    (Hroot : SYLAR_LOG_LEVEL strftime e (m_root s) INFO announce s = (Ret tt, s1)) :
  ((∀ i it, i ∈ new_value → it ∈ old_value → name i = name it → level i = level it) →
   ∃ s', on_change strftime e announce old_value new_value s = (Ret tt, s') ∧ ok s' ∧
     (∀ i, i ∈ new_value → name i ∉ name <$> old_value → view s' (name i) = Some (entry_of_define (daemon e) i)) ∧
     (∀ i, i ∈ old_value → name i ∉ name <$> new_value → view s' (name i) = Some (NOTSET, [])) ∧
     (∀ n, (n ∈ name <$> new_value ↔ n ∈ name <$> old_value) → view s' n = view s n)) ∧
  ((∃ i it, i ∈ new_value ∧ it ∈ old_value ∧ name i = name it ∧ level i ≠ level it) →
   ∃ s', on_change strftime e announce old_value new_value s = (Crash null_deref, s')).
Proof.
  destruct (keeps_view s s1 (log_keeps strftime e _ _ _ _ _ _ Hroot) Hs) as [O1 V1].
  unfold on_change. rewrite get_bind, (stE_bind_ret _ _ _ _ _ Hroot). split.
  - intros Hl. destruct (apply_new_sets e new_value old_value s1 O1 Hnew Hold Hgood Hl) as (s2 & E2 & O2 & V2 & V2').
    destruct (apply_old_sets e old_value new_value s2 O2 Hnew) as (s3 & E3 & O3 & V3).
    exists s3. rewrite (stE_bind_ret _ _ _ _ _ E2). split; [done|]. split; [done|]. split_and!.
    + intros i Hi Hno. rewrite V3, decide_False by tauto. by apply V2.
    + intros i Hi Hno. rewrite V3, decide_True; [done|]. split; [|done]. by apply list_elem_of_fmap_2.
    + intros n Hn. rewrite V3, decide_False by tauto. rewrite V2' by (destruct (decide (n ∈ name <$> old_value)); tauto). apply V1.
  - intros Hx. destruct (apply_new_crash e new_value old_value s1 O1 Hold Hgood Hx) as [s2 E2].
    eexists. by rewrite (stE_bind_crash _ _ _ _ _ E2).
Qed.

(** A manager as it starts, and a first configuration: a logger [db] that writes
    to a file and one of the console without one. *)
Definition sample_env : env := mkEnv (λ _, true) true false 0.
Definition sample_defs : list LogDefine :=
  [mkDefine (B "db") ERROR [mkAppenderDefine 1 (B "%m%n") (B "/db.log"); mkAppenderDefine 2 [] []];
   mkDefine (B "net") DEBUG []].
Definition first_formatter : LogFormatter :=
  Eval vm_compute in match new_LogFormatter default_pattern with Ret f => f | _ => mkFormatter [] [] true end.
Definition fresh_manager : logging :=
  mkLogging {[ 1%nat := mkAppender StdoutLogAppender None first_formatter ]} {[ 0%nat := mkLogger (B "root") INFO [1%nat] 0 ]}
    2 [(B "root", 0%nat)] 0 [] ∅.
Example fresh_manager_made : new_LoggerManager sample_env ∅ = (Ret tt, fresh_manager).
Proof. vm_compute. reflexivity. Qed.

Lemma fresh_ok : ok fresh_manager.
Proof.
  unfold fresh_manager. split; cbn [loggers appenders m_loggers next].
  - repeat constructor.
  - intros n p H. apply (find_elem bytes_lt id bytes_lt) in H as (y & Hin & E); [|repeat constructor].
    apply list_elem_of_singleton in Hin. injection Hin as -> ->. unfold id in E. subst n. eexists. by split.
  - intros p [[x Hx]|[x Hx]]; apply lookup_singleton_Some in Hx as [<- _]; cbn; lia.
  - intros p l q [<- <-]%lookup_singleton_Some Hq. apply list_elem_of_singleton in Hq as ->. by eexists.
Qed.

Lemma config_applied_witness : (ok fresh_manager ∧ defs_sorted sample_defs ∧ all_good sample_defs []) ∧
  ∃ s', on_change (λ _ _, B "now") sample_env (λ _, sample_event INFO) [] sample_defs fresh_manager = (Ret tt, s') ∧
    view s' (B "db") = Some (ERROR, [Some (Some (B "/db.log"), B "%m%n"); Some (None, default_pattern)]).
Proof.
  assert (defs_sorted []) as H0 by constructor.
  assert (defs_sorted sample_defs) as H1 by (unfold defs_sorted; repeat constructor).
  assert (all_good sample_defs []) as H2.
  { intros i Hi _. assert (i = mkDefine (B "db") ERROR [mkAppenderDefine 1 (B "%m%n") (B "/db.log"); mkAppenderDefine 2 [] []]
      ∨ i = mkDefine (B "net") DEBUG []) as [-> | ->] by (unfold sample_defs in Hi; set_solver);
      repeat constructor; eexists; vm_compute; reflexivity. }
  split; [split; [exact fresh_ok|split; [exact H1|exact H2]]|].
  destruct (SYLAR_LOG_LEVEL (λ _ _, B "now") sample_env (m_root fresh_manager) INFO (λ _, sample_event INFO) fresh_manager)
    as [r s1] eqn:E. assert (r = Ret tt) as -> by (vm_compute in E; congruence).
  destruct (proj1 (config_applied (λ _ _, B "now") sample_env (λ _, sample_event INFO) [] sample_defs fresh_manager s1
    fresh_ok H0 H1 H2 E)) as (s' & E' & _ & H & _).
  { intros i it _ Hit. by apply elem_of_nil in Hit. }
  exists s'. split; [exact E'|]. apply (H (mkDefine (B "db") ERROR [mkAppenderDefine 1 (B "%m%n") (B "/db.log"); mkAppenderDefine 2 [] []])).
  - by left.
  - apply not_elem_of_nil.
Defined.
