(* ===== verification/Env.v ===== *)
(** * Options and paths of the process ([env.h], [env.cc])

    The command line as keys with values, the help texts, and the paths
    relative to the program.  The link to the executable and the environment of the
    process are arguments. *)
From S2P Require Import Prelude StdString OrderedSet OrderedMap.

Local Open Scope Z_scope.

(* sylar/env.h:109-119, Env *)
Record Env := mkEnv {
  m_args : list (bytes * bytes);
  m_helps : list (bytes * bytes);
  m_program : bytes;
  m_exe : bytes;
  m_cwd : bytes
}.

Definition new_Env : Env := mkEnv [] [] [] [] [].
Definition set_args a s := mkEnv a (m_helps s) (m_program s) (m_exe s) (m_cwd s).
Definition set_helps h s := mkEnv (m_args s) h (m_program s) (m_exe s) (m_cwd s).

(* sylar/env.cc:64-67, Env::add *)
Definition add (key val : bytes) (s : Env) : Env := set_args (map_assign bytes_lt key val (m_args s)) s.

(* sylar/env.cc:69-73, Env::has *)
Definition has (key : bytes) (s : Env) : bool := match map_find bytes_lt key (m_args s) with Some _ => true | None => false end.

(* sylar/env.cc:75-78, Env::del *)
Definition del (key : bytes) (s : Env) : Env := set_args (map_erase bytes_lt key (m_args s)) s.

(* sylar/env.cc:80-84, Env::get *)
Definition get (key default_value : bytes) (s : Env) : bytes :=
  match map_find bytes_lt key (m_args s) with Some v => v | None => default_value end.

(** The arguments after the program; the second component is the result.  An
    argument is a C string, whose first character may be its terminator. *)
(* sylar/env.cc:34-61, Env::init *)
Fixpoint parse_args (argv : list bytes) (now_key : option bytes) (s : Env) : Env * bool :=
  match argv with
  | [] => (match now_key with Some k => add k [] s | None => s end, true)
  | a :: rest =>
      match a with
      | c :: key =>
          if bool_decide (c = "-"%char) then
            match key with
            | [] => (s, false)
            | _ => parse_args rest (Some key) (match now_key with Some k => add k [] s | None => s end)
            end
          else match now_key with Some k => parse_args rest None (add k a s) | None => (s, false) end
      | [] => match now_key with Some k => parse_args rest None (add k a s) | None => (s, false) end
      end
  end.

(** [link]: what the link to the executable says, or nothing when it cannot
    be read.  [path] has 1024 bytes and is not terminated when the link fills
    it. *)
(* sylar/env.cc:21-62, Env::init *)
Definition init (link : bytes) (argv : list bytes) (s : Env) : outcome (Env * bool) :=
  if (1024 <=? length link)%nat then Crash out_of_bounds
  else
    let exe := link in
    cwd ← substr exe 0 (rfind_char exe "/"%char);
    match argv with
    | [] => Crash null_deref
    | program :: rest => Ret (parse_args rest None (mkEnv (m_args s) (m_helps s) program exe (cwd ++ B "/")))
    end.

(* sylar/env.cc:92-102, Env::removeHelp *)
Fixpoint erase_help (key : bytes) (l : list (bytes * bytes)) : list (bytes * bytes) :=
  match l with [] => [] | it :: r => if bool_decide (it.1 = key) then erase_help key r else it :: erase_help key r end.
Definition removeHelp (key : bytes) (s : Env) : Env := set_helps (erase_help key (m_helps s)) s.

(* sylar/env.cc:86-90, Env::addHelp *)
Definition addHelp (key desc : bytes) (s : Env) : Env := let s := removeHelp key s in set_helps (m_helps s ++ [(key, desc)]) s.

(** [setw(5)] pads the dash. *)
(* sylar/env.cc:104-110, Env::printHelp *)
Definition printHelp (s : Env) : bytes :=
  B "Usage: " ++ m_program s ++ B " [options]" ++ [char_of 10]
  ++ mjoin ((λ i, B "    -" ++ i.1 ++ B " : " ++ i.2 ++ [char_of 10]) <$> m_helps s).

(** The functions of the system. *)
(* sylar/env.cc:112-114, Env::setEnv *)
Definition setEnv (setenv : bytes → bytes → Z → Z) (key val : bytes) : bool := setenv (c_str key) (c_str val) 1 =? 0.
(* sylar/env.cc:116-122, Env::getEnv *)
Definition getEnv (getenv : bytes → option bytes) (key default_value : bytes) : bytes :=
  match getenv (c_str key) with None => default_value | Some v => v end.

(* sylar/env.cc:124-132, Env::getAbsolutePath *)
Definition getAbsolutePath (path : bytes) (s : Env) : bytes :=
  match path with
  | [] => B "/"
  | c :: _ => if bool_decide (c = "/"%char) then path else m_cwd s ++ path
  end.

(** [work_path]: the variable [server.work_path] as the first call finds it;
    a null pointer when nobody has created it by then. *)
(* sylar/env.cc:134-144, Env::getAbsoluteWorkPath *)
Definition getAbsoluteWorkPath (work_path : option bytes) (path : bytes) : outcome bytes :=
  match path with
  | [] => Ret (B "/")
  | c :: _ => if bool_decide (c = "/"%char) then Ret path
              else match work_path with Some w => Ret (w ++ B "/" ++ path) | None => Crash null_deref end
  end.

(* sylar/env.cc:146-148, Env::getConfigPath *)
Definition getConfigPath (s : Env) : bytes := getAbsolutePath (get (B "c") (B "conf") s) s.

(* ------------------------------------------------------------------ *)
(** ** The command line *)

(** An option with or without a value. *)
Abbreviation option_arg := (bytes * option bytes)%type.

Definition print_option (o : option_arg) : list bytes :=
  ("-"%char :: o.1) :: match o.2 with Some v => [v] | None => [] end.

(** A key is not empty, a value does not start with a dash. *)
Definition option_ok (o : option_arg) : Prop := o.1 ≠ [] ∧ match o.2 with Some v => head v ≠ Some "-"%char | None => True end.

Definition add_options (l : list option_arg) (s : Env) : Env :=
  fold_left (λ s o, add o.1 (default [] o.2) s) l s.

(** What is refused: a lone dash, or a value without a key. *)
Definition refused (after_value : bool) (a : bytes) : Prop := a = B "-" ∨ (after_value = true ∧ head a ≠ Some "-"%char).

(** The last option took its value, or there is none. *)
Definition takes_value (l : list option_arg) : bool := match last l with Some (_, None) => false | _ => true end.

#[export] Instance bytes_lt_self : OrderedBy bytes_lt id bytes_lt.
Proof. done. Qed.

Lemma add_options_snoc l o s : add_options (l ++ [o]) s = add o.1 (default [] o.2) (add_options l s).
Proof. unfold add_options. by rewrite fold_left_app. Qed.

(** The loop, with a key that waits for its value. *)
Definition pending (now_key : option bytes) : list option_arg := match now_key with Some k => [(k, None)] | None => [] end.

Lemma parse_args_options l now_key s : Forall option_ok l →
  parse_args (mjoin (print_option <$> l)) now_key s = (add_options (pending now_key ++ l) s, true).
Proof.
  intros Hl. revert now_key s. induction Hl as [|[k v] l [Hk Hv] Hl IH]; intros now_key s.
  { by destruct now_key. }
  cbn [fmap list_fmap mjoin list_join print_option app fst snd parse_args] in *. rewrite bool_decide_eq_true_2 by done.
  destruct k as [|c k]; [done|]. set (s1 := match now_key with Some k => add k [] s | None => s end).
  assert (add_options (pending now_key ++ (c :: k, v) :: l) s = add_options ((c :: k, v) :: l) s1) as -> by (by destruct now_key).
  destruct v as [v|]; cbn [app]; [|apply (IH (Some (c :: k)))].
  destruct v as [|d v]; cbn [parse_args]; [apply (IH None)|]. rewrite bool_decide_eq_false_2; [apply (IH None)|].
  intros ->. by apply Hv.
Qed.

Lemma parse_args_refused l now_key s a rest : Forall option_ok l → refused (takes_value (pending now_key ++ l)) a →
  (parse_args (mjoin (print_option <$> l) ++ a :: rest) now_key s).2 = false.
Proof.
  intros Hl. revert now_key s. induction Hl as [|[k v] l [Hk Hv] Hl IH]; intros now_key s Ha.
  - cbn [fmap list_fmap mjoin list_join app]. rewrite app_nil_r in Ha. destruct Ha as [->|[Ht Hh]]; [done|].
    destruct now_key as [n|]; [done|]. destruct a as [|c a]; [done|]. cbn. rewrite bool_decide_eq_false_2; [done|]. by intros ->.
  - assert (takes_value (pending now_key ++ (k, v) :: l) = takes_value (pending (match v with Some _ => None | None => Some k end) ++ l)) as E.
    { unfold takes_value. rewrite last_app_cons. destruct v; cbn [pending app]; [|done]. rewrite last_cons. by destruct (last l). }
    rewrite E in Ha. cbn [fmap list_fmap mjoin list_join print_option app fst snd parse_args] in *. rewrite bool_decide_eq_true_2 by done.
    destruct k as [|c k]; [done|]. destruct v as [v|]; cbn [app]; [|by apply (IH (Some (c :: k)))].
    destruct v as [|d v]; cbn [parse_args]; [by apply (IH None)|]. rewrite bool_decide_eq_false_2; [by apply (IH None)|].
    intros ->. by apply Hv.
Qed.

(** Every command line is options up to the first argument that is refused. *)
Lemma args_cases args : (∃ l, Forall option_ok l ∧ args = mjoin (print_option <$> l)) ∨
  ∃ l a rest, Forall option_ok l ∧ refused (takes_value l) a ∧ args = mjoin (print_option <$> l) ++ a :: rest.
Proof.
  induction args as [|a args IH] using rev_ind; [left; by exists []|].
  destruct IH as [(l & Hl & ->)|(l & b & rest & Hl & Hb & ->)].
  2:{ right. exists l, b, (rest ++ [a]). by rewrite <- (assoc_L (++)). }
  destruct (decide (head a = Some "-"%char)) as [Hd|Hd].
  - destruct a as [|c k]; [done|]. injection Hd as ->. destruct k as [|c k].
    { right. exists l, (B "-"), []. split; [done|]. split; [by left|done]. }
    left. exists (l ++ [(c :: k, None)]). split; [apply Forall_app; repeat constructor; done|].
    by rewrite fmap_app, join_app.
  - destruct (takes_value l) eqn:Et; [right; exists l, a, []; split; [done|]; split; [right; by rewrite Et|done]|].
    unfold takes_value in Et. destruct l as [|[k v] l _] using rev_ind; [done|]. rewrite last_snoc in Et. destruct v; [done|].
    apply Forall_app in Hl as [Hl [Hk _]%Forall_cons]. left. exists (l ++ [(k, Some a)]). split.
    + apply Forall_app. split; [done|]. repeat constructor; [by apply Hk|done].
    + rewrite !fmap_app, !join_app. cbn. by rewrite <- (assoc_L (++)).
Qed.

(** The command line.  It is accepted exactly when it is a sequence of
    options, each a dash and a key that is not empty, with at most one value after it that
    does not start with a dash; then every key has the last value given
    with it, or the empty text when none was, and keys not given keep
    what they had.  Otherwise it is refused: at a lone dash or at a value that follows no key. *)
Theorem command_line (args : list bytes) (s : Env) (Hs : map_sorted id bytes_lt (m_args s)) :
  (∀ l, Forall option_ok l → args = mjoin (print_option <$> l) →
     let r := parse_args args None s in
     r.2 = true ∧ map_sorted id bytes_lt (m_args r.1) ∧
     ∀ k d, get k d r.1 = match last (filter (λ o : option_arg, o.1 = k) l) with
                          | Some o => default [] o.2 | None => get k d s end) ∧
  ((parse_args args None s).2 = true ↔ ∃ l, Forall option_ok l ∧ args = mjoin (print_option <$> l)).
Proof.
  split.
  - intros l Hl -> r. unfold r. rewrite (parse_args_options l None s Hl). cbn [fst snd pending app]. clear r.
    split; [done|]. induction l as [|o l IH] using rev_ind; [done|].
    apply Forall_app in Hl as [Hl _]. destruct (IH Hl) as [Hsort Hget]. rewrite add_options_snoc.
    split; [by apply (put_sorted bytes_lt id bytes_lt)|]. intros k d. unfold get, add in *. cbn [m_args set_args].
    rewrite (find_assign bytes_lt id bytes_lt) by done. unfold id. rewrite filter_app, filter_cons, filter_nil.
    destruct (decide (k = o.1)) as [->|Hne].
    + rewrite decide_True by done. by rewrite last_snoc.
    + rewrite decide_False by congruence. rewrite app_nil_r. apply Hget.
  - destruct (args_cases args) as [(l & Hl & ->)|(l & a & rest & Hl & Ha & ->)].
    + rewrite (parse_args_options l None s Hl). split; [|done]. intros _. by exists l.
    + pose proof (parse_args_refused l None s a rest Hl Ha) as E. rewrite E. split; [done|].
      intros (l' & Hl' & El). rewrite El in E. by rewrite (parse_args_options l' None s Hl') in E.
Qed.

Definition sample_args : list bytes := [B "-c"; B "/etc/x"; B "-d"; B "-c"; B "y"; B "-p"].
Lemma command_line_witness : map_sorted id bytes_lt (m_args new_Env) ∧
  (parse_args sample_args None new_Env).2 = true ∧ get (B "c") [] (parse_args sample_args None new_Env).1 = B "y".
Proof.
  assert (map_sorted id bytes_lt (m_args new_Env)) as Hs by constructor.
  split; [exact Hs|].
  destruct (proj1 (command_line sample_args new_Env Hs)
    [(B "c", Some (B "/etc/x")); (B "d", None); (B "c", Some (B "y")); (B "p", None)]) as (H1 & _ & H2); [by repeat constructor|reflexivity|].
  split; [exact H1|]. exact (H2 (B "c") []).
Defined.
