(* ===== verification/Socket.v ===== *)
(** * Sockets ([socket.h], [socket.cc])

    Sockets are shared objects on a heap; the descriptor contexts are the
    manager of [FdManager], reached through the hooked calls of [Hook].  The
    calls of the system are parameters.  One that waits may come back with
    every part of the state changed by other fibers; how it waits is in
    [Hook]. *)
From S2P Require Import Prelude StdString Endian.
From S2P Require FdManager Hook.
From S2P Require Import Address.
From stdpp Require Import gmap.

Local Open Scope Z_scope.

(** Constants of the system headers. *)
Definition SOCK_STREAM : Z := 1.
Definition SOCK_DGRAM : Z := 2.
Definition IPPROTO_TCP : Z := 6.
Definition TCP_NODELAY : Z := 1.
Definition SO_REUSEADDR : Z := 2.
Definition SO_ERROR : Z := 4.

(* sylar/socket.h:377-391, Socket *)
Record Socket := mkSocket {
  m_sock : Z;
  m_family : Z;
  m_type : Z;
  m_protocol : Z;
  m_isConnected : bool;
  m_localAddress : option Address;
  m_remoteAddress : option Address
}.

(* sylar/socket.cc:59-65, Socket::Socket *)
Definition new_Socket (family type protocol : Z) : Socket := mkSocket (-1) family type protocol false None None.

Definition set_sock v x := mkSocket v (m_family x) (m_type x) (m_protocol x) (m_isConnected x) (m_localAddress x) (m_remoteAddress x).
Definition set_connected v x := mkSocket (m_sock x) (m_family x) (m_type x) (m_protocol x) v (m_localAddress x) (m_remoteAddress x).
Definition set_local v x := mkSocket (m_sock x) (m_family x) (m_type x) (m_protocol x) (m_isConnected x) v (m_remoteAddress x).
Definition set_remote v x := mkSocket (m_sock x) (m_family x) (m_type x) (m_protocol x) (m_isConnected x) (m_localAddress x) v.

(* sylar/socket.cc:401-403, Socket::isValid *)
Definition isValid (x : Socket) : bool := negb (m_sock x =? -1).

(** The program's state as far as sockets go: the objects, and the descriptor
    contexts with the kernel below them. *)
Record net {K : Type} := mkNet { sockets : gmap nat Socket; next : nat; fds : @FdManager.FdManager K }.
Arguments net K : clear implicits.
Arguments mkNet {K} sockets next fds.

Section socket.
Context (host : endian) {K : Type}.
Abbreviation net := (net K).

(** The kernel's calls: those [FdManager] and [Hook] use, names of sockets as
    memory, removal of a path, and the cancelling of waits. *)
Context (fstat : Z → K → option Z) (fcntl_f : Z → Z → option Z → K → Z * K).
Context (socket_f : Z → Z → Z → K → Z * K) (setsockopt_f : Z → Z → Z → Z * Z → K → Z * K) (getsockopt_f : Z → Z → Z → K → option Z * K).
Context (bind_f : Z → bytes → Z → K → Z * K) (listen_f : Z → Z → K → Z * K) (close_f : Z → K → Z * K).
Context (getpeername_f getsockname_f : Z → Z → K → option bytes * K).
Context (unlink_c : bytes → K → unit * K) (cancel_c : Z → option Z → K → bool * K) (errno : K → Z).
(** The calls that wait: when they return, other fibers may have used the
    same sockets. *)
Context (connect_c : Z → bytes → Z → option Z → net → Z * net) (accept_c : Z → net → Z * net).
Context (send_c : Z → list bytes → Z → option (bytes * Z) → net → Z * net) (recv_c : Z → list Z → Z → option Z → net → (Z * bytes) * net).
Context (hook_enable : bool).

Definition set_sockets (f : gmap nat Socket → gmap nat Socket) (n : net) : net := mkNet (f (sockets n)) (next n) (fds n).

(** An operation on the descriptor contexts, and a call of the kernel. *)
Definition on_fds {A} (m : stE (@FdManager.FdManager K) A) : stE net A :=
  λ n, let '(r, s) := m (fds n) in (r, mkNet (sockets n) (next n) s).
Definition system {A} (f : K → A * K) : stE net A := on_fds (Hook.system f).
Definition wait {A} (f : net → A * net) : stE net A := λ n, let '(a, n') := f n in (Ret a, n').

Definition socket_at (p : nat) : stE net Socket :=
  query (λ n, match sockets n !! p with Some x => Ret x | None => Crash dangling end).
Definition upd (p : nat) (f : Socket → Socket) : stE net unit := x ← socket_at p; modify (set_sockets <[p := f x]>).
Definition make (x : Socket) : stE net nat :=
  λ n, (Ret (next n), mkNet (<[next n := x]> (sockets n)) (S (next n)) (fds n)).

(** ** Options *)

Definition setsockopt := Hook.setsockopt fstat fcntl_f setsockopt_f hook_enable.

(** An option that is an integer is its value with 0. *)
(* sylar/socket.cc:112-120, Socket::setOption *)
Definition setOption (p : nat) (level option : Z) (result : Z * Z) : stE net bool :=
  x ← socket_at p;
  r ← on_fds (setsockopt (m_sock x) level option result);
  mret (r =? 0).

(* sylar/socket.cc:101-110, Socket::getOption *)
Definition getOption (p : nat) (level option : Z) : stE net (Datatypes.option Z) :=
  x ← socket_at p; system (getsockopt_f (m_sock x) level option).

(** [int(v / 1000)], [int(v % 1000 * 1000)]. *)
Definition timeval_of (v : Z) : Z * Z := (i32 (Z.quot v 1000), i32 (Z.rem v 1000 * 1000)).

(** [-1] without a context. *)
Definition get_timeout (p : nat) (type : Z) : stE net Z :=
  x ← socket_at p;
  ctx ← on_fds (Hook.lookup fstat fcntl_f (m_sock x));
  mret (match ctx with Some (_, c) => i64 (FdManager.getTimeout type c) | None => -1 end).

(* sylar/socket.cc:71-77, Socket::getSendTimeout *)
Definition getSendTimeout (p : nat) : stE net Z := get_timeout p FdManager.SO_SNDTIMEO.
(* sylar/socket.cc:86-92, Socket::getRecvTimeout *)
Definition getRecvTimeout (p : nat) : stE net Z := get_timeout p FdManager.SO_RCVTIMEO.
(* sylar/socket.cc:79-84, Socket::setSendTimeout *)
Definition setSendTimeout (p : nat) (v : Z) : stE net unit := _ ← setOption p Hook.SOL_SOCKET FdManager.SO_SNDTIMEO (timeval_of v); mret tt.
(* sylar/socket.cc:94-99, Socket::setRecvTimeout *)
Definition setRecvTimeout (p : nat) (v : Z) : stE net unit := _ ← setOption p Hook.SOL_SOCKET FdManager.SO_RCVTIMEO (timeval_of v); mret tt.

(* sylar/socket.cc:405-412, Socket::getError *)
Definition getError (p : nat) : stE net Z :=
  e ← getOption p Hook.SOL_SOCKET SO_ERROR;
  match e with Some e => mret e | None => query (λ n, Ret (errno (FdManager.kern (fds n)))) end.

(* sylar/socket.cc:452-458, Socket::initSock *)
Definition initSock (p : nat) : stE net unit :=
  x ← socket_at p;
  _ ← setOption p Hook.SOL_SOCKET SO_REUSEADDR (1, 0);
  if m_type x =? SOCK_STREAM then _ ← setOption p IPPROTO_TCP TCP_NODELAY (1, 0); mret tt else mret tt.

(* sylar/socket.cc:460-469, Socket::newSock *)
Definition newSock (p : nat) : stE net unit :=
  x ← socket_at p;
  fd ← on_fds (Hook.socket fstat fcntl_f socket_f hook_enable (m_family x) (m_type x) (m_protocol x));
  _ ← upd p (set_sock fd);
  if negb (fd =? -1) then initSock p else mret tt.

(** ** Addresses *)

(** The object the name is written to, and its memory afterwards. *)
Definition blank (family : Z) : Address :=
  if family =? AF_INET then IPv4Address (new_IPv4Address host 0 0)
  else if family =? AF_INET6 then IPv6Address new_IPv6Address
  else if family =? AF_UNIX then let '(u, l) := new_UnixAddress_0 in UnixAddress u l
  else UnknownAddress (mkSockaddr family (zeros 14)).
Definition overlay (old mem : bytes) : bytes := take (length old) mem ++ drop (length mem) old.
Definition named (a : Address) (name : bytes) : Address :=
  let mem := overlay (getAddr host a) name in
  match a with
  | IPv4Address _ => IPv4Address (in_of host mem)
  | IPv6Address _ => IPv6Address (in6_of host mem)
  | UnixAddress _ _ => UnixAddress (mkUn (of_mem host (take 2 mem)) (slice 2 PATH_SIZE mem)) (Z.of_nat (length name))
  | UnknownAddress _ => UnknownAddress (sockaddr_of host mem)
  end.

(* sylar/socket.cc:333-365, Socket::getRemoteAddress *)
Definition getRemoteAddress (p : nat) : stE net Address :=
  x ← socket_at p;
  match m_remoteAddress x with
  | Some a => mret a
  | None =>
      let result := blank (m_family x) in
      name ← system (getpeername_f (m_sock x) (getAddrLen result));
      match name with
      | None => mret (UnknownAddress (mkSockaddr (m_family x) (zeros 14)))
      | Some name => let a := named result name in _ ← upd p (set_remote (Some a)); mret a
      end
  end.

(* sylar/socket.cc:367-399, Socket::getLocalAddress *)
Definition getLocalAddress (p : nat) : stE net Address :=
  x ← socket_at p;
  match m_localAddress x with
  | Some a => mret a
  | None =>
      let result := blank (m_family x) in
      name ← system (getsockname_f (m_sock x) (getAddrLen result));
      match name with
      | None => mret (UnknownAddress (mkSockaddr (m_family x) (zeros 14)))
      | Some name => let a := named result name in _ ← upd p (set_local (Some a)); mret a
      end
  end.

(** ** Creation *)

(* sylar/socket.cc:13-16, Socket::CreateTCP *)
Definition CreateTCP (address : Address) : stE net nat := make (new_Socket (getFamily host address) SOCK_STREAM 0).
(** Connected from the start, also when there is no descriptor. *)
Definition create_udp (family : Z) : stE net nat :=
  p ← make (new_Socket family SOCK_DGRAM 0); _ ← newSock p; _ ← upd p (set_connected true); mret p.
(* sylar/socket.cc:18-23, Socket::CreateUDP *)
Definition CreateUDP (address : Address) : stE net nat := create_udp (getFamily host address).
(* sylar/socket.cc:25-28, Socket::CreateTCPSocket *)
Definition CreateTCPSocket : stE net nat := make (new_Socket AF_INET SOCK_STREAM 0).
(* sylar/socket.cc:30-35, Socket::CreateUDPSocket *)
Definition CreateUDPSocket : stE net nat := create_udp AF_INET.
(* sylar/socket.cc:37-40, Socket::CreateTCPSocket6 *)
Definition CreateTCPSocket6 : stE net nat := make (new_Socket AF_INET6 SOCK_STREAM 0).
(* sylar/socket.cc:42-47, Socket::CreateUDPSocket6 *)
Definition CreateUDPSocket6 : stE net nat := create_udp AF_INET6.
(* sylar/socket.cc:49-52, Socket::CreateUnixTCPSocket *)
Definition CreateUnixTCPSocket : stE net nat := make (new_Socket AF_UNIX SOCK_STREAM 0).
(* sylar/socket.cc:54-57, Socket::CreateUnixUDPSocket *)
Definition CreateUnixUDPSocket : stE net nat := make (new_Socket AF_UNIX SOCK_DGRAM 0).

(** The hooked [close]: what waits is cancelled, the context goes. *)
Definition hooked_close (fd : Z) : stE net Z :=
  if negb hook_enable then system (close_f fd)
  else
    ctx ← on_fds (Hook.lookup fstat fcntl_f fd);
    _ ← match ctx with
        | Some _ => _ ← system (cancel_c fd None); on_fds (FdManager.del fd)
        | None => mret tt
        end;
    system (close_f fd).

(** The result is [true] only when there was nothing to close. *)
(* sylar/socket.cc:244-254, Socket::close *)
Definition close (p : nat) : stE net bool :=
  x ← socket_at p;
  if negb (m_isConnected x) && (m_sock x =? -1) then mret true
  else
    _ ← upd p (set_connected false);
    _ ← (if negb (m_sock x =? -1) then _ ← hooked_close (m_sock x); upd p (set_sock (-1)) else mret tt);
    mret false.

(** The last pointer to a socket goes. *)
(* sylar/socket.cc:67-69, Socket::~Socket *)
Definition destroy (p : nat) : stE net unit := _ ← close p; modify (set_sockets (delete p)).

(** ** Connections *)

(* sylar/socket.cc:136-147, Socket::init *)
Definition init (p : nat) (sock : Z) : stE net bool :=
  ctx ← on_fds (Hook.lookup fstat fcntl_f sock);
  if match ctx with Some (_, c) => FdManager.m_isSocket c && negb (FdManager.m_isClosed c) | None => false end then
    _ ← upd p (λ x, set_connected true (set_sock sock x));
    _ ← initSock p;
    _ ← getLocalAddress p;
    _ ← getRemoteAddress p;
    mret true
  else mret false.

(* sylar/socket.cc:122-134, Socket::accept *)
Definition accept (p : nat) : stE net (option nat) :=
  x ← socket_at p;
  sock ← make (new_Socket (m_family x) (m_type x) (m_protocol x));
  fd ← wait (accept_c (m_sock x));
  newsock ← on_fds (Hook.accept_done fstat fcntl_f fd);
  if newsock =? -1 then _ ← destroy sock; mret None
  else
    r ← init sock newsock;
    if (r : bool) then mret (Some sock) else _ ← destroy sock; mret None.

(** [None]: the time-out of the configuration. *)
(* sylar/socket.cc:193-229, Socket::connect *)
Definition connect (p : nat) (addr : Address) (timeout_ms : option Z) : stE net bool :=
  _ ← upd p (set_remote (Some addr));
  x ← socket_at p;
  _ ← (if isValid x then mret tt else newSock p);
  x ← socket_at p;
  if negb (isValid x) then mret false
  else if negb (getFamily host addr =? m_family x) then mret false
  else
    r ← wait (connect_c (m_sock x) (getAddr host addr) (getAddrLen addr) timeout_ms);
    if negb (r =? 0) then _ ← close p; mret false
    else
      _ ← upd p (set_connected true);
      _ ← getRemoteAddress p;
      _ ← getLocalAddress p;
      mret true.

(* sylar/socket.cc:184-191, Socket::reconnect *)
Definition reconnect (p : nat) (timeout_ms : option Z) : stE net bool :=
  x ← socket_at p;
  match m_remoteAddress x with
  | None => mret false
  | Some a => _ ← upd p (set_local None); connect p a timeout_ms
  end.

(* sylar/socket.cc:149-182, Socket::bind *)
Definition bind (p : nat) (addr : Address) : stE net bool :=
  _ ← upd p (set_local (Some addr));
  x ← socket_at p;
  _ ← (if isValid x then mret tt else newSock p);
  x ← socket_at p;
  if negb (isValid x) then mret false
  else if negb (getFamily host addr =? m_family x) then mret false
  else
    served ← match addr with
             | UnixAddress u n =>
                 sock ← CreateUnixTCPSocket;
                 r ← connect sock addr None;
                 _ ← (if (r : bool) then mret tt else path ← query (λ _, getPath u n); system (unlink_c path));
                 _ ← destroy sock;
                 mret r
             | _ => mret false
             end;
    if (served : bool) then mret false
    else
      x ← socket_at p;
      r ← system (bind_f (m_sock x) (getAddr host addr) (getAddrLen addr));
      if negb (r =? 0) then mret false else _ ← getLocalAddress p; mret true.

(* sylar/socket.cc:231-242, Socket::listen *)
Definition listen (p : nat) (backlog : Z) : stE net bool :=
  x ← socket_at p;
  if negb (isValid x) then mret false
  else r ← system (listen_f (m_sock x) backlog); mret (r =? 0).

(** ** Data *)

Definition when_connected {A} (p : nat) (a : A) (f : Z → stE net A) : stE net A :=
  x ← socket_at p; if m_isConnected x then f (m_sock x) else mret a.

(* sylar/socket.cc:256-261, Socket::send *)
Definition send (p : nat) (buffer : bytes) (flags : Z) : stE net Z :=
  when_connected p (-1) (λ fd, r ← wait (send_c fd [buffer] flags None); mret (i32 r)).
(* sylar/socket.cc:263-272, Socket::send *)
Definition send_iov (p : nat) (buffers : list bytes) (flags : Z) : stE net Z :=
  when_connected p (-1) (λ fd, r ← wait (send_c fd buffers flags None); mret (i32 r)).
(* sylar/socket.cc:274-279, Socket::sendTo *)
Definition sendTo (p : nat) (buffer : bytes) (to : Address) (flags : Z) : stE net Z :=
  when_connected p (-1) (λ fd, r ← wait (send_c fd [buffer] flags (Some (getAddr host to, getAddrLen to))); mret (i32 r)).
(* sylar/socket.cc:281-292, Socket::sendTo *)
Definition sendTo_iov (p : nat) (buffers : list bytes) (to : Address) (flags : Z) : stE net Z :=
  when_connected p (-1) (λ fd, r ← wait (send_c fd buffers flags (Some (getAddr host to, getAddrLen to))); mret (i32 r)).
(** With the bytes received. *)
(* sylar/socket.cc:294-299, Socket::recv *)
Definition recv (p : nat) (length flags : Z) : stE net (Z * bytes) :=
  when_connected p (-1, []) (λ fd, r ← wait (recv_c fd [length] flags None); mret (i32 r.1, r.2)).
(* sylar/socket.cc:301-310, Socket::recv *)
Definition recv_iov (p : nat) (lengths : list Z) (flags : Z) : stE net (Z * bytes) :=
  when_connected p (-1, []) (λ fd, r ← wait (recv_c fd lengths flags None); mret (i32 r.1, r.2)).
(* sylar/socket.cc:312-318, Socket::recvFrom *)
Definition recvFrom (p : nat) (length : Z) (from : Address) (flags : Z) : stE net (Z * bytes) :=
  when_connected p (-1, []) (λ fd, r ← wait (recv_c fd [length] flags (Some (getAddrLen from))); mret (i32 r.1, r.2)).
(* sylar/socket.cc:320-331, Socket::recvFrom *)
Definition recvFrom_iov (p : nat) (lengths : list Z) (from : Address) (flags : Z) : stE net (Z * bytes) :=
  when_connected p (-1, []) (λ fd, r ← wait (recv_c fd lengths flags (Some (getAddrLen from))); mret (i32 r.1, r.2)).

(** ** Waiting calls *)

Definition READ_EVENT : Z := 1.
Definition WRITE_EVENT : Z := 4.
(* sylar/socket.cc:436-438, Socket::cancelRead *)
Definition cancelRead (p : nat) : stE net bool := x ← socket_at p; system (cancel_c (m_sock x) (Some READ_EVENT)).
(* sylar/socket.cc:440-442, Socket::cancelWrite *)
Definition cancelWrite (p : nat) : stE net bool := x ← socket_at p; system (cancel_c (m_sock x) (Some WRITE_EVENT)).
(* sylar/socket.cc:444-446, Socket::cancelAccept *)
Definition cancelAccept (p : nat) : stE net bool := x ← socket_at p; system (cancel_c (m_sock x) (Some READ_EVENT)).
(* sylar/socket.cc:448-450, Socket::cancelAll *)
Definition cancelAll (p : nat) : stE net bool := x ← socket_at p; system (cancel_c (m_sock x) None).

Definition dump_address (name : bytes) (a : option Address) : outcome bytes :=
  match a with None => Ret [] | Some a => t ← Address.toString host a; Ret (B " " ++ name ++ B "=" ++ t) end.

(* sylar/socket.cc:414-428, Socket::dump *)
Definition dump (p : nat) : stE net bytes :=
  x ← socket_at p;
  l ← query (λ _, dump_address (B "local_address") (m_localAddress x));
  r ← query (λ _, dump_address (B "remote_address") (m_remoteAddress x));
  mret (B "[Socket sock=" ++ to_string (m_sock x) ++ B " is_connected=" ++ (if m_isConnected x then B "1" else B "0")
        ++ B " family=" ++ to_string (m_family x) ++ B " type=" ++ to_string (m_type x)
        ++ B " protocol=" ++ to_string (m_protocol x) ++ l ++ r ++ B "]").
End socket.
