(* ===== verification/SocketTheorems.v ===== *)
(** * What sockets own

    In every history of the operations of [Socket], with other fibers at
    work during the calls that wait, a socket's descriptor is open and no
    other socket's. *)
From S2P Require Import Prelude StdString Endian.
From S2P Require FdManager Hook.
From S2P Require Import Address Socket.
From stdpp Require Import gmap.

Local Open Scope Z_scope.

(** The operations a program may call, by the socket they are called on. *)
Inductive op :=
  | OpCreateTCP (a : Address) | OpCreateUDP (a : Address) | OpCreateTCPSocket | OpCreateUDPSocket
  | OpCreateTCPSocket6 | OpCreateUDPSocket6 | OpCreateUnixTCPSocket | OpCreateUnixUDPSocket
  | OpAccept (p : nat) | OpConnect (p : nat) (a : Address) (t : option Z) | OpReconnect (p : nat) (t : option Z)
  | OpBind (p : nat) (a : Address) | OpListen (p : nat) (backlog : Z) | OpClose (p : nat) | OpDestroy (p : nat)
  | OpSend (p : nat) (b : bytes) (flags : Z) | OpSendIov (p : nat) (bs : list bytes) (flags : Z)
  | OpSendTo (p : nat) (b : bytes) (to : Address) (flags : Z) | OpSendToIov (p : nat) (bs : list bytes) (to : Address) (flags : Z)
  | OpRecv (p : nat) (len flags : Z) | OpRecvIov (p : nat) (lens : list Z) (flags : Z)
  | OpRecvFrom (p : nat) (len : Z) (from : Address) (flags : Z) | OpRecvFromIov (p : nat) (lens : list Z) (from : Address) (flags : Z)
  | OpSetOption (p : nat) (level option : Z) (v : Z * Z) | OpGetOption (p : nat) (level option : Z)
  | OpSetSendTimeout (p : nat) (v : Z) | OpSetRecvTimeout (p : nat) (v : Z) | OpGetSendTimeout (p : nat) | OpGetRecvTimeout (p : nat)
  | OpGetError (p : nat) | OpGetLocal (p : nat) | OpGetRemote (p : nat) | OpDump (p : nat)
  | OpCancelRead (p : nat) | OpCancelWrite (p : nat) | OpCancelAccept (p : nat) | OpCancelAll (p : nat).

(** An operation whose state after a run is all that counts. *)
Definition forget {S A} (m : stE S A) : stE S unit := _ ← m; mret tt.

(** From a state with [I] and [P], [m] takes steps of [atomic], whatever it
    returns; when it returns a value, [Q] holds. *)
Definition triple {S A} (I : S → Prop) (atomic : S → S → Prop) (P : S → Prop) (m : stE S A) (Q : A → S → Prop) : Prop :=
  ∀ s, I s → P s → rtc atomic s (m s).2 ∧ match (m s).1 with Ret a => Q a (m s).2 | _ => True end.
Abbreviation keeps I atomic m := (triple I atomic (λ _, True) m (λ _ _, True)).

Section triples.
Context {S : Type} (I : S → Prop) (atomic : S → S → Prop) (Hinv : ∀ s s', atomic s s' → I s → I s').

Lemma atomic_invariant s s' : rtc atomic s s' → I s → I s'.
Proof. induction 1; eauto. Qed.

Lemma triple_bind {A C} P Q R (m : stE S A) (f : A → stE S C) :
  triple I atomic P m Q → (∀ a, triple I atomic (Q a) (f a) R) → triple I atomic P (m ≫= f) R.
Proof.
  intros Hm Hf s Hs HP. destruct (Hm s Hs HP) as [H1 H2]. pose proof (atomic_invariant _ _ H1 Hs) as Hs1.
  unfold mbind, stE_bind. destruct (m s) as [[a|e|c] s1]; cbn in *; [|done..].
  destruct (Hf a s1 Hs1 H2). split; [by etrans|done].
Qed.
Lemma triple_ret {A} (P : S → Prop) (a : A) (Q : A → S → Prop) : (∀ s, P s → Q a s) → triple I atomic P (mret a) Q.
Proof. intros H s Hs HP. split; [done|by apply H]. Qed.
Lemma triple_query {A} (P : S → Prop) (f : S → outcome A) (Q : A → S → Prop) :
  (∀ s a, I s → P s → f s = Ret a → Q a s) → triple I atomic P (query f) Q.
Proof. intros H s Hs HP. split; [done|]. cbn. destruct (f s) eqn:E; [by apply H|done..]. Qed.
Lemma triple_conseq {A} (P P' : S → Prop) (m : stE S A) (Q Q' : A → S → Prop) :
  triple I atomic P' m Q' → (∀ s, P s → P' s) → (∀ a s, Q' a s → Q a s) → triple I atomic P m Q.
Proof. intros H H1 H2 s Hs HP. destruct (H s Hs (H1 s HP)) as [? H3]. split; [done|]. destruct (m s).1; auto. Qed.
Lemma keeps_net_bind {A C} (m : stE S A) (f : A → stE S C) : keeps I atomic m → (∀ a, keeps I atomic (f a)) → keeps I atomic (m ≫= f).
Proof. apply triple_bind. Qed.
Lemma keeps_net_ret {A} (a : A) : keeps I atomic (mret a).
Proof. by apply triple_ret. Qed.
Lemma keeps_net_query {A} (f : S → outcome A) : keeps I atomic (query f).
Proof. by apply triple_query. Qed.
Lemma keeps_weaken {A} P (m : stE S A) : keeps I atomic m → triple I atomic P m (λ _ _, True).
Proof. intros H s Hs _. by apply H. Qed.
End triples.

Create HintDb keeps.

Section ownership.
Context (host : endian) {K : Type}.
Abbreviation net := (net K).
Context (fstat : Z → K → option Z) (fcntl_f : Z → Z → option Z → K → Z * K).
Context (socket_f : Z → Z → Z → K → Z * K) (setsockopt_f : Z → Z → Z → Z * Z → K → Z * K) (getsockopt_f : Z → Z → Z → K → option Z * K).
Context (bind_f : Z → bytes → Z → K → Z * K) (listen_f : Z → Z → K → Z * K) (close_f : Z → K → Z * K).
Context (getpeername_f getsockname_f : Z → Z → K → option bytes * K).
Context (unlink_c : bytes → K → unit * K) (cancel_c : Z → option Z → K → bool * K) (errno : K → Z).
Context (connect_c : Z → bytes → Z → option Z → net → Z * net) (accept_c : Z → net → Z * net).
Context (send_c : Z → list bytes → Z → option (bytes * Z) → net → Z * net) (recv_c : Z → list Z → Z → option Z → net → (Z * bytes) * net).
Context (hook_enable : bool).

Definition exec (o : op) : stE net unit :=
  let CreateUDP := CreateUDP host fstat fcntl_f socket_f setsockopt_f hook_enable in
  let accept := accept host fstat fcntl_f setsockopt_f close_f getpeername_f getsockname_f cancel_c accept_c hook_enable in
  let connect := connect host fstat fcntl_f socket_f setsockopt_f close_f getpeername_f getsockname_f cancel_c connect_c hook_enable in
  let reconnect := reconnect host fstat fcntl_f socket_f setsockopt_f close_f getpeername_f getsockname_f cancel_c connect_c hook_enable in
  let bind := bind host fstat fcntl_f socket_f setsockopt_f bind_f close_f getpeername_f getsockname_f unlink_c cancel_c connect_c hook_enable in
  let setOption := setOption fstat fcntl_f setsockopt_f hook_enable in
  match o with
  | OpCreateTCP a => forget (CreateTCP host a)
  | OpCreateUDP a => forget (CreateUDP a)
  | OpCreateTCPSocket => forget CreateTCPSocket
  | OpCreateUDPSocket => forget (CreateUDPSocket fstat fcntl_f socket_f setsockopt_f hook_enable)
  | OpCreateTCPSocket6 => forget CreateTCPSocket6
  | OpCreateUDPSocket6 => forget (CreateUDPSocket6 fstat fcntl_f socket_f setsockopt_f hook_enable)
  | OpCreateUnixTCPSocket => forget CreateUnixTCPSocket
  | OpCreateUnixUDPSocket => forget CreateUnixUDPSocket
  | OpAccept p => forget (accept p)
  | OpConnect p a t => forget (connect p a t)
  | OpReconnect p t => forget (reconnect p t)
  | OpBind p a => forget (bind p a)
  | OpListen p b => forget (listen listen_f p b)
  | OpClose p => forget (close fstat fcntl_f close_f cancel_c hook_enable p)
  | OpDestroy p => destroy fstat fcntl_f close_f cancel_c hook_enable p
  | OpSend p b f => forget (send send_c p b f)
  | OpSendIov p b f => forget (send_iov send_c p b f)
  | OpSendTo p b t f => forget (sendTo host send_c p b t f)
  | OpSendToIov p b t f => forget (sendTo_iov host send_c p b t f)
  | OpRecv p l f => forget (recv recv_c p l f)
  | OpRecvIov p l f => forget (recv_iov recv_c p l f)
  | OpRecvFrom p l a f => forget (recvFrom recv_c p l a f)
  | OpRecvFromIov p l a f => forget (recvFrom_iov recv_c p l a f)
  | OpSetOption p l o v => forget (setOption p l o v)
  | OpGetOption p l o => forget (getOption getsockopt_f p l o)
  | OpSetSendTimeout p v => forget (setSendTimeout fstat fcntl_f setsockopt_f hook_enable p v)
  | OpSetRecvTimeout p v => forget (setRecvTimeout fstat fcntl_f setsockopt_f hook_enable p v)
  | OpGetSendTimeout p => forget (getSendTimeout fstat fcntl_f p)
  | OpGetRecvTimeout p => forget (getRecvTimeout fstat fcntl_f p)
  | OpGetError p => forget (getError getsockopt_f errno p)
  | OpGetLocal p => forget (getLocalAddress host getsockname_f p)
  | OpGetRemote p => forget (getRemoteAddress host getpeername_f p)
  | OpDump p => forget (dump host p)
  | OpCancelRead p => forget (cancelRead cancel_c p)
  | OpCancelWrite p => forget (cancelWrite cancel_c p)
  | OpCancelAccept p => forget (cancelAccept cancel_c p)
  | OpCancelAll p => forget (cancelAll cancel_c p)
  end.

(** What the manual says of the calls, for the set of open descriptors: a
    new descriptor was not open. *)
Definition opens (open : K → gset Z) (r : Z * K) (k : K) : Prop :=
  (r.1 = -1 ∧ open r.2 = open k) ∨ (0 <= r.1 < 2 ^ 30 ∧ r.1 ∉ open k ∧ open r.2 = {[r.1]} ∪ open k).
Record kernel_law (open : K → gset Z) : Prop := {
  law_socket d t p k : opens open (socket_f d t p k) k;
  law_close fd k : open (close_f fd k).2 = open k ∖ {[fd]};
  law_fcntl fd c a k : open (fcntl_f fd c a k).2 = open k;
  law_setsockopt fd l o v k : open (setsockopt_f fd l o v k).2 = open k;
  law_getsockopt fd l o k : open (getsockopt_f fd l o k).2 = open k;
  law_bind fd a l k : open (bind_f fd a l k).2 = open k;
  law_listen fd b k : open (listen_f fd b k).2 = open k;
  law_getpeername fd l k : open (getpeername_f fd l k).2 = open k;
  law_getsockname fd l k : open (getsockname_f fd l k).2 = open k;
  law_unlink p k : open (unlink_c p k).2 = open k;
  law_cancel fd e k : open (cancel_c fd e k).2 = open k
}.

Context (open : K → gset Z).
Implicit Types n : net.
Abbreviation opened n := (open (FdManager.kern (fds n))).

(** An open descriptor that no socket has. *)
Definition fresh (fd : Z) n : Prop :=
  0 <= fd < 2 ^ 30 ∧ fd ∈ opened n ∧ ∀ p x, sockets n !! p = Some x → m_sock x ≠ fd.
Definition none_or_fresh (fd : Z) n : Prop := fd = -1 ∨ fresh fd n.

(** The sockets' descriptors are open and each socket's own. *)
Record owned n : Prop := {
  own_wf : FdManager.wf (fds n);
  own_next p : is_Some (sockets n !! p) → (p < next n)%nat;
  own_open p x : sockets n !! p = Some x → m_sock x ≠ -1 → 0 <= m_sock x < 2 ^ 30 ∧ m_sock x ∈ opened n;
  own_inj p q x y : sockets n !! p = Some x → sockets n !! q = Some y → m_sock x ≠ -1 → m_sock x = m_sock y → p = q
}.

(** One thing done to the state: to descriptors no socket has, or to one
    socket. *)
Inductive atomic : net → net → Prop :=
  | a_system n s : (FdManager.wf (fds n) → FdManager.wf s) →
      (∀ p x, sockets n !! p = Some x → m_sock x ∈ opened n → m_sock x ∈ open (FdManager.kern s)) →
      atomic n (mkNet (sockets n) (next n) s)
  | a_make n x : m_sock x = -1 → atomic n (mkNet (<[next n := x]> (sockets n)) (S (next n)) (fds n))
  | a_update n p x y : sockets n !! p = Some x → m_sock y = m_sock x → atomic n (set_sockets <[p := y]> n)
  | a_attach n p x y : sockets n !! p = Some x → fresh (m_sock y) n → atomic n (set_sockets <[p := y]> n)
  | a_close n p x y s : sockets n !! p = Some x → m_sock y = -1 →
      (FdManager.wf (fds n) → FdManager.wf s) → open (FdManager.kern s) = opened n ∖ {[m_sock x]} →
      atomic n (mkNet (<[p := y]> (sockets n)) (next n) s)
  | a_delete n p x : sockets n !! p = Some x → m_sock x = -1 → atomic n (set_sockets (delete p) n).

(** What other fibers do while a call waits; an accepted descriptor is
    nobody's. *)
Record wait_law : Prop := {
  law_connect fd a l t n : rtc atomic n (connect_c fd a l t n).2;
  law_send fd bs f t n : rtc atomic n (send_c fd bs f t n).2;
  law_recv fd ls f t n : rtc atomic n (recv_c fd ls f t n).2;
  law_accept fd n : owned n → rtc atomic n (accept_c fd n).2 ∧ none_or_fresh (accept_c fd n).1 (accept_c fd n).2
}.

(** ** Each step keeps the sockets' descriptors *)

Lemma owned_insert n p y s :
  owned n → FdManager.wf s → (p < next n)%nat →
  (m_sock y ≠ -1 → 0 <= m_sock y < 2 ^ 30 ∧ m_sock y ∈ open (FdManager.kern s) ∧
    ∀ q z, q ≠ p → sockets n !! q = Some z → m_sock z ≠ m_sock y) →
  (∀ q z, q ≠ p → sockets n !! q = Some z → m_sock z ≠ -1 → m_sock z ∈ open (FdManager.kern s)) →
  owned (mkNet (<[p := y]> (sockets n)) (next n) s).
Proof.
  intros [_ O2 O3 O4] Hwf Hp Hy Ho. split; cbn; [done|..].
  - intros q [<-|Hq]%lookup_insert_is_Some'; [done|by apply O2].
  - intros q z [[<- <-]|[? Hz]]%lookup_insert_Some Hn.
    + destruct (Hy Hn) as (? & ? & _). done.
    + split; [by eapply O3|by eapply Ho].
  - intros q r z w [[<- <-]|[Hpq Hz]]%lookup_insert_Some [[<- <-]|[Hpr Hw]]%lookup_insert_Some Hn E; [done|..].
    + destruct (Hy Hn) as (_ & _ & H). destruct (H r w); [done|done|]. by rewrite E.
    + rewrite E in Hn. destruct (Hy Hn) as (_ & _ & H). by destruct (H q z).
    + by eapply O4.
Qed.

Lemma atomic_owned n n' : atomic n n' → owned n → owned n'.
Proof.
  intros Ha Hn. pose proof Hn as [O1 O2 O3 O4].
  destruct Ha as [n s Hw Ho|n x Hx|n p x y Hx E|n p x y Hx (Hr & Hin & Hf)|n p x y s Hx Hy Hw Ho|n p x Hx E].
  - split; cbn; [auto|done| |done]. intros p x Hp Hne. destruct (O3 p x Hp Hne). split; [done|]. by eapply Ho.
  - assert (Hfree : sockets n !! next n = None).
    { destruct (sockets n !! next n) eqn:E; [|done]. specialize (O2 (next n) ltac:(by rewrite E)). lia. }
    split; cbn; [done|..].
    + intros q [<-|Hq]%lookup_insert_is_Some'; [lia|]. specialize (O2 q Hq). lia.
    + intros q z [[<- <-]|[_ Hz]]%lookup_insert_Some Hne; [done|by eapply O3].
    + intros q r z w [[<- <-]|[_ Hz]]%lookup_insert_Some [[<- <-]|[_ Hw]]%lookup_insert_Some Hne Ezw; [done|congruence..|by eapply O4].
  - apply owned_insert; [done|done|apply O2; by rewrite Hx|..].
    + rewrite E. intros Hne. destruct (O3 p x Hx Hne). split_and!; [lia..|done|]. intros q z Hq Hz Ez. apply Hq.
      eapply O4; [done|done| |done]. congruence.
    + intros q z _ Hz Hne. by eapply O3.
  - apply owned_insert; [done|done|apply O2; by rewrite Hx|..].
    + intros _. split_and!; [lia..|done|]. intros q z _ Hz. by eapply Hf.
    + intros q z _ Hz Hne. by eapply O3.
  - apply owned_insert; [done|auto|apply O2; by rewrite Hx|done|]. intros q z Hq Hz Hne. rewrite Ho.
    apply elem_of_difference. split; [by eapply O3|]. intros Heq%elem_of_singleton. apply Hq. by eapply O4.
  - split; cbn; [done|..].
    + intros q [_ Hq]%lookup_delete_is_Some. by apply O2.
    + intros q z [_ Hz]%lookup_delete_Some. by eapply O3.
    + intros q r z w [_ Hz]%lookup_delete_Some [_ Hw]%lookup_delete_Some. by apply O4.
Qed.

Abbreviation preserves m := (keeps owned atomic m).
Abbreviation hoare P m Q := (triple owned atomic P m Q).

(** ** The descriptor contexts *)

(** What the contexts do keeps them well formed and opens or closes
    nothing. *)
Definition same_open {A} (m : stE (@FdManager.FdManager K) A) : Prop := ∀ s,
  FdManager.wf s → FdManager.wf (m s).2 ∧ open (FdManager.kern (m s).2) = open (FdManager.kern s).

Lemma same_open_bind {A C} (m : stE (@FdManager.FdManager K) A) (f : A → stE _ C) :
  same_open m → (∀ a, same_open (f a)) → same_open (m ≫= f).
Proof.
  intros Hm Hf s Hs. destruct (Hm s Hs) as [H1 H2]. unfold mbind, stE_bind. destruct (m s) as [[a|e|c] s1]; cbn in *; [|done..].
  destruct (Hf a s1 H1) as [H3 H4]. split; [done|congruence].
Qed.
Lemma same_open_ret {A} (a : A) : same_open (mret a).
Proof. done. Qed.
Lemma same_open_system {A} (f : K → A * K) : (∀ k, open (f k).2 = open k) → same_open (Hook.system f).
Proof. intros H s Hs. unfold Hook.system. specialize (H (FdManager.kern s)). destruct (f _). cbn in *. split; [by destruct Hs|done]. Qed.
Lemma same_open_update p g : FdManager.harmless g → same_open (FdManager.update p g).
Proof.
  intros Hg s Hwf. destruct (FdManager.update_run p g s Hwf Hg) as (s' & -> & ? & _ & E & _). cbn. by rewrite E.
Qed.

(** Looking for a context changes nothing. *)
Lemma lookup_same fd s : (Hook.lookup fstat fcntl_f fd s).2 = s.
Proof.
  assert (Hg : (FdManager.get fstat fcntl_f fd false s).2 = s).
  { unfold FdManager.get, FdManager.get_check. destruct (fd =? -1); [done|].
    unfold mbind, stE_bind, get. destruct (_ <=? fd); [done|]. unfold FdManager.at_fd, query.
    destruct (fd <? 0); [done|]. destruct (FdManager.m_datas s !! Z.to_nat fd) as [p|]; [|done].
    cbn. by rewrite orb_true_r. }
  unfold Hook.lookup, mbind, stE_bind. destruct (FdManager.get _ _ _ _ _) as [[[p|]|e|c] s1]; cbn in *; subst; [|done..].
  unfold FdManager.ctx_of, query. by destruct (FdManager.objs s !! p).
Qed.
Lemma same_open_lookup fd : same_open (Hook.lookup fstat fcntl_f fd).
Proof. intros s Hs. by rewrite lookup_same. Qed.

Context (Hk : kernel_law open) (Hw : wait_law).

Lemma new_FdCtx_open fd k : open (FdManager.new_FdCtx fstat fcntl_f fd k).2 = open k.
Proof.
  unfold FdManager.new_FdCtx, FdManager.init. destruct (fstat fd k) as [mode|]; [|done].
  destruct (FdManager.S_ISSOCK mode); [|done]. pose proof (law_fcntl open Hk fd FdManager.F_GETFL (Some 0) k) as H1.
  destruct (fcntl_f fd FdManager.F_GETFL (Some 0) k) as [flags k1]. cbn in *. destruct (negb _); [|done].
  cbn. by rewrite (law_fcntl open Hk).
Qed.

Lemma same_open_get_ctx fd : 0 <= fd < 2 ^ 30 → same_open (FdManager.get fstat fcntl_f fd true).
Proof.
  intros Hfd s Hs. rewrite (FdManager.get_run fstat fcntl_f s fd true Hs Hfd). destruct (FdManager.managed s fd); [done|].
  split; [by apply FdManager.after_create_wf|]. cbn. unfold FdManager.after_create.
  pose proof (new_FdCtx_open fd (FdManager.kern s)) as H. by destruct (FdManager.new_FdCtx _ _ _ _).
Qed.

Lemma same_open_setsockopt fd l o v : same_open (Hook.setsockopt fstat fcntl_f setsockopt_f hook_enable fd l o v).
Proof.
  unfold Hook.setsockopt. apply same_open_bind; [|intros; by apply same_open_system, law_setsockopt].
  destruct (_ && _); [|apply same_open_ret]. apply same_open_bind; [apply same_open_lookup|].
  intros [[p c]|]; [|apply same_open_ret]. by apply same_open_update, FdManager.harmless_timeout.
Qed.

(** ** Lifting to the sockets *)

(** A property of the state that depends on the sockets and the open
    descriptors only. *)
Definition frame (P : net → Prop) : Prop := ∀ n s, open (FdManager.kern s) = opened n → P n → P (mkNet (sockets n) (next n) s).

Lemma frame_fresh fd : frame (fresh fd).
Proof. intros n s E (? & ? & ?). split_and!; [lia..| |done]. cbn. by rewrite E. Qed.

Lemma on_fds_hoare {A} P (m : stE _ A) : frame P → same_open m → hoare P (on_fds m) (λ _, P).
Proof.
  intros HP Hm n Hn Hp. destruct (Hm (fds n) (own_wf n Hn)) as [H1 H2]. unfold on_fds. destruct (m (fds n)) as [r s]. cbn in *.
  split; [|by destruct r; [apply HP|..]]. apply rtc_once, a_system; [done|]. intros p x _. by rewrite H2.
Qed.
Lemma on_fds_preserves {A} (m : stE _ A) : same_open m → preserves (on_fds m).
Proof. by intros; apply (on_fds_hoare (λ _, True)). Qed.
Lemma system_preserves {A} (f : K → A * K) : (∀ k, open (f k).2 = open k) → preserves (system f).
Proof. intros. by apply on_fds_preserves, same_open_system. Qed.
Lemma wait_preserves {A} (f : net → A * net) : (∀ n, rtc atomic n (f n).2) → preserves (wait f).
Proof. intros H n _ _. specialize (H n). unfold wait. by destruct (f n). Qed.

(** ** Closing *)

Lemma on_fds_run {A} (m : stE _ A) n r s : m (fds n) = (r, s) → on_fds m n = (r, mkNet (sockets n) (next n) s).
Proof. intros E. unfold on_fds. by rewrite E. Qed.

Lemma lookup_run fd s : FdManager.wf s → 0 <= fd < 2 ^ 30 → ∃ r, Hook.lookup fstat fcntl_f fd s = (Ret r, s).
Proof.
  intros Hs Hfd. unfold Hook.lookup. rewrite (stE_bind_ret _ _ s (FdManager.managed s fd) s).
  2:{ rewrite FdManager.get_run by done. by destruct (FdManager.managed s fd). }
  destruct (FdManager.managed s fd) as [p|] eqn:Em; [|by eexists].
  unfold FdManager.managed in Em. case_decide; [|done]. destruct (FdManager.m_datas s !! Z.to_nat fd) as [q|] eqn:Eq; [|done].
  cbn in Em. subst q. destruct (FdManager.wf_live s Hs _ p Eq) as (c & Hc & _).
  exists (Some (p, c)). unfold FdManager.ctx_of. rewrite (stE_bind_ret _ _ s c s); [done|]. unfold query. by rewrite Hc.
Qed.

Lemma net_system_run {A} (f : K → A * K) n : system f n = (Ret (f (FdManager.kern (fds n))).1,
  mkNet (sockets n) (next n) (FdManager.set_kern (f (FdManager.kern (fds n))).2 (fds n))).
Proof. unfold system, on_fds, Hook.system. by destruct (f _). Qed.

Abbreviation hooked_close := (hooked_close fstat fcntl_f close_f cancel_c hook_enable).
Abbreviation close := (close fstat fcntl_f close_f cancel_c hook_enable).
Abbreviation destroy := (destroy fstat fcntl_f close_f cancel_c hook_enable).

Lemma wf_set_kern k (s : @FdManager.FdManager K) : FdManager.wf s → FdManager.wf (FdManager.set_kern k s).
Proof. by intros []. Qed.

Lemma hooked_close_run fd n : FdManager.wf (fds n) → 0 <= fd < 2 ^ 30 →
  ∃ r s, hooked_close fd n = (Ret r, mkNet (sockets n) (next n) s) ∧ FdManager.wf s ∧
    open (FdManager.kern s) = opened n ∖ {[fd]}.
Proof.
  intros Hwf Hfd. unfold Socket.hooked_close. destruct hook_enable; cbn [negb].
  2:{ rewrite net_system_run. do 2 eexists. split; [done|]. split; [by apply wf_set_kern|]. apply (law_close open Hk). }
  destruct (lookup_run fd (fds n) Hwf Hfd) as [ctx Ec].
  rewrite (stE_bind_ret _ _ _ _ _ (on_fds_run _ n _ _ Ec)).
  set (n1 := mkNet (sockets n) (next n) (fds n)).
  assert (∃ s1, (match ctx with Some _ => _ ← system (cancel_c fd None); on_fds (FdManager.del fd) | None => mret tt end) n1
    = (Ret tt, mkNet (sockets n) (next n) s1) ∧ FdManager.wf s1 ∧ open (FdManager.kern s1) = opened n) as (s1 & E1 & H1 & H2).
  { destruct ctx as [[p c]|]; [|by exists (fds n)].
    rewrite (stE_bind_ret _ _ _ _ _ (net_system_run _ n1)). cbn.
    set (s := FdManager.set_kern _ (fds n)). assert (FdManager.wf s) as Hs by by apply wf_set_kern.
    destruct (FdManager.del_run s fd Hs ltac:(lia)) as (s' & E & H' & _ & Hkern & _).
    exists s'. split; [by apply (on_fds_run _ (mkNet (sockets n) (next n) s))|]. split; [done|].
    rewrite Hkern. cbn. apply (law_cancel open Hk). }
  rewrite (stE_bind_ret _ _ _ _ _ E1), net_system_run. do 2 eexists. split; [done|]. cbn.
  split; [by apply wf_set_kern|]. by rewrite (law_close open Hk), H2.
Qed.

(** A socket after it is closed. *)
Definition closed (x : Socket) : Socket := set_sock (-1) (set_connected false x).
Definition released (x : Socket) n : gset Z := if m_sock x =? -1 then opened n else opened n ∖ {[m_sock x]}.

Lemma socket_at_run p n x : sockets n !! p = Some x → socket_at p n = (Ret x, n).
Proof. intros E. unfold socket_at, query. by rewrite E. Qed.
Lemma upd_run p f n x : sockets n !! p = Some x → upd p f n = (Ret tt, set_sockets <[p := f x]> n).
Proof. intros E. unfold upd. by rewrite (stE_bind_ret _ _ _ _ _ (socket_at_run p n x E)). Qed.

Lemma close_run p n x : owned n → sockets n !! p = Some x →
  ∃ b s, close p n = (Ret b, mkNet (<[p := closed x]> (sockets n)) (next n) s) ∧ FdManager.wf s ∧
    open (FdManager.kern s) = released x n.
Proof.
  intros Hn Hx. unfold Socket.close, released. rewrite (stE_bind_ret _ _ _ _ _ (socket_at_run p n x Hx)).
  destruct (negb (m_isConnected x) && (m_sock x =? -1)) eqn:E.
  { exists true, (fds n). apply andb_true_iff in E as [E1 E2]. rewrite E2. apply Z.eqb_eq in E2. apply negb_true_iff in E1.
    split; [|split; [by apply own_wf|done]]. unfold mret, stE_ret. f_equal.
    destruct n, x; cbn in *; subst. f_equal. symmetry. by apply insert_id. }
  rewrite (stE_bind_ret _ _ _ _ _ (upd_run p _ n x Hx)).
  destruct (Z.eqb_spec (m_sock x) (-1)) as [E'|E']; cbn [negb].
  { rewrite mret_bind. exists false, (fds n). split; [|split; [by apply own_wf|done]].
    unfold mret, stE_ret, set_sockets. do 3 f_equal. destruct x; cbn in *. by subst. }
  destruct (own_open n Hn p x Hx E') as [Hfd _].
  destruct (hooked_close_run (m_sock x) (set_sockets <[p := set_connected false x]> n) (own_wf n Hn) Hfd) as (r & s & Ec & Hs & Ho).
  exists false, s. split; [|done].
  rewrite (stE_bind_ret _ _ _ tt (mkNet (<[p := closed x]> (sockets n)) (next n) s)); [done|].
  rewrite (stE_bind_ret _ _ _ _ _ Ec). cbn. erewrite upd_run by (cbn; apply lookup_insert_eq).
  unfold set_sockets; cbn. by rewrite insert_insert_eq.
Qed.

Lemma closed_atomic p n x s : owned n → sockets n !! p = Some x → FdManager.wf s → open (FdManager.kern s) = released x n →
  rtc atomic n (mkNet (<[p := closed x]> (sockets n)) (next n) s).
Proof.
  intros Hn Hx Hs Ho. unfold released in Ho. destruct (Z.eqb_spec (m_sock x) (-1)) as [E|E].
  - eapply rtc_l; [apply (a_system n s); [done|]|]. { intros q y _. by rewrite Ho. }
    apply rtc_once. by apply (a_update (mkNet (sockets n) (next n) s) p x).
  - apply rtc_once. by eapply a_close.
Qed.

Lemma close_hoare p : hoare (λ _, True) (close p) (λ _ n, ∀ x, sockets n !! p = Some x → m_sock x = -1).
Proof.
  intros n Hn _. destruct (sockets n !! p) as [x|] eqn:Hx.
  - destruct (close_run p n x Hn Hx) as (b & s & -> & Hs & Ho). cbn. split; [by eapply closed_atomic|].
    intros y. rewrite lookup_insert_eq. by intros [= <-].
  - unfold Socket.close, socket_at, query, mbind, stE_bind. by rewrite Hx.
Qed.

Lemma destroy_run p n x : owned n → sockets n !! p = Some x →
  ∃ s, destroy p n = (Ret tt, mkNet (delete p (sockets n)) (next n) s) ∧ open (FdManager.kern s) = released x n.
Proof.
  intros Hn Hx. destruct (close_run p n x Hn Hx) as (b & s & E & Hs & Ho). exists s. split; [|done].
  unfold Socket.destroy. rewrite (stE_bind_ret _ _ _ _ _ E). unfold modify, set_sockets. cbn. by rewrite delete_insert_eq.
Qed.

Lemma destroy_preserves p : preserves (destroy p).
Proof.
  intros n Hn _. destruct (sockets n !! p) as [x|] eqn:Hx.
  - destruct (close_run p n x Hn Hx) as (b & s & E & Hs & Ho). unfold Socket.destroy.
    rewrite (stE_bind_ret _ _ _ _ _ E). cbn. split; [|done].
    eapply rtc_r; [by eapply (closed_atomic p n x s)|].
    apply (a_delete (mkNet (<[p := closed x]> (sockets n)) (next n) s) p (closed x)); [|done]. apply lookup_insert_eq.
  - unfold Socket.destroy, Socket.close, socket_at, query, mbind, stE_bind. by rewrite Hx.
Qed.

(** ** Operations *)

Lemma preserves_bind {A C} (m : stE net A) (f : A → stE net C) : preserves m → (∀ a, preserves (f a)) → preserves (m ≫= f).
Proof. apply keeps_net_bind, atomic_owned. Qed.
Lemma hoare_bind {A C} P Q R (m : stE net A) (f : A → stE net C) :
  hoare P m Q → (∀ a, hoare (Q a) (f a) R) → hoare P (m ≫= f) R.
Proof. apply triple_bind, atomic_owned. Qed.

(** Goes through a program, case by case. *)
Ltac keeps := repeat first
  [ progress intros | solve [auto with keeps] | apply keeps_net_ret | apply keeps_net_query | apply preserves_bind
  | match goal with
    | |- triple _ _ _ (match ?x with _ => _ end) _ => destruct x
    | |- triple _ _ _ (let _ := _ in _) _ => cbv zeta
    end ].

Lemma socket_at_hoare P p : hoare P (socket_at p) (λ x n, P n ∧ sockets n !! p = Some x).
Proof. apply triple_query. intros n x _ HP. by destruct (sockets n !! p); intros [= <-]. Qed.
Lemma socket_at_preserves p : preserves (socket_at p).
Proof. apply keeps_net_query. Qed.

Lemma upd_preserves p f : (∀ x, m_sock (f x) = m_sock x) → preserves (upd p f).
Proof.
  intros Hf n Hn _. destruct (sockets n !! p) as [x|] eqn:Hx.
  - rewrite (upd_run p f n x Hx). split; [|done]. by eapply rtc_once, a_update.
  - unfold upd, socket_at, query, mbind, stE_bind. by rewrite Hx.
Qed.

(** A descriptor that is nobody's becomes a socket's. *)
Lemma upd_attach p f fd : (∀ x, m_sock (f x) = fd) → hoare (fresh fd) (upd p f) (λ _ _, True).
Proof.
  intros Hf n Hn Hfd. destruct (sockets n !! p) as [x|] eqn:Hx.
  - rewrite (upd_run p f n x Hx). split; [|done]. eapply rtc_once, a_attach; [done|]. by rewrite Hf.
  - unfold upd, socket_at, query, mbind, stE_bind. by rewrite Hx.
Qed.

Lemma make_hoare x : m_sock x = -1 → hoare (λ _, True) (make x) (λ p n, sockets n !! p = Some x).
Proof. intros Hx n Hn _. split; [by apply rtc_once, a_make|]. cbn. apply lookup_insert_eq. Qed.
Lemma make_preserves x : m_sock x = -1 → preserves (make x).
Proof. intros Hx. eapply triple_conseq; [by apply make_hoare|done..]. Qed.

#[local] Hint Resolve socket_at_preserves : keeps.
#[local] Hint Extern 1 (triple _ _ _ (upd _ _) _) => (by apply upd_preserves) : keeps.
#[local] Hint Extern 1 (triple _ _ _ (make _) _) => (by apply make_preserves) : keeps.
#[local] Hint Extern 1 (triple _ _ _ (system _) _) => (apply system_preserves; intros; apply Hk) : keeps.
#[local] Hint Extern 1 (triple _ _ _ (wait _) _) => (apply wait_preserves; intros; apply Hw) : keeps.
#[local] Hint Extern 1 (triple _ _ _ (on_fds _) _) =>
  (apply on_fds_preserves; first [apply same_open_lookup | apply same_open_setsockopt]) : keeps.
#[local] Hint Resolve destroy_preserves : keeps.

Lemma close_preserves p : preserves (close p).
Proof. eapply triple_conseq; [apply close_hoare|done..]. Qed.
#[local] Hint Resolve close_preserves : keeps.

Abbreviation setOption := (setOption fstat fcntl_f setsockopt_f hook_enable).
Lemma setOption_preserves p l o v : preserves (setOption p l o v).
Proof. unfold Socket.setOption. keeps. Qed.
#[local] Hint Resolve setOption_preserves : keeps.
Lemma getLocal_preserves p : preserves (getLocalAddress host getsockname_f p).
Proof. unfold getLocalAddress. keeps. Qed.
Lemma getRemote_preserves p : preserves (getRemoteAddress host getpeername_f p).
Proof. unfold getRemoteAddress. keeps. Qed.
Lemma initSock_preserves p : preserves (initSock fstat fcntl_f setsockopt_f hook_enable p).
Proof. unfold initSock. keeps. Qed.
#[local] Hint Resolve getLocal_preserves getRemote_preserves initSock_preserves : keeps.

(** A socket without a descriptor. *)
Definition bare p n : Prop := ∃ x, sockets n !! p = Some x ∧ m_sock x = -1.

Lemma socket_hoare p d t pr : hoare (bare p) (on_fds (Hook.socket fstat fcntl_f socket_f hook_enable d t pr))
  (λ fd n, none_or_fresh fd n ∧ bare p n).
Proof.
  intros n Hn Hp. destruct (socket_f d t pr (FdManager.kern (fds n))) as [fd k] eqn:E.
  pose proof (law_socket open Hk d t pr (FdManager.kern (fds n))) as Hl. unfold opens in Hl. rewrite E in Hl. cbn in Hl.
  set (s1 := FdManager.set_kern k (fds n)). assert (FdManager.wf s1) as Hs1 by apply wf_set_kern, Hn.
  assert (Hdone : ∀ s, FdManager.wf s → open (FdManager.kern s) = open k →
    rtc atomic n (mkNet (sockets n) (next n) s) ∧ none_or_fresh fd (mkNet (sockets n) (next n) s) ∧ bare p (mkNet (sockets n) (next n) s)).
  { intros s Hs Ho. split_and!; [|destruct Hl as [[-> _]|(Hr & Hni & Hop)]; [by left|right]|done].
    - apply rtc_once, a_system; [done|]. intros q x _ Hq. rewrite Ho. destruct Hl as [[_ ->]|(_ & _ & ->)]; set_solver.
    - split_and!; [lia..|cbn; rewrite Ho, Hop; set_solver|]. cbn. intros q x Hx Heq. apply Hni.
      rewrite <- Heq. apply (own_open n Hn q x Hx). lia. }
  unfold on_fds, Hook.socket. rewrite (stE_bind_ret _ _ _ fd s1) by (unfold Hook.system; by rewrite E).
  destruct hook_enable; cbn [negb]; [|by apply Hdone].
  destruct (Z.eqb_spec fd (-1)) as [Efd|Efd]; [by apply Hdone|]. assert (0 <= fd < 2 ^ 30) as Hfd by lia.
  destruct (same_open_get_ctx fd Hfd s1 Hs1) as [H1 H2].
  unfold mbind, stE_bind. destruct (FdManager.get fstat fcntl_f fd true s1) as [[r|e|c] s2]; cbn in *; [by apply Hdone| |].
  all: split; [by apply (Hdone s2)|done].
Qed.

Abbreviation newSock := (newSock fstat fcntl_f socket_f setsockopt_f hook_enable).
Lemma newSock_hoare p : hoare (bare p) (newSock p) (λ _ _, True).
Proof.
  unfold Socket.newSock. eapply hoare_bind; [apply socket_at_hoare|]. intros x.
  eapply hoare_bind.
  { eapply triple_conseq; [apply (socket_hoare p)|by intros n [? _]|]. intros fd n H. exact H. }
  intros fd. eapply (hoare_bind _ (λ _ _, True)).
  - destruct (Z.eqb_spec fd (-1)) as [->|Hne].
    + intros n Hn [_ (y & Hy & E)]. rewrite (upd_run p _ n y Hy). split; [|done].
      eapply rtc_once, a_update; [done|]. by rewrite E.
    + eapply triple_conseq; [apply (upd_attach p _ fd); done| |done]. by intros n [[?|?] _].
  - intros _. keeps.
Qed.

Lemma init_hoare p fd : hoare (fresh fd)
  (Socket.init host fstat fcntl_f setsockopt_f getpeername_f getsockname_f hook_enable p fd) (λ _ _, True).
Proof.
  unfold Socket.init. eapply hoare_bind; [apply on_fds_hoare; [apply frame_fresh|apply same_open_lookup]|].
  intros ctx. cbn beta. match goal with |- triple _ _ _ (if ?b then _ else _) _ => generalize b end.
  intros [|]; [|by apply keeps_weaken, keeps_net_ret].
  eapply hoare_bind; [by apply (upd_attach p _ fd)|]. intros []. keeps.
Qed.

Lemma accept_done_hoare fd : hoare (none_or_fresh fd) (on_fds (Hook.accept_done fstat fcntl_f fd)) (λ r n, r = fd ∧ none_or_fresh fd n).
Proof.
  intros n Hn Hfd. assert (same_open (Hook.accept_done fstat fcntl_f fd)) as Hs.
  { apply same_open_bind; [|intros; apply same_open_ret]. destruct (Z.leb_spec 0 fd) as [H0|H0]; [|apply same_open_ret].
    apply same_open_bind; [|intros; apply same_open_ret]. apply same_open_get_ctx. destruct Hfd as [->|(? & _)]; lia. }
  assert (frame (none_or_fresh fd)) as Hf.
  { intros m s E [?|?]; [by left|right]. by apply frame_fresh. }
  destruct (on_fds_hoare _ _ Hf Hs n Hn Hfd) as [H1 H2]. split; [done|].
  assert (match (Hook.accept_done fstat fcntl_f fd (fds n)).1 with Ret r => r = fd | _ => True end) as Hv.
  { unfold Hook.accept_done, mbind, stE_bind. destruct (0 <=? fd); [|done]. by destruct (FdManager.get fstat fcntl_f fd true (fds n)) as [[?|?|?] ?]. }
  unfold on_fds in *. destruct (Hook.accept_done _ _ _ _) as [[r|e|c] s]; cbn in *; [by split|done..].
Qed.

Lemma accept_preserves p : preserves
  (accept host fstat fcntl_f setsockopt_f close_f getpeername_f getsockname_f cancel_c accept_c hook_enable p).
Proof.
  unfold accept. apply preserves_bind; [keeps|]. intros x. apply preserves_bind; [keeps|]. intros sock.
  eapply (hoare_bind _ none_or_fresh).
  { intros n Hn _. destruct (law_accept Hw (m_sock x) n Hn) as [? ?]. unfold wait. by destruct (accept_c (m_sock x) n). }
  intros fd. eapply hoare_bind; [apply accept_done_hoare|].
  intros r. cbn beta. destruct (Z.eqb_spec r (-1)) as [E|E].
  { apply keeps_weaken. keeps. }
  eapply (hoare_bind _ (λ _ _, True)); [|intros ok; keeps].
  eapply triple_conseq; [apply (init_hoare sock r)| |done]. intros n [-> [?|?]]; done.
Qed.

(** The first part of [connect] and [bind]. *)
Lemma ensure_hoare p x : hoare (λ n, True ∧ sockets n !! p = Some x) (if isValid x then mret tt else newSock p) (λ _ _, True).
Proof.
  unfold isValid. destruct (Z.eqb_spec (m_sock x) (-1)) as [E|E]; cbn [negb]; [|by apply triple_ret].
  eapply triple_conseq; [apply newSock_hoare| |done]. intros n [_ Hx]. by exists x.
Qed.
Lemma ensure_preserves {A} p (f : stE net A) : preserves f →
  preserves (x ← socket_at p; _ ← (if isValid x then mret tt else newSock p); f).
Proof.
  intros Hf. eapply hoare_bind; [apply (socket_at_hoare (λ _, True))|]. intros x.
  eapply hoare_bind; [apply ensure_hoare|]. intros []. exact Hf.
Qed.

Abbreviation connect := (connect host fstat fcntl_f socket_f setsockopt_f close_f getpeername_f getsockname_f cancel_c connect_c hook_enable).
Lemma connect_preserves p a t : preserves (connect p a t).
Proof. unfold Socket.connect. apply preserves_bind; [keeps|]. intros _. apply ensure_preserves. keeps. Qed.
#[local] Hint Resolve connect_preserves accept_preserves : keeps.
Lemma reconnect_preserves p t : preserves
  (reconnect host fstat fcntl_f socket_f setsockopt_f close_f getpeername_f getsockname_f cancel_c connect_c hook_enable p t).
Proof. unfold reconnect. keeps. Qed.
Lemma bind_preserves p a : preserves
  (bind host fstat fcntl_f socket_f setsockopt_f bind_f close_f getpeername_f getsockname_f unlink_c cancel_c connect_c hook_enable p a).
Proof. unfold bind, CreateUnixTCPSocket. apply preserves_bind; [keeps|]. intros _. apply ensure_preserves. keeps. Qed.
Lemma create_udp_preserves f : preserves (create_udp fstat fcntl_f socket_f setsockopt_f hook_enable f).
Proof.
  unfold create_udp. eapply hoare_bind; [by apply make_hoare|]. intros p. apply (hoare_bind _ (λ _ _, True)); [|keeps].
  eapply triple_conseq; [apply newSock_hoare| |done]. intros n Hx. by eexists.
Qed.
#[local] Hint Resolve reconnect_preserves bind_preserves create_udp_preserves : keeps.

Lemma exec_preserves o : preserves (exec o).
Proof.
  destruct o; cbn [exec]; try apply destroy_preserves; unfold forget; (apply preserves_bind; [|intros; apply keeps_net_ret]).
  all: unfold CreateTCP, CreateUDP, CreateTCPSocket, CreateUDPSocket, CreateTCPSocket6, CreateUDPSocket6, CreateUnixTCPSocket, CreateUnixUDPSocket,
    listen, send, send_iov, sendTo, sendTo_iov, recv, recv_iov, recvFrom, recvFrom_iov, when_connected, getOption, setSendTimeout, setRecvTimeout,
    getSendTimeout, getRecvTimeout, get_timeout, getError, getOption, dump, cancelRead, cancelWrite, cancelAccept, cancelAll; keeps.
Qed.

(** ** Histories *)

Lemma exec_owned o n : owned n → owned (exec o n).2.
Proof. intros Hn. eapply atomic_invariant; [exact atomic_owned| |exact Hn]. by apply exec_preserves. Qed.

(** An operation of the program, or something others do. *)
Inductive step : net → net → Prop :=
  | step_op n o : step n (exec o n).2
  | step_other n n' : atomic n n' → step n n'.

Lemma empty_owned n : sockets n = ∅ → FdManager.wf (fds n) → owned n.
Proof.
  intros E Hn. split; [done|..]; rewrite E.
  - intros p [? ?]. by rewrite lookup_empty in *.
  - by intros p x ?%lookup_empty_Some.
  - by intros p q x y ?%lookup_empty_Some.
Qed.

(** C30: sockets own their descriptors.  Every operation, whatever it returns,
    consists of steps that concern descriptors of no socket or one socket;
    with such steps of others between them and during the calls that wait, in
    every history that starts without sockets each socket that has a
    descriptor has one that is open and that no other socket has; destroying
    a socket then succeeds, takes away that socket only, and closes its
    descriptor and no other. *)
Theorem sockets_own_descriptors n0 n : sockets n0 = ∅ → FdManager.wf (fds n0) → rtc step n0 n →
  owned n ∧ (∀ o, rtc atomic n (exec o n).2) ∧
  (∀ p x, sockets n !! p = Some x → ∃ n', exec (OpDestroy p) n = (Ret tt, n') ∧
    sockets n' = delete p (sockets n) ∧ opened n' = if m_sock x =? -1 then opened n else opened n ∖ {[m_sock x]}).
Proof.
  intros E Hwf Hr. assert (owned n) as Hn.
  { assert (owned n0) as H0 by by apply empty_owned. clear E Hwf. induction Hr as [|n1 n2 n3 Hs _ IH]; [done|]. apply IH.
    destruct Hs as [n1 o|n1 n2 Ha]; [by apply exec_owned|by eapply atomic_owned]. }
  split; [done|]. split.
  - intros o. by apply exec_preserves.
  - intros p x Hx. destruct (destroy_run p n x Hn Hx) as (s & Es & Ho). eexists. split; [exact Es|]. by split.
Qed.

(** ** Time-outs *)

(** The context of a descriptor. *)
Definition context (fd : Z) (s : @FdManager.FdManager K) : option (nat * FdManager.FdCtx) :=
  p ← FdManager.managed s fd; c ← FdManager.objs s !! p; Some (p, c).

Lemma lookup_context fd s : FdManager.wf s → fd = -1 ∨ 0 <= fd < 2 ^ 30 → Hook.lookup fstat fcntl_f fd s = (Ret (context fd s), s).
Proof.
  intros Hs [->|Hfd].
  - done.
  - unfold Hook.lookup, context. rewrite (stE_bind_ret _ _ s (FdManager.managed s fd) s).
    2:{ rewrite FdManager.get_run by done. by destruct (FdManager.managed s fd). }
    destruct (FdManager.managed s fd) as [p|] eqn:Em; [|done].
    unfold FdManager.managed in Em. case_decide; [|done]. destruct (FdManager.m_datas s !! Z.to_nat fd) as [q|] eqn:Eq; [|done].
    cbn in Em. subst q. destruct (FdManager.wf_live s Hs _ p Eq) as (c & Hc & _). cbn. rewrite Hc. cbn.
    unfold FdManager.ctx_of. rewrite (stE_bind_ret _ _ s c s); [done|]. unfold query. by rewrite Hc.
Qed.

(** What [getSendTimeout] and [getRecvTimeout] say. *)
Definition timeout_of (type fd : Z) (s : @FdManager.FdManager K) : Z :=
  match context fd s with Some (_, c) => i64 (FdManager.getTimeout type c) | None => -1 end.

Lemma own_fd n p x : owned n → sockets n !! p = Some x → m_sock x = -1 ∨ 0 <= m_sock x < 2 ^ 30.
Proof. intros Hn Hx. destruct (decide (m_sock x = -1)); [by left|right]. by apply (own_open n Hn p x Hx). Qed.

Lemma get_timeout_run type n p x : owned n → sockets n !! p = Some x →
  get_timeout fstat fcntl_f p type n = (Ret (timeout_of type (m_sock x) (fds n)), n).
Proof.
  intros Hn Hx. unfold get_timeout. rewrite (stE_bind_ret _ _ _ _ _ (socket_at_run p n x Hx)).
  rewrite (stE_bind_ret _ _ _ _ _ (on_fds_run _ n _ _ (lookup_context _ _ (own_wf n Hn) (own_fd n p x Hn Hx)))).
  unfold timeout_of. by destruct n, (context _ _) as [[q c]|].
Qed.

Lemma timeval_ms v : Z.abs v < 2 ^ 31 * 1000 → i64 ((timeval_of v).1 * 1000 + Z.quot (timeval_of v).2 1000) = v.
Proof.
  intros Hv. unfold timeval_of, fst, snd.
  assert (Z.abs (Z.quot v 1000) < 2 ^ 31 ∧ Z.abs (Z.rem v 1000 * 1000) < 2 ^ 31 ∧ Z.quot v 1000 * 1000 + Z.rem v 1000 = v)
    as (H1 & H2 & H3) by (Z.to_euclidean_division_equations; lia).
  rewrite !(wraps_small 32) by (unfold in_s; change (32 - 1) with 31; lia). rewrite Z.quot_mul by done. rewrite H3.
  apply wraps_small; [done|]. unfold in_s. change (64 - 1) with 63. lia.
Qed.

(** A time-out that is set in the context of one descriptor. *)
Lemma setsockopt_timeouts type fd v s : type = FdManager.SO_RCVTIMEO ∨ type = FdManager.SO_SNDTIMEO → hook_enable = true →
  FdManager.wf s → 0 <= fd < 2 ^ 30 → is_Some (FdManager.managed s fd) → Z.abs v < 2 ^ 31 * 1000 →
  ∃ r s', Hook.setsockopt fstat fcntl_f setsockopt_f hook_enable fd Hook.SOL_SOCKET type (timeval_of v) s = (Ret r, s') ∧
    ∀ t f, t = FdManager.SO_RCVTIMEO ∨ t = FdManager.SO_SNDTIMEO →
      timeout_of t f s' = if decide (f = fd ∧ t = type) then v else timeout_of t f s.
Proof.
  intros Ht Hh Hs Hfd [p Hp] Hv. unfold Hook.setsockopt. rewrite Hh.
  assert (∃ c, FdManager.objs s !! p = Some c ∧ FdManager.m_fd c = fd) as (c & Hc & Hcf).
  { unfold FdManager.managed in Hp. case_decide; [|done]. destruct (FdManager.m_datas s !! Z.to_nat fd) as [q|] eqn:Eq; [|done].
    cbn in Hp. subst q. destruct (FdManager.wf_live s Hs _ p Eq) as (c & Hc & ?). exists c. split; [done|]. lia. }
  assert ((true && (Hook.SOL_SOCKET =? Hook.SOL_SOCKET) && ((type =? FdManager.SO_RCVTIMEO) || (type =? FdManager.SO_SNDTIMEO))) = true) as ->.
  { by destruct Ht as [->| ->]. }
  set (g := FdManager.setTimeout type _).
  destruct (FdManager.update_run p g s Hs (FdManager.harmless_timeout _ _)) as (s1 & E1 & _ & Ed & _ & Ho).
  rewrite (stE_bind_ret _ _ s tt s1).
  2:{ rewrite (stE_bind_ret _ _ _ _ _ (lookup_context fd s Hs (or_intror Hfd))). unfold context. rewrite Hp. cbn. by rewrite Hc. }
  unfold Hook.system. destruct (setsockopt_f _ _ _ _ _) as [r k]. do 2 eexists. split; [done|].
  intros t f Htt. unfold timeout_of, context.
  assert (FdManager.managed (FdManager.set_kern k s1) f = FdManager.managed s f) as -> by (unfold FdManager.managed; cbn; by rewrite Ed).
  cbn [FdManager.objs FdManager.set_kern]. destruct (FdManager.managed s f) as [q|] eqn:Eq; cbn.
  2:{ rewrite decide_False; [done|]. intros [-> _]. congruence. }
  rewrite Ho. destruct (decide (q = p)) as [->|Hne].
  2:{ rewrite decide_False; [done|]. intros [-> _]. congruence. }
  assert (f = fd) as ->.
  { unfold FdManager.managed in Eq. case_decide; [|done]. destruct (FdManager.m_datas s !! Z.to_nat f) as [q|] eqn:Eqq; [|done].
    cbn in Eq. subst q. destruct (FdManager.wf_live s Hs _ p Eqq) as (c' & Hc' & ?). assert (c' = c) as -> by congruence. lia. }
  rewrite Hc. cbn. assert (i64 (u64 v) = v) as Huv.
  { rewrite wraps_wrapu. apply wraps_small; [done|]. unfold in_s. change (64 - 1) with 63. lia. }
  unfold g. rewrite timeval_ms by done. destruct Ht as [->| ->], Htt as [->| ->]; cbn; try (rewrite decide_True by done; done).
  all: by rewrite decide_False by (by intros [_ ?]).
Qed.

Lemma setOption_timeouts type n p x v : type = FdManager.SO_RCVTIMEO ∨ type = FdManager.SO_SNDTIMEO → owned n → hook_enable = true →
  sockets n !! p = Some x → is_Some (FdManager.managed (fds n) (m_sock x)) → Z.abs v < 2 ^ 31 * 1000 →
  ∃ n', (_ ← setOption p Hook.SOL_SOCKET type (timeval_of v); mret tt) n = (Ret tt, n') ∧ sockets n' = sockets n ∧
    ∀ t q y, t = FdManager.SO_RCVTIMEO ∨ t = FdManager.SO_SNDTIMEO → sockets n !! q = Some y →
      (get_timeout fstat fcntl_f q t n').1 = if decide (q = p ∧ t = type) then Ret v else (get_timeout fstat fcntl_f q t n).1.
Proof.
  intros Ht Hn Hh Hx Hm Hv. assert (Hfd : 0 <= m_sock x < 2 ^ 30).
  { destruct (own_fd n p x Hn Hx) as [E|?]; [|done]. rewrite E in Hm. by destruct Hm. }
  destruct (setsockopt_timeouts type (m_sock x) v (fds n) Ht Hh (own_wf n Hn) Hfd Hm Hv) as (r & s' & E & Ho).
  assert (Ho2 : open (FdManager.kern s') = opened n ∧ FdManager.wf s').
  { pose proof (same_open_setsockopt (m_sock x) Hook.SOL_SOCKET type (timeval_of v) (fds n) (own_wf n Hn)) as Hso.
    rewrite E in Hso. cbn in Hso. tauto. }
  set (n' := mkNet (sockets n) (next n) s'). assert (owned n') as Hn'.
  { eapply atomic_owned; [|exact Hn]. apply a_system; [tauto|]. intros q y _. destruct Ho2 as [-> _]. done. }
  exists n'. split; [|split; [done|]].
  - rewrite (stE_bind_ret _ _ _ (r =? 0) n'); [done|]. unfold Socket.setOption.
    rewrite (stE_bind_ret _ _ _ _ _ (socket_at_run p n x Hx)). by rewrite (stE_bind_ret _ _ _ _ _ (on_fds_run _ n _ _ E)).
  - intros t q y Htt Hy. rewrite (get_timeout_run t n' q y Hn' Hy), (get_timeout_run t n q y Hn Hy). cbn. rewrite Ho by done.
    destruct (decide (q = p ∧ t = type)) as [[-> ->]|Hne].
    + assert (y = x) as -> by congruence. by rewrite decide_True.
    + rewrite decide_False; [done|]. intros [Heq ->]. apply Hne. split; [|done]. eapply (own_inj n Hn q p y x); [done..| |done]. lia.
Qed.

(** What a time-out is set to is what it is found to be: with the hooks
    on, for a socket whose descriptor has a context and a time of less than
    2^31 seconds, negative or not, [setRecvTimeout] changes the receive
    time-out to it, [setSendTimeout] the send time-out, and neither changes
    the other one or those of any other socket. *)
Theorem timeouts_kept n p x v : owned n → hook_enable = true → sockets n !! p = Some x →
  is_Some (FdManager.managed (fds n) (m_sock x)) → Z.abs v < 2 ^ 31 * 1000 →
  let recv q n := (getRecvTimeout fstat fcntl_f q n).1 in
  let send q n := (getSendTimeout fstat fcntl_f q n).1 in
  (∃ n', setRecvTimeout fstat fcntl_f setsockopt_f hook_enable p v n = (Ret tt, n') ∧ sockets n' = sockets n ∧
    recv p n' = Ret v ∧ (∀ q, is_Some (sockets n !! q) → send q n' = send q n ∧ (q ≠ p → recv q n' = recv q n))) ∧
  (∃ n', setSendTimeout fstat fcntl_f setsockopt_f hook_enable p v n = (Ret tt, n') ∧ sockets n' = sockets n ∧
    send p n' = Ret v ∧ (∀ q, is_Some (sockets n !! q) → recv q n' = recv q n ∧ (q ≠ p → send q n' = send q n))).
Proof.
  intros Hn Hh Hx Hm Hv recv send.
  pose proof (λ type Ht, setOption_timeouts type n p x v Ht Hn Hh Hx Hm Hv) as H.
  split.
  - destruct (H FdManager.SO_RCVTIMEO) as (n' & E & Hs & Hg); [by left|]. exists n'. split; [exact E|]. split; [done|]. split.
    + unfold recv, getRecvTimeout. erewrite Hg by (done || by left). by rewrite decide_True.
    + intros q [y Hy]. unfold send, recv, getSendTimeout, getRecvTimeout. split; [|intros Hq].
      * erewrite Hg by (done || by right). rewrite decide_False; [done|]. by intros [_ ?].
      * erewrite Hg by (done || by left). rewrite decide_False; [done|]. by intros [? _].
  - destruct (H FdManager.SO_SNDTIMEO) as (n' & E & Hs & Hg); [by right|]. exists n'. split; [exact E|]. split; [done|]. split.
    + unfold send, getSendTimeout. erewrite Hg by (done || by right). by rewrite decide_True.
    + intros q [y Hy]. unfold send, recv, getSendTimeout, getRecvTimeout. split; [|intros Hq].
      * erewrite Hg by (done || by left). rewrite decide_False; [done|]. by intros [_ ?].
      * erewrite Hg by (done || by right). rewrite decide_False; [done|]. by intros [? _].
Qed.
End ownership.

(* ------------------------------------------------------------------ *)
(** ** On a concrete kernel *)

(** The open descriptors; the lowest free one is given. *)
Definition Table := gset Z.
Definition table_open (k : Table) : Z * Table :=
  match filter (λ fd, fd ∉ k) (seqZ 3 1000) with fd :: _ => (fd, {[fd]} ∪ k) | [] => (-1, k) end.
Definition table_fstat (fd : Z) (k : Table) : option Z := if decide (fd ∈ k) then Some FdManager.S_IFSOCK else None.
Definition zero_of (k : Table) : Z * Table := (0, k).
Definition table_kern (n : net Table) : Table := FdManager.kern (fds n).
Definition table_accept (_ : Z) (n : net Table) : Z * net Table :=
  let '(fd, k) := table_open (table_kern n) in (fd, mkNet (sockets n) (next n) (FdManager.set_kern k (fds n))).

Definition no_name (fd l : Z) (k : Table) : option bytes * Table := (None, k).
Definition table_exec : op → stE (net Table) unit :=
  exec SYLAR_LITTLE_ENDIAN table_fstat (λ _ _ _, zero_of) (λ _ _ _, table_open) (λ _ _ _ _, zero_of) (λ _ _ _ k, (Some 0, k))
    (λ _ _ _, zero_of) (λ _ _, zero_of) (λ fd k, (0, k ∖ {[fd]})) no_name no_name (λ _ k, (tt, k)) (λ _ _ k, (true, k)) (λ _, 0)
    (λ _ _ _ _ n, (0, n)) table_accept (λ _ _ _ _ n, (0, n)) (λ _ _ _ _ n, ((0, []), n)) true.
Definition start : net Table := mkNet ∅ 0 (FdManager.new_FdManager ∅).

Lemma table_opens k : opens id (table_open k) k.
Proof.
  unfold opens, table_open. destruct (filter _ _) as [|fd l] eqn:E; [by left|right].
  assert (fd ∈ filter (λ fd, fd ∉ k) (seqZ 3 1000)) as [Hn Hin%elem_of_seqZ]%list_elem_of_filter by (rewrite E; left).
  cbn. split; [lia|done].
Qed.

Lemma table_kernel_law : kernel_law (λ _ _ _, zero_of) (λ _ _ _, table_open) (λ _ _ _ _, zero_of) (λ _ _ _ k, (Some 0, k))
    (λ _ _ _, zero_of) (λ _ _, zero_of) (λ fd k, (0, k ∖ {[fd]})) no_name no_name (λ _ k, (tt, k)) (λ _ _ k, (true, k)) id.
Proof. split; try done. intros. apply table_opens. Qed.

Lemma table_wait_law : wait_law (λ _ _ _ _ n, (0, n)) table_accept (λ _ _ _ _ n, (0, n)) (λ _ _ _ _ n, ((0, []), n)) id.
Proof.
  split; try done. intros fd n Hn. unfold table_accept. pose proof (table_opens (table_kern n)) as H.
  destruct (table_open (table_kern n)) as [r k]. unfold opens in H. cbn in *. split.
  - apply rtc_once, a_system; [apply wf_set_kern|]. intros p x _. cbn. unfold table_kern in *. destruct H as [[_ ->]|(_ & _ & ->)]; set_solver.
  - destruct H as [[-> _]|(Hr & Hni & ->)]; [by left|right]. split; [done|]. cbn. split; [set_solver|].
    intros p x Hx E. apply Hni. unfold table_kern. rewrite <- E. apply (own_open id n Hn p x Hx). lia.
Qed.

(** A server that listens and accepts, and a client. *)
Definition loopback : Address := IPv4Address (new_IPv4Address SYLAR_LITTLE_ENDIAN 2130706433 8020).
Definition history : list op := [OpCreateTCP loopback; OpBind 0 loopback; OpListen 0 128; OpAccept 0; OpCreateTCP loopback; OpConnect 2 loopback None].
Definition after (l : list op) : net Table := fold_left (λ n o, (table_exec o n).2) l start.

Lemma sockets_own_descriptors_witness :
  ((m_sock <$> sockets (after history)) = {[0%nat := 3; 1%nat := 4; 2%nat := 5]} ∧ table_kern (after history) = {[3; 4; 5]}) ∧
  (∀ p x, sockets (after history) !! p = Some x → ∃ n', table_exec (OpDestroy p) (after history) = (Ret tt, n') ∧
    sockets n' = delete p (sockets (after history)) ∧
    table_kern n' = if m_sock x =? -1 then table_kern (after history) else table_kern (after history) ∖ {[m_sock x]}).
Proof.
  split; [split; vm_compute; reflexivity|].
  eapply (sockets_own_descriptors _ _ _ _ _ _ _ _ _ _ _ _ _ _ _ _ _ _ _ _ table_kernel_law table_wait_law start).
  - reflexivity.
  - apply FdManager.new_FdManager_wf.
  - unfold after, history. cbn [fold_left]. do 6 (eapply rtc_r; [|apply step_op]). done.
Defined.

Lemma history_owned : owned id (after history).
Proof.
  unfold after, history. cbn [fold_left].
  do 6 (apply (exec_owned _ _ _ _ _ _ _ _ _ _ _ _ _ _ _ _ _ _ _ _ table_kernel_law table_wait_law)).
  apply empty_owned; [reflexivity|apply FdManager.new_FdManager_wf].
Qed.

Lemma timeouts_kept_witness :
  let n := after history in
  (getRecvTimeout table_fstat (λ _ _ _, zero_of) 1 n).1 = Ret (-1) ∧
  ∃ n', setRecvTimeout table_fstat (λ _ _ _, zero_of) (λ _ _ _ _, zero_of) true 1 120000 n = (Ret tt, n') ∧ sockets n' = sockets n ∧
    (getRecvTimeout table_fstat (λ _ _ _, zero_of) 1 n').1 = Ret 120000.
Proof.
  intros n. split; [vm_compute; reflexivity|].
  destruct (timeouts_kept table_fstat (λ _ _ _, zero_of) (λ _ _ _, table_open) (λ _ _ _ _, zero_of) (λ _ _ _ k, (Some 0, k))
    (λ _ _ _, zero_of) (λ _ _, zero_of) (λ fd k, (0, k ∖ {[fd]})) no_name no_name (λ _ k, (tt, k)) (λ _ _ k, (true, k)) true id table_kernel_law
    n 1 (mkSocket 4 2 1 0 true None None) 120000) as [(n' & E & Hs & Hv & _) _].
  - apply history_owned.
  - reflexivity.
  - vm_compute. reflexivity.
  - vm_compute. by eexists.
  - vm_compute. reflexivity.
  - exact (ex_intro _ n' (conj E (conj Hs Hv))).
Defined.
