(* ===== verification/SocketStream.v ===== *)
(** * Streams over sockets ([streams/socket_stream.h], [streams/socket_stream.cc])

    A stream has a pointer to a [Socket], which may be null; reads and
    writes with a [ByteArray] hand its segments to the socket. *)
From S2P Require Import Prelude StdString Endian ByteStream ByteArray ByteArrayTheorems Stream.
From S2P Require FdManager Hook.
From S2P Require Import Address Socket.
From stdpp Require Import gmap.

Local Open Scope Z_scope.

(* sylar/streams/socket_stream.h:103-106, SocketStream *)
Record SocketStream := mkSocketStream { m_socket : option nat; m_owner : bool }.

(* sylar/streams/socket_stream.cc:6-9, SocketStream::SocketStream *)
Definition new_SocketStream (sock : option nat) (owner : bool) : SocketStream := mkSocketStream sock owner.

Section socket_stream.
Context (host : endian) {K : Type}.
Abbreviation net := (net K).
(** What [Socket] needs. *)
Context (fstat : Z → K → option Z) (fcntl_f : Z → Z → option Z → K → Z * K) (close_f : Z → K → Z * K).
Context (getpeername_f getsockname_f : Z → Z → K → option bytes * K) (cancel_c : Z → option Z → K → bool * K).
Context (send_c : Z → list bytes → Z → option (bytes * Z) → net → Z * net) (recv_c : Z → list Z → Z → option Z → net → (Z * bytes) * net).
Context (hook_enable : bool) (garbage : nat → nat → ascii).

(** The sockets and a buffer. *)
Abbreviation both := (net * ByteArray)%type.
Definition on_net {A} (m : stE net A) : stE both A := λ s, let '(r, n) := m s.1 in (r, (n, s.2)).
Definition on_buffer {A} (m : stE ByteArray A) : stE both A := λ s, let '(r, b) := m s.2 in (r, (s.1, b)).

Definition when_socket {S A} (s : SocketStream) (a : A) (f : nat → stE S A) : stE S A :=
  match m_socket s with Some p => f p | None => mret a end.

(* sylar/streams/socket_stream.cc:17-19, SocketStream::isConnected *)
Definition isConnected (s : SocketStream) : stE net bool :=
  when_socket s false (λ p, x ← socket_at p; mret (m_isConnected x)).

(** Connected, so that the pointer is not null. *)
Definition connected_socket (s : SocketStream) : stE net (option nat) :=
  c ← isConnected s; mret (if (c : bool) then m_socket s else None).

(* sylar/streams/socket_stream.cc:21-26, SocketStream::read *)
Definition read (s : SocketStream) (length : Z) : stE net (Z * bytes) :=
  p ← connected_socket s;
  match p with None => mret (-1, []) | Some p => recv recv_c p length 0 end.

(* sylar/streams/socket_stream.cc:41-46, SocketStream::write *)
Definition write (s : SocketStream) (buffer : bytes) : stE net Z :=
  p ← connected_socket s;
  match p with None => mret (-1) | Some p => send send_c p buffer 0 end.

(** [&iovs[0]]: outside the vector when there are no segments. *)
Definition first_iov (iovs : list iovec) : stE both unit := match iovs with [] => crash out_of_bounds | _ => mret tt end.

(** The bytes received are in the segments when the call returns. *)
(* sylar/streams/socket_stream.cc:28-39, SocketStream::read *)
Definition read_ba (s : SocketStream) (length : Z) : stE both Z :=
  p ← on_net (connected_socket s);
  match p with
  | None => mret (-1)
  | Some p =>
      v ← on_buffer (getWriteBuffers garbage length);
      _ ← first_iov v.2;
      r ← on_net (recv_iov recv_c p (iov_len <$> v.2) 0);
      _ ← on_buffer (λ b, match scatter v.2 r.2 (m_nodes b) with
                          | Ret nodes => (Ret tt, set_nodes nodes b)
                          | Throw e => (Throw e, b)
                          | Crash c => (Crash c, b)
                          end);
      _ ← (if 0 <? r.1 then on_buffer (b ← get; setPosition (u64 (m_position b + r.1))) else mret tt);
      mret r.1
  end.

(** The bytes of each segment. *)
Definition segments (nodes : list Node) (iovs : list iovec) : outcome (list bytes) :=
  foldr (λ v acc, d ← load nodes (Some (iov_node v)) (iov_off v) (iov_len v); rest ← acc; Ret (d :: rest)) (Ret []) iovs.

(* sylar/streams/socket_stream.cc:48-59, SocketStream::write *)
Definition write_ba (s : SocketStream) (length : Z) : stE both Z :=
  p ← on_net (connected_socket s);
  match p with
  | None => mret (-1)
  | Some p =>
      v ← on_buffer (query (getReadBuffers length));
      _ ← first_iov v.2;
      bufs ← on_buffer (query (λ b, segments (m_nodes b) v.2));
      rt ← on_net (send_iov send_c p bufs 0);
      _ ← (if 0 <? rt then on_buffer (b ← get; setPosition (u64 (m_position b + rt))) else mret tt);
      mret rt
  end.

(* sylar/streams/socket_stream.cc:61-65, SocketStream::close *)
Definition close (s : SocketStream) : stE net unit :=
  when_socket s tt (λ p, _ ← Socket.close fstat fcntl_f close_f cancel_c hook_enable p; mret tt).

(* sylar/streams/socket_stream.cc:11-15, SocketStream::~SocketStream *)
Definition delete_SocketStream (s : SocketStream) : stE net unit := if m_owner s then close s else mret tt.

(* sylar/streams/socket_stream.cc:67-72, SocketStream::getRemoteAddress *)
Definition getRemoteAddress (s : SocketStream) : stE net (option Address) :=
  when_socket s None (λ p, a ← Socket.getRemoteAddress host getpeername_f p; mret (Some a)).

(* sylar/streams/socket_stream.cc:74-79, SocketStream::getLocalAddress *)
Definition getLocalAddress (s : SocketStream) : stE net (option Address) :=
  when_socket s None (λ p, a ← Socket.getLocalAddress host getsockname_f p; mret (Some a)).

Definition address_string (a : option Address) : stE net bytes :=
  match a with Some a => query (λ _, Address.toString host a) | None => mret [] end.

(* sylar/streams/socket_stream.cc:81-87, SocketStream::getRemoteAddressString *)
Definition getRemoteAddressString (s : SocketStream) : stE net bytes := addr ← getRemoteAddress s; address_string addr.
(* sylar/streams/socket_stream.cc:89-95, SocketStream::getLocalAddressString *)
Definition getLocalAddressString (s : SocketStream) : stE net bytes := addr ← getLocalAddress s; address_string addr.

(** The loops of [Stream] over these. *)
Definition readFixSize_ba (s : SocketStream) (length : Z) : stE both Z := Stream.readFixSize_ba (read_ba s) length.
Definition writeFixSize_ba (s : SocketStream) (length : Z) : stE both Z := Stream.writeFixSize_ba (write_ba s) length.

(* ------------------------------------------------------------------ *)
(** ** Whole messages over partial transfers *)

Section transfers.
(** A stream on socket [p] of descriptor [fd], and the bytes its connection
    has taken and given so far. *)
Context (s : SocketStream) (p : nat) (fd : Z) (Hs : m_socket s = Some p).
Context (sent received : net → bytes).

(** Others may close the socket, not reopen it. *)
Definition uses (n : net) : Prop := ∃ x, sockets n !! p = Some x ∧ (m_isConnected x = true → m_sock x = fd).

(** What the manual says: a call takes or gives a part of what it was asked
    to, from the front. *)
Record channel_law : Prop := {
  law_send bufs n r n' : uses n → send_c fd bufs 0 None n = (r, n') →
    uses n' ∧ - 2 ^ 31 <= r <= Z.of_nat (length (mjoin bufs)) ∧ sent n' = sent n ++ take (Z.to_nat r) (mjoin bufs);
  law_recv lens n r d n' : uses n → 0 <= foldr Z.add 0 lens → recv_c fd lens 0 None n = ((r, d), n') →
    uses n' ∧ - 2 ^ 31 <= r <= foldr Z.add 0 lens ∧ Z.of_nat (length d) = Z.max 0 r ∧ received n' = received n ++ d
}.
Context (Hch : channel_law).

Lemma on_net_run {A} (m : stE net A) n b r n' : m n = (r, n') → on_net m (n, b) = (r, (n', b)).
Proof. intros E. unfold on_net. cbn. by rewrite E. Qed.
Lemma on_buffer_run {A} (m : stE ByteArray A) n b r b' : m b = (r, b') → on_buffer m (n, b) = (r, (n, b')).
Proof. intros E. unfold on_buffer. cbn. by rewrite E. Qed.

(** Connected, on the descriptor. *)
Definition is_up (n : net) : bool := match sockets n !! p with Some x => m_isConnected x | None => false end.

Lemma connected_socket_run n : uses n → connected_socket s n = (Ret (if is_up n then Some p else None), n).
Proof.
  intros (x & Hx & _). unfold connected_socket, isConnected, when_socket, is_up. rewrite Hs, Hx.
  unfold mbind, stE_bind, socket_at, query. rewrite Hx. cbn. by destruct (m_isConnected x).
Qed.

Lemma when_connected_run {A} (a : A) f n : uses n → is_up n = true → when_connected p a f n = f fd n.
Proof.
  intros (x & Hx & Hfd). unfold is_up. rewrite Hx. intros Hc. unfold when_connected.
  rewrite (stE_bind_ret _ _ n x n) by (unfold socket_at, query; by rewrite Hx). by rewrite Hc, Hfd.
Qed.

Lemma segments_gather nodes iovs d : gather nodes iovs = Ret d → ∃ bufs, segments nodes iovs = Ret bufs ∧ mjoin bufs = d.
Proof.
  revert d. induction iovs as [|v l IH]; intros d; cbn; [intros [= <-]; by exists []|].
  destruct (load _ _ _ _) as [d1|e|c]; [|done..]. cbn. fold (gather nodes l) (segments nodes l).
  destruct (gather nodes l) as [d2|e|c]; [|done..]. cbn. intros [= <-].
  destruct (IH d2 eq_refl) as (bufs & -> & <-). by exists (d1 :: bufs).
Qed.

Lemma first_iov_run iovs (st : both) : 0 < foldr Z.add 0 (iov_len <$> iovs) → first_iov iovs st = (Ret tt, st).
Proof. by destruct iovs. Qed.

Lemma i32_id r : - 2 ^ 31 <= r < 2 ^ 31 → i32 r = r.
Proof. intros H. apply wraps_small; [done|]. unfold in_s. change (32 - 1) with 31. lia. Qed.

(** Moving the position inside the data. *)
Lemma advance k (n : net) b : wf b → 0 <= k → m_position b + k <= m_size b →
  ∃ b', on_buffer (b ← get; setPosition (u64 (m_position b + k))) (n, b) = (Ret tt, (n, b')) ∧ wf b' ∧
    contents b' = contents b ∧ pos b' = (pos b + Z.to_nat k)%nat ∧ m_size b' = m_size b ∧ m_position b' = m_position b + k.
Proof.
  intros W Hk Hle. pose proof (wf_pos _ W). pose proof (wf_size _ W). pose proof (wf_max _ W).
  assert (u64 (m_position b + k) = m_position b + k) as Eu.
  { apply wrapu_small. unfold in_u, max_bytes in *. lia. }
  destruct (setPosition_spec (m_position b + k) b W) as (b' & junk & E & W' & Hc & Hj & _ & Hp & _); [lia|].
  exists b'. split_and!; [apply on_buffer_run|done|..].
  - rewrite get_bind, Eu. exact E.
  - by rewrite Hc, Hj, app_nil_r by lia.
  - unfold pos. rewrite Hp. lia.
  - pose proof (setPosition_data (m_position b + k) b) as [_ Hs2]. rewrite E in Hs2. cbn in Hs2. rewrite Hs2; lia.
  - done.
Qed.

(** One call of [write]: what the socket takes is what the position moves
    past. *)
Lemma write_round l n b : 0 < l < 2 ^ 31 → uses n → wf b → m_position b + l <= m_size b →
  ∃ len n' b', write_ba s l (n, b) = (Ret len, (n', b')) ∧ - 2 ^ 31 <= len <= l ∧ uses n' ∧ wf b' ∧ contents b' = contents b ∧
    pos b' = (pos b + Z.to_nat len)%nat ∧ m_size b' = m_size b ∧ m_position b' = m_position b + Z.max 0 len ∧
    sent n' = sent n ++ slice (pos b) (Z.to_nat len) (contents b).
Proof.
  intros Hl Hu W Hroom. pose proof (wf_pos _ W). unfold write_ba. rewrite (stE_bind_ret _ _ _ _ _ (on_net_run _ n b _ _ (connected_socket_run n Hu))).
  destruct (is_up n) eqn:Hup.
  2:{ exists (-1), n, b. split_and!; try done; try (cbn; lia). unfold slice. change (Z.to_nat (-1)) with 0%nat. by rewrite take_0, app_nil_r. }
  destruct (getReadBuffers_spec l b W ltac:(lia)) as (iovs & E & Hg). rewrite Z.min_l in E, Hg by lia.
  pose proof (getReadBuffers_sum l b l iovs ltac:(lia) ltac:(rewrite (wf_getReadSize _ W); lia) E) as Hsum.
  rewrite (stE_bind_ret _ _ _ _ _ (on_buffer_run (query (getReadBuffers l)) n b _ _ (f_equal (λ r, (r, b)) E))). cbn [snd].
  rewrite (stE_bind_ret _ _ _ _ _ (first_iov_run iovs (n, b) ltac:(lia))).
  destruct (segments_gather _ _ _ Hg) as (bufs & Eb & Hb).
  rewrite (stE_bind_ret _ _ _ _ _ (on_buffer_run (query (λ b, segments (m_nodes b) iovs)) n b _ _ (f_equal (λ r, (r, b)) Eb))).
  destruct (send_c fd bufs 0 None n) as [r n'] eqn:Esend. destruct (law_send Hch bufs n r n' Hu Esend) as (Hu' & Hr & Hsent).
  pose proof (length_contents _ W). rewrite Hb in Hr, Hsent. rewrite length_slice in Hr by (unfold pos; lia).
  rewrite (stE_bind_ret _ _ (n, b) r (n', b)).
  2:{ apply on_net_run. unfold send_iov. rewrite when_connected_run by done.
      rewrite (stE_bind_ret _ _ n r n') by (unfold wait; by rewrite Esend). by rewrite i32_id by lia. }
  assert (Hsl : take (Z.to_nat r) (slice (pos b) (Z.to_nat l) (contents b)) = slice (pos b) (Z.to_nat r) (contents b)).
  { unfold slice. rewrite take_take. f_equal. lia. }
  rewrite Hsl in Hsent. destruct (Z.ltb_spec 0 r) as [Hpos|Hpos].
  - destruct (advance r n' b W ltac:(lia) ltac:(lia)) as (b' & Ea & W' & Hc' & Hp' & Hs' & Hm').
    rewrite (stE_bind_ret _ _ _ _ _ Ea). exists r, n', b'. split_and!; try done; lia.
  - rewrite mret_bind. exists r, n', b. split_and!; try done; lia.
Qed.

(** One call of [read]: the bytes that arrive are written at the
    position. *)
Lemma read_round l n b : 0 < l < 2 ^ 31 → uses n → wf b → m_position b + l + m_baseSize b <= max_bytes →
  ∃ len n' b' d, read_ba s l (n, b) = (Ret len, (n', b')) ∧ - 2 ^ 31 <= len <= l ∧ uses n' ∧ wf b' ∧ Z.of_nat (length d) = Z.max 0 len ∧
    contents b' = splice (pos b) d (contents b) ∧ pos b' = (pos b + length d)%nat ∧ m_baseSize b' = m_baseSize b ∧
    received n' = received n ++ d.
Proof.
  intros Hl Hu W Hroom. pose proof (wf_pos _ W). unfold read_ba. rewrite (stE_bind_ret _ _ _ _ _ (on_net_run _ n b _ _ (connected_socket_run n Hu))).
  destruct (is_up n) eqn:Hup.
  2:{ exists (-1), n, b, []. rewrite splice_nil, app_nil_r, Nat.add_0_r. split_and!; done || lia. }
  destruct (getWriteBuffers_fill garbage l b W ltac:(lia) Hroom) as (b1 & iovs & E & W1 & Hp1 & Hc1 & Hb1 & Hfill).
  destruct (getWriteBuffers_sum garbage l b _ _ _ ltac:(lia) E) as [_ Hsum].
  rewrite (stE_bind_ret _ _ _ _ _ (on_buffer_run _ n b _ _ E)). cbn [snd].
  rewrite (stE_bind_ret _ _ _ _ _ (first_iov_run iovs (n, b1) ltac:(lia))).
  destruct (recv_c fd (iov_len <$> iovs) 0 None n) as [[r d] n'] eqn:Erecv.
  destruct (law_recv Hch _ n r d n' Hu ltac:(rewrite Hsum; lia) Erecv) as (Hu' & Hr & Hd & Hrec). rewrite Hsum in Hr.
  rewrite (stE_bind_ret _ _ (n, b1) (r, d) (n', b1)).
  2:{ apply on_net_run. unfold recv_iov. rewrite when_connected_run by done.
      rewrite (stE_bind_ret _ _ n (r, d) n') by (unfold wait; by rewrite Erecv). cbn. by rewrite i32_id by lia. }
  destruct (Hfill d ltac:(lia)) as (nodes' & Esc & Wf' & Hcat & Hcap). cbn [fst snd].
  rewrite (stE_bind_ret _ _ (n', b1) tt (n', set_nodes nodes' b1)) by (apply on_buffer_run; by rewrite Esc).
  destruct (fill_advance b b1 nodes' d) as (b2 & Eset & W2 & Hc2 & Hp2 & Hb2); try done.
  destruct (Z.ltb_spec 0 r) as [Hpos|Hpos].
  - rewrite (stE_bind_ret _ _ (n', set_nodes nodes' b1) tt (n', b2)).
    2:{ apply on_buffer_run. rewrite get_bind. cbn. rewrite Hp1.
        rewrite wrapu_small by (pose proof (wf_max _ W1); unfold in_u, max_bytes in *; lia). rewrite <- Eset. do 2 f_equal. lia. }
    exists r, n', b2, d. split_and!; try done; try lia; congruence.
  - assert (d = []) as -> by (destruct d; [done|cbn in Hd; lia]). rewrite mret_bind. exists r, n', (set_nodes nodes' b1), [].
    rewrite splice_nil in *. split_and!; try done; try lia; [..|unfold pos; cbn; lia].
    rewrite <- Hc1. unfold contents. cbn. by rewrite Hcat.
Qed.

(** What a state must offer to send, or to receive, [l] more bytes. *)
Definition can_send (l : Z) (st : both) : Prop := l < 2 ^ 31 ∧ uses st.1 ∧ wf st.2 ∧ m_position st.2 + l <= m_size st.2.
Definition can_receive (l : Z) (st : both) : Prop :=
  l < 2 ^ 31 ∧ uses st.1 ∧ wf st.2 ∧ m_position st.2 + l + m_baseSize st.2 <= max_bytes.

(** [k] bytes left the buffer for the connection, or came from it. *)
Definition has_sent (k : Z) (st st' : both) : Prop :=
  contents st'.2 = contents st.2 ∧ pos st'.2 = (pos st.2 + Z.to_nat k)%nat ∧
  sent st'.1 = sent st.1 ++ slice (pos st.2) (Z.to_nat k) (contents st.2).
Definition has_received (k : Z) (st st' : both) : Prop :=
  (pos st.2 ≤ length (contents st.2))%nat ∧
  ∃ d, Z.of_nat (length d) = k ∧ received st'.1 = received st.1 ++ d ∧
    contents st'.2 = splice (pos st.2) d (contents st.2) ∧ pos st'.2 = (pos st.2 + length d)%nat.

Lemma write_moves : moves_law can_send has_sent (λ _, write_ba s).
Proof.
  split.
  - intros l st _. unfold has_sent, slice. change (Z.to_nat 0) with 0%nat. by rewrite take_0, app_nil_r, Nat.add_0_r.
  - intros a b s1 s2 s3 Ha Hb (C1 & P1 & S1) (C2 & P2 & S2). split_and!; [congruence|lia|].
    rewrite S2, S1, P1, C1, <- (assoc_L (++)), Z2Nat.inj_add, slice_app_split by lia. done.
  - intros o l [n b] Hl (Hlt & Hu & W & Hroom). cbn in *.
    destruct (write_round l n b ltac:(lia) Hu W Hroom) as (len & n' & b' & E & Hle & Hu' & W' & Hc & Hp & Hsz & Hmp & Hsent).
    exists len, (n', b'). split; [done|]. split; [done|]. split.
    + assert (Z.to_nat (Z.max 0 len) = Z.to_nat len) as Ez by lia. unfold has_sent. cbn. by rewrite Ez.
    + intros Hpos. unfold can_send. cbn. split_and!; [lia|done|done|lia].
Qed.

Lemma read_moves : moves_law can_receive has_received (λ _, read_ba s).
Proof.
  assert (Hready : ∀ l st, can_receive l st → (pos st.2 ≤ length (contents st.2))%nat).
  { intros l st (_ & _ & W & _). pose proof (length_contents _ W). pose proof (wf_pos _ W). unfold pos. lia. }
  split.
  - intros l st Hr. split; [by eapply Hready|]. exists []. by rewrite app_nil_r, splice_nil, Nat.add_0_r.
  - intros a b s1 s2 s3 Ha Hb (H1 & d1 & L1 & R1 & C1 & P1) (_ & d2 & L2 & R2 & C2 & P2). split; [done|].
    exists (d1 ++ d2). rewrite length_app. split_and!; [lia|rewrite R2, R1; by rewrite (assoc_L (++))| |lia].
    rewrite C2, P1, C1. by rewrite splice_splice_app.
  - intros o l [n b] Hl Hr. pose proof (Hready _ _ Hr) as Hp0. destruct Hr as (Hlt & Hu & W & Hroom). cbn in *.
    destruct (read_round l n b ltac:(lia) Hu W Hroom) as (len & n' & b' & d & E & Hle & Hu' & W' & Hd & Hc & Hp & Hbs & Hrec).
    exists len, (n', b'). split; [done|]. split; [done|]. split.
    + split; [done|]. by exists d.
    + intros Hpos. unfold can_receive. cbn. rewrite Hbs. unfold pos in *.
      pose proof (wf_pos _ W). pose proof (wf_pos _ W'). split_and!; [lia|done|done|lia].
Qed.

(** C31: whole messages go through sockets that move parts of them.  On a
    connection that takes and gives any part of what it is asked to, in
    order, and while others may close the socket, [writeFixSize] of [len]
    readable bytes ends; it returns [len] exactly when the connection got
    those bytes, and otherwise, with a result that is not positive, when it
    got a shorter prefix; the buffer has moved past what was sent.
    [readFixSize] of [len] bytes likewise ends with the next [len] bytes of
    the connection written at the position, or with a shorter prefix of them
    and a result that is not positive. *)
Theorem fixed_size_transfer len n b : 0 < len < 2 ^ 31 → uses n → wf b →
  (m_position b + len <= m_size b → ∃ r k n' b', writeFixSize_ba s len (n, b) = (Ret r, (n', b')) ∧
    (r = len ∧ k = len ∨ r <= 0 ∧ 0 <= k < len) ∧ contents b' = contents b ∧ pos b' = (pos b + Z.to_nat k)%nat ∧
    sent n' = sent n ++ slice (pos b) (Z.to_nat k) (contents b)) ∧
  (m_position b + len + m_baseSize b <= max_bytes → ∃ r d n' b', readFixSize_ba s len (n, b) = (Ret r, (n', b')) ∧
    (r = len ∧ Z.of_nat (length d) = len ∨ r <= 0 ∧ Z.of_nat (length d) < len) ∧
    received n' = received n ++ d ∧ contents b' = splice (pos b) d (contents b) ∧ pos b' = (pos b + length d)%nat).
Proof.
  intros Hlen Hu W. split; intros Hroom.
  - destruct (fix_size_exact can_send has_sent (λ _, write_ba s) len (n, b) write_moves) as (r & [n' b'] & E & Hcase); [lia|by split_and!; [lia|..]|].
    assert (∃ k, (r = len ∧ k = len ∨ r <= 0 ∧ 0 <= k < len) ∧ has_sent k (n, b) (n', b')) as (k & Hk & Hc & Hp & Hst).
    { destruct Hcase as [(k & Hk & Hm & He)|(Hm & _ & Hr & _)]; [exists k|exists len]; (split; [|done]); [right|left]; lia. }
    by exists r, k, n', b'.
  - destruct (fix_size_exact can_receive has_received (λ _, read_ba s) len (n, b) read_moves) as (r & [n' b'] & E & Hcase); [lia|by split_and!; [lia|..]|].
    destruct Hcase as [(k & Hk & (_ & d & Hd & ?) & He)|((_ & d & Hd & ?) & _ & Hr & _)]; exists r, d, n', b';
      (split; [done|]); (split; [|done]); [right|left]; lia.
Qed.
End transfers.
End socket_stream.

(* ------------------------------------------------------------------ *)
(** ** On a concrete connection *)

(** What was sent, what was given, what is still to come; three bytes at a
    time. *)
Definition Pipe := (bytes * bytes * bytes)%type.
Definition pipe_of (n : net Pipe) : Pipe := FdManager.kern (fds n).
Definition set_pipe (k : Pipe) (n : net Pipe) : net Pipe := mkNet (sockets n) (next n) (FdManager.set_kern k (fds n)).
Definition pipe_send (_ : Z) (bufs : list bytes) (_ : Z) (_ : option (bytes * Z)) (n : net Pipe) : Z * net Pipe :=
  let '(s, g, i) := pipe_of n in let d := take 3 (mjoin bufs) in (Z.of_nat (length d), set_pipe (s ++ d, g, i) n).
Definition pipe_recv (_ : Z) (lens : list Z) (_ : Z) (_ : option Z) (n : net Pipe) : (Z * bytes) * net Pipe :=
  let '(s, g, i) := pipe_of n in
  let d := take (Nat.min 3 (Z.to_nat (foldr Z.add 0 lens))) i in ((Z.of_nat (length d), d), set_pipe (s, g ++ d, drop (length d) i) n).

Definition pipe_net : net Pipe :=
  mkNet {[0%nat := mkSocket 4 AF_INET SOCK_STREAM 0 true None None]} 1 (FdManager.new_FdManager ([], [], B "0123456789")).
Definition pipe_stream : SocketStream := new_SocketStream (Some 0%nat) true.

Lemma pipe_channel : channel_law pipe_send pipe_recv 0 4 (λ n, (pipe_of n).1.1) (λ n, (pipe_of n).1.2).
Proof.
  split.
  - intros bufs n r n' Hu. unfold pipe_send. destruct (pipe_of n) as [[s g] i]. intros [= <- <-]. rewrite Nat2Z.id.
    assert (take (length (take 3 (mjoin bufs))) (mjoin bufs) = take 3 (mjoin bufs)) as ->.
    { rewrite length_take. destruct (decide (3 ≤ length (mjoin bufs))%nat); [by rewrite Nat.min_l|]. by rewrite Nat.min_r, !take_ge by lia. }
    rewrite length_take. split_and!; [exact Hu|lia|lia|done].
  - intros lens n r d n' Hu Hl. unfold pipe_recv. destruct (pipe_of n) as [[s g] i].
    assert (Nat.min 3 (Z.to_nat (foldr Z.add 0%Z lens)) <= Z.to_nat (foldr Z.add 0%Z lens))%nat as Hm by lia.
    revert Hm. generalize (Nat.min 3 (Z.to_nat (foldr Z.add 0 lens))). intros m Hm [= <- <- <-].
    rewrite length_take. split_and!; [exact Hu|lia..|done].
Qed.

(** The second half of the sample is sent; then five bytes come over it. *)
Definition pipe_write := writeFixSize_ba pipe_send pipe_stream.
Definition pipe_read := readFixSize_ba pipe_recv (λ _ _, zero) pipe_stream.
Lemma fixed_size_transfer_witness :
  ((pipe_write 5 (pipe_net, sample_buffer)).1 = Ret 5 ∧ (pipe_of (pipe_write 5 (pipe_net, sample_buffer)).2.1).1.1 = B "fghij") ∧
  contents (pipe_read 5 (pipe_net, sample_buffer)).2.2 = B "abcde01234" ∧
  (∃ r k n' b', pipe_write 5 (pipe_net, sample_buffer) = (Ret r, (n', b')) ∧
    (r = 5 ∧ k = 5 ∨ r <= 0 ∧ 0 <= k < 5) ∧ contents b' = contents sample_buffer ∧ pos b' = (5 + Z.to_nat k)%nat ∧
    (pipe_of n').1.1 = slice 5 (Z.to_nat k) (contents sample_buffer)) ∧
  ∃ r d n' b', pipe_read 5 (pipe_net, sample_buffer) = (Ret r, (n', b')) ∧
    (r = 5 ∧ Z.of_nat (length d) = 5 ∨ r <= 0 ∧ Z.of_nat (length d) < 5) ∧
    (pipe_of n').1.2 = d ∧ contents b' = splice 5 d (contents sample_buffer) ∧ pos b' = (5 + length d)%nat.
Proof.
  split; [split; vm_compute; reflexivity|]. split; [vm_compute; reflexivity|].
  destruct (fixed_size_transfer pipe_send pipe_recv (λ _ _, zero) pipe_stream 0 4 eq_refl _ _ pipe_channel 5 pipe_net sample_buffer) as [H1 H2].
  - lia.
  - by exists (mkSocket 4 AF_INET SOCK_STREAM 0 true None None).
  - exact sample_buffer_wf.
  - split; [apply H1|apply H2]; vm_compute; congruence.
Defined.
