(* ===== verification/TcpServer.v ===== *)
(** * TCP servers ([tcp_server.h], [tcp_server.cc])

    A server with its listening sockets, the fibers its workers run for it
    - the accept loops, the one that closes the sockets, those of the
    clients - and the sockets of [Socket] they share.  A fiber holds pointers
    to sockets, so that one dropped by the server lives until its loop
    ends.  What is logged is left out. *)
From S2P Require Import Prelude StdString Endian.
From S2P Require FdManager Hook.
From S2P Require Import Address Socket.
From stdpp Require Import gmap.

Local Open Scope Z_scope.

(** The workers by their names, when they are not null. *)
(* sylar/tcp_server.h:112-124, TcpServer *)
Record TcpServer := mkTcpServer {
  m_socks : list nat;
  m_ioWorker : option bytes;
  m_acceptWorker : option bytes;
  m_recvTimeout : Z;
  m_name : bytes;
  m_type : bytes;
  m_isStop : bool
}.

(** [read_timeout]: the value of [tcp_server.read_timeout]. *)
(* sylar/tcp_server.cc:13-21, TcpServer::TcpServer *)
Definition new_TcpServer (read_timeout : Z) (io_worker accept_worker : option bytes) : TcpServer :=
  mkTcpServer [] io_worker accept_worker read_timeout (B "sylar/1.0.0") (B "tcp") true.

Definition set_socks l s := mkTcpServer l (m_ioWorker s) (m_acceptWorker s) (m_recvTimeout s) (m_name s) (m_type s) (m_isStop s).
(* sylar/tcp_server.h:82-82, TcpServer::setRecvTimeout *)
Definition setRecvTimeout (v : Z) (s : TcpServer) : TcpServer :=
  mkTcpServer (m_socks s) (m_ioWorker s) (m_acceptWorker s) (u64 v) (m_name s) (m_type s) (m_isStop s).
(* sylar/tcp_server.h:87-87, TcpServer::setName *)
Definition setName (v : bytes) (s : TcpServer) : TcpServer :=
  mkTcpServer (m_socks s) (m_ioWorker s) (m_acceptWorker s) (m_recvTimeout s) v (m_type s) (m_isStop s).
Definition set_stop b s := mkTcpServer (m_socks s) (m_ioWorker s) (m_acceptWorker s) (m_recvTimeout s) (m_name s) (m_type s) b.

(** An accept loop: about to look whether it goes on, or in [accept]. *)
Inductive accept_loop := AtHead (sock : nat) | InAccept (sock : nat).
Definition loop_sock (l : accept_loop) : nat := match l with AtHead p | InAccept p => p end.

Section server.
Context (host : endian) {K : Type}.
Abbreviation net := (net K).
(** What [Socket] needs. *)
Context (fstat : Z → K → option Z) (fcntl_f : Z → Z → option Z → K → Z * K).
Context (socket_f : Z → Z → Z → K → Z * K) (setsockopt_f : Z → Z → Z → Z * Z → K → Z * K).
Context (bind_f : Z → bytes → Z → K → Z * K) (listen_f : Z → Z → K → Z * K) (close_f : Z → K → Z * K).
Context (getpeername_f getsockname_f : Z → Z → K → option bytes * K).
Context (unlink_c : bytes → K → unit * K) (cancel_c : Z → option Z → K → bool * K).
Context (connect_c : Z → bytes → Z → option Z → net → Z * net) (accept_c : Z → net → Z * net).
Context (hook_enable : bool) (SOMAXCONN : Z).

(** The sockets, the server, and its fibers: accept loops, the closing
    ones, and those with a client. *)
Record world := mkWorld {
  wnet : net;
  server : TcpServer;
  loops : list accept_loop;
  closers : nat;
  clients : list nat
}.
Definition set_server f w := mkWorld (wnet w) (f (server w)) (loops w) (closers w) (clients w).
Definition set_loops f w := mkWorld (wnet w) (server w) (f (loops w)) (closers w) (clients w).
Definition set_closers n w := mkWorld (wnet w) (server w) (loops w) n (clients w).
Definition set_clients f w := mkWorld (wnet w) (server w) (loops w) (closers w) (f (clients w)).

Definition on_net {A} (m : stE net A) : stE world A :=
  λ w, let '(r, n) := m (wnet w) in (r, mkWorld n (server w) (loops w) (closers w) (clients w)).

Definition destroy := Socket.destroy fstat fcntl_f close_f cancel_c hook_enable.
Definition sock_close := Socket.close fstat fcntl_f close_f cancel_c hook_enable.

(** A pointer goes; with the last one the socket. *)
Definition release (p : nat) : stE world unit :=
  w ← get;
  if bool_decide (p ∈ m_socks (server w)) || bool_decide (p ∈ loop_sock <$> loops w) || bool_decide (p ∈ clients w)
  then mret tt else on_net (destroy p).

(** [m_socks.clear()]. *)
Definition clear_socks : stE world unit :=
  w ← get;
  _ ← modify (set_server (set_socks []));
  foldr (λ p rest, _ ← release p; rest) (mret tt) (m_socks (server w)).

(** [schedule] on a worker. *)
Definition schedule (worker : option bytes) (f : world → world) : stE world unit :=
  match worker with None => crash null_deref | Some _ => modify f end.

(* sylar/tcp_server.cc:23-28, TcpServer::~TcpServer *)
Definition delete_TcpServer : stE world unit :=
  w ← get;
  _ ← foldr (λ p rest, _ ← on_net (sock_close p); rest) (mret tt) (m_socks (server w));
  clear_socks.

(** One address: the socket is kept when it listens. *)
(* sylar/tcp_server.cc:40-55, TcpServer::bind *)
Definition bind_one (addr : Address) : stE world bool :=
  sock ← on_net (CreateTCP host addr);
  b ← on_net (Socket.bind host fstat fcntl_f socket_f setsockopt_f bind_f close_f getpeername_f getsockname_f unlink_c cancel_c connect_c hook_enable sock addr);
  if negb b then _ ← on_net (destroy sock); mret false
  else
    l ← on_net (listen listen_f sock SOMAXCONN);
    if negb l then _ ← on_net (destroy sock); mret false
    else _ ← modify (set_server (λ s, set_socks (m_socks s ++ [sock]) s)); mret true.

(* sylar/tcp_server.cc:39-56, TcpServer::bind *)
Fixpoint bind_loop (addrs fails : list Address) : stE world (list Address) :=
  match addrs with
  | [] => mret fails
  | addr :: rest => ok ← bind_one addr; bind_loop rest (if (ok : bool) then fails else fails ++ [addr])
  end.

(** With the list of addresses that failed. *)
(* sylar/tcp_server.cc:37-69, TcpServer::bind *)
Definition bind (addrs fails : list Address) : stE world (bool * list Address) :=
  fails ← bind_loop addrs fails;
  match fails with
  | [] => mret (true, [])
  | _ => _ ← clear_socks; mret (false, fails)
  end.

(* sylar/tcp_server.cc:30-35, TcpServer::bind *)
Definition bind_addr (addr : Address) : stE world bool := r ← bind [addr] []; mret r.1.

(** A round of the loop, when [accept] returns. *)
(* sylar/tcp_server.cc:73-81, TcpServer::startAccept *)
Definition accept_round (sock : nat) : stE world unit :=
  client ← on_net (accept host fstat fcntl_f setsockopt_f close_f getpeername_f getsockname_f cancel_c accept_c hook_enable sock);
  match client with
  | Some c =>
      w ← get;
      _ ← on_net (Socket.setRecvTimeout fstat fcntl_f setsockopt_f hook_enable c (i64 (m_recvTimeout (server w))));
      schedule (m_ioWorker (server w)) (set_clients (λ l, l ++ [c]))
  | None => mret tt
  end.

(** One step of the [i]-th loop: it looks at [m_isStop], or comes back from
    [accept]. *)
(* sylar/tcp_server.cc:71-83, TcpServer::startAccept *)
Definition startAccept (i : nat) : stE world unit :=
  w ← get;
  match loops w !! i with
  | Some (AtHead sock) =>
      if m_isStop (server w) then _ ← modify (set_loops (delete i)); release sock
      else modify (set_loops <[i := InAccept sock]>)
  | Some (InAccept sock) => _ ← modify (set_loops <[i := AtHead sock]>); accept_round sock
  | None => mret tt
  end.

(* sylar/tcp_server.cc:85-95, TcpServer::start *)
Definition start : stE world bool :=
  w ← get;
  if negb (m_isStop (server w)) then mret true
  else
    _ ← modify (set_server (set_stop false));
    _ ← foldr (λ p rest, _ ← schedule (m_acceptWorker (server w)) (set_loops (λ l, l ++ [AtHead p])); rest) (mret tt) (m_socks (server w));
    mret true.

(* sylar/tcp_server.cc:97-107, TcpServer::stop *)
Definition stop : stE world unit :=
  _ ← modify (set_server (set_stop true));
  w ← get;
  schedule (m_acceptWorker (server w)) (λ w, set_closers (S (closers w)) w).

(** The function [stop] schedules. *)
(* sylar/tcp_server.cc:100-106, TcpServer::stop *)
Definition run_closer : stE world unit :=
  w ← get;
  _ ← modify (set_closers (pred (closers w)));
  _ ← foldr (λ p rest, _ ← on_net (cancelAll cancel_c p); _ ← on_net (sock_close p); rest) (mret tt) (m_socks (server w));
  clear_socks.

(** The fiber of a client: it logs and lets the client go. *)
(* sylar/tcp_server.cc:109-111, TcpServer::handleClient *)
Definition handleClient (i : nat) : stE world unit :=
  w ← get;
  match clients w !! i with
  | Some c => _ ← modify (set_clients (delete i)); release c
  | None => mret tt
  end.

(* sylar/tcp_server.cc:113-127, TcpServer::toString *)
Definition toString (prefix : bytes) : stE world bytes :=
  w ← get;
  let s := server w in
  let pfx := match prefix with [] => B "    " | _ => prefix end in
  lines ← foldr (λ p rest, d ← on_net (dump host p); r ← rest; mret (pfx ++ pfx ++ d ++ [char_of 10] ++ r)) (mret []) (m_socks s);
  mret (prefix ++ B "[type=" ++ m_type s ++ B " name=" ++ m_name s
        ++ B " io_worker=" ++ default [] (m_ioWorker s) ++ B " accept=" ++ default [] (m_acceptWorker s)
        ++ B " recv_timeout=" ++ to_string (m_recvTimeout s) ++ B "]" ++ [char_of 10] ++ lines).
End server.
