(* ===== verification/TcpServerTheorems.v ===== *)
(** * What a TCP server binds, how it stops

    [bind] binds all its addresses or leaves no socket; after [stop] the
    accept loops end and the sockets are closed; when [start] comes before
    the sockets are closed, the loops go on without a socket. *)
From S2P Require Import Prelude StdString Endian.
From S2P Require FdManager Hook.
From S2P Require Import Address Socket SocketTheorems TcpServer.
From stdpp Require Import gmap.

Local Open Scope Z_scope.

(** What happens to a server. *)
Inductive event :=
  | EvBind (addrs fails : list Address) | EvStart | EvStop | EvSetTimeout (v : Z) | EvSetName (v : bytes)
  | EvLoop (i : nat) | EvCloser | EvClient (i : nat).

(** The steps a loop has left when the server has stopped. *)
Definition loop_weight (l : accept_loop) : nat := match l with AtHead _ => 1 | InAccept _ => 2 end.
Definition weight (l : list accept_loop) : nat := sum_list_with loop_weight l.

Lemma weight_insert l i a b : l !! i = Some a → (weight (<[i := b]> l) + loop_weight a = weight l + loop_weight b)%nat.
Proof.
  intros Hi. pose proof (lookup_lt_Some _ _ _ Hi). unfold weight. rewrite <- (take_drop_middle l i a Hi) at 2.
  rewrite insert_take_drop by done. rewrite !sum_list_with_app. cbn. lia.
Qed.
Lemma weight_delete l i a : l !! i = Some a → (weight (delete i l) + loop_weight a = weight l)%nat.
Proof.
  intros Hi. unfold weight. rewrite <- (take_drop_middle l i a Hi) at 2. rewrite delete_take_drop, !sum_list_with_app. cbn. lia.
Qed.
Lemma weight_zero l : weight l = 0%nat ↔ l = [].
Proof. split; [|by intros ->]. destruct l as [|[p|p] l]; unfold weight; cbn; [done|lia..]. Qed.

Section stopping.
Context (host : endian) {K : Type}.
Abbreviation net := (net K).
Abbreviation world := (@world K).
Context (fstat : Z → K → option Z) (fcntl_f : Z → Z → option Z → K → Z * K).
Context (socket_f : Z → Z → Z → K → Z * K) (setsockopt_f : Z → Z → Z → Z * Z → K → Z * K).
Context (bind_f : Z → bytes → Z → K → Z * K) (listen_f : Z → Z → K → Z * K) (close_f : Z → K → Z * K).
Context (getpeername_f getsockname_f : Z → Z → K → option bytes * K).
Context (unlink_c : bytes → K → unit * K) (cancel_c : Z → option Z → K → bool * K).
Context (connect_c : Z → bytes → Z → option Z → net → Z * net) (accept_c : Z → net → Z * net).
Context (hook_enable : bool) (SOMAXCONN : Z).
Implicit Types w : world.

Abbreviation bind := (bind host fstat fcntl_f socket_f setsockopt_f bind_f listen_f close_f getpeername_f getsockname_f unlink_c cancel_c connect_c hook_enable SOMAXCONN).
Abbreviation bind_loop := (bind_loop host fstat fcntl_f socket_f setsockopt_f bind_f listen_f close_f getpeername_f getsockname_f unlink_c cancel_c connect_c hook_enable SOMAXCONN).
Abbreviation bind_one := (bind_one host fstat fcntl_f socket_f setsockopt_f bind_f listen_f close_f getpeername_f getsockname_f unlink_c cancel_c connect_c hook_enable SOMAXCONN).
Abbreviation startAccept := (startAccept host fstat fcntl_f setsockopt_f close_f getpeername_f getsockname_f cancel_c accept_c hook_enable).
Abbreviation accept_round := (accept_round host fstat fcntl_f setsockopt_f close_f getpeername_f getsockname_f cancel_c accept_c hook_enable).
Abbreviation release := (release fstat fcntl_f close_f cancel_c hook_enable).
Abbreviation clear_socks := (clear_socks fstat fcntl_f close_f cancel_c hook_enable).
Abbreviation run_closer := (run_closer fstat fcntl_f close_f cancel_c hook_enable).
Abbreviation handleClient := (handleClient fstat fcntl_f close_f cancel_c hook_enable).

Definition perform (e : event) : stE world unit :=
  match e with
  | EvBind addrs fails => forget (bind addrs fails)
  | EvStart => forget start
  | EvStop => stop
  | EvSetTimeout v => modify (set_server (setRecvTimeout v))
  | EvSetName v => modify (set_server (setName v))
  | EvLoop i => startAccept i
  | EvCloser => run_closer
  | EvClient i => handleClient i
  end.
Definition happen (l : list event) (w : world) : world := fold_left (λ w e, (perform e w).2) l w.

(** ** The loops end *)

(** An operation that leaves the loops and [m_isStop] alone. *)
Definition quiet {A} (m : stE world A) : Prop := ∀ w, loops (m w).2 = loops w ∧ m_isStop (server (m w).2) = m_isStop (server w).

Lemma quiet_bind {A C} (m : stE world A) (f : A → stE world C) : quiet m → (∀ a, quiet (f a)) → quiet (m ≫= f).
Proof.
  intros Hm Hf w. destruct (Hm w) as [H1 H2]. unfold mbind, stE_bind. destruct (m w) as [[a|e|c] w1]; cbn in *; [|done..].
  destruct (Hf a w1) as [H3 H4]. split; congruence.
Qed.
Lemma quiet_ret {A} (a : A) : quiet (mret a).
Proof. done. Qed.
Lemma quiet_get : quiet get.
Proof. done. Qed.
Lemma quiet_on_net {A} (m : stE net A) : quiet (on_net m).
Proof. intros w. unfold on_net. by destruct (m (wnet w)). Qed.
Lemma quiet_modify f : (∀ w, loops (f w) = loops w ∧ m_isStop (server (f w)) = m_isStop (server w)) → quiet (modify f).
Proof. intros H w. apply H. Qed.
Lemma quiet_foldr {A C} (g : A → stE world C → stE world C) r l : (∀ a m, quiet m → quiet (g a m)) → quiet r → quiet (foldr g r l).
Proof. intros Hg Hr. induction l; cbn; [done|]. by apply Hg. Qed.
Lemma quiet_release p : quiet (release p).
Proof. unfold TcpServer.release. apply quiet_bind; [apply quiet_get|]. intros w. destruct (_ || _); [apply quiet_ret|apply quiet_on_net]. Qed.
Lemma quiet_clear : quiet clear_socks.
Proof.
  apply quiet_bind; [apply quiet_get|]. intros w. apply quiet_bind; [by apply quiet_modify|]. intros _.
  apply quiet_foldr; [|apply quiet_ret]. intros p m Hm. by apply quiet_bind; [apply quiet_release|].
Qed.
Lemma quiet_schedule worker f : (∀ w, loops (f w) = loops w ∧ m_isStop (server (f w)) = m_isStop (server w)) → quiet (schedule worker f).
Proof. intros H. destruct worker; [by apply quiet_modify|done]. Qed.

Ltac quiet := repeat first
  [ progress intros | assumption | apply quiet_ret | apply quiet_get | apply quiet_on_net | apply quiet_release | apply quiet_clear
  | (apply quiet_modify; done) | (apply quiet_schedule; done) | (apply quiet_foldr; [|apply quiet_ret]) | apply quiet_bind
  | match goal with |- quiet (match ?x with _ => _ end) => destruct x end ].

Lemma quiet_bind_one a : quiet (bind_one a).
Proof. unfold TcpServer.bind_one. quiet. Qed.
Lemma quiet_bind_addrs addrs fails : quiet (bind addrs fails).
Proof.
  unfold TcpServer.bind. apply quiet_bind; [|quiet]. revert fails.
  induction addrs as [|a l IH]; intros fails; cbn; [apply quiet_ret|]. apply quiet_bind; [apply quiet_bind_one|]. intros b. apply IH.
Qed.
Lemma quiet_accept_round p : quiet (accept_round p).
Proof. unfold TcpServer.accept_round. quiet. Qed.
Lemma quiet_closer : quiet run_closer.
Proof. unfold TcpServer.run_closer. quiet. Qed.
Lemma quiet_client i : quiet (handleClient i).
Proof. unfold TcpServer.handleClient. quiet. Qed.

(** A step of a stopped server's loop takes one from the weight. *)
Lemma loop_step i w : m_isStop (server w) = true →
  m_isStop (server (startAccept i w).2) = true ∧
  (weight (loops (startAccept i w).2) + (if loops w !! i is Some _ then 1 else 0) = weight (loops w))%nat.
Proof.
  intros Hs. unfold TcpServer.startAccept. rewrite get_bind, Hs. destruct (loops w !! i) as [[p|p]|] eqn:E; [..|cbn; split; [done|lia]].
  - rewrite modify_bind. destruct (quiet_release p (set_loops (delete i) w)) as [-> ->].
    split; [done|]. pose proof (weight_delete _ _ _ E). cbn [loops set_loops loop_weight] in *. lia.
  - rewrite modify_bind. destruct (quiet_accept_round p (set_loops <[i := AtHead p]> w)) as [-> ->].
    split; [done|]. pose proof (weight_insert _ _ _ (AtHead p) E). cbn [loops set_loops loop_weight] in *. lia.
Qed.

(** The steps of loops among what happens. *)
Fixpoint loop_steps (l : list event) (w : world) : nat :=
  match l with
  | [] => 0
  | e :: r => (match e with EvLoop i => if loops w !! i is Some _ then 1 else 0 | _ => 0 end + loop_steps r (perform e w).2)%nat
  end.

Lemma happen_stopped l w : EvStart ∉ l → m_isStop (server w) = true →
  m_isStop (server (happen l w)) = true ∧ (weight (loops (happen l w)) + loop_steps l w = weight (loops w))%nat.
Proof.
  unfold happen. revert w. induction l as [|e l IH]; intros w Hl Hs; [by split; [|cbn; lia]|].
  apply not_elem_of_cons in Hl as [He Hl]. cbn [fold_left loop_steps].
  assert (m_isStop (server (perform e w).2) = true ∧
    (weight (loops (perform e w).2) + match e with EvLoop i => if loops w !! i is Some _ then 1 else 0 | _ => 0 end = weight (loops w))%nat) as [H1 H2].
  { assert (Hq : ∀ m : stE world unit, quiet m → m_isStop (server (m w).2) = true ∧ (weight (loops (m w).2) + 0 = weight (loops w))%nat).
    { intros m Hm. destruct (Hm w) as [-> ->]. split; [done|lia]. }
    destruct e; cbn [perform].
    - apply Hq. apply quiet_bind; [apply quiet_bind_addrs|quiet].
    - done.
    - unfold stop. rewrite modify_bind, get_bind. destruct (m_acceptWorker _); (split; [done|apply Nat.add_0_r]).
    - apply Hq. by apply quiet_modify.
    - apply Hq. by apply quiet_modify.
    - by apply loop_step.
    - apply Hq, quiet_closer.
    - apply Hq, quiet_client. }
  destruct (IH _ Hl H1) as [H3 H4]. split; [done|lia].
Qed.

(** ** The sockets are closed *)

Section closing.
Context (getsockopt_f : Z → Z → Z → K → option Z * K) (open : K → gset Z).
Context (Hk : kernel_law fcntl_f socket_f setsockopt_f getsockopt_f bind_f listen_f close_f getpeername_f getsockname_f unlink_c cancel_c open).
Abbreviation owned := (owned open).
Abbreviation sock_close := (sock_close fstat fcntl_f close_f cancel_c hook_enable).

(** The world with other sockets. *)
Definition with_net (n : net) (w : world) : world := mkWorld n (server w) (loops w) (closers w) (clients w).
Lemma server_net_run {A} (m : stE net A) w r n : m (wnet w) = (r, n) → on_net m w = (r, with_net n w).
Proof. intros E. unfold on_net. by rewrite E. Qed.

Lemma cancelAll_run p n x : owned n → sockets n !! p = Some x →
  ∃ b n', cancelAll cancel_c p n = (Ret b, n') ∧ owned n' ∧ sockets n' = sockets n.
Proof.
  intros Hn Hx. unfold cancelAll. rewrite (stE_bind_ret _ _ _ _ _ (socket_at_run p n x Hx)), net_system_run.
  do 2 eexists. split; [done|]. split; [|done].
  eapply atomic_owned; [|exact Hn]. apply a_system; [apply wf_set_kern|]. intros q y _. cbn. by rewrite (law_cancel _ _ _ _ _ _ _ _ _ _ _ _ Hk).
Qed.

Lemma close_all l w : owned (wnet w) → (∀ p, p ∈ l → is_Some (sockets (wnet w) !! p)) →
  ∃ n', foldr (λ p rest, _ ← on_net (cancelAll cancel_c p); _ ← on_net (sock_close p); rest) (mret tt) l w = (Ret tt, with_net n' w) ∧
    owned n' ∧ ∀ q, sockets n' !! q = if decide (q ∈ l) then closed <$> sockets (wnet w) !! q else sockets (wnet w) !! q.
Proof.
  revert w. induction l as [|p l IH]; intros w Hn Hl.
  { exists (wnet w). split; [by destruct w|]. split; [done|]. intros q. rewrite decide_False; [done|]. apply not_elem_of_nil. }
  destruct (Hl p ltac:(left)) as [x Hx]. cbn [foldr].
  destruct (cancelAll_run p (wnet w) x Hn Hx) as (b & n1 & E1 & Hn1 & Hs1).
  rewrite (stE_bind_ret _ _ _ _ _ (server_net_run _ w _ _ E1)).
  destruct (close_run fstat fcntl_f socket_f setsockopt_f getsockopt_f bind_f listen_f close_f getpeername_f getsockname_f
    unlink_c cancel_c hook_enable open Hk p n1 x Hn1 ltac:(by rewrite Hs1)) as (c & s & E2 & Hwf & Ho).
  set (n2 := mkNet (<[p := closed x]> (sockets n1)) (next n1) s) in *.
  assert (owned n2) as Hn2.
  { eapply atomic_invariant; [exact (atomic_owned open)| |exact Hn1]. apply closed_atomic; try done. by rewrite Hs1. }
  rewrite (stE_bind_ret _ _ _ c (with_net n2 w)) by (by apply (server_net_run _ (with_net n1 w))).
  destruct (IH (with_net n2 w) Hn2) as (n' & E & Hn' & Hq).
  { intros q Hq. unfold n2. cbn. rewrite Hs1, lookup_insert_is_Some'. right. apply Hl. by right. }
  exists n'. split; [exact E|]. split; [done|]. intros q. rewrite Hq. unfold n2. cbn. rewrite Hs1.
  destruct (decide (q = p)) as [->|Hne].
  - rewrite lookup_insert_eq, Hx, (decide_True (P := p ∈ p :: l)) by left. by case_decide.
  - rewrite lookup_insert_ne by done. destruct (decide (q ∈ l)); [rewrite decide_True by (by right)|rewrite decide_False by (by intros [?|?]%elem_of_cons)]; done.
Qed.

(** A fiber has a pointer to the socket. *)
Definition held w (p : nat) : Prop := p ∈ loop_sock <$> loops w ∨ p ∈ clients w.
#[local] Instance held_dec w p : Decision (held w p) := ltac:(unfold held; apply _).

Lemma release_all l w : m_socks (server w) = [] → owned (wnet w) → NoDup l → (∀ p, p ∈ l → is_Some (sockets (wnet w) !! p)) →
  ∃ n', foldr (λ p rest, _ ← release p; rest) (mret tt) l w = (Ret tt, with_net n' w) ∧ owned n' ∧
    ∀ q, sockets n' !! q = if decide (q ∈ l ∧ ¬ held w q) then None else sockets (wnet w) !! q.
Proof.
  intros Hm. revert w Hm. induction l as [|p l IH]; intros w Hm Hn Hnd Hl.
  { exists (wnet w). split; [by destruct w|]. split; [done|]. intros q. rewrite decide_False; [done|]. by intros [?%elem_of_nil _]. }
  apply NoDup_cons in Hnd as [Hp Hnd]. destruct (Hl p ltac:(left)) as [x Hx]. cbn [foldr].
  assert (∃ n1, release p w = (Ret tt, with_net n1 w) ∧ owned n1 ∧
    ∀ q, sockets n1 !! q = if decide (q = p ∧ ¬ held w p) then None else sockets (wnet w) !! q) as (n1 & E1 & Hn1 & Hq1).
  { unfold TcpServer.release. rewrite get_bind, Hm. rewrite (bool_decide_eq_false_2 (p ∈ [])) by apply not_elem_of_nil. cbn [orb].
    destruct (decide (held w p)) as [Hh|Hh].
    - exists (wnet w). assert (bool_decide (p ∈ loop_sock <$> loops w) || bool_decide (p ∈ clients w) = true) as ->.
      { apply orb_true_iff. rewrite !bool_decide_eq_true. exact Hh. }
      split; [by destruct w|]. split; [done|]. intros q. rewrite decide_False; [done|]. tauto.
    - assert (bool_decide (p ∈ loop_sock <$> loops w) || bool_decide (p ∈ clients w) = false) as ->.
      { apply orb_false_iff. rewrite !bool_decide_eq_false. unfold held in Hh. tauto. }
      destruct (destroy_run fstat fcntl_f socket_f setsockopt_f getsockopt_f bind_f listen_f close_f getpeername_f getsockname_f
        unlink_c cancel_c hook_enable open Hk p (wnet w) x Hn Hx) as (s & E & _).
      pose proof (destroy_preserves fstat fcntl_f socket_f setsockopt_f getsockopt_f bind_f listen_f close_f getpeername_f getsockname_f
        unlink_c cancel_c hook_enable open Hk p (wnet w) Hn Logic.I) as [Ha _].
      rewrite E in Ha. eexists. split; [by apply server_net_run|]. split; [by eapply atomic_invariant; [exact (atomic_owned open)|exact Ha|]|].
      intros q. cbn. destruct (decide (q = p)) as [->|Hne].
      + by rewrite lookup_delete_eq, decide_True.
      + rewrite lookup_delete_ne, decide_False by (done || tauto). done. }
  rewrite (stE_bind_ret _ _ _ _ _ E1).
  destruct (IH (with_net n1 w) Hm Hn1 Hnd) as (n' & E & Hn' & Hq).
  { intros q Hq. cbn. rewrite Hq1, decide_False by (intros [-> _]; done). apply Hl. by right. }
  exists n'. split; [exact E|]. split; [done|]. intros q. rewrite Hq. cbn. rewrite Hq1. unfold held in *. cbn in *.
  pose proof (elem_of_cons l q p). repeat case_decide; try done; naive_solver.
Qed.

Lemma run_closer_spec w : owned (wnet w) → NoDup (m_socks (server w)) →
  (∀ p, p ∈ m_socks (server w) → is_Some (sockets (wnet w) !! p)) →
  ∃ w', run_closer w = (Ret tt, w') ∧ server w' = set_socks [] (server w) ∧ loops w' = loops w ∧ clients w' = clients w ∧
    owned (wnet w') ∧ ∀ p, sockets (wnet w') !! p =
      if decide (p ∈ m_socks (server w)) then if decide (held w p) then closed <$> sockets (wnet w) !! p else None
      else sockets (wnet w) !! p.
Proof.
  intros Hn Hnd Hl. unfold TcpServer.run_closer. rewrite get_bind, modify_bind. set (w1 := set_closers _ w).
  destruct (close_all (m_socks (server w)) w1 Hn Hl) as (n1 & E1 & Hn1 & Hq1). rewrite (stE_bind_ret _ _ _ _ _ E1).
  unfold TcpServer.clear_socks. rewrite get_bind, modify_bind. set (w2 := set_server (set_socks []) (with_net n1 w1)).
  destruct (release_all (m_socks (server w)) w2 eq_refl Hn1 Hnd) as (n2 & E2 & Hn2 & Hq2).
  { intros p Hp. cbn. rewrite Hq1, decide_True by done. destruct (Hl p Hp) as [x Hx]. cbn. by rewrite Hx. }
  eexists. split; [exact E2|]. split_and!; try done. intros p. cbn. rewrite Hq2. cbn. rewrite Hq1.
  assert (held w2 p ↔ held w p) as Hheld by done.
  destruct (decide (p ∈ m_socks (server w))) as [Hp|Hp].
  - destruct (decide (held w p)) as [Hh|Hh]; [rewrite decide_False by tauto|rewrite decide_True by tauto]; done.
  - by rewrite decide_False by tauto.
Qed.

(** C32: a server that is stopped comes to rest.  After [stop], whatever
    happens but a [start], the loops take no more steps than they have
    left, one or two each, and none is left once they have taken them.  The
    function [stop] schedules ends, leaves the server without sockets, and
    closes each: one that a loop still has is closed and disconnected, the
    others are destroyed; no other socket is touched. *)
Theorem server_stops w :
  (∀ l, EvStart ∉ l → let w' := happen (EvStop :: l) w in
    m_isStop (server w') = true ∧ (weight (loops w') + loop_steps l (stop w).2 = weight (loops w))%nat ∧
    (loops w' = [] ↔ loop_steps l (stop w).2 = weight (loops w))) ∧
  (owned (wnet w) → NoDup (m_socks (server w)) → (∀ p, p ∈ m_socks (server w) → is_Some (sockets (wnet w) !! p)) →
    ∃ w', run_closer w = (Ret tt, w') ∧ m_socks (server w') = [] ∧ m_isStop (server w') = m_isStop (server w) ∧
      loops w' = loops w ∧ ∀ p, sockets (wnet w') !! p =
        if decide (p ∈ m_socks (server w)) then if decide (held w p) then closed <$> sockets (wnet w) !! p else None
        else sockets (wnet w) !! p).
Proof.
  split.
  - intros l Hl w'. assert (Hs : m_isStop (server (stop w).2) = true ∧ loops (stop w).2 = loops w).
    { unfold stop. rewrite modify_bind, get_bind. by destruct (m_acceptWorker _). }
    destruct Hs as [H1 H2]. destruct (happen_stopped l (stop w).2 Hl H1) as [H3 H4]. rewrite H2 in H4.
    split; [exact H3|]. split; [exact H4|]. rewrite <- weight_zero. unfold w', happen in *. cbn [fold_left perform]. lia.
  - intros Hn Hnd Hl. destruct (run_closer_spec w Hn Hnd Hl) as (w' & E & Hs & Hlo & _ & _ & Hq).
    exists w'. split; [exact E|]. rewrite Hs. by split_and!.
Qed.
End closing.

(** ** A server that is started again too early *)

Abbreviation accept := (accept host fstat fcntl_f setsockopt_f close_f getpeername_f getsockname_f cancel_c accept_c hook_enable).

Lemma accept_closed p n x : (∀ n, accept_c (-1) n = (-1, n)) → sockets n !! p = Some x → m_sock x = -1 → sockets n !! next n = None →
  accept p n = (Ret None, mkNet (sockets n) (S (next n)) (fds n)).
Proof.
  intros Ha Hx Hs Hfree. unfold Socket.accept. rewrite (stE_bind_ret _ _ _ _ _ (socket_at_run p n x Hx)).
  set (y := new_Socket _ _ _). set (n1 := mkNet (<[next n := y]> (sockets n)) (S (next n)) (fds n)).
  rewrite (stE_bind_ret _ _ n (next n) n1) by done. rewrite Hs.
  rewrite (stE_bind_ret _ _ n1 (-1) n1) by (unfold wait; by rewrite Ha).
  rewrite (stE_bind_ret _ _ n1 (-1) n1) by done. rewrite Z.eqb_refl.
  rewrite (stE_bind_ret _ _ n1 tt (mkNet (sockets n) (S (next n)) (fds n))); [done|].
  unfold Socket.destroy, Socket.close.
  rewrite (stE_bind_ret _ _ n1 true n1).
  2:{ rewrite (stE_bind_ret _ _ _ _ _ (socket_at_run (next n) n1 y ltac:(apply lookup_insert_eq))). done. }
  unfold modify, set_sockets, n1. cbn. by rewrite delete_insert_eq, delete_id.
Qed.

Lemma happen_app l1 l2 w : happen (l1 ++ l2) w = happen l2 (happen l1 w).
Proof. unfold happen. by rewrite fold_left_app. Qed.

Lemma start_run w name : m_acceptWorker (server w) = Some name → m_isStop (server w) = true →
  start w = (Ret true, set_loops (λ l, l ++ (AtHead <$> m_socks (server w))) (set_server (set_stop false) w)).
Proof.
  intros Hn Hs. unfold start. rewrite get_bind, Hs. cbn [negb]. rewrite modify_bind, Hn. set (w1 := set_server _ w).
  assert (∀ l v, foldr (λ p rest, _ ← schedule (Some name) (set_loops (λ l, l ++ [AtHead p])); rest) (mret tt) l v
    = (Ret tt, @set_loops K (λ l', l' ++ (AtHead <$> l)) v)) as H.
  { induction l as [|p l IH]; intros v; cbn [foldr].
    - unfold set_loops. cbn. rewrite app_nil_r. by destruct v.
    - rewrite (stE_bind_ret _ _ v tt (set_loops (λ l, l ++ [AtHead p]) v)) by done. rewrite IH. unfold set_loops. cbn. by rewrite <- (assoc_L (++)). }
  by rewrite (stE_bind_ret _ _ _ _ _ (H _ w1)).
Qed.

(** Starting a stopped server before its sockets are closed.  [stop]
    schedules the closing; a [start] that comes first makes the server run,
    with a loop for each socket, and the closing stays scheduled.  Once the
    sockets are closed a loop of the running server goes on for ever: after
    any number of rounds, each of which fails at once, the loops and all
    sockets are as before. *)
Theorem restart_spins :
  (∀ w, is_Some (m_acceptWorker (server w)) → let w' := happen [EvStop; EvStart] w in
    m_isStop (server w') = false ∧ closers w' = S (closers w) ∧ loops w' = loops w ++ (AtHead <$> m_socks (server w))) ∧
  ((∀ n, accept_c (-1) n = (-1, n)) → ∀ w i p x k, m_isStop (server w) = false →
    loops w !! i = Some (AtHead p) → sockets (wnet w) !! p = Some x → m_sock x = -1 →
    (∀ q, is_Some (sockets (wnet w) !! q) → (q < next (wnet w))%nat) →
    let w' := happen (replicate (2 * k) (EvLoop i)) w in
    m_isStop (server w') = false ∧ loops w' = loops w ∧ clients w' = clients w ∧
    sockets (wnet w') = sockets (wnet w) ∧ fds (wnet w') = fds (wnet w)).
Proof.
  split.
  { intros w [name Hw]. unfold happen. cbn [fold_left perform]. unfold stop. rewrite modify_bind, get_bind. cbn [server set_server m_acceptWorker set_stop].
    rewrite Hw. unfold schedule, forget. cbn [modify snd]. by erewrite stE_bind_ret by (by apply (start_run _ name)). }
  intros Ha w i p x k Hs Hi Hx Hc Hfree. revert w Hs Hi Hx Hfree. induction k as [|k IH]; intros w Hs Hi Hx Hfree; [done|].
  replace (2 * S k)%nat with (2 + 2 * k)%nat by lia. rewrite replicate_add, happen_app.
  set (n' := mkNet (sockets (wnet w)) (S (next (wnet w))) (fds (wnet w))).
  assert (happen (replicate 2 (EvLoop i)) w = with_net n' w) as ->.
  { set (w1 := set_loops <[i := InAccept p]> w).
    assert (E1 : startAccept i w = (Ret tt, w1)).
    { unfold TcpServer.startAccept. by rewrite get_bind, Hi, Hs. }
    assert (E2 : startAccept i w1 = (Ret tt, with_net n' w)).
    { unfold TcpServer.startAccept. rewrite get_bind. cbn [loops set_loops w1].
      rewrite list_lookup_insert_eq by (by eapply lookup_lt_Some). rewrite modify_bind. unfold TcpServer.accept_round.
      rewrite (stE_bind_ret _ _ _ None (with_net n' (set_loops <[i := AtHead p]> w1))).
      - unfold with_net, set_loops. cbn. rewrite list_insert_insert_eq, list_insert_id by done. by destruct w.
      - apply server_net_run. apply (accept_closed p (wnet w) x Ha Hx Hc).
        destruct (sockets (wnet w) !! next (wnet w)) eqn:E; [|done]. specialize (Hfree (next (wnet w)) ltac:(by rewrite E)). lia. }
    unfold happen. cbn [replicate fold_left perform]. by rewrite E1; cbn [snd]; rewrite E2. }
  destruct (IH (with_net n' w)) as (H1 & H2 & H3 & H4 & H5); try done.
  intros q Hq. specialize (Hfree q Hq). cbn. lia.
Qed.

(** ** All addresses or none *)

(** An operation that brings no socket that was not there back. *)
Definition shrinks {A} (m : stE net A) : Prop := ∀ n q, sockets n !! q = None → sockets (m n).2 !! q = None.
Lemma shrinks_bind {A C} (m : stE net A) (f : A → stE net C) : shrinks m → (∀ a, shrinks (f a)) → shrinks (m ≫= f).
Proof.
  intros Hm Hf n q Hq. specialize (Hm n q Hq). unfold mbind, stE_bind. destruct (m n) as [[a|e|c] n1]; [by apply Hf|done..].
Qed.
Lemma shrinks_upd p f : shrinks (upd p f).
Proof.
  intros n q Hq. unfold upd, mbind, stE_bind, socket_at, query. destruct (sockets n !! p) as [x|] eqn:E; [|done].
  cbn. rewrite lookup_insert_ne; [done|]. congruence.
Qed.
Lemma shrinks_on_fds {A} (m : stE _ A) : shrinks (on_fds m).
Proof. intros n q Hq. unfold on_fds. by destruct (m (fds n)). Qed.
Lemma shrinks_ret {A} (a : A) : shrinks (mret a).
Proof. by intros n q. Qed.

Lemma shrinks_close p : shrinks (Socket.close fstat fcntl_f close_f cancel_c hook_enable p).
Proof.
  unfold Socket.close. apply shrinks_bind; [by intros n q|]. intros x. destruct (_ && _); [apply shrinks_ret|].
  apply shrinks_bind; [apply shrinks_upd|]. intros _. apply shrinks_bind; [|intros _; apply shrinks_ret].
  destruct (negb _); [|apply shrinks_ret]. apply shrinks_bind; [|intros; apply shrinks_upd].
  unfold Socket.hooked_close. destruct (negb hook_enable); [apply shrinks_on_fds|]. apply shrinks_bind; [apply shrinks_on_fds|].
  intros ctx. apply shrinks_bind; [|intros _; apply shrinks_on_fds]. destruct ctx; [|apply shrinks_ret].
  apply shrinks_bind; [apply shrinks_on_fds|]. intros _. apply shrinks_on_fds.
Qed.

(** A destroyed socket is gone. *)
Lemma destroy_gone p n n' : Socket.destroy fstat fcntl_f close_f cancel_c hook_enable p n = (Ret tt, n') →
  sockets n' !! p = None ∧ ∀ q, sockets n !! q = None → sockets n' !! q = None.
Proof.
  unfold Socket.destroy. intros H. apply stE_bind_inv in H as (b & n1 & E & [= <-]). cbn. split; [apply lookup_delete_eq|].
  intros q Hq. apply lookup_delete_None. right. pose proof (shrinks_close p n q Hq) as Hc. by rewrite E in Hc.
Qed.

(** The part of the world [bind] does not touch. *)
Definition fibers_of w := (loops w, clients w, m_isStop (server w)).

Lemma release_gone l w w' : foldr (λ p rest, _ ← release p; rest) (mret tt) l w = (Ret tt, w') →
  server w' = server w ∧ fibers_of w' = fibers_of w ∧
  ∀ p, p ∈ l ∧ p ∉ m_socks (server w) ∧ ¬ held w p ∨ sockets (wnet w) !! p = None → sockets (wnet w') !! p = None.
Proof.
  revert w. induction l as [|q l IH]; intros w; cbn [foldr].
  { intros [= <-]. split_and!; [done|done|]. intros p [(Hp & _)|?]; [by apply elem_of_nil in Hp|done]. }
  intros H. apply stE_bind_inv in H as ([] & w1 & E & H). destruct (IH _ H) as (H1 & H2 & H3).
  unfold TcpServer.release in E. rewrite get_bind in E.
  destruct (bool_decide (q ∈ m_socks (server w)) || bool_decide (q ∈ loop_sock <$> loops w) || bool_decide (q ∈ clients w)) eqn:Eh.
  - injection E as <-. split_and!; [done|done|]. intros p [(Hp & Hm & Hh)|?]; [|apply H3; by right]. apply H3. left.
    split; [|done]. apply elem_of_cons in Hp as [->|?]; [exfalso|done].
    rewrite !orb_true_iff, !bool_decide_eq_true in Eh. unfold held in Hh. tauto.
  - unfold on_net in E. destruct (TcpServer.destroy _ _ _ _ _ q (wnet w)) as [r n1] eqn:Ed. injection E as -> <-.
    destruct (destroy_gone q (wnet w) n1 Ed) as [Hg1 Hg2]. split_and!; [done|done|].
    intros p [(Hp & Hm & Hh)|Hp]; apply H3; [|right; by apply Hg2].
    apply elem_of_cons in Hp as [->|Hp]; [by right|left; split; [done|by split]].
Qed.

Lemma clear_gone w w' : clear_socks w = (Ret tt, w') →
  m_socks (server w') = [] ∧ fibers_of w' = fibers_of w ∧
  ∀ p, p ∈ m_socks (server w) → ¬ held w p → sockets (wnet w') !! p = None.
Proof.
  unfold TcpServer.clear_socks. rewrite get_bind, modify_bind. intros H. apply release_gone in H as (H1 & H2 & H3).
  rewrite H1. split_and!; [done|by rewrite H2|]. intros p Hp Hh. apply H3. left. split_and!; [done|apply not_elem_of_nil|done].
Qed.

(** *** One socket at a time *)

(** An operation that concerns the socket at [q] only, of which it keeps
    what [I] says. *)
Definition one_socket (I : Socket → Prop) {A} (q : nat) (m : stE net A) : Prop := ∀ n,
  next (m n).2 = next n ∧ (∀ p, p ≠ q → sockets (m n).2 !! p = sockets n !! p) ∧
  (∀ x, sockets n !! q = Some x → I x → ∀ y, sockets (m n).2 !! q = Some y → I y) ∧
  (is_Some (sockets (m n).2 !! q) → is_Some (sockets n !! q)).

Lemma one_bind I {A C} q (m : stE net A) (f : A → stE net C) : one_socket I q m → (∀ a, one_socket I q (f a)) → one_socket I q (m ≫= f).
Proof.
  intros Hm Hf n. destruct (Hm n) as (H1 & H2 & H3 & H3'). unfold mbind, stE_bind. destruct (m n) as [[a|e|c] n1]; cbn in *; [|done..].
  destruct (Hf a n1) as (H4 & H5 & H6 & H6'). split; [congruence|]. split; [intros p Hp; by rewrite H5, H2|]. split; [|auto].
  intros x Hx HI y Hy. destruct H6' as [z Hz]; [by exists y|]. eapply H6; [exact Hz|by eapply H3|done].
Qed.
Lemma one_same I {A} q (m : stE net A) : (∀ n, sockets (m n).2 = sockets n ∧ next (m n).2 = next n) → one_socket I q m.
Proof. intros H n. destruct (H n) as [-> ->]. split_and!; [done|done| |done]. congruence. Qed.
Lemma one_ret I {A} q (a : A) : one_socket I q (mret a).
Proof. by apply one_same. Qed.
Lemma one_on_fds I {A} q (m : stE _ A) : one_socket I q (on_fds m).
Proof. apply one_same. intros n. unfold on_fds. by destruct (m (fds n)). Qed.
Lemma one_socket_at I q p : one_socket I q (socket_at p).
Proof. by apply one_same. Qed.
Lemma one_upd (I : Socket → Prop) q f : (∀ x, I x → I (f x)) → one_socket I q (upd q f).
Proof.
  intros Hf n. unfold upd, mbind, stE_bind, socket_at, query. destruct (sockets n !! q) as [x|] eqn:E; cbn.
  - split_and!; [done|by intros p Hp; rewrite lookup_insert_ne| |by intros _; exists x].
    intros z [= <-] HI y. rewrite lookup_insert_eq. intros [= <-]. auto.
  - split_and!; [done|done|congruence|]. intros Hs. rewrite E in Hs. by destruct Hs.
Qed.
Ltac one := repeat first
  [ progress intros | assumption | apply one_ret | apply one_on_fds | apply one_socket_at | (apply one_upd; done) | apply one_bind
  | match goal with |- one_socket _ _ (match ?x with _ => _ end) => destruct x end ].

Lemma one_initSock I q : one_socket I q (initSock fstat fcntl_f setsockopt_f hook_enable q).
Proof. unfold initSock, setOption. one. Qed.
Abbreviation one_socket_only := (one_socket (λ _, True)).
Lemma one_newSock q : one_socket_only q (newSock fstat fcntl_f socket_f setsockopt_f hook_enable q).
Proof. unfold newSock, initSock, setOption. one. Qed.
Lemma one_local q : one_socket_only q (getLocalAddress host getsockname_f q).
Proof. unfold getLocalAddress, system. one. Qed.
Lemma one_close q : one_socket_only q (Socket.close fstat fcntl_f close_f cancel_c hook_enable q).
Proof. unfold Socket.close, Socket.hooked_close, system. one. Qed.
Lemma one_destroy q : one_socket_only q (Socket.destroy fstat fcntl_f close_f cancel_c hook_enable q).
Proof.
  unfold Socket.destroy. apply one_bind; [apply one_close|]. intros _ n. cbn. split; [done|].
  split_and!; [by intros p Hp; rewrite lookup_delete_ne|done|]. rewrite lookup_delete_eq. by intros [].
Qed.
Lemma one_listen q b : one_socket_only q (listen listen_f q b).
Proof. unfold listen, system. one. Qed.

Lemma one_elsewhere I {A} q (m : stE net A) (n n' : net) r : one_socket I q m → m n = (r, n') →
  next n' = next n ∧ ∀ p, p ≠ q → sockets n' !! p = sockets n !! p.
Proof. intros Hm E. destruct (Hm n) as (H1 & H2 & _). by rewrite E in *. Qed.

(** *** Binding one address *)

Definition is_unix (a : Address) : bool := match a with UnixAddress _ _ => true | _ => false end.

Abbreviation sock_bind := (Socket.bind host fstat fcntl_f socket_f setsockopt_f bind_f close_f getpeername_f getsockname_f unlink_c cancel_c connect_c hook_enable).

Lemma one_sock_bind q a : is_unix a = false → one_socket_only q (sock_bind q a).
Proof.
  intros Ha. unfold Socket.bind, system.
  repeat first [ progress intros | apply one_local | apply one_newSock | (destruct a; try discriminate Ha; apply one_ret) | apply one_ret | apply one_on_fds
    | apply one_socket_at | (apply one_upd; done) | apply one_bind
    | match goal with |- one_socket _ _ (if ?x then _ else _) => destruct x end ].
Qed.

Lemma socket_at_inv p (n n' : net) x : socket_at p n = (Ret x, n') → n' = n ∧ sockets n !! p = Some x.
Proof. unfold socket_at, query. destruct (sockets n !! p); by intros [= -> <-]. Qed.
Lemma upd_inv p f (n n' : net) : upd p f n = (Ret tt, n') → ∃ x, sockets n !! p = Some x ∧ n' = set_sockets <[p := f x]> n.
Proof. intros H. apply stE_bind_inv in H as (x & n1 & E & [= <-]). apply socket_at_inv in E as [-> E]. by exists x. Qed.
Lemma system_inv {A} (f : K → A * K) (n n' : net) a : system f n = (Ret a, n') →
  (f (FdManager.kern (fds n))).1 = a ∧ sockets n' = sockets n.
Proof. rewrite net_system_run. by intros [= <- <-]. Qed.

(** The kernel agreed to bind the descriptor of the socket at [p] to the
    address, and to listen on it. *)
Definition listens (a : Address) (p : nat) (n : net) : Prop := ∃ x,
  sockets n !! p = Some x ∧ m_sock x ≠ -1 ∧
  (∃ k, (bind_f (m_sock x) (getAddr host a) (getAddrLen a) k).1 = 0) ∧
  (∃ k, (listen_f (m_sock x) SOMAXCONN k).1 = 0) ∧
  (is_unix a = false → m_localAddress x = Some a ∧ m_family x = getFamily host a).

(** The kernel refused a descriptor, the address or to listen; or it is the
    address of a Unix socket, for which [bind] first tries to connect. *)
Definition refused (a : Address) : Prop :=
  (∃ k, (socket_f (getFamily host a) SOCK_STREAM 0 k).1 = -1) ∨
  (∃ fd k, (bind_f fd (getAddr host a) (getAddrLen a) k).1 ≠ 0) ∨
  (∃ fd k, (listen_f fd SOMAXCONN k).1 ≠ 0) ∨ is_unix a = true.

Lemma newSock_inv p (n n' : net) x : sockets n !! p = Some x →
  newSock fstat fcntl_f socket_f setsockopt_f hook_enable p n = (Ret tt, n') →
  ∃ k, sockets n' !! p = Some (set_sock (socket_f (m_family x) (Socket.m_type x) (m_protocol x) k).1 x).
Proof.
  intros Hx. unfold newSock. rewrite (stE_bind_ret _ _ _ _ _ (socket_at_run p n x Hx)). intros H.
  apply stE_bind_inv in H as (fd & n1 & E1 & H). apply stE_bind_inv in H as ([] & n2 & E2 & H).
  assert (sockets n1 = sockets n ∧ ∃ k, fd = (socket_f (m_family x) (Socket.m_type x) (m_protocol x) k).1) as [S1 [k ->]].
  { unfold on_fds in E1. destruct (Hook.socket _ _ _ _ _ _ _ (fds n)) as [r s] eqn:E. injection E1 as -> <-. split; [done|].
    unfold Hook.socket in E. apply stE_bind_inv in E as (fd' & s1 & Es & E). unfold Hook.system in Es.
    exists (FdManager.kern (fds n)). destruct (socket_f _ _ _ _) as [v k]. injection Es as <- <-.
    destruct (negb hook_enable); [by injection E as <- _|]. destruct (v =? -1); [by injection E as <- _|].
    apply stE_bind_inv in E as (? & ? & _ & E). by injection E as <- _. }
  exists k. apply upd_inv in E2 as (x1 & Hx1 & ->). rewrite S1, Hx in Hx1. injection Hx1 as <-. set (fd := (socket_f _ _ _ k).1) in *.
  assert (Hp : sockets (set_sockets <[p := set_sock fd x]> n1) !! p = Some (set_sock fd x)) by apply lookup_insert_eq.
  destruct (negb (fd =? -1)); [|by injection H as <-].
  destruct (sockets n' !! p) as [y|] eqn:Ey.
  - f_equal. destruct (one_initSock (λ y, y = set_sock fd x) p (set_sockets <[p := set_sock fd x]> n1)) as (_ & _ & Hi & _).
    rewrite H in Hi. by eapply Hi.
  - exfalso. unfold initSock in H. rewrite (stE_bind_ret _ _ _ _ _ (socket_at_run p _ _ Hp)) in H.
    assert (Hs : ∀ m l o v r m', setOption fstat fcntl_f setsockopt_f hook_enable p l o v m = (Ret r, m') → sockets m' = sockets m).
    { intros m l o v r m' E. unfold setOption in E. apply stE_bind_inv in E as (? & ? & Eq & E). apply socket_at_inv in Eq as [-> _].
      apply stE_bind_inv in E as (? & ? & Eo & [= _ <-]). unfold on_fds in Eo. destruct (setsockopt _ _ _ _ _ _ _ _ _) as [? ?].
      by injection Eo as _ <-. }
    apply stE_bind_inv in H as (? & n3 & E3 & H). apply Hs in E3. rewrite <- E3 in Hp.
    destruct (_ =? _); [|injection H as <-; congruence]. apply stE_bind_inv in H as (? & n4 & E4 & [= <-]). apply Hs in E4. congruence.
Qed.

Lemma local_kept p (n n' : net) x a b : m_localAddress x = Some a → sockets n !! p = Some x →
  getLocalAddress host getsockname_f p n = (Ret b, n') → n' = n.
Proof.
  intros Hl Hx. unfold getLocalAddress. rewrite (stE_bind_ret _ _ _ _ _ (socket_at_run p n x Hx)), Hl. by intros [= _ <-].
Qed.

(** [getLocalAddress] does not touch the descriptor. *)
Lemma local_same_sock p (n n' : net) x b : sockets n !! p = Some x →
  getLocalAddress host getsockname_f p n = (Ret b, n') → ∃ y, sockets n' !! p = Some y ∧ m_sock y = m_sock x.
Proof.
  intros Hx. unfold getLocalAddress. rewrite (stE_bind_ret _ _ _ _ _ (socket_at_run p n x Hx)).
  destruct (m_localAddress x); [intros [= _ <-]; by exists x|]. intros H. apply stE_bind_inv in H as (nm & n1 & E & H).
  apply system_inv in E as [_ S1]. destruct nm; [|injection H as _ <-; exists x; by rewrite S1].
  apply stE_bind_inv in H as ([] & n2 & E & [= _ <-]). apply upd_inv in E as (y & Hy & ->). rewrite S1, Hx in Hy.
  injection Hy as <-. eexists. split; [apply lookup_insert_eq|done].
Qed.

(** The socket [bind] works on, once it has a descriptor. *)
Lemma bind_socket p a (n n1 n2 : net) x : sockets n !! p = Some x → m_sock x = -1 → upd p (set_local (Some a)) n = (Ret tt, n1) →
  (if isValid (set_local (Some a) x) then mret tt else newSock fstat fcntl_f socket_f setsockopt_f hook_enable p) n1 = (Ret tt, n2) →
  ∃ k, sockets n2 !! p = Some (set_sock (socket_f (m_family x) (Socket.m_type x) (m_protocol x) k).1 (set_local (Some a) x)).
Proof.
  intros Hx Hs Hu Hn. apply upd_inv in Hu as (y & Hy & ->). rewrite Hx in Hy. injection Hy as <-.
  unfold isValid in Hn. cbn in Hn. rewrite Hs in Hn. cbn in Hn.
  eapply (newSock_inv p _ _ (set_local (Some a) x)) in Hn as [k Hk]; [by exists k|apply lookup_insert_eq].
Qed.

(** What [Socket::bind] on a new socket tells. *)
Lemma sock_bind_spec p a (n n' : net) x b : sockets n !! p = Some x → x = new_Socket (getFamily host a) SOCK_STREAM 0 →
  sock_bind p a n = (Ret b, n') →
  if b then ∃ y, sockets n' !! p = Some y ∧ (∃ k, (bind_f (m_sock y) (getAddr host a) (getAddrLen a) k).1 = 0) ∧
    (is_unix a = false → m_localAddress y = Some a ∧ m_family y = getFamily host a ∧ m_sock y ≠ -1)
  else refused a.
Proof.
  intros Hx Ex H. unfold Socket.bind in H. apply stE_bind_inv in H as ([] & n1 & E1 & H).
  apply stE_bind_inv in H as (x1 & n1' & E1' & H). apply socket_at_inv in E1' as [-> Hx1].
  assert (x1 = set_local (Some a) x) as ->.
  { apply upd_inv in E1 as (y & Hy & ->). rewrite Hx in Hy. injection Hy as <-. cbn in Hx1. rewrite lookup_insert_eq in Hx1. congruence. }
  apply stE_bind_inv in H as ([] & n2 & E2 & H).
  destruct (bind_socket p a n n1 n2 x Hx ltac:(by rewrite Ex) E1 E2) as [k Hk]. rewrite Ex in Hk. cbn in Hk.
  set (fd := (socket_f _ _ _ k).1) in Hk. apply stE_bind_inv in H as (x2 & n2' & E3 & H).
  apply socket_at_inv in E3 as [-> Hx2]. rewrite Hk in Hx2. injection Hx2 as <-.
  unfold isValid in H. cbn in H. destruct (Z.eqb_spec fd (-1)) as [Efd|Efd]; cbn in H.
  { injection H as <- <-. left. by exists k. }
  rewrite Z.eqb_refl in H. cbn in H. apply stE_bind_inv in H as (served & n3 & E4 & H).
  destruct served; [injection H as <- <-; right; right; right; by destruct a; try (injection E4 as [=])|].
  apply stE_bind_inv in H as (x3 & n3' & E5 & H). apply socket_at_inv in E5 as [-> Hx3].
  apply stE_bind_inv in H as (r & n4 & E6 & H). apply system_inv in E6 as [Er S4].
  destruct (Z.eqb_spec r 0) as [Hr|Hr]; cbn in H; [|injection H as <- <-; right; left; do 2 eexists; by rewrite Er].
  apply stE_bind_inv in H as (l & n5 & E7 & [= <- <-]). rewrite <- S4 in Hx3.
  destruct (local_same_sock _ _ _ _ _ Hx3 E7) as (y & Hy & Hsy). exists y. split; [done|]. rewrite Hsy. split; [by eexists; rewrite Er|].
  intros Ha. assert (n3 = n2) as -> by (destruct a; try discriminate Ha; injection E4; congruence).
  rewrite S4, Hk in Hx3. injection Hx3 as <-. rewrite <- S4 in Hk.
  assert (n5 = n4) as -> by (eapply local_kept; [|exact Hk|exact E7]; done).
  rewrite Hk in Hy. by injection Hy as <-.
Qed.

Lemma listen_inv p (n n' : net) x b : sockets n !! p = Some x → listen listen_f p SOMAXCONN n = (Ret b, n') →
  sockets n' = sockets n ∧ if b then m_sock x ≠ -1 ∧ ∃ k, (listen_f (m_sock x) SOMAXCONN k).1 = 0
  else m_sock x = -1 ∨ ∃ k, (listen_f (m_sock x) SOMAXCONN k).1 ≠ 0.
Proof.
  intros Hx. unfold listen. rewrite (stE_bind_ret _ _ _ _ _ (socket_at_run p n x Hx)). unfold isValid.
  destruct (Z.eqb_spec (m_sock x) (-1)) as [E|E]; cbn; [intros [= <- <-]; auto|]. intros H.
  apply stE_bind_inv in H as (r & n1 & E1 & [= <- <-]). apply system_inv in E1 as [Er S1]. split; [done|].
  destruct (Z.eqb_spec r 0) as [->|Hr]; [split; [done|by eexists]|right; eexists; by rewrite Er].
Qed.

Lemma on_net_inv {A} (m : stE net A) w r w1 : on_net m w = (r, w1) →
  m (wnet w) = (r, wnet w1) ∧ server w1 = server w ∧ fibers_of w1 = fibers_of w.
Proof. unfold on_net. destruct (m (wnet w)) as [? n]. by intros [= -> <-]. Qed.

(** Binding one address: the socket made listens, or something refused. *)
Lemma bind_one_spec a w b w' : bind_one a w = (Ret b, w') →
  fibers_of w' = fibers_of w ∧
  (if b then m_socks (server w') = m_socks (server w) ++ [next (wnet w)] ∧ listens a (next (wnet w)) (wnet w')
   else m_socks (server w') = m_socks (server w) ∧ refused a) ∧
  (is_unix a = false → next (wnet w') = S (next (wnet w)) ∧
     ∀ q, q ≠ next (wnet w) → sockets (wnet w') !! q = sockets (wnet w) !! q).
Proof.
  unfold TcpServer.bind_one. intros H. apply stE_bind_inv in H as (p & w1 & E1 & H). apply on_net_inv in E1 as (E1 & S1 & F1).
  unfold CreateTCP, make in E1. injection E1 as Ep En1. set (x := new_Socket _ _ _) in En1. subst p.
  apply stE_bind_inv in H as (ok & w2 & E2 & H). apply on_net_inv in E2 as (E2 & S2 & F2).
  assert (Hx : sockets (wnet w1) !! next (wnet w) = Some x) by (rewrite <- En1; apply lookup_insert_eq).
  pose proof (sock_bind_spec _ a _ _ x ok Hx eq_refl E2) as Hb.
  assert (H1 : next (wnet w1) = S (next (wnet w)) ∧ ∀ q, q ≠ next (wnet w) → sockets (wnet w1) !! q = sockets (wnet w) !! q).
  { rewrite <- En1. split; [done|]. intros q Hq. cbn. by rewrite lookup_insert_ne. }
  assert (H2 : is_unix a = false → next (wnet w2) = S (next (wnet w)) ∧ ∀ q, q ≠ next (wnet w) → sockets (wnet w2) !! q = sockets (wnet w) !! q).
  { intros Ha. destruct (one_elsewhere _ _ _ _ _ _ (one_sock_bind (next (wnet w)) a Ha) E2) as [Hn Hq]. destruct H1 as [Hn1 Hq1].
    split; [congruence|]. intros q Hne. by rewrite Hq, Hq1. }
  assert (Hdrop : ∀ w3 w4, next (wnet w3) = next (wnet w2) → (∀ q, q ≠ next (wnet w) → sockets (wnet w3) !! q = sockets (wnet w2) !! q) →
    on_net (TcpServer.destroy fstat fcntl_f close_f cancel_c hook_enable (next (wnet w))) w3 = (Ret tt, w4) →
    (is_unix a = false → next (wnet w4) = S (next (wnet w)) ∧ ∀ q, q ≠ next (wnet w) → sockets (wnet w4) !! q = sockets (wnet w) !! q)).
  { intros w3 w4 N3 Q3 E Ha. apply on_net_inv in E as (E & _). destruct (one_elsewhere _ _ _ _ _ _ (one_destroy _) E) as [Hn Hq].
    destruct (H2 Ha) as [Hn2 Hq2]. split; [congruence|]. intros q Hne. by rewrite Hq, Q3, Hq2. }
  destruct ok; cbn [negb] in H.
  2:{ apply stE_bind_inv in H as ([] & w3 & E3 & [= <- <-]). pose proof (Hdrop w2 w3 eq_refl ltac:(done) E3) as Hd.
      apply on_net_inv in E3 as (_ & S3 & F3). split; [congruence|]. split; [split; [congruence|done]|done]. }
  destruct Hb as (y & Hy & Hbk & Hbu). apply stE_bind_inv in H as (l & w3 & E3 & H). apply on_net_inv in E3 as (E3 & S3 & F3).
  destruct (listen_inv _ _ _ y l Hy E3) as [Es Hl]. pose proof (one_elsewhere _ _ _ _ _ _ (one_listen _ _) E3) as [Hn3 Hq3].
  destruct l; cbn [negb] in H.
  - rewrite modify_bind in H. injection H as <- <-. split; [rewrite <- F1, <- F2, <- F3; done|]. cbn. split.
    + split; [congruence|]. destruct Hl as [Hv Hl]. exists y. rewrite Es. split_and!; try done. intros Ha. by destruct (Hbu Ha) as (? & ? & _).
    + intros Ha. destruct (H2 Ha) as [Hn2 Hq2]. rewrite Es. split; [congruence|done].
  - apply stE_bind_inv in H as ([] & w4 & E4 & [= <- <-]). pose proof (Hdrop w3 w4 Hn3 Hq3 E4) as Hd.
    apply on_net_inv in E4 as (_ & S4 & F4). split; [congruence|]. split; [|done]. split; [congruence|].
    destruct Hl as [Hv|[k Hk]]; [|right; right; left; by do 2 eexists]. destruct (is_unix a) eqn:Ha; [by do 3 right|]. by destruct (Hbu eq_refl) as (_ & _ & ?).
Qed.

(** How each address fared: the socket that listens at it, or a refusal. *)
Inductive attempts : list Address → list nat → list Address → Prop :=
  | attempts_nil : attempts [] [] []
  | attempts_ok a l p ps bad n : listens a p n → attempts l ps bad → attempts (a :: l) (p :: ps) bad
  | attempts_refused a l ps bad : refused a → attempts l ps bad → attempts (a :: l) ps (a :: bad).

Lemma attempts_all l ps : attempts l ps [] → Forall2 (λ a p, ∃ n, listens a p n) l ps.
Proof. remember [] as bad eqn:E. induction 1; [done|constructor; eauto|done]. Qed.

Lemma bind_loop_spec addrs fails w fails' w' : bind_loop addrs fails w = (Ret fails', w') →
  fibers_of w' = fibers_of w ∧ ∃ bad new, fails' = fails ++ bad ∧ attempts addrs new bad ∧
    m_socks (server w') = m_socks (server w) ++ new ∧
    (Forall (λ a, is_unix a = false) addrs →
      (next (wnet w) ≤ next (wnet w'))%nat ∧
      (∀ q, (q < next (wnet w))%nat → sockets (wnet w') !! q = sockets (wnet w) !! q) ∧
      (bad = [] → Forall2 (λ a p, (next (wnet w) ≤ p)%nat ∧ listens a p (wnet w')) addrs new ∧ NoDup new)).
Proof.
  revert fails w. induction addrs as [|a l IH]; intros fails w; cbn.
  { intros [= <- <-]. split; [done|]. exists [], []. rewrite !app_nil_r. split_and!; try done; [constructor|].
    intros _. split_and!; [done|done|]. intros _. split; [done|apply NoDup_nil_2]. }
  intros H. apply stE_bind_inv in H as (b & w1 & E & H). destruct (bind_one_spec a w b w1 E) as (F1 & Hb & Hu).
  destruct (IH _ _ H) as (F2 & bad & new & Hf & Hat & Hs & Hnu). split; [congruence|].
  exists (if b then bad else a :: bad), (if b then next (wnet w) :: new else new).
  destruct b; destruct Hb as [Hsk Hb]; rewrite Hs, Hsk; split_and!.
  - done.
  - by econstructor.
  - by rewrite <- (assoc_L (++)).
  - intros [Ha Hl]%Forall_cons. destruct (Hu Ha) as [N1 Q1], (Hnu Hl) as (N2 & Q2 & Hnew). split; [lia|].
    split; [intros q Hq; rewrite Q2, Q1 by lia; done|]. intros ->. destruct (Hnew eq_refl) as [Hall Hnd]. split.
    + constructor.
      * split; [done|]. destruct Hb as (x & Hx & Hrest). exists x. by rewrite Q2 by lia.
      * eapply Forall2_impl; [exact Hall|]. intros a' p [? ?]. split; [lia|done].
    + apply NoDup_cons. split; [|done]. intros Hin. apply list_elem_of_lookup in Hin as [i Hi].
      destruct (Forall2_lookup_r _ _ _ _ _ Hall Hi) as (a' & _ & ? & _). lia.
  - by rewrite Hf, <- (assoc_L (++)).
  - by constructor.
  - done.
  - intros [Ha Hl]%Forall_cons. destruct (Hu Ha) as [N1 Q1], (Hnu Hl) as (N2 & Q2 & _). split; [lia|].
    split; [intros q Hq; rewrite Q2, Q1 by lia; done|done].
Qed.

(** C33: [bind] is all or nothing.  When it returns, either it is true, the
    list of failures it was given is empty and stays so, and the server has
    one more socket for each address, in order, whose descriptor the kernel
    agreed to bind to that address and to listen on; or it is false, the
    failures are those it was given and then exactly the addresses that were
    refused, in order - the kernel refused a descriptor, the address or to
    listen (or it is the address of a Unix socket) -, at least one in all,
    and the server has no sockets, also none of those an earlier [bind] made,
    which are destroyed unless a fiber still has them.  When none of the
    addresses is a Unix socket's, for which [bind] waits in [connect], the
    sockets are as many different ones and are still so at the end, and no
    other socket was touched.  Neither touches the fibers or whether the
    server runs. *)
Theorem bind_all_or_nothing addrs fails w ok fails' w' : bind addrs fails w = (Ret (ok, fails'), w') →
  fibers_of w' = fibers_of w ∧
  if (ok : bool) then fails = [] ∧ fails' = [] ∧ ∃ new, m_socks (server w') = m_socks (server w) ++ new ∧
    Forall2 (λ a p, ∃ n, listens a p n) addrs new ∧
    (Forall (λ a, is_unix a = false) addrs →
      NoDup new ∧ Forall2 (λ a p, (next (wnet w) ≤ p)%nat ∧ listens a p (wnet w')) addrs new ∧
      ∀ q, (q < next (wnet w))%nat → sockets (wnet w') !! q = sockets (wnet w) !! q)
  else (∃ bad new, fails' = fails ++ bad ∧ attempts addrs new bad) ∧ fails' ≠ [] ∧ m_socks (server w') = [] ∧
    ∀ p, p ∈ m_socks (server w) → ¬ held w p → sockets (wnet w') !! p = None.
Proof.
  unfold TcpServer.bind. intros H. apply stE_bind_inv in H as (fs & w1 & E & H).
  destruct (bind_loop_spec _ _ _ _ _ E) as (F1 & bad & new & Hf & Hb & Hs & Hl).
  destruct fs as [|f fs].
  - injection H as <- <- <-. symmetry in Hf. apply app_eq_nil in Hf as [-> ->]. split; [done|]. split_and!; [done|done|].
    exists new. split; [done|]. split; [by apply attempts_all|]. intros Hn. destruct (Hl Hn) as (_ & Hq & Ha).
    by destruct (Ha eq_refl).
  - apply stE_bind_inv in H as ([] & w2 & E2 & [= <- <- <-]). destruct (clear_gone _ _ E2) as (H1 & H2 & H3).
    split; [congruence|]. split_and!; [by exists bad, new|done|done|]. intros p Hp Hh. apply H3.
    + rewrite Hs. apply elem_of_app. by left.
    + unfold fibers_of in F1. unfold held in *. injection F1 as -> -> _. done.
Qed.
End stopping.

(* ------------------------------------------------------------------ *)
(** ** On a concrete kernel *)

(** [accept] fails at once without a descriptor. *)
Definition table_accept' (fd : Z) (n : net Table) : Z * net Table := if fd =? -1 then (-1, n) else table_accept fd n.
(** The port 80 is taken. *)
Definition table_bind (fd : Z) (addr : bytes) (len : Z) (k : Table) : Z * Table :=
  (if bool_decide (slice 2 2 addr = [char_of 0; char_of 80]) then -1 else 0, k).

Definition tcp_happen : list event → @world Table → world :=
  happen SYLAR_LITTLE_ENDIAN table_fstat (λ _ _ _, zero_of) (λ _ _ _, table_open) (λ _ _ _ _, zero_of)
    table_bind (λ _ _, zero_of) (λ fd k, (0, k ∖ {[fd]})) no_name no_name (λ _ k, (tt, k)) (λ _ _ k, (true, k))
    (λ _ _ _ _ n, (0, n)) table_accept' true 128.
Definition tcp_start : @world Table := mkWorld SocketTheorems.start (new_TcpServer 120000 (Some (B "io")) (Some (B "accept"))) [] 0 [].
Definition at_port (port : Z) : Address := IPv4Address (new_IPv4Address SYLAR_LITTLE_ENDIAN 2130706433 port).
(** Two sockets bound, the loops in [accept], one client taken. *)
Definition tcp_running : @world Table :=
  tcp_happen [EvBind [at_port 8020; at_port 8021] []; EvStart; EvLoop 0; EvLoop 1; EvLoop 0; EvLoop 0] tcp_start.

Lemma tcp_kernel_law : kernel_law (λ _ _ _, zero_of) (λ _ _ _, table_open) (λ _ _ _ _, zero_of) (λ _ _ _ k, (Some 0, k))
    table_bind (λ _ _, zero_of) (λ fd k, (0, k ∖ {[fd]})) no_name no_name (λ _ k, (tt, k)) (λ _ _ k, (true, k)) id.
Proof. split; try done. intros. apply table_opens. Qed.

Example tcp_running_state :
  (loops tcp_running, m_socks (server tcp_running), clients tcp_running) = ([InAccept 0; InAccept 1], [0%nat; 1%nat], [2%nat]).
Proof. vm_compute. reflexivity. Qed.

(** A server on the first socket of [history], its loop in [accept]. *)
Definition tcp_serving (loops : list accept_loop) : @world Table :=
  mkWorld (after history) (mkTcpServer [0%nat] (Some (B "io")) (Some (B "accept")) 120000 (B "s") (B "tcp") false) loops 0 [1%nat].
Abbreviation table_closer := (run_closer table_fstat (λ _ _ _, zero_of) (λ fd k, (0, k ∖ {[fd]})) (λ _ _ k, (true, k)) true).

Lemma server_stops_witness :
  (∀ l, EvStart ∉ l → let w' := tcp_happen (EvStop :: l) (tcp_serving [InAccept 0]) in m_isStop (server w') = true ∧ (weight (loops w') <= 2)%nat) ∧
  loops (tcp_happen [EvStop; EvCloser; EvLoop 0; EvLoop 0] (tcp_serving [InAccept 0])) = [] ∧
  ∃ w', table_closer (tcp_serving [InAccept 0]) = (Ret tt, w') ∧ m_socks (server w') = [] ∧
    m_sock <$> sockets (wnet w') !! 0%nat = Some (-1).
Proof.
  pose proof (server_stops SYLAR_LITTLE_ENDIAN table_fstat (λ _ _ _, zero_of) (λ _ _ _, table_open) (λ _ _ _ _, zero_of)
    table_bind (λ _ _, zero_of) (λ fd k, (0, k ∖ {[fd]})) no_name no_name (λ _ k, (tt, k)) (λ _ _ k, (true, k))
    (λ _ _ _ _ n, (0, n)) table_accept' true 128 (λ _ _ _ k, (Some 0, k)) id tcp_kernel_law (tcp_serving [InAccept 0])) as [H1 H2].
  split; [|split; [vm_compute; reflexivity|]].
  - intros l Hl w'. destruct (H1 l Hl) as (Hs & Hw & _). split; [exact Hs|].
    change (weight (loops (tcp_serving [InAccept 0]))) with 2%nat in Hw. unfold w', tcp_happen. lia.
  - destruct H2 as (w' & E & Hs & _ & _ & Hq).
    + exact history_owned.
    + apply NoDup_singleton.
    + intros p Hp. apply list_elem_of_singleton in Hp as ->. vm_compute. by eexists.
    + exists w'. split; [exact E|]. split; [exact Hs|]. rewrite Hq. vm_compute. reflexivity.
Defined.

(** Stopped and started again before its socket was closed. *)
Definition tcp_restarted : @world Table := tcp_happen [EvStop; EvStart; EvCloser; EvLoop 0] (tcp_serving [InAccept 0]).
Lemma restart_spins_witness :
  (loops tcp_restarted = [AtHead 0; AtHead 0] ∧ m_socks (server tcp_restarted) = []) ∧
  m_isStop (server (tcp_happen (replicate (2 * 1000) (EvLoop 0)) tcp_restarted)) = false ∧
  loops (tcp_happen (replicate (2 * 1000) (EvLoop 0)) tcp_restarted) = loops tcp_restarted.
Proof.
  split; [split; vm_compute; reflexivity|].
  destruct (restart_spins SYLAR_LITTLE_ENDIAN table_fstat (λ _ _ _, zero_of) (λ _ _ _, table_open) (λ _ _ _ _, zero_of)
    table_bind (λ _ _, zero_of) (λ fd k, (0, k ∖ {[fd]})) no_name no_name (λ _ k, (tt, k)) (λ _ _ k, (true, k))
    (λ _ _ _ _ n, (0, n)) table_accept' true 128) as [_ H].
  destruct (H ltac:(done) tcp_restarted 0%nat 0%nat (mkSocket (-1) 2 1 0 false (Some loopback) None) 1000%nat) as (H1 & H2 & _).
  - vm_compute. reflexivity.
  - vm_compute. reflexivity.
  - vm_compute. reflexivity.
  - reflexivity.
  - intros q Hq. destruct (decide (q < 4)%nat) as [?|Hge].
    + assert (next (wnet tcp_restarted) = 4%nat) as -> by (vm_compute; reflexivity). done.
    + exfalso. assert (map_Forall (λ q _, (q < 4)%nat) (sockets (wnet tcp_restarted))) as Hf.
      { apply (bool_decide_unpack _). vm_compute. exact Logic.I. }
      destruct Hq as [y Hy]. specialize (Hf q y Hy). cbn in Hf. lia.
  - split; [exact H1|exact H2].
Defined.

(** Two addresses are bound; then one of two cannot be, and all are gone. *)
Abbreviation tcp_bind := (bind SYLAR_LITTLE_ENDIAN table_fstat (λ _ _ _, zero_of) (λ _ _ _, table_open) (λ _ _ _ _, zero_of)
    table_bind (λ _ _, zero_of) (λ fd k, (0, k ∖ {[fd]})) no_name no_name (λ _ k, (tt, k)) (λ _ _ k, (true, k))
    (λ _ _ _ _ n, (0, n)) true 128).
Definition tcp_bound : @world Table := (tcp_bind [at_port 8020; at_port 8021] [] tcp_start).2.
Lemma bind_all_or_nothing_witness :
  m_socks (server tcp_bound) = [0%nat; 1%nat] ∧
  ∃ w', tcp_bind [at_port 8022; at_port 80] [] tcp_bound = (Ret (false, [at_port 80]), w') ∧ m_socks (server w') = [] ∧
    sockets (wnet w') !! 0%nat = None.
Proof.
  split; [vm_compute; reflexivity|]. set (r := tcp_bind [at_port 8022; at_port 80] [] tcp_bound).
  assert (E : r = (Ret (false, [at_port 80]), r.2)) by (rewrite (surjective_pairing r) at 1; f_equal; vm_compute; reflexivity).
  exists r.2. split; [exact E|].
  destruct (bind_all_or_nothing SYLAR_LITTLE_ENDIAN table_fstat (λ _ _ _, zero_of) (λ _ _ _, table_open) (λ _ _ _ _, zero_of)
    table_bind (λ _ _, zero_of) (λ fd k, (0, k ∖ {[fd]})) no_name no_name (λ _ k, (tt, k)) (λ _ _ k, (true, k))
    (λ _ _ _ _ n, (0, n)) table_accept' true 128 _ _ tcp_bound _ _ r.2 E) as [_ (_ & _ & Hm & Hg)].
  split; [exact Hm|]. apply Hg.
  - vm_compute. left.
  - unfold held. assert (loops tcp_bound = [] ∧ clients tcp_bound = []) as [-> ->] by (split; vm_compute; reflexivity).
    intros [H|H]; by apply elem_of_nil in H.
Defined.
