(* ===== verification/FSUtil.v ===== *)
(** * Files and directories ([FSUtil] of [util.cpp])

    What [FSUtil] does through the file system.  The calls of the system are
    the operations of a class; [readdir] gives the entries there were when
    the directory was opened. *)
From S2P Require Import Prelude StdString Util.
From stdpp Require Import gmap.

Local Open Scope Z_scope.

Definition DT_DIR : Z := 4.
Definition DT_REG : Z := 8.
Definition S_IFDIR : Z := 0x4000.
(** [S_IRWXU | S_IRWXG | S_IROTH | S_IXOTH]. *)
Definition mode_775 : Z := 509.

(** The calls, by their paths; [true] for the result 0.  [fs_lstat] gives
    [st_mode], [fs_entries] the names and types of a directory that can be
    opened, [fs_line] the first line of a file that has one. *)
Class FileSystem (K : Type) := {
  fs_access : bytes → K → bool;
  fs_lstat : bytes → K → option Z;
  fs_entries : bytes → K → option (list (bytes * Z));
  fs_mkdir : bytes → Z → K → bool * K;
  fs_unlink : bytes → K → bool * K;
  fs_rmdir : bytes → K → bool * K;
  fs_rename : bytes → bytes → K → bool * K;
  fs_symlink : bytes → bytes → K → bool * K;
  fs_realpath : bytes → K → option bytes;
  fs_open : bytes → K → bool * K;
  fs_line : bytes → K → option bytes
}.

Section FSUtil.
Context {K : Type} `{FileSystem K}.

Definition system {A} (f : K → A * K) : stE K A := λ k, let '(a, k') := f k in (Ret a, k').
Definition ask {A} (f : K → A) : stE K A := query (λ k, Ret (f k)).

Definition is_dot (name : bytes) : bool := bool_decide (name = B ".") || bool_decide (name = B "..").

(** The name ends in [subfix]. *)
(* sylar/util.cpp:155-163, FSUtil::ListAllFile *)
Definition has_subfix (filename subfix : bytes) : outcome bool :=
  match subfix with
  | [] => Ret true
  | _ => if (length filename <? length subfix)%nat then Ret false
         else s ← substr filename (length filename - length subfix) None; Ret (bool_decide (s = subfix))
  end.

(** The entries of one directory; [sub] lists a directory below it. *)
(* sylar/util.cpp:147-166, FSUtil::ListAllFile *)
Fixpoint list_entries (sub : list bytes → bytes → stE K (list bytes)) (path subfix : bytes)
    (entries : list (bytes * Z)) (files : list bytes) : stE K (list bytes) :=
  match entries with
  | [] => mret files
  | (d_name, d_type) :: rest =>
      files ← (if d_type =? DT_DIR then
                 if is_dot d_name then mret files else sub files (path ++ B "/" ++ d_name)
               else if d_type =? DT_REG then
                 b ← query (λ _, has_subfix d_name subfix);
                 mret (if (b : bool) then files ++ [path ++ B "/" ++ d_name] else files)
               else mret files);
      list_entries sub path subfix rest files
  end.

(** [fuel]: the depth of the directories. *)
(* sylar/util.cpp:138-168, FSUtil::ListAllFile *)
Fixpoint ListAllFile (fuel : nat) (files : list bytes) (path subfix : bytes) : stE K (list bytes) :=
  match fuel with
  | O => crash no_fuel
  | S f =>
      a ← ask (fs_access (c_str path));
      if negb a then mret files
      else
        dir ← ask (fs_entries (c_str path));
        match dir with
        | None => mret files
        | Some entries => list_entries (λ files path, ListAllFile f files path subfix) path subfix entries files
        end
  end.

(** The result 0. *)
(* sylar/util.cpp:170-177, __lstat *)
Definition __lstat (file : bytes) : stE K bool := ask (λ k, match fs_lstat (c_str file) k with Some _ => true | None => false end).
(* sylar/util.cpp:179-184, __mkdir *)
Definition __mkdir (dirname : bytes) : stE K bool :=
  a ← ask (fs_access (c_str dirname)); if (a : bool) then mret true else system (fs_mkdir (c_str dirname) mode_775).

(** The loop over the slashes: [path] as far as it was looked at, and the
    rest. *)
(* sylar/util.cpp:192-206, FSUtil::Mkdir *)
Fixpoint mkdir_loop (path rest : bytes) : stE K bool :=
  match rest with
  | [] => __mkdir path
  | c :: r =>
      if bool_decide (c = "/"%char)
      then ok ← __mkdir path; if negb ok then mret false else mkdir_loop (path ++ [c]) r
      else mkdir_loop (path ++ [c]) r
  end.

(** [path + 1] is behind the terminator of an empty path. *)
(* sylar/util.cpp:186-209, FSUtil::Mkdir *)
Definition Mkdir (dirname : bytes) : stE K bool :=
  there ← __lstat dirname;
  if (there : bool) then mret true
  else match c_str dirname with [] => crash out_of_bounds | c :: r => mkdir_loop [c] r end.

(** [kill] with signal 0. *)
(* sylar/util.cpp:211-231, FSUtil::IsRunningPidfile *)
Definition IsRunningPidfile (kill : Z → K → bool) (pidfile : bytes) : stE K bool :=
  there ← __lstat pidfile;
  if negb there then mret false
  else
    line ← ask (fs_line (c_str pidfile));
    match line with
    | None | Some [] => mret false
    | Some line => let pid := atoi line in if pid <=? 1 then mret false else ask (kill pid)
    end.

(* sylar/util.cpp:233-238, FSUtil::Unlink *)
Definition Unlink (filename : bytes) (exist : bool) : stE K bool :=
  gone ← (if exist then mret false else there ← __lstat filename; mret (negb there));
  if (gone : bool) then mret true else system (fs_unlink (c_str filename)).

(** The entries of one directory; the last result is what counts. *)
(* sylar/util.cpp:254-262, FSUtil::Rm *)
Fixpoint rm_entries (rm : bytes → stE K bool) (path : bytes) (entries : list (bytes * Z)) (ret : bool) : stE K bool :=
  match entries with
  | [] => mret ret
  | (d_name, _) :: rest =>
      if is_dot d_name then rm_entries rm path rest ret
      else ret ← rm (path ++ B "/" ++ d_name); rm_entries rm path rest ret
  end.

(** [fuel]: the depth of the directories. *)
(* sylar/util.cpp:240-268, FSUtil::Rm *)
Fixpoint Rm (fuel : nat) (path : bytes) : stE K bool :=
  match fuel with
  | O => crash no_fuel
  | S f =>
      st ← ask (fs_lstat (c_str path));
      match st with
      | None => mret true
      | Some st_mode =>
          if Z.land st_mode S_IFDIR =? 0 then Unlink path false
          else
            dir ← ask (fs_entries (c_str path));
            match dir with
            | None => mret false
            | Some entries =>
                ret ← rm_entries (Rm f) path entries true;
                r ← system (fs_rmdir (c_str path));
                mret (if (r : bool) then ret else false)
            end
      end
  end.

(* sylar/util.cpp:270-275, FSUtil::Mv *)
Definition Mv (fuel : nat) (from to : bytes) : stE K bool :=
  ok ← Rm fuel to; if negb ok then mret false else system (fs_rename (c_str from) (c_str to)).

(** The path, when there is one. *)
(* sylar/util.cpp:277-288, FSUtil::Realpath *)
Definition Realpath (path : bytes) : stE K (option bytes) :=
  there ← __lstat path; if negb there then mret None else ask (fs_realpath (c_str path)).

(* sylar/util.cpp:290-295, FSUtil::Symlink *)
Definition Symlink (fuel : nat) (from to : bytes) : stE K bool :=
  ok ← Rm fuel to; if negb ok then mret false else system (fs_symlink (c_str from) (c_str to)).

(* sylar/util.cpp:323-326, FSUtil::OpenForRead *)
Definition OpenForRead (filename : bytes) : stE K bool := system (fs_open (c_str filename)).
(* sylar/util.cpp:328-336, FSUtil::OpenForWrite *)
Definition OpenForWrite (filename : bytes) : stE K bool :=
  ok ← system (fs_open (c_str filename));
  if (ok : bool) then mret true
  else dir ← query (λ _, Dirname filename); _ ← Mkdir dir; system (fs_open (c_str filename)).
End FSUtil.
