(* ===== verification/FSUtilTheorems.v ===== *)
(** * Removing directory trees

    What [Rm] leaves of a tree, over what the manual says of the calls. *)
From S2P Require Import Prelude StdString Util FSUtil.
From stdpp Require Import gmap.

Local Open Scope Z_scope.

(** A file below the root, by its names, with its mode. *)
Abbreviation tree := (gmap (list bytes) Z).

Definition S_IFMT : Z := 0xF000.
Definition is_dir (mode : Z) : Prop := Z.land mode S_IFMT = S_IFDIR.
#[export] Instance is_dir_dec mode : Decision (is_dir mode) := ltac:(unfold is_dir; apply _).

Definition valid_name (n : bytes) : Prop := n ≠ [] ∧ "/"%char ∉ n ∧ zero ∉ n ∧ is_dot n = false.

(** Each file is in a directory, under a name. *)
Definition tree_ok (T : tree) : Prop := ∀ l n mode, T !! (l ++ [n]) = Some mode → valid_name n ∧ ∃ m, T !! l = Some m ∧ is_dir m.

(** A file that has the bit of directories and is none: a socket or a block
    device.  It stays, with the directories it is in. *)
Definition stuck (T : tree) (l : list bytes) : Prop := ∃ mode, T !! l = Some mode ∧ Z.land mode S_IFDIR ≠ 0 ∧ ¬ is_dir mode.
Definition kept (T : tree) (l : list bytes) : Prop := ∃ s, stuck T s ∧ l `prefix_of` s.

Lemma tree_prefix T l m mode : tree_ok T → T !! m = Some mode → l `prefix_of` m → l = m ∨ ∃ d, T !! l = Some d ∧ is_dir d.
Proof.
  intros HT Hm [k ->]. revert mode Hm. induction k as [|n k IH] using rev_ind; intros mode Hm.
  { left. by rewrite app_nil_r. }
  right. rewrite (assoc_L (++)) in Hm. destruct (HT _ _ _ Hm) as [_ (d & Hd & Hdir)].
  destruct (IH d Hd) as [E|?]; [|done]. exists d. by rewrite E.
Qed.

Lemma is_dir_bit mode : is_dir mode → Z.land mode S_IFDIR ≠ 0.
Proof.
  unfold is_dir. intros E H. assert (Z.land (Z.land mode S_IFMT) S_IFDIR = 0) as H2.
  { rewrite <- Z.land_assoc. exact H. }
  rewrite E in H2. done.
Qed.

Lemma stuck_kept T s : stuck T s → kept T s.
Proof. intros H. by exists s. Qed.
Lemma kept_prefix T l m : kept T m → l `prefix_of` m → kept T l.
Proof. intros (s & ? & ?) ?. exists s. split; [done|]. by etrans. Qed.

Section pruning.
(** The paths for which the system may refuse a call that could succeed:
    missing permissions, a mount point, a busy file, no descriptor left. *)
Context (refuses : list bytes → Prop).

(** What may stay: the way to a stuck file, and what is above or below a
    path the system refused a call for. *)
Definition spared (T : tree) (m : list bytes) : Prop :=
  ∃ s, is_Some (T !! s) ∧
    (stuck T s ∧ m `prefix_of` s ∨ refuses s ∧ (m `prefix_of` s ∨ s `prefix_of` m)).

(** [T'] is [T] without what is in [P], but for what may stay; what is kept
    stays. *)
Record pruned (P : list bytes → Prop) (T T' : tree) : Prop := {
  pr_sub : T' ⊆ T;
  pr_stays m mode : T !! m = Some mode → ¬ P m ∨ kept T m → T' !! m = Some mode;
  pr_why m : is_Some (T' !! m) → P m → spared T m
}.

Lemma sub_lookup (T' T : tree) m mode : T' ⊆ T → T' !! m = Some mode → T !! m = Some mode.
Proof. rewrite map_subseteq_spec. auto. Qed.

Lemma spared_sub (T T' : tree) m : T' ⊆ T → spared T' m → spared T m.
Proof.
  intros Hsub (s & [x Hx] & H). exists s. pose proof (sub_lookup _ _ _ _ Hsub Hx). split; [by exists x|].
  destruct H as [[(y & Hy & Hs) Hp]|?]; [left|by right]. split; [|done]. exists y. split; [by eapply sub_lookup|done].
Qed.

Lemma pruned_kept P T T' m : pruned P T T' → kept T' m ↔ kept T m.
Proof.
  intros HP. assert (∀ s, stuck T' s ↔ stuck T s) as Hs.
  { intros s. split; intros (mode & Hm & H).
    - exists mode. split; [|done]. by eapply sub_lookup, Hm; apply HP.
    - exists mode. split; [|done]. eapply pr_stays; [done..|]. right. apply stuck_kept. by exists mode. }
  unfold kept. setoid_rewrite Hs. done.
Qed.

Lemma pruned_comp P Q T T1 T2 : pruned P T T1 → pruned Q T1 T2 → pruned (λ m, P m ∨ Q m) T T2.
Proof.
  intros H1 H2. split.
  - etrans; [by apply H2|by apply H1].
  - intros m mode Hm Hk. eapply (pr_stays Q); [done|eapply (pr_stays P); [done..|]|].
    + tauto.
    + rewrite (pruned_kept P T T1) by done. tauto.
  - intros m [mode Hm] [Hp|Hq].
    + eapply (pr_why P); [done| |done]. exists mode. by eapply sub_lookup, Hm; apply H2.
    + eapply spared_sub; [by apply H1|]. eapply (pr_why Q); [done|by exists mode|done].
Qed.
Lemma pruned_ext P Q T T' : pruned P T T' → (∀ m mode, T !! m = Some mode → (P m ↔ Q m)) → pruned Q T T'.
Proof.
  intros H HPQ. split; [by apply H| |].
  - intros m mode Hm Hk. eapply (pr_stays P); [done..|]. specialize (HPQ m mode Hm). tauto.
  - intros m [mode Hm] Hq. eapply (pr_why P); [done|by exists mode|].
    eapply HPQ; [|done]. by eapply sub_lookup, Hm; apply H.
Qed.
Lemma pruned_none P T : (∀ m, is_Some (T !! m) → P m → spared T m) → pruned P T T.
Proof. intros H. by split. Qed.
End pruning.

Lemma tree_delete T l : tree_ok T → (∀ n, T !! (l ++ [n]) = None) → tree_ok (delete l T).
Proof.
  intros HT Hl k n mode. rewrite lookup_delete_Some. intros [Hne Hk]. destruct (HT _ _ _ Hk) as [Hv (m & Hm & Hd)].
  split; [done|]. exists m. split; [|done]. rewrite lookup_delete_ne; [done|]. intros ->. by rewrite Hl in Hk.
Qed.

(** A leaf that is not a directory has nothing below it. *)
Lemma tree_leaf T l mode m mode' : tree_ok T → T !! l = Some mode → ¬ is_dir mode → l `prefix_of` m → T !! m = Some mode' → m = l.
Proof. intros HT Hl Hd Hp Hm. destruct (tree_prefix T l m mode' HT Hm Hp) as [->|(d & ? & ?)]; [done|congruence]. Qed.
Lemma tree_leaf_none T l mode n : tree_ok T → T !! l = Some mode → ¬ is_dir mode → T !! (l ++ [n]) = None.
Proof.
  intros HT Hl Hd. destruct (T !! (l ++ [n])) as [m|] eqn:E; [|done]. destruct (HT _ _ _ E) as [_ (d & ? & ?)]. congruence.
Qed.

Section removing.
Context {K R : Type} `{FileSystem K}.
Context (root : bytes) (view : K → tree) (others : K → R) (refuses : list bytes → Prop).

(** A path is the root and the names. *)
Definition at_path (l : list bytes) : bytes := root ++ mjoin ((λ n, B "/" ++ n) <$> l).

(** What the manual says of the calls: below the root there is a tree, the
    calls on its paths concern nothing else.  A call does what it says or
    fails and changes nothing; it fails when the kind of the file or a
    directory with entries calls for it, and may fail for the paths in
    [refuses]. *)
Record fs_law : Prop := {
  fl_root : zero ∉ root;
  fl_lstat l k : Forall valid_name l →
    fs_lstat (at_path l) k = view k !! l ∨ refuses l ∧ fs_lstat (at_path l) k = None;
  fl_entries l k mode : Forall valid_name l → view k !! l = Some mode → is_dir mode →
    (∃ es, fs_entries (at_path l) k = Some es ∧ (∀ n, n ∈ es.*1 → is_dot n = true ∨ is_Some (view k !! (l ++ [n])))
      ∧ ∀ n, is_Some (view k !! (l ++ [n])) → n ∈ es.*1) ∨
    refuses l ∧ fs_entries (at_path l) k = None;
  fl_no_entries l k mode : Forall valid_name l → view k !! l = Some mode → ¬ is_dir mode → fs_entries (at_path l) k = None;
  fl_unlink l k mode : Forall valid_name l → view k !! l = Some mode → ¬ is_dir mode →
    ∃ b k', fs_unlink (at_path l) k = (b, k') ∧ others k' = others k ∧
      if b then view k' = delete l (view k) else refuses l ∧ view k' = view k;
  fl_rmdir l k mode : Forall valid_name l → view k !! l = Some mode → is_dir mode →
    ∃ b k', fs_rmdir (at_path l) k = (b, k') ∧ others k' = others k ∧
      if b then (∀ n, view k !! (l ++ [n]) = None) ∧ view k' = delete l (view k)
      else (refuses l ∨ ∃ n, is_Some (view k !! (l ++ [n]))) ∧ view k' = view k
}.
Context (Hfs : fs_law).

Lemma at_path_snoc l n : at_path (l ++ [n]) = at_path l ++ B "/" ++ n.
Proof. unfold at_path. rewrite fmap_app. unfold mjoin. rewrite join_app. cbn. by rewrite app_nil_r, <- (assoc_L (++)). Qed.

Lemma c_str_no_zero (b : bytes) : zero ∉ b → c_str b = b.
Proof.
  induction b as [|c b IH]; [done|]. intros Hb. apply not_elem_of_cons in Hb as [Hc Hb]. cbn.
  destruct (Ascii.eqb_spec c zero) as [->|_]; [done|]. by rewrite IH.
Qed.
Lemma at_path_c_str l : Forall valid_name l → c_str (at_path l) = at_path l.
Proof.
  intros Hl. apply c_str_no_zero. unfold at_path. rewrite elem_of_app. intros [Hr|Hz]; [by apply (fl_root Hfs)|].
  induction Hl as [|n l (_ & _ & Hn & _) _ IH]; cbn in Hz; [by apply elem_of_nil in Hz|].
  apply elem_of_cons in Hz as [Hz|Hz]; [done|]. apply elem_of_app in Hz as [?|?]; [done|by apply IH].
Qed.

Lemma ask_run {A} (f : K → A) k : ask f k = (Ret (f k), k).
Proof. done. Qed.
Lemma fs_system_run {A} (f : K → A * K) k a k' : f k = (a, k') → system f k = (Ret a, k').
Proof. intros E. unfold system. by rewrite E. Qed.

(** What a removal below [l] did. *)
Definition removed (P : list bytes → Prop) (k k' : K) : Prop :=
  others k' = others k ∧ tree_ok (view k') ∧ pruned refuses P (view k) (view k').

(** The removal of one path from a part of [T], as the loop over a directory
    uses it. *)
Definition removes (T : tree) (rm : bytes → stE K bool) (l : list bytes) : Prop := ∀ k, tree_ok (view k) → view k ⊆ T →
  ∃ b k', rm (at_path l) k = (Ret b, k') ∧ removed (λ m, l `prefix_of` m) k k' ∧ (view k' !! l = None → b = true).

Lemma snoc_prefix_eq (l : list bytes) n n' : (l ++ [n']) `prefix_of` (l ++ [n]) → n' = n.
Proof. intros [q E]. rewrite <- (assoc_L (++)) in E. apply app_inv_head in E. by injection E. Qed.
Lemma prefix_snoc_inv (l : list bytes) n s : s `prefix_of` (l ++ [n]) → s `prefix_of` l ∨ s = l ++ [n].
Proof.
  intros [q E]. destruct q as [|x q _] using rev_ind; [right; by rewrite app_nil_r in E|left].
  rewrite (assoc_L (++)) in E. apply app_inj_tail in E as [-> _]. by exists q.
Qed.

Lemma rm_entries_spec T rm l es ret k : tree_ok (view k) → view k ⊆ T →
  (∀ n, n ∈ es.*1 → is_dot n = true ∨ removes T rm (l ++ [n])) →
  ∃ b k', rm_entries rm (at_path l) es ret k = (Ret b, k') ∧
    removed (λ m, ∃ n, n ∈ es.*1 ∧ is_dot n = false ∧ (l ++ [n]) `prefix_of` m) k k' ∧
    (ret = true ∨ (∃ n, n ∈ es.*1 ∧ is_dot n = false) → (∀ n, n ∈ es.*1 → view k' !! (l ++ [n]) = None) → b = true).
Proof.
  revert ret k. induction es as [|[n t] es IH]; intros ret k HT Hsub Hes; cbn [rm_entries].
  { exists ret, k. split; [done|]. split; [|by intros [?|(n & Hn%elem_of_nil & _)]].
    split; [done|]. split; [done|]. apply pruned_none. intros m _ (n & Hn & _). by apply elem_of_nil in Hn. }
  destruct (is_dot n) eqn:Hdot.
  - destruct (IH ret k HT Hsub) as (b & k' & E & (Ho & HT' & HP) & Hb). { intros n' Hn'. apply Hes. by right. }
    exists b, k'. split; [done|]. split; [split; [done|split; [done|]]|].
    + eapply pruned_ext; [exact HP|]. intros m mode _. cbn. setoid_rewrite elem_of_cons. naive_solver congruence.
    + intros Hr Hn. apply Hb; [|intros n' Hn'; apply Hn; by right]. destruct Hr as [?|(n' & Hn' & Hd)]; [by left|right].
      exists n'. split; [|done]. apply elem_of_cons in Hn' as [->|?]; [cbn in Hd; congruence|done].
  - destruct (Hes n ltac:(left)) as [Hd|Hrm]; [congruence|].
    destruct (Hrm k HT Hsub) as (b1 & k1 & E1 & (Ho1 & HT1 & HP1) & Hb1). rewrite <- at_path_snoc, (stE_bind_ret _ _ _ _ _ E1).
    destruct (IH b1 k1 HT1 ltac:(etrans; [by apply HP1|done])) as (b & k' & E & (Ho & HT' & HP) & Hb). { intros n' Hn'. apply Hes. by right. }
    exists b, k'. split; [done|]. split; [split; [congruence|split; [done|]]|].
    + eapply pruned_ext; [by eapply pruned_comp|]. intros m mode _. cbn. setoid_rewrite elem_of_cons. naive_solver congruence.
    + intros _ Hn. apply Hb; [|intros n' Hn'; apply Hn; by right].
      destruct (decide (n ∈ es.*1)) as [Hin|Hout]; [right; by exists n|left]. apply Hb1.
      destruct (view k1 !! (l ++ [n])) as [mode|] eqn:Em; [|done]. exfalso.
      assert (view k' !! (l ++ [n]) = Some mode) as Hk'; [|rewrite Hn in Hk'; [done|left]].
      eapply pr_stays; [exact HP|done|]. left. intros (n' & Hn' & _ & Hp). apply Hout.
      by apply snoc_prefix_eq in Hp as ->.
Qed.

(** The deepest file below [l] is less than [f] names away. *)
Definition depth_below (T : tree) (l : list bytes) (f : nat) : Prop :=
  ∀ m, is_Some (T !! m) → l `prefix_of` m → (length m < length l + f)%nat.

Lemma depth_step T T' l n f : depth_below T l (S f) → T' ⊆ T → depth_below T' (l ++ [n]) f.
Proof.
  intros HD HP m [mode Hm] Hp. rewrite map_subseteq_spec in HP. apply HP in Hm. rewrite length_app. cbn.
  assert (length m < length l + S f)%nat; [|lia]. apply HD; [by exists mode|]. etrans; [|exact Hp]. by exists [n].
Qed.

(** A file that is no directory. *)
Lemma unlink_removes l k mode : Forall valid_name l → tree_ok (view k) → view k !! l = Some mode → Z.land mode S_IFDIR = 0 →
  fs_lstat (at_path l) k = Some mode →
  ∃ b k', Unlink (at_path l) false k = (Ret b, k') ∧ removed (λ m, l `prefix_of` m) k k' ∧ (b = true ↔ view k' !! l = None).
Proof.
  intros Hl HT Hm Hbit Hst. assert (¬ is_dir mode) as Hd by (intros ?%is_dir_bit; done).
  destruct (fl_unlink Hfs l k mode Hl Hm Hd) as (b & k' & E & Ho & Hb). exists b, k'. split.
  - unfold Unlink, __lstat. rewrite !at_path_c_str by done. unfold ask, query, mbind, stE_bind.
    rewrite Hst. cbn. by apply fs_system_run.
  - destruct b; [|destruct Hb as [Hr Hv]]; unfold removed.
    + rewrite Hb. split; [|rewrite lookup_delete_eq; done]. split; [done|]. split.
      { apply tree_delete; [done|]. intros n. by eapply tree_leaf_none. }
      assert (¬ kept (view k) l) as Hnk.
      { intros (s & (ms & Hs & Hbs & Hds) & Hp). rewrite (tree_leaf _ _ _ _ _ HT Hm Hd Hp Hs) in Hs. congruence. }
      split; [apply delete_subseteq| |].
      * intros m mode' Hm' Hk. apply lookup_delete_Some. split; [|done]. intros <-. destruct Hk as [Hp|?]; [by apply Hp|done].
      * intros m [mode' [Hne Hm']%lookup_delete_Some] Hp. by rewrite (tree_leaf _ _ _ _ _ HT Hm Hd Hp Hm') in Hne.
    + rewrite Hv, Hm. split; [|done]. split; [done|]. split; [done|]. apply pruned_none. intros m _ Hp.
      exists l. split; [by exists mode|right]. split; [done|by right].
Qed.

(** What is left below [l] when it could not be removed. *)
Lemma left_spared (P : list bytes → Prop) (l : list bytes) (T T1 : tree) mode : pruned refuses P T T1 → T !! l = Some mode →
  (∀ m mode, T !! m = Some mode → l `prefix_of` m → m ≠ l → P m) →
  refuses l ∨ (∃ n, is_Some (T1 !! (l ++ [n]))) → ∀ m, is_Some (T1 !! m) → l `prefix_of` m → spared refuses T m.
Proof.
  intros HP Hl HPc Hwhy m [mm Hm] Hp. destruct (decide (m = l)) as [->|Hne].
  2:{ eapply (pr_why _ P); [done|by exists mm|]. eapply HPc; [|done..]. by eapply sub_lookup, Hm; apply HP. }
  destruct Hwhy as [Hr|[n [mn Hn]]]; [exists l; split; [by exists mode|right; split; [done|by left]]|].
  assert (l ≠ l ++ [n]) as Hln by (intros E%(f_equal length); rewrite length_app in E; cbn in E; lia).
  assert (l `prefix_of` (l ++ [n])) as Hpn by by exists [n].
  destruct (pr_why _ _ _ _ HP (l ++ [n])) as (s & Hs & Hwhy); [by exists mn| |].
  { eapply HPc; [|done|done]. by eapply sub_lookup, Hn; apply HP. }
  exists s. split; [done|]. destruct Hwhy as [[Hst Hps]|[Hrs [Hps|Hps]]].
  - left. split; [done|]. by etrans.
  - right. split; [done|]. left. by etrans.
  - right. split; [done|]. apply prefix_snoc_inv in Hps as [?| ->]; [by right|by left].
Qed.

(** The directory itself, after its entries. *)
Lemma rmdir_removes l k k1 mode (P : list bytes → Prop) : Forall valid_name l → tree_ok (view k) → view k !! l = Some mode → is_dir mode →
  removed P k k1 → ¬ P l → (∀ m, P m → l `prefix_of` m) →
  (∀ m mode, view k !! m = Some mode → l `prefix_of` m → m ≠ l → P m) →
  ∃ b k', fs_rmdir (at_path l) k1 = (b, k') ∧ removed (λ m, l `prefix_of` m) k k' ∧
    (if b then view k' !! l = None ∧ ∀ n, view k1 !! (l ++ [n]) = None else view k' !! l = Some mode).
Proof.
  intros Hl HT Hm Hd (Ho & HT1 & HP) HPl HPp HPc.
  assert (view k1 !! l = Some mode) as Hm1 by (eapply pr_stays; [exact HP|done|by left]).
  destruct (fl_rmdir Hfs l k1 mode Hl Hm1 Hd) as (b & k' & E & Ho' & Hb). exists b, k'. split; [done|].
  unfold removed. destruct b; destruct Hb as [Hn Hv]; rewrite Hv.
  - split; [|split; [apply lookup_delete_eq|done]]. split; [congruence|]. split; [by apply tree_delete|].
    assert (Hnk : ∀ s, stuck (view k) s → l `prefix_of` s → False).
    { intros s Hs [[|n q] ->]; [rewrite app_nil_r in Hs; destruct Hs as (? & Hx & _ & ?); congruence|].
      assert (kept (view k) (l ++ [n])) as Hkn.
      { exists (l ++ n :: q). split; [done|]. exists q. by rewrite <- (assoc_L (++)). }
      destruct Hs as (ms & Hms & _). assert ((l ++ [n]) `prefix_of` (l ++ n :: q)) as Hpn by (exists q; by rewrite <- (assoc_L (++))).
      assert (∃ x, view k !! (l ++ [n]) = Some x) as [x Hx]
        by (destruct (tree_prefix _ _ _ _ HT Hms Hpn) as [->|(d & ? & _)]; by eexists).
      pose proof (pr_stays _ _ _ _ HP _ _ Hx (or_intror Hkn)) as Hx1. by rewrite Hn in Hx1. }
    split.
    + etrans; [apply delete_subseteq|apply HP].
    + intros m mode' Hmm HK. apply lookup_delete_Some. split.
      * intros <-. destruct HK as [Hp|(s & Hs & Hp)]; [by apply Hp|by eapply Hnk].
      * eapply pr_stays; [exact HP|done|]. destruct HK as [HK|?]; [left; auto|by right].
    + intros m [x [Hne Hmm]%lookup_delete_Some] Hp. eapply pr_why; [exact HP|by exists x|].
      eapply HPc; [|done|done]. by eapply sub_lookup, Hmm; apply HP.
  - split; [|done]. split; [congruence|]. split; [done|]. split; [apply HP| |].
    + intros m mode' Hmm HK. eapply pr_stays; [exact HP|done|]. destruct HK as [HK|?]; [left; auto|by right].
    + by eapply left_spared.
Qed.

Lemma Rm_spec f l k : Forall valid_name l → tree_ok (view k) → depth_below (view k) l (S f) →
  ∃ b k', Rm (S f) (at_path l) k = (Ret b, k') ∧ removed (λ m, l `prefix_of` m) k k' ∧
    (b = true ↔ view k' !! l = None ∨ fs_lstat (at_path l) k = None).
Proof.
  revert l k. induction f as [f IH] using lt_wf_ind. intros l k Hl HT HD. cbn [Rm]. rewrite at_path_c_str by done.
  rewrite (stE_bind_ret _ _ _ _ _ (ask_run _ k)).
  destruct (fs_lstat (at_path l) k) as [mode|] eqn:Est.
  2:{ exists true, k. split; [done|]. split; [|split; auto]. split; [done|]. split; [done|]. apply pruned_none. intros m [mm Hm] Hp.
      destruct (fl_lstat Hfs l k Hl) as [E|[Hr _]].
      - rewrite Est in E. destruct (tree_prefix _ _ _ _ HT Hm Hp) as [->|(d & ? & _)]; congruence.
      - exists l. destruct (tree_prefix _ _ _ _ HT Hm Hp) as [->|(d & ? & _)];
          (split; [by eexists|right; split; [done|by right]]). }
  assert (view k !! l = Some mode) as Em by (destruct (fl_lstat Hfs l k Hl) as [E|[_ E]]; congruence).
  destruct (Z.eqb_spec (Z.land mode S_IFDIR) 0) as [Hbit|Hbit].
  { destruct (unlink_removes l k mode Hl HT Em Hbit Est) as (b & k' & E & Hr & Hb). exists b, k'.
    split; [done|]. split; [done|]. rewrite Hb. split; [by left|by intros [?|?]]. }
  rewrite (stE_bind_ret _ _ _ _ _ (ask_run _ k)).
  assert (Hstay : (∀ m, is_Some (view k !! m) → l `prefix_of` m → spared refuses (view k) m) →
    ∃ b k', @mret (stE K) _ _ false k = (Ret b, k') ∧ removed (λ m, l `prefix_of` m) k k' ∧
      (b = true ↔ view k' !! l = None ∨ Some mode = None)).
  { intros Hsp. exists false, k. split; [done|]. split; [|rewrite Em; split; [done|by intros [?|?]]].
    split; [done|]. split; [done|]. by apply pruned_none. }
  destruct (decide (is_dir mode)) as [Hd|Hd].
  2:{ rewrite (fl_no_entries Hfs l k mode Hl Em Hd). apply Hstay. intros m [mm Hm] Hp.
      rewrite (tree_leaf _ _ _ _ _ HT Em Hd Hp Hm). exists l. split; [by exists mode|left]. split; [by exists mode|done]. }
  destruct (fl_entries Hfs l k mode Hl Em Hd) as [(es & -> & Hes & Hall)|[Hr ->]].
  2:{ apply Hstay. intros m _ Hp. exists l. split; [by exists mode|right]. split; [done|by right]. }
  assert (Hchild : ∀ n, is_Some (view k !! (l ++ [n])) → valid_name n ∧ (0 < f)%nat).
  { intros n [m Hm]. split; [by apply (HT l n m)|]. assert (length (l ++ [n]) < length l + S f)%nat as Hlen.
    { apply HD; [by exists m|by exists [n]]. } rewrite length_app in Hlen. cbn in Hlen. lia. }
  destruct (rm_entries_spec (view k) (Rm f) l es true k HT (reflexivity _)) as (b1 & k1 & E1 & H1 & Hb1).
  { intros n Hn. destruct (Hes n Hn) as [?|Hs]; [by left|right]. destruct (Hchild n Hs) as [Hv Hf]. intros k0 HT0 Hsub.
    destruct f as [|f]; [lia|]. destruct (IH f ltac:(lia) (l ++ [n]) k0) as (b & k' & E & Hrem & Hb);
      [by apply Forall_app; split; [|constructor]|done|by eapply depth_step|].
    exists b, k'. split; [done|]. split; [done|]. intros Hg. apply Hb. by left. }
  rewrite (stE_bind_ret _ _ _ _ _ E1).
  assert (Hpath : ∀ m mode', view k !! m = Some mode' → l `prefix_of` m → m ≠ l →
    ∃ n, n ∈ es.*1 ∧ is_dot n = false ∧ (l ++ [n]) `prefix_of` m).
  { intros m mode' Hm [q ->] Hne. destruct q as [|n q]; [by rewrite app_nil_r in Hne|]. exists n.
    assert ((l ++ [n]) `prefix_of` (l ++ n :: q)) as Hp by (exists q; by rewrite <- (assoc_L (++))).
    assert (is_Some (view k !! (l ++ [n]))) as Hs.
    { destruct (tree_prefix _ _ _ _ HT Hm Hp) as [->|(d & ? & _)]; by eexists. }
    split; [by apply Hall|]. split; [|done]. by destruct (Hchild n Hs) as [(_ & _ & _ & ?) _]. }
  destruct (rmdir_removes l k k1 mode _ Hl HT Em Hd H1) as (b & k' & E & Hrem & Hb); [..|exact Hpath|].
  { intros (n & _ & _ & Hp). apply prefix_length in Hp. rewrite length_app in Hp. cbn in Hp. lia. }
  { intros m (n & _ & _ & Hp). etrans; [|exact Hp]. by exists [n]. }
  rewrite (stE_bind_ret _ _ _ _ _ (fs_system_run _ _ _ _ E)). eexists _, k'. split; [reflexivity|]. split; [exact Hrem|].
  destruct b.
  - destruct Hb as [Hb Hn]. split; [by left|]. intros _. by apply Hb1; [left|].
  - rewrite Hb. split; [done|by intros [?|?]].
Qed.

End removing.

(* ------------------------------------------------------------------ *)
(** ** On a concrete file system *)

(** The names of a path below [/tmp]. *)
Fixpoint split_names (s : bytes) (name : bytes) : list bytes :=
  match s with
  | [] => [name]
  | c :: r => if bool_decide (c = "/"%char) then name :: split_names r [] else split_names r (name ++ [c])
  end.
Definition names_of (path : bytes) : list bytes := match drop 4 path with [] => [] | _ :: r => split_names r [] end.

Definition children (l : list bytes) (T : gmap (list bytes) Z) : list (bytes * Z) :=
  omap (λ e, match last e.1 with Some n => if decide (e.1 = l ++ [n]) then Some (n, Z.shiftr e.2 12) else None | None => None end)
    (map_to_list T).

(** A file the system does not let go. *)
Definition busy (l : list bytes) : Prop := last l = Some (B "busy").

#[export] Instance table_fs : FileSystem (gmap (list bytes) Z) := {|
  fs_access p T := bool_decide (is_Some (T !! names_of p));
  fs_lstat p T := T !! names_of p;
  fs_entries p T := match T !! names_of p with
                    | Some mode => if decide (is_dir mode) then Some ((B ".", 4) :: (B "..", 4) :: children (names_of p) T) else None
                    | None => None
                    end;
  fs_mkdir p mode T := (true, <[names_of p := Z.lor S_IFDIR mode]> T);
  fs_unlink p T := match T !! names_of p with
                   | Some mode => if decide (is_dir mode ∨ last (names_of p) = Some (B "busy")) then (false, T)
                                  else (true, delete (names_of p) T)
                   | None => (false, T)
                   end;
  fs_rmdir p T := match children (names_of p) T with [] => (true, delete (names_of p) T) | _ => (false, T) end;
  fs_rename p q T := (false, T);
  fs_symlink p q T := (false, T);
  fs_realpath p T := Some p;
  fs_open p T := (bool_decide (is_Some (T !! names_of p)), T);
  fs_line p T := None
|}.

Lemma split_names_app n s name : "/"%char ∉ n → split_names (n ++ s) name = split_names s (name ++ n).
Proof.
  revert name. induction n as [|c n IH]; intros name Hn; [by rewrite app_nil_r|]. apply not_elem_of_cons in Hn as [Hc Hn].
  cbn. rewrite bool_decide_eq_false_2 by done. rewrite IH by done. by rewrite <- (assoc_L (++)).
Qed.

Lemma names_of_path l : Forall valid_name l → names_of (at_path (B "/tmp") l) = l.
Proof.
  intros Hl. unfold names_of, at_path. change (drop 4 (B "/tmp" ++ ?x)) with x. destruct Hl as [|n l [_ [Hn _]] Hl]; [done|]. cbn.
  rewrite split_names_app by done. cbn. clear -Hl Hn. revert n Hn. induction Hl as [|m l [_ [Hm _]] _ IH]; intros n Hn; [done|].
  cbn. f_equal. rewrite split_names_app by done. cbn. by apply IH.
Qed.

Lemma children_names (l : list bytes) (T : gmap (list bytes) Z) (n : bytes) : n ∈ (children l T).*1 ↔ is_Some (T !! (l ++ [n])).
Proof.
  unfold children. rewrite list_elem_of_fmap. setoid_rewrite list_elem_of_omap. split.
  - intros ([n' t] & -> & [m mode] & Hm & E). cbn in E. destruct (last m) as [x|]; [|done]. case_decide as Hd; [|done].
    injection E as -> _. cbn. rewrite <- Hd. exists mode. by apply elem_of_map_to_list in Hm.
  - intros [mode Hm]. exists (n, Z.shiftr mode 12). split; [done|]. exists (l ++ [n], mode).
    split; [by apply elem_of_map_to_list|]. cbn. rewrite last_snoc. by rewrite decide_True.
Qed.

Ltac pathed l Hl := pose proof (names_of_path l Hl) as E; revert E; generalize (at_path (B "/tmp") l); intros p E; cbn.

Lemma table_fs_law : fs_law (B "/tmp") id (λ _, tt) busy.
Proof.
  split.
  - apply (bool_decide_unpack _). vm_compute. exact I.
  - intros l k Hl. pathed l Hl. left. by rewrite E.
  - intros l k mode Hl Hm Hd. pathed l Hl. left. unfold id in *; rewrite E, Hm. rewrite decide_True by done.
    eexists. split; [reflexivity|]. cbn. split.
    + intros n [->|[->|Hn]%elem_of_cons]%elem_of_cons; [by left|by left|right]. by apply children_names.
    + intros n Hn. do 2 right. by apply children_names.
  - intros l k mode Hl Hm Hd. pathed l Hl. unfold id in *; rewrite E, Hm. by rewrite decide_False.
  - intros l k mode Hl Hm Hd. pathed l Hl. unfold id in *; rewrite E, Hm. destruct (decide _) as [[?|Hb]|Hn]; [done| |].
    + by exists false, k.
    + by exists true, (delete l k).
  - intros l k mode Hl Hm Hd. pathed l Hl. rewrite E. destruct (children l k) as [|[n t] es] eqn:Ec.
    + exists true, (delete l k). split_and!; [done|done| |done]. intros n. apply eq_None_not_Some. rewrite <- children_names, Ec. apply not_elem_of_nil.
    + exists false, k. split_and!; [done|done| |done]. right. exists n. apply children_names. rewrite Ec. left.
Qed.

(** A directory with a directory with two files, and beside it a socket. *)
Definition full_tmp : gmap (list bytes) Z :=
  {[ [] := 0x41FF; [B "a"] := 0x41ED; [B "a"; B "f"] := 0x81A4; [B "a"; B "g"] := 0x81A4; [B "s"] := 0xC1FF ]}.

(** [tree_ok], checked key by key. *)
Definition key_ok (T : gmap (list bytes) Z) (m : list bytes) (mode : Z) : Prop :=
  match last m with
  | None => True
  | Some n => (n ≠ [] ∧ "/"%char ∉ n ∧ zero ∉ n ∧ is_dot n = false) ∧
      match T !! take (length m - 1) m with Some d => is_dir d | None => False end
  end.
#[export] Instance key_ok_dec T m mode : Decision (key_ok T m mode).
Proof. unfold key_ok. destruct (last m); [|apply _]. apply and_dec; [apply _|]. destruct (T !! _); apply _. Defined.

Lemma key_ok_tree (T : gmap (list bytes) Z) : map_Forall (key_ok T) T → tree_ok T.
Proof.
  intros Hf l n mode Hm. specialize (Hf _ _ Hm). unfold key_ok in Hf. rewrite last_snoc, length_app in Hf. cbn in Hf.
  rewrite Nat.add_sub, take_app_length in Hf. destruct Hf as [Hv Hd]. split; [exact Hv|].
  destruct (T !! l) as [d|]; [by exists d|done].
Qed.

Lemma full_tmp_ok : tree_ok full_tmp.
Proof. apply key_ok_tree, (bool_decide_unpack _). vm_compute. exact I. Qed.

(** A file of the inner directory is busy. *)
Definition busy_tmp : gmap (list bytes) Z :=
  {[ [] := 0x41FF; [B "a"] := 0x41ED; [B "a"; B "busy"] := 0x81A4; [B "a"; B "g"] := 0x81A4 ]}.

Lemma busy_tmp_ok : tree_ok busy_tmp.
Proof. apply key_ok_tree, (bool_decide_unpack _). vm_compute. exact I. Qed.

