(* ===== verification/LogYaml.v ===== *)
(** * The logging configuration as text ([log.cpp])

    Definitions of loggers read from YAML and printed, and loggers and
    appenders printed in the same form.  What is printed on the console for a
    definition that is skipped is left out. *)
From S2P Require Import Prelude StdString OrderedSet OrderedMap Yaml LexicalCast LexicalCastTheorems Log Logger LogConfig LogConfigTheorems.
From stdpp Require Import gmap.

Local Open Scope Z_scope.

Section text.
Context {Y : Yaml}.

(** One appender; [None] is skipped. *)
(* sylar/log.cpp:630-656, LexicalCast<std::string, LogDefine> *)
Definition read_appender (a : Node) : outcome (option LogAppenderDefine) :=
  if negb (IsDefined (field a (B "type"))) then Ret None
  else
    t ← as_string (field a (B "type"));
    let read_pattern := if IsDefined (field a (B "pattern")) then as_string (field a (B "pattern")) else Ret [] in
    if bool_decide (t = B "FileLogAppender") then
      if negb (IsDefined (field a (B "file"))) then Ret None
      else f ← as_string (field a (B "file")); p ← read_pattern; Ret (Some (mkAppenderDefine 1 p f))
    else if bool_decide (t = B "StdoutLogAppender") then p ← read_pattern; Ret (Some (mkAppenderDefine 2 p []))
    else Ret None.

(* sylar/log.cpp:616-661, LexicalCast<std::string, LogDefine> *)
Definition read_define (v : bytes) : outcome LogDefine :=
  n ← Load v;
  if negb (IsDefined (field n (B "name"))) then Throw logic_error
  else
    nm ← as_string (field n (B "name"));
    lv ← (if IsDefined (field n (B "level")) then as_string (field n (B "level")) else Ret []);
    l ← (if IsDefined (field n (B "appenders"))
         then let as_ := field n (B "appenders") in each read_appender (index as_ <$> seq 0 (node_size as_))
         else Ret []);
    Ret (mkDefine nm (FromString lv) (omap id l)).

(* sylar/log.cpp:670-680, LexicalCast<LogDefine, std::string> *)
Definition print_appender (a : LogAppenderDefine) : Node :=
  mapping ((if type a =? 1 then [(B "type", scalar (B "FileLogAppender")); (B "file", scalar (file a))]
            else if type a =? 2 then [(B "type", scalar (B "StdoutLogAppender"))] else [])
           ++ match pattern a with [] => [] | p => [(B "pattern", scalar p)] end).

(** [appenders] with [push_back]: no key when there are none. *)
Definition with_appenders (l : list Node) : list (bytes * Node) := match l with [] => [] | _ => [(B "appenders", sequence l)] end.

(* sylar/log.cpp:664-687, LexicalCast<LogDefine, std::string> *)
Definition print_define (i : LogDefine) : bytes :=
  emit (mapping ([(B "name", scalar (name i)); (B "level", scalar (ToString (level i)))]
                 ++ with_appenders (print_appender <$> defines i))).

(** The variable [logs] is a set of definitions: its text goes through the
    casts for [std::set]. *)
(* sylar/log.cpp:689-690, g_log_defines *)
Definition read_logs (v : bytes) : outcome (list LogDefine) :=
  node ← Load v; l ← each read_define (element_texts node);
  Ret (fold_left (λ s d, (OrderedMap.map_insert define_lt d d ((λ x, (x, x)) <$> s)).*1) l []).
(* sylar/log.cpp:689-690, g_log_defines *)
Definition print_logs (s : list LogDefine) : outcome bytes :=
  l ← each (λ d, Load (print_define d)) s; Ret (emit (sequence l)).

(** The appender's own formatter on the console, null or not; the one in
    use in a file. *)
(* sylar/log.cpp:408-416, StdoutLogAppender::toYamlString *)
Definition stdout_toYamlString (a : LogAppender) : outcome bytes :=
  match Logger.m_formatter a with
  | None => Crash null_deref
  | Some f => Ret (emit (mapping [(B "type", scalar (B "StdoutLogAppender")); (B "pattern", scalar (m_pattern f))]))
  end.
(* sylar/log.cpp:465-474, FileLogAppender::toYamlString *)
Definition file_toYamlString (m_filename : bytes) (a : LogAppender) : bytes :=
  emit (mapping [(B "type", scalar (B "FileLogAppender")); (B "file", scalar m_filename);
                 (B "pattern", scalar (m_pattern (getFormatter a)))]).
Definition appender_toYamlString (a : LogAppender) : outcome bytes :=
  match m_sink a with
  | StdoutLogAppender => stdout_toYamlString a
  | FileLogAppender f _ _ _ => Ret (file_toYamlString f a)
  end.

(* sylar/log.cpp:514-525, Logger::toYamlString *)
Definition toYamlString (p : nat) : stE logging bytes :=
  l ← logger_at p;
  s ← get;
  nodes ← query (λ _, each (λ q, match appenders s !! q with
                                 | Some a => t ← appender_toYamlString a; Load t
                                 | None => Crash dangling
                                 end) (m_appenders l));
  mret (emit (mapping ([(B "name", scalar (m_name l)); (B "level", scalar (ToString (Logger.m_level l)))] ++ with_appenders nodes))).

(** One node after the other, as the loggers are printed. *)
(* sylar/log.cpp:568-577, LoggerManager::toYamlString *)
Definition manager_toYamlString : stE logging bytes :=
  s ← get;
  nodes ← foldr (λ e rest, t ← toYamlString e.2; n ← query (λ _, Load t); r ← rest; mret (n :: r)) (mret []) (m_loggers s);
  mret (emit (sequence nodes)).
End text.

(* ------------------------------------------------------------------ *)
(** ** What is printed is read back *)

(** Appenders the configuration can describe: only files have a file, and
    the texts stand for themselves in a document. *)
Definition appender_ok (a : LogAppenderDefine) : Prop :=
  (type a = 1 ∧ yaml_text (file a) = true ∨ type a = 2 ∧ file a = []) ∧
  (pattern a = [] ∨ yaml_text (pattern a) = true).
Definition define_ok (d : LogDefine) : Prop := yaml_text (name d) = true ∧ Forall appender_ok (defines d).

(** A printed appender shows its pattern also when it is empty. *)
Definition printable (a : LogAppenderDefine) : Prop :=
  yaml_text (pattern a) = true ∧ (type a = 1 → yaml_text (file a) = true).

Lemma level_text l : yaml_text (ToString l) = true.
Proof. by destruct l. Qed.

Lemma FromString_ToString l : FromString (ToString l) = l.
Proof. by destruct l. Qed.

Section roundtrip.
Context {Y : Yaml} {YL : YamlLaws Y}.

Lemma string_field l k s : NoDup l.*1 → (k, scalar s) ∈ l →
  IsDefined (field (mapping l) k) = true ∧ as_string (field (mapping l) k) = Ret s.
Proof. intros Hn Hk. rewrite (mapping_field l k _ Hn Hk). split; [apply scalar_defined|apply scalar_as]. Qed.

(** The text of an appender: its type, its file, its pattern if it has one. *)
Definition appender_node (t : bytes) (f : option bytes) (p : option bytes) : Node :=
  mapping ([(B "type", scalar t)] ++ match f with Some f => [(B "file", scalar f)] | None => [] end
           ++ match p with Some p => [(B "pattern", scalar p)] | None => [] end).

Lemma appender_document t f p : yaml_text t = true → (∀ s, f = Some s → yaml_text s = true) →
  (∀ s, p = Some s → yaml_text s = true) → document (appender_node t f p).
Proof.
  intros Ht Hf Hp. apply document_mapping.
  - destruct f, p; cbn; apply (bool_decide_unpack _); vm_compute; exact I.
  - destruct f, p; cbn; repeat constructor; auto.
Qed.

Lemma read_appender_node t f p : t = B "FileLogAppender" ∧ is_Some f ∨ t = B "StdoutLogAppender" ∧ f = None →
  read_appender (appender_node t f p)
  = Ret (Some (mkAppenderDefine (if bool_decide (t = B "FileLogAppender") then 1 else 2) (default [] p) (default [] f))).
Proof.
  intros Ht. unfold read_appender, appender_node. set (l := _ ++ _).
  assert (Hnd : NoDup l.*1).
  { unfold l. destruct f, p; cbn; apply (bool_decide_unpack _); vm_compute; exact I. }
  assert (Hf : ∀ k s, (k, scalar s) ∈ l → IsDefined (field (mapping l) k) = true ∧ as_string (field (mapping l) k) = Ret s)
    by (intros k s; by apply string_field).
  destruct (Hf (B "type") t) as [-> ->]; [by left|]. cbn [negb]. unfold mbind at 1, outcome_bind at 1.
  assert (Hp : (if IsDefined (field (mapping l) (B "pattern")) then as_string (field (mapping l) (B "pattern")) else Ret []) = Ret (default [] p)).
  { destruct p as [p|].
    - destruct (Hf (B "pattern") p) as [-> ->]; [|done]. unfold l. rewrite !elem_of_app. right. right. by left.
    - rewrite mapping_no_field; [done|]. unfold l. destruct f; apply (bool_decide_unpack _); vm_compute; exact I. }
  rewrite Hp. destruct Ht as [[-> [f' ->]]|[-> ->]].
  - rewrite bool_decide_eq_true_2 by done. destruct (Hf (B "file") f') as [-> ->]; [|done].
    unfold l. rewrite !elem_of_app. right. left. by left.
  - rewrite bool_decide_eq_false_2 by done. by rewrite bool_decide_eq_true_2 by done.
Qed.

(** A logger's text from the nodes of its appenders. *)
Definition define_node (nm lv : bytes) (l : list Node) : Node :=
  mapping ([(B "name", scalar nm); (B "level", scalar lv)] ++ with_appenders l).

Lemma define_document nm lv l : yaml_text nm = true → yaml_text lv = true → Forall document l → document (define_node nm lv l).
Proof.
  intros Hn Hv Hl. apply document_mapping.
  - destruct l; apply (bool_decide_unpack _); vm_compute; exact I.
  - destruct l; cbn; repeat constructor; auto; by inversion Hl.
Qed.

Lemma read_define_node nm lv l ds : document (define_node nm lv l) → (∀ i, read_appender <$> (l !! i) = (Ret ∘ Some) <$> (ds !! i)) →
  read_define (emit (define_node nm lv l)) = Ret (mkDefine nm (FromString lv) ds).
Proof.
  intros Hdoc Hl. unfold read_define. rewrite load_emit by done. unfold mbind at 1, outcome_bind at 1. unfold define_node. set (m := _ ++ _).
  assert (Hnd : NoDup m.*1) by (unfold m; destruct l; apply (bool_decide_unpack _); vm_compute; exact I).
  destruct (string_field m (B "name") nm Hnd) as [-> ->]; [by left|]. cbn [negb]. unfold mbind at 1, outcome_bind at 1.
  destruct (string_field m (B "level") lv Hnd) as [-> ->]; [right; by left|]. unfold mbind at 1, outcome_bind at 1.
  destruct l as [|a l].
  - rewrite mapping_no_field by (unfold m; apply (bool_decide_unpack _); vm_compute; exact I). cbn.
    destruct ds as [|d ds]; [done|]. by specialize (Hl 0%nat).
  - rewrite (mapping_field m (B "appenders") (sequence (a :: l)) Hnd) by (do 2 right; by left).
    rewrite sequence_defined, sequence_size. cbv zeta.
    assert (index (sequence (a :: l)) <$> seq 0 (length (a :: l)) = a :: l) as ->.
    { apply list_eq. intros i. rewrite list_lookup_fmap. destruct ((a :: l) !! i) as [n|] eqn:E.
      - rewrite lookup_seq_lt by (by eapply lookup_lt_Some). cbn. f_equal. by apply sequence_index.
      - rewrite lookup_seq_ge; [done|]. by apply lookup_ge_None. }
    assert (each read_appender (a :: l) = Ret (Some <$> ds)) as ->.
    { clear -Hl. generalize dependent ds. induction (a :: l) as [|b k IH]; intros ds Hl.
      - destruct ds as [|d ds]; [done|]. by specialize (Hl 0%nat).
      - destruct ds as [|d ds]; [by specialize (Hl 0%nat)|]. cbn. pose proof (Hl 0%nat) as H0. cbn in H0. injection H0 as ->.
        cbn. rewrite (IH ds); [done|]. intros i. apply (Hl (S i)). }
    cbn. assert (omap id (Some <$> ds) = ds) as ->; [|done]. clear. induction ds as [|d ds IH]; [done|]. cbn. by rewrite IH.
Qed.

Lemma print_appender_node a : appender_ok a →
  print_appender a = appender_node (if bool_decide (type a = 1) then B "FileLogAppender" else B "StdoutLogAppender")
    (if bool_decide (type a = 1) then Some (file a) else None) (match pattern a with [] => None | _ => Some (pattern a) end).
Proof. destruct a as [t p f]. intros [[[Ht _]|[Ht Hf]] _]; cbn in *; subst; by destruct p. Qed.

Lemma print_appender_read a : appender_ok a → read_appender (print_appender a) = Ret (Some a) ∧ document (print_appender a).
Proof.
  intros Ha. rewrite print_appender_node by done. destruct a as [t p f]. destruct Ha as [Hk Hp]. cbn in *.
  assert (Hpt : ∀ s, match p with [] => None | _ => Some p end = Some s → yaml_text s = true).
  { destruct p; [done|]. intros s [= <-]. by destruct Hp. }
  destruct Hk as [[-> Hf]|[-> ->]]; (split; [|apply appender_document; [done|naive_solver|done]]).
  - rewrite read_appender_node by (left; by eauto). by destruct p.
  - rewrite read_appender_node by (by right). by destruct p.
Qed.

Lemma printed_document d : define_ok d → document (define_node (name d) (ToString (level d)) (print_appender <$> defines d)).
Proof.
  intros [Hn Hd]. apply define_document; [done|apply level_text|]. apply Forall_fmap. eapply Forall_impl; [exact Hd|].
  intros a Ha. by apply print_appender_read.
Qed.

Lemma print_define_read d : define_ok d → read_define (print_define d) = Ret d.
Proof.
  intros Hd. change (print_define d) with (emit (define_node (name d) (ToString (level d)) (print_appender <$> defines d))).
  rewrite (read_define_node _ _ _ (defines d)) by (apply printed_document, Hd || (
    intros i; rewrite list_lookup_fmap; destruct (defines d !! i) as [a|] eqn:E; [|done]; cbn; f_equal; apply print_appender_read;
    destruct Hd as [_ Hd]; rewrite Forall_lookup in Hd; by eapply Hd)).
  rewrite FromString_ToString. by destruct d.
Qed.

(** An appender as a definition; the console one needs its own formatter. *)
Definition definition_of (a : LogAppender) : option LogAppenderDefine :=
  match m_sink a with
  | StdoutLogAppender => f ← Logger.m_formatter a; Some (mkAppenderDefine 2 (m_pattern f) [])
  | FileLogAppender f _ _ _ => Some (mkAppenderDefine 1 (m_pattern (getFormatter a)) f)
  end.

Lemma appender_printed a d : definition_of a = Some d → printable d →
  ∃ n, (t ← appender_toYamlString a; Load t) = Ret n ∧ read_appender n = Ret (Some d) ∧ document n.
Proof.
  unfold definition_of, appender_toYamlString. destruct (m_sink a) as [|f st lt re].
  - unfold stdout_toYamlString. destruct (Logger.m_formatter a) as [f|]; [|done]. intros [= <-] [Hp _]. cbn in Hp.
    assert (document (appender_node (B "StdoutLogAppender") None (Some (m_pattern f)))) as Hd
      by (apply appender_document; [done|done|by intros s [= <-]]).
    exists (appender_node (B "StdoutLogAppender") None (Some (m_pattern f))).
    split; [by apply load_emit, Hd|]. split; [|exact Hd]. by rewrite read_appender_node by (by right).
  - intros [= <-] [Hp Hf]. cbn in Hp, Hf.
    assert (document (appender_node (B "FileLogAppender") (Some f) (Some (m_pattern (getFormatter a))))) as Hd
      by (apply appender_document; [done|intros s [= <-]; auto|by intros s [= <-]]).
    exists (appender_node (B "FileLogAppender") (Some f) (Some (m_pattern (getFormatter a)))).
    split; [by apply load_emit, Hd|]. split; [|exact Hd]. by rewrite read_appender_node by (left; by eauto).
Qed.

Lemma appenders_printed (st : logging) qs ds : ((λ q, a ← appenders st !! q; definition_of a) <$> qs) = Some <$> ds → Forall printable ds →
  ∃ ns, each (λ q, match appenders st !! q with Some a => t ← appender_toYamlString a; Load t | None => Crash dangling end) qs = Ret ns ∧
    Forall document ns ∧ ∀ i, read_appender <$> (ns !! i) = (Ret ∘ Some) <$> (ds !! i).
Proof.
  revert ds. induction qs as [|q qs IH]; intros [|d ds] H Hok; try done; cbn in H.
  { exists []. done. }
  apply Forall_cons in Hok as [Hd Hds]. injection H as Hq Hqs. destruct (IH ds Hqs Hds) as (ns & E & Hdoc & Hns).
  destruct (appenders st !! q) as [a|] eqn:Ea; [|done]. destruct (appender_printed a d Hq Hd) as (n & En & Hn & Hnd).
  exists (n :: ns). split; [cbn [each]; rewrite Ea, En, E; done|]. split; [by constructor|].
  intros [|i]; cbn; [by rewrite Hn|apply Hns].
Qed.

(** Inserting the definitions of a set one after the other. *)
Lemma define_fold s : map_sorted name bytes_lt ((λ d, (d, d)) <$> s) →
  fold_left (λ s d, (OrderedMap.map_insert define_lt d d ((λ x, (x, x)) <$> s)).*1) s [] = s.
Proof.
  intros Hs. set (dup := λ l : list LogDefine, (λ d, (d, d)) <$> l).
  assert (Hfst : ∀ l, (dup l).*1 = l) by (intros l; unfold dup; rewrite <- list_fmap_compose; apply list_fmap_id).
  assert (Hins : ∀ d l, dup (OrderedMap.map_insert define_lt d d (dup l)).*1 = OrderedMap.map_insert define_lt d d (dup l)).
  { intros d l. induction l as [|x l IH]; [done|]. cbn. destruct (define_lt x d); cbn; [f_equal; exact IH|].
    destruct (define_lt d x); cbn; by rewrite ?Hfst. }
  assert (∀ acc, dup (fold_left (λ s d, (OrderedMap.map_insert define_lt d d ((λ x, (x, x)) <$> s)).*1) s acc)
    = fold_left (λ l x, OrderedMap.map_insert define_lt x.1 x.2 l) (dup s) (dup acc)) as H.
  { clear Hs. induction s as [|d s IH]; intros acc; [done|]. cbn [fold_left fmap list_fmap dup fst snd]. rewrite IH.
    f_equal. apply Hins. }
  rewrite <- (Hfst (fold_left _ _ _)), H. rewrite (fold_insert_sorted define_lt name bytes_lt) by done. apply Hfst.
Qed.

(** C35: the logging configuration survives its text.  A set of definitions
    with files for the file appenders only is printed and read back as it
    was, provided names, files and patterns (unless there is none) are
    printable, not empty and no word for null.  A logger prints itself as a
    definition that is read back as its name, its level and its appenders
    with their files and patterns, provided the same of these texts; but a console appender without a formatter
    of its own dereferences a null pointer. *)
Theorem logs_roundtrip :
  (∀ s, map_sorted name bytes_lt ((λ d, (d, d)) <$> s) → Forall define_ok s → ∃ t, print_logs s = Ret t ∧ read_logs t = Ret s) ∧
  (∀ p l ds (st : logging), loggers st !! p = Some l →
    ((λ q, a ← appenders st !! q; definition_of a) <$> m_appenders l) = Some <$> ds →
    yaml_text (m_name l) = true → Forall printable ds →
    ∃ t, toYamlString p st = (Ret t, st) ∧ read_define t = Ret (mkDefine (m_name l) (Logger.m_level l) ds)) ∧
  (∀ a, m_sink a = StdoutLogAppender → Logger.m_formatter a = None → appender_toYamlString a = Crash null_deref).
Proof.
  split_and!.
  - intros s Hs Hok. rewrite Forall_forall in Hok.
    set (nd := λ d, define_node (name d) (ToString (level d)) (print_appender <$> defines d)).
    exists (emit (sequence (nd <$> s))). split.
    + unfold print_logs. rewrite (each_ret _ nd); [done|]. intros d Hd. by apply (load_emit (nd d)), printed_document, Hok.
    + unfold read_logs. rewrite load_emit by (constructor; apply Forall_fmap, Forall_forall; intros d Hd; by apply printed_document, Hok).
      unfold mbind at 1, outcome_bind at 1. rewrite element_texts_sequence, <- list_fmap_compose.
      assert (each read_define (emit ∘ nd <$> s) = Ret s) as ->.
      { etrans; [apply (each_map (emit ∘ nd) _ id)|by rewrite list_fmap_id]. intros d Hd. by apply print_define_read, Hok. }
      cbn. f_equal. by apply define_fold.
  - intros p l ds st Hl Hds Hname Hok. unfold toYamlString, logger_at.
    rewrite (stE_bind_ret _ _ st l st) by (unfold query; by rewrite Hl). rewrite get_bind.
    destruct (appenders_printed st (m_appenders l) ds Hds Hok) as (ns & E & Hdoc & Hns).
    rewrite (stE_bind_ret _ _ st ns st) by (unfold query; by rewrite E).
    eexists. split; [reflexivity|]. change (emit _) with (emit (define_node (m_name l) (ToString (Logger.m_level l)) ns)).
    rewrite (read_define_node _ _ _ ds); [by rewrite FromString_ToString| |done].
    apply define_document; [done|apply level_text|done].
  - intros a Hs Hf. unfold appender_toYamlString. rewrite Hs. unfold stdout_toYamlString. by rewrite Hf.
Qed.
End roundtrip.

(* ------------------------------------------------------------------ *)
(** ** On a concrete YAML *)

Definition sample_logs : list LogDefine :=
  [mkDefine (B "root") DEBUG [mkAppenderDefine 1 (B "%m%n") (B "/var/log/a: b"); mkAppenderDefine 2 [] []];
   mkDefine (B "system") NOTSET []].

Lemma sample_logs_sorted : map_sorted name bytes_lt ((λ d, (d, d)) <$> sample_logs).
Proof. repeat constructor. Qed.

Definition sample_file : LogAppender :=
  mkAppender (FileLogAppender (B "x.log") (mkStream true false) 0 false) None (mkFormatter (B "%d") [] false).
Definition sample_logging : logging := mkLogging {[3%nat := sample_file]} {[7%nat := mkLogger (B "app") WARN [3%nat] 0]} 8 [] 7 [] ∅.

Lemma logs_roundtrip_witness :
  (∃ t, print_logs (Y := Tree.yaml) sample_logs = Ret t ∧ read_logs (Y := Tree.yaml) t = Ret sample_logs) ∧
  (∃ t, toYamlString (Y := Tree.yaml) 7 sample_logging = (Ret t, sample_logging) ∧
    read_define (Y := Tree.yaml) t = Ret (mkDefine (B "app") WARN [mkAppenderDefine 1 (B "%d") (B "x.log")])).
Proof.
  destruct (logs_roundtrip (YL := Tree.laws)) as (H1 & H2 & _). split.
  - apply (H1 sample_logs sample_logs_sorted).
    repeat apply Forall_cons_2; try apply Forall_nil_2; (split; [reflexivity|]);
      repeat apply Forall_cons_2; try apply Forall_nil_2.
    + split; [left; split; reflexivity|right; reflexivity].
    + split; [right; split; reflexivity|left; reflexivity].
  - apply (H2 7%nat (mkLogger (B "app") WARN [3%nat] 0)); [reflexivity..|].
    apply Forall_cons_2; [split; reflexivity|apply Forall_nil_2].
Defined.
