(* ===== verification/Mutex.v ===== *)
(** * Locks ([mutex.h], [mutex.cc])

    The guards of a scope over the locks they take, and the locks over the
    calls of the system.  Threads are named by numbers; a call that waits
    until another thread has moved is [None] meanwhile.  The calls of pthread
    return an error code that the wrappers drop: such a call returns, and the
    lock is as it was. *)
From S2P Require Import Prelude.
From stdpp Require Import gmap.

Local Open Scope Z_scope.

(* ------------------------------------------------------------------ *)
(** ** The calls of the system *)

(** What the manual says of who holds a lock and how is in [rep]. *)
Inductive mode := Shared | Exclusive.
#[export] Instance mode_eq_dec : EqDecision mode.
Proof. solve_decision. Defined.

Abbreviation holding := (gmap nat mode).

(** May a lock be taken this way, beside the others that hold it? *)
Definition compatible (k : mode) (h : holding) : Prop :=
  match k with Exclusive => h = ∅ | Shared => ∀ u, h !! u ≠ Some Exclusive end.

(** The first component is the code returned. *)
Class Pthread := {
  pthread_mutex_t : Type;
  pthread_mutex_init : pthread_mutex_t;
  pthread_mutex_lock : nat → pthread_mutex_t → option (Z * pthread_mutex_t);
  pthread_mutex_unlock : nat → pthread_mutex_t → Z * pthread_mutex_t;
  pthread_rwlock_t : Type;
  pthread_rwlock_init : pthread_rwlock_t;
  pthread_rwlock_rdlock : nat → pthread_rwlock_t → option (Z * pthread_rwlock_t);
  pthread_rwlock_wrlock : nat → pthread_rwlock_t → option (Z * pthread_rwlock_t);
  pthread_rwlock_unlock : nat → pthread_rwlock_t → Z * pthread_rwlock_t;
  pthread_spinlock_t : Type;
  pthread_spin_init : pthread_spinlock_t;
  pthread_spin_lock : nat → pthread_spinlock_t → option (Z * pthread_spinlock_t);
  pthread_spin_unlock : nat → pthread_spinlock_t → Z * pthread_spinlock_t;
}.

(* ------------------------------------------------------------------ *)
(** ** The locks *)

(** What a guard needs of a lock: a call that takes it and one that
    releases it. *)
Record side (T : Type) := mkSide { take_lock : nat → T → option T; release_lock : nat → T → T }.
Arguments mkSide {T} _ _.
Arguments take_lock {T} _ _ _.
Arguments release_lock {T} _ _ _.

Section locks.
Context {P : Pthread}.

Definition drop_code {T} (r : option (Z * T)) : option T := snd <$> r.

(* sylar/mutex.h:226-228, Mutex::lock *)
Definition mutex_lock (t : nat) (m_mutex : pthread_mutex_t) : option pthread_mutex_t := drop_code (pthread_mutex_lock t m_mutex).
(* sylar/mutex.h:233-235, Mutex::unlock *)
Definition mutex_unlock (t : nat) (m_mutex : pthread_mutex_t) : pthread_mutex_t := (pthread_mutex_unlock t m_mutex).2.

(* sylar/mutex.h:299-301, RWMutex::rdlock *)
Definition rdlock (t : nat) (m_lock : pthread_rwlock_t) : option pthread_rwlock_t := drop_code (pthread_rwlock_rdlock t m_lock).
(* sylar/mutex.h:306-308, RWMutex::wrlock *)
Definition wrlock (t : nat) (m_lock : pthread_rwlock_t) : option pthread_rwlock_t := drop_code (pthread_rwlock_wrlock t m_lock).
(* sylar/mutex.h:313-315, RWMutex::unlock *)
Definition rw_unlock (t : nat) (m_lock : pthread_rwlock_t) : pthread_rwlock_t := (pthread_rwlock_unlock t m_lock).2.

(* sylar/mutex.h:380-382, Spinlock::lock *)
Definition spin_lock (t : nat) (m_mutex : pthread_spinlock_t) : option pthread_spinlock_t := drop_code (pthread_spin_lock t m_mutex).
(* sylar/mutex.h:387-389, Spinlock::unlock *)
Definition spin_unlock (t : nat) (m_mutex : pthread_spinlock_t) : pthread_spinlock_t := (pthread_spin_unlock t m_mutex).2.
End locks.

(** [std::atomic_flag]: setting it tells what it was. *)
Definition test_and_set (flag : bool) : bool * bool := (flag, true).

(** One turn of the loop: the flag was set and it goes on, or it has the
    lock. *)
(* sylar/mutex.h:419-421, CASLock::lock *)
Definition cas_turn (m_mutex : bool) : bool * bool := let '(old, m_mutex) := test_and_set m_mutex in (negb old, m_mutex).
(** A turn that does not end the loop leaves the flag as it was: the loop
    waits. *)
(* sylar/mutex.h:419-421, CASLock::lock *)
Definition cas_lock (t : nat) (m_mutex : bool) : option bool := let '(done, m_mutex) := cas_turn m_mutex in if done then Some m_mutex else None.
(* sylar/mutex.h:426-428, CASLock::unlock *)
Definition cas_unlock (t : nat) (m_mutex : bool) : bool := false.

(* sylar/mutex.h:262-262, NullMutex::lock *)
Definition null_lock (t : nat) (u : unit) : option unit := Some u.
(* sylar/mutex.h:267-267, NullMutex::unlock *)
Definition null_unlock (t : nat) (u : unit) : unit := u.

(* ------------------------------------------------------------------ *)
(** ** Semaphores *)

(** [sem_wait] is told whether a signal is handled meanwhile; it waits, or
    returns a code. *)
Class SemLib := {
  sem_t : Type;
  sem_init : Z → option sem_t;
  sem_wait : bool → sem_t → option (Z * sem_t);
  sem_post : sem_t → Z * sem_t;
}.

Section semaphore.
Context {S : SemLib}.

(* sylar/mutex.cc:12-16, Semaphore::Semaphore *)
Definition new_Semaphore (count : Z) : outcome sem_t := match sem_init (u32 count) with Some s => Ret s | None => Throw logic_error end.
(* sylar/mutex.cc:22-26, Semaphore::wait *)
Definition wait (signal : bool) (m_semaphore : sem_t) : option (outcome unit * sem_t) :=
  r ← sem_wait signal m_semaphore; Some (if r.1 =? 0 then Ret tt else Throw logic_error, r.2).
(* sylar/mutex.cc:28-32, Semaphore::notify *)
Definition notify (m_semaphore : sem_t) : outcome unit * sem_t :=
  let r := sem_post m_semaphore in (if r.1 =? 0 then Ret tt else Throw logic_error, r.2).
End semaphore.

(** The value of a semaphore; a post that would go beyond the largest one
    fails, and so does a wait that handles a signal while it waits. *)
Class SemLaws (S : SemLib) := {
  sem_value : sem_t → Z;
  law_sem_init : ∀ v s, sem_init v = Some s → sem_value s = v;
  law_sem_wait : ∀ b s c s', sem_wait b s = Some (c, s') →
    c = 0 ∧ 0 < sem_value s ∧ sem_value s' = sem_value s - 1 ∨ c ≠ 0 ∧ b = true ∧ s' = s;
  law_sem_ready : ∀ s, 0 < sem_value s → ∃ s', sem_wait false s = Some (0, s');
  law_sem_post : ∀ s, sem_value s < 2 ^ 31 - 1 → ∃ s', sem_post s = (0, s') ∧ sem_value s' = sem_value s + 1;
}.

(* ------------------------------------------------------------------ *)
(** ** Guards *)

(** The three templates are the same but for the call that takes the lock:
    [lock], [rdlock] or [wrlock].  A guard is its flag [m_locked]; the
    lock it refers to is the second argument. *)
Section guard.
Context {T : Type} (m_mutex : side T) (t : nat).

(* sylar/mutex.h:64-68, ScopedLockImpl::ScopedLockImpl *)
Definition new_guard (m : T) : option (bool * T) := m ← take_lock m_mutex t m; Some (true, m).

(* sylar/mutex.h:80-85, ScopedLockImpl::lock *)
Definition guard_lock (m_locked : bool) (m : T) : option (bool * T) :=
  if negb m_locked then m ← take_lock m_mutex t m; Some (true, m) else Some (m_locked, m).

(* sylar/mutex.h:90-95, ScopedLockImpl::unlock *)
Definition guard_unlock (m_locked : bool) (m : T) : bool * T :=
  if m_locked then (false, release_lock m_mutex t m) else (m_locked, m).

(* sylar/mutex.h:73-75, ScopedLockImpl::~ScopedLockImpl *)
Definition delete_guard (m_locked : bool) (m : T) : T := (guard_unlock m_locked m).2.
End guard.

Section sides.
Context {P : Pthread}.

(* sylar/mutex.h:207-207, Mutex::Lock *)
Definition mutex_side : side pthread_mutex_t := mkSide mutex_lock mutex_unlock.
(* sylar/mutex.h:106-149, ReadScopedLockImpl *)
Definition ReadScopedLockImpl : side pthread_rwlock_t := mkSide rdlock rw_unlock.
(* sylar/mutex.h:155-198, WriteScopedLockImpl *)
Definition WriteScopedLockImpl : side pthread_rwlock_t := mkSide wrlock rw_unlock.
(* sylar/mutex.h:277-280, RWMutex::ReadLock *)
Definition rw_side (k : mode) : side pthread_rwlock_t := match k with Shared => ReadScopedLockImpl | Exclusive => WriteScopedLockImpl end.
(* sylar/mutex.h:361-361, Spinlock::Lock *)
Definition spin_side : side pthread_spinlock_t := mkSide spin_lock spin_unlock.
End sides.
(* sylar/mutex.h:401-401, CASLock::Lock *)
Definition cas_side : side bool := mkSide cas_lock cas_unlock.
(* sylar/mutex.h:247-247, NullMutex::Lock *)
Definition null_side : side unit := mkSide null_lock null_unlock.

(* ------------------------------------------------------------------ *)
(** ** What a lock promises *)

(** A lock that is taken in the modes [k i] is represented by who holds
    it: it is taken only beside holders that allow it, by one that does not
    hold it yet; it can be taken when nobody holds it.  A lock for readers
    has a limit to their number. *)
Class LockLaws {T I : Type} (s : I → side T) (k : I → mode) (init : T) (limit : nat) := {
  rep : T → holding → Prop;
  rep_init : rep init ∅;
  rep_take : ∀ i t m m' h, rep m h → h !! t = None → (size h < limit)%nat → take_lock (s i) t m = Some m' →
    compatible (k i) h ∧ rep m' (<[t := k i]> h);
  rep_free : ∀ i t m, rep m ∅ → is_Some (take_lock (s i) t m);
  rep_release : ∀ i t m h, rep m h → h !! t = Some (k i) → rep (release_lock (s i) t m) (delete t h);
}.

(** What the manual says of pthread. *)
Class PthreadLaws {P : Pthread} (limit : nat) := {
  mutex_rep : pthread_mutex_t → holding → Prop;
  mutex_rep_init : mutex_rep pthread_mutex_init ∅;
  mutex_rep_lock : ∀ t m c m' h, mutex_rep m h → h !! t = None → pthread_mutex_lock t m = Some (c, m') →
    h = ∅ ∧ mutex_rep m' {[t := Exclusive]};
  mutex_rep_free : ∀ t m, mutex_rep m ∅ → is_Some (pthread_mutex_lock t m);
  mutex_rep_unlock : ∀ t m h, mutex_rep m h → h !! t = Some Exclusive → mutex_rep (pthread_mutex_unlock t m).2 (delete t h);
  rwlock_rep : pthread_rwlock_t → holding → Prop;
  rwlock_rep_init : rwlock_rep pthread_rwlock_init ∅;
  rwlock_rep_rdlock : ∀ t m c m' h, rwlock_rep m h → h !! t = None → (size h < limit)%nat → pthread_rwlock_rdlock t m = Some (c, m') →
    compatible Shared h ∧ rwlock_rep m' (<[t := Shared]> h);
  rwlock_rep_wrlock : ∀ t m c m' h, rwlock_rep m h → h !! t = None → pthread_rwlock_wrlock t m = Some (c, m') →
    h = ∅ ∧ rwlock_rep m' {[t := Exclusive]};
  rwlock_rep_free : ∀ t m, rwlock_rep m ∅ → is_Some (pthread_rwlock_rdlock t m) ∧ is_Some (pthread_rwlock_wrlock t m);
  rwlock_rep_unlock : ∀ t m h k, rwlock_rep m h → h !! t = Some k → rwlock_rep (pthread_rwlock_unlock t m).2 (delete t h);
  spin_rep : pthread_spinlock_t → holding → Prop;
  spin_rep_init : spin_rep pthread_spin_init ∅;
  spin_rep_lock : ∀ t m c m' h, spin_rep m h → h !! t = None → pthread_spin_lock t m = Some (c, m') → h = ∅ ∧ spin_rep m' {[t := Exclusive]};
  spin_rep_free : ∀ t m, spin_rep m ∅ → is_Some (pthread_spin_lock t m);
  spin_rep_unlock : ∀ t m h, spin_rep m h → h !! t = Some Exclusive → spin_rep (pthread_spin_unlock t m).2 (delete t h);
}.

Lemma drop_code_Some {T} (r : option (Z * T)) m : drop_code r = Some m → ∃ c, r = Some (c, m).
Proof. destruct r as [[c m']|]; [intros [= <-]; eauto|done]. Qed.
Lemma drop_code_is_Some {T} (r : option (Z * T)) : is_Some r → is_Some (drop_code r).
Proof. intros [[c m] ->]. eauto. Qed.

#[export] Instance mutex_laws {P : Pthread} limit {L : PthreadLaws limit} :
  LockLaws (λ _ : unit, mutex_side) (λ _, Exclusive) pthread_mutex_init limit.
Proof.
  refine {| rep := mutex_rep |}.
  - apply mutex_rep_init.
  - intros _ t m m' h Hm Ht _ [c E]%drop_code_Some. by destruct (mutex_rep_lock t m c m' h Hm Ht E) as [-> ?].
  - intros _ t m Hm. by apply drop_code_is_Some, mutex_rep_free.
  - intros _. apply mutex_rep_unlock.
Defined.

#[export] Instance rw_laws {P : Pthread} limit {L : PthreadLaws limit} : LockLaws rw_side id pthread_rwlock_init limit.
Proof.
  refine {| rep := rwlock_rep |}.
  - apply rwlock_rep_init.
  - intros [] t m m' h Hm Ht Hl [c E]%drop_code_Some; [by eapply rwlock_rep_rdlock|].
    by destruct (rwlock_rep_wrlock t m c m' h Hm Ht E) as [-> ?].
  - intros [] t m Hm; by apply drop_code_is_Some, rwlock_rep_free.
  - intros [] t m h Hm Hk; by eapply rwlock_rep_unlock.
Defined.

#[export] Instance spin_laws {P : Pthread} limit {L : PthreadLaws limit} :
  LockLaws (λ _ : unit, spin_side) (λ _, Exclusive) pthread_spin_init limit.
Proof.
  refine {| rep := spin_rep |}.
  - apply spin_rep_init.
  - intros _ t m m' h Hm Ht _ [c E]%drop_code_Some. by destruct (spin_rep_lock t m c m' h Hm Ht E) as [-> ?].
  - intros _ t m Hm. by apply drop_code_is_Some, spin_rep_free.
  - intros _. apply spin_rep_unlock.
Defined.

(** The flag does not say who holds it: set when somebody does. *)
#[export] Instance cas_laws limit : LockLaws (λ _ : unit, cas_side) (λ _, Exclusive) false limit.
Proof.
  refine {| rep := λ b h, (b = false ∧ h = ∅) ∨ (b = true ∧ ∃ t, h = {[t := Exclusive]}) |}.
  - by left.
  - intros _ t m m' h [[-> ->]|[-> [u ->]]] Ht _; [|done]. intros [= <-]. split; [done|]. right. split; [done|]. by exists t.
  - intros _ t m [[-> _]|[_ [u Hu]]]; [by eexists|]. apply symmetry in Hu; by apply map_non_empty_singleton in Hu.
  - intros _ t m h [[-> ->]|[-> [u ->]]] Ht; [done|]. left. split; [done|].
    apply lookup_singleton_Some in Ht as [-> _]. apply delete_singleton_eq.
Defined.
