(* ===== verification/LockTheorems.v ===== *)
(** * What locked regions promise

    Threads that touch shared data only under a guard: nobody sees another
    in the middle of a region.  Every interleaving is one of whole regions,
    run one after the other without any lock; there is no deadlock; every
    schedule ends. *)
From S2P Require Import Prelude Mutex.
From stdpp Require Import gmap.

Section regions.
Context {I L D : Type} (k : I → mode).

(** What a thread does with a guard, its own variables [L] and the shared
    data [D]. *)
Inductive action :=
  | New (i : I)
  | Lock
  | Unlock
  | Delete
  | Access (f : L → D → L * D)
  | Local (f : L → L).

Record thread := mkThread { script : list action; guard : option (I * bool); local : L }.

(** One action over a lock [T]; [None] when the thread waits, and for an
    action on a guard that is not there. *)
Definition act {T} (s : I → side T) (t : nat) (th : thread) (d : D) (m : T) : option (thread * D * T) :=
  match script th with
  | [] => None
  | a :: rest =>
      match a, guard th with
      | New i, None => r ← new_guard (s i) t m; Some (mkThread rest (Some (i, r.1)) (local th), d, r.2)
      | Lock, Some (i, b) => r ← guard_lock (s i) t b m; Some (mkThread rest (Some (i, r.1)) (local th), d, r.2)
      | Unlock, Some (i, b) => let r := guard_unlock (s i) t b m in Some (mkThread rest (Some (i, r.1)) (local th), d, r.2)
      | Delete, Some (i, b) => Some (mkThread rest None (local th), d, delete_guard (s i) t b m)
      | Access f, g => let r := f (local th) d in Some (mkThread rest g r.1, r.2, m)
      | Local f, g => Some (mkThread rest g (f (local th)), d, m)
      | _, _ => None
      end
  end.

(** Many threads over one lock. *)
Record sys (T : Type) := mkSys { threads : gmap nat thread; data : D; lock : T }.
Arguments mkSys {T} _ _ _.
Arguments threads {T} _.
Arguments data {T} _.
Arguments lock {T} _.

Definition run {T} (s : I → side T) (t : nat) (x : sys T) : option (sys T) :=
  th ← threads x !! t; r ← act s t th (data x) (lock x); Some (mkSys (<[t := r.1.1]> (threads x)) r.1.2 r.2).
Definition step {T} (s : I → side T) (x y : sys T) : Prop := ∃ t, run s t x = Some y.

Definition locked (th : thread) : option I := match guard th with Some (i, true) => Some i | _ => None end.
Definition quiet (ths : gmap nat thread) : Prop := map_Forall (λ _ th, locked th = None) ths.

(** The same without a lock: one thread goes on alone, as far as it likes,
    from outside a region to outside a region. *)
Definition alone (x y : thread * D) : Prop := act (λ _, null_side) 0 x.1 x.2 tt = Some (y, tt).
Definition region (x y : gmap nat thread * D) : Prop :=
  ∃ t th th', quiet x.1 ∧ x.1 !! t = Some th ∧ rtc alone (th, x.2) (th', y.2) ∧ locked th' = None ∧ y.1 = <[t := th']> x.1.

(** The data are touched under the guard, for readers without a change; the
    guard is deleted in the end. *)
Fixpoint disciplined (g : option (I * bool)) (l : list action) : Prop :=
  match l with
  | [] => g = None
  | New i :: l => g = None ∧ disciplined (Some (i, true)) l
  | Lock :: l => match g with Some (i, _) => disciplined (Some (i, true)) l | None => False end
  | Unlock :: l => match g with Some (i, _) => disciplined (Some (i, false)) l | None => False end
  | Delete :: l => g ≠ None ∧ disciplined None l
  | Access f :: l =>
      match g with
      | Some (i, true) => (k i = Shared → ∀ v d, (f v d).2 = d) ∧ disciplined g l
      | _ => False
      end
  | Local _ :: l => disciplined g l
  end.
Definition start (ths : gmap nat thread) : Prop := map_Forall (λ _ th, guard th = None ∧ disciplined None (script th)) ths.
Definition finished (ths : gmap nat thread) : Prop := map_Forall (λ _ th, script th = [] ∧ guard th = None) ths.

(* ------------------------------------------------------------------ *)
(** ** One action *)

(** What an action does to the lock, from the guard before and after it. *)
Definition effect {T} (s : I → side T) (t : nat) (o o' : option I) (m m' : T) : Prop :=
  (o' = o ∧ m' = m) ∨ (∃ i, o = None ∧ o' = Some i ∧ take_lock (s i) t m = Some m') ∨
  (∃ i, o = Some i ∧ o' = None ∧ m' = release_lock (s i) t m).

Lemma act_effect {T} (s : I → side T) t th d m th' d' m' : act s t th d m = Some (th', d', m') →
  disciplined (guard th) (script th) →
  effect s t (locked th) (locked th') m m' ∧ disciplined (guard th') (script th') ∧ alone (th, d) (th', d') ∧
  length (script th) = S (length (script th')) ∧
  (match locked th with Some i => k i = Shared → d' = d | None => d' = d ∧ ∀ e, alone (th, e) (th', e) end).
Proof.
  destruct th as [[|a l] g v]; [done|]. unfold act, alone, locked, effect; cbn.
  destruct a as [i| | | |f|f], g as [[j b]|]; try done; cbn.
  - intros E [_ Hd]. unfold new_guard in *. destruct (take_lock (s i) t m) as [m1|] eqn:Et; [|done].
    injection E as <- <- <-. cbn. split_and!; try done. right. left. by exists i.
  - unfold guard_lock. destruct b; cbn.
    + intros [= <- <- <-] Hd. split_and!; try done. by left.
    + destruct (take_lock (s j) t m) as [m1|] eqn:Et; [|done]. intros [= <- <- <-] Hd. cbn. split_and!; try done. right. left. by exists j.
  - intros [= <- <- <-] Hd. unfold guard_unlock, null_side. destruct b; cbn; split_and!; try done; [right; right; by exists j|by left].
  - intros [= <- <- <-] [_ Hd]. unfold delete_guard, guard_unlock. destruct b; cbn; split_and!; try done; [right; right; by exists j|by left].
  - destruct b; [|done]. destruct (f v d) as [v' d1] eqn:Ef. intros [= <- <- <-] [Hs Hd]. cbn. rewrite ?Ef.
    split_and!; try done; [by left|]. intros Hk. by rewrite <- (Hs Hk v d), Ef.
  - intros [= <- <- <-] Hd. split_and!; try done; [by left|]. by destruct b.
  - intros [= <- <- <-] Hd. split_and!; try done. by left.
Qed.

Definition held (ths : gmap nat thread) : holding := omap (λ th, k <$> locked th) ths.

Lemma held_lookup ths t th : ths !! t = Some th → held ths !! t = k <$> locked th.
Proof. intros E. unfold held. by rewrite lookup_omap, E. Qed.
Lemma held_insert ths t th : held (<[t := th]> ths) = match locked th with Some i => <[t := k i]> (held ths) | None => delete t (held ths) end.
Proof. unfold held. rewrite omap_insert. by destruct (locked th). Qed.
Lemma held_Some ths t md : held ths !! t = Some md → ∃ th i, ths !! t = Some th ∧ locked th = Some i ∧ md = k i.
Proof.
  unfold held. rewrite lookup_omap. destruct (ths !! t) as [th|]; [|done]. cbn.
  destruct (locked th) as [i|] eqn:E; [|done]. intros [= <-]. by exists th, i.
Qed.
Lemma held_subset ths : dom (held ths) ⊆ dom ths.
Proof. intros t [md E]%elem_of_dom. destruct (held_Some ths t md E) as (th & _ & E' & _). by apply elem_of_dom_2 in E'. Qed.
Lemma held_room ths t th : ths !! t = Some th → locked th = None → size (held ths) < size ths.
Proof.
  intros E Ho. rewrite <- !size_dom. apply subset_size. split; [apply held_subset|]. intros H.
  pose proof (H t (elem_of_dom_2 _ _ _ E)) as E'. apply elem_of_dom in E'. rewrite (held_lookup ths t th E), Ho in E'. by destruct E'.
Qed.
Lemma quiet_held ths : quiet ths ↔ held ths = ∅.
Proof.
  split.
  - intros Hq. apply map_empty. intros t. destruct (held ths !! t) eqn:E; [|done].
    destruct (held_Some ths t _ E) as (th & i & Et & Hl & _). by rewrite (Hq t th Et) in Hl.
  - intros H t th E. apply (held_lookup ths) in E. rewrite H in E. by destruct (locked th).
Qed.

(** A writer is alone. *)
Definition exclusive (h : holding) : Prop := ∀ t u md, h !! t = Some Exclusive → h !! u = Some md → u = t.

Section laws.
Context {T : Type} {s : I → side T} {init : T} {limit : nat} {LL : LockLaws s k init limit}.

Record inv (x : sys T) : Prop := {
  i_rep : rep (lock x) (held (threads x));
  i_exclusive : exclusive (held (threads x));
  i_disciplined : map_Forall (λ _ th, disciplined (guard th) (script th)) (threads x);
  i_limit : size (threads x) ≤ limit
}.

Lemma start_sys_inv ths d : start ths → size ths ≤ limit → inv (mkSys ths d init).
Proof.
  intros Hs Hl. assert (held ths = ∅) as Hh.
  { apply quiet_held. intros t th E. destruct (Hs t th E) as [Hg _]. unfold locked. by rewrite Hg. }
  split; cbn [threads lock data]; [rewrite Hh; apply rep_init|by rewrite Hh| |done].
  intros t th E. by destruct (Hs t th E) as [-> ?].
Qed.

Lemma run_act t (x y : sys T) : run s t x = Some y → ∃ th th' d' m', threads x !! t = Some th ∧
  act s t th (data x) (lock x) = Some (th', d', m') ∧ y = mkSys (<[t := th']> (threads x)) d' m'.
Proof.
  unfold run. destruct (threads x !! t) as [th|]; [|done]. cbn.
  destruct (act s t th (data x) (lock x)) as [[[th' d'] m']|] eqn:E; [|done]. intros [= <-]. by exists th, th', d', m'.
Qed.

Lemma exclusive_insert t md h : compatible md h → exclusive h → exclusive (<[t := md]> h).
Proof.
  intros Hc Hx a b mb. rewrite !lookup_insert_Some. destruct md; cbn in Hc.
  - intros [[? ?]|[_ Ha]]; [done|by apply Hc in Ha].
  - rewrite Hc, !lookup_empty. by intros [[<- _]|[_ ?]] [[<- _]|[_ ?]].
Qed.

Lemma sys_inv_step x y : inv x → step s x y → inv y.
Proof.
  intros [Hr Hx Hd Hl] [t Ht]. destruct (run_act t x y Ht) as (th & th' & d' & m' & Et & Ea & ->).
  destruct (act_effect s t th _ _ _ _ _ Ea (Hd t th Et)) as (He & Hd' & _ & _ & _).
  pose proof (held_lookup _ t th Et) as Eh. split; cbn [threads lock data].
  - rewrite held_insert. destruct He as [[E1 ->]|[(i & E1 & -> & E3)|(i & E1 & -> & ->)]].
    + rewrite E1. destruct (locked th) as [i|]; [by rewrite insert_id|by rewrite delete_id].
    + rewrite E1 in Eh. eapply rep_take; try done. pose proof (held_room _ t th Et E1). lia.
    + rewrite E1 in Eh. by apply rep_release.
  - rewrite held_insert. destruct He as [[E1 _]|[(i & E1 & -> & E3)|(i & E1 & -> & _)]].
    + rewrite E1. destruct (locked th) as [i|]; [by rewrite insert_id|by rewrite delete_id].
    + rewrite E1 in Eh. apply exclusive_insert; [|done]. pose proof (held_room _ t th Et E1).
      eapply rep_take; try done. lia.
    + intros a b mb. rewrite !lookup_delete_Some. intros [_ ?] [_ ?]. by eapply Hx.
  - by apply map_Forall_insert_2.
  - rewrite map_size_insert_Some; done.
Qed.

(** The regions run so far, each as a whole; a thread inside of one has
    not begun it there. *)
Record sim (x : sys T) (a : gmap nat thread * D) : Prop := {
  s_none : ∀ t, threads x !! t = None → a.1 !! t = None;
  s_thread : ∀ t th, threads x !! t = Some th → ∃ ath, a.1 !! t = Some ath ∧ locked ath = None ∧
    match locked th with None => ath = th | Some _ => rtc alone (ath, a.2) (th, data x) end;
  s_data : (∀ t, held (threads x) !! t ≠ Some Exclusive) → a.2 = data x
}.

Lemma sim_quiet x a : sim x a → quiet a.1.
Proof.
  intros [Hn Ht _] t ath E. destruct (threads x !! t) as [th|] eqn:Ex; [|by rewrite (Hn t Ex) in E].
  destruct (Ht t th Ex) as (ath' & E' & Hl & _). congruence.
Qed.

(** The region of [t] as it is now, with [th'] outside and the data [e]. *)
Lemma sim_region x a t th th' d' e m' : sim x a → threads x !! t = Some th → locked th' = None →
  (∀ ath, a.1 !! t = Some ath → rtc alone (ath, a.2) (th', e)) →
  (∀ u uh, u ≠ t → threads x !! u = Some uh → locked uh = None ∨ a.2 = e ∧ data x = d') →
  ((∀ u, held (<[t := th']> (threads x)) !! u ≠ Some Exclusive) → e = d') →
  ∃ b, rtc region a b ∧ sim (mkSys (<[t := th']> (threads x)) d' m') b.
Proof.
  intros Hs Et Hl Hrun Hu Hd. destruct (s_thread x a Hs t th Et) as (ath & Ea & Hla & _).
  exists (<[t := th']> a.1, e). split.
  { apply rtc_once. exists t, ath, th'. split_and!; [by eapply sim_quiet|done|by apply Hrun|done..]. }
  split; cbn.
  - intros u. rewrite !lookup_insert_None. intros [? ?]. split; [|done]. by apply (s_none x a Hs).
  - intros u uh. rewrite lookup_insert_Some. intros [[<- <-]|[Hne E]].
    + exists th'. rewrite lookup_insert_eq, Hl. done.
    + destruct (s_thread x a Hs u uh E) as (uah & Eu & Hlu & Hm). exists uah. rewrite lookup_insert_ne by done.
      split_and!; [done..|]. destruct (Hu u uh (not_eq_sym Hne) E) as [H|[H1 H2]]; [by rewrite H in *|].
      destruct (locked uh); [by rewrite H1, H2 in *|done].
  - done.
Qed.

(** Nothing to add: [t] goes on inside its region, or begins it. *)
Lemma sim_stay x a t th th' d' m' : sim x a → threads x !! t = Some th →
  (∀ ath, a.1 !! t = Some ath → rtc alone (ath, a.2) (th', d')) → is_Some (locked th') →
  (∀ u uh, u ≠ t → threads x !! u = Some uh → locked uh = None ∨ data x = d') →
  ((∀ u, held (<[t := th']> (threads x)) !! u ≠ Some Exclusive) → a.2 = d') →
  sim (mkSys (<[t := th']> (threads x)) d' m') a.
Proof.
  intros Hs Et Hrun [i Hi] Hu Hd. destruct (s_thread x a Hs t th Et) as (ath & Ea & Hla & _). split; cbn.
  - intros u. rewrite lookup_insert_None. intros [? _]. by apply (s_none x a Hs).
  - intros u uh. rewrite lookup_insert_Some. intros [[<- <-]|[Hne E]].
    + exists ath. rewrite Hi. split_and!; [done..|]. by apply Hrun.
    + destruct (s_thread x a Hs u uh E) as (uah & Eu & Hlu & Hm). exists uah. split_and!; [done..|].
      destruct (Hu u uh (not_eq_sym Hne) E) as [H|H]; [by rewrite H in *|]. destruct (locked uh); [by rewrite H in *|done].
  - done.
Qed.

(** The others beside [t] in a region: readers, as [t] is. *)
Lemma inv_others x t th i u uh j : inv x → threads x !! t = Some th → locked th = Some i →
  u ≠ t → threads x !! u = Some uh → locked uh = Some j → k i = Shared ∧ ∀ v, held (threads x) !! v ≠ Some Exclusive.
Proof.
  intros Hi Et Hl Hne Eu Hu. pose proof (held_lookup _ t th Et) as Ht. pose proof (held_lookup _ u uh Eu) as Hhu.
  rewrite Hl in Ht. rewrite Hu in Hhu. cbn in *. pose proof (i_exclusive x Hi) as Hx.
  destruct (k i) eqn:Ek; [|by destruct (Hne (Hx t u _ Ht Hhu))]. split; [done|].
  intros v Hv. pose proof (Hx v t _ Hv Ht) as ->. pose proof (Hx v u _ Hv Hhu). congruence.
Qed.

Lemma sim_step x y a : inv x → sim x a → step s x y → ∃ b, rtc region a b ∧ sim y b.
Proof.
  intros Hi Hs [t Ht]. destruct (run_act t x y Ht) as (th & th' & d' & m' & Et & Ea & ->).
  destruct (act_effect s t th _ _ _ _ _ Ea (i_disciplined x Hi t th Et)) as (He & _ & Hal & _ & Hd).
  destruct (s_thread x a Hs t th Et) as (ath & Eath & _ & Hm).
  destruct (locked th) as [e|] eqn:El.
  - assert (∀ ath', a.1 !! t = Some ath' → rtc alone (ath', a.2) (th', d')) as Hrun.
    { intros ath' E. assert (ath' = ath) as -> by congruence. by eapply rtc_r. }
    assert (∀ u uh, u ≠ t → threads x !! u = Some uh → locked uh = None ∨ a.2 = d' ∧ data x = d') as Hu.
    { intros u uh Hne Eu. destruct (locked uh) as [j|] eqn:Ej; [right|by left].
      destruct (inv_others x t th e u uh j Hi Et El Hne Eu Ej) as [Ek Hno]. rewrite (s_data x a Hs Hno). by rewrite (Hd Ek). }
    destruct (locked th') as [e'|] eqn:El'; [|by eapply sim_region; try done; right].
    exists a. split; [done|]. eapply sim_stay; try done.
    + intros u uh Hne Eu. destruct (Hu u uh Hne Eu) as [?|[_ ?]]; auto.
    + destruct He as [[[= ->] _]|[(? & ? & _)|(? & _ & ? & _)]]; [|done..]. rewrite held_insert, El'.
      rewrite insert_id by (by rewrite (held_lookup _ t th Et), El). intros Hno. rewrite (s_data x a Hs Hno).
      destruct (k e) eqn:Ek; [by rewrite (Hd eq_refl)|]. destruct (Hno t). by rewrite (held_lookup _ t th Et), El, <- Ek.
  - destruct Hd as [-> Hal']. subst ath. destruct (locked th') as [e'|] eqn:El'.
    + destruct He as [[? _]|[(i & _ & [= <-] & Etk)|(? & ? & _)]]; [done| |done]. pose proof (held_room _ t th Et El) as Hroom.
      pose proof (i_limit x Hi). destruct (rep_take e' t (lock x) m' _ (i_rep x Hi)) as [Hc _]; [by rewrite (held_lookup _ t th Et), El|lia|done|].
      assert (a.2 = data x) as Ed.
      { apply (s_data x a Hs). intros v. destruct (k e'); [apply Hc|by rewrite Hc]. }
      exists a. split; [done|]. eapply sim_stay; try done; [|by right].
      intros ath' E. assert (ath' = th) as -> by congruence. rewrite Ed. by apply rtc_once.
    + eapply (sim_region x a t th th' _ a.2); try done.
      * intros ath' E. assert (ath' = th) as -> by congruence. by apply rtc_once.
      * intros u uh Hne Eu. right. split; [done|]. done.
      * rewrite held_insert, El', delete_id by (by rewrite (held_lookup _ t th Et), El). apply (s_data x a Hs).
Qed.

Lemma reached ths d x : start ths → size ths ≤ limit → rtc (step s) (mkSys ths d init) x →
  inv x ∧ ∃ a, rtc region (ths, d) a ∧ sim x a.
Proof.
  intros Hs Hl. revert x. apply rtc_ind_r.
  - split; [by apply start_sys_inv|]. exists (ths, d). split; [done|]. split; cbn; [done| |done].
    intros t th E. exists th. destruct (Hs t th E) as [Hg _]. unfold locked. by rewrite Hg.
  - intros y z _ Hyz (Hi & a & Ha & Hs'). split; [by eapply sys_inv_step|].
    destruct (sim_step y z a Hi Hs' Hyz) as (b & Hb & Hs2). exists b. split; [by etrans|done].
Qed.

(** ** Progress *)

(** A thread inside a region goes on; so does any when the lock is free. *)
Lemma act_ready t th d m : disciplined (guard th) (script th) → script th ≠ [] → is_Some (locked th) ∨ rep m ∅ →
  is_Some (act s t th d m).
Proof.
  destruct th as [[|a l] g v]; [done|]. unfold act, locked; cbn. intros Hd _ Hm.
  destruct a as [i| | | |f|f], g as [[j b]|]; cbn in *; try done; try naive_solver.
  - unfold new_guard. destruct Hm as [[? ?]|Hm]; [done|]. by destruct (rep_free i t m Hm) as [? ->].
  - unfold guard_lock. destruct b; cbn; [done|]. destruct Hm as [[? ?]|Hm]; [done|]. by destruct (rep_free j t m Hm) as [? ->].
Qed.

Lemma ready_step (x : sys T) t th : threads x !! t = Some th → is_Some (act s t th (data x) (lock x)) → ∃ y, step s x y.
Proof. intros E [r Hr]. eexists. exists t. unfold run. rewrite E. cbn. by rewrite Hr. Qed.

Lemma inv_progress x : inv x → finished (threads x) ∨ ∃ y, step s x y.
Proof.
  intros [Hr _ Hd _]. destruct (decide (map_Forall (λ _ th, script th = []) (threads x))) as [Hall|Hex].
  - left. intros t th E. split; [by eapply Hall|]. pose proof (Hd t th E) as H. cbn in H. pose proof (Hall t th E) as H0. cbn in H0. by rewrite H0 in H.
  - right. apply map_not_Forall in Hex as (t & th & E & Hne); [|apply _].
    destruct (decide (held (threads x) = ∅)) as [H0|Hh].
    + eapply ready_step; [exact E|]. apply act_ready; [by eapply Hd|done|right]. by rewrite <- H0.
    + apply map_choose in Hh as (u & md & Hu). destruct (held_Some _ _ _ Hu) as (uh & i & Eu & Hl & _).
      eapply ready_step; [exact Eu|]. pose proof (Hd u uh Eu) as Hdu. cbn in Hdu. apply act_ready; [done| |left; by rewrite Hl].
      intros E0. rewrite E0 in Hdu. unfold locked in Hl. by rewrite Hdu in Hl.
Qed.
End laws.

(** The actions left. *)
Definition remaining (ths : gmap nat thread) : nat := map_fold (λ _ th n, length (script th) + n) 0 ths.

Lemma remaining_insert ths t th th' : ths !! t = Some th →
  remaining (<[t := th']> ths) + length (script th) = remaining ths + length (script th').
Proof.
  intros E. unfold remaining. rewrite <- insert_delete_eq. rewrite map_fold_insert_L by (first [by rewrite lookup_delete_eq | intros; lia]).
  rewrite (map_fold_delete_L _ _ t th ths) by (first [done | intros; lia]). lia.
Qed.

Lemma step_remaining {T} (s : I → side T) x y : map_Forall (λ _ th, disciplined (guard th) (script th)) (threads x) →
  step s x y → remaining (threads x) = S (remaining (threads y)).
Proof.
  intros Hd [t Ht]. destruct (run_act t x y Ht) as (th & th' & d' & m' & Et & Ea & ->). cbn.
  destruct (act_effect s t th _ _ _ _ _ Ea (Hd t th Et)) as (_ & _ & _ & Hlen & _).
  pose proof (remaining_insert (threads x) t th th' Et). lia.
Qed.

(** C36: what a lock of any kind gives to threads that touch the shared data
    under a guard only.  Two of them are in a region together only as readers.
    Whatever the interleaving, there is a sequence of whole regions, each run
    by one thread alone and without any lock, that brings every thread outside
    of a region to where it is, with the same variables; the data are the
    same unless a writer is in the middle of a region; and when nobody is,
    the whole state is the same. *)
Theorem regions_atomic {T} {s : I → side T} {init : T} {limit : nat} {LL : LockLaws s k init limit} ths d x :
  start ths → size ths ≤ limit → rtc (step s) (mkSys ths d init) x →
  (∀ t u th uh i j, t ≠ u → threads x !! t = Some th → threads x !! u = Some uh →
    locked th = Some i → locked uh = Some j → k i = Shared ∧ k j = Shared) ∧
  ∃ a, rtc region (ths, d) a ∧
    (∀ t th, threads x !! t = Some th → locked th = None → a.1 !! t = Some th) ∧
    ((∀ t th i, threads x !! t = Some th → locked th = Some i → k i = Shared) → a.2 = data x) ∧
    (quiet (threads x) → a = (threads x, data x)).
Proof.
  intros Hs Hl Hx. destruct (reached ths d x Hs Hl Hx) as (Hi & a & Ha & Hsim). split.
  - intros t u th uh i j Hne Et Eu Hti Huj.
    split; [exact (proj1 (inv_others x t th i u uh j Hi Et Hti (not_eq_sym Hne) Eu Huj))|].
    exact (proj1 (inv_others x u uh j t th i Hi Eu Huj Hne Et Hti)).
  - exists a. assert (∀ t th, threads x !! t = Some th → locked th = None → a.1 !! t = Some th) as Hout.
    { intros t th Et Hlt. destruct (s_thread x a Hsim t th Et) as (ath & E & _ & Hm). rewrite Hlt in Hm. by subst. }
    assert ((∀ t th i, threads x !! t = Some th → locked th = Some i → k i = Shared) → a.2 = data x) as Hdata.
    { intros Hsh. apply (s_data x a Hsim). intros t Ht. destruct (held_Some _ _ _ Ht) as (th & i & Et & Hlt & Ek).
      by rewrite (Hsh t th i Et Hlt) in Ek. }
    split_and!; try done. intros Hq. destruct a as [aths ad]. cbn in *. f_equal.
    + apply map_eq. intros t. destruct (threads x !! t) as [th|] eqn:Et; [|by apply (s_none x _ Hsim)]. apply Hout; [done|by eapply Hq].
    + apply Hdata. intros t th i Et Hlt. by rewrite (Hq t th Et) in Hlt.
Qed.

(** C37: disciplined threads over a lock do not deadlock and come to their end.
    In every state they can reach, all have finished or one of them can take
    a step; and no schedule has more steps than there are actions. *)
Theorem regions_finish {T} {s : I → side T} {init : T} {limit : nat} {LL : LockLaws s k init limit} ths d x :
  start ths → size ths ≤ limit → rtc (step s) (mkSys ths d init) x →
  (finished (threads x) ∨ ∃ y, step s x y) ∧
  (∀ n y, nsteps (step s) n x y → n + remaining (threads y) = remaining (threads x)) ∧
  (∃ y, rtc (step s) x y ∧ finished (threads y)).
Proof.
  intros Hs Hl Hx. destruct (reached ths d x Hs Hl Hx) as (Hi & _). clear Hx. split_and!.
  - by apply inv_progress.
  - intros n y Hn. induction Hn as [|n x y z Hxy Hyz IH]; [done|].
    rewrite (step_remaining s x y (i_disciplined x Hi) Hxy). rewrite <- IH by (by eapply sys_inv_step). lia.
  - remember (remaining (threads x)) as n eqn:En. revert x Hi En. induction n as [n IH] using lt_wf_ind. intros x Hi ->.
    destruct (inv_progress x Hi) as [?|[y Hy]]; [by exists x|].
    destruct (IH (remaining (threads y))) with (x := y) as (z & Hz & ?); [|by eapply sys_inv_step|done|exists z; split; [by eapply rtc_l|done]].
    rewrite (step_remaining s x y (i_disciplined x Hi) Hy). lia.
Qed.
End regions.
Arguments mkSys {I L D T} _ _ _.
Arguments threads {I L D T} _.
Arguments data {I L D T} _.
Arguments lock {I L D T} _.
Arguments mkThread {I L D} _ _ _.

(* ------------------------------------------------------------------ *)
(** ** Concrete locks *)

(** The locks of the system as the tables of their holders. *)
Module Table.

Definition lock (k : mode) (t : nat) (h : holding) : option (Z * holding) :=
  match k with
  | Exclusive => if decide (h = ∅) then Some (0%Z, {[t := Exclusive]}) else None
  | Shared => if decide (map_Forall (λ _ md, md = Shared) h) then Some (0%Z, <[t := Shared]> h) else None
  end.
Definition unlock (t : nat) (h : holding) : Z * holding := (0%Z, delete t h).

Definition pthread : Pthread := {|
  pthread_mutex_t := holding; pthread_mutex_init := ∅; pthread_mutex_lock := lock Exclusive; pthread_mutex_unlock := unlock;
  pthread_rwlock_t := holding; pthread_rwlock_init := ∅; pthread_rwlock_rdlock := lock Shared;
  pthread_rwlock_wrlock := lock Exclusive; pthread_rwlock_unlock := unlock;
  pthread_spinlock_t := holding; pthread_spin_init := ∅; pthread_spin_lock := lock Exclusive; pthread_spin_unlock := unlock
|}.

Lemma lock_exclusive t c (m m' h : holding) : m = h → lock Exclusive t m = Some (c, m') → h = ∅ ∧ m' = {[t := Exclusive]}.
Proof. intros ->. unfold lock. case_decide; [|done]. by intros [= _ <-]. Qed.
Lemma lock_shared t c (m m' h : holding) : m = h → lock Shared t m = Some (c, m') → compatible Shared h ∧ m' = <[t := Shared]> h.
Proof.
  intros ->. unfold lock. case_decide as Hf; [|done]. intros [= _ <-]. split; [|done]. intros u Hu. by specialize (Hf u _ Hu).
Qed.

#[export] Instance laws limit : @PthreadLaws pthread limit.
Proof.
  refine {| mutex_rep := eq : @pthread_mutex_t pthread → _; rwlock_rep := eq : @pthread_rwlock_t pthread → _;
            spin_rep := eq : @pthread_spinlock_t pthread → _ |}; cbn; try done.
  - intros t m c m' h Hm _. by apply lock_exclusive.
  - intros t m ->. unfold lock. by rewrite decide_True.
  - by intros t m h ->.
  - intros t m c m' h Hm _ _. by apply lock_shared.
  - intros t m c m' h Hm _. by apply lock_exclusive.
  - intros t m ->. unfold lock. rewrite !decide_True; [done..|apply map_Forall_empty].
  - by intros t m h k ->.
  - intros t m c m' h Hm _. by apply lock_exclusive.
  - intros t m ->. unfold lock. by rewrite decide_True.
  - by intros t m h ->.
Defined.
End Table.

(** A schedule names the thread of each step. *)
Fixpoint schedule {I L D T} (s : I → side T) (ts : list nat) (x : sys (I := I) (L := L) (D := D) T) : option (sys T) :=
  match ts with [] => Some x | t :: ts => y ← run s t x; schedule s ts y end.

Lemma schedule_steps {I L D T} (s : I → side T) ts (x y : sys (I := I) (L := L) (D := D) T) :
  schedule s ts x = Some y → rtc (step s) x y.
Proof.
  revert x. induction ts as [|t ts IH]; intros x; [by intros [= <-]|]. cbn. destruct (run s t x) as [z|] eqn:E; [|done].
  intros H. eapply rtc_l; [by exists t|by apply IH].
Qed.

(** A counter that each thread reads and then writes. *)
Definition reader : list (action (I := mode) (L := nat) (D := nat)) := [New Shared; Access (λ _ d, (d, d)); Delete].
Definition counter {I : Type} (i : I) : list (action (I := I) (L := nat) (D := nat)) :=
  [New i; Access (λ _ d, (d, d)); Access (λ v d, (v, S v)); Delete].
Definition fresh_thread {I : Type} (l : list (action (I := I) (L := nat) (D := nat))) : thread := mkThread l None 0.

Definition sample_threads : gmap nat (thread (I := mode) (L := nat) (D := nat)) :=
  {[1 := fresh_thread (counter Exclusive); 2 := fresh_thread reader; 3 := fresh_thread reader]}.

Lemma sample_start : start id sample_threads.
Proof.
  unfold start, sample_threads. rewrite !map_Forall_insert by done. split_and!; try done. apply map_Forall_singleton. done.
Qed.

(** Two readers at once, then the writer up to the middle of its region. *)
Definition sample_sys : sys (@pthread_rwlock_t Table.pthread) := mkSys sample_threads 7 (@pthread_rwlock_init Table.pthread).
Definition sample_schedule : list nat := [2; 3; 3; 2; 3; 2; 1; 1; 1].
Definition sample_run := schedule (@rw_side Table.pthread) sample_schedule sample_sys.

Lemma sample_size : size sample_threads ≤ 5.
Proof. apply Nat.leb_le. by vm_compute. Qed.

Lemma sample_run_view :
  (x ← sample_run; th ← threads x !! 3; Some (data x, local th, locked th)) = Some (8, 7, None).
Proof. by vm_compute. Qed.

Lemma regions_atomic_witness :
  ∃ x th a, sample_run = Some x ∧ data x = 8 ∧ threads x !! 3 = Some th ∧ local th = 7 ∧
    rtc region (sample_threads, 7) a ∧ a.1 !! 3 = Some th.
Proof.
  pose proof sample_run_view as V. destruct sample_run as [x|] eqn:E; [|discriminate V]. cbn [mbind option_bind] in V.
  destruct (threads x !! 3) as [th|] eqn:Et; [|discriminate V]. injection V as Hd Hl Ho.
  destruct (regions_atomic id (LL := @rw_laws Table.pthread 5 (Table.laws 5)) sample_threads 7 x sample_start sample_size
    (schedule_steps (@rw_side Table.pthread) sample_schedule sample_sys x E)) as (_ & a & Ha & Hout & _).
  exists x, th, a. repeat (split; [reflexivity || assumption|]). by apply Hout.
Defined.

Definition two_counters : gmap nat (thread (I := unit) (L := nat) (D := nat)) :=
  {[1 := fresh_thread (counter tt); 2 := fresh_thread (counter tt)]}.

Lemma two_counters_start : start (λ _, Exclusive) two_counters.
Proof. unfold start, two_counters. rewrite !map_Forall_insert by done. split_and!; try done. apply map_Forall_singleton. done. Qed.

Lemma two_counters_size : size two_counters ≤ 5.
Proof. apply Nat.leb_le. by vm_compute. Qed.

(** The second thread spins at the flag the first one holds: only the first
    can go on, and both come to their end. *)
Definition spinning : option (sys (I := unit) (L := nat) (D := nat) bool) := schedule (λ _, cas_side) [1; 1] (mkSys two_counters 0 false).

Lemma spinning_view : (x ← spinning; Some (bool_decide (is_Some (run (λ _, cas_side) 2 x)))) = Some false.
Proof. by vm_compute. Qed.

Lemma regions_finish_witness :
  ∃ x, spinning = Some x ∧ ¬ is_Some (run (λ _, cas_side) 2 x) ∧ ∃ y, rtc (step (λ _, cas_side)) x y ∧ finished (threads y).
Proof.
  pose proof spinning_view as V. destruct spinning as [x|] eqn:E; [|discriminate V]. cbn [mbind option_bind] in V. injection V as V%bool_decide_eq_false.
  exists x. split; [done|]. split; [exact V|].
  apply (regions_finish (λ _, Exclusive) (LL := cas_laws 5) two_counters 0 x two_counters_start two_counters_size
    (schedule_steps (λ _, cas_side) [1; 1] (mkSys two_counters 0 false) x E)).
Defined.

(** With the lock that does nothing an increment is lost; with any real one
    the same threads end at 2. *)
Example null_mutex_loses :
  (data <$> schedule (λ _, null_side) [1; 1; 2; 2; 2; 2; 1; 1] (mkSys two_counters 0 tt)) = Some 1 ∧
  (data <$> schedule (λ _, cas_side) [1; 1; 1; 1; 2; 2; 2; 2] (mkSys two_counters 0 false)) = Some 2.
Proof. done. Qed.
