(* ===== verification/Thread.v ===== *)
(** * Threads ([thread.h], [thread.cc])

    [Thread] objects are on a heap, named by numbers; the threads of the
    system by their [pthread_t].  The constructor and the new thread meet at a
    semaphore: the constructor is two steps, before and after it waits, and
    [run] is cut at [notify] and at the call of the callback, which are the
    points others can notice.  Between these the new thread touches an object
    only the waiting constructor knows. *)
From S2P Require Import Prelude StdString Mutex.
From stdpp Require Import gmap.

Local Open Scope Z_scope.

Section thread.
Context {S : SemLib}.

(** The callback is a number, [None] when the function is empty. *)
(* sylar/thread.h:72-83, Thread *)
Record Thread := mkThread {
  m_id : Z;
  m_thread : Z;
  m_cb : option nat;
  m_name : bytes;
  m_semaphore : sem_t
}.

(** Where a thread of the system is in [run], with its variables; one that
    was not made here is in its own code from the start. *)
Inductive place :=
  | AtStart (arg : nat)
  | AtNotify (thread : nat) (cb : option nat)
  | AtCall (cb : option nat)
  | Running
  | Finished.
#[export] Instance place_eq_dec : EqDecision place.
Proof. solve_decision. Defined.

(** The name the system keeps has fifteen bytes at most. *)
(* sylar/thread.cc:13-14, t_thread *)
Record os_thread := mkOs { t_thread : option nat; t_thread_name : bytes; tid : Z; kernel_name : bytes; at_ : place }.

Definition UNKNOW : bytes := B "UNKNOW".
Definition new_os (tid : Z) (at_ : place) : os_thread := mkOs None UNKNOW tid [] at_.

(** [building]: the objects whose constructor has not returned.  [given]: the
    callback each thread was made for; [calls]: the callbacks called, by which
    thread. *)
Record world := mkWorld {
  objs : gmap nat Thread;
  next : nat;
  os : gmap Z os_thread;
  building : gset nat;
  given : gmap Z (option nat);
  calls : list (Z * nat)
}.

Definition set_objs o w := mkWorld o (next w) (os w) (building w) (given w) (calls w).
Definition set_os o w := mkWorld (objs w) (next w) o (building w) (given w) (calls w).
Definition set_building b w := mkWorld (objs w) (next w) (os w) b (given w) (calls w).

Definition obj_at (p : nat) : stE world Thread := query (λ w, match objs w !! p with Some x => Ret x | None => Crash dangling end).
Definition put_obj (p : nat) (x : Thread) : stE world unit := modify (λ w, set_objs (<[p := x]> (objs w)) w).
Definition os_at (q : Z) : stE world os_thread := query (λ w, match os w !! q with Some x => Ret x | None => Crash dangling end).
Definition put_os (q : Z) (x : os_thread) : stE world unit := modify (λ w, set_os (<[q := x]> (os w)) w).
Definition delete_obj (p : nat) : stE world unit := modify (λ w, set_objs (delete p (objs w)) (set_building (building w ∖ {[p]}) w)).

(* sylar/thread.cc:18-20, Thread::GetThis *)
Definition GetThis (q : Z) : stE world (option nat) := x ← os_at q; mret (t_thread x).
(* sylar/thread.cc:22-24, Thread::GetName *)
Definition GetName (q : Z) : stE world bytes := x ← os_at q; mret (t_thread_name x).

(* sylar/thread.cc:26-34, Thread::SetName *)
Definition SetName (q : Z) (name : bytes) : stE world unit :=
  if bool_decide (name = []) then mret tt
  else
    x ← os_at q;
    _ ← match t_thread x with
        | Some p => th ← obj_at p; put_obj p (mkThread (m_id th) (m_thread th) (m_cb th) name (m_semaphore th))
        | None => mret tt
        end;
    put_os q (mkOs (t_thread x) name (tid x) (kernel_name x) (at_ x)).

(** The constructor up to [m_semaphore.wait()].  [answer] is what
    [pthread_create] does: the new thread with its number in the kernel, or
    an error.  An object whose constructor throws is freed. *)
(* sylar/thread.cc:36-47, Thread::Thread *)
Definition new_Thread (cb : option nat) (name : bytes) (answer : option (Z * Z)) : stE world nat :=
  s ← query (λ _, new_Semaphore 0);
  w ← get;
  let p := next w in
  let m_name := if bool_decide (name = []) then UNKNOW else name in
  match answer with
  | None => throw logic_error
  | Some (q, t) =>
      _ ← modify (λ w, mkWorld (<[p := mkThread (-1) q cb m_name s]> (objs w)) (Datatypes.S p) (<[q := new_os t (AtStart p)]> (os w))
                               ({[p]} ∪ building w) (<[q := cb]> (given w)) (calls w));
      mret p
  end.

(** The rest of the constructor; [None] while it waits. *)
(* sylar/thread.cc:48-49, Thread::Thread *)
Definition thread_started (signal : bool) (p : nat) (w : world) : option (outcome unit * world) :=
  th ← objs w !! p;
  r ← wait signal (m_semaphore th);
  Some ((_ ← put_obj p (mkThread (m_id th) (m_thread th) (m_cb th) (m_name th) r.2);
         match r.1 with
         | Ret _ => modify (set_building (building w ∖ {[p]}))
         | Throw e => _ ← delete_obj p; throw e
         | Crash f => crash f
         end) w).

(* sylar/thread.cc:51-55, Thread::~Thread *)
Definition delete_Thread (p : nat) : stE world unit := _ ← obj_at p; delete_obj p.

(** [answer] is the code of [pthread_join].  One step: the thread that joins
    is taken to keep the object until [pthread_join] returns, and nobody else
    to join it meanwhile. *)
(* sylar/thread.cc:57-67, Thread::join *)
Definition join (p : nat) (answer : Z) : stE world unit :=
  th ← obj_at p;
  if m_thread th =? 0 then mret tt
  else if negb (answer =? 0) then throw logic_error
  else put_obj p (mkThread (m_id th) 0 (m_cb th) (m_name th) (m_semaphore th)).

(* sylar/thread.cc:70-77, Thread::run *)
Definition run_start (q : Z) (x : os_thread) (thread : nat) : stE world unit :=
  th ← obj_at thread;
  _ ← put_obj thread (mkThread (tid x) (m_thread th) None (m_name th) (m_semaphore th));
  put_os q (mkOs (Some thread) (m_name th) (tid x) (c_str (take 15 (m_name th))) (AtNotify thread (m_cb th))).

(** An exception leaves [run]: the program ends. *)
(* sylar/thread.cc:79-79, Thread::run *)
Definition run_notify (q : Z) (x : os_thread) (thread : nat) (cb : option nat) : stE world unit :=
  th ← obj_at thread;
  let r := notify (m_semaphore th) in
  _ ← put_obj thread (mkThread (m_id th) (m_thread th) (m_cb th) (m_name th) r.2);
  _ ← query (λ _, r.1);
  put_os q (mkOs (t_thread x) (t_thread_name x) (tid x) (kernel_name x) (AtCall cb)).

(** An empty function cannot be called. *)
(* sylar/thread.cc:81-81, Thread::run *)
Definition run_call (q : Z) (x : os_thread) (cb : option nat) : stE world unit :=
  match cb with
  | None => crash bad_call
  | Some c =>
      _ ← modify (λ w, mkWorld (objs w) (next w) (os w) (building w) (given w) (calls w ++ [(q, c)]));
      put_os q (mkOs (t_thread x) (t_thread_name x) (tid x) (kernel_name x) Running)
  end.

(** The next step of a thread. *)
(* sylar/thread.cc:69-83, Thread::run *)
Definition run (q : Z) : stE world unit :=
  x ← os_at q;
  match at_ x with
  | AtStart p => run_start q x p
  | AtNotify p cb => run_notify q x p cb
  | AtCall cb => run_call q x cb
  | Running => put_os q (mkOs (t_thread x) (t_thread_name x) (tid x) (kernel_name x) Finished)
  | Finished => mret tt
  end.

(** What can happen next.  [pthread_join] returns without an error when the
    thread has ended. *)
Inductive event :=
  | EvCreate (cb : option nat) (name : bytes) (answer : option (Z * Z))
  | EvStarted (p : nat) (signal : bool)
  | EvRun (q : Z)
  | EvSetName (q : Z) (name : bytes)
  | EvJoin (p : nat) (answer : Z)
  | EvDelete (p : nat).

Definition at_place (w : world) (q : Z) : option place := at_ <$> os w !! q.
Definition ran_out {A} (r : outcome A * world) : outcome unit * world := (_ ← r.1; Ret tt, r.2).

(** A new thread has names of its own, in the library and in the kernel. *)
Definition can_create (answer : option (Z * Z)) (w : world) : bool :=
  match answer with Some (q, t) => bool_decide (os w !! q = None ∧ q ≠ 0 ∧ 0 < t) | None => true end.
Definition can_join (answer : Z) (th : Thread) (w : world) : bool :=
  negb (answer =? 0) || (m_thread th =? 0) || bool_decide (at_place w (m_thread th) = Some Finished).

(** Only code that runs names itself; only an object that has been made is
    joined or deleted, as long as it is there. *)
Definition occur (e : event) (w : world) : option (outcome unit * world) :=
  match e with
  | EvCreate cb name answer => if can_create answer w then Some (ran_out (new_Thread cb name answer w)) else None
  | EvStarted p signal => if bool_decide (p ∈ building w) then thread_started signal p w else None
  | EvRun q => match at_place w q with None | Some Finished => None | _ => Some (run q w) end
  | EvSetName q name => if bool_decide (at_place w q = Some Running) then Some (SetName q name w) else None
  | EvJoin p answer =>
      th ← objs w !! p;
      if bool_decide (p ∉ building w) && can_join answer th w then Some (join p answer w) else None
  | EvDelete p => if bool_decide (p ∈ dom (objs w) ∧ p ∉ building w) then Some (delete_Thread p w) else None
  end.

Definition survives {A} (r : outcome A) : Prop := match r with Crash _ => False | _ => True end.
Definition step (w w' : world) : Prop := ∃ e r, occur e w = Some (r, w') ∧ survives r.
(** Before any thread was made here. *)
Definition initial (w : world) : Prop :=
  objs w = ∅ ∧ building w = ∅ ∧ given w = ∅ ∧ calls w = [] ∧ map_Forall (λ _ x, t_thread x = None ∧ at_ x = Running) (os w).
End thread.
