(* ===== verification/ThreadTheorems.v ===== *)
(** * What a new thread finds, and when its object may go

    The hand-over between the constructor and the new thread, in every
    interleaving of any number of threads; and the two ways it fails. *)
From S2P Require Import Prelude Mutex Thread.
From stdpp Require Import gmap.

Local Open Scope Z_scope.

Section thread.
Context {S : SemLib} {SL : SemLaws S}.

(** No signal is handled while a constructor waits. *)
Definition undisturbed (e : event) : Prop := match e with EvStarted _ signal => signal = false | _ => True end.
Definition calm_step (w w' : world) : Prop := ∃ e r, undisturbed e ∧ occur e w = Some (r, w') ∧ survives r.

(** ** The invariant *)

(** The object a thread runs for. *)
Definition own (x : os_thread) : option nat := match at_ x with AtStart p => Some p | _ => t_thread x end.

(** The new thread has taken its callback and told its number. *)
Record told (p : nat) (th : Thread) (x : os_thread) : Prop := {
  t_id : m_id th = tid x;
  t_cb : m_cb th = None;
  t_this : t_thread x = Some p;
  t_name : m_name th = t_thread_name x
}.

(** How far an object and its thread are; [b]: the constructor waits. *)
Definition stage (b : bool) (p : nat) (th : Thread) (x : os_thread) : Prop :=
  match at_ x with
  | AtStart p' => p' = p ∧ b = true ∧ t_thread x = None ∧ sem_value (m_semaphore th) = 0
  | AtNotify p' _ => p' = p ∧ b = true ∧ told p th x ∧ sem_value (m_semaphore th) = 0
  | _ => told p th x ∧ sem_value (m_semaphore th) = if b then 1 else 0
  end.

(** What a thread has done of its task. *)
Definition progress (w : world) (q : Z) (x : os_thread) : Prop :=
  match at_ x, given w !! q with
  | AtStart p, Some g => p ∈ building w ∧ (∃ th, objs w !! p = Some th ∧ m_thread th = q ∧ m_cb th = g) ∧ q ∉ (calls w).*1
  | AtNotify p cb, Some g => t_thread x = Some p ∧ p ∈ building w ∧ (∃ th, objs w !! p = Some th ∧ m_thread th = q) ∧ cb = g ∧ q ∉ (calls w).*1
  | AtCall cb, Some g => cb = g ∧ q ∉ (calls w).*1
  | _, Some g => ∃ c, g = Some c ∧ (q, c) ∈ calls w
  | Running, None | Finished, None => t_thread x = None
  | _, None => False
  end.

Record inv (w : world) : Prop := {
  i_obj : ∀ p th, objs w !! p = Some th → (p < next w)%nat ∧ ∃ q x, os w !! q = Some x ∧
    (m_thread th = q ∨ m_thread th = 0 ∧ p ∉ building w) ∧ stage (bool_decide (p ∈ building w)) p th x;
  i_os : ∀ q x, os w !! q = Some x → progress w q x;
  i_own : ∀ q q' x x' p, os w !! q = Some x → os w !! q' = Some x' → own x = Some p → own x' = Some p → q = q';
  i_next : ∀ q x p, os w !! q = Some x → own x = Some p → (p < next w)%nat;
  i_building : ∀ p, p ∈ building w → is_Some (objs w !! p);
  i_tid : ∀ q x, os w !! q = Some x → is_Some (given w !! q) → 0 < tid x;
  i_made : ∀ q, is_Some (given w !! q) → is_Some (os w !! q);
  i_calls : NoDup (calls w).*1;
  i_given : ∀ q c, (q, c) ∈ calls w → given w !! q = Some (Some c)
}.

Lemma initial_inv w : initial w → inv w.
Proof.
  intros (Ho & Hb & Hg & Hc & Hos). split.
  - intros p th. by rewrite Ho.
  - intros q x E. destruct (Hos q x E) as [H1 H2]. unfold progress. by rewrite H2, Hg.
  - intros q q' x x' p E _ Hp. destruct (Hos q x E) as [H1 H2]. unfold own in Hp. by rewrite H2, H1 in Hp.
  - intros q x p E Hp. destruct (Hos q x E) as [H1 H2]. unfold own in Hp. by rewrite H2, H1 in Hp.
  - intros p. by rewrite Hb.
  - intros q x _. rewrite Hg. by intros [].
  - intros q. rewrite Hg. by intros [].
  - rewrite Hc. constructor.
  - intros q c. rewrite Hc. by intros ?%not_elem_of_nil.
Qed.

Lemma stage_own b p th x : stage b p th x → own x = Some p.
Proof. unfold stage, own. destruct (at_ x); [by intros [-> _]|intros (-> & _ & [] & _)|intros [[] _]..]; done. Qed.

(** The thread an object is for. *)
Lemma object_thread w p th q x : inv w → objs w !! p = Some th → os w !! q = Some x → own x = Some p →
  stage (bool_decide (p ∈ building w)) p th x ∧ (m_thread th = q ∨ m_thread th = 0 ∧ p ∉ building w).
Proof.
  intros Hi Ep Eq Ho. destruct (i_obj w Hi p th Ep) as (_ & q' & x' & E' & Hm & Hs).
  assert (q' = q) as -> by (eapply (i_own w Hi); [exact E'|exact Eq|by eapply stage_own|done]).
  rewrite Eq in E'. by injection E' as ->.
Qed.

(** A step of the thread [q], which touches no object but its own. *)
Lemma inv_thread w q x x' objs' calls' : inv w → os w !! q = Some x →
  own x' = own x → tid x' = tid x →
  (∀ p th', objs' !! p = Some th' → own x = Some p →
     ∃ th, objs w !! p = Some th ∧ m_thread th' = m_thread th ∧ ∀ b, b = bool_decide (p ∈ building w) → stage b p th x → stage b p th' x') →
  (∀ p, own x ≠ Some p → objs' !! p = objs w !! p) →
  (∀ p, own x = Some p → is_Some (objs w !! p) → is_Some (objs' !! p)) →
  (calls' = calls w ∨ ∃ c, calls' = calls w ++ [(q, c)] ∧ q ∉ (calls w).*1 ∧ given w !! q = Some (Some c)) →
  let w' := mkWorld objs' (next w) (<[q := x']> (os w)) (building w) (given w) calls' in
  progress w' q x' → inv w'.
Proof.
  intros Hi Eq Hown Htid Hobj Hother Hthere Hcalls w' Hp.
  assert (∀ u, u ≠ q → u ∉ (calls w).*1 → u ∉ calls'.*1) as Hnc.
  { intros u Hu. destruct Hcalls as [->|(c & -> & _)]; [done|]. rewrite fmap_app. set_solver. }
  assert (∀ u c, (u, c) ∈ calls w → (u, c) ∈ calls') as Hc.
  { intros u c. destruct Hcalls as [->|(? & -> & _)]; [done|]. set_solver. }
  assert (∀ u xu p, u ≠ q → os w !! u = Some xu → own xu = Some p → objs' !! p = objs w !! p) as Hfar.
  { intros u xu p Hne Eu Ho. apply Hother. intros Hx. by destruct Hne; eapply (i_own w Hi). }
  split; cbn.
  - intros p th' E. destruct (decide (own x = Some p)) as [Ho|Ho].
    + destruct (Hobj p th' E Ho) as (th & Ep & Hm & Hst). destruct (object_thread w p th q x Hi Ep Eq Ho) as [Hs Hq].
      split; [by eapply (i_next w Hi)|]. exists q, x'. rewrite lookup_insert_eq, Hm. split_and!; [done..|by apply Hst].
    + rewrite (Hother p Ho) in E. destruct (i_obj w Hi p th' E) as (Hn & u & xu & Eu & Hm & Hs). split; [done|]. exists u, xu.
      split_and!; [|done..]. rewrite lookup_insert_ne; [done|]. intros <-. rewrite Eq in Eu. injection Eu as <-. by apply stage_own in Hs.
  - intros u xu. rewrite lookup_insert_Some. intros [[<- <-]|[Hne Eu]]; [exact Hp|]. pose proof (i_os w Hi u xu Eu) as H.
    pose proof (λ p, Hfar u xu p (not_eq_sym Hne) Eu) as Hf.
    unfold progress, own in *; cbn in *. destruct (at_ xu) as [p|p cb|cb| |], (given w !! u) as [g|]; try done.
    + rewrite Hf by done. naive_solver.
    + destruct H as (Ht & ? & ? & ? & ?). rewrite Hf by done. naive_solver.
    + naive_solver.
    + naive_solver.
    + naive_solver.
  - intros u u' xu xu' p. rewrite !lookup_insert_Some.
    intros [[<- <-]|[? Eu]] [[<- <-]|[? Eu']]; rewrite ?Hown; intros; by first [done | eapply (i_own w Hi)].
  - intros u xu p. rewrite lookup_insert_Some. intros [[<- <-]|[? Eu]]; rewrite ?Hown; intros; by eapply (i_next w Hi).
  - intros p Hb. destruct (decide (own x = Some p)) as [Ho|Ho]; [apply Hthere; [done|]|rewrite Hother by done]; by apply (i_building w Hi).
  - intros u xu. rewrite lookup_insert_Some. intros [[<- <-]|[? Eu]]; rewrite ?Htid; intros; by eapply (i_tid w Hi).
  - intros u Hu. rewrite lookup_insert_is_Some'. right. by apply (i_made w Hi).
  - destruct Hcalls as [->|(c & -> & Hq & _)]; [apply (i_calls w Hi)|]. rewrite fmap_app. apply NoDup_app.
    split_and!; [apply (i_calls w Hi)|set_solver|apply NoDup_singleton].
  - intros u c Hin. destruct Hcalls as [->|(c' & -> & _ & Hg)]; [by apply (i_given w Hi)|].
    apply elem_of_app in Hin as [?|[= -> ->]%list_elem_of_singleton]; [by apply (i_given w Hi)|done].
Qed.

(** A change of one object, when no thread is still starting for it. *)
Lemma inv_object w p o' b' : inv w →
  (∀ q x, os w !! q = Some x → match at_ x with AtStart p' | AtNotify p' _ => p' ≠ p | _ => True end) →
  (∀ th', o' = Some th' → ∃ th, objs w !! p = Some th ∧ (m_thread th' = m_thread th ∨ m_thread th' = 0 ∧ p ∉ b') ∧
     ∀ x, stage (bool_decide (p ∈ building w)) p th x → stage (bool_decide (p ∈ b')) p th' x) →
  (∀ u, u ≠ p → u ∈ b' ↔ u ∈ building w) → (p ∈ b' → is_Some o' ∧ p ∈ building w) →
  inv (mkWorld (partial_alter (λ _, o') p (objs w)) (next w) (os w) b' (given w) (calls w)).
Proof.
  intros Hi Hno Ho Hb Hpb. split; cbn; try by destruct Hi.
  - intros u th. destruct (decide (u = p)) as [->|Hne].
    + rewrite lookup_partial_alter_eq. intros E. destruct (Ho th E) as (th0 & E0 & Hm & Hst).
      destruct (i_obj w Hi p th0 E0) as (Hn & q & x & Eq & Hq & Hs). split; [done|]. exists q, x. split_and!; [done| |by apply Hst].
      destruct Hm as [->|?]; [|by right]. destruct Hq as [?|[? Hp]]; [by left|right]. split; [done|]. intros Hx. apply Hp. by destruct (Hpb Hx).
    + rewrite lookup_partial_alter_ne by done. intros E. destruct (i_obj w Hi u th E) as (Hn & q & x & Eq & Hq & Hs).
      split; [done|]. exists q, x.
      assert (bool_decide (u ∈ b') = bool_decide (u ∈ building w)) as -> by (by apply bool_decide_ext, Hb).
      specialize (Hb u Hne). split_and!; [done|naive_solver|done].
  - intros q x E. pose proof (i_os w Hi q x E) as H. pose proof (Hno q x E) as Hq. unfold progress in *; cbn in *.
    destruct (at_ x) as [p'|p' cb|cb| |], (given w !! q) as [g|]; try done; rewrite lookup_partial_alter_ne by done; specialize (Hb p' Hq); naive_solver.
  - intros u Hu. destruct (decide (u = p)) as [->|Hne]; [rewrite lookup_partial_alter_eq; by apply Hpb|].
    rewrite lookup_partial_alter_ne by done. by apply (i_building w Hi), Hb.
Qed.

(** With the object of the thread, or without. *)
Lemma inv_put w q x x' p th th' : inv w → os w !! q = Some x → own x = Some p → objs w !! p = Some th →
  own x' = Some p → tid x' = tid x → m_thread th' = m_thread th →
  (∀ b, b = bool_decide (p ∈ building w) → stage b p th x → stage b p th' x') →
  let w' := mkWorld (<[p := th']> (objs w)) (next w) (<[q := x']> (os w)) (building w) (given w) (calls w) in
  progress w' q x' → inv w'.
Proof.
  intros Hi Eq Ho Ep Ho' Ht Hm Hs w' Hp. apply (inv_thread w q x x'); try done; [by rewrite Ho|..| |by left].
  - intros u uh. rewrite Ho. intros Eu [= <-]. rewrite lookup_insert_eq in Eu. injection Eu as <-. by exists th.
  - intros u Hu. rewrite lookup_insert_ne; [done|congruence].
  - intros u. rewrite Ho. intros [= <-] _. by rewrite lookup_insert_eq.
Qed.

Lemma inv_move w q x x' calls' : inv w → os w !! q = Some x → own x' = own x → tid x' = tid x →
  (∀ b p th, stage b p th x → stage b p th x') →
  (calls' = calls w ∨ ∃ c, calls' = calls w ++ [(q, c)] ∧ q ∉ (calls w).*1 ∧ given w !! q = Some (Some c)) →
  let w' := mkWorld (objs w) (next w) (<[q := x']> (os w)) (building w) (given w) calls' in
  progress w' q x' → inv w'.
Proof. intros Hi Eq Ho Ht Hs Hc w' Hp. apply (inv_thread w q x x'); try done. intros p th E _. exists th. auto. Qed.

(** ** The steps of a thread *)

Lemma obj_at_run w p th : objs w !! p = Some th → obj_at p w = (Ret th, w).
Proof. intros E. unfold obj_at, query. by rewrite E. Qed.
Lemma os_at_run w q x : os w !! q = Some x → os_at q w = (Ret x, w).
Proof. intros E. unfold os_at, query. by rewrite E. Qed.

Lemma run_start_inv w q x p : inv w → os w !! q = Some x → at_ x = AtStart p →
  ∃ w', run q w = (Ret tt, w') ∧ inv w' ∧ building w' = building w ∧ ∃ x' cb, os w' !! q = Some x' ∧ at_ x' = AtNotify p cb.
Proof.
  intros Hi Eq Ea. pose proof (i_os w Hi q x Eq) as Hp. unfold progress in Hp. rewrite Ea in Hp.
  destruct (given w !! q) as [g|] eqn:Eg; [|done]. destruct Hp as (Hb & (th & Ep & Hm & Hcb) & Hc).
  assert (own x = Some p) as Ho by (unfold own; by rewrite Ea).
  eexists. unfold run. rewrite (stE_bind_ret _ _ _ _ _ (os_at_run _ _ _ Eq)), Ea. unfold run_start.
  rewrite (stE_bind_ret _ _ _ _ _ (obj_at_run _ _ _ Ep)). split; [reflexivity|]. split.
  - apply (inv_put w q x _ p th); try done.
    + intros b _. unfold stage. rewrite Ea. cbn. intros (_ & ? & _ & ?). by split_and!.
    + unfold progress. cbn. rewrite Eg, Hcb. split_and!; try done. eexists. by rewrite lookup_insert_eq.
  - split; [done|]. eexists _, (m_cb th). split; [apply lookup_insert_eq|done].
Qed.

Lemma run_notify_inv w q x p cb : inv w → os w !! q = Some x → at_ x = AtNotify p cb →
  ∃ w' th, run q w = (Ret tt, w') ∧ inv w' ∧ objs w' !! p = Some th ∧ 0 < sem_value (m_semaphore th) ∧ building w' = building w.
Proof.
  intros Hi Eq Ea. pose proof (i_os w Hi q x Eq) as Hp. unfold progress in Hp. rewrite Ea in Hp.
  destruct (given w !! q) as [g|] eqn:Eg; [|done]. destruct Hp as (Ht & Hb & (th & Ep & Hm) & -> & Hc).
  assert (own x = Some p) as Ho by (unfold own; by rewrite Ea).
  destruct (object_thread w p th q x Hi Ep Eq Ho) as [Hs _]. unfold stage in Hs. rewrite Ea in Hs. destruct Hs as (_ & _ & _ & Hv).
  destruct (law_sem_post (m_semaphore th)) as (s' & Es & Hv'); [lia|].
  eexists _, _. unfold run. rewrite (stE_bind_ret _ _ _ _ _ (os_at_run _ _ _ Eq)), Ea. unfold run_notify.
  rewrite (stE_bind_ret _ _ _ _ _ (obj_at_run _ _ _ Ep)). unfold notify. rewrite Es. split; [reflexivity|]. split.
  - apply (inv_put w q x _ p th); try done.
    + intros b _. unfold stage. rewrite Ea. cbn. intros (_ & -> & [H1 H2 H3 H4] & _). split; [by constructor|]. lia.
    + unfold progress. cbn. by rewrite Eg.
  - cbn. split; [by rewrite lookup_insert_eq|]. cbn. split; [lia|done].
Qed.

Lemma thread_run_inv w q x r w' : inv w → os w !! q = Some x → at_ x ≠ Finished → run q w = (r, w') →
  r = Ret tt ∧ inv w' ∨ r = Crash bad_call ∧ at_ x = AtCall None.
Proof.
  intros Hi Eq Hf E. destruct (at_ x) as [p|p cb|cb| |] eqn:Ea; [| | | |done].
  - destruct (run_start_inv w q x p Hi Eq Ea) as (w1 & E1 & H1 & _). left. rewrite E1 in E. by injection E as <- <-.
  - destruct (run_notify_inv w q x p cb Hi Eq Ea) as (w1 & th & E1 & H1 & _). left. rewrite E1 in E. by injection E as <- <-.
  - pose proof (i_os w Hi q x Eq) as Hp. unfold progress in Hp. rewrite Ea in Hp.
    unfold run in E. rewrite (stE_bind_ret _ _ _ _ _ (os_at_run _ _ _ Eq)), Ea in E. unfold run_call in E.
    destruct cb as [c|]; [|injection E as <- <-; by right]. left. injection E as <- <-. split; [done|].
    destruct (given w !! q) as [g|] eqn:Eg; [|done]. destruct Hp as [<- Hc].
    apply (inv_move w q x); try done; [by unfold own; rewrite Ea|intros b p th; unfold stage; rewrite Ea; cbn; by intros [[] ?]|right; by exists c|].
    unfold progress. cbn. rewrite Eg. exists c. split; [done|]. set_solver.
  - pose proof (i_os w Hi q x Eq) as Hp. unfold progress in Hp. rewrite Ea in Hp.
    unfold run in E. rewrite (stE_bind_ret _ _ _ _ _ (os_at_run _ _ _ Eq)), Ea in E. left. injection E as <- <-. split; [done|].
    apply (inv_move w q x); try done; [by unfold own; rewrite Ea|intros b p th; unfold stage; rewrite Ea; cbn; by intros [[] ?]|by left].
Qed.

(** ** The other events *)

Lemma SetName_inv w q x name r w' : inv w → os w !! q = Some x → at_ x = Running → SetName q name w = (r, w') →
  r = Ret tt ∧ inv w' ∨ r = Crash dangling ∧ ∃ p, t_thread x = Some p ∧ objs w !! p = None.
Proof.
  intros Hi Eq Ea. unfold SetName. case_bool_decide; [intros [= <- <-]; by left|].
  rewrite (stE_bind_ret _ _ _ _ _ (os_at_run _ _ _ Eq)). pose proof (i_os w Hi q x Eq) as Hp. unfold progress in Hp. rewrite Ea in Hp.
  destruct (t_thread x) as [p|] eqn:Et.
  - destruct (objs w !! p) as [th|] eqn:Ep.
    + rewrite (stE_bind_ret _ _ _ tt (set_objs (<[p := mkThread (m_id th) (m_thread th) (m_cb th) name (m_semaphore th)]> (objs w)) w))
        by (by rewrite (stE_bind_ret _ _ _ _ _ (obj_at_run _ _ _ Ep))).
      intros [= <- <-]. left. split; [done|]. apply (inv_put w q x _ p th); try done; unfold own, stage, progress in *; rewrite ?Ea; cbn; try done.
      intros b _ [[H1 H2 H3 H4] ?]. split; [by constructor|done].
    + rewrite (stE_bind_crash _ _ _ dangling w); [intros [= <- <-]; right; split; [done|by exists p]|].
      apply stE_bind_crash. unfold obj_at, query. by rewrite Ep.
  - rewrite mret_bind. intros [= <- <-]. left. split; [done|].
    apply (inv_move w q x); try done; unfold own, stage, progress in *; rewrite ?Ea; cbn; [done| |by left|done].
    intros b p th [[_ _ Hx _] _]. by rewrite Et in Hx.
Qed.

Lemma started_inv w p r w' : inv w → p ∈ building w → thread_started false p w = Some (r, w') →
  r = Ret tt ∧ inv w' ∧ p ∉ building w' ∧ objs w' !! p ≠ None.
Proof.
  intros Hi Hb. unfold thread_started. destruct (objs w !! p) as [th|] eqn:Ep; [|done]. cbn. unfold wait.
  destruct (sem_wait false (m_semaphore th)) as [[c s]|] eqn:Es; [|done]. cbn.
  destruct (law_sem_wait _ _ _ _ Es) as [(-> & Hv & Hv')|(_ & ? & _)]; [|done]. intros [= <- <-]. split; [done|]. cbn.
  split; [|split; [set_solver|by rewrite lookup_insert_eq]].
  change (inv (mkWorld (partial_alter (λ _, Some (mkThread (m_id th) (m_thread th) (m_cb th) (m_name th) s)) p (objs w)) (next w) (os w)
    (building w ∖ {[p]}) (given w) (calls w))).
  apply inv_object; try done.
  - intros q x Eq. destruct (decide (own x = Some p)) as [Ho|Ho].
    + destruct (object_thread w p th q x Hi Ep Eq Ho) as [Hs _]. unfold stage in Hs.
      destruct (at_ x); [destruct Hs as (? & ? & ? & ?); lia|destruct Hs as (? & ? & ? & ?); lia|done..].
    + pose proof (i_os w Hi q x Eq) as Hp. unfold progress, own in *. destruct (at_ x), (given w !! q); naive_solver.
  - intros th' [= <-]. exists th. split_and!; [done|by left|]. intros x. rewrite bool_decide_eq_true_2 by done.
    rewrite bool_decide_eq_false_2 by set_solver. unfold stage. destruct (at_ x); cbn; try lia;
      intros [[H1 H2 H3 H4] Hs]; (split; [by constructor|lia]).
  - set_solver.
Qed.

Lemma no_starter w p : inv w → p ∉ building w →
  ∀ q x, os w !! q = Some x → match at_ x with AtStart p' | AtNotify p' _ => p' ≠ p | _ => True end.
Proof.
  intros Hi Hb q x Eq. pose proof (i_os w Hi q x Eq) as Hp. unfold progress in Hp. destruct (at_ x), (given w !! q); naive_solver.
Qed.

Lemma join_inv w p answer r w' : inv w → p ∉ building w → Thread.join p answer w = (r, w') → is_Some (objs w !! p) →
  survives r ∧ inv w'.
Proof.
  intros Hi Hb E [th Ep]. unfold Thread.join in E. rewrite (stE_bind_ret _ _ _ _ _ (obj_at_run _ _ _ Ep)) in E.
  destruct (m_thread th =? 0); [by injection E as <- <-|]. destruct (negb (answer =? 0)); injection E as <- <-; [done|].
  split; [done|]. apply inv_object; [done|by apply no_starter| |done|done].
  intros th' [= <-]. exists th. split_and!; [done|by right|]. intros x. unfold stage.
  destruct (at_ x); cbn; [by intros (? & ? & ? & ?)|intros (? & ? & [] & ?); by split_and!|intros [[] ?]; by split..].
Qed.

Lemma delete_inv w p r w' : inv w → p ∉ building w → is_Some (objs w !! p) → delete_Thread p w = (r, w') → r = Ret tt ∧ inv w'.
Proof.
  intros Hi Hb [th Ep]. unfold delete_Thread. rewrite (stE_bind_ret _ _ _ _ _ (obj_at_run _ _ _ Ep)). intros [= <- <-]. split; [done|].
  apply (inv_object w p None); [done|by apply no_starter|done|set_solver|set_solver].
Qed.

(** A new object and a new thread. *)
Lemma create_state_inv w q t cb name s : inv w → os w !! q = None → q ≠ 0 → 0 < t → sem_value s = 0 →
  objs w !! next w = None → next w ∉ building w → given w !! q = None → q ∉ (calls w).*1 →
  inv (mkWorld (<[next w := mkThread (-1) q cb name s]> (objs w)) (Datatypes.S (next w)) (<[q := new_os t (AtStart (next w))]> (os w))
               ({[next w]} ∪ building w) (<[q := cb]> (given w)) (calls w)).
Proof.
  intros Hi Hq Hq0 Ht Es Hn Hnb Hg Hqc. split; cbn.
  - intros p th. rewrite lookup_insert_Some. intros [[<- <-]|[Hne E]].
    + split; [lia|]. exists q, (new_os t (AtStart (next w))). rewrite lookup_insert_eq, bool_decide_eq_true_2 by set_solver.
      split_and!; try done. by left.
    + destruct (i_obj w Hi p th E) as (? & u & x & Eu & Hm & Hs). split; [lia|]. exists u, x.
      rewrite lookup_insert_ne by congruence.
      assert (bool_decide (p ∈ {[next w]} ∪ building w) = bool_decide (p ∈ building w)) as -> by (apply bool_decide_ext; set_solver).
      split_and!; [done| |done]. destruct Hm as [?|[? ?]]; [by left|right]. set_solver.
  - intros u x. rewrite lookup_insert_Some. intros [[<- <-]|[Hne E]]; unfold progress; cbn.
    + rewrite lookup_insert_eq. split_and!; [set_solver| |done]. eexists. by rewrite lookup_insert_eq.
    + rewrite lookup_insert_ne by done. pose proof (i_os w Hi u x E) as H. unfold progress in H.
      destruct (at_ x) as [p|p c|c| |], (given w !! u); try done.
      * destruct H as (? & (th & Ep & ?) & ?). rewrite lookup_insert_ne by congruence. set_solver.
      * destruct H as (? & ? & (th & Ep & ?) & ?). rewrite lookup_insert_ne by congruence. set_solver.
  - intros u u' x x' p. rewrite !lookup_insert_Some.
    intros [[<- <-]|[? Eu]] [[<- <-]|[? Eu']] Hx Hx'; try done.
    + injection Hx as <-. pose proof (i_next w Hi _ _ _ Eu' Hx'). lia.
    + injection Hx' as <-. pose proof (i_next w Hi _ _ _ Eu Hx). lia.
    + by eapply (i_own w Hi).
  - intros u x p. rewrite lookup_insert_Some. intros [[<- <-]|[? Eu]] Hx; [injection Hx as <-; lia|].
    pose proof (i_next w Hi _ _ _ Eu Hx). lia.
  - intros p [->%elem_of_singleton|Hp]%elem_of_union; [by rewrite lookup_insert_eq|].
    rewrite lookup_insert_is_Some'. right. by apply (i_building w Hi).
  - intros u x. rewrite lookup_insert_Some. intros [[<- <-]|[? Eu]]; [done|]. rewrite lookup_insert_ne by done. by apply (i_tid w Hi).
  - intros u. rewrite !lookup_insert_is_Some'. intros [->|Hu]; [by left|right; by apply (i_made w Hi)].
  - apply (i_calls w Hi).
  - intros u c Hin. rewrite lookup_insert_ne; [by apply (i_given w Hi)|]. intros <-. apply (i_given w Hi) in Hin. by rewrite Hg in Hin.
Qed.

Lemma create_inv w cb name answer r w' : inv w → can_create answer w = true → ran_out (new_Thread cb name answer w) = (r, w') →
  survives r ∧ inv w'.
Proof.
  intros Hi Hc. unfold ran_out, new_Thread, new_Semaphore. change (u32 0) with 0.
  destruct (sem_init 0) as [s|] eqn:Es; [|by intros [= <- <-]]. unfold mbind at 2, stE_bind at 1. cbn.
  destruct answer as [[q t]|]; [|by intros [= <- <-]]. cbn in Hc. apply bool_decide_eq_true in Hc as (Hq & Hq0 & Ht).
  intros [= <- <-]. split; [done|]. apply law_sem_init in Es.
  assert (objs w !! next w = None) as Hn.
  { destruct (objs w !! next w) as [th|] eqn:E; [|done]. destruct (i_obj w Hi _ _ E). lia. }
  assert (next w ∉ building w) as Hnb by (intros [? E]%(i_building w Hi); by rewrite Hn in E).
  assert (given w !! q = None) as Hg.
  { destruct (given w !! q) eqn:E; [|done]. destruct (i_made w Hi q) as [? Ex]; [by eexists|]. by rewrite Hq in Ex. }
  assert (q ∉ (calls w).*1) as Hqc.
  { intros ([q' c] & -> & Hin)%list_elem_of_fmap. apply (i_given w Hi) in Hin. cbn in Hg. by rewrite Hg in Hin. }
  by apply create_state_inv.
Qed.

Lemma undisturbed_inv e w r w' : inv w → undisturbed e → occur e w = Some (r, w') → survives r → inv w'.
Proof.
  intros Hi Hu He Hr. destruct e as [cb name answer|p signal|q|q name|p answer|p]; cbn in He.
  - destruct (can_create answer w) eqn:Ec; [|done]. apply (inj Some) in He. exact (proj2 (create_inv _ _ _ _ _ _ Hi Ec He)).
  - case_bool_decide as Hb; [|done]. cbn in Hu. subst. exact (proj1 (proj2 (started_inv _ _ _ _ Hi Hb He))).
  - unfold at_place in He. destruct (os w !! q) as [x|] eqn:Eq; [|done]. cbn in He.
    assert (at_ x ≠ Finished) as Hf by (intros E; by rewrite E in He).
    assert (run q w = (r, w')) as Hrun by (destruct (at_ x); try done; by apply (inj Some)).
    destruct (thread_run_inv w q x r w' Hi Eq Hf Hrun) as [[_ ?]|[-> _]]; done.
  - unfold at_place in He. case_bool_decide as Ha; [|done]. destruct (os w !! q) as [x|] eqn:Eq; [|done]. apply (inj Some) in Ha, He.
    destruct (SetName_inv w q x name r w' Hi Eq Ha He) as [[_ ?]|[-> _]]; done.
  - destruct (objs w !! p) as [th|] eqn:Ep; [|done]. cbn in He. case_bool_decide as Hb; [|done]. cbn in He.
    destruct (can_join answer th w); [|done]. apply (inj Some) in He. refine (proj2 (join_inv _ _ _ _ _ Hi Hb He _)). by exists th.
  - case_bool_decide as Hb; [|done]. destruct Hb as [Hd%elem_of_dom Hb]. apply (inj Some) in He. exact (proj2 (delete_inv _ _ _ _ Hi Hb Hd He)).
Qed.

Lemma started_ready w p th : inv w → p ∈ building w → objs w !! p = Some th → 0 < sem_value (m_semaphore th) →
  ∃ w', occur (EvStarted p false) w = Some (Ret tt, w') ∧ p ∉ building w'.
Proof.
  intros Hi Hb Ep Hv. destruct (law_sem_ready _ Hv) as [s Es]. cbn. rewrite bool_decide_eq_true_2 by done.
  destruct (thread_started false p w) as [[r w']|] eqn:E.
  - destruct (started_inv w p r w' Hi Hb E) as (-> & _ & Hn & _). by exists w'.
  - exfalso. unfold thread_started in E. rewrite Ep in E. cbn in E. unfold wait in E. by rewrite Es in E.
Qed.

Definition run_of (q : Z) (w w' : world) : Prop := occur (EvRun q) w = Some (Ret tt, w').

Lemma run_occurs w q x w' : os w !! q = Some x → at_ x ≠ Finished → run q w = (Ret tt, w') → run_of q w w'.
Proof. intros Eq Hf E. unfold run_of, occur, at_place. rewrite Eq. cbn. rewrite E. by destruct (at_ x). Qed.

Lemma notify_releases w q x p cb : inv w → p ∈ building w → os w !! q = Some x → at_ x = AtNotify p cb →
  ∃ w1 w2, run_of q w w1 ∧ occur (EvStarted p false) w1 = Some (Ret tt, w2) ∧ p ∉ building w2.
Proof.
  intros Hi Hb Eq Ea. destruct (run_notify_inv w q x p cb Hi Eq Ea) as (w1 & th & Er & Hi1 & Ep & Hv & Hb1).
  destruct (started_ready w1 p th Hi1) as (w2 & Es & Hn); [by rewrite Hb1|done|done|]. exists w1, w2. split_and!; [|done..].
  eapply run_occurs; [done|by rewrite Ea|done].
Qed.

Lemma constructor_released w p : inv w → p ∈ building w → ∃ q w1 w2, rtc (run_of q) w w1 ∧
  occur (EvStarted p false) w1 = Some (Ret tt, w2) ∧ p ∉ building w2.
Proof.
  intros Hi Hb. destruct (i_building w Hi p Hb) as [th Ep]. destruct (i_obj w Hi p th Ep) as (_ & q & x & Eq & _ & Hs). exists q.
  rewrite bool_decide_eq_true_2 in Hs by done. unfold stage in Hs.
  destruct (at_ x) as [p'|p' cb|cb| |] eqn:Ea; [..|].
  - destruct Hs as [-> _]. destruct (run_start_inv w q x p Hi Eq Ea) as (w0 & Er & Hi0 & Hb0 & x0 & cb & Eq0 & Ea0).
    destruct (notify_releases w0 q x0 p cb Hi0) as (w1 & w2 & H1 & H2 & H3); [by rewrite Hb0|done..|]. exists w1, w2. split_and!; [|done..].
    eapply rtc_l; [|by apply rtc_once]. eapply run_occurs; [done|by rewrite Ea|done].
  - destruct Hs as [-> _]. destruct (notify_releases w q x p cb Hi Hb Eq Ea) as (w1 & w2 & H1 & H2 & H3). exists w1, w2.
    split_and!; [by apply rtc_once|done..].
  - destruct Hs as [_ Hv]. destruct (started_ready w p th Hi Hb Ep) as (w2 & ? & ?); [lia|]. by exists w, w2.
  - destruct Hs as [_ Hv]. destruct (started_ready w p th Hi Hb Ep) as (w2 & ? & ?); [lia|]. by exists w, w2.
  - destruct Hs as [_ Hv]. destruct (started_ready w p th Hi Hb Ep) as (w2 & ? & ?); [lia|]. by exists w, w2.
Qed.

Lemma calm_inv w0 w : initial w0 → rtc calm_step w0 w → inv w.
Proof.
  intros H0 H. revert w H. apply rtc_ind_r; [by apply initial_inv|]. intros w w' _ (e & r & Hu & He & Hr) Hi. by eapply undisturbed_inv.
Qed.

(** What an event that ends the program was. *)
Definition uses_deleted (w : world) (e : event) : Prop :=
  ∃ q name x p, e = EvSetName q name ∧ os w !! q = Some x ∧ t_thread x = Some p ∧ objs w !! p = None.
Definition calls_empty (w : world) (e : event) : Prop := ∃ q, e = EvRun q ∧ given w !! q = Some None.

Lemma calm_crash w e f w' : inv w → undisturbed e → occur e w = Some (Crash f, w') →
  f = dangling ∧ uses_deleted w e ∨ f = bad_call ∧ calls_empty w e.
Proof.
  intros Hi Hu He. destruct e as [cb name answer|p signal|q|q name|p answer|p]; cbn in He.
  - destruct (can_create answer w) eqn:Ec; [|done]. apply (inj Some) in He. by destruct (create_inv _ _ _ _ _ _ Hi Ec He).
  - case_bool_decide as Hb; [|done]. cbn in Hu. subst. by destruct (started_inv _ _ _ _ Hi Hb He).
  - unfold at_place in He. destruct (os w !! q) as [x|] eqn:Eq; [|done]. cbn in He.
    assert (at_ x ≠ Finished) as Hf by (intros E; by rewrite E in He).
    assert (run q w = (Crash f, w')) as Hrun by (destruct (at_ x); try done; by apply (inj Some)).
    destruct (thread_run_inv w q x _ w' Hi Eq Hf Hrun) as [[? _]|[[= ->] Ea]]; [done|]. right. split; [done|]. exists q. split; [done|].
    pose proof (i_os w Hi q x Eq) as Hp. unfold progress in Hp. rewrite Ea in Hp. destruct (given w !! q); [by destruct Hp as [-> _]|done].
  - unfold at_place in He. case_bool_decide as Ha; [|done]. destruct (os w !! q) as [x|] eqn:Eq; [|done]. apply (inj Some) in Ha, He.
    destruct (SetName_inv w q x name _ w' Hi Eq Ha He) as [[? _]|[[= ->] (p & Ht & Hn)]]; [done|]. left. split; [done|]. by exists q, name, x, p.
  - destruct (objs w !! p) as [th|] eqn:Ep; [|done]. cbn in He. case_bool_decide as Hb; [|done]. cbn in He.
    destruct (can_join answer th w); [|done]. apply (inj Some) in He. by destruct (join_inv _ _ _ _ _ Hi Hb He (ex_intro _ th Ep)).
  - case_bool_decide as Hb; [|done]. destruct Hb as [Hd%elem_of_dom Hb]. apply (inj Some) in He. by destruct (delete_inv _ _ _ _ Hi Hb Hd He).
Qed.

(** C38: when no signal disturbs a constructor while it waits, in every
    interleaving: an object whose constructor has returned has the number and
    the name of its thread, which knows the object and has taken the callback;
    no thread calls a callback twice, nor any but the one it was made
    for, and one that is past its start has called it; a constructor that
    waits is released by steps of the new thread alone; and the only events
    that end the program are a thread that names itself after its object was
    deleted, and the call of an empty function. *)
Theorem thread_handover w0 w : initial w0 → rtc calm_step w0 w →
  (∀ p th, objs w !! p = Some th → p ∉ building w → 0 < m_id th ∧ m_cb th = None ∧
     ∃ q x, os w !! q = Some x ∧ (m_thread th = q ∨ m_thread th = 0) ∧ t_thread x = Some p ∧ tid x = m_id th ∧ t_thread_name x = m_name th) ∧
  (NoDup (calls w).*1 ∧ (∀ q c, (q, c) ∈ calls w → given w !! q = Some (Some c)) ∧
   ∀ q x g, os w !! q = Some x → given w !! q = Some g → at_ x = Running ∨ at_ x = Finished → ∃ c, g = Some c ∧ (q, c) ∈ calls w) ∧
  (∀ p, p ∈ building w → ∃ q w1 w2, rtc (run_of q) w w1 ∧ occur (EvStarted p false) w1 = Some (Ret tt, w2) ∧ p ∉ building w2) ∧
  (∀ e f w', undisturbed e → occur e w = Some (Crash f, w') → f = dangling ∧ uses_deleted w e ∨ f = bad_call ∧ calls_empty w e).
Proof.
  intros H0 Hw. pose proof (calm_inv w0 w H0 Hw) as Hi. split_and!.
  - intros p th Ep Hb. destruct (i_obj w Hi p th Ep) as (_ & q & x & Eq & Hm & Hs). rewrite bool_decide_eq_false_2 in Hs by done.
    assert (told p th x) as [H1 H2 H3 H4] by (unfold stage in Hs; destruct (at_ x); naive_solver).
    assert (is_Some (given w !! q)) as Hg.
    { pose proof (i_os w Hi q x Eq) as Hp. unfold progress in Hp. destruct (given w !! q); [done|]. destruct (at_ x); try done; by rewrite H3 in Hp. }
    split_and!; [rewrite H1; by eapply (i_tid w Hi)|done|]. exists q, x. destruct Hm as [?|[? _]]; split_and!; auto.
  - apply (i_calls w Hi).
  - apply (i_given w Hi).
  - intros q x g Eq Eg Ha. pose proof (i_os w Hi q x Eq) as Hp. unfold progress in Hp. rewrite Eg in Hp. destruct Ha as [Ha|Ha]; by rewrite Ha in Hp.
  - intros p. by apply constructor_released.
  - intros e f w'. by apply calm_crash.
Qed.
End thread.

(** The world after [pthread_create]. *)
Definition created {S : SemLib} (w : @world S) (q t : Z) (cb : option nat) (name : bytes) (s : sem_t) : @world S :=
  mkWorld (<[next w := mkThread (-1) q cb (if bool_decide (name = []) then UNKNOW else name) s]> (objs w)) (Datatypes.S (next w))
          (<[q := new_os t (AtStart (next w))]> (os w)) ({[next w]} ∪ building w) (<[q := cb]> (given w)) (calls w).

Lemma create_occurs {S : SemLib} (w : @world S) q t cb name s : sem_init 0 = Some s → can_create (Some (q, t)) w = true →
  occur (EvCreate cb name (Some (q, t))) w = Some (Ret tt, created w q t cb name s).
Proof.
  intros Es Hcan. cbn [occur]. rewrite Hcan. unfold ran_out, new_Thread, new_Semaphore. change (u32 0) with 0. by rewrite Es.
Qed.

(** C39: the two ways to a deleted object.  A signal handled while the
    constructor waits makes [sem_wait] fail: the constructor throws, its
    object is freed, and the new thread, which it does not stop, uses the
    object.  And a thread whose object was deleted, as the destructor allows
    while it runs, uses the object when it names itself. *)
Theorem thread_pitfalls {S : SemLib} (w : @world S) q :
  (∀ t cb name c s, sem_init 0 = Some s → sem_wait true s = Some (c, s) → c ≠ 0 → can_create (Some (q, t)) w = true →
     ∃ w1 w2 w3, occur (EvCreate cb name (Some (q, t))) w = Some (Ret tt, w1) ∧
       occur (EvStarted (next w) true) w1 = Some (Throw logic_error, w2) ∧ occur (EvRun q) w2 = Some (Crash dangling, w3)) ∧
  (∀ x p name, os w !! q = Some x → at_ x = Running → t_thread x = Some p → is_Some (objs w !! p) → p ∉ building w → name ≠ [] →
     ∃ w1 w2, occur (EvDelete p) w = Some (Ret tt, w1) ∧ occur (EvSetName q name) w1 = Some (Crash dangling, w2)).
Proof.
  split.
  - intros t cb name c s Es Ew Hc Hcan. eexists _, _, _. split; [by apply create_occurs|]. split.
    + cbn. rewrite bool_decide_eq_true_2 by set_solver. unfold thread_started. cbn. rewrite lookup_insert_eq. cbn.
      unfold wait. rewrite Ew. cbn. rewrite (proj2 (Z.eqb_neq c 0) Hc). reflexivity.
    + cbn. unfold at_place. cbn. rewrite lookup_insert_eq. cbn. unfold run, os_at, mbind, stE_bind, query. cbn. rewrite lookup_insert_eq. cbn.
      unfold run_start, obj_at, mbind, stE_bind, query. cbn. rewrite lookup_delete_eq. reflexivity.
  - intros x p name Eq Ea Et [th Ep] Hb Hn. eexists _, _. split.
    + cbn. rewrite bool_decide_eq_true_2 by (split; [by eapply elem_of_dom_2|done]). unfold delete_Thread.
      rewrite (stE_bind_ret _ _ _ _ _ (obj_at_run _ _ _ Ep)). reflexivity.
    + cbn. unfold at_place. cbn. rewrite Eq. cbn. rewrite bool_decide_eq_true_2 by (by rewrite Ea). unfold SetName.
      rewrite bool_decide_eq_false_2 by done. unfold os_at, mbind, stE_bind, query. cbn. rewrite Eq. cbn. rewrite Et. unfold obj_at, query. cbn.
      rewrite lookup_delete_eq. reflexivity.
Qed.

(* ------------------------------------------------------------------ *)
(** ** Concrete semaphores *)

(** A semaphore is its value; a signal makes a wait fail that has to wait. *)
Module Count.
Definition sems : SemLib := {|
  sem_t := Z;
  sem_init v := Some v;
  sem_wait signal v := if 0 <? v then Some (0, v - 1) else if signal then Some (-1, v) else None;
  sem_post v := if v <? 2 ^ 31 - 1 then (0, v + 1) else (-1, v)
|}.
#[export] Instance laws : SemLaws sems.
Proof.
  refine {| sem_value := (λ v, v) : @sem_t sems → Z |}; cbn.
  - by intros v s [= ->].
  - intros b s c s'. destruct (Z.ltb_spec 0 s); [|destruct b]; intros [= <- <-]; [left|right]; lia.
  - intros s Hs. rewrite (proj2 (Z.ltb_lt 0 s) Hs). eauto.
  - intros s Hs. rewrite (proj2 (Z.ltb_lt _ _) Hs). eauto.
Defined.
End Count.

(** The main thread alone. *)
Definition main_world : @world Count.sems := mkWorld ∅ 0 {[1 := new_os 100 Running]} ∅ ∅ [].

Lemma main_initial : initial main_world.
Proof. split_and!; try done. by apply map_Forall_singleton. Qed.

Fixpoint events {S : SemLib} (es : list event) (w : world) : option world :=
  match es with [] => Some w | e :: es => r ← occur e w; match r.1 with Crash _ => None | _ => events es r.2 end end.

Lemma events_calm {S : SemLib} es (w w' : world) : Forall undisturbed es → events es w = Some w' → rtc calm_step w w'.
Proof.
  revert w. induction es as [|e es IH]; intros w; [by intros _ [= <-]|]. intros [Hu Hes]%Forall_cons. cbn.
  destruct (occur e w) as [[r w1]|] eqn:E; [|done]. cbn. destruct r; [..|done]; intros H; (eapply rtc_l; [eexists e, _; by split_and!|by apply IH]).
Qed.

(** Two threads: the first is in its callback; the second has started, but
    its constructor still waits. *)
Definition two_threads : list event :=
  [EvCreate (Some 7%nat) (B "io") (Some (2, 101)); EvRun 2; EvCreate (Some 8%nat) [] (Some (3, 102)); EvRun 2; EvStarted 0 false; EvRun 3; EvRun 2].

Definition after_two : world := default main_world (events two_threads main_world).

Lemma events_default {S : SemLib} es (w : world) : bool_decide (is_Some (events es w)) = true → events es w = Some (default w (events es w)).
Proof. intros H%bool_decide_eq_true. by destruct (events es w), H. Qed.

Lemma after_two_events : events two_threads main_world = Some after_two.
Proof. apply events_default. vm_compute. reflexivity. Qed.

Lemma thread_handover_witness : rtc calm_step main_world after_two ∧ calls after_two = [(2, 7%nat)] ∧
  (∀ th, objs after_two !! 0%nat = Some th → 0 < m_id th ∧ m_cb th = None) ∧
  ∃ q w1 w2, rtc (run_of q) after_two w1 ∧ occur (EvStarted 1 false) w1 = Some (Ret tt, w2) ∧ (1%nat ∉ building w2).
Proof.
  assert (rtc calm_step main_world after_two) as Hw by (eapply events_calm; [|exact after_two_events]; repeat constructor).
  destruct (thread_handover (SL := Count.laws) main_world after_two main_initial Hw) as (H1 & _ & H3 & _).
  split; [exact Hw|]. split; [vm_compute; reflexivity|]. split.
  - intros th E. destruct (H1 0%nat th E) as (? & ? & _); [apply (bool_decide_unpack _); vm_compute; exact I|by split].
  - apply (H3 1%nat). apply (bool_decide_unpack _). vm_compute. exact I.
Defined.

Definition io_running : list event := [EvCreate (Some 7%nat) (B "io") (Some (2, 101)); EvRun 2; EvRun 2; EvStarted 0 false; EvRun 2].
Definition after_io : world := default main_world (events io_running main_world).

Lemma after_io_view : (at_ <$> os after_io !! 2) = Some Running ∧ (os after_io !! 2 ≫= t_thread) = Some 0%nat ∧
  bool_decide (is_Some (objs after_io !! 0%nat) ∧ 0%nat ∉ building after_io) = true.
Proof. vm_compute. by split_and!. Qed.

Lemma thread_pitfalls_witness :
  (∃ w1 w2 w3, occur (EvCreate None (B "io") (Some (2, 101))) main_world = Some (Ret tt, w1) ∧
     occur (EvStarted 0 true) w1 = Some (Throw logic_error, w2) ∧ occur (EvRun 2) w2 = Some (Crash dangling, w3)) ∧
  ∃ w1 w2, occur (EvDelete 0) after_io = Some (Ret tt, w1) ∧ occur (EvSetName 2 (B "x")) w1 = Some (Crash dangling, w2).
Proof.
  split.
  - apply (proj1 (thread_pitfalls main_world 2) 101 None (B "io") (-1) 0); [reflexivity|reflexivity|lia|vm_compute; reflexivity].
  - destruct after_io_view as (Ha & Ht & [Ho Hb]%bool_decide_eq_true).
    destruct (os after_io !! 2) as [x|] eqn:E; [|discriminate Ha]. injection Ha as Ha. cbn [mbind option_bind] in Ht.
    exact (proj2 (thread_pitfalls after_io 2) x 0%nat (B "x") E Ha Ht Ho Hb ltac:(discriminate)).
Defined.
