(* ===== verification/System.v ===== *)
(** * What [util.cpp] takes from the system

    Clocks, names of threads, times as text, and the symbols of a backtrace.
    The system's part is an argument: what the clock shows, the symbols
    [backtrace_symbols] gives, the name [__cxa_demangle] finds; [strftime]
    works on the local time. *)
From S2P Require Import Prelude StdString.

Local Open Scope Z_scope.

(** A reading of a clock: seconds, and nano- or microseconds. *)
(* sylar/util.cpp:34-38, GetElapsedMS *)
Definition GetElapsedMS (tv_sec tv_nsec : Z) : Z := u64 (i64 (tv_sec * 1000) + tv_nsec ÷ 1000000).
(* sylar/util.cpp:97-101, GetCurrentMS *)
Definition GetCurrentMS (tv_sec tv_usec : Z) : Z := u64 (u64 (tv_sec * 1000) + tv_usec ÷ 1000).
(* sylar/util.cpp:103-107, GetCurrentUS *)
Definition GetCurrentUS (tv_sec tv_usec : Z) : Z := u64 (u64 (i64 (tv_sec * 1000) * 1000) + tv_usec).

(** The name the kernel keeps for the calling thread. *)
(* sylar/util.cpp:46-48, SetThreadName *)
Definition SetThreadName (name : bytes) : stE bytes unit := modify (λ _, c_str (take 15 name)).
(* sylar/util.cpp:40-44, GetThreadName *)
Definition GetThreadName : stE bytes bytes := k ← get; mret (c_str (take 16 (k ++ [zero]))).

Section time.
Context (strftime : bytes → Z → bytes) (strptime : bytes → bytes → option Z).

(** A text that does not fit leaves the buffer as it was: uninitialised. *)
(* sylar/util.cpp:121-127, Time2Str *)
Definition Time2Str (ts : Z) (format : bytes) : outcome bytes :=
  let text := strftime (c_str format) ts in
  if (length text <? 64)%nat then Ret (c_str text) else Crash out_of_bounds.

(** [strptime] with [mktime]. *)
(* sylar/util.cpp:129-136, Str2Time *)
Definition Str2Time (str format : bytes) : Z := default 0 (strptime (c_str str) (c_str format)).
End time.

(* ------------------------------------------------------------------ *)
(** ** Symbols *)

(** One directive [[^...]] of [sscanf]: the longest part without the
    characters, which is not empty, at most [width] long; and the rest. *)
Fixpoint span_not (stop : bytes) (width : nat) (s : bytes) : bytes * bytes :=
  match width, s with
  | S w, c :: r => if bool_decide (c ∈ stop) then ([], s) else let x := span_not stop w r in (c :: x.1, x.2)
  | _, _ => ([], s)
  end.
Definition scan_not (stop : bytes) (width : nat) (s : bytes) : option (bytes * bytes) :=
  match span_not stop width s with ([], _) => None | x => Some x end.

(* sylar/util.cpp:55-55, demangle *)
Definition scan_symbol_in (width : nat) (str : bytes) : option bytes :=
  x ← scan_not (B "(") (length str) str;
  y ← scan_not (B "_") (length str) x.2;
  z ← scan_not (B ")+") width y.2;
  Some z.1.
Definition scan_symbol : bytes → option bytes := scan_symbol_in 255.

(** [%255s]: spaces, then what comes before the next space. *)
Fixpoint span_word (width : nat) (s : bytes) : bytes :=
  match width, s with S w, c :: r => if isspace c then [] else c :: span_word w r | _, _ => [] end.
(* sylar/util.cpp:63-63, demangle *)
Definition scan_word (str : bytes) : option bytes := match span_word 255 (drop_while isspace str) with [] => None | w => Some w end.

Section backtrace.
Context (cxa_demangle : bytes → option bytes).

(** What [sscanf] stores into the buffer ends with a NUL; the string keeps
    all its 256 bytes. *)
(* sylar/util.cpp:50-67, demangle *)
Definition demangle (str : bytes) : bytes :=
  let rt := replicate 256 zero in
  let '(found, rt) :=
    match scan_symbol str with
    | Some t => (cxa_demangle t, splice 0 (t ++ [zero]) rt)
    | None => (None, rt)
    end in
  match found with
  | Some v => v
  | None => match scan_word str with Some w => splice 0 (w ++ [zero]) rt | None => str end
  end.

(** [symbols]: of the frames, innermost first, [size] at most; none when
    there is no memory.  [skip] is converted to an unsigned number. *)
(* sylar/util.cpp:69-85, Backtrace *)
Definition Backtrace (bt : list bytes) (symbols : option (list bytes)) (skip : Z) : list bytes :=
  match symbols with
  | None => bt
  | Some strings => if u64 skip <? Z.of_nat (length strings) then bt ++ (demangle <$> drop (Z.to_nat (u64 skip)) strings) else bt
  end.

(* sylar/util.cpp:87-95, BacktraceToString *)
Definition BacktraceToString (symbols : option (list bytes)) (skip : Z) (prefix : bytes) : bytes :=
  Backtrace [] symbols skip ≫= λ b, prefix ++ b ++ [char_of 10].
End backtrace.

(* ------------------------------------------------------------------ *)
(** ** What is read of a symbol *)

Lemma span_not_app stop w s r : Forall (λ c, c ∉ stop) s → (length s < w)%nat → (∃ c r', r = c :: r' ∧ c ∈ stop) →
  span_not stop w (s ++ r) = (s, r).
Proof.
  intros Hs Hw (c & r' & -> & Hc). revert w Hw. induction Hs as [|d s Hd Hs IH]; intros [|w] Hw; cbn in *; try lia.
  - by rewrite bool_decide_eq_true_2 by done.
  - rewrite bool_decide_eq_false_2 by done. rewrite IH by lia. done.
Qed.
Lemma scan_not_app stop w s r : Forall (λ c, c ∉ stop) s → s ≠ [] → (length s < w)%nat → (∃ c r', r = c :: r' ∧ c ∈ stop) →
  scan_not stop w (s ++ r) = Some (s, r).
Proof. intros. unfold scan_not. rewrite span_not_app by done. by destruct s. Qed.

Lemma span_word_length w s : (length (span_word w s) ≤ w)%nat.
Proof. revert w. induction s as [|c s IH]; intros [|w]; cbn; try lia. destruct (isspace c); cbn; [lia|]. specialize (IH w). lia. Qed.
Lemma scan_word_length s w : scan_word s = Some w → (length w ≤ 255)%nat.
Proof. unfold scan_word. pose proof (span_word_length 255 (drop_while isspace s)). destruct (span_word _ _); [done|]. by intros [= <-]. Qed.

Lemma span_not_length stop w s : (length (span_not stop w s).1 ≤ w)%nat.
Proof. revert w. induction s as [|c s IH]; intros [|w]; cbn; try lia. case_bool_decide; cbn; [lia|]. specialize (IH w). lia. Qed.
Lemma scan_not_length stop w s x : scan_not stop w s = Some x → (length x.1 ≤ w)%nat.
Proof. unfold scan_not. pose proof (span_not_length stop w s). destruct (span_not stop w s) as [[|c l] r]; [done|]. by intros [= <-]. Qed.
Lemma scan_symbol_length w s t : scan_symbol_in w s = Some t → (length t ≤ w)%nat.
Proof.
  unfold scan_symbol_in. intros H. apply bind_Some in H as (x & _ & H). apply bind_Some in H as (y & _ & H). apply bind_Some in H as (z & Ez & H).
  apply (inj Some) in H as <-. by apply scan_not_length in Ez.
Qed.

Lemma scan_symbol_name w binary name c rest : binary ≠ [] → Forall (λ c, c ∉ B "(") binary → (S (length name) < w)%nat →
  Forall (λ c, c ∉ B ")+") name → c ∈ B ")+" →
  scan_symbol_in w (binary ++ B "(" ++ B "_" ++ name ++ c :: rest) = Some (B "_" ++ name).
Proof.
  intros Hne Hb Hlen Hn Hc. unfold scan_symbol_in. rewrite scan_not_app; [|done|done|rewrite length_app; cbn; lia|eexists _, _; split; [done|by left]].
  cbn [mbind option_bind snd]. rewrite scan_not_app;
    [|repeat constructor; by apply (bool_decide_unpack _)|done|rewrite !length_app; cbn; lia|eexists _, _; split; [done|by left]].
  cbn [mbind option_bind snd]. rewrite (app_assoc (B "_")).
  rewrite scan_not_app; [done|apply Forall_app; split; [repeat constructor; by apply (bool_decide_unpack _)|done]|done|rewrite length_app; cbn; lia|by eexists _, _].
Qed.

(** What a word leaves of the buffer. *)
Lemma word_in_buffer n w (rt : bytes) : length rt = n → (length w < n)%nat →
  length (splice 0 (w ++ [zero]) rt) = n ∧ take (S (length w)) (splice 0 (w ++ [zero]) rt) = w ++ [zero].
Proof.
  intros Hrt Hl. assert (length (w ++ [zero]) = S (length w)) as Hw1 by (rewrite length_app; cbn; lia).
  rewrite length_splice by lia. split; [done|]. unfold splice. rewrite take_0. cbn [app]. by apply take_app_length'.
Qed.

(** The name in a line of a backtrace.  From
    [binary(_mangled+0x1f) [0x55]] exactly the mangled name reaches
    [__cxa_demangle], and the answer is what it gives.  Any other line of at
    least one word gives a string of 256 bytes, whatever it was: the word,
    and NUL bytes or what an earlier attempt left. *)
Theorem demangle_name (cxa_demangle : bytes → option bytes) :
  (∀ binary name c rest v, binary ≠ [] → Forall (λ c, c ∉ B "(") binary → (length name < 254)%nat → Forall (λ c, c ∉ B ")+") name →
     c ∈ B ")+" → cxa_demangle (B "_" ++ name) = Some v →
     demangle cxa_demangle (binary ++ B "(" ++ B "_" ++ name ++ c :: rest) = v) ∧
  (∀ str w, scan_word str = Some w → (scan_symbol str ≫= cxa_demangle) = None →
     length (demangle cxa_demangle str) = 256%nat ∧ take (S (length w)) (demangle cxa_demangle str) = w ++ [zero]).
Proof.
  unfold demangle. split.
  - intros binary name c rest v Hne Hb Hlen Hn Hc Hv. unfold scan_symbol. rewrite scan_symbol_name by (done || lia). by rewrite Hv.
  - intros str w Hw Hs. pose proof (scan_word_length _ _ Hw) as Hl. rewrite Hw.
    destruct (scan_symbol str) as [t|] eqn:Et.
    + cbn [mbind option_bind] in Hs. rewrite Hs. apply scan_symbol_length in Et.
      apply word_in_buffer; [apply word_in_buffer; [apply length_replicate|]|]; lia.
    + apply word_in_buffer; [apply length_replicate|lia].
Qed.

(** The demangler that knows one name. *)
Definition knows_foo (t : bytes) : option bytes := if bool_decide (t = B "_Z3foov") then Some (B "foo()") else None.

Lemma demangle_name_witness :
  demangle knows_foo (B "./a.out" ++ B "(" ++ B "_Z3foov" ++ B "+0x1f) [0x55]") = B "foo()" ∧
  length (demangle knows_foo (B "./a.out() [0x401136]")) = 256%nat.
Proof.
  destruct (demangle_name knows_foo) as [H1 H2]. split.
  - apply (H1 (B "./a.out") (B "Z3foov") "+"%char (B "0x1f) [0x55]") (B "foo()")); try done; [|cbn; lia| |right; by left].
    all: apply (bool_decide_unpack _); vm_compute; exact I.
  - apply (H2 (B "./a.out() [0x401136]") (B "./a.out()")); reflexivity.
Defined.
