(* ===== verification/Daemon.v ===== *)
(** * Starting as a daemon ([daemon.h], [daemon.cc])

    The supervisor forks the program, waits for it and forks it again until it
    ends with status 0.  What the system answers at each turn is a list; a
    process that is still waiting when the list ends has no result yet.  What
    is logged is left out. *)
From S2P Require Import Prelude StdString System.

Local Open Scope Z_scope.

(* sylar/daemon.h:15-26, ProcessInfo *)
Record ProcessInfo := mkProcessInfo {
  parent_id : Z;
  main_id : Z;
  parent_start_time : Z;
  main_start_time : Z;
  restart_count : Z
}.
Definition new_ProcessInfo : ProcessInfo := mkProcessInfo 0 0 0 0 0.

(* sylar/daemon.cc:22-31, ProcessInfo::toString *)
Definition toString (strftime : bytes → Z → bytes) (p : ProcessInfo) : outcome bytes :=
  let Time2Str ts := Time2Str strftime (i64 ts) (B "%Y-%m-%d %H:%M:%S") in
  a ← Time2Str (parent_start_time p);
  b ← Time2Str (main_start_time p);
  Ret (B "[ProcessInfo parent_id=" ++ to_string (parent_id p) ++ B " main_id=" ++ to_string (main_id p)
       ++ B " parent_start_time=" ++ a ++ B " main_start_time=" ++ b ++ B " restart_count=" ++ to_string (restart_count p) ++ B "]").

(** One turn, as this process sees it: it is the child, with its number and
    the time; or [fork] failed; or it is the parent, with what [waitpid]
    leaves in [status] - 0 when it fails - and the interval the configuration
    has when the child has ended. *)
Inductive turn :=
  | InChild (pid now : Z)
  | ForkFailed
  | InParent (status interval : Z).

(** How a process ends: what [start_daemon] returns and what it has slept. *)
Record ended := mkEnded { info : ProcessInfo; slept : list Z; result : outcome Z }.

Section daemon.
Context (main_cb : ProcessInfo → outcome Z).

(* sylar/daemon.cc:33-36, real_start *)
Definition real_start (p : ProcessInfo) : outcome Z := main_cb p.

(* sylar/daemon.cc:43-70, real_daemon *)
Fixpoint supervise (p : ProcessInfo) (slept : list Z) (turns : list turn) : option ended :=
  match turns with
  | [] => None
  | InChild pid now :: _ =>
      let p := mkProcessInfo (parent_id p) pid (parent_start_time p) (u64 now) (restart_count p) in
      Some (mkEnded p slept (real_start p))
  | ForkFailed :: _ => Some (mkEnded p slept (Ret (-1)))
  | InParent status interval :: turns =>
      if status =? 0 then Some (mkEnded p slept (Ret 0))
      else
        let p := mkProcessInfo (parent_id p) (main_id p) (parent_start_time p) (main_start_time p) (u32 (restart_count p + 1)) in
        supervise p (slept ++ [u32 interval]) turns
  end.

(** The result of [daemon] is not looked at. *)
(* sylar/daemon.cc:38-72, real_daemon *)
Definition real_daemon (pid now : Z) (turns : list turn) (p : ProcessInfo) : option ended :=
  supervise (mkProcessInfo pid (main_id p) (u64 now) (main_start_time p) (restart_count p)) [] turns.

(* sylar/daemon.cc:74-81, start_daemon *)
Definition start_daemon (is_daemon : bool) (pid now : Z) (turns : list turn) (p : ProcessInfo) : option ended :=
  if negb is_daemon then Some (mkEnded p [] (real_start p)) else real_daemon pid now turns p.

(** Turns in which a child ended with another status than 0. *)
Definition failures (l : list (Z * Z)) : list turn := (λ x, InParent x.1 x.2) <$> l.
Definition restarted (p : ProcessInfo) (n : nat) : ProcessInfo :=
  mkProcessInfo (parent_id p) (main_id p) (parent_start_time p) (main_start_time p) (u32 (restart_count p + Z.of_nat n)).

Lemma restarted_0 p : in_u 32 (restart_count p) → restarted p 0 = p.
Proof. intros H. destruct p. unfold restarted. cbn in *. rewrite Z.add_0_r. by rewrite wrapu_small. Qed.

Lemma restarted_S p n : restarted (restarted p 1) n = restarted p (S n).
Proof.
  destruct p as [a b c d e]. unfold restarted. cbn. f_equal. unfold wrapu. rewrite Zplus_mod_idemp_l. f_equal. lia.
Qed.

Lemma supervise_failures p sl l turns : Forall (λ x, x.1 ≠ 0) l → in_u 32 (restart_count p) →
  supervise p sl (failures l ++ turns) = supervise (restarted p (length l)) (sl ++ ((λ x, u32 x.2) <$> l)) turns.
Proof.
  intros Hl. revert p sl. induction Hl as [|[st iv] l Hst Hl IH]; intros p sl Hp; cbn.
  - by rewrite restarted_0, app_nil_r.
  - cbn in Hst. rewrite (proj2 (Z.eqb_neq st 0) Hst). rewrite IH by (cbn; by apply wrapu_range). cbn. rewrite <- app_assoc. cbn. f_equal.
    change (restarted (restarted p 1) (length l) = restarted p (S (length l))). apply restarted_S.
Qed.

(** The supervisor.  After any number of children that ended with another
    status than 0, the parent has counted them, modulo 2^32, and slept for
    the interval of the configuration after each; it returns 0 when a
    child ends with 0 and -1 when it cannot fork, and until then it goes
    on.  A child returns what the main function gives, and sees the count. *)
Theorem daemon_supervises pid now p l turns : Forall (λ x, x.1 ≠ 0) l → in_u 32 (restart_count p) →
  let q := restarted (mkProcessInfo pid (main_id p) (u64 now) (main_start_time p) (restart_count p)) (length l) in
  let run := λ end_, start_daemon true pid now (failures l ++ end_) p in
  let slept := (λ x, u32 x.2) <$> l in
  run [] = None ∧
  (∀ interval, run (InParent 0 interval :: turns) = Some (mkEnded q slept (Ret 0))) ∧
  run (ForkFailed :: turns) = Some (mkEnded q slept (Ret (-1))) ∧
  (∀ child t, run (InChild child t :: turns) =
     let c := mkProcessInfo pid child (u64 now) (u64 t) (restart_count q) in Some (mkEnded c slept (main_cb c))).
Proof.
  intros Hl Hp q run slept. unfold run, start_daemon, real_daemon. cbn [negb].
  split_and!; intros; by rewrite supervise_failures.
Qed.
End daemon.

Lemma daemon_supervises_witness :
  start_daemon (λ c, Ret (restart_count c)) true 10 1000 [InParent 256 5; InParent 11 5; InChild 13 1010] new_ProcessInfo
  = Some (mkEnded (mkProcessInfo 10 13 1000 1010 2) [5; 5] (Ret 2)).
Proof.
  apply (daemon_supervises (λ c, Ret (restart_count c)) 10 1000 new_ProcessInfo [(256, 5); (11, 5)] []); [by repeat constructor|done].
Defined.
