(* ===== verification/Settings.v ===== *)
(** * Settings that follow the configuration ([hook.cc], [http/http_parser.cc])

    Static numbers that are set from a configuration variable when the program
    starts and by a listener whenever the variable changes.  The statics are
    what the recorded calls of the listener leave in them. *)
From S2P Require Import Prelude StdString OrderedSet OrderedMap Yaml LexicalCast LexicalCastTheorems Config ConfigTheorems.
From stdpp Require Import gmap.

Local Open Scope Z_scope.

(** A number converted to [uint64_t]. *)
Definition as_u64 (v : value) : Z := match v with VNum z => u64 z | _ => 0 end.

(** What a listener that copies the new value makes of a static. *)
(* sylar/hook.cc:58-62, _HookIniter *)
Definition cached (cb : nat) (start : Z) (calls : list (nat * value * value)) : Z :=
  fold_left (λ s c, if (c.1.1 =? cb)%nat then as_u64 c.2 else s) calls start.
#[global] Arguments cached : simpl never.

(* sylar/hook.cc:14-15, g_tcp_connect_timeout *)
Definition g_tcp_connect_timeout : stE config (option nat) :=
  Lookup_default (TNum true 32) (B "tcp.connect.timeout") (VNum 5000) (B "tcp connect timeout").

(* sylar/hook.cc:53-64, _HookIniter *)
Definition init_connect_timeout (g cb : nat) : stE config Z :=
  v ← getValue g;
  _ ← addListener g cb;
  mret (as_u64 v).

(* sylar/http/http_parser.cc:16-26, g_http_request_buffer_size *)
Definition http_sizes : list (bytes * Z * bytes) :=
  [(B "http.request.buffer_size", 4 * 1024, B "http request buffer size");
   (B "http.request.max_body_size", 64 * 1024 * 1024, B "http request max body size");
   (B "http.response.buffer_size", 4 * 1024, B "http response buffer size");
   (B "http.response.max_body_size", 64 * 1024 * 1024, B "http response max body size")].
Definition register_size (x : bytes * Z * bytes) : stE config (option nat) :=
  Lookup_default (TNum false 64) x.1.1 (VNum x.1.2) x.2.

(* sylar/http/http_parser.cc:28-31, s_http_request_buffer_size *)
Record sizes := mkSizes {
  s_http_request_buffer_size : Z;
  s_http_request_max_body_size : Z;
  s_http_response_buffer_size : Z;
  s_http_response_max_body_size : Z
}.

(* sylar/http/http_parser.cc:51-76, _RequestSizeIniter *)
Definition init_sizes (g1 g2 g3 g4 cb1 cb2 cb3 cb4 : nat) : stE config sizes :=
  v1 ← getValue g1; v2 ← getValue g2; v3 ← getValue g3; v4 ← getValue g4;
  _ ← addListener g1 cb1; _ ← addListener g2 cb2; _ ← addListener g3 cb3; _ ← addListener g4 cb4;
  mret (mkSizes (as_u64 v1) (as_u64 v2) (as_u64 v3) (as_u64 v4)).

(** The statics after the calls made since. *)
(* sylar/http/http_parser.cc:57-75, _RequestSizeIniter *)
Definition sizes_after (cb1 cb2 cb3 cb4 : nat) (z : sizes) (calls : list (nat * value * value)) : sizes :=
  mkSizes (cached cb1 (s_http_request_buffer_size z) calls) (cached cb2 (s_http_request_max_body_size z) calls)
          (cached cb3 (s_http_response_buffer_size z) calls) (cached cb4 (s_http_response_max_body_size z) calls).

(* sylar/http/http_parser.cc:33-35, HttpRequestParser::GetHttpRequestBufferSize *)
Definition GetHttpRequestBufferSize (z : sizes) : Z := s_http_request_buffer_size z.
(* sylar/http/http_parser.cc:37-39, HttpRequestParser::GetHttpRequestMaxBodySize *)
Definition GetHttpRequestMaxBodySize (z : sizes) : Z := s_http_request_max_body_size z.
(* sylar/http/http_parser.cc:41-43, HttpResponseParser::GetHttpResponseBufferSize *)
Definition GetHttpResponseBufferSize (z : sizes) : Z := s_http_response_buffer_size z.
(* sylar/http/http_parser.cc:45-47, HttpResponseParser::GetHttpResponseMaxBodySize *)
Definition GetHttpResponseMaxBodySize (z : sizes) : Z := s_http_response_max_body_size z.

(* ------------------------------------------------------------------ *)
(** ** A static follows its variable *)

Section follow.
Context {Y : Yaml}.
Context (num_of : bool → Z → bytes → outcome Z) (rehash : ∀ A, list A → list A).
Context (listener : nat → value → value → outcome unit).

(** The ways a value changes: by the program, by a text, by a document. *)
Inductive change := ByValue (p : nat) (v : value) | ByText (p : nat) (text : bytes) | ByDocument (fuel : nat) (root : Node).

Definition run_change (c : change) (s : config) : config :=
  match c with
  | ByValue p v => (setValue listener p v s).2
  | ByText p text => (fromString num_of rehash listener p text s).2
  | ByDocument fuel root => (LoadFromYaml num_of rehash listener fuel root s).2
  end.

Context (p cb : nat) (start : Z).
Context (silent : ∀ v w, listener cb v w = Ret tt).

(** The only listener of the variable is the one that copies, and it
    listens to no other. *)
Record follows (s : config) : Prop := {
  f_var : ∃ x id, vars s !! p = Some x ∧ m_cbs x = [(id, cb)] ∧ cached cb start (calls s) = as_u64 (m_val x);
  f_other : ∀ q y, q ≠ p → vars s !! q = Some y → cb ∉ (m_cbs y).*2
}.

Definition keeps_following {A} (m : stE config A) : Prop := ∀ s, follows s → follows (m s).2.

Lemma following_bind {A C} (m : stE config A) (f : A → stE config C) :
  keeps_following m → (∀ a, keeps_following (f a)) → keeps_following (m ≫= f).
Proof. intros Hm Hf s Hs. specialize (Hm s Hs). unfold mbind, stE_bind. destruct (m s) as [[a|e|x] s']; cbn in *; [by apply Hf|done..]. Qed.
Lemma following_query {A} (f : config → outcome A) : keeps_following (query f).
Proof. by intros s Hs. Qed.
Lemma following_ret {A} (a : A) : keeps_following (mret a).
Proof. by intros s Hs. Qed.
Lemma following_catching {A} (a : A) (m : stE config A) : keeps_following m → keeps_following (catching a m).
Proof. intros Hm s Hs. specialize (Hm s Hs). unfold catching. by destruct (m s) as [[?|?|?] ?]. Qed.

Lemma cached_app start' l k : cached cb start' (l ++ k) = cached cb (cached cb start' l) k.
Proof. apply fold_left_app. Qed.
Lemma cached_others start' l : (∀ c, c ∈ l → c.1.1 ≠ cb) → cached cb start' l = start'.
Proof.
  revert start'. induction l as [|c l IH]; intros start' Hl; [done|]. unfold cached. cbn. rewrite (proj2 (Nat.eqb_neq _ _)) by (apply Hl; by left).
  apply IH. intros d Hd. apply Hl. by right.
Qed.

Lemma notify_names cbs v w s : ∃ l, (notify listener cbs v w s).2 = set_calls (λ k, k ++ l) s ∧ ∀ c, c ∈ l → c.1.1 ∈ cbs.*2.
Proof.
  revert s. induction cbs as [|i cbs IH]; intros s; cbn.
  - exists []. split; [|set_solver]. unfold set_calls. rewrite app_nil_r. by destruct s.
  - rewrite modify_bind. unfold query, mbind, stE_bind. destruct (listener i.2 v w); cbn.
    + destruct (IH (set_calls (λ l, l ++ [(i.2, v, w)]) s)) as (l & -> & Hl). exists ((i.2, v, w) :: l).
      split; [unfold set_calls; cbn; by rewrite <- app_assoc|]. set_solver.
    + exists [(i.2, v, w)]. split; [done|]. set_solver.
    + exists [(i.2, v, w)]. split; [done|]. set_solver.
Qed.

Lemma setValue_follows q v : keeps_following (setValue listener q v).
Proof.
  intros s Hs. destruct (f_var s Hs) as (x & id & Ex & Ec & Ev). rewrite setValue_eq.
  destruct (vars s !! q) as [y|] eqn:Ey; [|unfold mbind, stE_bind, var_at, query; by rewrite Ey].
  rewrite (stE_bind_ret _ _ _ _ _ (var_at_ret _ _ _ Ey)). destruct (value_eq (m_type y) v (m_val y)); [done|].
  destruct (decide (q = p)) as [->|Hne].
  - rewrite Ex in Ey. injection Ey as <-. rewrite Ec. cbn [notify].
    rewrite (stE_bind_ret _ _ s tt (set_calls (λ l, l ++ [(cb, m_val x, v)]) s)) by (rewrite modify_bind; unfold query, mbind, stE_bind; cbn; by rewrite silent).
    unfold put_var, modify. cbn. split; cbn.
    + exists (with_val v x), id. rewrite lookup_insert_eq. split_and!; [done..|].
      rewrite cached_app. unfold cached at 1. cbn. by rewrite Nat.eqb_refl.
    + intros u z Hu. rewrite lookup_insert_ne by done. by apply (f_other s Hs).
  - destruct (notify_names (m_cbs y) (m_val y) v s) as (l & El & Hl). pose proof (f_other s Hs q y Hne Ey) as Hcb.
    assert (follows (set_calls (λ k, k ++ l) s)) as Hs1.
    { split; cbn; [|apply (f_other s Hs)]. exists x, id. split_and!; [done..|]. rewrite cached_app, cached_others; [done|].
      intros c Hc E. apply Hl in Hc. by rewrite E in Hc. }
    unfold mbind, stE_bind. destruct (notify listener (m_cbs y) (m_val y) v s) as [[[]|e|f] s1]; cbn in El; subst s1; [|exact Hs1..].
    destruct Hs1 as [Hv Ho]. cbn in Hv, Ho. split; cbn.
    + by rewrite lookup_insert_ne.
    + intros u z Hu. rewrite lookup_insert_Some. intros [[<- <-]|[_ Ez]]; [exact Hcb|by apply (Ho u)].
Qed.

Lemma fromString_follows q text : keeps_following (fromString num_of rehash listener q text).
Proof.
  apply following_bind; [|intros; apply following_ret]. apply following_catching. apply following_bind; [apply following_query|]. intros y.
  apply following_bind; [apply following_query|]. intros v. apply setValue_follows.
Qed.

Lemma load_members_follows l : keeps_following (load_members num_of rehash listener l).
Proof.
  induction l as [|i l IH]; [apply following_ret|]. cbn [load_members]. apply following_bind; [|done].
  destruct i.1; [apply following_ret|]. apply following_bind; [by intros s Hs|]. intros [q|]; [|apply following_ret].
  apply following_bind; [apply fromString_follows|intros; apply following_ret].
Qed.

Lemma run_change_follows c s : follows s → follows (run_change c s).
Proof.
  destruct c as [q v|q text|fuel root]; intros Hs; cbn; [by apply setValue_follows|by apply fromString_follows|].
  revert s Hs. apply following_bind; [apply following_query|]. intros l. apply load_members_follows.
Qed.

(** ** Assignments by several threads *)

(** A thread in [setValue]: before the first region; in it, with the
    listeners it still has to call, holding the read lock; between the
    regions; done. *)
Inductive setter :=
  | Asking (q : nat) (v : value)
  | Telling (q : nat) (v old_value : value) (cbs : list (Z * nat))
  | Storing (q : nat) (v : value)
  | Finished.

Definition reads_lock (q : nat) (a : setter) : Prop := match a with Telling q' _ _ _ => q' = q | _ => False end.
(** Between the comparison and the store. *)
Definition pending (q : nat) (a : setter) : Prop :=
  match a with Telling q' _ _ _ | Storing q' _ => q' = q | _ => False end.

(** A step of one of the threads; the store needs the write lock.  A listener
    that throws ends the call. *)
(* sylar/config.h:392-404, ConfigVar::setValue *)
Inductive set_step : config * list setter → config * list setter → Prop :=
  | set_starts s l q v : set_step (s, l) (s, l ++ [Asking q v])
  | set_equal s l i q v x : l !! i = Some (Asking q v) → vars s !! q = Some x → value_eq (m_type x) v (m_val x) = true →
      set_step (s, l) (s, <[i := Finished]> l)
  | set_differs s l i q v x : l !! i = Some (Asking q v) → vars s !! q = Some x → value_eq (m_type x) v (m_val x) = false →
      set_step (s, l) (s, <[i := Telling q v (m_val x) (m_cbs x)]> l)
  | set_tells s l i q v o c r : l !! i = Some (Telling q v o (c :: r)) → listener c.2 o v = Ret tt →
      set_step (s, l) (set_calls (λ k, k ++ [(c.2, o, v)]) s, <[i := Telling q v o r]> l)
  | set_throws s l i q v o c r e : l !! i = Some (Telling q v o (c :: r)) → listener c.2 o v = Throw e →
      set_step (s, l) (set_calls (λ k, k ++ [(c.2, o, v)]) s, <[i := Finished]> l)
  | set_told s l i q v o : l !! i = Some (Telling q v o []) → set_step (s, l) (s, <[i := Storing q v]> l)
  | set_stores s l i q v x : l !! i = Some (Storing q v) → vars s !! q = Some x →
      (∀ j a, l !! j = Some a → ¬ reads_lock q a) →
      set_step (s, l) (set_vars <[q := with_val v x]> s, <[i := Finished]> l).

(** Runs in which nobody compares [p] while an assignment to [p] is pending. *)
Definition orderly (c : config * list setter) (c' : config * list setter) : Prop :=
  set_step c c' ∧ ∀ i v o r, c'.2 !! i = Some (Telling p v o r) → c.2 !! i = Some (Asking p v) →
    ∀ j a, c.2 !! j = Some a → ¬ pending p a.

(** One thread alone does what [setValue] does. *)
Lemma notify_alone q v o cbs s r s' : notify listener cbs o v s = (r, s') → (∀ f, r ≠ Crash f) →
  rtc set_step (s, [Telling q v o cbs]) (s', [match r with Ret _ => Storing q v | _ => Finished end]).
Proof.
  revert s. induction cbs as [|c cbs IH]; intros s; cbn [notify].
  { intros [= <- <-] _. apply rtc_once. by apply (set_told s [Telling q v o []] 0 q v o). }
  rewrite modify_bind. unfold query, mbind, stE_bind. destruct (listener c.2 o v) as [[]|e|f] eqn:Ec.
  - intros H Hr. eapply rtc_l; [by apply (set_tells s [Telling q v o (c :: cbs)] 0 q v o c cbs)|]. by apply IH.
  - intros [= <- <-] _. apply rtc_once. by apply (set_throws s [Telling q v o (c :: cbs)] 0 q v o c cbs e).
  - intros [= <- <-] Hr. by destruct (Hr f).
Qed.

Lemma set_alone q v s r s' : setValue listener q v s = (r, s') → (∀ f, r ≠ Crash f) →
  rtc set_step (s, [Asking q v]) (s', [Finished]).
Proof.
  unfold setValue, setValue_notify, mbind, stE_bind, var_at, query. destruct (vars s !! q) as [x|] eqn:Ex.
  2:{ intros [= <- <-] Hr. by destruct (Hr dangling). }
  destruct (value_eq (m_type x) v (m_val x)) eqn:Ev.
  { intros [= <- <-] _. apply rtc_once. by apply (set_equal s [Asking q v] 0 q v x). }
  destruct (notify listener (m_cbs x) (m_val x) v s) as [r1 s1] eqn:En. intros H Hr.
  eapply rtc_l; [by apply (set_differs s [Asking q v] 0 q v x)|].
  assert (∀ f, r1 ≠ Crash f) as Hr1 by (intros f ->; injection H as <- <-; by destruct (Hr f)).
  etrans; [by eapply notify_alone|]. destruct r1 as [[]|e|f]; [|by injection H as <- <-|by destruct (Hr1 f)].
  destruct (notify_calls listener (m_cbs x) (m_val x) v s) as [l Hl]. rewrite En in Hl. cbn in Hl. subst s1.
  unfold setValue_store, mbind, stE_bind, var_at, query in H. cbn in H. rewrite Ex in H. injection H as <- <-.
  apply rtc_once. apply (set_stores _ [Storing q v] 0 q v x); [done|done|].
  intros j a Ha%list_elem_of_lookup_2. apply list_elem_of_singleton in Ha as ->. by intros [].
Qed.

(** What an orderly run keeps: the static has the value of the variable, or
    the one pending value once the listener was told. *)
Definition told (a : setter) (s : config) (x : ConfigVar) : Prop :=
  match a with
  | Telling _ v _ [] | Storing _ v => cached cb start (calls s) = as_u64 v
  | Telling _ _ _ [c] => c.2 = cb ∧ cached cb start (calls s) = as_u64 (m_val x)
  | _ => False
  end.

Record orderly_inv (c : config * list setter) : Prop := {
  o_var : ∃ x id, vars c.1 !! p = Some x ∧ m_cbs x = [(id, cb)] ∧
    ((∀ j a, c.2 !! j = Some a → ¬ pending p a) → cached cb start (calls c.1) = as_u64 (m_val x)) ∧
    (∀ j a, c.2 !! j = Some a → pending p a → told a c.1 x);
  o_other q y : q ≠ p → vars c.1 !! q = Some y → cb ∉ (m_cbs y).*2;
  o_one i j a b : c.2 !! i = Some a → c.2 !! j = Some b → pending p a → pending p b → i = j;
  o_tell i q v o r : c.2 !! i = Some (Telling q v o r) → q ≠ p → cb ∉ r.*2
}.

Lemma orderly_update s s' l i a b x x' : orderly_inv (s, l) → l !! i = Some a →
  vars s !! p = Some x → vars s' !! p = Some x' → m_cbs x' = m_cbs x →
  (∀ q y, q ≠ p → vars s' !! q = Some y → cb ∉ (m_cbs y).*2) →
  (∀ q v o r, b = Telling q v o r → q ≠ p → cb ∉ r.*2) →
  ((pending p a ∨ ∀ j c, l !! j = Some c → ¬ pending p c) ∧ pending p b ∧ told b s' x') ∨
  (pending p a ∧ ¬ pending p b ∧ cached cb start (calls s') = as_u64 (m_val x')) ∨
  (¬ pending p a ∧ ¬ pending p b ∧ cached cb start (calls s') = cached cb start (calls s) ∧ m_val x' = m_val x) →
  orderly_inv (s', <[i := b]> l).
Proof.
  intros [(y & id & Ey & Ec & Hq & Ht) _ H1 Htl] Hi Ex Ex' Hcbs Ho Hb Hcase. cbn in *. rewrite Ex in Ey. injection Ey as <-.
  assert (Hl : ∀ j c, <[i := b]> l !! j = Some c → (j = i ∧ c = b) ∨ (j ≠ i ∧ l !! j = Some c)).
  { intros j c [(-> & -> & _)|[? ?]]%list_lookup_insert_Some; auto. }
  assert (Hib : <[i := b]> l !! i = Some b) by (apply list_lookup_insert_eq; by eapply lookup_lt_Some).
  assert (Hoth : ∀ j c, j ≠ i → l !! j = Some c → <[i := b]> l !! j = Some c) by (intros j c Hne Hj; by rewrite list_lookup_insert_ne).
  assert (Halone : pending p a ∨ (∀ j c, l !! j = Some c → ¬ pending p c) → ∀ j c, j ≠ i → l !! j = Some c → ¬ pending p c).
  { intros [Ha|Hn] j c Hne Hj Hc; [|by eapply Hn]. apply Hne. by eapply (H1 j i). }
  assert (Htold : ∀ c, cached cb start (calls s') = cached cb start (calls s) → m_val x' = m_val x → told c s x → told c s' x').
  { intros [q v|q v o [|c' [|]]|q v|] Hca Hv; cbn; rewrite ?Hca, ?Hv; done. }
  split; cbn; [|done|..].
  - exists x', id. split; [done|]. split; [congruence|]. destruct Hcase as [(Hal & Hpb & Htb)|[(Hpa & Hpb & Hca)|(Hpa & Hpb & Hca & Hv)]].
    + split; [intros Hn; by destruct (Hn i b Hib)|]. intros j c [[-> ->]|[Hne Hj]]%Hl Hc; [done|]. by destruct (Halone Hal j c Hne Hj).
    + split; [done|]. intros j c [[-> ->]|[Hne Hj]]%Hl Hc; [done|]. by destruct (Halone (or_introl Hpa) j c Hne Hj).
    + split.
      * intros Hn. rewrite Hca, Hv. apply Hq. intros j c Hj Hc. destruct (decide (j = i)) as [->|Hne]; [congruence|]. by apply (Hn j c (Hoth j c Hne Hj)).
      * intros j c [[-> ->]|[Hne Hj]]%Hl Hc; [done|]. apply Htold; [done..|]. by eapply Ht.
  - assert (Hnob : ∀ j c, j ≠ i → l !! j = Some c → pending p b → ¬ pending p c).
    { intros j c Hne Hj Hpb. destruct Hcase as [(Hal & _)|[(_ & ? & _)|(_ & ? & _)]]; [|done..]. by eapply Halone. }
    intros j k c d [[-> ->]|[Hj Hc]]%Hl [[-> ->]|[Hk Hd]]%Hl Hpc Hpd; [done|..].
    + by destruct (Hnob k d Hk Hd).
    + by destruct (Hnob j c Hj Hc).
    + by eapply (H1 j k).
  - intros j q v o r [[-> <-]|[Hne Hj]]%Hl; [intros; by eapply Hb|by eapply Htl].
Qed.

(** A call of another listener, and the one that copies. *)
Lemma cached_call s d o v : cached cb start (calls (set_calls (λ k, k ++ [(d, o, v)]) s))
  = if decide (d = cb) then as_u64 v else cached cb start (calls s).
Proof.
  cbn. rewrite cached_app. unfold cached at 1. cbn. case_decide as E; [by rewrite E, Nat.eqb_refl|].
  by rewrite (proj2 (Nat.eqb_neq d cb)).
Qed.

Lemma orderly_step c c' : orderly_inv c → orderly c c' → orderly_inv c'.
Proof.
  intros I [Hs Hord]. pose proof I as [(x & id & Ex & Ec & Hq & Ht) Ho H1 Htl].
  destruct Hs as [s l q v|s l i q v y Hi Hy Hv|s l i q v y Hi Hy Hv|s l i q v o c r Hi Hc|s l i q v o c r e Hi Hc|s l i q v o Hi|s l i q v y Hi Hy Hlock];
    cbn in *.
  - assert (Hl : ∀ j c, (l ++ [Asking q v]) !! j = Some c → l !! j = Some c ∨ c = Asking q v).
    { intros j c [?|[_ Hj]]%lookup_app_Some; [by left|right]. by apply list_lookup_singleton_Some in Hj as [_ <-]. }
    split; cbn; [|done|..].
    + exists x, id. split_and!; [done..| |].
      * intros Hn. apply Hq. intros j a Hj. apply (Hn j). by apply lookup_app_l_Some.
      * intros j a [Hj| ->]%Hl Ha; [by eapply Ht|done].
    + intros j k a b [Hj| ->]%Hl [Hk| ->]%Hl Ha Hb; by eauto.
    + intros j q' v' o r [Hj|[=]]%Hl. by eapply Htl.
  - eapply (orderly_update s s l i (Asking q v) Finished x x); try done. by right; right; split_and!; try intros [].
  - destruct (decide (q = p)) as [->|Hne].
    + rewrite Ex in Hy. injection Hy as <-.
      assert (Hn : ∀ j a, l !! j = Some a → ¬ pending p a).
      { eapply (Hord i v (m_val x) (m_cbs x)); [|done]. apply list_lookup_insert_eq. by eapply lookup_lt_Some. }
      eapply (orderly_update s s l i _ _ x x); try done.
      * intros q' v' o r [= -> _ _ _]. done.
      * left. split; [by right|]. split; [done|]. rewrite Ec. cbn. auto.
    + eapply (orderly_update s s l i _ _ x x); try done.
      * intros q' v' o r [= <- _ _ <-] _. by eapply Ho.
      * right; right; cbn; tauto.
  - destruct (decide (q = p)) as [->|Hne].
    + pose proof (Ht i _ Hi eq_refl) as Htc. destruct r as [|? ?]; [|done]. destruct Htc as [Ecb _].
      eapply (orderly_update s (set_calls _ s) l i _ _ x x); try done; [by intros ???? [= -> _ _ _]|].
      left. split; [by left|]. split; [done|]. unfold told. by rewrite cached_call, decide_True.
    + assert (cb ∉ (c :: r).*2) as Hcb by by eapply Htl. apply not_elem_of_cons in Hcb as [Hcb Hr].
      eapply (orderly_update s (set_calls _ s) l i _ _ x x); try done; [by intros ???? [= _ _ _ <-]|].
      right; right. cbn [pending]. rewrite cached_call, decide_False by done. tauto.
  - destruct (decide (q = p)) as [->|Hne].
    + pose proof (Ht i _ Hi eq_refl) as Htc. destruct r as [|? ?]; [|done]. destruct Htc as [Ecb _]. by rewrite Ecb, silent in Hc.
    + assert (cb ∉ (c :: r).*2) as Hcb by by eapply Htl. apply not_elem_of_cons in Hcb as [Hcb Hr].
      eapply (orderly_update s (set_calls _ s) l i _ _ x x); try done.
      right; right. cbn [pending]. rewrite cached_call, decide_False by done. tauto.
  - eapply (orderly_update s s l i _ _ x x); try done.
    destruct (decide (q = p)) as [->|Hne]; [left|right; right; cbn; tauto]. split; [by left|]. split; [done|]. exact (Ht i _ Hi eq_refl).
  - destruct (decide (q = p)) as [->|Hne].
    + rewrite Ex in Hy. injection Hy as <-.
      eapply (orderly_update s (set_vars _ s) l i _ _ x (with_val v x)); try done; cbn; [by rewrite lookup_insert_eq| |].
      * intros q' y Hne. rewrite lookup_insert_ne by done. by apply Ho.
      * right; left. split_and!; [done|by intros []|]. exact (Ht i _ Hi eq_refl).
    + eapply (orderly_update s (set_vars _ s) l i _ _ x x); try done; cbn; [by rewrite lookup_insert_ne| |].
      * intros q' z Hne'. rewrite lookup_insert_Some. intros [[<- <-]|[_ Hz]]; [by apply (Ho q y)|by eapply Ho].
      * right; right; cbn; tauto.
Qed.

Lemma follows_orderly s : follows s → orderly_inv (s, []).
Proof.
  intros [(x & id & Ex & Ec & Hv) Ho]. split; cbn; [|done|by intros..].
  exists x, id. split_and!; [done..|by intros].
Qed.

Lemma orderly_run s c' : follows s → rtc orderly (s, []) c' → orderly_inv c'.
Proof. intros Hs Hr. remember (s, []) as c eqn:E. assert (orderly_inv c) as I by (subst; by apply follows_orderly). clear E.
  induction Hr as [|c1 c2 c3 H12 _ IH]; [done|]. apply IH. by eapply orderly_step.
Qed.

(** Two assignments that overlap. *)
Lemma overlap_run s x id v w : vars s !! p = Some x → m_cbs x = [(id, cb)] →
  value_eq (m_type x) v (m_val x) = false → value_eq (m_type x) w (m_val x) = false →
  ∃ s', rtc set_step (s, []) (s', [Finished; Finished]) ∧
    vars s' !! p = Some (with_val v x) ∧ cached cb start (calls s') = as_u64 w.
Proof.
  intros Ex Ec Hv Hw. set (o := m_val x).
  set (s2 := set_calls (λ k, k ++ [(cb, o, w)]) (set_calls (λ k, k ++ [(cb, o, v)]) s)).
  exists (set_vars <[p := with_val v (with_val w x)]> (set_vars <[p := with_val w x]> s2)).
  split; [|split; [apply lookup_insert_eq|]].
  2:{ change (cached cb start (calls (set_calls (λ k, k ++ [(cb, o, w)]) (set_calls (λ k, k ++ [(cb, o, v)]) s))) = as_u64 w).
      by rewrite cached_call, decide_True. }
  eapply rtc_l; [apply (set_starts s [] p v)|]. eapply rtc_l; [apply (set_starts s [Asking p v] p w)|]. cbn [app].
  eapply rtc_l; [by apply (set_differs _ _ 0 p v x)|]. eapply rtc_l; [by apply (set_differs _ _ 1 p w x)|]. cbn. rewrite Ec.
  eapply rtc_l; [by apply (set_tells _ _ 0 p v o (id, cb) [])|]. eapply rtc_l; [by apply (set_tells _ _ 1 p w o (id, cb) [])|]. cbn [list_insert insert].
  eapply rtc_l; [by apply (set_told _ _ 0 p v o)|]. eapply rtc_l; [by apply (set_told _ _ 1 p w o)|]. cbn [list_insert insert].
  assert (∀ l : list setter, Forall (λ a, ¬ reads_lock p a) l → ∀ j a, l !! j = Some a → ¬ reads_lock p a) as Hfree
    by (intros l Hl j a Hj; by eapply Forall_lookup_1 in Hl).
  eapply rtc_l; [apply (set_stores _ _ 1 p w x); [done|done|apply Hfree; repeat constructor; by intros []]|]. cbn [list_insert insert].
  apply rtc_once. apply (set_stores (set_vars <[p := with_val w x]> s2) [Storing p v; Finished] 0 p v (with_val w x)); [done|apply lookup_insert_eq|apply Hfree; repeat constructor; by intros []].
Qed.

(** C40: a setting follows its configuration variable, as long as
    assignments to the variable do not overlap.  Set up for a variable without
    other listeners, as [_HookIniter] and [_RequestSizeIniter] do, the
    static is the value of the variable converted to 64 bits, and stays so
    whatever is assigned, read from texts or loaded from documents one after
    the other, whether the listeners of other variables throw or not.  With
    any number of threads inside [setValue] of any variables, step by step,
    the two agree whenever no assignment to the variable is pending, provided
    none compared while another was pending.  But [setValue] releases the
    lock between calling the listeners and storing: two assignments that
    overlap can end with one value in the variable and the other in the
    static. *)
Theorem setting_follows s x : vars s !! p = Some x → m_cbs x = [] → (∀ q y, vars s !! q = Some y → cb ∉ (m_cbs y).*2) →
  start = as_u64 (m_val x) → calls s = [] →
  ∃ s0, init_connect_timeout p cb s = (Ret start, s0) ∧
    (∀ changes, let s' := fold_left (λ s c, run_change c s) changes s0 in
      ∃ y, vars s' !! p = Some y ∧ cached cb start (calls s') = as_u64 (m_val y)) ∧
    (∀ s' l, rtc orderly (s0, []) (s', l) → (∀ i a, l !! i = Some a → ¬ pending p a) →
      ∃ y, vars s' !! p = Some y ∧ cached cb start (calls s') = as_u64 (m_val y)) ∧
    (∀ v w, value_eq (m_type x) v (m_val x) = false → value_eq (m_type x) w (m_val x) = false →
      ∃ s' y, rtc set_step (s0, []) (s', [Finished; Finished]) ∧
        vars s' !! p = Some y ∧ m_val y = v ∧ cached cb start (calls s') = as_u64 w).
Proof.
  intros Ex Ecb Hno Hst Ecalls. eexists. split.
  { rewrite Hst. unfold init_connect_timeout, getValue, addListener.
    rewrite (stE_bind_ret _ _ s (m_val x) s) by (by rewrite (stE_bind_ret _ _ _ _ _ (var_at_ret _ _ _ Ex))).
    rewrite (stE_bind_ret _ _ s (u64 (s_fun_id s (m_type x) + 1))
      (set_vars <[p := with_cbs [(u64 (s_fun_id s (m_type x) + 1), cb)] x]>
        (set_ids (λ t, if decide (t = m_type x) then u64 (s_fun_id s (m_type x) + 1) else s_fun_id s t) s))); [reflexivity|].
    rewrite (stE_bind_ret _ _ _ _ _ (var_at_ret _ _ _ Ex)), get_bind, modify_bind, Ecb. done. }
  set (s0 := set_vars _ _). assert (follows s0) as H0.
  { split; cbn.
    - eexists _, _. rewrite lookup_insert_eq. split_and!; [done..|]. by rewrite Ecalls.
    - intros q y Hq. rewrite lookup_insert_ne by done. apply Hno. }
  split_and!.
  - intros changes s'. enough (follows s') as [(y & id & ? & _ & ?) _] by (by exists y).
    unfold s'. clear s'. revert H0. generalize s0. induction changes as [|c l IH]; intros s1 H1; [done|]. cbn. by apply IH, run_change_follows.
  - intros s' l Hr Hn. destruct (orderly_run s0 _ H0 Hr) as [(y & id & Hy & _ & Hv & _) _ _ _]. exists y. split; [done|]. by apply Hv.
  - intros v w Hv Hw. destruct (overlap_run s0 (with_cbs [(u64 (s_fun_id s (m_type x) + 1), cb)] x) (u64 (s_fun_id s (m_type x) + 1)) v w)
      as (s' & Hr & Hs & Hc); [apply lookup_insert_eq|done..|]. by eexists s', _.
Qed.
End follow.

(** The time-out of [connect], changed by a text and then to -1, which is no
    time-out. *)
Definition hook_config : config := (g_tcp_connect_timeout no_config).2.
Definition hook_var : ConfigVar := new_ConfigVar (TNum true 32) (B "tcp.connect.timeout") (VNum 5000) (B "tcp connect timeout").
Definition hook_changes : list (@change Tree.yaml) := [@ByText Tree.yaml 0 (B "250"); @ByValue Tree.yaml 0 (VNum (-1))].

Lemma hook_only q y : vars hook_config !! q = Some y → 9%nat ∉ (m_cbs y).*2.
Proof.
  change (vars hook_config) with (<[0%nat := hook_var]> (∅ : gmap nat ConfigVar)).
  rewrite lookup_insert_Some. intros [[_ <-]|[_ ?]]; [set_solver|done].
Qed.

Lemma setting_follows_witness : ∃ s0, init_connect_timeout 0 9 hook_config = (Ret 5000, s0) ∧
  (let s' := fold_left (λ s c, run_change (Y := Tree.yaml) Decimal.num_of (λ _ l, l) quiet_listener c s) hook_changes s0 in
   ∃ y, vars s' !! 0%nat = Some y ∧ cached 9 5000 (calls s') = as_u64 (m_val y)) ∧
  ∃ s' y, rtc (set_step quiet_listener) (s0, []) (s', [Finished; Finished]) ∧
    vars s' !! 0%nat = Some y ∧ m_val y = VNum 1 ∧ cached 9 5000 (calls s') = as_u64 (VNum 2).
Proof.
  destruct (setting_follows (Y := Tree.yaml) Decimal.num_of (λ _ l, l) quiet_listener 0 9 5000 (λ _ _, eq_refl) hook_config hook_var
    eq_refl eq_refl hook_only eq_refl eq_refl) as (s0 & H0 & H1 & _ & H2).
  exists s0. split; [exact H0|]. split; [exact (H1 hook_changes)|].
  exact (H2 (VNum 1) (VNum 2) eq_refl eq_refl).
Defined.

Example timeout_disabled :
  let s' := fold_left (λ s c, run_change (Y := Tree.yaml) Decimal.num_of (λ _ l, l) quiet_listener c s) hook_changes (init_connect_timeout 0 9 hook_config).2 in
  cached 9 5000 (calls s') = 2 ^ 64 - 1.
Proof. by vm_compute. Qed.
